(* ===== verification/_CoqProject ===== *)
-Q . S2P
Prelude.v
CppString.v
Pcap.v
Storage.v
TaskTypes.v
Messages.v
Endian.v
PdefTypes.v
Executor.v
Compiler.v
CompilerCorrect.v
Layout.v
Protocol.v
Lexer.v
Segments.v
Parser.v
ParserCorrect.v
Pdef.v
FilterThread.v
CaptureWorker.v
CaptureUtil.v
PdefWriteback.v
TaskMgr.v
TaskMgrCorrect.v
ProcData.v
CaptureManager.v
CaptureManagerCorrect.v
CaptureDecision.v
System.v
Cleanup.v
CleanupCorrect.v
Archive.v
LockFreeQueue.v
Json.v
Config.v
UrlHandlers.v
HttpApi.v
ProcessResolver.v
SampleThread.v
HttpText.v
HttpConnection.v
Client.v
Logger.v
Channel.v
Timers.v
HttpThread.v
Startup.v
Services.v
SystemLoad.v
Epoll.v
EpollCorrect.v
Compress.v
ProtocolMemory.v
