(* ===== verification/Prelude.v ===== *)
(** * Verification of rxtracenetcap

    rxtracenetcap is a packet capture service: an HTTP front end takes capture
    requests, a manager thread turns them into tasks, worker threads capture
    with libpcap into files, and a filter thread keeps the packets that a
    protocol definition (PDEF) accepts.  PDEF sources are compiled to bytecode.
    This library models the program's own logic, from the sources under src/,
    and proves what makes it correct.

    ** Parts of the program and the files that model them

    The PDEF compiler and its runtime (src/src/pdef, src/src/runtime,
    src/src/utils, in C):
    - [Endian] (endian.h): the reads of big and little endian integers;
    - [PdefTypes] (pdef_types.h/.c): instructions, fields, structs, rules;
    - [Lexer] (lexer.c): tokens; the state is the C struct, a source text with
      a position;
    - [Parser] (parser.c, to line 870): recursive descent over a state of
      lexer, two tokens and the temporary tables, one definition per C
      function; [ParserCorrect]: its invariant and termination;
    - [Compiler] (parser.c, from line 870): flattening of nested structs and
      code generation; [Layout], [CompilerCorrect]: what they compute;
    - [Executor] (executor.c): the bytecode machine, as a step function and a
      loop with fuel;
    - [Protocol] (protocol.c): matching a packet against the rules, sliding
      windows, detection of the byte order, also by several threads;
    - [ProtocolMemory] (protocol.c, [protocol_free]): the release of a
      definition, over a heap of its allocations;
    - [Pdef]: the parts composed, from source text to match.

    The capture service (src/src, in C++):
    - [CppString] (std::string, printf), [Pcap] (libpcap and the file system,
      as an interface with laws and an instance in memory);
    - [TaskTypes] (rxcapturetasktypes.h), [Messages] (rxcapturemessages.h,
      rxmsgtypes.h): tasks and messages; a posted message is an element of an
      [outbox];
    - [TaskMgr] (rxsafetaskmgr.h): the table of tasks, over an explicit heap of
      task objects; [TaskMgrCorrect]: its refinement of a finite map;
    - [Storage] (rxstorageutils.cpp): file names and rotation; [Segments]: a
      rotated capture;
    - [CaptureWorker] (rxcapturethread.cpp, rxcapturesession.cpp): one capture
      from its start message to its reports;
    - [FilterThread] (rxfilterthread.cpp): filtering of a raw file and of
      single packets;
    - [CaptureUtil] (the helpers at the top of rxcapturemanagerthread.cpp and
      a few of legacy_core_common.cpp): JSON escapes, hints, signatures;
    - [PdefWriteback] (rxcapturemanagerthread.cpp from line 2351,
      rxreloadthread.cpp): writing a detected byte order into a PDEF file;
    - [ProcData] (rxprocdata.cpp, rxstrategyconfig.cpp): settings, the
      configuration snapshot of a capture, the ring of alerts;
    - [CaptureManager] (rxcapturemanagerthread.cpp): every handler of the
      manager thread, over a state with the task manager, the round robin
      counters, the cooldowns, the alerts and the PDEF usage table;
      [CaptureManagerCorrect], [CaptureDecision]: its invariant, the decision
      on a request, histories of messages;
    - [System]: manager, worker and filter thread together, one capture from
      the request to the completed task.
    - [Cleanup] (rxcleanupthread.cpp): the queue of finished files, batch
      archives, pruning of archives, records and temporary definitions, with
      a clock reading for each file, batch and pass;
      [CleanupCorrect]: what a batch reports and what pruning removes;
      [Compress]: the compression of a single file, which nothing calls;
    - [Archive]: cleanup thread and manager together, from a queued file to
      the archive listed in its task;
    - [SampleThread] (rxsamplethread.cpp): thresholds and alerts; [SystemLoad]:
      the load it reads from /proc, in doubles;
    - [ProcessResolver] (rxprocessresolver.cpp): processes by name, listening
      ports, over the texts and links of /proc;
    - [LockFreeQueue] (rxlockfreequeue.c): the ring, as functions and cut into
      its memory accesses.

    Configuration and the HTTP interface:
    - [Json]: what the program uses of RapidJSON, as a class with an instance;
    - [Config] (rxserverconfig.cpp, rxstrategyconfig.cpp, [reload_mgr] of
      legacy_core.h): loading, defaults, the log path, the pair of strategy
      objects that a reload swaps;
    - [UrlHandlers] (rxurlhandlers.cpp): every handler, over a class of the
      file calls of the PDEF handlers;
    - [HttpApi] (rxhttpresdataprocess.cpp, rxprocdata.cpp): the handler table,
      the state of a connection, and a request's way through connection,
      manager and back.

    The network core (src/core) and the HTTP server:
    - [HttpText] (legacy_core_common.cpp, legacy_core_net.cpp): the text of
      request and response heads, printed and parsed;
    - [HttpConnection] ([base_connect], [http_base_process],
      [http_res_process]): the buffers and states of one connection, over a
      socket that gives bytes and takes bytes;
    - [Channel] ([channel_data_process]): the queue of messages of a thread,
      with its wake-up socket, for any number of senders;
    - [Timers] ([base_timer]): the timers of a thread;
    - [HttpThread] (rxhttpthread.cpp, [common_obj_container]): a server thread,
      its connections, its channel and its timers together;
    - [Epoll] (core/legacy_core_net.cpp, [base_net_obj], [common_epoll],
      [common_obj_container]): the objects of a thread at their addresses, what
      holds them, their registration with the kernel, the loop of the thread;
      [EpollCorrect]: the memory stays sound, and the link to [HttpThread];
    - [Client] (tools/rxcli_main.cpp): the command-line client, from the tasks
      of its file to the answers it shows;
    - [Logger] (legacy_core_common.cpp): the configuration text of the log, its
      levels, what is written to which file;
    - [Startup] (main.cpp, rxhttpserver.cpp, rxprocdata.cpp, [base_net_thread],
      [listen_process]): which configuration is read, which threads run under
      which names, which thread a new socket goes to;
    - [Services]: the loop of a service thread against an interface of its
      virtual functions, with the capture manager, the cleanup, the sample and
      the reload thread as instances; what another thread did to the shared
      task manager comes in with each message and timer.

    ** Conventions

    Machine integers are [Z] with the wrap-around written out ([u32], [+64]);
    strings are [string], bytes are [byte].  Code that can go wrong returns an
    [outcome]: a result, a failure with its message, [Undef] for undefined
    behaviour (a read outside an array, a freed object, a signed overflow) or
    [NoFuel].  Threads communicate by messages, except for the task manager,
    which the capture manager and the cleanup thread change and the HTTP
    threads query.  It has no lock; the model performs its operations whole,
    one after another, and says nothing of operations that overlap, except
    that they can read freed memory
    ([TaskMgrCorrect.overlapping_query_undefined]).  A handler is a function
    from its state, its inputs (clocks, configuration, process table, what
    other threads did to the shared tasks) and a message to the next state and
    the messages it posts.  Files and libpcap are
    the class [Pcap]: the theorems hold for every implementation of its laws.

    ** What is proved

    - Compilation: the bytecode of a rule decides the conjunction of its
      conditions in both byte orders, is well formed, reads only the packet
      and ends ([CompilerCorrect], [Executor], [Layout]); a parsed source
      matches as its conditions say ([Pdef]); the lexer inverts a printer;
      parsing ends on every source, with a definition or an error once the
      grammar accepts it.
    - Matching: a packet matches when some rule matches at some offset in an
      admissible byte order; a detected order is final, also with concurrent
      threads ([Protocol]).
    - Tasks: the task manager refines a finite map; its operations, one after
      another, never touch freed memory and free each object once; its
      counters count ([TaskMgrCorrect]).
    - Files: rotation loses nothing when the pattern has a sequence number,
      every file opens and no counter overflows; a worker stores exactly the
      packets delivered up to its deadline; the filter thread keeps exactly
      the accepted ones ([Segments], [CaptureWorker], [FilterThread]).
    - Requests: duplicates, capacity and acceptance as documented; the limit
      on concurrent captures holds and messages are handled without undefined
      behaviour over every history in which reports are orderly (none puts an
      idle task in progress; the code does not check it) and ids are left; a
      request with a blank filter is undefined, since [StringTrim] reads in
      front of the text; alerts respect the cooldown ([CaptureDecision]).
    - End to end: an accepted capture whose run is good completes its task
      with the right packets and frees its slot, with and without a protocol
      filter ([System]).
    - Archiving: every queued file is reported once, as archived or failed; a
      reported archive reaches its task; pruning removes the expired and the
      fewest oldest of those that can be removed ([CleanupCorrect], [Archive]).
    - The ring: every interleaving of one producer and one consumer is a run
      of a bounded FIFO, without waiting ([LockFreeQueue]).
    - Configuration: files round trip, a bad file never replaces a good
      configuration ([Config]).
    - HTTP: downloads stay in their directories; a stored upload parses; status
      and stop as they are ([UrlHandlers], [HttpApi]); heads are read back as
      printed ([HttpText]); every start request whose body comes with the end of
      its head and whose filter is not blank is answered once, from the bytes
      that come in to the bytes that go out ([HttpConnection]).
    - Threads: messages arrive in order, once, and wake their thread
      ([Channel]); timers fire once, not early, and within two checks
      ([Timers]); a reply reaches the connection it is for or none, and no
      connection outlives its timer ([HttpThread]); no event of epoll reaches an
      object that is gone, and a refused socket leaves no trace
      ([EpollCorrect]).
    - The client: the server reads from its request the capture the task stands
      for, and the client takes status and body from the answer ([Client]).
    - The process: what start-up leaves wired when no thread has to be deleted
      ([Startup]); the periodic work goes on, an edited strategy comes into force ([Services]); no line of the log is
      lost once it is configured ([Logger]).
    - Observation: the listening ports of a process, the alerts of a sample,
      the load it sees ([ProcessResolver], [SampleThread], [SystemLoad]).
    - Text: escapes, hints, file names, inferred ports, signatures and the
      edit of PDEF files ([CaptureUtil], [Storage], [PdefWriteback]).

    Theorems about defects state what the code does: the loss of segments by
    rotation without a sequence number, the wrap-around of the bounds guard
    for offsets near 2^32, and others; each is described where it is proved.

    ** Fuel

    The bytecode machine gets the length of the program plus one as fuel,
    enough for forward jumps ([Executor.execute_terminates]); the lexer the
    length of the source plus one; every loop of the parser the bound
    [parser_fuel] computed from the source length, enough by
    [Pdef.pdef_parse_terminates]; the filter loop the number of packets plus
    one.  The loop of a capture job consumes one event per iteration and
    returns [NoFuel] only when the events end before the job does.

    ** What is not modelled

    Sockets, the kernel's epoll and threads themselves (what they give is an
    argument, a step of a relation or an interface with the laws of the manual),
    RapidJSON itself, the calls of the log inside the modelled
    functions (the logger has its own file), the usage text of the client and the debug
    printing of the PDEF structures: they are system calls, third-party code or
    output only.  Measurements of type
    double in alerts are left out: no decision of the modelled code reads
    them.  Where a handler casts a message to its class and returns on failure,
    the constructor of [message] decides. *)

From Stdlib Require Export Strings.Byte Strings.Ascii Strings.String NArith.
From stdpp Require Export base list numbers strings gmap.
From Stdlib Require Export ZArith Lia.

#[global] Open Scope Z_scope.

(** ** Machine integers

    A C integer of width [w] is the [Z] it denotes; every operation that can
    leave the range is followed by the cast that C applies. *)

Definition u8 (x : Z) : Z := x mod 2 ^ 8.
Definition u16 (x : Z) : Z := x mod 2 ^ 16.
Definition u32 (x : Z) : Z := x mod 2 ^ 32.
Definition u64 (x : Z) : Z := x mod 2 ^ 64.

Definition INT_MAX : Z := 2 ^ 31 - 1.
Definition LONG_MAX : Z := 2 ^ 63 - 1.
Definition LONG_MIN : Z := - 2 ^ 63.

(** Conversion of an unsigned value to the signed type of the same width. *)
Definition signed_cast (w x : Z) : Z :=
  let y := x mod 2 ^ w in if y <? 2 ^ (w - 1) then y else y - 2 ^ w.

Declare Scope c_scope.
Delimit Scope c_scope with c.
Notation "a +32 b" := (u32 (a + b)) (at level 50, left associativity) : c_scope.
Notation "a *32 b" := (u32 (a * b)) (at level 40, left associativity) : c_scope.
Notation "a -32 b" := (u32 (a - b)) (at level 50, left associativity) : c_scope.
Notation "a +64 b" := (u64 (a + b)) (at level 50, left associativity) : c_scope.
Notation "a -64 b" := (u64 (a - b)) (at level 50, left associativity) : c_scope.
#[global] Open Scope c_scope.

Definition UINT32_MAX : Z := 2 ^ 32 - 1.
Definition UINT64_MAX : Z := 2 ^ 64 - 1.

Create HintDb cint.
Create Rewrite HintDb cint.

Lemma u32_range x : 0 <= u32 x < 2 ^ 32.
Proof. unfold u32. apply Z.mod_pos_bound. lia. Qed.

Lemma u64_range x : 0 <= u64 x < 2 ^ 64.
Proof. unfold u64. apply Z.mod_pos_bound. lia. Qed.

Lemma u32_small x : 0 <= x < 2 ^ 32 -> u32 x = x.
Proof. apply Z.mod_small. Qed.

Lemma u64_small x : 0 <= x < 2 ^ 64 -> u64 x = x.
Proof. apply Z.mod_small. Qed.

#[export] Hint Resolve u32_range u64_range : cint.
#[export] Hint Rewrite u32_small u64_small using lia : cint.

(** ** Bytes *)

(** The value of a byte of memory read as a [uint8_t]. *)
Definition b2z (b : byte) : Z := Z.of_N (Byte.to_N b).

Lemma b2z_range b : 0 <= b2z b < 256.
Proof.
  unfold b2z. pose proof (Byte.to_N_bounded b). lia.
Qed.

#[export] Hint Resolve b2z_range : cint.

(** ** Arrays

    [aget] and [aset] are C array accesses: [None] is an access outside the
    array, which C leaves undefined. *)

Definition aget {A} (l : list A) (i : Z) : option A :=
  if (0 <=? i) && (i <? Z.of_nat (length l)) then l !! Z.to_nat i else None.

Definition aset {A} (l : list A) (i : Z) (x : A) : option (list A) :=
  if (0 <=? i) && (i <? Z.of_nat (length l)) then Some (<[Z.to_nat i := x]> l) else None.

Lemma aget_nat {A} (l : list A) (n : nat) : aget l (Z.of_nat n) = l !! n.
Proof.
  unfold aget. rewrite Nat2Z.id. destruct (Z.leb_spec 0 (Z.of_nat n)); [|lia].
  destruct (Z.ltb_spec (Z.of_nat n) (Z.of_nat (length l))); [done|].
  symmetry. apply lookup_ge_None_2. lia.
Qed.

Lemma aget_Some_lt {A} (l : list A) i x :
  aget l i = Some x -> 0 <= i < Z.of_nat (length l).
Proof.
  unfold aget. destruct (Z.leb_spec 0 i), (Z.ltb_spec i (Z.of_nat (length l))); done.
Qed.

Lemma aget_is_Some {A} (l : list A) i :
  0 <= i < Z.of_nat (length l) -> is_Some (aget l i).
Proof.
  intros Hi. rewrite <- (Z2Nat.id i) by lia. rewrite aget_nat. apply lookup_lt_is_Some. lia.
Qed.

Lemma aset_length {A} (l l' : list A) i x :
  aset l i x = Some l' -> length l' = length l.
Proof.
  unfold aset. destruct (_ && _); [|done]. intros [= <-]. apply length_insert.
Qed.

(** ** C strings

    A [string] of the model is the text before the terminating NUL. *)

(** The first [n] characters, as [strncpy] into a zeroed buffer of [n+1]
    bytes, or [snprintf] into a buffer of [n+1] bytes, keeps them. *)
Fixpoint str_take (n : nat) (s : string) : string :=
  match n, s with
  | S n', String c s' => String c (str_take n' s')
  | _, _ => EmptyString
  end.

Fixpoint str_drop (n : nat) (s : string) : string :=
  match n, s with
  | O, _ => s
  | S n', String _ s' => str_drop n' s'
  | S _, EmptyString => EmptyString
  end.

(** [strchr(s, c) - s]. *)
Fixpoint str_index (c : ascii) (s : string) : option nat :=
  match s with
  | EmptyString => None
  | String d s' => if Ascii.eqb d c then Some 0%nat else option_map S (str_index c s')
  end.

(** [%u], [%lu] and [%llu] of [printf]; 20 digits hold every [uint64_t]. *)
Definition digit_char (d : Z) : ascii := ascii_of_nat (48 + Z.to_nat d).

Fixpoint fmt_digits (fuel : nat) (z : Z) : string :=
  match fuel with
  | O => EmptyString
  | S n =>
      if z <? 10 then String (digit_char z) EmptyString
      else fmt_digits n (z / 10) +:+ String (digit_char (z mod 10)) EmptyString
  end.

Definition fmt_u (z : Z) : string := fmt_digits 20 z.

(** [%d] of [printf]. *)
Definition fmt_d (z : Z) : string :=
  if z <? 0 then "-" +:+ fmt_u (- z) else fmt_u z.

Lemma str_take_length n s : (String.length (str_take n s) <= n)%nat.
Proof.
  revert s. induction n as [|n IH]; intros [|c s]; simpl; try lia.
  specialize (IH s). lia.
Qed.

Lemma str_take_all n s : (String.length s <= n)%nat -> str_take n s = s.
Proof.
  revert s. induction n as [|n IH]; intros [|c s]; simpl; try done; [lia|].
  intros H. f_equal. apply IH. lia.
Qed.

Lemma str_app_cons c s1 s2 : String c s1 +:+ s2 = String c (s1 +:+ s2).
Proof. done. Qed.

Lemma str_app_nil s : "" +:+ s = s.
Proof. done. Qed.

Lemma str_take_drop n s : str_take n s +:+ str_drop n s = s.
Proof.
  revert s. induction n as [|n IH]; intros [|c s]; simpl; try done.
  by rewrite str_app_cons, IH.
Qed.

Lemma str_app_nil_r s : s +:+ "" = s.
Proof. induction s as [|c s IH]; [done|by rewrite str_app_cons, IH]. Qed.

Lemma str_app_assoc s1 s2 s3 : (s1 +:+ s2) +:+ s3 = s1 +:+ (s2 +:+ s3).
Proof. induction s1 as [|c s IH]; [done|by rewrite !str_app_cons, IH]. Qed.

Lemma str_length_app s1 s2 :
  String.length (s1 +:+ s2) = (String.length s1 + String.length s2)%nat.
Proof. induction s1 as [|c s IH]; [done|rewrite str_app_cons; simpl; by rewrite IH]. Qed.

Lemma str_drop_app s1 s2 : str_drop (String.length s1) (s1 +:+ s2) = s2.
Proof. induction s1; [done|]. by rewrite str_app_cons. Qed.

Lemma str_drop_length n s : String.length (str_drop n s) = (String.length s - n)%nat.
Proof. revert s. induction n as [|n IH]; intros [|c s]; simpl; auto. Qed.

(** ** Loops

    [while fuel cond body a] runs the C loop [while (cond) body] from [a].
    [while_exit] shows, under a measure that the body decreases, that a loop
    given at least the measure as fuel stops because its condition is false. *)

Section While.
Context {A : Type} (cond : A -> bool) (body : A -> A).

Fixpoint while (fuel : nat) (a : A) : A :=
  match fuel with
  | O => a
  | S n => if cond a then while n (body a) else a
  end.

Context (I : A -> Prop) (m : A -> nat).
Hypothesis body_ok : forall a, I a -> cond a = true -> I (body a) /\ (m (body a) < m a)%nat.

Lemma while_exit fuel a :
  I a -> (m a <= fuel)%nat ->
  I (while fuel a) /\ cond (while fuel a) = false.
Proof.
  revert a. induction fuel as [|n IH]; intros a Ha Hm; simpl.
  - destruct (cond a) eqn:E; [|done].
    destruct (body_ok a Ha E). lia.
  - destruct (cond a) eqn:E; [|done].
    destruct (body_ok a Ha E). apply IH; [done|lia].
Qed.

Lemma while_fuel_irrel n1 n2 a :
  I a -> (m a <= n1)%nat -> (m a <= n2)%nat -> while n1 a = while n2 a.
Proof.
  revert n2 a. induction n1 as [|n1 IH]; intros n2 a Ha H1 H2; destruct n2 as [|n2]; simpl;
    try done; destruct (cond a) eqn:E; try done; destruct (body_ok a Ha E); try lia.
  apply IH; [done|lia|lia].
Qed.

Lemma while_unfold fuel a :
  I a -> (m a <= fuel)%nat ->
  while fuel a = if cond a then while fuel (body a) else a.
Proof.
  intros Ha Hm. destruct (cond a) eqn:E.
  - destruct (body_ok a Ha E) as [Hb Hlt]. destruct fuel as [|n]; [lia|].
    simpl while at 1. rewrite E. apply while_fuel_irrel; [done|lia|lia].
  - destruct fuel; simpl; by rewrite ?E.
Qed.
End While.

(** A relation between the start and every later state of a loop. *)
Lemma while_preserves {A} (R : A -> A -> Prop) cond body fuel a :
  (forall x, R x x) -> (forall x y z, R x y -> R y z -> R x z) ->
  (forall x, cond x = true -> R x (body x)) ->
  R a (while cond body fuel a).
Proof.
  intros Hr Ht Hb. revert a. induction fuel as [|n IH]; intros a; simpl; [done|].
  destruct (cond a) eqn:E; [|done]. eapply Ht; [by apply Hb|apply IH].
Qed.

(** ** Tactics *)

(** Case analysis on the innermost [if] or [match] of the goal or of [H]. *)
Ltac destr_goal :=
  match goal with
  | |- context [match ?x with _ => _ end] =>
      lazymatch x with
      | context [match _ with _ => _ end] => fail
      | _ => let E := fresh "E" in destruct x eqn:E
      end
  end.

Ltac destr_in H :=
  match type of H with
  | context [match ?x with _ => _ end] =>
      lazymatch x with
      | context [match _ with _ => _ end] => fail
      | _ => let E := fresh "E" in destruct x eqn:E
      end
  end.

(** Turn the boolean comparisons of the code into propositions. *)
Ltac zbool :=
  rewrite ?andb_true_iff, ?orb_false_iff, ?negb_true_iff, ?negb_false_iff,
    ?Z.ltb_lt, ?Z.leb_le, ?Z.ltb_ge, ?Z.leb_gt, ?Z.eqb_eq, ?Z.eqb_neq,
    ?Z.geb_le, ?Z.gtb_lt in *.

(** Unfold the casts and close a bound on them. *)
Ltac solve_u := unfold u8, u16, u32, u64, UINT32_MAX, UINT64_MAX in *; lia.

(** ** Outcomes of fallible code

    A C function that reports failure through [parser_error] and [false] is
    [Fails] with the message; [Undef] is undefined behaviour (an access outside
    an array); [NoFuel] is a loop that is still running. *)

Inductive outcome (A : Type) :=
  | Done (a : A)
  | Fails (msg : string)
  | Undef
  | NoFuel.
Arguments Done {A} a.
Arguments Fails {A} msg.
Arguments Undef {A}.
Arguments NoFuel {A}.

#[export] Instance outcome_ret : MRet outcome := @Done.
#[export] Instance outcome_bind : MBind outcome := fun A B f m =>
  match m with
  | Done a => f a
  | Fails e => Fails e
  | Undef => Undef
  | NoFuel => NoFuel
  end.

#[export] Instance Done_inj {A} : Inj (=) (=) (@Done A).
Proof. by intros ?? [= ->]. Qed.

Lemma outcome_bind_done {A B} (f : A -> outcome B) a : (Done a ≫= f) = f a.
Proof. done. Qed.

Lemma outcome_bind_Done_inv {A B} (f : A -> outcome B) m b :
  (m ≫= f) = Done b -> exists a, m = Done a /\ f a = Done b.
Proof. destruct m; simpl; try done. eauto. Qed.

(** [a + b], [b] not negative, in the signed type whose largest value is
    [max]: overflow is undefined. *)
Definition add_signed (max a b : Z) : outcome Z := if a + b <=? max then Done (a + b) else Undef.

Lemma add_signed_fits max a b : a + b <= max -> add_signed max a b = Done (a + b).
Proof. intros H. unfold add_signed. by destruct (Z.leb_spec (a + b) max); [|lia]. Qed.

(** [vsnprintf(p->error_msg, sizeof(p->error_msg), ...); return false;] *)
Definition parser_error {A} (msg : string) : outcome A := Fails (str_take 511 msg).

(** The run ends, with a result or a reported error, without undefined
    behaviour. *)
Definition reports {A} (m : outcome A) : Prop :=
  match m with Done _ | Fails _ => True | Undef | NoFuel => False end.

Lemma reports_bind {A B} (m : outcome A) (f : A -> outcome B) :
  reports m -> (forall a, m = Done a -> reports (f a)) -> reports (m ≫= f).
Proof. destruct m; simpl; auto. Qed.

Lemma reports_error {A} msg : reports (parser_error (A := A) msg).
Proof. done. Qed.

Create HintDb outcomes.
#[export] Hint Resolve reports_bind reports_error : outcomes.
