(* ===== verification/CppString.v ===== *)
(** * std::string and printf

    The operations of [std::string] and the [printf] conversions that the C++
    components use, with the facts about them that the components share.  A
    position is a [nat]; [None] is [std::string::npos]. *)

From S2P Require Import Prelude.

(** ** Searching *)

Fixpoint is_prefix (p s : string) : bool :=
  match p, s with
  | EmptyString, _ => true
  | String c p', String d s' => Ascii.eqb c d && is_prefix p' s'
  | String _ _, EmptyString => false
  end.

(** [s.find(needle)]. *)
Fixpoint find_str (needle s : string) : option nat :=
  if is_prefix needle s then Some 0%nat
  else match s with
       | EmptyString => None
       | String _ s' => option_map S (find_str needle s')
       end.

(** [s.find(needle, from)]. *)
Definition find_str_from (needle s : string) (from : nat) : option nat :=
  option_map (Nat.add from) (find_str needle (str_drop from s)).

(** [s.rfind(c)] and [s.find_last_of(c)]. *)
Fixpoint rfind_char (c : ascii) (s : string) : option nat :=
  match s with
  | EmptyString => None
  | String d s' =>
      match rfind_char c s' with
      | Some n => Some (S n)
      | None => if Ascii.eqb d c then Some 0%nat else None
      end
  end.

(** ** Editing *)

(** [s.substr(pos, n)]; [pos <= s.size()] at every call. *)
Definition substr (s : string) (pos n : nat) : string := str_take n (str_drop pos s).

(** [s.insert(pos, t)]. *)
Definition insert_at (pos : nat) (t s : string) : string := str_take pos s +:+ t +:+ str_drop pos s.

(** [s.replace(pos, n, t)]. *)
Definition replace_at (pos n : nat) (t s : string) : string :=
  str_take pos s +:+ t +:+ str_drop (pos + n) s.

(** [s.push_back(c)]. *)
Definition push_back (s : string) (c : ascii) : string := s +:+ String c EmptyString.

Definition is_empty (s : string) : bool := match s with EmptyString => true | _ => false end.

(** [s[s.size() - 1] == c] of a non-empty string. *)
Fixpoint ends_with (c : ascii) (s : string) : bool :=
  match s with
  | EmptyString => false
  | String d EmptyString => Ascii.eqb d c
  | String _ s' => ends_with c s'
  end.

(** ** printf *)

Fixpoint zeros (n : nat) : string :=
  match n with O => EmptyString | S n' => String "0" (zeros n') end.

(** [%0wd]: a sign counts towards the width. *)
Definition fmt_0d (w : nat) (z : Z) : string :=
  if z <? 0 then "-" +:+ zeros (w - 1 - String.length (fmt_u (- z))) +:+ fmt_u (- z)
  else zeros (w - String.length (fmt_u z)) +:+ fmt_u z.

(** ** Occurrences *)

(** [c] occurs in [s]. *)
Fixpoint has_char (c : ascii) (s : string) : bool :=
  match s with
  | EmptyString => false
  | String d s' => Ascii.eqb d c || has_char c s'
  end.

Lemma is_prefix_app p s : is_prefix p (p +:+ s) = true.
Proof. induction p as [|c p IH]; [done|]. rewrite str_app_cons. simpl. by rewrite Ascii.eqb_refl. Qed.

Lemma is_prefix_spec p s : is_prefix p s = true -> s = p +:+ str_drop (String.length p) s.
Proof.
  revert s. induction p as [|c p IH]; intros [|d s]; simpl; try done.
  destruct (Ascii.eqb_spec c d) as [->|]; [|done]. intros H. rewrite str_app_cons. by f_equal; apply IH.
Qed.

(** The text around the first occurrence. *)
Lemma find_str_spec needle s n :
  find_str needle s = Some n ->
  s = str_take n s +:+ needle +:+ str_drop (n + String.length needle) s.
Proof.
  revert n. induction s as [|c s IH]; intros n.
  - simpl. destruct (is_prefix needle "") eqn:E; [|done]. intros [= <-].
    by apply is_prefix_spec in E.
  - cbn [find_str]. destruct (is_prefix needle (String c s)) eqn:E.
    + intros [= <-]. by apply is_prefix_spec in E.
    + destruct (find_str needle s) as [m|]; [|done]. intros [= <-]. cbn [str_take Nat.add str_drop].
      rewrite str_app_cons. f_equal. by apply IH.
Qed.

Lemma find_str_le needle s n : find_str needle s = Some n -> (n + String.length needle <= String.length s)%nat.
Proof.
  revert n. induction s as [|c s IH]; intros n; cbn [find_str].
  - destruct (is_prefix needle "") eqn:E; [|done]. intros [= <-]. by destruct needle.
  - destruct (is_prefix needle (String c s)) eqn:E.
    + intros [= <-]. apply is_prefix_spec in E. rewrite E, str_length_app. lia.
    + destruct (find_str needle s) as [m|]; [|done]. intros [= <-].
      specialize (IH m eq_refl). simpl. lia.
Qed.

(** [needle] is found no later than any of its occurrences. *)
Lemma find_str_app needle a b :
  exists n, find_str needle (a +:+ needle +:+ b) = Some n /\ (n <= String.length a)%nat.
Proof.
  induction a as [|c a IH].
  - rewrite str_app_nil. exists 0%nat. split; [|done].
    destruct needle as [|d needle]; [by destruct b|].
    rewrite str_app_cons. cbn [find_str]. by rewrite <- str_app_cons, is_prefix_app.
  - rewrite str_app_cons. cbn [find_str]. destruct (is_prefix _ _).
    + exists 0%nat. simpl. split; [done|lia].
    + destruct IH as (n & -> & Hn). exists (S n). simpl. split; [done|lia].
Qed.

Lemma find_str_none needle a b : find_str needle (a +:+ needle +:+ b) <> None.
Proof. destruct (find_str_app needle a b) as (n & -> & _). done. Qed.

Lemma rfind_char_spec c s n :
  rfind_char c s = Some n ->
  s = str_take n s +:+ String c (str_drop (S n) s) /\ has_char c (str_drop (S n) s) = false.
Proof.
  revert n. induction s as [|d s IH]; intros n; [done|]. cbn [rfind_char].
  destruct (rfind_char c s) as [m|] eqn:E.
  - intros [= <-]. destruct (IH m eq_refl) as [H1 H2]. cbn [str_take]. rewrite str_app_cons.
    cbn [str_drop] in *. split; [by f_equal|done].
  - destruct (Ascii.eqb_spec d c) as [->|]; [|done]. intros [= <-]. split; [done|].
    cbn [str_drop]. clear IH. induction s as [|e s IHs]; [done|].
    cbn [rfind_char] in E. simpl. destruct (rfind_char c s); [done|].
    destruct (Ascii.eqb_spec e c); [done|]. by apply IHs.
Qed.

Lemma rfind_char_none c s : rfind_char c s = None <-> has_char c s = false.
Proof.
  induction s as [|d s IH]; [done|]. simpl. destruct (rfind_char c s) as [m|].
  - split; [done|]. destruct IH as [_ IH]. rewrite orb_false_iff. intros [_ H]. by apply IH in H.
  - destruct (Ascii.eqb_spec d c); simpl; [done|]. tauto.
Qed.

(** The last [c] of [a ++ c :: b] is that one when [b] has none. *)
Lemma rfind_char_app c a b :
  has_char c b = false -> rfind_char c (a +:+ String c b) = Some (String.length a).
Proof.
  intros Hb. induction a as [|d a IH].
  - rewrite str_app_nil. simpl. apply rfind_char_none in Hb as ->. by rewrite Ascii.eqb_refl.
  - rewrite str_app_cons. cbn [rfind_char]. by rewrite IH.
Qed.

Lemma has_char_app c a b : has_char c (a +:+ b) = has_char c a || has_char c b.
Proof. induction a as [|d a IH]; [done|]. rewrite str_app_cons. simpl. by rewrite IH, orb_assoc. Qed.

Lemma str_take_app s1 s2 : str_take (String.length s1) (s1 +:+ s2) = s1.
Proof. induction s1 as [|c s IH]; [by destruct s2|]. rewrite str_app_cons. simpl. by rewrite IH. Qed.

Lemma insert_at_app a b t : insert_at (String.length a) t (a +:+ b) = a +:+ t +:+ b.
Proof. unfold insert_at. by rewrite str_take_app, str_drop_app. Qed.

Lemma replace_at_app a b c t :
  replace_at (String.length a) (String.length b) t (a +:+ b +:+ c) = a +:+ t +:+ c.
Proof.
  unfold replace_at. rewrite str_take_app. do 2 f_equal.
  rewrite <- str_length_app, <- str_app_assoc. apply str_drop_app.
Qed.

Lemma push_back_app s c t : push_back s c +:+ t = s +:+ String c t.
Proof. unfold push_back. by rewrite str_app_assoc, str_app_cons, str_app_nil. Qed.

Lemma ends_with_push c s : ends_with c (push_back s c) = true.
Proof.
  unfold push_back. induction s as [|d s IH]; [simpl; apply Ascii.eqb_refl|].
  rewrite str_app_cons. destruct s as [|e s]; [simpl; apply Ascii.eqb_refl|].
  rewrite str_app_cons in *. exact IH.
Qed.

Lemma is_empty_spec s : reflect (s = EmptyString) (is_empty s).
Proof. destruct s; constructor; done. Qed.

Lemma str_index_spec c s n :
  str_index c s = Some n ->
  s = str_take n s +:+ String c (str_drop (S n) s) /\ has_char c (str_take n s) = false /\
  String.length (str_take n s) = n.
Proof.
  revert n. induction s as [|d s IH]; intros n; [done|]. cbn [str_index].
  destruct (Ascii.eqb_spec d c) as [->|Hne].
  - intros [= <-]. done.
  - destruct (str_index c s) as [m|]; [|done]. intros [= <-]. destruct (IH m eq_refl) as (H1 & H2 & H3).
    cbn [str_take str_drop]. rewrite str_app_cons. simpl.
    apply Ascii.eqb_neq in Hne as ->. split; [by f_equal|]. split; [done|]. by f_equal.
Qed.

Lemma is_prefix_cons_false c p s : is_prefix (String c p) s = true -> exists s', s = String c s' /\ is_prefix p s' = true.
Proof.
  destruct s as [|d s]; [done|]. simpl. destruct (Ascii.eqb_spec c d) as [->|]; [|done]. simpl. eauto.
Qed.

Lemma str_drop_S n s c s' : str_drop n s = String c s' -> str_drop (S n) s = s'.
Proof. revert s. induction n as [|n IH]; intros [|d s] H; simpl in *; try done; [by injection H|by apply IH]. Qed.

Lemma str_drop_drop n m s : str_drop n (str_drop m s) = str_drop (m + n) s.
Proof. revert s. induction m as [|m IH]; intros [|c s]; simpl; try done. by destruct n. Qed.

Lemma find_str_first needle s n :
  find_str needle s = Some n ->
  is_prefix needle (str_drop n s) = true /\ forall m, (m < n)%nat -> is_prefix needle (str_drop m s) = false.
Proof.
  revert n. induction s as [|c s IH]; intros n; cbn [find_str].
  - destruct (is_prefix needle "") eqn:E; [|done]. intros [= <-]. split; [done|lia].
  - destruct (is_prefix needle (String c s)) eqn:E; [intros [= <-]; split; [done|lia]|].
    destruct (find_str needle s) as [k|]; [|done]. intros [= <-]. destruct (IH k eq_refl) as [H1 H2].
    split; [done|]. intros [|m] Hm; [done|]. apply H2. lia.
Qed.

Lemma find_str_none_prefix needle s :
  find_str needle s = None -> forall m, is_prefix needle (str_drop m s) = false.
Proof.
  induction s as [|c s IH]; cbn [find_str]; destruct (is_prefix needle _) eqn:E; try done.
  - intros _ [|m]; done.
  - destruct (find_str needle s); [done|]. intros _ [|m]; [done|]. by apply IH.
Qed.

Lemma str_index_here c a b : has_char c a = false -> str_index c (a +:+ String c b) = Some (String.length a).
Proof.
  induction a as [|d a IH]; [simpl; by rewrite Ascii.eqb_refl|]. rewrite str_app_cons. simpl.
  destruct (Ascii.eqb d c); [done|]. simpl. intros H. by rewrite IH.
Qed.

Lemma str_index_absent c a : has_char c a = false -> str_index c a = None.
Proof.
  induction a as [|d a IH]; [done|]. simpl. destruct (Ascii.eqb d c); [done|]. simpl. intros H. by rewrite IH.
Qed.

Lemma str_drop_S_app a c b : str_drop (S (String.length a)) (a +:+ String c b) = b.
Proof. apply str_drop_S with c. apply str_drop_app. Qed.

Lemma str_app_cancel a b c : a +:+ b = a +:+ c -> b = c.
Proof. induction a as [|x a IH]; [by rewrite !str_app_nil|]. rewrite !str_app_cons. intros [= E]. by apply IH. Qed.
