(* ===== verification/Pcap.v ===== *)
(** * What the program relies on from libpcap and the file system

    Captured packets, and the interface through which the capture code writes
    and reads savefiles.  libpcap is not part of the repository: its calls are
    the operations of [Pcap], and the laws state what their manual pages
    promise.  [MemFs] is a file system in memory that satisfies them. *)

From S2P Require Import Prelude.

(** [struct pcap_pkthdr] (the capture time is left out: no code reads it)
    together with the captured bytes. *)
Record Packet := mkPacket {
  pk_caplen : Z;
  pk_len : Z;
  pk_data : list byte;
}.

(** libpcap hands out [caplen] bytes of data. *)
Definition packet_ok (pk : Packet) : Prop :=
  pk_caplen pk = Z.of_nat (length (pk_data pk)) /\ pk_caplen pk < 2 ^ 32.

(** [sizeof(struct pcap_pkthdr)] where [struct timeval] has 16 bytes. *)
Definition sizeof_pcap_pkthdr : Z := 24.

(** [W] is the state of the file system, [D] a [pcap_dumper_t], [R] a
    [pcap_t] opened for reading.  [contents] gives the packets of every
    savefile, those still buffered by an open dumper included. *)
Class Pcap (W D R : Type) := {
  mkdir : string -> W -> W;
  unlink : string -> W -> bool * W;
  pcap_dump_open : string -> W -> option D * W;
  pcap_dump_flush : D -> W -> W;
  pcap_dump_close : D -> W -> W;
  pcap_dump : D -> Packet -> W -> W;
  pcap_open_offline : string -> W -> option R;
  pcap_next_ex : R -> option Packet * R;

  contents : W -> gmap string (list Packet);
  dumper_path : D -> string;
  remaining : R -> list Packet;

  mkdir_contents p w : contents (mkdir p w) = contents w;
  unlink_contents p w w' b :
    unlink p w = (b, w') -> contents w' = if b then delete p (contents w) else contents w;
  (** The file is created, or truncated when it exists. *)
  dump_open_contents p w d w' :
    pcap_dump_open p w = (Some d, w') -> dumper_path d = p /\ contents w' = <[p := []]> (contents w);
  dump_open_failed p w w' : pcap_dump_open p w = (None, w') -> contents w' = contents w;
  dump_flush_contents d w : contents (pcap_dump_flush d w) = contents w;
  dump_close_contents d w : contents (pcap_dump_close d w) = contents w;
  dump_contents d pk w :
    contents (pcap_dump d pk w) = alter (fun l => l ++ [pk]) (dumper_path d) (contents w);
  open_offline_contents p w r :
    pcap_open_offline p w = Some r -> contents w !! p = Some (remaining r);
  next_ex_remaining r :
    pcap_next_ex r = match remaining r with
                     | [] => (None, snd (pcap_next_ex r))
                     | pk :: _ => (Some pk, snd (pcap_next_ex r))
                     end /\
    remaining (snd (pcap_next_ex r)) = tail (remaining r);
}.

(** A file system in memory on which opening and unlinking fail for the paths
    in [ro]. *)
Record mem_fs := mkFs { fs_files : gmap string (list Packet); fs_dirs : list string }.

#[refine] Definition MemFs (ro : gset string) : Pcap mem_fs string (list Packet) := {|
  mkdir p w := mkFs (fs_files w) (p :: fs_dirs w);
  unlink p w :=
    if bool_decide (p ∈ ro) then (false, w) else (true, mkFs (delete p (fs_files w)) (fs_dirs w));
  pcap_dump_open p w :=
    if bool_decide (p ∈ ro) then (None, w)
    else (Some p, mkFs (<[p := []]> (fs_files w)) (fs_dirs w));
  pcap_dump_flush _ w := w;
  pcap_dump_close _ w := w;
  pcap_dump d pk w := mkFs (alter (fun l => l ++ [pk]) d (fs_files w)) (fs_dirs w);
  pcap_open_offline p w := fs_files w !! p;
  pcap_next_ex r := match r with [] => (None, []) | pk :: r' => (Some pk, r') end;
  contents := fs_files;
  dumper_path d := d;
  remaining r := r;
|}.
Proof.
  all: try done.
  - intros p w w' b. case_bool_decide; by intros [= <- <-].
  - intros p w d w'. case_bool_decide; [done|]. by intros [= <- <-].
  - intros p w w'. by case_bool_decide; intros [= <-].
  - by intros [|pk r].
Defined.

Lemma MemFs_opens p w : fst (@pcap_dump_open _ _ _ (MemFs ∅) p w) <> None.
Proof. done. Defined.

(** The bytes a sequence of packets counts for in [written]. *)
Definition packet_bytes (pk : Packet) : Z := sizeof_pcap_pkthdr + pk_caplen pk.

Definition total_bytes (l : list Packet) : Z := foldr (fun pk n => packet_bytes pk + n) 0 l.

Lemma total_bytes_app l1 l2 : total_bytes (l1 ++ l2) = total_bytes l1 + total_bytes l2.
Proof. induction l1 as [|pk l1 IH]; simpl; [done|]. rewrite IH. lia. Qed.

Lemma total_bytes_pos l : Forall packet_ok l -> 0 <= total_bytes l.
Proof.
  induction 1 as [|pk l [Hc _] _ IH]; [done|]. simpl. unfold packet_bytes, sizeof_pcap_pkthdr. lia.
Qed.

Section Facts.
Context `{Pcap W D R}.

(** A write to one file leaves the others alone. *)
Lemma dump_contents_eq d pk w l :
  contents w !! dumper_path d = Some l ->
  contents (pcap_dump d pk w) !! dumper_path d = Some (l ++ [pk]).
Proof. intros Hl. by rewrite dump_contents, lookup_alter_eq, Hl. Qed.

Lemma dump_contents_ne d pk w p :
  p <> dumper_path d -> contents (pcap_dump d pk w) !! p = contents w !! p.
Proof. intros Hp. by rewrite dump_contents, lookup_alter_ne. Qed.
End Facts.
