(* ===== verification/Storage.v ===== *)
(** * Capture files (src/src/rxstorageutils.cpp)

    Naming, opening and rotating the files a capture writes.  The file system
    and libpcap are the interface [Pcap]; [localtime_r] is the parameter
    [localtime]. *)

From S2P Require Import Prelude CppString Pcap.

(** The broken-down time fields the code reads. *)
Record tm := mkTm { tm_year : Z; tm_mon : Z; tm_mday : Z; tm_hour : Z; tm_min : Z }.

(** [d] is the open dumper.  [p] (the capture handle), [compress_enabled],
    [protocol_def], [packets_filtered] and [filter_thread_index] are not used
    by this component. *)
Record CRxDumpCtx (D : Type) := mkDumpCtx {
  dc_d : option D;
  dc_max_bytes : Z;
  dc_written : Z;
  dc_seq : Z;
  dc_start_time : Z;
  dc_base_dir : string;
  dc_pattern : string;
  dc_category : string;
  dc_iface : string;
  dc_proc : string;
  dc_port : Z;
  dc_current_path : string;
  dc_protocol_filter_path : string;
}.
Arguments mkDumpCtx {D}.
Arguments dc_d {D}. Arguments dc_max_bytes {D}. Arguments dc_written {D}. Arguments dc_seq {D}.
Arguments dc_start_time {D}. Arguments dc_base_dir {D}. Arguments dc_pattern {D}.
Arguments dc_category {D}. Arguments dc_iface {D}. Arguments dc_proc {D}. Arguments dc_port {D}.
Arguments dc_current_path {D}. Arguments dc_protocol_filter_path {D}.

Definition two_digits (v : Z) : string := str_take 7 (fmt_0d 2 v).

Definition join_path (a b : string) : string :=
  if is_empty b then a
  else if is_prefix "/" b then b
  else if is_empty a then b
  else if ends_with "/" a then a +:+ b
  else a +:+ "/" +:+ b.

(** The directories [ensure_dir] passes to [mkdir], in order: every prefix
    that ends in a slash and is longer than one character. *)
Fixpoint ensure_dirs (cur path : string) : list string :=
  match path with
  | EmptyString => []
  | String c path' =>
      let cur' := push_back cur c in
      if Ascii.eqb c "/" && (1 <? Z.of_nat (String.length cur'))
      then cur' :: ensure_dirs cur' path' else ensure_dirs cur' path'
  end.

(** ** Placeholders *)

Definition day_string (t : tm) : string :=
  str_take 31 (fmt_0d 4 (tm_year t + 1900) +:+ fmt_0d 2 (tm_mon t + 1) +:+ fmt_0d 2 (tm_mday t)).

Definition date_string (t : tm) : string :=
  str_take 31 (fmt_0d 4 (tm_year t + 1900) +:+ fmt_0d 2 (tm_mon t + 1) +:+ fmt_0d 2 (tm_mday t)
                 +:+ fmt_0d 2 (tm_hour t) +:+ fmt_0d 2 (tm_min t)).

Section Names.
Context (localtime : Z -> tm).

Definition ymd_date (t : Z) : string := date_string (localtime t).

Section Expansion.
Context {D : Type} (dc : CRxDumpCtx D) (base_time : Z).

(** What [{key}] stands for. *)
Definition placeholder (key : string) : string :=
  if String.eqb key "day" then day_string (localtime base_time)
  else if String.eqb key "date" then date_string (localtime base_time)
  else if String.eqb key "ts" then fmt_u (u64 base_time)
  else if String.eqb key "iface" then dc_iface dc
  else if String.eqb key "proc" then if is_empty (dc_proc dc) then "any" else dc_proc dc
  else if String.eqb key "port" then if 0 <? dc_port dc then fmt_d (dc_port dc) else "any"
  else if String.eqb key "seq" then str_take 15 (fmt_0d 4 (dc_seq dc))
  else if String.eqb key "category" then dc_category dc
  else key.

(** The loop over [pat]: [s] is the part from index [i] on, [out] and [hp]
    are [out] and [has_port_placeholder]. *)
Fixpoint expand_loop (fuel : nat) (s out : string) (hp : bool) : outcome (string * bool) :=
  match s with
  | EmptyString => Done (out, hp)
  | String c s' =>
      match fuel with
      | O => NoFuel
      | S n =>
          if Ascii.eqb c "{" then
            match str_index "}" s' with
            | None => expand_loop n s' (push_back out c) hp
            | Some j =>
                let key := str_take j s' in
                expand_loop n (str_drop (S j) s') (out +:+ placeholder key)
                  (hp || String.eqb key "port")
            end
          else expand_loop n s' (push_back out c) hp
      end
  end.
End Expansion.

(** The loop that drops repeated slashes. *)
Fixpoint collapse_loop (s collapsed : string) (prev_slash : bool) : string :=
  match s with
  | EmptyString => collapsed
  | String c s' =>
      if Ascii.eqb c "/" then
        if prev_slash then collapse_loop s' collapsed true
        else collapse_loop s' (push_back collapsed c) true
      else collapse_loop s' (push_back collapsed c) false
  end.

Definition collapse (out : string) : string :=
  match find_str "//" out with
  | Some _ => collapse_loop out "" false
  | None => out
  end.

(** [-p<port>] or [_raw] in front of the extension. *)
Definition insert_suffix (suffix out : string) : string :=
  match rfind_char "." out with
  | Some dot_pos => insert_at dot_pos suffix out
  | None => out +:+ suffix
  end.

Definition default_pattern : string := "{day}/{date}-{iface}-{proc}-{port}.pcap".

(** [now] is [time(NULL)]. *)
Definition expand_pattern {D} (now : Z) (dc : CRxDumpCtx D) : outcome string :=
  let pat := if is_empty (dc_pattern dc) then default_pattern else dc_pattern dc in
  let base_time := if dc_start_time dc =? 0 then now else dc_start_time dc in
  '(out, has_port) ← expand_loop dc base_time (String.length pat) pat "" false;
  let out := collapse out in
  let out := if (0 <? dc_port dc) && negb has_port
             then insert_suffix ("-p" +:+ fmt_d (dc_port dc)) out else out in
  let out := if is_empty (dc_protocol_filter_path dc) then out else insert_suffix "_raw" out in
  Done (join_path (dc_base_dir dc) out).

(** ** Rotation *)

Section Rotation.
Context `{Pcap W D R}.

Definition ensure_dir (path : string) (w : W) : W :=
  foldl (fun w p => mkdir p w) w (ensure_dirs "" path).

Definition rotate_open (now : Z) (dc : CRxDumpCtx D) (w : W) : outcome (CRxDumpCtx D * W) :=
  let w := match dc_d dc with
           | Some d => pcap_dump_close d (pcap_dump_flush d w)
           | None => w
           end in
  seq ← add_signed INT_MAX (dc_seq dc) 1;
  let dc := mkDumpCtx (dc_d dc) (dc_max_bytes dc) 0 seq (dc_start_time dc)
              (dc_base_dir dc) (dc_pattern dc) (dc_category dc) (dc_iface dc) (dc_proc dc)
              (dc_port dc) (dc_current_path dc) (dc_protocol_filter_path dc) in
  path ← expand_pattern now dc;
  let w := match rfind_char "/" path with
           | Some pos => ensure_dir (substr path 0 (pos + 1)) w
           | None => w
           end in
  let '(d, w) := pcap_dump_open path w in
  Done (mkDumpCtx d (dc_max_bytes dc) (dc_written dc) (dc_seq dc) (dc_start_time dc)
          (dc_base_dir dc) (dc_pattern dc) (dc_category dc) (dc_iface dc) (dc_proc dc)
          (dc_port dc) path (dc_protocol_filter_path dc), w).

Definition set_written (n : Z) (dc : CRxDumpCtx D) : CRxDumpCtx D :=
  mkDumpCtx (dc_d dc) (dc_max_bytes dc) n (dc_seq dc) (dc_start_time dc) (dc_base_dir dc)
    (dc_pattern dc) (dc_category dc) (dc_iface dc) (dc_proc dc) (dc_port dc) (dc_current_path dc)
    (dc_protocol_filter_path dc).

(** [dc->written += n] *)
Definition add_written (n : Z) (dc : CRxDumpCtx D) : outcome (CRxDumpCtx D) :=
  written ← add_signed LONG_MAX (dc_written dc) n; Done (set_written written dc).

(** Does [pk] overflow the open file? *)
Definition needs_rotation (dc : CRxDumpCtx D) (pk : Packet) : outcome bool :=
  if 0 <? dc_max_bytes dc then
    written ← add_signed LONG_MAX (dc_written dc) (packet_bytes pk); Done (dc_max_bytes dc <? written)
  else Done false.

(** The callback of [pcap_dispatch].  [pcap_dump] through a null dumper is
    undefined. *)
Definition dump_cb (now : Z) (dc : CRxDumpCtx D) (pk : Packet) (w : W) : outcome (CRxDumpCtx D * W) :=
  let write (dc : CRxDumpCtx D) (w : W) : outcome (CRxDumpCtx D * W) :=
    match dc_d dc with
    | Some d => dc ← add_written (packet_bytes pk) dc; Done (dc, pcap_dump d pk w)
    | None => Undef
    end in
  match dc_d dc with
  | Some _ =>
      rotate ← needs_rotation dc pk;
      if rotate : bool then
        '(dc, w) ← rotate_open now dc w;
        match dc_d dc with
        | None => Done (dc, w)
        | Some _ => write dc w
        end
      else write dc w
  | None => write dc w
  end.

(** [pcap_dispatch] with [dump_cb] over the packets it delivers. *)
Fixpoint dump_all (now : Z) (dc : CRxDumpCtx D) (pks : list Packet) (w : W) : outcome (CRxDumpCtx D * W) :=
  match pks with
  | [] => Done (dc, w)
  | pk :: rest => '(dc, w) ← dump_cb now dc pk w; dump_all now dc rest w
  end.
End Rotation.
End Names.

(** ** What a pattern expands to *)

Section NameFacts.
Context (localtime : Z -> tm) {D : Type}.

(** [expands dc t s o b]: pattern [s] stands for the text [o]; [b] tells
    whether it has a [{port}].  A brace that is never closed is kept. *)
Inductive expands (dc : CRxDumpCtx D) (t : Z) : string -> string -> bool -> Prop :=
  | exp_nil : expands dc t "" "" false
  | exp_char c s o b : c <> "{"%char -> expands dc t s o b -> expands dc t (String c s) (String c o) b
  | exp_open s o b : has_char "}" s = false -> expands dc t s o b ->
      expands dc t (String "{" s) (String "{" o) b
  | exp_hole key s o b : has_char "}" key = false -> expands dc t s o b ->
      expands dc t (String "{" (key +:+ String "}" s)) (placeholder localtime dc t key +:+ o)
        (String.eqb key "port" || b).

Lemma str_index_none c s : str_index c s = None -> has_char c s = false.
Proof.
  induction s as [|d s IH]; [done|]. simpl. destruct (Ascii.eqb d c); [done|].
  destruct (str_index c s); [done|]. by intros _; apply IH.
Qed.

Lemma expand_loop_expands dc t fuel s out hp :
  (String.length s <= fuel)%nat ->
  exists o b, expands dc t s o b /\ expand_loop localtime dc t fuel s out hp = Done (out +:+ o, hp || b).
Proof.
  revert s out hp. induction fuel as [|n IH]; intros [|c s] out hp Hl; simpl in Hl; try lia.
  1, 2: exists "", false; split; [constructor|]; simpl; by rewrite str_app_nil_r, orb_false_r.
  cbn [expand_loop]. destruct (Ascii.eqb_spec c "{") as [->|Hc].
  - destruct (str_index "}" s) as [j|] eqn:Ej.
    + destruct (str_index_spec _ _ _ Ej) as (Hs & Hk & Hlen).
      assert (Hd : (String.length (str_drop (S j) s) <= n)%nat).
      { rewrite str_drop_length. lia. }
      destruct (IH _ (out +:+ placeholder localtime dc t (str_take j s))
                  (hp || String.eqb (str_take j s) "port") Hd) as (o & b & He & ->).
      exists (placeholder localtime dc t (str_take j s) +:+ o), (String.eqb (str_take j s) "port" || b).
      split; [rewrite Hs at 1; by constructor|]. by rewrite str_app_assoc, orb_assoc.
    + apply str_index_none in Ej. destruct (IH s (push_back out "{") hp ltac:(lia)) as (o & b & He & ->).
      exists (String "{" o), b. split; [by constructor|]. by rewrite push_back_app.
  - destruct (IH s (push_back out c) hp ltac:(lia)) as (o & b & He & ->).
    exists (String c o), b. split; [by constructor|]. by rewrite push_back_app.
Qed.

Lemma collapse_loop_app s a p : collapse_loop s a p = a +:+ collapse_loop s "" p.
Proof.
  revert a p. induction s as [|c s IH]; intros a p; [by rewrite str_app_nil_r|]. cbn [collapse_loop].
  destruct (Ascii.eqb c "/"); [destruct p|]; rewrite IH; [done|..];
    by rewrite (IH (push_back _ _)), push_back_app, push_back_app, str_app_nil.
Qed.

Lemma collapse_loop_clean s p :
  find_str "//" (collapse_loop s "" p) = None /\ (p = true -> is_prefix "/" (collapse_loop s "" p) = false).
Proof.
  revert p. induction s as [|c s IH]; intros p; [done|]. cbn [collapse_loop].
  destruct (Ascii.eqb_spec c "/") as [->|Hc].
  - destruct p; [apply IH|]. split; [|done].
    rewrite collapse_loop_app, push_back_app, str_app_nil. destruct (IH true) as [H1 H2].
    set (r := collapse_loop s "" true) in *. specialize (H2 eq_refl).
    change (is_prefix "//" (String "/" r)) with (is_prefix "/" r).
    unfold find_str; fold find_str. change (is_prefix "//" (String "/" r)) with (is_prefix "/" r).
    by rewrite H2, H1.
  - rewrite collapse_loop_app, push_back_app, str_app_nil. destruct (IH false) as [H1 _].
    assert (Hp : forall p', is_prefix (String "/" p') (String c (collapse_loop s "" false)) = false).
    { intros p'. cbn [is_prefix]. destruct (Ascii.eqb_spec "/" c); [congruence|done]. }
    split; [|by rewrite Hp]. cbn [find_str]. by rewrite Hp, H1.
Qed.

Lemma collapse_clean s : find_str "//" (collapse s) = None.
Proof. unfold collapse. destruct (find_str "//" s) eqn:E; [apply collapse_loop_clean|done]. Qed.

Lemma collapse_id s : find_str "//" s = None -> collapse s = s.
Proof. unfold collapse. by intros ->. Qed.

(** ** The sequence number in a name *)

Definition with_seq (dc : CRxDumpCtx D) (n : Z) : CRxDumpCtx D :=
  mkDumpCtx (dc_d dc) (dc_max_bytes dc) (dc_written dc) n (dc_start_time dc) (dc_base_dir dc)
    (dc_pattern dc) (dc_category dc) (dc_iface dc) (dc_proc dc) (dc_port dc) (dc_current_path dc)
    (dc_protocol_filter_path dc).

(** The parts of a context that rotation does not change. *)
Definition same_config (dc dc' : CRxDumpCtx D) : Prop :=
  dc_max_bytes dc = dc_max_bytes dc' /\ dc_start_time dc = dc_start_time dc' /\
  dc_base_dir dc = dc_base_dir dc' /\ dc_pattern dc = dc_pattern dc' /\
  dc_category dc = dc_category dc' /\ dc_iface dc = dc_iface dc' /\ dc_proc dc = dc_proc dc' /\
  dc_port dc = dc_port dc' /\ dc_protocol_filter_path dc = dc_protocol_filter_path dc'.

Lemma same_config_refl dc : same_config dc dc.
Proof. repeat split. Qed.

Lemma same_config_trans dc1 dc2 dc3 : same_config dc1 dc2 -> same_config dc2 dc3 -> same_config dc1 dc3.
Proof. unfold same_config. intuition congruence. Qed.

Lemma placeholder_ext dc dc' t key :
  same_config dc dc' -> dc_seq dc = dc_seq dc' \/ key <> "seq"%string ->
  placeholder localtime dc t key = placeholder localtime dc' t key.
Proof.
  intros (_ & _ & _ & _ & Hc & Hi & Hp & Hpo & _) Hs. unfold placeholder. rewrite Hc, Hi, Hp, Hpo.
  repeat match goal with |- context [String.eqb key ?k] => destruct (String.eqb_spec key k) end;
    try done.
  destruct Hs as [Hs|Hs]; [by rewrite Hs|done].
Qed.

Lemma find_str_cons needle c s : find_str needle (String c s) = None -> find_str needle s = None.
Proof.
  cbn [find_str]. destruct (is_prefix _ _); [done|]. by destruct (find_str needle s).
Qed.

Lemma find_str_app_none needle a s : find_str needle (a +:+ s) = None -> find_str needle s = None.
Proof.
  induction a as [|c a IH]; [done|]. rewrite str_app_cons. intros H. by apply find_str_cons, IH in H.
Qed.

Lemma expands_ext dc dc' t s o b :
  same_config dc dc' -> dc_seq dc = dc_seq dc' \/ find_str "{seq}" s = None ->
  expands dc t s o b -> expands dc' t s o b.
Proof.
  intros Hc Hs He. induction He as [|c s o b Hne _ IH|s o b Hno _ IH|key s o b Hk _ IH]; [constructor|..].
  - constructor; [done|]. apply IH. destruct Hs as [|Hs]; [by left|right; by eapply find_str_cons].
  - constructor; [done|]. apply IH. destruct Hs as [|Hs]; [by left|right; by eapply find_str_cons].
  - rewrite (placeholder_ext dc dc'); [|done|].
    + constructor; [done|]. apply IH. destruct Hs as [|Hs]; [by left|right].
      by apply find_str_cons, find_str_app_none, find_str_cons in Hs.
    + destruct Hs as [|Hs]; [by left|right]. intros ->. by apply (find_str_none "{seq}" "" s).
Qed.

Lemma split_unique c k1 s1 k2 s2 :
  k1 +:+ String c s1 = k2 +:+ String c s2 -> has_char c k1 = false -> has_char c k2 = false ->
  k1 = k2 /\ s1 = s2.
Proof.
  revert k2. induction k1 as [|d k1 IH]; intros [|e k2]; rewrite ?str_app_cons, ?str_app_nil;
    intros E H1 H2.
  - by injection E.
  - injection E as <- _. simpl in H2. by rewrite Ascii.eqb_refl in H2.
  - injection E as -> _. simpl in H1. by rewrite Ascii.eqb_refl in H1.
  - injection E as -> E. simpl in H1, H2. apply orb_false_iff in H1 as [_ H1], H2 as [_ H2].
    by destruct (IH k2 E H1 H2) as [-> ->].
Qed.

(** [expands] is a function of the pattern. *)
Lemma expands_functional dc t s o b o' b' :
  expands dc t s o b -> expands dc t s o' b' -> o = o' /\ b = b'.
Proof.
  intros H. revert o' b'. induction H as [|c s o b Hne H IH|s o b Hno H IH|key s o b Hk H IH];
    intros o' b' H'; inversion H'; subst; try done.
  - edestruct IH as [-> ->]; eauto.
  - edestruct IH as [-> ->]; eauto.
  - rewrite has_char_app in Hno. simpl in Hno. by rewrite orb_true_r in Hno.
  - match goal with H : has_char _ (_ +:+ _) = false |- _ =>
      rewrite has_char_app in H; simpl in H; by rewrite orb_true_r in H end.
  - match goal with E : _ +:+ _ = _ +:+ _ |- _ => apply split_unique in E as [-> ->]; [|done..] end.
    edestruct IH as [-> ->]; eauto.
Qed.
End NameFacts.

(** ** Rotation *)

Section RotationFacts.
Context (localtime : Z -> tm) `{Pcap W D R} (now : Z).

Definition pattern_of (dc : CRxDumpCtx D) : string :=
  if is_empty (dc_pattern dc) then default_pattern else dc_pattern dc.

Definition base_time_of (dc : CRxDumpCtx D) : Z :=
  if dc_start_time dc =? 0 then now else dc_start_time dc.

(** The name from the expanded pattern [o]; [b]: the pattern has a port. *)
Definition file_name (dc : CRxDumpCtx D) (o : string) (b : bool) : string :=
  let out := collapse o in
  let out := if (0 <? dc_port dc) && negb b then insert_suffix ("-p" +:+ fmt_d (dc_port dc)) out else out in
  join_path (dc_base_dir dc)
    (if is_empty (dc_protocol_filter_path dc) then out else insert_suffix "_raw" out).

Lemma expand_pattern_done dc :
  exists o b, expands localtime dc (base_time_of dc) (pattern_of dc) o b /\
    expand_pattern localtime now dc = Done (file_name dc o b).
Proof.
  destruct (expand_loop_expands localtime dc (base_time_of dc) _ (pattern_of dc) "" false (Nat.le_refl _))
    as (o & b & He & Hl).
  exists o, b. split; [done|]. unfold expand_pattern, pattern_of, base_time_of in *. rewrite Hl.
  rewrite outcome_bind_done. done.
Qed.

Lemma expand_pattern_ext dc dc' :
  same_config dc dc' -> dc_seq dc = dc_seq dc' \/ find_str "{seq}" (pattern_of dc) = None ->
  expand_pattern localtime now dc = expand_pattern localtime now dc'.
Proof.
  intros Hc Hs. destruct (expand_pattern_done dc) as (o & b & He & ->).
  destruct (expand_pattern_done dc') as (o' & b' & He' & ->).
  apply (expands_ext localtime dc dc') in He; [|done|done].
  destruct Hc as (Hm & Ht & Hb & Hp & Hca & Hi & Hpr & Hpo & Hpf).
  unfold pattern_of, base_time_of in *. rewrite Ht, Hp in He.
  destruct (expands_functional _ _ _ _ _ _ _ _ He He') as [-> ->].
  unfold file_name. by rewrite Hb, Hpo, Hpf.
Qed.

Definition path_of (dc : CRxDumpCtx D) (n : Z) : string :=
  match expand_pattern localtime now (with_seq dc n) with Done p => p | _ => "" end.

Lemma expand_pattern_path_of dc dc' :
  same_config dc dc' -> expand_pattern localtime now dc' = Done (path_of dc (dc_seq dc')).
Proof.
  intros Hc. unfold path_of. rewrite <- (expand_pattern_ext (with_seq dc (dc_seq dc')) dc').
  - by destruct (expand_pattern_done (with_seq dc (dc_seq dc'))) as (o & b & _ & ->).
  - done.
  - by left.
Qed.

Lemma ensure_dir_contents path w : contents (ensure_dir path w) = contents w.
Proof.
  unfold ensure_dir. generalize (ensure_dirs "" path). intros l. revert w.
  induction l as [|p l IH]; intros w; simpl; [done|]. by rewrite IH, mkdir_contents.
Qed.

(** What [rotate_open] does to the context and to the files. *)
Lemma rotate_open_spec dc dc0 w :
  same_config dc0 dc -> dc_seq dc < INT_MAX ->
  exists dc' w', rotate_open localtime now dc w = Done (dc', w') /\ same_config dc0 dc' /\
    dc_seq dc' = dc_seq dc + 1 /\ dc_written dc' = 0 /\
    dc_current_path dc' = path_of dc0 (dc_seq dc + 1) /\
    match dc_d dc' with
    | Some d => dumper_path d = dc_current_path dc' /\
                contents w' = <[dc_current_path dc' := []]> (contents w)
    | None => contents w' = contents w
    end.
Proof.
  intros Hc Hlt. unfold rotate_open. rewrite add_signed_fits, outcome_bind_done by lia.
  set (w1 := match dc_d dc with Some d => _ | None => w end).
  assert (Hw1 : contents w1 = contents w).
  { unfold w1. destruct (dc_d dc); [|done]. by rewrite dump_close_contents, dump_flush_contents. }
  rewrite (expand_pattern_path_of dc0) by done. cbn [dc_seq]. rewrite outcome_bind_done.
  set (path := path_of dc0 _).
  set (w2 := match rfind_char "/" path with Some pos => _ | None => w1 end).
  assert (Hw2 : contents w2 = contents w).
  { unfold w2. destruct (rfind_char _ _); [by rewrite ensure_dir_contents|done]. }
  destruct (pcap_dump_open path w2) as [d w3] eqn:Eo. eexists _, w3. split; [done|].
  split; [done|]. cbn. split; [done|]. split; [done|]. split; [done|].
  destruct d as [d|].
  - destruct (dump_open_contents _ _ _ _ Eo) as [Hp ->]. by rewrite Hw2.
  - by rewrite (dump_open_failed _ _ _ Eo).
Qed.

(** The state between packets: the open file holds [l]. *)
Record writing (dc0 dc : CRxDumpCtx D) (w : W) (l : list Packet) : Prop := {
  wr_config : same_config dc0 dc;
  wr_path : dc_current_path dc = path_of dc0 (dc_seq dc);
  wr_open : exists d, dc_d dc = Some d /\ dumper_path d = dc_current_path dc;
  wr_file : contents w !! dc_current_path dc = Some l;
  wr_written : dc_written dc = total_bytes l;
}.

Lemma write_packet_writing dc0 dc w l pk d :
  writing dc0 dc w l -> dc_d dc = Some d ->
  writing dc0 (set_written (dc_written dc + packet_bytes pk) dc) (pcap_dump d pk w) (l ++ [pk]) /\
  (forall p, p <> dc_current_path dc -> contents (pcap_dump d pk w) !! p = contents w !! p).
Proof.
  intros [Hc Hp (d' & Hd' & Hpd) Hf Hw] Hd. rewrite Hd in Hd'. injection Hd' as <-.
  split; [split|]; cbn; try done.
  - by exists d.
  - rewrite <- Hpd in *. by apply dump_contents_eq.
  - rewrite total_bytes_app. simpl. lia.
  - intros p Hne. apply dump_contents_ne. congruence.
Qed.

Lemma rotate_writing dc0 dc w l dc' w' :
  writing dc0 dc w l -> dc_seq dc < INT_MAX ->
  rotate_open localtime now dc w = Done (dc', w') -> dc_d dc' <> None ->
  writing dc0 dc' w' [] /\ dc_seq dc' = dc_seq dc + 1 /\
  (forall p, p <> path_of dc0 (dc_seq dc + 1) -> contents w' !! p = contents w !! p).
Proof.
  intros [Hc Hp Ho Hf Hw] Hlt Hr Hd.
  destruct (rotate_open_spec dc dc0 w Hc Hlt) as (dc2 & w2 & Hr2 & Hc2 & Hseq & Hwr & Hpath & Hcont).
  rewrite Hr in Hr2. apply (inj Done) in Hr2 as [= <- <-].
  destruct (dc_d dc') as [d|] eqn:Ed; [|done]. destruct Hcont as [Hpd Hcont].
  split; [split|split]; try done.
  - by rewrite Hseq.
  - by exists d.
  - by rewrite Hcont, lookup_insert_eq.
  - intros p Hne. rewrite Hcont, lookup_insert_ne; [done|congruence].
Qed.

(** The packet does not fit the open file. *)
Definition overflows (dc : CRxDumpCtx D) (pk : Packet) : bool :=
  (0 <? dc_max_bytes dc) && (dc_max_bytes dc <? dc_written dc + packet_bytes pk).

Lemma needs_rotation_fits dc pk :
  dc_written dc + packet_bytes pk <= LONG_MAX -> needs_rotation dc pk = Done (overflows dc pk).
Proof.
  intros H'. unfold needs_rotation, overflows. destruct (0 <? dc_max_bytes dc); [|done].
  by rewrite add_signed_fits, outcome_bind_done.
Qed.

Lemma add_written_fits n (dc : CRxDumpCtx D) :
  dc_written dc + n <= LONG_MAX -> add_written n dc = Done (set_written (dc_written dc + n) dc).
Proof. intros H'. unfold add_written. by rewrite add_signed_fits, outcome_bind_done. Qed.

(** One packet: it is appended to the open file, or to a fresh one. *)
Lemma dump_cb_writing dc0 dc w l pk :
  (forall p w, fst (pcap_dump_open p w) <> None) -> writing dc0 dc w l ->
  dc_seq dc < INT_MAX -> 0 <= total_bytes l -> total_bytes l + packet_bytes pk <= LONG_MAX ->
  exists dc' w', dump_cb localtime now dc pk w = Done (dc', w') /\
    if overflows dc pk then
      writing dc0 dc' w' [pk] /\ dc_seq dc' = dc_seq dc + 1 /\
      (forall p, p <> path_of dc0 (dc_seq dc + 1) -> contents w' !! p = contents w !! p)
    else
      writing dc0 dc' w' (l ++ [pk]) /\ dc_seq dc' = dc_seq dc /\
      (forall p, p <> dc_current_path dc -> contents w' !! p = contents w !! p).
Proof.
  intros Hopen Hw Hlt Hpos Hfits. destruct (wr_open _ _ _ _ Hw) as (d & Hd & Hpd). unfold dump_cb. rewrite Hd.
  rewrite needs_rotation_fits, outcome_bind_done by (rewrite (wr_written _ _ _ _ Hw); lia).
  destruct (overflows dc pk).
  - destruct (rotate_open_spec dc dc0 w (wr_config _ _ _ _ Hw) Hlt)
      as (dc1 & w1 & Hr & _ & _ & _ & _ & _).
    assert (Hd1 : dc_d dc1 <> None).
    { clear -Hr Hopen. unfold rotate_open in Hr.
      apply outcome_bind_Done_inv in Hr as (seq & _ & Hr).
      apply outcome_bind_Done_inv in Hr as (path & _ & Hr).
      destruct (pcap_dump_open path _) as [d' w'] eqn:E. apply (inj Done) in Hr as [= <- <-].
      cbn. pose proof (Hopen path) as Ho. match type of E with pcap_dump_open _ ?w0 = _ => specialize (Ho w0) end.
      by rewrite E in Ho. }
    destruct (rotate_writing dc0 dc w l dc1 w1 Hw Hlt Hr Hd1) as (Hw1 & Hseq & Hfr).
    rewrite Hr, outcome_bind_done. destruct (dc_d dc1) as [d1|] eqn:Ed1; [|done].
    rewrite add_written_fits, outcome_bind_done by (rewrite (wr_written _ _ _ _ Hw1); simpl; lia).
    eexists _, _. split; [done|].
    destruct (write_packet_writing dc0 dc1 w1 [] pk d1 Hw1 Ed1) as [Hw2 Hfr2].
    split; [exact Hw2|]. split; [done|]. intros p Hp. rewrite Hfr2, Hfr; [done|done|].
    by rewrite (wr_path _ _ _ _ Hw1), Hseq.
  - rewrite add_written_fits, outcome_bind_done by (rewrite (wr_written _ _ _ _ Hw); lia).
    eexists _, _. split; [done|].
    destruct (write_packet_writing dc0 dc w l pk d Hw Hd) as [Hw2 Hfr2]. done.
Qed.

(** ** Properties *)

Definition fits (max_bytes : Z) (seg : list Packet) : Prop :=
  max_bytes <= 0 \/ total_bytes seg <= max_bytes \/ (length seg <= 1)%nat.

(** [pks] packets from state [dc], [w] leave the segments [segs], the first of
    which continues the open file. *)
Record dumped (dc0 : CRxDumpCtx D) (seq : Z) (n : nat) (w w' : W) (segs : list (list Packet)) : Prop := {
  du_files : forall i seg, segs !! i = Some seg -> contents w' !! path_of dc0 (seq + Z.of_nat i) = Some seg;
  du_fits : Forall (fits (dc_max_bytes dc0)) segs;
  du_others : forall p, (forall i, 0 <= i <= Z.of_nat n -> p <> path_of dc0 (seq + i)) ->
    contents w' !! p = contents w !! p;
}.

Lemma fits_app dc0 dc w l pk :
  writing dc0 dc w l -> overflows dc pk = false -> fits (dc_max_bytes dc0) (l ++ [pk]).
Proof.
  intros [Hc _ _ _ Hw] Hn. unfold overflows, fits in *. destruct Hc as [Hm _]. rewrite Hm.
  rewrite total_bytes_app. simpl. zbool. apply andb_false_iff in Hn as [Hn|Hn]; zbool; lia.
Qed.

Lemma dump_all_segments dc0 pks :
  (forall p w, fst (pcap_dump_open p w) <> None) ->
  forall dc w l, writing dc0 dc w l -> fits (dc_max_bytes dc0) l ->
  dc_seq dc + Z.of_nat (length pks) <= INT_MAX -> Forall packet_ok (l ++ pks) -> total_bytes (l ++ pks) <= LONG_MAX ->
  (forall i j, 0 <= i <= Z.of_nat (length pks) -> 0 <= j <= Z.of_nat (length pks) ->
     path_of dc0 (dc_seq dc + i) = path_of dc0 (dc_seq dc + j) -> i = j) ->
  exists dc' w' segs last, dump_all localtime now dc pks w = Done (dc', w') /\
    writing dc0 dc' w' last /\
    concat (segs ++ [last]) = l ++ pks /\ dc_seq dc' = dc_seq dc + Z.of_nat (length segs) /\
    dumped dc0 (dc_seq dc) (length pks) w w' (segs ++ [last]).
Proof.
  intros Hopen. induction pks as [|pk pks IH]; intros dc w l Hw Hfit Hseqs Hok Htot Hinj.
  - exists dc, w, [], l. split; [done|]. split; [done|]. split; [simpl; by rewrite !app_nil_r|].
    split; [simpl; lia|]. split.
    + intros [|i] seg; [|done]. intros [= <-]. rewrite Z.add_0_r, <- (wr_path _ _ _ _ Hw). apply Hw.
    + by constructor.
    + done.
  - assert (0 <= total_bytes l /\ 0 <= total_bytes pks /\ total_bytes l + packet_bytes pk + total_bytes pks <= LONG_MAX)
      as (Hl & Hpks & Hpk).
    { rewrite total_bytes_app in Htot. simpl in Htot. apply Forall_app in Hok as [H1 [_ H2]%Forall_cons].
      apply total_bytes_pos in H1, H2. lia. }
    cbn [length] in Hseqs.
    destruct (dump_cb_writing dc0 dc w l pk Hopen Hw) as (dc1 & w1 & Hd & Hstep); [lia..|].
    cbn [dump_all]. rewrite Hd, outcome_bind_done.
    pose proof (fits_app dc0 dc w l pk Hw) as Happ. destruct (overflows dc pk).
    + destruct Hstep as (Hw1 & Hseq & Hfr).
      destruct (IH dc1 w1 [pk] Hw1) as (dc' & w' & segs & last & Hall & Hw' & Hcat & Hseq' & [Hf Hfi Ho]).
      { right; right. simpl. lia. }
      { lia. }
      { by apply Forall_app in Hok as [_ Hok]. }
      { simpl. lia. }
      { intros i j Hi Hj E. rewrite Hseq in E. assert (1 + i = 1 + j); [|lia].
        apply Hinj; [simpl; lia..|]. by rewrite !Z.add_assoc. }
      exists dc', w', (l :: segs), last. split; [done|]. split; [done|].
      split; [simpl; by rewrite Hcat|]. split; [simpl; lia|]. split.
      * intros [|i] seg; simpl.
        -- intros [= <-]. rewrite Ho, Hfr.
           ++ rewrite Z.add_0_r, <- (wr_path _ _ _ _ Hw). apply Hw.
           ++ intros E. apply Hinj in E; simpl; lia.
           ++ intros i Hi E. rewrite Hseq, <- Z.add_assoc in E. apply Hinj in E; simpl; lia.
        -- intros Hs. specialize (Hf i seg Hs). rewrite Hseq in Hf. rewrite <- Hf. f_equal. f_equal. lia.
      * by constructor.
      * intros p Hp. rewrite Ho, Hfr; [done|apply Hp; simpl; lia|].
        intros i Hi. rewrite Hseq, <- Z.add_assoc. apply Hp. simpl. lia.
    + destruct Hstep as (Hw1 & Hseq & Hfr).
      destruct (IH dc1 w1 (l ++ [pk]) Hw1 (Happ eq_refl)) as (dc' & w' & segs & last & Hall & Hw' & Hcat & Hseq' & [Hf Hfi Ho]).
      { lia. }
      { by rewrite <- app_assoc. }
      { by rewrite <- app_assoc. }
      { intros i j Hi Hj E. rewrite Hseq in E. apply Hinj; simpl; [lia..|done]. }
      exists dc', w', segs, last. split; [done|]. split; [done|].
      split; [by rewrite Hcat, <- app_assoc|]. split; [lia|]. rewrite Hseq in *. split; [done..|].
      intros p Hp. rewrite Ho, Hfr; [done| |].
      * rewrite (wr_path _ _ _ _ Hw), <- (Z.add_0_r (dc_seq dc)). apply Hp. simpl. lia.
      * intros i Hi. apply Hp. simpl. lia.
Qed.
End RotationFacts.

(** The name of a capture file.  On every pattern the expansion ends; the
    placeholders are replaced as [expands] says, runs of slashes are
    collapsed and change nothing else, and then come the port suffix (a port
    without a [{port}] placeholder), the [_raw] suffix (a protocol filter) and
    the base directory. *)
Theorem expand_pattern_spec localtime {D} now (dc : CRxDumpCtx D) :
  exists o b, expands localtime dc (base_time_of now dc) (pattern_of dc) o b /\
    (forall o' b', expands localtime dc (base_time_of now dc) (pattern_of dc) o' b' -> o' = o /\ b' = b) /\
    find_str "//" (collapse o) = None /\ (find_str "//" o = None -> collapse o = o) /\
    expand_pattern localtime now dc = Done (file_name dc o b).
Proof.
  destruct (expand_pattern_done localtime now dc) as (o & b & He & Hx). exists o, b.
  split; [done|]. split; [intros o' b' He'; by eapply expands_functional|].
  split; [apply collapse_clean|]. split; [apply collapse_id|done].
Qed.

(** Without [{seq}] a rotation discards what was captured: every segment
    has the same name (the default pattern included), so the packet that
    triggers the rotation is the only one left in the file. *)
Theorem rotation_without_seq_discards localtime `{Pcap W D R} now dc w l pk :
  (forall p w, fst (pcap_dump_open p w) <> None) -> writing localtime now dc dc w l ->
  find_str "{seq}" (pattern_of dc) = None -> overflows dc pk = true ->
  dc_seq dc < INT_MAX -> 0 <= total_bytes l -> total_bytes l + packet_bytes pk <= LONG_MAX ->
  exists dc' w', dump_cb localtime now dc pk w = Done (dc', w') /\
    dc_current_path dc' = dc_current_path dc /\
    contents w' !! dc_current_path dc = Some [pk] /\
    (forall p, p <> dc_current_path dc -> contents w' !! p = contents w !! p).
Proof.
  intros Hopen Hw Hpat Hn Hlt Hpos Hfits. assert (Hp : forall n, path_of localtime now dc n = path_of localtime now dc (dc_seq dc)).
  { intros n. unfold path_of. by rewrite (expand_pattern_ext _ _ (with_seq dc n) (with_seq dc (dc_seq dc)))
      by (repeat split; by right). }
  destruct (dump_cb_writing localtime now dc dc w l pk Hopen Hw Hlt Hpos Hfits) as (dc' & w' & Hd & Hstep).
  rewrite Hn in Hstep. destruct Hstep as (Hw' & Hseq & Hfr). exists dc', w'. split; [done|].
  assert (Hsame : dc_current_path dc' = dc_current_path dc).
  { by rewrite (wr_path _ _ _ _ _ _ Hw'), (wr_path _ _ _ _ _ _ Hw), Hp. }
  split; [done|]. split; [rewrite <- Hsame; apply Hw'|]. intros p Hne. apply Hfr.
  by rewrite Hp, <- (wr_path _ _ _ _ _ _ Hw).
Qed.

(** A rotation that cannot open the next segment drops the packet, and the
    packet after it is written through the null dumper. *)
Theorem failed_rotation_crashes localtime `{Pcap W D R} now dc w dc' w' pk :
  rotate_open localtime now dc w = Done (dc', w') -> dc_d dc' = None -> dc_d dc <> None ->
  needs_rotation dc pk = Done true ->
  dump_cb localtime now dc pk w = Done (dc', w') /\
  forall pk', dump_cb localtime now dc' pk' w' = Undef.
Proof.
  intros Hr Hd' Hd Hn. unfold dump_cb. rewrite Hd'. split; [|done].
  destruct (dc_d dc); [|done]. by rewrite Hn, outcome_bind_done, Hr, outcome_bind_done, Hd'.
Qed.

(** ** A capture on eth0 *)

Definition demo_time : Z -> tm := fun _ => mkTm 124 0 9 8 7.

Definition demo_packet (n : nat) : Packet := mkPacket (Z.of_nat n) (Z.of_nat n) (repeat x00 n).

(** A context as [rotate_open] leaves it, with one packet written. *)
Definition demo_dc (pattern : string) (path : string) : CRxDumpCtx string :=
  mkDumpCtx (Some path) 100 64 1 1704787620 "cap" pattern "" "eth0" "" 0 path "".

Definition demo_fs (path : string) : mem_fs := mkFs {[ path := [demo_packet 40] ]} [].

Lemma demo_writing pattern path ro :
  path_of demo_time 0 (demo_dc pattern path) 1 = path ->
  @writing demo_time _ _ _ (MemFs ro) 0 (demo_dc pattern path) (demo_dc pattern path) (demo_fs path)
    [demo_packet 40].
Proof.
  intros Hp. split; try done.
  - by exists path.
  - simpl. apply lookup_singleton_eq.
Defined.

Lemma expand_example :
  expand_pattern demo_time 0 (demo_dc "{day}//{date}-{iface}-{proc}-{seq}{x.{pcap" "")
  = Done "cap/20240109/202401090807-eth0-any-0001{x.{pcap".
Proof. reflexivity. Qed.

Lemma rotation_without_seq_discards_witness :
  exists dc' w',
    @dump_cb demo_time _ _ _ (MemFs ∅) 0 (demo_dc "" "cap/20240109/202401090807-eth0-any-any.pcap")
      (demo_packet 40) (demo_fs "cap/20240109/202401090807-eth0-any-any.pcap") = Done (dc', w') /\
    fs_files w' !! "cap/20240109/202401090807-eth0-any-any.pcap"%string = Some [demo_packet 40].
Proof.
  destruct (@rotation_without_seq_discards demo_time _ _ _ (MemFs ∅) 0
              (demo_dc "" "cap/20240109/202401090807-eth0-any-any.pcap")
              (demo_fs "cap/20240109/202401090807-eth0-any-any.pcap") [demo_packet 40] (demo_packet 40))
    as (dc' & w' & Hd & _ & Hc & _).
  - apply MemFs_opens.
  - apply demo_writing. reflexivity.
  - reflexivity.
  - reflexivity.
  - reflexivity.
  - vm_compute. discriminate.
  - vm_compute. discriminate.
  - exists dc', w'. split; [exact Hd|exact Hc].
Defined.

(** The second segment cannot be created. *)
Lemma failed_rotation_crashes_witness :
  let dc := demo_dc "{iface}-{seq}.pcap" "cap/eth0-0001.pcap" in
  let fs := MemFs {[ "cap/eth0-0002.pcap"%string ]} in
  exists dc' w', @dump_cb demo_time _ _ _ fs 0 dc (demo_packet 40) (demo_fs "cap/eth0-0001.pcap") = Done (dc', w') /\
    @dump_cb demo_time _ _ _ fs 0 dc' (demo_packet 40) w' = Undef.
Proof.
  intros dc fs.
  destruct (@rotate_open demo_time _ _ _ fs 0 dc (demo_fs "cap/eth0-0001.pcap")) as [[dc' w']| | |] eqn:E;
    [|vm_compute in E; discriminate E..].
  exists dc', w'. destruct (@failed_rotation_crashes demo_time _ _ _ fs 0 dc (demo_fs "cap/eth0-0001.pcap")
    dc' w' (demo_packet 40)) as [H1 H2].
  - exact E.
  - vm_compute in E. injection E as <- _. reflexivity.
  - discriminate.
  - reflexivity.
  - split; [exact H1|apply H2].
Defined.
