(* ===== verification/TaskTypes.v ===== *)
(** * Capture task data (src/src/rxcapturetasktypes.h)

    The task record shared by the manager and its worker threads, the file and
    archive records it accumulates, and the older [CaptureTaskTable].  C++
    objects are records; a field assignment is coqutil's record update
    [x <| field := v |>]. *)

From S2P Require Import Prelude.
From coqutil Require Export Datatypes.RecordSetters.
Export TriangleBracketNotations.
#[global] Open Scope record_set.

Record CaptureFileInfo := mkFileInfo {
  cf_file_path : string;
  cf_file_size : Z;
  cf_segment_index : Z;
  cf_total_segments : Z;
  cf_md5 : string;
  cf_file_ready_ts : Z;
  cf_compressed : bool;
  cf_archive_path : string;
  cf_compress_finish_ts : Z;
  cf_record_path : string;
}.

Definition new_file_info : CaptureFileInfo := mkFileInfo "" 0 0 1 "" 0 false "" 0 "".

Record CaptureArchiveInfo := mkArchiveInfo {
  ca_archive_path : string;
  ca_files : list CaptureFileInfo;
  ca_archive_size : Z;
  ca_compress_finish_ts : Z;
}.

Definition new_archive_info : CaptureArchiveInfo := mkArchiveInfo "" [] 0 0.

Inductive ECaptureMode := MODE_INTERFACE | MODE_PROCESS | MODE_PID | MODE_CONTAINER.

Inductive ECaptureTaskStatus :=
  | STATUS_PENDING | STATUS_RESOLVING | STATUS_RUNNING
  | STATUS_COMPLETED | STATUS_FAILED | STATUS_STOPPED.

#[export] Instance ECaptureMode_eq_dec : EqDecision ECaptureMode.
Proof. solve_decision. Defined.
#[export] Instance ECaptureTaskStatus_eq_dec : EqDecision ECaptureTaskStatus.
Proof. solve_decision. Defined.

(** [ObjId] of the message layer. *)
Record ObjId := mkObjId { obj_id : Z; obj_thread_index : Z }.

Record SRxCaptureTask := mkTask {
  t_capture_id : Z;
  t_key : string;
  t_signature : string;
  t_sid : string;
  t_capture_mode : ECaptureMode;
  t_iface : string;
  t_proc_name : string;
  t_target_pid : Z;
  t_container_id : string;
  t_netns_path : string;
  t_filter : string;
  t_protocol_filter : string;
  t_ip_filter : string;
  t_port_filter : Z;
  t_category : string;
  t_file_pattern : string;
  t_duration_sec : Z;
  t_max_bytes : Z;
  t_max_packets : Z;
  t_priority : Z;
  t_status : ECaptureTaskStatus;
  t_capture_pid : Z;
  t_output_file : string;
  t_start_time : Z;
  t_end_time : Z;
  t_matched_pids : list Z;
  t_resolved_iface : string;
  t_worker_thread_index : Z;
  t_stop_requested : bool;
  t_cancel_requested : bool;
  t_packet_count : Z;
  t_bytes_captured : Z;
  t_error_message : string;
  t_captured_files : list CaptureFileInfo;
  t_archives : list CaptureArchiveInfo;
  t_reply_target : ObjId;
  t_client_ip : string;
  t_request_user : string;
}.

(** The default constructor. *)
Definition new_task : SRxCaptureTask :=
  mkTask (-1) "" "" "" MODE_INTERFACE "" "" (-1) "" "" "" "" "" 0 "" "" 0 0 0 0
    STATUS_PENDING (-1) "" 0 0 [] "" 0 false false 0 0 "" [] [] (mkObjId 0 0) "" "".

(** ** The table of [CaptureTaskTable]

    [None] is a null [shared_ptr]; a task is copied before it changes, so
    values suffice. *)
Module CaptureTaskTable.

Record t := mk {
  tasks : gmap string (option SRxCaptureTask);
  id_to_key : gmap Z string;
}.

(** [task] is not null: the code reads [task->capture_id]. *)
Definition add_task (tbl : t) (key : string) (task : SRxCaptureTask) : t :=
  mk (<[key := Some task]> (tasks tbl)) (<[t_capture_id task := key]> (id_to_key tbl)).

Definition update_status (tbl : t) (capture_id : Z) (new_status : ECaptureTaskStatus) : t :=
  match id_to_key tbl !! capture_id with
  | None => tbl
  | Some key =>
      match tasks tbl !! key with
      | Some (Some task) => mk (<[key := Some (task <| t_status := new_status |>)]> (tasks tbl)) (id_to_key tbl)
      | _ => tbl
      end
  end.

Definition remove_task (tbl : t) (capture_id : Z) : t :=
  match id_to_key tbl !! capture_id with
  | None => tbl
  | Some key => mk (delete key (tasks tbl)) (delete capture_id (id_to_key tbl))
  end.
End CaptureTaskTable.
