(* ===== verification/Messages.v ===== *)
(** * Messages between the capture threads (src/src/rxcapturemessages.h, rxmsgtypes.h)

    The configuration snapshot, the capture specification and the messages
    the manager, the capture workers, the filter thread and the cleanup thread
    exchange.  A message object is a constructor of [message]; its [_msg_op] is
    determined by the constructor, which is what [dynamic_pointer_cast] tests.
    The measurements of type [double] are left out: nothing reads them. *)

From S2P Require Import Prelude TaskTypes.

Inductive ECaptureErrorCode :=
  | ERR_NONE | ERR_UNKNOWN
  | ERR_START_INVALID_PARAMS | ERR_START_NO_PERMISSION | ERR_START_INTERFACE_NOT_FOUND
  | ERR_START_PROCESS_NOT_FOUND | ERR_START_TCPDUMP_FAILED | ERR_START_CREATE_FILE_FAILED
  | ERR_RUN_TCPDUMP_DIED | ERR_RUN_DISK_FULL | ERR_RUN_TIMEOUT | ERR_RUN_CANCELLED
  | ERR_RUN_PROCESS_DIED
  | ERR_CLEAN_COMPRESS_FAILED | ERR_CLEAN_DELETE_FAILED | ERR_CLEAN_DISK_FULL.

(** The value of an enumerator. *)
Definition error_code_value (code : ECaptureErrorCode) : Z :=
  match code with
  | ERR_NONE => 0 | ERR_UNKNOWN => 1
  | ERR_START_INVALID_PARAMS => 100 | ERR_START_NO_PERMISSION => 101
  | ERR_START_INTERFACE_NOT_FOUND => 102 | ERR_START_PROCESS_NOT_FOUND => 103
  | ERR_START_TCPDUMP_FAILED => 104 | ERR_START_CREATE_FILE_FAILED => 105
  | ERR_RUN_TCPDUMP_DIED => 200 | ERR_RUN_DISK_FULL => 201 | ERR_RUN_TIMEOUT => 202
  | ERR_RUN_CANCELLED => 203 | ERR_RUN_PROCESS_DIED => 204
  | ERR_CLEAN_COMPRESS_FAILED => 300 | ERR_CLEAN_DELETE_FAILED => 301
  | ERR_CLEAN_DISK_FULL => 302
  end.

Definition rx_capture_error_to_string (code : ECaptureErrorCode) : string :=
  match code with
  | ERR_NONE => "ERR_NONE"
  | ERR_UNKNOWN => "ERR_UNKNOWN"
  | ERR_START_INVALID_PARAMS => "ERR_START_INVALID_PARAMS"
  | ERR_START_NO_PERMISSION => "ERR_START_NO_PERMISSION"
  | ERR_START_INTERFACE_NOT_FOUND => "ERR_START_INTERFACE_NOT_FOUND"
  | ERR_START_PROCESS_NOT_FOUND => "ERR_START_PROCESS_NOT_FOUND"
  | ERR_START_TCPDUMP_FAILED => "ERR_START_TCPDUMP_FAILED"
  | ERR_START_CREATE_FILE_FAILED => "ERR_START_CREATE_FILE_FAILED"
  | ERR_RUN_TCPDUMP_DIED => "ERR_RUN_TCPDUMP_DIED"
  | ERR_RUN_DISK_FULL => "ERR_RUN_DISK_FULL"
  | ERR_RUN_TIMEOUT => "ERR_RUN_TIMEOUT"
  | ERR_RUN_CANCELLED => "ERR_RUN_CANCELLED"
  | ERR_RUN_PROCESS_DIED => "ERR_RUN_PROCESS_DIED"
  | ERR_CLEAN_COMPRESS_FAILED => "ERR_CLEAN_COMPRESS_FAILED"
  | ERR_CLEAN_DELETE_FAILED => "ERR_CLEAN_DELETE_FAILED"
  | ERR_CLEAN_DISK_FULL => "ERR_CLEAN_DISK_FULL"
  end.

Record CaptureConfigSnapshot := mkConfigSnapshot {
  cs_output_dir : string;
  cs_filename_template : string;
  cs_file_rotate_size_mb : Z;
  cs_file_rotate_count : Z;
  cs_max_duration_sec : Z;
  cs_max_bytes : Z;
  cs_max_packets : Z;
  cs_snaplen : Z;
  cs_compress_enabled : bool;
  cs_compress_threshold_mb : Z;
  cs_compress_format : string;
  cs_compress_level : Z;
  cs_compress_remove_src : bool;
  cs_retain_days : Z;
  cs_clean_batch_size : Z;
  cs_disk_threshold_gb : Z;
  cs_progress_interval_sec : Z;
  cs_progress_packet_threshold : Z;
  cs_progress_bytes_threshold : Z;
  cs_config_hash : Z;
  cs_config_timestamp : Z;
}.

Definition new_snapshot : CaptureConfigSnapshot :=
  mkConfigSnapshot "" "" 100 0 0 0 0 65535 true 100 "tar.gz" 6 false 7 100 10 2 10000 (100 * 1024 * 1024) 0 0.

Record CaptureSpec := mkSpec {
  sp_capture_mode : ECaptureMode;
  sp_iface : string;
  sp_proc_name : string;
  sp_target_pid : Z;
  sp_container_id : string;
  sp_netns_path : string;
  sp_category : string;
  sp_filter : string;
  sp_protocol_filter : string;
  sp_protocol_filter_inline : string;
  sp_ip_filter : string;
  sp_port_filter : Z;
  sp_output_pattern : string;
  sp_resolved_iface : string;
  sp_max_duration_sec : Z;
  sp_max_bytes : Z;
  sp_max_packets : Z;
  sp_snaplen : Z;
}.

Record CaptureProgressStats := mkProgressStats {
  cp_packets : Z;
  cp_bytes : Z;
  cp_first_packet_ts : Z;
  cp_last_packet_ts : Z;
  cp_file_size : Z;
}.

Record CaptureResultStats := mkResultStats {
  cr_total_packets : Z;
  cr_total_bytes : Z;
  cr_start_ts : Z;
  cr_finish_ts : Z;
  cr_exit_code : Z;
  cr_error_message : string;
}.

(** The fields of [CaptureMessageBase] but [_msg_op]. *)
Record CaptureMessageBase := mkBase {
  mb_capture_id : Z;
  mb_key : string;
  mb_sid : string;
  mb_op_version : Z;
  mb_ts_usec : Z;
  mb_config_hash : Z;
  mb_sender_thread_index : Z;
}.

(** The constructor; [now] is [rx_capture_now_usec()]. *)
Definition new_base (now : Z) : CaptureMessageBase := mkBase (-1) "" "" 1 now 0 0.

Record SRxCaptureStartMsgV2 := mkStartV2 {
  sv_base : CaptureMessageBase;
  sv_config : CaptureConfigSnapshot;
  sv_spec : CaptureSpec;
  sv_worker_id : Z;
}.

Record SRxCaptureStartedMsgV2 := mkStartedV2 {
  st_base : CaptureMessageBase;
  st_start_ts : Z;
  st_capture_pid : Z;
  st_output_file : string;
}.

Record SRxCaptureProgressMsgV2 := mkProgressV2 {
  pr_base : CaptureMessageBase;
  pr_progress : CaptureProgressStats;
  pr_report_ts : Z;
}.

Record SRxCaptureFileReadyMsgV2 := mkFileReadyV2 {
  fr_base : CaptureMessageBase;
  fr_files : list CaptureFileInfo;
}.

Record SRxCaptureFinishedMsgV2 := mkFinishedV2 {
  fi_base : CaptureMessageBase;
  fi_result : CaptureResultStats;
}.

Record SRxCaptureFailedMsgV2 := mkFailedV2 {
  fa_base : CaptureMessageBase;
  fa_error_code : ECaptureErrorCode;
  fa_error_message : string;
}.

Record SRxCaptureRawFileMsgV2 := mkRawFileV2 {
  rw_base : CaptureMessageBase;
  rw_raw_pcap_path : string;
  rw_pdef_file_path : string;
  rw_pdef_inline_content : string;
  rw_has_pdef_filter : bool;
  rw_manager_thread_index : Z;
}.

Record SRxCaptureFilteredFileMsgV2 := mkFilteredV2 {
  ff_base : CaptureMessageBase;
  ff_filtered_pcap_path : string;
  ff_total_packets : Z;
  ff_filtered_packets : Z;
  ff_file_size : Z;
  ff_pdef_file_path : string;
}.

Record SRxFileEnqueueMsgV2 := mkFileEnqueueV2 {
  fe_base : CaptureMessageBase;
  fe_files : list CaptureFileInfo;
  fe_clean_policy : CaptureConfigSnapshot;
}.

Record SRxCleanCompressDoneMsgV2 := mkCompressDoneV2 {
  cd_base : CaptureMessageBase;
  cd_compressed_files : list CaptureFileInfo;
  cd_archive_path : string;
  cd_compressed_bytes : Z;
  cd_compress_duration_ms : Z;
}.

Record SRxCleanCompressFailedMsgV2 := mkCompressFailedV2 {
  cx_base : CaptureMessageBase;
  cx_failed_files : list CaptureFileInfo;
  cx_error_code : ECaptureErrorCode;
  cx_error_message : string;
}.

(** [capture_mode] is an [int] in the source; every writer stores the value of
    an enumerator. *)
Record SRxStartCaptureMsg := mkStartMsg {
  sm_capture_mode : ECaptureMode;
  sm_iface : string;
  sm_proc_name : string;
  sm_target_pid : Z;
  sm_container_id : string;
  sm_netns_path : string;
  sm_filter : string;
  sm_protocol_filter : string;
  sm_protocol_filter_inline : string;
  sm_ip_filter : string;
  sm_port_filter : Z;
  sm_category : string;
  sm_file_pattern : string;
  sm_duration_sec : Z;
  sm_max_bytes : Z;
  sm_max_packets : Z;
  sm_reply_target : ObjId;
  sm_client_ip : string;
  sm_request_user : string;
  sm_enqueue_ts_ms : Z;
  sm_sid : string;
}.

Definition new_start_msg : SRxStartCaptureMsg :=
  mkStartMsg MODE_INTERFACE "" "" (-1) "" "" "" "" "" "" 0 "" "" 60 0 0 (mkObjId 0 0) "" "" 0 "".

Record SRxStopCaptureMsg := mkStopMsg { sp_capture_id : Z; sp_reply_target : ObjId }.
Record SRxQueryCaptureMsg := mkQueryMsg { qm_capture_id : Z; qm_reply_target : ObjId }.

Record SRxTaskUpdateMsg := mkTaskUpdate {
  tu_capture_id : Z;
  tu_new_status : ECaptureTaskStatus;
  tu_update_capture_pid : bool;
  tu_capture_pid : Z;
  tu_update_output_file : bool;
  tu_output_file : string;
  tu_update_start_time : bool;
  tu_start_time : Z;
  tu_update_end_time : bool;
  tu_end_time : Z;
  tu_update_stats : bool;
  tu_packet_count : Z;
  tu_bytes_captured : Z;
  tu_update_error : bool;
  tu_error_message : string;
}.

(** [pdef_file_path] is a [char[256]]. *)
Record SRxPdefEndianMsg := mkEndianMsg {
  em_pdef_file_path : string;
  em_detected_endian : Z;
  em_capture_id : Z;
}.

Record SRxHttpReplyMsg := mkReply {
  hr_status : Z;
  hr_reason : string;
  hr_headers : gmap string string;
  hr_body : string;
  hr_conn_id : Z;
  hr_debug_request_ts_ms : Z;
  hr_debug_reply_ts_ms : Z;
}.

Definition new_reply : SRxHttpReplyMsg := mkReply 200 "" ∅ "" 0 0 0.

Record SRxSampleMsg := mkSampleMsg {
  sa_timestamp : Z;
  sa_cpu_hit : bool;
  sa_mem_hit : bool;
  sa_net_hit : bool;
  sa_alert_id : Z;
  sa_module_name : string;
  sa_capture_hint : string;
  sa_capture_category : string;
  sa_capture_duration_sec : Z;
  sa_cooldown_sec : Z;
  sa_cpu_threshold : Z;
  sa_mem_threshold : Z;
  sa_net_threshold : Z;
}.

Inductive message :=
  | MsgStartCapture (m : SRxStartCaptureMsg)
  | MsgStopCapture (m : SRxStopCaptureMsg)
  | MsgQueryCapture (m : SRxQueryCaptureMsg)
  | MsgTaskUpdate (m : SRxTaskUpdateMsg)
  | MsgCaptureStart (m : SRxCaptureStartMsgV2)
  | MsgCaptureStarted (m : SRxCaptureStartedMsgV2)
  | MsgCaptureProgress (m : SRxCaptureProgressMsgV2)
  | MsgCaptureFileReady (m : SRxCaptureFileReadyMsgV2)
  | MsgCaptureFinished (m : SRxCaptureFinishedMsgV2)
  | MsgCaptureFailed (m : SRxCaptureFailedMsgV2)
  | MsgCaptureRawFile (m : SRxCaptureRawFileMsgV2)
  | MsgCaptureFilteredFile (m : SRxCaptureFilteredFileMsgV2)
  | MsgFileEnqueue (m : SRxFileEnqueueMsgV2)
  | MsgCompressDone (m : SRxCleanCompressDoneMsgV2)
  | MsgCompressFailed (m : SRxCleanCompressFailedMsgV2)
  | MsgPdefEndian (m : SRxPdefEndianMsg)
  | MsgSampleAlert (m : SRxSampleMsg)
  | MsgHttpReply (m : SRxHttpReplyMsg)
  | MsgOther (op : Z).

Definition OBJ_ID_THREAD : Z := 1.

(** The address of a thread: [target._thread_index = static_cast<uint32_t>(i)]. *)
Definition thread_target (i : Z) : ObjId := mkObjId OBJ_ID_THREAD (u32 i).

(** What a handler posts with [put_obj_msg], in order. *)
Abbreviation outbox := (list (ObjId * message)).
