(* ===== verification/Endian.v ===== *)
(** * Endian readers (src/src/utils/endian.h)

    The sixteen [read_*] functions as executable definitions over a byte
    buffer: a read outside the buffer is [None], the index arithmetic
    [offset + k] is done in [uint32_t] as in C.  The specification is the
    positional value [be_value] of a slice of the buffer; [read_uint_be] and
    [read_uint_le] state the readers against it. *)

From S2P Require Import Prelude.

Definition byte_at (data : list byte) (i : Z) : option Z := b2z <$> aget data i.

(** Shifts in the width of the promoted operand. *)
Definition shl16 (x n : Z) : Z := u16 (Z.shiftl x n).
Definition shl32 (x n : Z) : Z := u32 (Z.shiftl x n).
Definition shl64 (x n : Z) : Z := u64 (Z.shiftl x n).

Infix ".|" := Z.lor (at level 50, left associativity) : c_scope.

Definition read_u16_be (data : list byte) (offset : Z) : option Z :=
  d0 ← byte_at data offset;
  d1 ← byte_at data (offset +32 1);
  Some (shl16 d0 8 .| d1).

Definition read_u16_le (data : list byte) (offset : Z) : option Z :=
  d0 ← byte_at data offset;
  d1 ← byte_at data (offset +32 1);
  Some (d0 .| shl16 d1 8).

Definition read_u32_be (data : list byte) (offset : Z) : option Z :=
  d0 ← byte_at data offset;
  d1 ← byte_at data (offset +32 1);
  d2 ← byte_at data (offset +32 2);
  d3 ← byte_at data (offset +32 3);
  Some (shl32 d0 24 .| shl32 d1 16 .| shl32 d2 8 .| d3).

Definition read_u32_le (data : list byte) (offset : Z) : option Z :=
  d0 ← byte_at data offset;
  d1 ← byte_at data (offset +32 1);
  d2 ← byte_at data (offset +32 2);
  d3 ← byte_at data (offset +32 3);
  Some (d0 .| shl32 d1 8 .| shl32 d2 16 .| shl32 d3 24).

Definition read_u64_be (data : list byte) (offset : Z) : option Z :=
  d0 ← byte_at data offset;
  d1 ← byte_at data (offset +32 1);
  d2 ← byte_at data (offset +32 2);
  d3 ← byte_at data (offset +32 3);
  d4 ← byte_at data (offset +32 4);
  d5 ← byte_at data (offset +32 5);
  d6 ← byte_at data (offset +32 6);
  d7 ← byte_at data (offset +32 7);
  Some (shl64 d0 56 .| shl64 d1 48 .| shl64 d2 40 .| shl64 d3 32
        .| shl64 d4 24 .| shl64 d5 16 .| shl64 d6 8 .| d7).

Definition read_u64_le (data : list byte) (offset : Z) : option Z :=
  d0 ← byte_at data offset;
  d1 ← byte_at data (offset +32 1);
  d2 ← byte_at data (offset +32 2);
  d3 ← byte_at data (offset +32 3);
  d4 ← byte_at data (offset +32 4);
  d5 ← byte_at data (offset +32 5);
  d6 ← byte_at data (offset +32 6);
  d7 ← byte_at data (offset +32 7);
  Some (d0 .| shl64 d1 8 .| shl64 d2 16 .| shl64 d3 24
        .| shl64 d4 32 .| shl64 d5 40 .| shl64 d6 48 .| shl64 d7 56).

Definition read_i8 (data : list byte) (offset : Z) : option Z :=
  signed_cast 8 <$> byte_at data offset.
Definition read_i16_be (data : list byte) (offset : Z) : option Z :=
  signed_cast 16 <$> read_u16_be data offset.
Definition read_i16_le (data : list byte) (offset : Z) : option Z :=
  signed_cast 16 <$> read_u16_le data offset.
Definition read_i32_be (data : list byte) (offset : Z) : option Z :=
  signed_cast 32 <$> read_u32_be data offset.
Definition read_i32_le (data : list byte) (offset : Z) : option Z :=
  signed_cast 32 <$> read_u32_le data offset.
Definition read_i64_be (data : list byte) (offset : Z) : option Z :=
  signed_cast 64 <$> read_u64_be data offset.
Definition read_i64_le (data : list byte) (offset : Z) : option Z :=
  signed_cast 64 <$> read_u64_le data offset.

(** ** Specification: the positional value of a byte sequence *)

Fixpoint be_acc (acc : Z) (bs : list byte) : Z :=
  match bs with
  | [] => acc
  | b :: bs' => be_acc (acc * 256 + b2z b) bs'
  end.

Definition be_value (bs : list byte) : Z := be_acc 0 bs.
Definition le_value (bs : list byte) : Z := be_value (rev bs).

Definition slice (data : list byte) (off n : nat) : list byte := take n (drop off data).

(** The value of the [n]-byte field at [off], most significant byte first or
    last; [None] when the field does not fit in the buffer. *)
Definition uint_at (big : bool) (data : list byte) (off n : nat) : option Z :=
  if (off + n <=? length data)%nat
  then Some ((if big then be_value else le_value) (slice data off n))
  else None.

Definition read_uint (big : bool) (n : nat) (data : list byte) (off : Z) : option Z :=
  match n, big with
  | 1%nat, _ => byte_at data off
  | 2%nat, true => read_u16_be data off
  | 2%nat, false => read_u16_le data off
  | 4%nat, true => read_u32_be data off
  | 4%nat, false => read_u32_le data off
  | 8%nat, true => read_u64_be data off
  | 8%nat, false => read_u64_le data off
  | _, _ => None
  end.

(** ** Proofs *)

Lemma be_acc_range acc bs :
  0 <= acc ->
  acc * 256 ^ Z.of_nat (length bs) <= be_acc acc bs
    < (acc + 1) * 256 ^ Z.of_nat (length bs).
Proof.
  revert acc. induction bs as [|b bs IH]; intros acc Hacc; simpl be_acc.
  - simpl. lia.
  - pose proof (b2z_range b). simpl length. rewrite Nat2Z.inj_succ, Z.pow_succ_r by lia.
    specialize (IH (acc * 256 + b2z b) ltac:(lia)).
    assert (0 < 256 ^ Z.of_nat (length bs)) by (apply Z.pow_pos_nonneg; lia). nia.
Qed.

Lemma be_value_range bs : 0 <= be_value bs < 256 ^ Z.of_nat (length bs).
Proof. unfold be_value. pose proof (be_acc_range 0 bs). lia. Qed.

Lemma le_value_range bs : 0 <= le_value bs < 256 ^ Z.of_nat (length bs).
Proof. unfold le_value. rewrite <- length_rev. apply be_value_range. Qed.

Lemma lor_add x b n :
  0 <= n -> 0 <= b < 2 ^ n -> Z.lor (x * 2 ^ n) b = x * 2 ^ n + b.
Proof.
  intros Hn Hb. rewrite <- Z.shiftl_mul_pow2 by lia.
  assert (Hl : Z.land (Z.shiftl x n) b = 0).
  { apply Z.bits_inj'. intros i Hi. rewrite Z.land_spec, Z.bits_0.
    destruct (Z.ltb_spec i n).
    - by rewrite Z.shiftl_spec_low.
    - destruct (Z.eq_dec b 0) as [->|]; [by rewrite Z.bits_0, andb_false_r|].
      rewrite (Z.bits_above_log2 b i), andb_false_r; [done|lia|]. apply Z.log2_lt_pow2; [lia|].
      pose proof (Z.pow_le_mono_r 2 n i). lia. }
  rewrite <- Z.lxor_lor by done. symmetry. by apply Z.add_nocarry_lxor.
Qed.

(** [x .| y] where [y] fits below the lowest set bit [n] of [x]. *)
Lemma lor_add_mult x y n :
  0 <= n -> x mod 2 ^ n = 0 -> 0 <= y < 2 ^ n -> x .| y = x + y.
Proof.
  intros Hn Hx Hy. assert (0 < 2 ^ n) by (apply Z.pow_pos_nonneg; lia).
  assert (E : x = x / 2 ^ n * 2 ^ n) by (rewrite Z.mul_comm; apply Z_div_exact_full_2; lia).
  rewrite E. by apply lor_add.
Qed.

Lemma shl_small w x n :
  0 <= n -> 0 <= x < 256 -> n + 8 <= w -> Z.shiftl x n mod 2 ^ w = x * 2 ^ n.
Proof.
  intros Hn Hx Hw. rewrite Z.shiftl_mul_pow2 by lia. apply Z.mod_small.
  pose proof (Z.pow_le_mono_r 2 (n + 8) w). rewrite Z.pow_add_r in * by lia.
  assert (0 < 2 ^ n) by (apply Z.pow_pos_nonneg; lia). change (2 ^ 8) with 256 in *. nia.
Qed.

(** An or of shifted bytes is a sum; most significant byte first, then last. *)
Ltac lor_sum_be :=
  unfold shl16, shl32, shl64, u16, u32, u64;
  rewrite ?shl_small by lia; rewrite <- ?Z.lor_assoc;
  repeat match goal with
  | |- context [Z.lor (?x * 2 ^ ?k) ?r] =>
      lazymatch r with context [Z.lor _ _] => fail | _ => idtac end;
      rewrite (lor_add_mult (x * 2 ^ k) r k) by (first [lia | apply Z.mod_mul; lia])
  end.

Ltac lor_sum_le :=
  unfold shl16, shl32, shl64, u16, u32, u64;
  rewrite ?shl_small by lia;
  repeat match goal with
  | |- context [Z.lor ?r (?x * 2 ^ ?k)] =>
      lazymatch r with context [Z.lor _ _] => fail | _ => idtac end;
      rewrite (Z.lor_comm r (x * 2 ^ k)), (lor_add_mult (x * 2 ^ k) r k)
        by (first [lia | apply Z.mod_mul; lia])
  end.

Lemma byte_at_lookup data i : byte_at data (Z.of_nat i) = b2z <$> data !! i.
Proof. unfold byte_at. by rewrite aget_nat. Qed.

Lemma byte_at_u32 data off k :
  Z.of_nat off + k < 2 ^ 32 -> 0 <= k ->
  byte_at data (Z.of_nat off +32 k) = b2z <$> data !! (off + Z.to_nat k)%nat.
Proof.
  intros. rewrite u32_small by lia. rewrite <- byte_at_lookup. f_equal. lia.
Qed.

Lemma slice_cons data off n b :
  data !! off = Some b -> slice data off (S n) = b :: slice data (S off) n.
Proof. intros H. unfold slice. by erewrite drop_S. Qed.

(** The bytes of a field inside the buffer. *)
Lemma slice_spec data off n :
  (off + n <= length data)%nat ->
  exists bs, slice data off n = bs /\ length bs = n /\
    forall k, (k < n)%nat -> data !! (off + k)%nat = bs !! k.
Proof.
  intros H. exists (slice data off n). split; [done|]. split.
  - unfold slice. rewrite length_take, length_drop. lia.
  - intros k Hk. unfold slice. rewrite lookup_take_lt by done. by rewrite lookup_drop.
Qed.

Lemma byte_at_field (data : list byte) off n (bs : list byte) k :
  (forall j, (j < n)%nat -> data !! (off + j)%nat = bs !! j) ->
  Z.of_nat off + Z.of_nat n <= 2 ^ 32 -> 0 <= k < Z.of_nat n ->
  byte_at data (Z.of_nat off +32 k) = b2z <$> bs !! Z.to_nat k.
Proof. intros Hk Hoff Hr. rewrite byte_at_u32 by lia. rewrite Hk by lia. done. Qed.

Ltac read_spec lor_tac Hlen Hoff :=
  let bs := fresh "bs" in let Hb := fresh "Hb" in let Hl := fresh "Hl" in let Hk := fresh "Hk" in
  destruct (slice_spec _ _ _ Hlen) as (bs & Hb & Hl & Hk);
  rewrite ?Hb;
  match goal with |- context [byte_at ?data (Z.of_nat ?off)] =>
    replace (byte_at data (Z.of_nat off)) with (b2z <$> bs !! 0%nat)
      by (rewrite byte_at_lookup; rewrite <- (Hk 0%nat) by lia; do 2 f_equal; lia) end;
  rewrite ?(fun k H => byte_at_field _ _ _ _ k Hk Hoff H) by lia;
  destruct bs as [|? bs]; [discriminate Hl|];
  repeat (destruct bs as [|? bs]; [try discriminate Hl|try discriminate Hl]);
  repeat match goal with b : byte |- _ =>
    lazymatch goal with H : 0 <= b2z b < 256 |- _ => fail | _ => pose proof (b2z_range b) end end;
  simpl; f_equal; lor_tac; unfold le_value, be_value; simpl be_acc; lia.

Section Readers.
Context (data : list byte) (off : nat).

Lemma read_u16_be_spec :
  (off + 2 <= length data)%nat -> Z.of_nat off + Z.of_nat 2 <= 2 ^ 32 ->
  read_u16_be data (Z.of_nat off) = Some (be_value (slice data off 2)).
Proof. intros Hlen Hoff. unfold read_u16_be. read_spec lor_sum_be Hlen Hoff. Qed.

Lemma read_u16_le_spec :
  (off + 2 <= length data)%nat -> Z.of_nat off + Z.of_nat 2 <= 2 ^ 32 ->
  read_u16_le data (Z.of_nat off) = Some (le_value (slice data off 2)).
Proof. intros Hlen Hoff. unfold read_u16_le. read_spec lor_sum_le Hlen Hoff. Qed.

Lemma read_u32_be_spec :
  (off + 4 <= length data)%nat -> Z.of_nat off + Z.of_nat 4 <= 2 ^ 32 ->
  read_u32_be data (Z.of_nat off) = Some (be_value (slice data off 4)).
Proof. intros Hlen Hoff. unfold read_u32_be. read_spec lor_sum_be Hlen Hoff. Qed.

Lemma read_u32_le_spec :
  (off + 4 <= length data)%nat -> Z.of_nat off + Z.of_nat 4 <= 2 ^ 32 ->
  read_u32_le data (Z.of_nat off) = Some (le_value (slice data off 4)).
Proof. intros Hlen Hoff. unfold read_u32_le. read_spec lor_sum_le Hlen Hoff. Qed.

Lemma read_u64_be_spec :
  (off + 8 <= length data)%nat -> Z.of_nat off + Z.of_nat 8 <= 2 ^ 32 ->
  read_u64_be data (Z.of_nat off) = Some (be_value (slice data off 8)).
Proof. intros Hlen Hoff. unfold read_u64_be. read_spec lor_sum_be Hlen Hoff. Qed.

Lemma read_u64_le_spec :
  (off + 8 <= length data)%nat -> Z.of_nat off + Z.of_nat 8 <= 2 ^ 32 ->
  read_u64_le data (Z.of_nat off) = Some (le_value (slice data off 8)).
Proof. intros Hlen Hoff. unfold read_u64_le. read_spec lor_sum_le Hlen Hoff. Qed.

Lemma byte_at_spec big :
  (off + 1 <= length data)%nat ->
  byte_at data (Z.of_nat off) = uint_at big data off 1.
Proof.
  intros Hlen. destruct (slice_spec data off 1 Hlen) as (bs & Hb & Hl & Hk).
  unfold uint_at. rewrite (proj2 (Nat.leb_le _ _) Hlen), Hb, byte_at_lookup.
  replace off with (off + 0)%nat by lia. rewrite Hk by lia.
  destruct bs as [|b [|]]; try discriminate Hl. by destruct big.
Qed.
End Readers.

(** Field widths of the PDEF language. *)
Definition int_width (n : nat) : Prop := n = 1%nat \/ n = 2%nat \/ n = 4%nat \/ n = 8%nat.

Lemma read_uint_uint_at big n data off :
  int_width n -> (off + n <= length data)%nat -> Z.of_nat off + Z.of_nat n <= 2 ^ 32 ->
  read_uint big n data (Z.of_nat off) = uint_at big data off n.
Proof.
  intros Hn Hlen Hoff.
  destruct Hn as [->|[->|[->| ->]]]; [by apply byte_at_spec|..];
    unfold uint_at; rewrite (proj2 (Nat.leb_le _ _) Hlen); destruct big; simpl read_uint;
    auto using read_u16_be_spec, read_u16_le_spec, read_u32_be_spec, read_u32_le_spec,
      read_u64_be_spec, read_u64_le_spec.
Qed.

Lemma uint_at_range big data off n v :
  uint_at big data off n = Some v -> 0 <= v < 256 ^ Z.of_nat n.
Proof.
  unfold uint_at. destruct (Nat.leb_spec (off + n) (length data)); [|done].
  intros [= <-].
  assert (Hl : length (slice data off n) = n)
    by (unfold slice; rewrite length_take, length_drop; lia).
  rewrite <- Hl at 3. destruct big; [apply be_value_range|apply le_value_range].
Qed.

Lemma uint_at_None big data off n :
  uint_at big data off n = None <-> (length data < off + n)%nat.
Proof. unfold uint_at. destruct (Nat.leb_spec (off + n) (length data)); split; done || lia. Qed.

(** The bytes [n] bytes long that encode [v], most significant first. *)
Fixpoint le_bytes (n : nat) (v : Z) : list byte :=
  match n with
  | O => []
  | S n' => default x00 (Byte.of_N (Z.to_N (v mod 256))) :: le_bytes n' (v / 256)
  end.
Definition be_bytes (n : nat) (v : Z) : list byte := rev (le_bytes n v).

Lemma be_acc_app acc l1 l2 : be_acc acc (l1 ++ l2) = be_acc (be_acc acc l1) l2.
Proof. revert acc. induction l1 as [|b l1 IH]; intros; simpl; auto. Qed.

Lemma b2z_of_Z v : b2z (default x00 (Byte.of_N (Z.to_N (v mod 256)))) = v mod 256.
Proof.
  pose proof (Z.mod_pos_bound v 256 ltac:(lia)).
  destruct (Byte.of_N (Z.to_N (v mod 256))) as [b|] eqn:E; simpl.
  - apply Byte.to_of_N in E. unfold b2z. rewrite E. lia.
  - apply Byte.of_N_None_iff in E. lia.
Qed.

Lemma be_value_be_bytes n v : be_value (be_bytes n v) = v mod 256 ^ Z.of_nat n.
Proof.
  unfold be_value, be_bytes. revert v. induction n as [|n IH]; intros v.
  - simpl. by rewrite Z.mod_1_r.
  - simpl le_bytes. simpl rev. rewrite be_acc_app, IH. simpl be_acc. rewrite b2z_of_Z.
    rewrite Nat2Z.inj_succ, Z.pow_succ_r by lia.
    rewrite (Z.rem_mul_r v 256) by (try apply Z.pow_nonzero; lia). lia.
Qed.

Lemma length_be_bytes n v : length (be_bytes n v) = n.
Proof.
  unfold be_bytes. rewrite length_rev. revert v. induction n; intros; simpl; auto.
Qed.

(** ** Properties *)

(** Each unsigned reader returns exactly the positional value of the
    bytes of its field (most significant byte first for [_be], last for
    [_le]) whenever the field lies inside the buffer and below 2^32, and that
    value is below 256^n, so nothing is lost by the C casts and shifts. *)
Theorem readers_positional big n data off :
  int_width n -> (off + n <= length data)%nat -> Z.of_nat off + Z.of_nat n <= 2 ^ 32 ->
  read_uint big n data (Z.of_nat off)
    = Some ((if big then be_value else le_value) (slice data off n)) /\
  exists v, read_uint big n data (Z.of_nat off) = Some v /\ 0 <= v < 256 ^ Z.of_nat n.
Proof.
  intros Hn Hlen Hoff. rewrite (read_uint_uint_at big n data off) by done.
  destruct (uint_at big data off n) as [v|] eqn:E.
  - split; [|exists v; split; [done|by eapply uint_at_range]].
    rewrite <- E. unfold uint_at. by rewrite (proj2 (Nat.leb_le _ _) Hlen).
  - apply uint_at_None in E. lia.
Qed.

Lemma readers_positional_witness :
  int_width 4 /\ read_uint true 4 [x00; x12; x34; x56; x78] (Z.of_nat 1) = Some 0x12345678 /\
  (read_uint true 4 [x00; x12; x34; x56; x78] (Z.of_nat 1)
     = Some (be_value (slice [x00; x12; x34; x56; x78] 1 4)) /\
   exists v, read_uint true 4 [x00; x12; x34; x56; x78] (Z.of_nat 1) = Some v /\
     0 <= v < 256 ^ Z.of_nat 4).
Proof.
  split; [unfold int_width; lia|]. split; [vm_compute; reflexivity|].
  apply (readers_positional true 4 [x00; x12; x34; x56; x78] 1);
    [unfold int_width; lia | vm_compute; lia | vm_compute; discriminate].
Defined.

(** Encode/decode round trip: a value written big-endian into [n] bytes
    anywhere in a packet is what the big-endian reader of that width returns,
    and written in the reverse order what the little-endian reader returns. *)
Theorem read_write_roundtrip n v pre post :
  int_width n -> 0 <= v < 256 ^ Z.of_nat n ->
  Z.of_nat (length pre) + Z.of_nat n <= 2 ^ 32 ->
  read_uint true n (pre ++ be_bytes n v ++ post) (Z.of_nat (length pre)) = Some v /\
  read_uint false n (pre ++ rev (be_bytes n v) ++ post) (Z.of_nat (length pre)) = Some v.
Proof.
  intros Hn Hv Hoff.
  assert (Hs : forall l, length l = n -> slice (pre ++ l ++ post) (length pre) n = l).
  { intros l Hl. unfold slice. rewrite drop_app_length. rewrite <- Hl. apply take_app_length. }
  pose proof (length_be_bytes n v) as Hl.
  assert (Hr : length (rev (be_bytes n v)) = n) by (by rewrite length_rev).
  split.
  - rewrite read_uint_uint_at; [| done | rewrite !length_app; lia | done].
    unfold uint_at. rewrite (proj2 (Nat.leb_le _ _)) by (rewrite !length_app; lia).
    rewrite Hs by done. by rewrite be_value_be_bytes, Z.mod_small.
  - rewrite read_uint_uint_at; [| done | rewrite !length_app; lia | done].
    unfold uint_at. rewrite (proj2 (Nat.leb_le _ _)) by (rewrite !length_app; lia).
    rewrite Hs by done. unfold le_value. by rewrite rev_involutive, be_value_be_bytes, Z.mod_small.
Qed.

Lemma read_write_roundtrip_witness :
  be_bytes 2 0x1234 = [x12; x34] /\
  (read_uint true 2 ([xff] ++ be_bytes 2 0x1234 ++ []) (Z.of_nat (length [xff])) = Some 0x1234 /\
   read_uint false 2 ([xff] ++ rev (be_bytes 2 0x1234) ++ []) (Z.of_nat (length [xff])) = Some 0x1234).
Proof.
  split; [vm_compute; reflexivity|].
  apply (read_write_roundtrip 2 0x1234 [xff] []);
    [unfold int_width; lia | split; vm_compute; congruence | vm_compute; congruence].
Defined.
