(* ===== verification/PdefTypes.v ===== *)
(** * PDEF data types (src/src/pdef/pdef_types.h, pdef_types.c)

    Enumerations, records and the name and size tables shared by the lexer,
    the parser, the compiler and the bytecode executor.  A [char[N]] member is
    a [string]; the code that fills it truncates to [N - 1] characters.  A
    pointer with its count is a list; [bytecode] pointers that may be null are
    options. *)

From S2P Require Import Prelude.

Inductive FieldType :=
  | FIELD_TYPE_UINT8 | FIELD_TYPE_UINT16 | FIELD_TYPE_UINT32 | FIELD_TYPE_UINT64
  | FIELD_TYPE_INT8 | FIELD_TYPE_INT16 | FIELD_TYPE_INT32 | FIELD_TYPE_INT64
  | FIELD_TYPE_BYTES | FIELD_TYPE_STRING | FIELD_TYPE_VARBYTES | FIELD_TYPE_NESTED.

Inductive Endian := ENDIAN_BIG | ENDIAN_LITTLE.

Inductive EndianMode := ENDIAN_MODE_BIG | ENDIAN_MODE_LITTLE | ENDIAN_MODE_AUTO.

Inductive EndianType := ENDIAN_TYPE_UNKNOWN | ENDIAN_TYPE_BIG | ENDIAN_TYPE_LITTLE.

#[export] Instance FieldType_eq_dec : EqDecision FieldType.
Proof. solve_decision. Defined.
#[export] Instance Endian_eq_dec : EqDecision Endian.
Proof. solve_decision. Defined.
#[export] Instance EndianMode_eq_dec : EqDecision EndianMode.
Proof. solve_decision. Defined.
#[export] Instance EndianType_eq_dec : EqDecision EndianType.
Proof. solve_decision. Defined.

Record Field := mkField {
  f_name : string;
  f_type : FieldType;
  f_offset : Z;
  f_size : Z;
  f_endian : Endian;
  f_is_variable : bool;
  f_is_array : bool;
  f_array_size : Z;
}.

Record StructDef := mkStructDef {
  s_name : string;
  s_fields : list Field;
  s_min_size : Z;
  s_has_variable : bool;
}.

Inductive OpCode :=
  | OP_LOAD_U8
  | OP_LOAD_U16_BE | OP_LOAD_U16_LE
  | OP_LOAD_U32_BE | OP_LOAD_U32_LE
  | OP_LOAD_U64_BE | OP_LOAD_U64_LE
  | OP_LOAD_I8
  | OP_LOAD_I16_BE | OP_LOAD_I16_LE
  | OP_LOAD_I32_BE | OP_LOAD_I32_LE
  | OP_LOAD_I64_BE | OP_LOAD_I64_LE
  | OP_CMP_EQ | OP_CMP_NE | OP_CMP_GT | OP_CMP_GE | OP_CMP_LT | OP_CMP_LE | OP_CMP_MASK
  | OP_JUMP_IF_FALSE | OP_JUMP | OP_RETURN_TRUE | OP_RETURN_FALSE.

#[export] Instance OpCode_eq_dec : EqDecision OpCode.
Proof. solve_decision. Defined.

Record Instruction := mkIns {
  i_opcode : OpCode;
  i_offset : Z;
  i_operand : Z;
  i_operand2 : Z;
  i_jump_target : Z;
}.

(** The all-zero instruction of [calloc] and [(Instruction){0}]. *)
Definition zero_ins : Instruction := mkIns OP_LOAD_U8 0 0 0 0.

Record FilterRule := mkFilterRule {
  r_name : string;
  r_struct_name : string;
  r_bytecode : option (list Instruction);
  r_bytecode_len : Z;
  r_bytecode_be : option (list Instruction);
  r_bytecode_be_len : Z;
  r_bytecode_le : option (list Instruction);
  r_bytecode_le_len : Z;
  r_min_packet_size : Z;
  r_sliding_window : bool;
  r_sliding_max_offset : Z;
}.

Record ConstantEntry := mkConstant { c_name : string; c_value : Z }.

(** [constants] is the linked list from [proto->constants] on;
    [struct_count], [filter_count] and [constant_count] are the lengths of the
    lists once parsing is complete. *)
Record ProtocolDef := mkProtocolDef {
  pd_name : string;
  pd_ports : option (list Z);
  pd_port_count : Z;
  pd_default_endian : Endian;
  pd_structs : list StructDef;
  pd_filters : list FilterRule;
  pd_constants : list ConstantEntry;
  pd_endian_mode : EndianMode;
  pd_detected_endian : EndianType;
  pd_endian_writeback_done : Z;
  pd_pdef_file_path : string;
}.

Definition field_type_size (t : FieldType) : Z :=
  match t with
  | FIELD_TYPE_UINT8 | FIELD_TYPE_INT8 => 1
  | FIELD_TYPE_UINT16 | FIELD_TYPE_INT16 => 2
  | FIELD_TYPE_UINT32 | FIELD_TYPE_INT32 => 4
  | FIELD_TYPE_UINT64 | FIELD_TYPE_INT64 => 8
  | FIELD_TYPE_BYTES | FIELD_TYPE_STRING | FIELD_TYPE_VARBYTES | FIELD_TYPE_NESTED => 0
  end.

Definition field_type_name (t : FieldType) : string :=
  match t with
  | FIELD_TYPE_UINT8 => "uint8"
  | FIELD_TYPE_UINT16 => "uint16"
  | FIELD_TYPE_UINT32 => "uint32"
  | FIELD_TYPE_UINT64 => "uint64"
  | FIELD_TYPE_INT8 => "int8"
  | FIELD_TYPE_INT16 => "int16"
  | FIELD_TYPE_INT32 => "int32"
  | FIELD_TYPE_INT64 => "int64"
  | FIELD_TYPE_BYTES => "bytes"
  | FIELD_TYPE_STRING => "string"
  | FIELD_TYPE_VARBYTES => "varbytes"
  | FIELD_TYPE_NESTED => "nested"
  end.

Definition opcode_name (op : OpCode) : string :=
  match op with
  | OP_LOAD_U8 => "LOAD_U8"
  | OP_LOAD_U16_BE => "LOAD_U16_BE"
  | OP_LOAD_U16_LE => "LOAD_U16_LE"
  | OP_LOAD_U32_BE => "LOAD_U32_BE"
  | OP_LOAD_U32_LE => "LOAD_U32_LE"
  | OP_LOAD_U64_BE => "LOAD_U64_BE"
  | OP_LOAD_U64_LE => "LOAD_U64_LE"
  | OP_LOAD_I8 => "LOAD_I8"
  | OP_LOAD_I16_BE => "LOAD_I16_BE"
  | OP_LOAD_I16_LE => "LOAD_I16_LE"
  | OP_LOAD_I32_BE => "LOAD_I32_BE"
  | OP_LOAD_I32_LE => "LOAD_I32_LE"
  | OP_LOAD_I64_BE => "LOAD_I64_BE"
  | OP_LOAD_I64_LE => "LOAD_I64_LE"
  | OP_CMP_EQ => "CMP_EQ"
  | OP_CMP_NE => "CMP_NE"
  | OP_CMP_GT => "CMP_GT"
  | OP_CMP_GE => "CMP_GE"
  | OP_CMP_LT => "CMP_LT"
  | OP_CMP_LE => "CMP_LE"
  | OP_CMP_MASK => "CMP_MASK"
  | OP_JUMP_IF_FALSE => "JUMP_IF_FALSE"
  | OP_JUMP => "JUMP"
  | OP_RETURN_TRUE => "RETURN_TRUE"
  | OP_RETURN_FALSE => "RETURN_FALSE"
  end.

(** Distinct opcodes print differently, so a disassembly determines them. *)
Lemma opcode_name_inj : Inj (=) (=) opcode_name.
Proof. intros [] []; simpl; done. Qed.
