(* ===== verification/Executor.v ===== *)
(** * Bytecode executor (src/src/runtime/executor.c)

    [execute_bytecode] is a register machine with an instruction pointer, an
    accumulator and a comparison flag.  [exec_step] is one iteration of its
    loop, [exec] the loop with fuel.  The memory behind the [packet] and
    [bytecode] pointers is a list: an access outside it is [Undefined], so
    that memory safety is a theorem and not an assumption.  Null pointers are
    [None]. *)

From S2P Require Import Prelude Endian PdefTypes.

Inductive exec_result :=
  | Ret (b : bool)       (* the function returned [b] *)
  | Undefined            (* an access outside the packet or the bytecode *)
  | OutOfFuel.           (* the loop is still running *)

Record exec_state := mkExec { ip : Z; acc : Z; cmp_result : bool }.

Inductive step_result :=
  | Next (s : exec_state)
  | Stop (r : exec_result).

(** [if (ins->offset + n > packet_len) return false; acc = read(packet, ins->offset);] *)
Definition load (packet : list byte) (packet_len : Z) (ins : Instruction) (n : Z)
    (read : list byte -> Z -> option Z) (s : exec_state) : step_result :=
  if i_offset ins +32 n >? packet_len then Stop (Ret false)
  else match read packet (i_offset ins) with
       | Some v => Next (mkExec (ip s +32 1) (u64 v) (cmp_result s))
       | None => Stop Undefined
       end.

Definition compare_acc (b : bool) (s : exec_state) : step_result :=
  Next (mkExec (ip s +32 1) (acc s) b).

Definition goto (bytecode_len : Z) (ins : Instruction) (s : exec_state) : step_result :=
  if i_jump_target ins >=? bytecode_len then Stop (Ret false)
  else Next (mkExec (i_jump_target ins) (acc s) (cmp_result s)).

Definition exec_step (packet : list byte) (packet_len : Z)
    (bytecode : list Instruction) (bytecode_len : Z) (s : exec_state) : step_result :=
  match aget bytecode (ip s) with
  | None => Stop Undefined
  | Some ins =>
      match i_opcode ins with
      | OP_LOAD_U8 => load packet packet_len ins 1 byte_at s
      | OP_LOAD_U16_BE => load packet packet_len ins 2 read_u16_be s
      | OP_LOAD_U16_LE => load packet packet_len ins 2 read_u16_le s
      | OP_LOAD_U32_BE => load packet packet_len ins 4 read_u32_be s
      | OP_LOAD_U32_LE => load packet packet_len ins 4 read_u32_le s
      | OP_LOAD_U64_BE => load packet packet_len ins 8 read_u64_be s
      | OP_LOAD_U64_LE => load packet packet_len ins 8 read_u64_le s
      | OP_LOAD_I8 => load packet packet_len ins 1 read_i8 s
      | OP_LOAD_I16_BE => load packet packet_len ins 2 read_i16_be s
      | OP_LOAD_I16_LE => load packet packet_len ins 2 read_i16_le s
      | OP_LOAD_I32_BE => load packet packet_len ins 4 read_i32_be s
      | OP_LOAD_I32_LE => load packet packet_len ins 4 read_i32_le s
      | OP_LOAD_I64_BE => load packet packet_len ins 8 read_i64_be s
      | OP_LOAD_I64_LE => load packet packet_len ins 8 read_i64_le s
      | OP_CMP_EQ => compare_acc (acc s =? i_operand ins) s
      | OP_CMP_NE => compare_acc (negb (acc s =? i_operand ins)) s
      | OP_CMP_GT => compare_acc (acc s >? i_operand ins) s
      | OP_CMP_GE => compare_acc (acc s >=? i_operand ins) s
      | OP_CMP_LT => compare_acc (acc s <? i_operand ins) s
      | OP_CMP_LE => compare_acc (acc s <=? i_operand ins) s
      | OP_CMP_MASK => compare_acc (Z.land (acc s) (i_operand ins) =? i_operand2 ins) s
      | OP_JUMP_IF_FALSE =>
          if negb (cmp_result s) then goto bytecode_len ins s
          else Next (mkExec (ip s +32 1) (acc s) (cmp_result s))
      | OP_JUMP => goto bytecode_len ins s
      | OP_RETURN_TRUE => Stop (Ret true)
      | OP_RETURN_FALSE => Stop (Ret false)
      end
  end.

Fixpoint exec (fuel : nat) (packet : list byte) (packet_len : Z)
    (bytecode : list Instruction) (bytecode_len : Z) (s : exec_state) : exec_result :=
  match fuel with
  | O => OutOfFuel
  | S n =>
      if ip s <? bytecode_len then
        match exec_step packet packet_len bytecode bytecode_len s with
        | Next s' => exec n packet packet_len bytecode bytecode_len s'
        | Stop r => r
        end
      else Ret false
  end.

(** One more step than there are instructions: enough when no jump goes back
    ([exec_forward]). *)
Definition exec_fuel (bytecode_len : Z) : nat := S (Z.to_nat bytecode_len).

Definition execute_bytecode (packet : option (list byte)) (packet_len : Z)
    (bytecode : option (list Instruction)) (bytecode_len : Z) : exec_result :=
  match packet, bytecode with
  | Some packet, Some bytecode =>
      if bytecode_len =? 0 then Ret false
      else exec (exec_fuel bytecode_len) packet packet_len bytecode bytecode_len (mkExec 0 0 false)
  | _, _ => Ret false
  end.

Definition execute_filter (packet : option (list byte)) (packet_len : Z)
    (rule : option FilterRule) : exec_result :=
  match packet, rule with
  | Some _, Some r =>
      if packet_len <? r_min_packet_size r then Ret false
      else execute_bytecode packet packet_len (r_bytecode r) (r_bytecode_len r)
  | _, _ => Ret false
  end.

(** ** The value a load instruction leaves in the accumulator *)

(** Width, signedness and byte order of a load opcode. *)
Definition load_kind (op : OpCode) : option (nat * bool * bool) :=
  match op with
  | OP_LOAD_U8 => Some (1%nat, false, true)
  | OP_LOAD_U16_BE => Some (2%nat, false, true)
  | OP_LOAD_U16_LE => Some (2%nat, false, false)
  | OP_LOAD_U32_BE => Some (4%nat, false, true)
  | OP_LOAD_U32_LE => Some (4%nat, false, false)
  | OP_LOAD_U64_BE => Some (8%nat, false, true)
  | OP_LOAD_U64_LE => Some (8%nat, false, false)
  | OP_LOAD_I8 => Some (1%nat, true, true)
  | OP_LOAD_I16_BE => Some (2%nat, true, true)
  | OP_LOAD_I16_LE => Some (2%nat, true, false)
  | OP_LOAD_I32_BE => Some (4%nat, true, true)
  | OP_LOAD_I32_LE => Some (4%nat, true, false)
  | OP_LOAD_I64_BE => Some (8%nat, true, true)
  | OP_LOAD_I64_LE => Some (8%nat, true, false)
  | _ => None
  end.

(** Sign extension of an [n]-byte value to 64 bits, as an unsigned number. *)
Definition extend (n : nat) (signed : bool) (v : Z) : Z :=
  if signed then u64 (signed_cast (8 * Z.of_nat n) v) else v.

Definition is_jump (op : OpCode) : bool :=
  match op with OP_JUMP | OP_JUMP_IF_FALSE => true | _ => false end.

(** Every jump of the code goes forward. *)
Definition forward (bytecode : list Instruction) : Prop :=
  forall i ins, bytecode !! i = Some ins -> is_jump (i_opcode ins) = true ->
    Z.of_nat i < i_jump_target ins.

(** Every load keeps [offset + 8] below 2^32. *)
Definition loads_in_range (bytecode : list Instruction) : Prop :=
  Forall (fun ins => load_kind (i_opcode ins) <> None -> 0 <= i_offset ins < 2 ^ 32 - 8) bytecode.

Definition jumps_nonneg (bytecode : list Instruction) : Prop :=
  Forall (fun ins => 0 <= i_jump_target ins) bytecode.

(** ** Lemmas *)

Section Loads.
Context (packet : list byte) (packet_len : Z).
Hypothesis Hlen : 0 <= packet_len <= Z.of_nat (length packet).

Lemma load_kind_width op n sg big : load_kind op = Some (n, sg, big) -> int_width n.
Proof. unfold int_width. destruct op; simpl; intros [= <- <- <-]; lia. Qed.

(** The load step for every load opcode at once. *)
Lemma load_step bytecode bytecode_len s ins n sg big off :
  aget bytecode (ip s) = Some ins -> load_kind (i_opcode ins) = Some (n, sg, big) ->
  i_offset ins = Z.of_nat off -> i_offset ins + 8 < 2 ^ 32 ->
  exec_step packet packet_len bytecode bytecode_len s =
    match uint_at big (take (Z.to_nat packet_len) packet) off n with
    | None => Stop (Ret false)
    | Some v => Next (mkExec (ip s +32 1) (extend n sg v) (cmp_result s))
    end.
Proof.
  intros Hget Hk Hoff Hrange. unfold exec_step. rewrite Hget.
  assert (Hw := load_kind_width _ _ _ _ Hk).
  assert (E : exec_step packet packet_len bytecode bytecode_len s =
    load packet packet_len ins (Z.of_nat n)
      (fun d o => (if sg then signed_cast (8 * Z.of_nat n) else id) <$> read_uint big n d o) s).
  { unfold exec_step. rewrite Hget.
    destruct (i_opcode ins); simpl in Hk; try discriminate Hk; injection Hk as <- <- <-;
      unfold load; simpl; try reflexivity; by rewrite option_fmap_id. }
  unfold exec_step in E. rewrite Hget in E. rewrite E. clear E.
  assert (Hn8 : (n <= 8)%nat) by (unfold int_width in Hw; lia).
  unfold load. rewrite u32_small by lia. rewrite Hoff.
  destruct (Z.gtb_spec (Z.of_nat off + Z.of_nat n) packet_len) as [Hgt|Hle].
  - replace (uint_at _ _ off n) with (@None Z); [done|symmetry].
    apply uint_at_None. rewrite length_take. lia.
  - rewrite read_uint_uint_at by (done || lia).
    assert (Eu : uint_at big packet off n = uint_at big (take (Z.to_nat packet_len) packet) off n).
    { unfold uint_at. rewrite !(proj2 (Nat.leb_le _ _)) by (rewrite ?length_take; lia).
      unfold slice. rewrite skipn_firstn_comm, take_take. by rewrite Nat.min_l by lia. }
    rewrite <- Eu. destruct (uint_at big packet off n) as [v|] eqn:Ev.
    + simpl. apply uint_at_range in Ev.
      assert (Hv : 0 <= v < 2 ^ 64).
      { pose proof (Z.pow_le_mono_r 256 (Z.of_nat n) 8). change (256 ^ 8) with (2 ^ 64) in *. lia. }
      unfold extend. destruct sg; [done|]. unfold id. by rewrite u64_small.
    + apply uint_at_None in Ev. lia.
Qed.
End Loads.

(** ** Executions of forward code *)

Section Forward.
Context (packet : list byte) (packet_len : Z) (code : list Instruction).
Abbreviation len := (Z.of_nat (length code)).
Abbreviation step := (exec_step packet packet_len code len).
Abbreviation exec' n := (exec n packet packet_len code len).

Hypothesis Hforward : forward code.
Hypothesis Hsize : len < 2 ^ 32.

Lemma step_forward s s' :
  0 <= ip s < len -> step s = Next s' -> ip s < ip s' <= len.
Proof.
  intros Hip. unfold exec_step.
  destruct (aget code (ip s)) as [ins|] eqn:Hget; [|done].
  assert (Hj : is_jump (i_opcode ins) = true -> ip s < i_jump_target ins).
  { intros Hop. rewrite <- (Z2Nat.id (ip s)) in Hget |- * by lia. rewrite aget_nat in Hget.
    by apply (Hforward _ _ Hget). }
  destruct (i_opcode ins); simpl in Hj; unfold load, compare_acc, goto;
    repeat destr_goal; intros [= <-]; simpl; rewrite ?u32_small by lia;
    try lia; specialize (Hj eq_refl); zbool; lia.
Qed.

(** Once there is a step for every remaining instruction, more fuel changes
    nothing and the result is never [OutOfFuel]. *)
Lemma exec_enough n1 n2 s :
  0 <= ip s <= len -> len - ip s < Z.of_nat n1 -> len - ip s < Z.of_nat n2 ->
  exec' n1 s = exec' n2 s /\ exec' n1 s <> OutOfFuel.
Proof.
  revert n2 s. induction n1 as [|n1 IH]; intros n2 s Hip H1 H2; [lia|].
  destruct n2 as [|n2]; [lia|]. simpl.
  destruct (Z.ltb_spec (ip s) len); [|done].
  destruct (step s) as [s'|r] eqn:Es.
  - apply step_forward in Es as Hf; [|lia]. apply IH; lia.
  - split; [done|]. intros ->. clear -Es. unfold exec_step in Es.
    destruct (aget code (ip s)) as [ins|]; [|done].
    destruct (i_opcode ins); unfold load, compare_acc, goto in Es;
      repeat destr_in Es; discriminate Es.
Qed.

Definition run (s : exec_state) : exec_result := exec' (exec_fuel len) s.

Lemma run_unfold s :
  0 <= ip s <= len ->
  run s = if ip s <? len then match step s with Next s' => run s' | Stop r => r end
          else Ret false.
Proof.
  intros Hip. unfold run at 1, exec_fuel. simpl.
  destruct (Z.ltb_spec (ip s) len); [|done].
  destruct (step s) as [s'|r] eqn:Es; [|done].
  apply step_forward in Es; [|lia]. unfold run, exec_fuel. apply exec_enough; lia.
Qed.

Lemma execute_run :
  code <> [] -> execute_bytecode (Some packet) packet_len (Some code) len = run (mkExec 0 0 false).
Proof.
  intros Hne. unfold execute_bytecode. destruct (Z.eqb_spec len 0); [|done].
  destruct code; [done|simpl in *; lia].
Qed.
End Forward.

(** ** Properties *)

(** The executor returns (it does not loop) on every packet when all jumps
    of the bytecode go forward, as they do in compiled filters: the fuel of
    [execute_bytecode], one step more than the number of instructions, is
    enough. *)
Theorem execute_terminates packet packet_len code :
  forward code -> Z.of_nat (length code) < 2 ^ 32 ->
  execute_bytecode packet packet_len (Some code) (Z.of_nat (length code)) <> OutOfFuel.
Proof.
  intros Hf Hs. unfold execute_bytecode. destruct packet as [p|]; [|done].
  destruct (_ =? 0); [done|].
  apply (exec_enough p packet_len code Hf Hs _ (exec_fuel (Z.of_nat (length code))));
    unfold exec_fuel; simpl; lia.
Qed.

Definition sample_code : list Instruction :=
  [ mkIns OP_LOAD_U32_BE 0 0 0 0; mkIns OP_CMP_GT 0 50 0 0; mkIns OP_JUMP_IF_FALSE 0 0 0 4;
    mkIns OP_RETURN_TRUE 0 0 0 0; mkIns OP_RETURN_FALSE 0 0 0 0 ].

Lemma sample_code_forward : forward sample_code.
Proof.
  intros i ins Hi. do 5 (destruct i as [|i]; [injection Hi as <-; simpl; lia || done|]). done.
Qed.

Lemma execute_terminates_witness :
  execute_bytecode (Some [x00; x00; x00; x64]) 4 (Some sample_code)
    (Z.of_nat (length sample_code)) <> OutOfFuel.
Proof.
  apply (execute_terminates (Some [x00; x00; x00; x64]) 4 sample_code);
    [apply sample_code_forward | vm_compute; reflexivity].
Defined.

(** Without forward jumps the executor may loop for ever: a single
    [JUMP 0] passes the target check and is never left, whatever the fuel.
    The bytecode is trusted to come from the compiler. *)
Theorem execute_may_diverge fuel packet packet_len :
  exec fuel packet packet_len [mkIns OP_JUMP 0 0 0 0] 1 (mkExec 0 0 false) = OutOfFuel.
Proof. induction fuel as [|n IH]; [done|]. simpl. apply IH. Qed.

Lemma aget_in {A} (P : A -> Prop) (l : list A) i x : Forall P l -> aget l i = Some x -> P x.
Proof.
  intros HF Hg. unfold aget in Hg. destruct (_ && _); [|done].
  by eapply Forall_lookup_1 in HF.
Qed.

(** C14: memory safety: with a [packet_len] no larger than the buffer, a
    [bytecode_len] no larger than the code and every load offset below
    2^32 - 8, no step of any execution reads outside the packet or the
    bytecode, for any bytecode whatever its jumps and any amount of fuel. *)
Theorem execute_memory_safe fuel packet packet_len code code_len s :
  0 <= packet_len <= Z.of_nat (length packet) ->
  code_len <= Z.of_nat (length code) -> code_len < 2 ^ 32 ->
  loads_in_range code -> jumps_nonneg code -> 0 <= ip s ->
  exec fuel packet packet_len code code_len s <> Undefined.
Proof.
  intros Hp Hc Hc32 Hl Hj. revert s. induction fuel as [|n IH]; intros s Hip; [done|].
  simpl. destruct (Z.ltb_spec (ip s) code_len) as [Hlt|]; [|done].
  destruct (aget_is_Some code (ip s) ltac:(lia)) as [ins Hget].
  assert (Hins := aget_in _ _ _ _ Hl Hget). assert (Hjmp := aget_in _ _ _ _ Hj Hget).
  simpl in Hins, Hjmp.
  destruct (load_kind (i_opcode ins)) as [[[w sg] big]|] eqn:Hk.
  - specialize (Hins ltac:(done)).
    rewrite (load_step packet packet_len Hp code code_len s ins w sg big (Z.to_nat (i_offset ins)))
      by (done || lia).
    destruct (uint_at _ _ _ _); [|done]. apply IH. simpl. pose proof (u32_range (ip s + 1)). lia.
  - unfold exec_step. rewrite Hget.
    destruct (i_opcode ins); try discriminate Hk; unfold compare_acc, goto;
      repeat destr_goal; try done; apply IH; simpl; try lia;
      pose proof (u32_range (ip s + 1)); lia.
Qed.

Lemma execute_memory_safe_witness :
  exec 9 [x00; x01] 2 sample_code 5 (mkExec 0 0 false) <> Undefined.
Proof.
  apply (execute_memory_safe 9 [x00; x01] 2 sample_code 5 (mkExec 0 0 false));
    [simpl; lia | simpl; lia | lia | | | simpl; lia];
    unfold loads_in_range, jumps_nonneg, sample_code; repeat constructor; simpl; lia.
Defined.

(** The bound on offsets is needed: at offset 2^32 - 1 the guard
    [ins->offset + 1 > packet_len] wraps to [0 > packet_len] and the one-byte
    load reads far outside every packet shorter than 4 GiB. *)
Theorem load_guard_overflows packet :
  Z.of_nat (length packet) < 2 ^ 32 - 1 ->
  execute_bytecode (Some packet) (Z.of_nat (length packet))
    (Some [mkIns OP_LOAD_U8 (2 ^ 32 - 1) 0 0 0; mkIns OP_RETURN_TRUE 0 0 0 0]) 2 = Undefined.
Proof.
  intros Hl. set (code := [_; _]).
  assert (Hb : byte_at packet (2 ^ 32 - 1) = None).
  { unfold byte_at, aget. destruct (Z.ltb_spec (2 ^ 32 - 1) (Z.of_nat (length packet))); [lia|done]. }
  assert (Hs : exec_step packet (Z.of_nat (length packet)) code 2 (mkExec 0 0 false) = Stop Undefined).
  { unfold exec_step. change (aget code (ip _)) with (Some (mkIns OP_LOAD_U8 (2 ^ 32 - 1) 0 0 0)).
    unfold i_opcode, load, i_offset. change (u32 (2 ^ 32 - 1 + 1)) with 0.
    destruct (Z.gtb_spec 0 (Z.of_nat (length packet))); [lia|]. by rewrite Hb. }
  change (execute_bytecode _ _ _ _)
    with (exec 3 packet (Z.of_nat (length packet)) code 2 (mkExec 0 0 false)).
  unfold exec. change (ip (mkExec 0 0 false) <? 2) with true. cbv iota. by rewrite Hs.
Qed.

Lemma load_guard_overflows_witness :
  execute_bytecode (Some [x01]) (Z.of_nat (length [x01]))
    (Some [mkIns OP_LOAD_U8 (2 ^ 32 - 1) 0 0 0; mkIns OP_RETURN_TRUE 0 0 0 0]) 2 = Undefined.
Proof. apply (load_guard_overflows [x01]). vm_compute. reflexivity. Defined.
