(* ===== verification/Compiler.v ===== *)
(** * Layout and compilation of filters (src/src/pdef/parser.c, second half)

    [flatten_structs] expands nested struct fields and arrays into flat field
    tables with byte offsets; [compile_filter_rules] turns the conditions of a
    filter into bytecode.  The bytecode buffer is an array filled by indexed
    writes as in C ([emit]); [CompilerCorrect] proves what the code computes. *)

From S2P Require Import Prelude Endian PdefTypes Executor.

(** ** Data *)

Inductive ConditionOp :=
  | COND_EQ | COND_NE | COND_GT | COND_GE | COND_LT | COND_LE | COND_MASK
  | COND_IN | COND_NOT_IN.

#[export] Instance ConditionOp_eq_dec : EqDecision ConditionOp.
Proof. solve_decision. Defined.

Record FilterCondition := mkCond {
  fc_field_name : string;
  fc_op : ConditionOp;
  fc_value : Z;
  fc_mask : Z;
  fc_values : list Z;
}.

Record TempFilterRule := mkTempRule {
  tf_name : string;
  tf_struct_name : string;
  tf_conditions : list FilterCondition;
  tf_sliding_window : bool;
  tf_sliding_max_offset : Z;
}.

(** ** Flattening *)

(** The name of a nested field is ["type.field"]; sizes are those of the
    destination buffers. *)
Definition parse_nested_field_names (name : string) (type_len field_len : nat)
    : outcome (string * string) :=
  match str_index "." name with
  | None => parser_error ("Invalid nested field name: " +:+ name)
  | Some prefix_len =>
      if (type_len <=? prefix_len)%nat then
        parser_error ("Nested type name too long: " +:+ name)
      else
        let rest := str_drop (S prefix_len) name in
        if (field_len <=? String.length rest)%nat then
          parser_error ("Nested field name too long: " +:+ name)
        else Done (str_take prefix_len name, str_take (field_len - 1) rest)
  end.

Definition find_struct_by_name (structs : list StructDef) (name : string) : option StructDef :=
  find (fun s => String.eqb (s_name s) name) structs.

Definition set_name (f : Field) (n : string) : Field :=
  mkField n (f_type f) (f_offset f) (f_size f) (f_endian f) (f_is_variable f)
    (f_is_array f) (f_array_size f).

Definition set_offset (f : Field) (o : Z) : Field :=
  mkField (f_name f) (f_type f) o (f_size f) (f_endian f) (f_is_variable f)
    (f_is_array f) (f_array_size f).

Definition set_scalar (f : Field) : Field :=
  mkField (f_name f) (f_type f) (f_offset f) (f_size f) (f_endian f) (f_is_variable f)
    false 1.

(** One field of the nested struct copied under its dotted name. *)
Definition expand_one (field_name : string) (base_offset : Z) (src : Field) : Field :=
  set_offset (set_name src (str_take 127 (field_name +:+ "." +:+ f_name src)))
    (base_offset +32 f_offset src).

Definition expand_nested_field (structs : list StructDef) (nested_field : Field)
    (expanded : list Field) (base_offset : Z) : outcome (list Field) :=
  '(type_name, field_name) ← parse_nested_field_names (f_name nested_field) 64 64;
  match find_struct_by_name structs type_name with
  | None => parser_error ("Nested struct '" +:+ type_name +:+ "' not found")
  | Some nested => Done (expanded ++ map (expand_one field_name base_offset) (s_fields nested))
  end.

(** The loop [for (idx = 0; idx < repeat; idx++)] with [n] iterations left. *)
Fixpoint expand_repeat (structs : list StructDef) (f : Field) (type_name field_name : string)
    (offset min_size : Z) (n : nat) (idx : Z) (expanded : list Field) : outcome (list Field) :=
  match n with
  | O => Done expanded
  | S n' =>
      let nested_field :=
        if f_is_array f
        then set_name (set_scalar f)
               (str_take 127 (type_name +:+ "." +:+ field_name +:+ "[" +:+ fmt_u idx +:+ "]"))
        else set_scalar f in
      expanded' ← expand_nested_field structs nested_field expanded
                    (offset +32 (idx *32 min_size));
      expand_repeat structs f type_name field_name offset min_size n' (idx +32 1) expanded'
  end.

(** Loop state of [flatten_structs]; [s->has_variable] is assigned together
    with [variable_seen]. *)
Record flat_state := mkFlat {
  fl_expanded : list Field;
  fl_offset : Z;
  fl_variable_seen : bool;
}.

(** One iteration of the field loop of [flatten_structs]. *)
Definition flatten_field (structs : list StructDef) (sname : string) (st : flat_state) (f : Field)
    : outcome flat_state :=
  if fl_variable_seen st then
    parser_error ("Variable-length field '" +:+ f_name f +:+ "' must be last in struct '"
                  +:+ sname +:+ "'")
  else
    let repeat := if f_is_array f then f_array_size f else 1 in
    if repeat =? 0 then
      parser_error ("Array size must be greater than 0 for field '" +:+ f_name f
                    +:+ "' in struct '" +:+ sname +:+ "'")
    else if decide (f_type f = FIELD_TYPE_NESTED) then
      '(type_name, field_name) ← parse_nested_field_names (f_name f) 64 64;
      match find_struct_by_name structs type_name with
      | None => parser_error ("Nested struct '" +:+ type_name +:+ "' not found")
      | Some nested =>
          if s_has_variable nested && (1 <? repeat) then
            parser_error ("Array of variable-length struct '" +:+ type_name
                          +:+ "' is not supported in '" +:+ sname +:+ "'")
          else
            expanded ← expand_repeat structs f type_name field_name (fl_offset st)
                         (s_min_size nested) (Z.to_nat repeat) 0 (fl_expanded st);
            Done (mkFlat expanded (fl_offset st +32 (s_min_size nested *32 repeat))
                    (s_has_variable nested))
      end
    else if f_is_array f then
      parser_error ("Arrays are only supported for nested struct fields (field '" +:+ f_name f
                    +:+ "' in struct '" +:+ sname +:+ "')")
    else
      let expanded := fl_expanded st ++ [set_offset f (fl_offset st)] in
      if f_is_variable f then Done (mkFlat expanded (fl_offset st) true)
      else Done (mkFlat expanded (fl_offset st +32 f_size f) false).

Fixpoint flatten_fields (structs : list StructDef) (sname : string) (fs : list Field)
    (st : flat_state) : outcome flat_state :=
  match fs with
  | [] => Done st
  | f :: fs' => st' ← flatten_field structs sname st f; flatten_fields structs sname fs' st'
  end.

(** One iteration of the struct loop: struct [i] is flattened in place, with
    the structs before it already flat and those after it still as parsed. *)
Definition flatten_struct (structs : list StructDef) (i : nat) : outcome (list StructDef) :=
  match structs !! i with
  | None => Undef
  | Some s =>
      let structs0 := <[i := mkStructDef (s_name s) (s_fields s) (s_min_size s) false]> structs in
      st ← flatten_fields structs0 (s_name s) (s_fields s) (mkFlat [] 0 false);
      Done (<[i := mkStructDef (s_name s) (fl_expanded st) (fl_offset st) (fl_variable_seen st)]>
              structs)
  end.

Fixpoint flatten_from (n i : nat) (structs : list StructDef) : outcome (list StructDef) :=
  match n with
  | O => Done structs
  | S n' => structs' ← flatten_struct structs i; flatten_from n' (S i) structs'
  end.

Definition flatten_structs (structs : list StructDef) : outcome (list StructDef) :=
  flatten_from (length structs) 0 structs.

(** ** Opcode selection *)

Definition find_field_by_path (s : StructDef) (path : string) : option Field :=
  find (fun f => String.eqb (f_name f) path) (s_fields s).

Definition get_load_opcode (field : Field) : OpCode :=
  let big := bool_decide (f_endian field = ENDIAN_BIG) in
  match f_type field with
  | FIELD_TYPE_UINT8 => OP_LOAD_U8
  | FIELD_TYPE_UINT16 => if big then OP_LOAD_U16_BE else OP_LOAD_U16_LE
  | FIELD_TYPE_UINT32 => if big then OP_LOAD_U32_BE else OP_LOAD_U32_LE
  | FIELD_TYPE_UINT64 => if big then OP_LOAD_U64_BE else OP_LOAD_U64_LE
  | FIELD_TYPE_INT8 => OP_LOAD_I8
  | FIELD_TYPE_INT16 => if big then OP_LOAD_I16_BE else OP_LOAD_I16_LE
  | FIELD_TYPE_INT32 => if big then OP_LOAD_I32_BE else OP_LOAD_I32_LE
  | FIELD_TYPE_INT64 => if big then OP_LOAD_I64_BE else OP_LOAD_I64_LE
  | _ => OP_LOAD_U8
  end.

Definition swap_endian_opcode (op : OpCode) : OpCode :=
  match op with
  | OP_LOAD_U16_BE => OP_LOAD_U16_LE
  | OP_LOAD_U16_LE => OP_LOAD_U16_BE
  | OP_LOAD_U32_BE => OP_LOAD_U32_LE
  | OP_LOAD_U32_LE => OP_LOAD_U32_BE
  | OP_LOAD_U64_BE => OP_LOAD_U64_LE
  | OP_LOAD_U64_LE => OP_LOAD_U64_BE
  | OP_LOAD_I16_BE => OP_LOAD_I16_LE
  | OP_LOAD_I16_LE => OP_LOAD_I16_BE
  | OP_LOAD_I32_BE => OP_LOAD_I32_LE
  | OP_LOAD_I32_LE => OP_LOAD_I32_BE
  | OP_LOAD_I64_BE => OP_LOAD_I64_LE
  | OP_LOAD_I64_LE => OP_LOAD_I64_BE
  | op => op
  end.

Definition get_cmp_opcode (op : ConditionOp) : OpCode :=
  match op with
  | COND_EQ => OP_CMP_EQ
  | COND_NE => OP_CMP_NE
  | COND_GT => OP_CMP_GT
  | COND_GE => OP_CMP_GE
  | COND_LT => OP_CMP_LT
  | COND_LE => OP_CMP_LE
  | COND_MASK => OP_CMP_MASK
  | COND_IN | COND_NOT_IN => OP_CMP_EQ
  end.

(** ** Code emission *)

Definition ins_cmp (op : OpCode) (operand operand2 : Z) : Instruction := mkIns op 0 operand operand2 0.
Definition ins_jump (op : OpCode) (target : Z) : Instruction := mkIns op 0 0 0 target.

(** [rule->bytecode[idx++] = ins] *)
Definition emit (st : list Instruction * Z) (ins : Instruction) : outcome (list Instruction * Z) :=
  match aset (fst st) (snd st) ins with
  | Some code => Done (code, snd st +32 1)
  | None => Undef
  end.

(** The value loop of [COND_IN]. *)
Fixpoint emit_in (st : list Instruction * Z) (next_start fail_label : Z) (values : list Z)
    : outcome (list Instruction * Z) :=
  match values with
  | [] => Done st
  | v :: rest =>
      st1 ← emit st (ins_cmp OP_CMP_EQ v 0);
      st2 ← emit st1 (ins_jump OP_JUMP_IF_FALSE
                        (match rest with [] => fail_label | _ => snd st1 +32 2 end));
      match rest with
      | [] => Done st2
      | _ => st3 ← emit st2 (ins_jump OP_JUMP next_start);
             emit_in st3 next_start fail_label rest
      end
  end.

(** The value loop of [COND_NOT_IN]. *)
Fixpoint emit_not_in (st : list Instruction * Z) (next_start fail_label : Z) (values : list Z)
    : outcome (list Instruction * Z) :=
  match values with
  | [] => Done st
  | v :: rest =>
      st1 ← emit st (ins_cmp OP_CMP_EQ v 0);
      st2 ← emit st1 (ins_jump OP_JUMP_IF_FALSE
                        (match rest with [] => next_start | _ => snd st1 +32 2 end));
      st3 ← emit st2 (ins_jump OP_JUMP fail_label);
      emit_not_in st3 next_start fail_label rest
  end.

(** The comparison of a simple condition; the mask form has two operands. *)
Definition cond_cmp (cond : FilterCondition) : Instruction :=
  if decide (fc_op cond = COND_MASK)
  then ins_cmp (get_cmp_opcode (fc_op cond)) (fc_mask cond) (fc_value cond)
  else ins_cmp (get_cmp_opcode (fc_op cond)) (fc_value cond) 0.

(** The body of the emission loop for one condition starting at [start]. *)
Definition emit_condition (target : StructDef) (code : list Instruction) (cond : FilterCondition)
    (start next_start fail_label : Z) : outcome (list Instruction) :=
  match find_field_by_path target (fc_field_name cond) with
  | None => parser_error ("Field '" +:+ fc_field_name cond +:+ "' not found in struct '"
                          +:+ s_name target +:+ "'")
  | Some field =>
      st ← emit (code, start) (mkIns (get_load_opcode field) (f_offset field) 0 0 0);
      st' ← match fc_op cond with
            | COND_IN => emit_in st next_start fail_label (fc_values cond)
            | COND_NOT_IN => emit_not_in st next_start fail_label (fc_values cond)
            | _ => st1 ← emit st (cond_cmp cond);
                   emit st1 (ins_jump OP_JUMP_IF_FALSE fail_label)
            end;
      Done (fst st')
  end.

(** [cond_sizes[j]], with the emptiness checks of the sizing loop. *)
Definition cond_size (rule_name : string) (cond : FilterCondition) : outcome Z :=
  let value_count := u32 (Z.of_nat (length (fc_values cond))) in
  match fc_op cond with
  | COND_IN =>
      if value_count =? 0 then parser_error ("Empty IN list in filter '" +:+ rule_name +:+ "'")
      else Done (3 *32 value_count)
  | COND_NOT_IN =>
      if value_count =? 0 then parser_error ("Empty NOT IN list in filter '" +:+ rule_name +:+ "'")
      else Done (1 +32 (3 *32 value_count))
  | _ => Done 3
  end.

Fixpoint cond_sizes (rule_name : string) (conds : list FilterCondition) : outcome (list Z) :=
  match conds with
  | [] => Done []
  | c :: cs => z ← cond_size rule_name c; zs ← cond_sizes rule_name cs; Done (z :: zs)
  end.

(** [total_size] from 2, one addition per condition. *)
Definition total_size (sizes : list Z) : Z := foldl (fun t z => t +32 z) 2 sizes.

(** [cond_starts[0] = 0; cond_starts[j] = cond_starts[j-1] + cond_sizes[j-1]]. *)
Fixpoint cond_starts (start : Z) (sizes : list Z) : list Z :=
  match sizes with
  | [] => []
  | z :: zs => start :: cond_starts (start +32 z) zs
  end.

(** The emission loop over the conditions and their starts. *)
Fixpoint emit_conditions (target : StructDef) (code : list Instruction)
    (conds : list FilterCondition) (starts : list Z) (success_label fail_label : Z)
    : outcome (list Instruction) :=
  match conds, starts with
  | c :: cs, start :: starts' =>
      let next_start := match starts' with [] => success_label | n :: _ => n end in
      code' ← emit_condition target code c start next_start fail_label;
      emit_conditions target code' cs starts' success_label fail_label
  | _, _ => Done code
  end.

(** [rule->bytecode[i].opcode = op] *)
Definition set_opcode (code : list Instruction) (i : Z) (op : OpCode) : outcome (list Instruction) :=
  match aget code i with
  | Some ins =>
      match aset code i (mkIns op (i_offset ins) (i_operand ins) (i_operand2 ins) (i_jump_target ins)) with
      | Some code' => Done code'
      | None => Undef
      end
  | None => Undef
  end.

Definition swap_ins (ins : Instruction) : Instruction :=
  mkIns (swap_endian_opcode (i_opcode ins)) (i_offset ins) (i_operand ins) (i_operand2 ins)
    (i_jump_target ins).

(** The struct a filter applies to: the first that has the field of the first
    condition. *)
Definition find_target (structs : list StructDef) (conds : list FilterCondition) : option StructDef :=
  match conds with
  | [] => None
  | c :: _ => find (fun s => match find_field_by_path s (fc_field_name c) with
                             | Some _ => true | None => false end) structs
  end.

(** The bytecode of one rule against its target struct, and its length. *)
Definition compile_code (target : StructDef) (rule_name : string) (conds : list FilterCondition)
    : outcome (list Instruction * Z) :=
  sizes ← cond_sizes rule_name conds;
  let total := total_size sizes in
  let success_label := if 1 <? total then total -32 2 else 0 in
  let fail_label := if 0 <? total then total -32 1 else 0 in
  code ← emit_conditions target (replicate (Z.to_nat total) zero_ins) conds
           (cond_starts 0 sizes) success_label fail_label;
  if 2 <=? total then
    code' ← set_opcode code success_label OP_RETURN_TRUE;
    code'' ← set_opcode code' fail_label OP_RETURN_FALSE;
    Done (code'', total)
  else Done (code, total).

(** One iteration of [compile_filter_rules]. *)
Definition compile_filter_rule (structs : list StructDef) (temp : TempFilterRule)
    : outcome FilterRule :=
  match find_target structs (tf_conditions temp) with
  | None => parser_error ("Cannot find struct for filter '" +:+ tf_name temp +:+ "'")
  | Some target =>
      '(code, len) ← compile_code target (tf_name temp) (tf_conditions temp);
      Done (mkFilterRule (str_take 63 (tf_name temp)) (str_take 63 (s_name target))
              (Some code) len (Some code) len (Some (map swap_ins code)) len
              (s_min_size target) (tf_sliding_window temp) (tf_sliding_max_offset temp))
  end.

Fixpoint compile_filter_rules (structs : list StructDef) (temps : list TempFilterRule)
    : outcome (list FilterRule) :=
  match temps with
  | [] => Done []
  | t :: ts =>
      r ← compile_filter_rule structs t;
      rs ← compile_filter_rules structs ts;
      Done (r :: rs)
  end.
