(* ===== verification/CompilerCorrect.v ===== *)
(** * Correctness of filter compilation

    The compiled bytecode of a filter decides the conjunction of its
    conditions ([compile_filter_rule_correct]), in both byte orders; it is
    laid out without gaps or overlaps, jumps only forward, and needs no fuel
    beyond its length. *)

From S2P Require Import Prelude Endian PdefTypes Executor Compiler.

(** ** Specification: what a filter means *)

(** Does the loaded 64-bit value satisfy the condition? *)
Definition cond_holds (c : FilterCondition) (v : Z) : bool :=
  match fc_op c with
  | COND_EQ => v =? fc_value c
  | COND_NE => negb (v =? fc_value c)
  | COND_GT => v >? fc_value c
  | COND_GE => v >=? fc_value c
  | COND_LT => v <? fc_value c
  | COND_LE => v <=? fc_value c
  | COND_MASK => Z.land v (fc_mask c) =? fc_value c
  | COND_IN => existsb (Z.eqb v) (fc_values c)
  | COND_NOT_IN => negb (existsb (Z.eqb v) (fc_values c))
  end.

(** The value a load opcode finds at a byte offset of the packet. *)
Definition loaded_value (op : OpCode) (off : Z) (packet : list byte) : option Z :=
  match load_kind op with
  | Some (n, sg, big) => extend n sg <$> uint_at big packet (Z.to_nat off) n
  | None => None
  end.

(** One condition on a packet: its field must exist, lie inside the packet and
    satisfy the comparison.  [variant] is the identity for the code as compiled
    and [swap_endian_opcode] for its byte-swapped copy. *)
Definition cond_matches (variant : OpCode -> OpCode) (target : StructDef) (packet : list byte)
    (c : FilterCondition) : bool :=
  match find_field_by_path target (fc_field_name c) with
  | Some f =>
      match loaded_value (variant (get_load_opcode f)) (f_offset f) packet with
      | Some v => cond_holds c v
      | None => false
      end
  | None => false
  end.

Definition rule_matches (variant : OpCode -> OpCode) (target : StructDef)
    (conds : list FilterCondition) (packet : list byte) : bool :=
  forallb (cond_matches variant target packet) conds.

(** Every field of the struct starts below 2^32 - 8. *)
Definition offsets_in_range (s : StructDef) : Prop :=
  Forall (fun f => 0 <= f_offset f < 2 ^ 32 - 8) (s_fields s).

(** Instructions of one condition. *)
Definition cond_len (c : FilterCondition) : nat :=
  match fc_op c with
  | COND_IN => 3 * length (fc_values c)
  | COND_NOT_IN => 1 + 3 * length (fc_values c)
  | _ => 3
  end.

Definition code_size (conds : list FilterCondition) : nat := 2 + sum_list (map cond_len conds).

(** ** The emitted code as a list *)

Fixpoint in_code (idx next fail : Z) (values : list Z) : list Instruction :=
  match values with
  | [] => []
  | [v] => [ins_cmp OP_CMP_EQ v 0; ins_jump OP_JUMP_IF_FALSE fail]
  | v :: rest => ins_cmp OP_CMP_EQ v 0 :: ins_jump OP_JUMP_IF_FALSE (idx + 3)
                 :: ins_jump OP_JUMP next :: in_code (idx + 3) next fail rest
  end.

Fixpoint not_in_code (idx next fail : Z) (values : list Z) : list Instruction :=
  match values with
  | [] => []
  | v :: rest => ins_cmp OP_CMP_EQ v 0
                 :: ins_jump OP_JUMP_IF_FALSE (match rest with [] => next | _ => idx + 3 end)
                 :: ins_jump OP_JUMP fail :: not_in_code (idx + 3) next fail rest
  end.

Definition cond_code (field : Field) (c : FilterCondition) (start next fail : Z) : list Instruction :=
  mkIns (get_load_opcode field) (f_offset field) 0 0 0 ::
  match fc_op c with
  | COND_IN => in_code (start + 1) next fail (fc_values c)
  | COND_NOT_IN => not_in_code (start + 1) next fail (fc_values c)
  | _ => [cond_cmp c; ins_jump OP_JUMP_IF_FALSE fail]
  end.

#[global] Arguments cond_code : simpl never.

Fixpoint conds_code (target : StructDef) (conds : list FilterCondition) (start fail : Z)
    : option (list Instruction) :=
  match conds with
  | [] => Some []
  | c :: cs =>
      field ← find_field_by_path target (fc_field_name c);
      rest ← conds_code target cs (start + Z.of_nat (cond_len c)) fail;
      Some (cond_code field c start (start + Z.of_nat (cond_len c)) fail ++ rest)
  end.

Definition return_true : Instruction := mkIns OP_RETURN_TRUE 0 0 0 0.
Definition return_false : Instruction := mkIns OP_RETURN_FALSE 0 0 0 0.

(** ** Emission fills the buffer with that list *)

Fixpoint emit_all (st : list Instruction * Z) (l : list Instruction)
    : outcome (list Instruction * Z) :=
  match l with
  | [] => Done st
  | i :: l' => st' ← emit st i; emit_all st' l'
  end.

Lemma emit_all_app st l1 l2 :
  emit_all st (l1 ++ l2) = st' ← emit_all st l1; emit_all st' l2.
Proof.
  revert st. induction l1 as [|i l1 IH]; intros st; simpl; [done|].
  destruct (emit st i); simpl; auto.
Qed.

Lemma emit_snd st ins st' : emit st ins = Done st' -> snd st' = snd st +32 1.
Proof. unfold emit. destruct (aset _ _ _); [|done]. by intros [= <-]. Qed.

Lemma emit_at pre x post ins :
  Z.of_nat (length pre) + 1 < 2 ^ 32 ->
  emit (pre ++ x :: post, Z.of_nat (length pre)) ins
    = Done (pre ++ ins :: post, Z.of_nat (length pre) + 1).
Proof.
  intros Hl. unfold emit, aset. simpl.
  destruct (Z.leb_spec 0 (Z.of_nat (length pre))); [|lia].
  destruct (Z.ltb_spec (Z.of_nat (length pre)) (Z.of_nat (length (pre ++ x :: post))));
    [|rewrite length_app in *; simpl in *; lia].
  simpl. rewrite Nat2Z.id, u32_small by lia.
  by rewrite insert_app_r_alt, Nat.sub_diag by lia.
Qed.

(** A write cursor at the end of [pre] in a buffer with [k] free slots. *)
Definition cursor (pre : list Instruction) (k : nat) : list Instruction * Z :=
  (pre ++ replicate k zero_ins, Z.of_nat (length pre)).

Lemma emit_all_cursor pre l k :
  Z.of_nat (length pre) + Z.of_nat (length l) < 2 ^ 32 ->
  emit_all (cursor pre (length l + k)) l = Done (cursor (pre ++ l) k).
Proof.
  revert pre. induction l as [|i l IH]; intros pre Hl; simpl.
  - by rewrite app_nil_r.
  - simpl in Hl. unfold cursor at 1. simpl replicate. rewrite emit_at by lia. simpl.
    specialize (IH (pre ++ [i])). unfold cursor in IH.
    rewrite length_app, <- !app_assoc in IH. simpl in IH.
    replace (Z.of_nat (length pre) + 1) with (Z.of_nat (length pre + 1)) by lia.
    rewrite IH by lia. unfold cursor. by rewrite <- app_assoc.
Qed.

(** [emit_all] of two lists that agree up to the cursor bookkeeping. *)
Ltac emit_steps :=
  repeat match goal with
  | |- context [emit ?st ?i ≫= _] =>
      let E := fresh "E" in destruct (emit st i) eqn:E; cbn [mbind outcome_bind]; try done;
      apply emit_snd in E; simpl in E
  end.

Lemma emit_in_cons st next fail v w rest :
  emit_in st next fail (v :: w :: rest) =
    st1 ← emit st (ins_cmp OP_CMP_EQ v 0);
    st2 ← emit st1 (ins_jump OP_JUMP_IF_FALSE (snd st1 +32 2));
    st3 ← emit st2 (ins_jump OP_JUMP next);
    emit_in st3 next fail (w :: rest).
Proof. done. Qed.

Lemma in_code_cons idx next fail v w rest :
  in_code idx next fail (v :: w :: rest) =
    ins_cmp OP_CMP_EQ v 0 :: ins_jump OP_JUMP_IF_FALSE (idx + 3) :: ins_jump OP_JUMP next
    :: in_code (idx + 3) next fail (w :: rest).
Proof. done. Qed.

Lemma emit_in_all st next fail values :
  0 <= snd st -> snd st + 3 * Z.of_nat (length values) <= 2 ^ 32 ->
  emit_in st next fail values = emit_all st (in_code (snd st) next fail values).
Proof.
  revert st. induction values as [|v rest IH]; intros st H0 Hs; [done|].
  simpl length in Hs. destruct rest as [|w rest].
  - cbn [emit_in in_code emit_all]. emit_steps.
  - simpl length in Hs. rewrite emit_in_cons, in_code_cons. cbn [emit_all]. emit_steps.
    rewrite u32_small in E by lia. rewrite E, u32_small by lia.
    replace (snd st + 1 + 2) with (snd st + 3) by lia. emit_steps.
    rewrite E, u32_small in E0 by lia. rewrite E0, u32_small in E1 by lia.
    rewrite IH by (simpl length in *; lia). do 2 f_equal. lia.
Qed.

Lemma emit_not_in_all st next fail values :
  0 <= snd st -> snd st + 3 * Z.of_nat (length values) < 2 ^ 32 ->
  emit_not_in st next fail values = emit_all st (not_in_code (snd st) next fail values).
Proof.
  revert st. induction values as [|v rest IH]; intros st H0 Hs; [done|].
  simpl length in Hs. cbn [emit_not_in not_in_code emit_all]. emit_steps.
  rewrite u32_small in E by lia. rewrite E.
  assert (Et : match rest with [] => next | _ => snd st + 1 +32 2 end
               = match rest with [] => next | _ => snd st + 3 end).
  { destruct rest; [done|]. rewrite u32_small by (simpl length in *; lia). lia. }
  rewrite Et. emit_steps.
  rewrite E, u32_small in E0 by lia. rewrite E0, u32_small in E1 by lia.
  rewrite IH by lia. do 2 f_equal. lia.
Qed.

(** ** Shape of the compiled code *)

Lemma length_in_code idx next fail values :
  values <> [] -> S (length (in_code idx next fail values)) = (3 * length values)%nat.
Proof.
  revert idx. induction values as [|v rest IH]; intros idx Hne; [done|].
  destruct rest as [|w rest]; [done|]. rewrite in_code_cons.
  specialize (IH (idx + 3) ltac:(done)). simpl length in *. lia.
Qed.

Lemma length_not_in_code idx next fail values :
  length (not_in_code idx next fail values) = (3 * length values)%nat.
Proof.
  revert idx. induction values as [|v rest IH]; intros idx; [done|].
  cbn [not_in_code length]. rewrite IH. lia.
Qed.

(** A condition the sizing loop accepts: value lists are not empty. *)
Definition cond_ok (c : FilterCondition) : Prop :=
  match fc_op c with
  | COND_IN | COND_NOT_IN => fc_values c <> []
  | _ => True
  end.

Lemma length_cond_code field c start next fail :
  cond_ok c -> length (cond_code field c start next fail) = cond_len c.
Proof.
  unfold cond_ok, cond_code, cond_len. intros Hok.
  destruct (fc_op c); simpl length; try done.
  - by apply length_in_code.
  - rewrite length_not_in_code. lia.
Qed.

Lemma cond_len_pos c : cond_ok c -> (3 <= cond_len c)%nat.
Proof.
  unfold cond_ok, cond_len. destruct (fc_op c); try lia;
    destruct (fc_values c); try done; simpl; lia.
Qed.

Lemma length_conds_code target conds start fail l :
  Forall cond_ok conds -> conds_code target conds start fail = Some l ->
  length l = sum_list (map cond_len conds).
Proof.
  intros Hok. revert start l. induction Hok as [|c cs Hc _ IH]; intros start l;
    cbn [conds_code map].
  - by intros [= <-].
  - destruct (find_field_by_path _ _) as [f|]; [|done]. cbn [mbind option_bind].
    destruct (conds_code _ _ _ _) as [rest|] eqn:E; [|done]. intros H; apply (inj Some) in H as <-.
    rewrite length_app, length_cond_code by done. simpl. f_equal. eapply IH; eauto.
Qed.

(** *** Emission of one condition *)

Lemma emit_condition_cursor target pre k c next fail field :
  find_field_by_path target (fc_field_name c) = Some field -> cond_ok c ->
  Z.of_nat (length pre) + Z.of_nat (cond_len c) < 2 ^ 32 ->
  emit_condition target (pre ++ replicate (cond_len c + k) zero_ins) c
      (Z.of_nat (length pre)) next fail
    = Done (pre ++ cond_code field c (Z.of_nat (length pre)) next fail ++ replicate k zero_ins).
Proof.
  intros Hf Hok Hlen. unfold emit_condition. rewrite Hf.
  set (st0 := (_, Z.of_nat (length pre))).
  pose proof (length_cond_code field c (Z.of_nat (length pre)) next fail Hok) as Hl.
  set (l := cond_code field c (Z.of_nat (length pre)) next fail) in *.
  assert (E : (st ← emit st0 (mkIns (get_load_opcode field) (f_offset field) 0 0 0);
               match fc_op c with
               | COND_IN => emit_in st next fail (fc_values c)
               | COND_NOT_IN => emit_not_in st next fail (fc_values c)
               | _ => st1 ← emit st (cond_cmp c); emit st1 (ins_jump OP_JUMP_IF_FALSE fail)
               end) = emit_all st0 l).
  { subst l. unfold cond_code. cbn [emit_all].
    destruct (emit st0 _) as [st| | |] eqn:Es; cbn [mbind outcome_bind]; try done.
    apply emit_snd in Es. simpl in Es.
    pose proof (cond_len_pos c Hok) as Hpos. unfold cond_len in Hlen, Hpos.
    destruct (fc_op c) eqn:Eop; cbn [emit_all];
      try (destruct (emit st (cond_cmp c)) as [st1| | |]; cbn [mbind outcome_bind]; try done;
           by destruct (emit st1 _)).
    - rewrite u32_small in Es by lia. rewrite emit_in_all by lia. by rewrite Es.
    - rewrite u32_small in Es by lia. rewrite emit_not_in_all by lia. by rewrite Es. }
  transitivity (st' ← emit_all st0 l; Done (fst st')).
  { rewrite <- E. by destruct (emit st0 _). }
  subst st0. rewrite <- Hl in Hlen |- *.
  change (_, Z.of_nat (length pre)) with (cursor pre (length l + k)).
  rewrite emit_all_cursor by done. simpl. by rewrite <- app_assoc.
Qed.

(** *** Emission of all conditions *)

Lemma cond_size_Done name c z :
  Z.of_nat (cond_len c) < 2 ^ 32 ->
  cond_size name c = Done z -> cond_ok c /\ z = Z.of_nat (cond_len c).
Proof.
  intros Hl. unfold cond_ok, cond_size, cond_len in *.
  destruct (fc_op c); try (by intros [= <-]); rewrite (u32_small (Z.of_nat _)) by lia;
    (destruct (Z.eqb_spec (Z.of_nat (length (fc_values c))) 0); [done|]);
    intros Hz; apply (inj Done) in Hz; subst z;
    rewrite (u32_small (3 * _)) by lia; rewrite ?u32_small by lia;
    (split; [destruct (fc_values c); done|lia]).
Qed.

Lemma cond_sizes_Done name conds sizes :
  Z.of_nat (code_size conds) < 2 ^ 32 ->
  cond_sizes name conds = Done sizes ->
  Forall cond_ok conds /\ sizes = map (fun c => Z.of_nat (cond_len c)) conds.
Proof.
  unfold code_size. revert sizes. induction conds as [|c cs IH]; intros sizes Hs; simpl.
  - by intros [= <-].
  - simpl in Hs. intros H. apply outcome_bind_Done_inv in H as (z & Hz & H).
    apply outcome_bind_Done_inv in H as (zs & Hzs & [= <-]).
    apply cond_size_Done in Hz as [? ->]; [|lia].
    apply IH in Hzs as [? ->]; [|lia]. by split; [constructor|].
Qed.

Lemma total_size_sum conds t :
  0 <= t -> t + Z.of_nat (sum_list (map cond_len conds)) < 2 ^ 32 ->
  foldl (fun t z => t +32 z) t (map (fun c => Z.of_nat (cond_len c)) conds)
    = t + Z.of_nat (sum_list (map cond_len conds)).
Proof.
  revert t. induction conds as [|c cs IH]; intros t H0 Ht; simpl in *; [lia|].
  rewrite u32_small by lia. rewrite IH by lia. lia.
Qed.

(** The emission loop writes [conds_code] at the cursor and nothing else. *)
Lemma emit_conditions_cursor target fail conds pre k success code :
  Forall cond_ok conds ->
  success = Z.of_nat (length pre) + Z.of_nat (sum_list (map cond_len conds)) ->
  success < 2 ^ 32 ->
  emit_conditions target (pre ++ replicate (sum_list (map cond_len conds) + k) zero_ins) conds
      (cond_starts (Z.of_nat (length pre)) (map (fun c => Z.of_nat (cond_len c)) conds))
      success fail = Done code ->
  exists l, conds_code target conds (Z.of_nat (length pre)) fail = Some l /\
    code = pre ++ l ++ replicate k zero_ins.
Proof.
  intros Hok. revert pre. induction Hok as [|c cs Hc Hcs IH]; intros pre Hs Hlt; cbn -[replicate].
  - intros H; apply (inj Done) in H as <-. exists []. done.
  - simpl in Hs. rewrite <- Nat.add_assoc. intros H.
    apply outcome_bind_Done_inv in H as (code1 & H1 & H2).
    destruct (find_field_by_path target (fc_field_name c)) as [f|] eqn:Hf.
    2:{ unfold emit_condition in H1. by rewrite Hf in H1. }
    set (next := match _ with [] => success | n :: _ => n end) in H1.
    assert (Hn : next = Z.of_nat (length pre) + Z.of_nat (cond_len c)).
    { subst next. destruct cs as [|c' cs']; simpl in *; [lia|]. rewrite u32_small by lia. done. }
    rewrite Hn, (emit_condition_cursor target pre _ c _ fail f) in H1 by (done || lia).
    apply (inj Done) in H1 as <-.
    rewrite u32_small in H2 by lia. rewrite app_assoc in H2.
    replace (Z.of_nat (length pre) + Z.of_nat (cond_len c))
      with (Z.of_nat (length (pre ++ cond_code f c (Z.of_nat (length pre)) (Z.of_nat (length pre) + Z.of_nat (cond_len c)) fail)))
      in H2 at 2 by (rewrite length_app, length_cond_code by done; lia).
    apply IH in H2 as (l & Hl & ->); [|rewrite length_app, length_cond_code by done; lia|lia].
    rewrite length_app, length_cond_code, Nat2Z.inj_add in Hl by done.
    exists (cond_code f c (Z.of_nat (length pre)) (Z.of_nat (length pre) + Z.of_nat (cond_len c)) fail ++ l).
    cbn [mbind option_bind]. rewrite Hl. split; [done|]. by rewrite <- !app_assoc.
Qed.

Lemma set_opcode_at pre x post op :
  set_opcode (pre ++ x :: post) (Z.of_nat (length pre)) op
    = Done (pre ++ mkIns op (i_offset x) (i_operand x) (i_operand2 x) (i_jump_target x) :: post).
Proof.
  unfold set_opcode. rewrite aget_nat, list_lookup_middle by done.
  unfold aset. destruct (Z.leb_spec 0 (Z.of_nat (length pre))); [|lia].
  destruct (Z.ltb_spec (Z.of_nat (length pre)) (Z.of_nat (length (pre ++ x :: post))));
    [|rewrite length_app in *; simpl in *; lia].
  cbn [andb]. by rewrite Nat2Z.id, insert_app_r_alt, Nat.sub_diag by lia.
Qed.

(** The two returns go to the last two slots. *)
Lemma set_returns {B} (l : list Instruction) (k : list Instruction -> outcome B) :
  (code' ← set_opcode (l ++ [zero_ins; zero_ins]) (Z.of_nat (length l)) OP_RETURN_TRUE;
   code'' ← set_opcode code' (Z.of_nat (length l) + 2 - 1) OP_RETURN_FALSE;
   k code'') = k (l ++ [return_true; return_false]).
Proof.
  rewrite set_opcode_at, outcome_bind_done.
  replace (Z.of_nat (length l) + 2 - 1)
    with (Z.of_nat (length (l ++ [mkIns OP_RETURN_TRUE 0 0 0 0]))) by (rewrite length_app; simpl; lia).
  change (?a ++ ?x :: ?y :: []) with (a ++ [x] ++ y :: []). rewrite app_assoc.
  cbn [i_offset i_operand i_operand2 i_jump_target zero_ins].
  rewrite set_opcode_at, outcome_bind_done. by rewrite <- app_assoc.
Qed.

(** The compiled code is the code of the conditions followed by the two
    returns, and its length is the sum of the condition sizes plus two. *)
Lemma compile_code_shape target name conds code len :
  Z.of_nat (code_size conds) < 2 ^ 32 ->
  compile_code target name conds = Done (code, len) ->
  Forall cond_ok conds /\ len = Z.of_nat (code_size conds) /\
  exists l, conds_code target conds 0 (len - 1) = Some l /\
    code = l ++ [return_true; return_false] /\ length l = (code_size conds - 2)%nat.
Proof.
  intros Hs H. unfold compile_code in H.
  apply outcome_bind_Done_inv in H as (sizes & Hz & H).
  apply cond_sizes_Done in Hz as [Hok ->]; [|done]. split; [done|].
  assert (Et : total_size (map (fun c => Z.of_nat (cond_len c)) conds) = Z.of_nat (code_size conds)).
  { unfold total_size, code_size in *. rewrite total_size_sum by lia. lia. }
  rewrite Et in H. unfold code_size in Hs.
  set (n := sum_list (map cond_len conds)) in *.
  replace (Z.of_nat (code_size conds)) with (Z.of_nat n + 2) in * by (unfold code_size; lia).
  destruct (Z.ltb_spec 1 (Z.of_nat n + 2)); [|lia].
  destruct (Z.ltb_spec 0 (Z.of_nat n + 2)); [|lia].
  destruct (Z.leb_spec 2 (Z.of_nat n + 2)); [|lia].
  rewrite !u32_small in H by lia.
  replace (Z.of_nat n + 2 - 2) with (Z.of_nat n) in H by lia.
  apply outcome_bind_Done_inv in H as (c1 & Hc1 & H).
  replace (Z.to_nat (Z.of_nat n + 2)) with (n + 2)%nat in Hc1 by lia.
  apply (emit_conditions_cursor target (Z.of_nat n + 2 - 1) conds [] 2) in Hc1
    as (l & Hl & ->); [|done|done|lia].
  cbn [length app replicate] in *.
  pose proof (length_conds_code _ _ _ _ _ Hok Hl) as Hll. fold n in Hll.
  rewrite <- Hll, set_returns in H.
  apply (inj Done) in H as [= <- <-]. split; [lia|].
  exists l. rewrite Hll. split; [|split]; [|done|unfold code_size; lia].
  by rewrite <- Hl; f_equal; lia.
Qed.

(** *** Compilation never leaves its buffers *)

(** Every condition's field is in the target struct. *)
Definition fields_found (target : StructDef) (conds : list FilterCondition) : Prop :=
  Forall (fun c => is_Some (find_field_by_path target (fc_field_name c))) conds.

Lemma cond_sizes_ok name conds :
  Z.of_nat (code_size conds) < 2 ^ 32 -> Forall cond_ok conds ->
  cond_sizes name conds = Done (map (fun c => Z.of_nat (cond_len c)) conds).
Proof.
  unfold code_size. induction conds as [|c cs IH]; intros Hs Hok; [done|].
  apply Forall_cons in Hok as [Hc Hcs]. cbn [map sum_list_with] in Hs. simpl in Hs.
  cbn [cond_sizes]. rewrite IH by (done || lia).
  assert (E : cond_size name c = Done (Z.of_nat (cond_len c))); [|by rewrite E].
  pose proof (cond_len_pos c Hc). unfold cond_size, cond_ok, cond_len in *.
  destruct (fc_op c); try done; rewrite (u32_small (Z.of_nat (length _))) by lia;
    (destruct (Z.eqb_spec (Z.of_nat (length (fc_values c))) 0); [destruct (fc_values c); simpl in *; [done|lia]|]);
    f_equal; rewrite (u32_small (3 * _)) by lia; rewrite ?u32_small by lia; lia.
Qed.

Lemma emit_conditions_total target fail conds pre k success :
  Forall cond_ok conds ->
  success = Z.of_nat (length pre) + Z.of_nat (sum_list (map cond_len conds)) -> success < 2 ^ 32 ->
  match emit_conditions target (pre ++ replicate (sum_list (map cond_len conds) + k) zero_ins) conds
          (cond_starts (Z.of_nat (length pre)) (map (fun c => Z.of_nat (cond_len c)) conds)) success fail with
  | Done _ => fields_found target conds
  | Fails _ => ~ fields_found target conds
  | _ => False
  end.
Proof.
  intros Hok. revert pre. induction Hok as [|c cs Hc Hcs IH]; intros pre Hs Hlt; cbn -[replicate]; [constructor|].
  simpl in Hs. rewrite <- Nat.add_assoc.
  destruct (find_field_by_path target (fc_field_name c)) as [f|] eqn:Hf.
  2:{ unfold emit_condition. rewrite Hf. cbn. intros H. apply Forall_cons in H as [[f H] _]. congruence. }
  set (next := match _ with [] => success | n :: _ => n end).
  assert (Hn : next = Z.of_nat (length pre) + Z.of_nat (cond_len c)).
  { subst next. destruct cs as [|c' cs']; simpl in *; [lia|]. rewrite u32_small by lia. done. }
  rewrite Hn, (emit_condition_cursor target pre _ c _ fail f) by (done || lia).
  rewrite outcome_bind_done, u32_small by lia. rewrite app_assoc.
  pose proof (length_cond_code f c (Z.of_nat (length pre))
    (Z.of_nat (length pre) + Z.of_nat (cond_len c)) fail Hc) as Hl.
  set (l := cond_code _ _ _ _ _) in *.
  replace (Z.of_nat (length pre) + Z.of_nat (cond_len c)) with (Z.of_nat (length (pre ++ l)))
    by (rewrite length_app, Hl; lia).
  specialize (IH (pre ++ l)). rewrite length_app, Hl, Nat2Z.inj_add in IH |- *.
  specialize (IH ltac:(lia) Hlt).
  destruct (emit_conditions _ _ _ _ _ _); try done.
  - by constructor; [exists f|].
  - intros H. apply Forall_cons in H as [_ H]. done.
Qed.

Lemma compile_code_total target name conds :
  Z.of_nat (code_size conds) < 2 ^ 32 -> Forall cond_ok conds ->
  match compile_code target name conds with
  | Done _ => fields_found target conds
  | Fails _ => ~ fields_found target conds
  | _ => False
  end.
Proof.
  intros Hs Hok. unfold compile_code. rewrite cond_sizes_ok, outcome_bind_done by done. cbv zeta.
  assert (Et : total_size (map (fun c => Z.of_nat (cond_len c)) conds) = Z.of_nat (code_size conds)).
  { unfold total_size, code_size in *. rewrite total_size_sum by lia. lia. }
  rewrite Et. unfold code_size in *. set (n := sum_list (map cond_len conds)) in *.
  replace (Z.of_nat (2 + n)) with (Z.of_nat n + 2) by lia.
  destruct (Z.ltb_spec 1 (Z.of_nat n + 2)); [|lia].
  destruct (Z.ltb_spec 0 (Z.of_nat n + 2)); [|lia].
  destruct (Z.leb_spec 2 (Z.of_nat n + 2)); [|lia].
  rewrite !u32_small by lia. replace (Z.of_nat n + 2 - 2) with (Z.of_nat n) by lia.
  replace (Z.to_nat (Z.of_nat n + 2)) with (n + 2)%nat by lia.
  pose proof (emit_conditions_total target (Z.of_nat n + 2 - 1) conds [] 2 (Z.of_nat n) Hok eq_refl
    ltac:(lia)) as H'.
  pose proof (emit_conditions_cursor target (Z.of_nat n + 2 - 1) conds [] 2 (Z.of_nat n)) as Hcur.
  fold n in H', Hcur. cbn [length app] in H', Hcur. change (Z.of_nat 0) with 0 in *.
  destruct (emit_conditions _ _ _ _ _ _) as [code| | |]; try done.
  destruct (Hcur code Hok) as (l & Hl & ->); [done|lia|done|].
  pose proof (length_conds_code _ _ _ _ _ Hok Hl) as Hll. fold n in Hll.
  cbn [replicate]. rewrite outcome_bind_done, <- Hll, set_returns. done.
Qed.

(** *** All jumps go forward *)

Definition forward_at (pos : Z) (l : list Instruction) : Prop :=
  forall k ins, l !! k = Some ins -> is_jump (i_opcode ins) = true ->
    pos + Z.of_nat k < i_jump_target ins.

Lemma forward_at_nil pos : forward_at pos [].
Proof. intros k ins H. by rewrite lookup_nil in H. Qed.

Lemma forward_at_cons pos i l :
  (is_jump (i_opcode i) = true -> pos < i_jump_target i) -> forward_at (pos + 1) l ->
  forward_at pos (i :: l).
Proof.
  intros Hi Hl [|k] ins; simpl.
  - intros [= <-] Hj. specialize (Hi Hj). lia.
  - intros Hk Hj. specialize (Hl k ins Hk Hj). lia.
Qed.

Lemma forward_at_app pos l1 l2 :
  forward_at pos l1 -> forward_at (pos + Z.of_nat (length l1)) l2 -> forward_at pos (l1 ++ l2).
Proof.
  intros H1 H2 k ins Hk Hj. apply lookup_app_Some in Hk as [Hk|[Hl Hk]].
  - by apply H1.
  - specialize (H2 _ _ Hk Hj). lia.
Qed.

Ltac forward_steps :=
  repeat (apply forward_at_cons; [simpl; intros; first [done | lia]|]); try apply forward_at_nil.

Lemma forward_in_code idx next fail vs :
  idx + Z.of_nat (length (in_code idx next fail vs)) <= next -> next <= fail ->
  forward_at idx (in_code idx next fail vs).
Proof.
  revert idx. induction vs as [|v rest IH]; intros idx Hn Hf; [apply forward_at_nil|].
  destruct rest as [|w rest].
  - simpl in *. forward_steps.
  - rewrite in_code_cons in *. cbn [length] in Hn. forward_steps.
    replace (idx + 1 + 1 + 1) with (idx + 3) by lia. apply IH; lia.
Qed.

Lemma forward_not_in_code idx next fail vs :
  idx + Z.of_nat (length (not_in_code idx next fail vs)) <= next -> next <= fail ->
  forward_at idx (not_in_code idx next fail vs).
Proof.
  revert idx. induction vs as [|v rest IH]; intros idx Hn Hf; [apply forward_at_nil|].
  cbn [not_in_code length] in *. forward_steps.
  apply forward_at_cons; [intros _; destruct rest; simpl in *; lia|]. forward_steps.
  replace (idx + 1 + 1 + 1) with (idx + 3) by lia. apply IH; lia.
Qed.

Lemma is_jump_load field : is_jump (get_load_opcode field) = false.
Proof. unfold get_load_opcode. destruct (f_type field); repeat destr_goal; done. Qed.

Lemma is_jump_cmp c : is_jump (i_opcode (cond_cmp c)) = false.
Proof. unfold cond_cmp. destruct (decide _), (fc_op c); done. Qed.

Lemma forward_cond_code field c start next fail :
  cond_ok c -> next = start + Z.of_nat (cond_len c) -> next <= fail ->
  forward_at start (cond_code field c start next fail).
Proof.
  intros Hok Hn Hf. pose proof (length_cond_code field c start next fail Hok) as Hl.
  unfold cond_code in *. simpl length in Hl.
  apply forward_at_cons; [simpl; by rewrite is_jump_load|].
  destruct (fc_op c) eqn:Eop;
    try (apply forward_at_cons; [by rewrite is_jump_cmp|];
         unfold cond_len in Hn; rewrite Eop in Hn; forward_steps).
  - apply forward_in_code; lia.
  - apply forward_not_in_code; lia.
Qed.

Lemma forward_conds_code target conds start fail l :
  Forall cond_ok conds -> conds_code target conds start fail = Some l ->
  start + Z.of_nat (sum_list (map cond_len conds)) <= fail -> forward_at start l.
Proof.
  intros Hok. revert start l. induction Hok as [|c cs Hc _ IH]; intros start l;
    cbn [conds_code map].
  - intros [= <-] _. apply forward_at_nil.
  - destruct (find_field_by_path _ _) as [f|]; [|done]. cbn [mbind option_bind].
    destruct (conds_code _ _ _ _) as [rest|] eqn:E; [|done].
    intros H Hb; apply (inj Some) in H as <-. simpl in Hb.
    apply forward_at_app; [apply forward_cond_code; done || lia|].
    rewrite length_cond_code by done. apply (IH _ _ E). lia.
Qed.

(** ** Execution of the compiled code *)

(** A rewriting of load opcodes that leaves all others alone. *)
Definition load_variant (variant : OpCode -> OpCode) : Prop :=
  forall op, match load_kind op with
             | Some _ => load_kind (variant op) <> None
             | None => variant op = op
             end.

Definition re_op (variant : OpCode -> OpCode) (ins : Instruction) : Instruction :=
  mkIns (variant (i_opcode ins)) (i_offset ins) (i_operand ins) (i_operand2 ins) (i_jump_target ins).

Lemma load_variant_id : load_variant id.
Proof. by intros []. Qed.

Lemma load_variant_swap : load_variant swap_endian_opcode.
Proof. by intros []. Qed.

Lemma re_op_id ins : re_op id ins = ins.
Proof. by destruct ins. Qed.

Lemma map_re_op_id l : map (re_op id) l = l.
Proof. induction l as [|x l IH]; [done|]. cbn [map]. by rewrite IH, re_op_id. Qed.

Lemma map_swap_ins l : map swap_ins l = map (re_op swap_endian_opcode) l.
Proof. done. Qed.

Section Exec.
Context (packet : list byte) (packet_len : Z) (code : list Instruction).
Context (variant : OpCode -> OpCode).
Hypothesis Hvariant : load_variant variant.
Hypothesis Hplen : 0 <= packet_len <= Z.of_nat (length packet).
Hypothesis Hforward : forward code.
Hypothesis Hsize : Z.of_nat (length code) < 2 ^ 32.

Abbreviation runs := (run packet packet_len code).
Abbreviation pkt := (take (Z.to_nat packet_len) packet).

(** The instructions [l], rewritten by [variant], are at [pos] in the code. *)
Definition code_at (pos : nat) (l : list Instruction) : Prop :=
  forall k x, l !! k = Some x -> code !! (pos + k)%nat = Some (re_op variant x).

Lemma code_at_head pos x l : code_at pos (x :: l) -> code !! pos = Some (re_op variant x).
Proof. intros H. specialize (H 0%nat x eq_refl). by rewrite Nat.add_0_r in H. Qed.

Lemma code_at_tail pos x l : code_at pos (x :: l) -> code_at (S pos) l.
Proof. intros H k y Hk. specialize (H (S k) y Hk). by rewrite Nat.add_succ_r in H. Qed.

Lemma code_at_app_l pos l1 l2 : code_at pos (l1 ++ l2) -> code_at pos l1.
Proof. intros H k x Hk. apply H. by apply lookup_app_l_Some. Qed.

Lemma code_at_app_r pos l1 l2 : code_at pos (l1 ++ l2) -> code_at (pos + length l1) l2.
Proof.
  intros H k x Hk. rewrite <- Nat.add_assoc. apply H.
  rewrite lookup_app_r by lia. rewrite <- Hk. f_equal. lia.
Qed.

(** One unfolding of [run] at a known instruction. *)
Lemma run_at pos ins a b :
  code !! pos = Some ins ->
  runs (mkExec (Z.of_nat pos) a b) =
    match exec_step packet packet_len code (Z.of_nat (length code)) (mkExec (Z.of_nat pos) a b) with
    | Next s' => runs s'
    | Stop r => r
    end /\
  aget code (Z.of_nat pos) = Some ins /\ (Z.of_nat pos +32 1) = Z.of_nat (S pos).
Proof.
  intros Hi. pose proof (lookup_lt_Some _ _ _ Hi).
  split; [|split; [by rewrite aget_nat|rewrite u32_small by lia; lia]].
  rewrite run_unfold by (simpl; done || lia). simpl ip.
  destruct (Z.ltb_spec (Z.of_nat pos) (Z.of_nat (length code))); [done|lia].
Qed.

Ltac run_ins Hi Hn :=
  let Hr := fresh in let Hg := fresh in
  match type of Hi with code !! ?pos = Some ?ins =>
    match goal with |- context [runs (mkExec (Z.of_nat pos) ?a ?b)] =>
      destruct (run_at pos ins a b Hi) as (Hr & Hg & Hn); rewrite Hr; clear Hr;
      unfold exec_step; simpl ip; rewrite Hg; clear Hg;
      unfold re_op, ins_cmp, ins_jump; cbn [i_opcode i_operand i_operand2 i_offset i_jump_target];
      unfold compare_acc, goto; cbn [acc cmp_result ip]
    end
  end.

Lemma variant_other op : load_kind op = None -> variant op = op.
Proof. intros H. specialize (Hvariant op). by rewrite H in Hvariant. Qed.

Lemma run_cmp_eq pos w v b :
  code !! pos = Some (re_op variant (ins_cmp OP_CMP_EQ w 0)) ->
  runs (mkExec (Z.of_nat pos) v b) = runs (mkExec (Z.of_nat (S pos)) v (v =? w)).
Proof.
  intros Hi. run_ins Hi Hn. rewrite variant_other by done.
  cbn [i_operand]. by rewrite Hn.
Qed.

Lemma run_cond_cmp pos c v b :
  code !! pos = Some (re_op variant (cond_cmp c)) ->
  fc_op c <> COND_IN -> fc_op c <> COND_NOT_IN ->
  runs (mkExec (Z.of_nat pos) v b) = runs (mkExec (Z.of_nat (S pos)) v (cond_holds c v)).
Proof.
  intros Hi Hn1 Hn2. run_ins Hi Hn. unfold cond_cmp, cond_holds.
  destruct (fc_op c); try done; destruct (decide _); try done; unfold ins_cmp; cbn [i_opcode get_cmp_opcode];
    rewrite variant_other by done; cbn [i_operand i_operand2]; by rewrite Hn.
Qed.

Lemma run_jif pos t v b :
  code !! pos = Some (re_op variant (ins_jump OP_JUMP_IF_FALSE t)) ->
  t < Z.of_nat (length code) ->
  runs (mkExec (Z.of_nat pos) v b) =
    runs (mkExec (if b then Z.of_nat (S pos) else t) v b).
Proof.
  intros Hi Ht. run_ins Hi Hn. rewrite variant_other by done. cbn [i_jump_target].
  rewrite Hn. destruct b; simpl; [done|].
  destruct (Z.geb_spec t (Z.of_nat (length code))); [lia|done].
Qed.

Lemma run_jump pos t v b :
  code !! pos = Some (re_op variant (ins_jump OP_JUMP t)) ->
  t < Z.of_nat (length code) ->
  runs (mkExec (Z.of_nat pos) v b) = runs (mkExec t v b).
Proof.
  intros Hi Ht. run_ins Hi Hn. rewrite variant_other by done. cbn [i_jump_target].
  destruct (Z.geb_spec t (Z.of_nat (length code))); [lia|done].
Qed.

Lemma run_load pos f v0 b0 :
  code !! pos = Some (re_op variant (mkIns (get_load_opcode f) (f_offset f) 0 0 0)) ->
  0 <= f_offset f < 2 ^ 32 - 8 ->
  runs (mkExec (Z.of_nat pos) v0 b0) =
    match loaded_value (variant (get_load_opcode f)) (f_offset f) pkt with
    | Some v => runs (mkExec (Z.of_nat (S pos)) v b0)
    | None => Ret false
    end.
Proof.
  intros Hi Hoff. destruct (run_at pos _ v0 b0 Hi) as (-> & Hg & Hn).
  assert (Hk : load_kind (variant (get_load_opcode f)) <> None).
  { specialize (Hvariant (get_load_opcode f)).
    destruct (load_kind (get_load_opcode f)) eqn:E; [done|].
    clear -E. unfold get_load_opcode in E. by destruct (f_type f), (f_endian f). }
  unfold loaded_value.
  destruct (load_kind (variant (get_load_opcode f))) as [[[n sg] big]|] eqn:E; [|done].
  rewrite (load_step packet packet_len Hplen code _ (mkExec (Z.of_nat pos) v0 b0) _ n sg big (Z.to_nat (f_offset f)) Hg)
    by (cbn [re_op i_opcode i_offset]; done || lia).
  cbn [ip]. rewrite Hn. by destruct (uint_at _ _ _ _).
Qed.

(** The value loops: with [v] in the accumulator control reaches [next] or
    [fail] according to membership. *)
Lemma run_in i next fail vs v b :
  vs <> [] -> code_at i (in_code (Z.of_nat i) next fail vs) ->
  next = Z.of_nat (i + length (in_code (Z.of_nat i) next fail vs)) ->
  next < Z.of_nat (length code) -> fail < Z.of_nat (length code) ->
  exists b', runs (mkExec (Z.of_nat i) v b)
             = runs (mkExec (if existsb (Z.eqb v) vs then next else fail) v b').
Proof.
  revert i b. induction vs as [|w rest IH]; intros i b Hne Hc Hnext Hn Hf; [done|].
  destruct rest as [|w' rest].
  - cbn [in_code] in *. rewrite (run_cmp_eq _ w) by (by apply code_at_head in Hc).
    apply code_at_tail, code_at_head in Hc. rewrite (run_jif _ fail) by done.
    cbn [existsb orb]. rewrite orb_false_r. exists (v =? w).
    destruct (v =? w); [|done]. do 2 f_equal. rewrite Hnext. simpl length. lia.
  - rewrite in_code_cons in *. cbn [length] in Hnext.
    rewrite (run_cmp_eq _ w) by (by apply code_at_head in Hc).
    apply code_at_tail in Hc. rewrite (run_jif _ (Z.of_nat i + 3)) by
      (first [by apply code_at_head in Hc | lia]).
    apply code_at_tail in Hc. change (existsb (Z.eqb v) (w :: w' :: rest))
      with ((v =? w) || existsb (Z.eqb v) (w' :: rest)).
    destruct (v =? w); cbn [orb].
    + exists true. by rewrite (run_jump _ next) by (first [by apply code_at_head in Hc | lia]).
    + replace (Z.of_nat i + 3) with (Z.of_nat (S (S (S i)))) in * by lia.
      apply IH; [done|by apply code_at_tail in Hc|lia|done|done].
Qed.

Lemma run_not_in i next fail vs v b :
  vs <> [] -> code_at i (not_in_code (Z.of_nat i) next fail vs) ->
  next = Z.of_nat (i + 3 * length vs) ->
  next < Z.of_nat (length code) -> fail < Z.of_nat (length code) ->
  exists b', runs (mkExec (Z.of_nat i) v b)
             = runs (mkExec (if existsb (Z.eqb v) vs then fail else next) v b').
Proof.
  revert i b. induction vs as [|w rest IH]; intros i b Hne Hc Hnext Hn Hf; [done|].
  cbn [not_in_code length] in *.
  set (t := match rest with [] => next | _ => Z.of_nat i + 3 end) in Hc.
  assert (Ht : t < Z.of_nat (length code)) by (subst t; destruct rest; simpl in *; lia).
  rewrite (run_cmp_eq _ w) by (by apply code_at_head in Hc).
  apply code_at_tail in Hc. rewrite (run_jif _ t) by (first [by apply code_at_head in Hc | done]).
  apply code_at_tail in Hc. cbn [existsb].
  destruct (v =? w); cbn [orb].
  - exists true. by rewrite (run_jump _ fail) by (first [by apply code_at_head in Hc | done]).
  - apply code_at_tail in Hc. subst t. destruct rest as [|w' rest]; [by exists false|].
    replace (Z.of_nat i + 3) with (Z.of_nat (S (S (S i)))) in * by lia.
    apply IH; [done|done|lia|done|done].
Qed.

(** A whole condition: load, compare, branch. *)
Lemma run_cond start c f fail v0 b0 :
  cond_ok c -> 0 <= f_offset f < 2 ^ 32 - 8 ->
  let next := Z.of_nat (start + cond_len c) in
  code_at start (cond_code f c (Z.of_nat start) next fail) ->
  next < Z.of_nat (length code) -> fail < Z.of_nat (length code) ->
  match loaded_value (variant (get_load_opcode f)) (f_offset f) pkt with
  | None => runs (mkExec (Z.of_nat start) v0 b0) = Ret false
  | Some v => exists b', runs (mkExec (Z.of_nat start) v0 b0)
                         = runs (mkExec (if cond_holds c v then next else fail) v b')
  end.
Proof.
  intros Hok Hoff next Hc Hn Hf.
  pose proof (length_cond_code f c (Z.of_nat start) next fail Hok) as Hl.
  unfold cond_code in Hc, Hl. cbn [length] in Hl.
  rewrite (run_load start f) by (first [by apply code_at_head in Hc | done]).
  destruct (loaded_value _ _ _) as [v|]; [|done].
  apply code_at_tail in Hc.
  replace (Z.of_nat start + 1) with (Z.of_nat (S start)) in * by lia.
  destruct (fc_op c) eqn:Eop;
    try (exists (cond_holds c v); rewrite (run_cond_cmp _ c) by
           (first [by apply code_at_head in Hc | by rewrite Eop]);
         apply code_at_tail in Hc; rewrite (run_jif _ fail) by
           (first [by apply code_at_head in Hc | done]);
         destruct (cond_holds c v); [|done]; do 2 f_equal; subst next;
         unfold cond_len; rewrite Eop; lia).
  - unfold cond_ok in Hok. rewrite Eop in Hok.
    destruct (run_in (S start) next fail (fc_values c) v b0) as [b' Hb']; try done; [lia|].
    exists b'. rewrite Hb'. unfold cond_holds. by rewrite Eop.
  - unfold cond_ok in Hok. rewrite Eop in Hok.
    destruct (run_not_in (S start) next fail (fc_values c) v b0) as [b' Hb']; try done.
    { subst next. unfold cond_len. rewrite Eop. lia. }
    exists b'. rewrite Hb'. unfold cond_holds. rewrite Eop. by destruct (existsb _ _).
Qed.

(** The conditions in sequence, ending at the two returns. *)
Lemma run_conds target conds start fail l v0 b0 :
  Forall cond_ok conds -> offsets_in_range target ->
  conds_code target conds (Z.of_nat start) fail = Some l ->
  code_at start (l ++ [return_true; return_false]) ->
  fail = Z.of_nat (start + length l + 1) -> fail < Z.of_nat (length code) ->
  runs (mkExec (Z.of_nat start) v0 b0) = Ret (rule_matches variant target conds pkt).
Proof.
  intros Hok Hoff. revert start l v0 b0.
  induction Hok as [|c cs Hc Hcs IH]; intros start l v0 b0; cbn [conds_code].
  - intros [= <-] Hat Hfail Hlt. apply code_at_head in Hat.
    destruct (run_at start _ v0 b0 Hat) as (-> & Hg & _). unfold exec_step. cbn [ip].
    rewrite Hg. cbn [re_op return_true i_opcode]. by rewrite variant_other.
  - unfold rule_matches, cond_matches. cbn [forallb].
    destruct (find_field_by_path target (fc_field_name c)) as [f|] eqn:Ef; [|done].
    cbn [mbind option_bind].
    destruct (conds_code _ cs _ _) as [rest|] eqn:E; [|done].
    intros H Hat Hfail Hlt; apply (inj Some) in H as <-.
    assert (Hfo : 0 <= f_offset f < 2 ^ 32 - 8).
    { unfold find_field_by_path in Ef. apply find_some in Ef as [Hin _].
      apply list_elem_of_In in Hin. by eapply Forall_forall in Hin; [|exact Hoff]. }
    rewrite length_app, length_cond_code in Hfail by done.
    rewrite <- app_assoc in Hat.
    pose proof (run_cond start c f fail v0 b0 Hc Hfo) as Hrun. cbv zeta in Hrun.
    rewrite Nat2Z.inj_add in Hrun. specialize (Hrun (code_at_app_l _ _ _ Hat)).
    apply code_at_app_r in Hat. rewrite length_cond_code in Hat by done.
    assert (Hfl : code !! (start + cond_len c + length rest + 1)%nat
                  = Some (re_op variant return_false)).
    { replace (start + cond_len c + length rest + 1)%nat
        with (start + cond_len c + (length rest + 1))%nat by lia.
      apply Hat. by rewrite lookup_app_r, Nat.add_sub' by lia. }
    destruct (loaded_value _ _ _) as [v|]; [|apply Hrun; lia].
    destruct Hrun as [b' ->]; [lia|done|].
    destruct (cond_holds c v); cbn [andb].
    + rewrite <- Nat2Z.inj_add in *. apply (IH _ rest); [done|done|lia|done].
    + rewrite Hfail. replace (start + (cond_len c + length rest) + 1)%nat
        with (start + cond_len c + length rest + 1)%nat by lia.
      destruct (run_at _ _ v b' Hfl) as (-> & Hg & _). unfold exec_step. cbn [ip].
      rewrite Hg. cbn [re_op return_false i_opcode]. by rewrite variant_other.
Qed.
End Exec.

(** ** The compiled rule *)

Lemma conds_code_loads target conds start fail l :
  offsets_in_range target -> Forall cond_ok conds -> 0 <= start ->
  start + Z.of_nat (sum_list (map cond_len conds)) <= fail ->
  conds_code target conds start fail = Some l ->
  loads_in_range l /\ Forall (fun ins => 0 <= i_jump_target ins <= fail) l.
Proof.
  intros Hoff Hok. revert start l. induction Hok as [|c cs Hc _ IH]; intros start l Hs Hf;
    cbn [conds_code].
  - intros [= <-]. split; constructor.
  - destruct (find_field_by_path _ _) as [f|] eqn:Ef; [|done]. cbn [mbind option_bind].
    destruct (conds_code _ _ _ _) as [rest|] eqn:E; [|done].
    intros H; apply (inj Some) in H as <-.
    simpl in Hf. destruct (IH (start + Z.of_nat (cond_len c)) rest) as [Hl Hj]; [lia|lia|done|].
    assert (Hfo : 0 <= f_offset f < 2 ^ 32 - 8).
    { unfold find_field_by_path in Ef. apply find_some in Ef as [Hin _].
      apply list_elem_of_In in Hin. by eapply Forall_forall in Hin; [|exact Hoff]. }
    assert (Hin : forall i n vs, 0 <= i -> i + Z.of_nat (length (in_code i n fail vs)) <= n <= fail ->
      Forall (fun ins => i_offset ins = 0 /\ 0 <= i_jump_target ins <= fail) (in_code i n fail vs)).
    { intros i n vs; revert i. induction vs as [|v vs IHv]; intros i Hi Hn; [constructor|].
      destruct vs as [|w vs]; [repeat constructor; simpl in *; lia|]. rewrite in_code_cons in *. cbn [length] in Hn.
      repeat (constructor; [simpl; lia|]). apply IHv; lia. }
    assert (Hni : forall i n vs, 0 <= i -> i + Z.of_nat (length (not_in_code i n fail vs)) <= n <= fail ->
      Forall (fun ins => i_offset ins = 0 /\ 0 <= i_jump_target ins <= fail) (not_in_code i n fail vs)).
    { intros i n vs; revert i. induction vs as [|v vs IHv]; intros i Hi Hn; [constructor|].
      cbn [not_in_code length] in *. repeat (constructor; [destruct vs; simpl in *; lia|]). apply IHv; lia. }
    assert (Hcc : Forall (fun ins => 0 <= i_offset ins < 2 ^ 32 - 8 /\ 0 <= i_jump_target ins <= fail)
                    (cond_code f c start (start + Z.of_nat (cond_len c)) fail)).
    { pose proof (length_cond_code f c start (start + Z.of_nat (cond_len c)) fail Hc) as Hlen.
      unfold cond_code in *. simpl length in Hlen. constructor; [simpl; lia|].
      destruct (fc_op c); try (constructor; [unfold cond_cmp; destruct (decide _); simpl; lia|];
        constructor; [simpl; lia|constructor]).
      - eapply Forall_impl; [apply Hin; lia|]. simpl. lia.
      - eapply Forall_impl; [apply Hni; lia|]. simpl. lia. }
    split; apply Forall_app; (split; [eapply Forall_impl; [exact Hcc|simpl; tauto]|done]).
Qed.

(** Facts about a successfully compiled rule that the theorems share. *)
Lemma compile_filter_rule_inv structs temp rule :
  Z.of_nat (code_size (tf_conditions temp)) < 2 ^ 32 ->
  compile_filter_rule structs temp = Done rule ->
  exists target l, find_target structs (tf_conditions temp) = Some target /\
    let conds := tf_conditions temp in let n := Z.of_nat (code_size conds) in
    Forall cond_ok conds /\ conds_code target conds 0 (n - 1) = Some l /\
    length l = (code_size conds - 2)%nat /\
    r_bytecode rule = Some (l ++ [return_true; return_false]) /\ r_bytecode_len rule = n /\
    r_bytecode_be rule = r_bytecode rule /\ r_bytecode_be_len rule = n /\
    r_bytecode_le rule = Some (map swap_ins (l ++ [return_true; return_false])) /\
    r_bytecode_le_len rule = n /\ r_min_packet_size rule = s_min_size target /\
    r_sliding_window rule = tf_sliding_window temp /\
    r_sliding_max_offset rule = tf_sliding_max_offset temp.
Proof.
  intros Hs. unfold compile_filter_rule. destruct (find_target _ _) as [target|]; [|done].
  intros H. apply outcome_bind_Done_inv in H as ([code len] & Hc & H).
  apply (inj Done) in H as <-.
  apply compile_code_shape in Hc as (Hok & -> & l & Hl & -> & Hlen); [|done].
  exists target, l. repeat split; done.
Qed.

Lemma find_target_In structs conds target :
  find_target structs conds = Some target -> In target structs.
Proof. destruct conds; [done|]. intros H. by apply find_some in H as [? _]. Qed.

Lemma code_length (l : list Instruction) n :
  length l = (n - 2)%nat -> (2 <= n)%nat ->
  length (l ++ [return_true; return_false]) = n.
Proof. intros. rewrite length_app. simpl. lia. Qed.

(** The two byte orders at once: the code [map (re_op variant)] of a rule. *)
Lemma compiled_code_runs variant target conds l packet packet_len :
  load_variant variant ->
  0 <= packet_len <= Z.of_nat (length packet) ->
  Z.of_nat (code_size conds) < 2 ^ 32 -> offsets_in_range target -> Forall cond_ok conds ->
  conds_code target conds 0 (Z.of_nat (code_size conds) - 1) = Some l ->
  length l = (code_size conds - 2)%nat ->
  execute_bytecode (Some packet) packet_len
      (Some (map (re_op variant) (l ++ [return_true; return_false]))) (Z.of_nat (code_size conds))
    = Ret (rule_matches variant target conds (take (Z.to_nat packet_len) packet)).
Proof.
  intros Hv Hp Hs Hoff Hok Hl Hlen.
  pose proof (code_length l _ Hlen ltac:(unfold code_size; lia)) as Hcl.
  set (code := map (re_op variant) (l ++ [return_true; return_false])).
  assert (Hlc : length code = code_size conds) by (subst code; by rewrite length_map).
  assert (Hf : forward code).
  { intros i ins Hi Hj. subst code. apply list_lookup_fmap_Some in Hi as (x & -> & Hx).
    assert (Hjx : is_jump (i_opcode x) = true).
    { specialize (Hv (i_opcode x)). unfold re_op in Hj. cbn [i_opcode] in Hj.
      destruct (load_kind (i_opcode x)) eqn:E; [|by rewrite Hv in Hj].
      destruct (variant (i_opcode x)); done. }
    cbn [re_op i_jump_target].
    assert (Hfa : forward_at 0 (l ++ [return_true; return_false])).
    { apply forward_at_app.
      - eapply forward_conds_code; [done|exact Hl|]. unfold code_size in *. lia.
      - do 2 (apply forward_at_cons; [done|]). apply forward_at_nil. }
    by specialize (Hfa i x Hx Hjx). }
  assert (Hne : code <> []) by (intros E; rewrite E in Hlc; unfold code_size in Hlc; simpl in Hlc; lia).
  rewrite <- Hlc. rewrite execute_run by (done || lia).
  apply (run_conds packet packet_len code variant Hv Hp Hf ltac:(lia) target conds 0
           (Z.of_nat (code_size conds) - 1) l); [done|done|done| |unfold code_size in *; lia|unfold code_size in *; lia].
  intros k x Hx. subst code. rewrite list_lookup_fmap. simpl. by rewrite Hx.
Qed.

(** ** Properties *)

(** C1: compiler correctness.  For every packet, the bytecode that
    [compile_filter_rules] stores for a rule, run by the executor on the first
    [packet_len] bytes, returns, and returns exactly whether all conditions of
    the rule hold of the values of their fields: [bytecode_be] with the byte
    order each field was declared with, [bytecode_le] with the opposite one.
    A field that does not fit in the packet makes the rule false. *)
Theorem compile_filter_rule_correct structs temp rule packet packet_len :
  compile_filter_rule structs temp = Done rule ->
  Z.of_nat (code_size (tf_conditions temp)) < 2 ^ 32 ->
  Forall offsets_in_range structs ->
  0 <= packet_len <= Z.of_nat (length packet) ->
  exists target, find_target structs (tf_conditions temp) = Some target /\
    let pkt := take (Z.to_nat packet_len) packet in
    execute_bytecode (Some packet) packet_len (r_bytecode_be rule) (r_bytecode_be_len rule)
      = Ret (rule_matches id target (tf_conditions temp) pkt) /\
    execute_bytecode (Some packet) packet_len (r_bytecode_le rule) (r_bytecode_le_len rule)
      = Ret (rule_matches swap_endian_opcode target (tf_conditions temp) pkt).
Proof.
  intros Hc Hs Hoff Hp.
  apply compile_filter_rule_inv in Hc
    as (target & l & Ht & Hok & Hl & Hlen & Hb & _ & Hbe & Hbel & Hle & Hlel & _); [|done].
  exists target. split; [done|].
  assert (Hoff' : offsets_in_range target).
  { apply find_target_In, list_elem_of_In in Ht. by eapply Forall_forall in Ht; [|exact Hoff]. }
  cbv zeta. rewrite Hbe, Hb, Hbel, Hle, Hlel. split.
  - rewrite <- (map_re_op_id (l ++ _)).
    by apply compiled_code_runs; [apply load_variant_id|..].
  - rewrite map_swap_ins.
    by apply compiled_code_runs; [apply load_variant_swap|..].
Qed.

(** A filter with a plain, a mask, an IN and a NOT IN condition. *)
Definition demo_struct : StructDef :=
  mkStructDef "Packet"
    [ mkField "magic" FIELD_TYPE_UINT16 0 2 ENDIAN_BIG false false 1;
      mkField "kind" FIELD_TYPE_UINT8 2 1 ENDIAN_BIG false false 1;
      mkField "flags" FIELD_TYPE_UINT8 3 1 ENDIAN_BIG false false 1 ] 4 false.

Definition demo_rule : TempFilterRule :=
  mkTempRule "Demo" ""
    [ mkCond "magic" COND_EQ 0x1234 0 []; mkCond "kind" COND_IN 0 0 [1; 2; 3];
      mkCond "kind" COND_NOT_IN 0 0 [3; 4]; mkCond "flags" COND_MASK 0x10 0xF0 [] ] false 0.

Definition demo_compiled : FilterRule :=
  match compile_filter_rule [demo_struct] demo_rule with
  | Done r => r
  | _ => mkFilterRule "" "" None 0 None 0 None 0 0 false 0
  end.

Lemma demo_offsets : Forall offsets_in_range [demo_struct].
Proof. repeat constructor; simpl; lia. Qed.

Example demo_accepts :
  rule_matches id demo_struct (tf_conditions demo_rule) [x12; x34; x02; x1f] = true /\
  rule_matches id demo_struct (tf_conditions demo_rule) [x12; x34; x03; x1f] = false /\
  rule_matches swap_endian_opcode demo_struct (tf_conditions demo_rule) [x34; x12; x02; x1f] = true.
Proof. repeat split; vm_compute; reflexivity. Qed.

Lemma compile_filter_rule_correct_witness :
  exists target, find_target [demo_struct] (tf_conditions demo_rule) = Some target /\
    let pkt := take (Z.to_nat 4) [x12; x34; x02; x1f] in
    execute_bytecode (Some [x12; x34; x02; x1f]) 4 (r_bytecode_be demo_compiled) (r_bytecode_be_len demo_compiled)
      = Ret (rule_matches id target (tf_conditions demo_rule) pkt) /\
    execute_bytecode (Some [x12; x34; x02; x1f]) 4 (r_bytecode_le demo_compiled) (r_bytecode_le_len demo_compiled)
      = Ret (rule_matches swap_endian_opcode target (tf_conditions demo_rule) pkt).
Proof.
  apply (compile_filter_rule_correct [demo_struct] demo_rule demo_compiled [x12; x34; x02; x1f] 4);
    [vm_compute; reflexivity | vm_compute; reflexivity | apply demo_offsets | simpl; lia].
Defined.

(** Every jump target is an instruction of the code. *)
Definition jumps_inside (code : list Instruction) : Prop :=
  Forall (fun ins => 0 <= i_jump_target ins < Z.of_nat (length code)) code.

(** The two instructions behind the conditions: success and failure. *)
Definition ends_in_return (code : list Instruction) : Prop :=
  exists body, code = body ++ [return_true; return_false].

(** C17: the compiled code of a rule jumps only forward and only to its own
    instructions, ends in RETURN_TRUE and RETURN_FALSE, keeps every load
    offset below 2^32 - 8 and has exactly the length the header announces: the
    invariant under which the executor terminates and stays inside its
    buffers. *)
Theorem compiled_code_well_formed structs temp rule code :
  compile_filter_rule structs temp = Done rule ->
  Z.of_nat (code_size (tf_conditions temp)) < 2 ^ 32 ->
  Forall offsets_in_range structs ->
  r_bytecode rule = Some code ->
  forward code /\ jumps_inside code /\ ends_in_return code /\ loads_in_range code /\
  r_bytecode_len rule = Z.of_nat (length code) /\ length code = code_size (tf_conditions temp).
Proof.
  intros Hc Hs Hoff Hcode.
  apply compile_filter_rule_inv in Hc
    as (target & l & Ht & Hok & Hl & Hlen & Hb & Hbl & _); [|done].
  rewrite Hb in Hcode. apply (inj Some) in Hcode as <-.
  assert (Hoff' : offsets_in_range target).
  { apply find_target_In, list_elem_of_In in Ht. by eapply Forall_forall in Ht; [|exact Hoff]. }
  pose proof (code_length l _ Hlen ltac:(unfold code_size; lia)) as Hcl.
  destruct (conds_code_loads target (tf_conditions temp) 0 (Z.of_nat (code_size (tf_conditions temp)) - 1) l)
    as [Hld Hjn]; [done|done|lia|unfold code_size; lia|done|].
  split_and!.
  - intros i ins Hi Hj. apply (forward_at_app 0 l [return_true; return_false]); [| |done|done].
    + eapply forward_conds_code; [done|exact Hl|]. unfold code_size in *. lia.
    + do 2 (apply forward_at_cons; [done|]). apply forward_at_nil.
  - unfold jumps_inside. rewrite Hcl. apply Forall_app. split.
    + eapply Forall_impl; [exact Hjn|]. simpl. lia.
    + unfold code_size. repeat constructor; simpl; lia.
  - by exists l.
  - apply Forall_app. split; [done|]. repeat constructor; simpl; lia.
  - by rewrite Hbl, Hcl.
  - done.
Qed.

Lemma compiled_code_well_formed_witness :
  exists code, r_bytecode demo_compiled = Some code /\
  (forward code /\ jumps_inside code /\ ends_in_return code /\ loads_in_range code /\
   r_bytecode_len demo_compiled = Z.of_nat (length code) /\
   length code = code_size (tf_conditions demo_rule)).
Proof.
  eexists. split; [vm_compute; reflexivity|].
  apply (compiled_code_well_formed [demo_struct] demo_rule demo_compiled);
    [vm_compute; reflexivity | vm_compute; reflexivity | apply demo_offsets | vm_compute; reflexivity].
Defined.

(** Compiling a rule whose value lists are not empty never writes outside
    its buffers: it succeeds exactly when some struct has the field of the first
    condition and that struct has the fields of all conditions, and otherwise
    reports an error. *)
Theorem compile_filter_rule_total structs temp :
  Z.of_nat (code_size (tf_conditions temp)) < 2 ^ 32 -> Forall cond_ok (tf_conditions temp) ->
  match compile_filter_rule structs temp with
  | Done rule => exists target, find_target structs (tf_conditions temp) = Some target /\
      fields_found target (tf_conditions temp)
  | Fails _ => forall target, find_target structs (tf_conditions temp) = Some target ->
      ~ fields_found target (tf_conditions temp)
  | _ => False
  end.
Proof.
  intros Hs Hok. unfold compile_filter_rule. destruct (find_target _ _) as [target|]; [|done].
  pose proof (compile_code_total target (tf_name temp) (tf_conditions temp) Hs Hok) as H.
  destruct (compile_code _ _ _) as [[code len]| | |]; try done; simpl.
  - by exists target.
  - by intros ? [= <-].
Qed.

Lemma compile_filter_rule_total_witness :
  (exists rule, compile_filter_rule [demo_struct] demo_rule = Done rule) /\
  exists target, find_target [demo_struct] (tf_conditions demo_rule) = Some target /\
    fields_found target (tf_conditions demo_rule).
Proof.
  split; [eexists; vm_compute; reflexivity|].
  apply (compile_filter_rule_total [demo_struct] demo_rule).
  - vm_compute. reflexivity.
  - repeat constructor; discriminate.
Defined.
