(* ===== verification/Layout.v ===== *)
(** * Correctness of struct layout

    [flatten_structs] replaces every nested field by the fields of its struct,
    once per element, and gives every field the sum of the sizes before it as
    its offset, provided each nested struct is declared before the struct that
    uses it ([flatten_structs_layout]); a struct used before its declaration
    is laid out as if it were empty ([forward_reference_overlaps]). *)

From S2P Require Import Prelude CppString Endian PdefTypes Executor Compiler CompilerCorrect.

(** ** Specification *)

(** Bytes of a list of fields. *)
Definition sizes (fs : list Field) : Z := foldr (fun f z => f_size f + z) 0 fs.

Definition fixed_fields (fs : list Field) : list Field := filter (fun f => f_is_variable f = false) fs.

(** Every field starts where the previous one ends, only the last may be of
    variable length, and [min_size] counts the fixed ones. *)
Record struct_laid (s : StructDef) : Prop := {
  laid_offsets : forall k f, s_fields s !! k = Some f -> f_offset f = u32 (sizes (take k (s_fields s)));
  laid_min_size : s_min_size s = u32 (sizes (fixed_fields (s_fields s)));
  laid_variable : forall k f, s_fields s !! k = Some f -> f_is_variable f = true ->
    S k = length (s_fields s);
  laid_has_variable : s_has_variable s = existsb f_is_variable (s_fields s);
}.

(** The nested structs a struct refers to, by the names [flatten_structs]
    looks up, are among [seen]. *)
Definition nested_declared (seen : list string) (f : Field) : bool :=
  if decide (f_type f = FIELD_TYPE_NESTED) then
    match parse_nested_field_names (f_name f) 64 64 with
    | Done (t, _) => existsb (String.eqb t) seen
    | _ => true
    end
  else true.

Fixpoint declared_before (seen : list string) (structs : list StructDef) : bool :=
  match structs with
  | [] => true
  | s :: rest => forallb (nested_declared seen) (s_fields s) && declared_before (seen ++ [s_name s]) rest
  end.

(** A field without its offset. *)
Definition shape (f : Field) : Field := set_offset f 0.

(** The prefix of the fields of element [i] of a nested field of type [t] and
    name [r].  The parser takes it from the first 127 bytes of [t.r\[i\]]; what
    is cut off there is part of the index only when both names have about 63
    bytes. *)
Definition element_name (f : Field) (t r : string) (i : Z) : string :=
  if f_is_array f then str_take (126 - String.length t) (r +:+ "[" +:+ fmt_u i +:+ "]") else r.

Definition element_field (name : string) (src : Field) : Field :=
  set_name src (str_take 127 (name +:+ "." +:+ f_name src)).

Definition elements (f : Field) : Z := if f_is_array f then f_array_size f else 1.

(** The fields that stand for a field: itself, or the fields of the struct it
    nests, once for every element. *)
Definition expansion (flat : list StructDef) (f : Field) : list Field :=
  if decide (f_type f = FIELD_TYPE_NESTED) then
    match parse_nested_field_names (f_name f) 64 64 with
    | Done (t, r) =>
        match find_struct_by_name flat t with
        | Some s => seqZ 0 (elements f) ≫= fun i => map (element_field (element_name f t r i)) (s_fields s)
        | None => []
        end
    | _ => []
    end
  else [f].

(** A struct holds the expansions of the fields declared in it, in order. *)
Definition expands (flat : list StructDef) (declared laid : StructDef) : Prop :=
  s_name laid = s_name declared /\
  map shape (s_fields laid) = map shape (s_fields declared ≫= expansion flat).

(** ** Contiguous runs of fields *)

(** [fs] fills the bytes from [o] to [e]; [v] says that it ends in a field of
    variable length. *)
Fixpoint laid (o : Z) (fs : list Field) (e : Z) (v : bool) : Prop :=
  match fs with
  | [] => o = e /\ v = false
  | f :: fs' =>
      f_offset f = o /\
      if f_is_variable f then fs' = [] /\ e = o /\ v = true else laid (o +32 f_size f) fs' e v
  end.

Lemma u32_add_l a b : u32 a +32 b = a +32 b.
Proof. unfold u32. by rewrite Zplus_mod_idemp_l. Qed.

Lemma u32_add_r a b : a +32 u32 b = a +32 b.
Proof. unfold u32. by rewrite Zplus_mod_idemp_r. Qed.

Lemma u32_idemp a : u32 (u32 a) = u32 a.
Proof. unfold u32. by rewrite Z.mod_mod. Qed.

Lemma laid_app o fs1 m fs2 e v : laid o fs1 m false -> laid m fs2 e v -> laid o (fs1 ++ fs2) e v.
Proof.
  revert o. induction fs1 as [|f fs1 IH]; intros o; simpl; [by intros [-> _]|].
  destruct (f_is_variable f); [by intros (_ & _ & _ & [=])|].
  intros [-> H] H2. split; [done|auto].
Qed.

Lemma laid_shift n b o fs e v :
  laid o fs e v -> laid (b +32 o) (map (expand_one n b) fs) (b +32 e) v.
Proof.
  revert o. induction fs as [|f fs IH]; intros o; simpl; [by intros [-> ->]|].
  intros [-> H]. split; [done|]. destruct (f_is_variable f).
  - by destruct H as (-> & -> & ->).
  - apply IH in H. rewrite u32_add_r in H. rewrite u32_add_l. by rewrite <- Z.add_assoc.
Qed.

Lemma laid_range o fs e v : 0 <= o < 2 ^ 32 -> laid o fs e v -> 0 <= e < 2 ^ 32.
Proof.
  revert o. induction fs as [|f fs IH]; intros o Ho; simpl; [by intros [-> _]|].
  intros [_ H]. destruct (f_is_variable f); [by destruct H as (_ & -> & _)|].
  apply IH in H; [done|apply u32_range].
Qed.

Lemma sizes_app fs1 fs2 : sizes (fs1 ++ fs2) = sizes fs1 + sizes fs2.
Proof. induction fs1; simpl; lia. Qed.

Lemma laid_spec o fs e v :
  0 <= o < 2 ^ 32 -> laid o fs e v ->
  (forall k f, fs !! k = Some f -> f_offset f = o +32 sizes (take k fs)) /\
  e = o +32 sizes (fixed_fields fs) /\
  (forall k f, fs !! k = Some f -> f_is_variable f = true -> S k = length fs) /\
  v = existsb f_is_variable fs.
Proof.
  revert o. induction fs as [|f fs IH]; intros o Ho; simpl.
  { intros [-> ->]. rewrite Z.add_0_r, u32_small by done. repeat split; done. }
  intros [Hf H]. unfold fixed_fields. destruct (f_is_variable f) eqn:Ev.
  - destruct H as (-> & -> & ->). rewrite filter_cons_False by congruence.
    split; [|split; [simpl; by rewrite Z.add_0_r, u32_small|split; [|done]]].
    + intros [|k] g; [intros [= <-]|done]. simpl. by rewrite Z.add_0_r, u32_small.
    + intros [|k] g; [done|done].
  - rewrite filter_cons_True by done.
    destruct (IH _ (u32_range _) H) as (H1 & H2 & H3 & H4).
    split; [|split; [|split; [|done]]].
    + intros [|k] g; simpl; [intros [= <-]; by rewrite Z.add_0_r, u32_small|].
      intros Hg. rewrite (H1 k g Hg), u32_add_l. by rewrite <- Z.add_assoc.
    + rewrite H2, u32_add_l. simpl. by rewrite <- Z.add_assoc.
    + intros [|k] g Hg Hv; simpl in Hg; [congruence|]. f_equal. by eapply H3.
Qed.

Definition laid_struct (s : StructDef) : Prop := laid 0 (s_fields s) (s_min_size s) (s_has_variable s).

Lemma laid_struct_spec s : laid_struct s -> struct_laid s.
Proof.
  intros H. apply laid_spec in H as (H1 & H2 & H3 & H4); [|lia]. by constructor.
Qed.

(** ** Nested names *)

Lemma str_index_app c s r n : str_index c s = Some n -> str_index c (s +:+ r) = Some n.
Proof.
  revert n. induction s as [|d s IH]; intros n; [done|]. rewrite str_app_cons. simpl.
  destruct (Ascii.eqb d c); [done|]. destruct (str_index c s) as [m|]; [|done].
  intros H. by rewrite (IH m).
Qed.

Lemma str_index_split c s n :
  str_index c s = Some n ->
  str_index c (str_take n s) = None /\ s = str_take n s +:+ String c (str_drop (S n) s) /\
  String.length (str_take n s) = n.
Proof.
  revert n. induction s as [|d s IH]; intros n; [done|]. simpl.
  destruct (Ascii.eqb d c) eqn:E.
  - intros [= <-]. apply Ascii.eqb_eq in E as ->. by destruct s.
  - destruct (str_index c s) as [m|]; [|done]. intros [= <-].
    destruct (IH m eq_refl) as (H1 & H2 & H3). simpl str_take. rewrite str_app_cons.
    simpl. rewrite E, H1, H3. split; [done|split; [|done]]. f_equal. exact H2.
Qed.

Lemma str_index_none_app c s r :
  str_index c s = None -> str_index c (s +:+ String c r) = Some (String.length s).
Proof.
  induction s as [|d s IH]; simpl.
  - intros _. by rewrite Ascii.eqb_refl.
  - destruct (Ascii.eqb d c); [done|].
    destruct (str_index c s); [done|]. intros _. by rewrite IH.
Qed.

Lemma str_take_whole s r : str_take (String.length s) (s +:+ r) = s.
Proof. induction s as [|c s IH]; [by destruct r|]. rewrite str_app_cons. simpl. by rewrite IH. Qed.

Lemma str_take_app_le n s r :
  (String.length s <= n)%nat -> str_take n (s +:+ r) = s +:+ str_take (n - String.length s) r.
Proof.
  revert n. induction s as [|c s IH]; intros n Hn; simpl in Hn.
  - by rewrite Nat.sub_0_r.
  - destruct n as [|n]; [lia|]. rewrite !str_app_cons. simpl. by rewrite IH by lia.
Qed.

Lemma parse_names_inv name a b t r :
  parse_nested_field_names name a b = Done (t, r) ->
  str_index "." t = None /\ (String.length t < a)%nat.
Proof.
  unfold parse_nested_field_names. destruct (str_index "." name) as [n|] eqn:E; [|done].
  destruct (Nat.leb_spec a n); [done|]. destruct (Nat.leb _ _); [done|].
  intros H'. apply (inj Done) in H' as [= <- _].
  destruct (str_index_split _ _ _ E) as (? & _ & ->). split; [done|lia].
Qed.

(** Indexing a nested name keeps its type. *)
Lemma parse_names_indexed t x t' r' a b :
  str_index "." t = None -> (String.length t < 64)%nat ->
  parse_nested_field_names (str_take 127 (t +:+ "." +:+ x)) a b = Done (t', r') ->
  t' = t /\ r' = str_take (126 - String.length t) x.
Proof.
  intros Hd Hl. rewrite str_take_app_le by lia.
  replace (127 - String.length t)%nat with (S (126 - String.length t)) by lia.
  rewrite str_app_cons, str_app_nil. cbn [str_take]. unfold parse_nested_field_names.
  rewrite str_index_none_app by done. destruct (Nat.leb _ _); [done|].
  rewrite str_drop_S_app. destruct (Nat.leb_spec b (String.length (str_take (126 - String.length t) x))); [done|].
  rewrite str_take_whole. intros H'. apply (inj Done) in H' as [= <- <-]. split; [done|].
  by rewrite str_take_all by lia.
Qed.

(** ** One field *)

Lemma u32_mul_l a b : u32 a *32 b = a *32 b.
Proof. unfold u32. by rewrite Zmult_mod_idemp_l. Qed.

(** Where element [i] of an array of structs of [m] bytes starts. *)
Definition element (offset m i : Z) : Z := offset +32 (i *32 m).

Lemma element_next offset m i : element offset m i +32 m = element offset m (i + 1).
Proof.
  unfold element. rewrite u32_add_l, !u32_add_r.
  replace (offset + i *32 m + m) with (i *32 m + (offset + m)) by lia.
  rewrite u32_add_l. f_equal. lia.
Qed.

Lemma element_wrap offset m i n : element offset m (u32 i + n) = element offset m (i + n).
Proof. unfold element. by rewrite <- u32_mul_l, u32_add_l, u32_mul_l. Qed.

Section Field.
Context (structs : list StructDef).

(** What the theorems need of the structs a field may refer to. *)
Definition nested_laid (f : Field) : Prop :=
  f_type f = FIELD_TYPE_NESTED -> forall t r s, parse_nested_field_names (f_name f) 64 64 = Done (t, r) ->
  find_struct_by_name structs t = Some s -> laid_struct s.

Lemma expand_nested_laid nested expanded base out t s :
  expand_nested_field structs nested expanded base = Done out ->
  (forall t' r', parse_nested_field_names (f_name nested) 64 64 = Done (t', r') -> t' = t) ->
  find_struct_by_name structs t = Some s -> laid_struct s ->
  exists added, out = expanded ++ added /\ laid (u32 base) added (base +32 s_min_size s) (s_has_variable s).
Proof.
  intros H Ht Hs Hl. unfold expand_nested_field in H.
  apply outcome_bind_Done_inv in H as ([t' r'] & Hp & H). apply Ht in Hp as ->. rewrite Hs in H.
  apply (inj Done) in H as <-. eexists. split; [done|].
  apply (laid_shift r' base) in Hl. by rewrite Z.add_0_r in Hl.
Qed.

Lemma expand_repeat_laid f t r s offset n idx expanded out :
  parse_nested_field_names (f_name f) 64 64 = Done (t, r) ->
  find_struct_by_name structs t = Some s -> laid_struct s ->
  s_has_variable s = false \/ n = 1%nat -> (0 < n)%nat ->
  expand_repeat structs f t r offset (s_min_size s) n idx expanded = Done out ->
  exists added, out = expanded ++ added /\
    laid (element offset (s_min_size s) idx) added (element offset (s_min_size s) (idx + Z.of_nat n))
      (s_has_variable s).
Proof.
  intros Hp Hs Hl. revert idx expanded. induction n as [|n IH]; intros idx expanded Hv Hn H; [lia|].
  cbn [expand_repeat] in H. apply outcome_bind_Done_inv in H as (e1 & H1 & H).
  destruct (parse_names_inv _ _ _ _ _ Hp) as [Hdot Hlen].
  apply (expand_nested_laid _ _ _ _ t s) in H1 as (a1 & -> & L1); [| |done|done].
  2:{ intros t' r'. destruct (f_is_array f); cbn [set_name set_scalar f_name].
      - intros H'. by apply parse_names_indexed in H' as [-> _].
      - rewrite Hp. by intros [= <- _]. }
  rewrite u32_idemp in L1. fold (element offset (s_min_size s) idx) in L1. rewrite element_next in L1.
  destruct n as [|n].
  - simpl in H. apply (inj Done) in H as <-. by exists a1.
  - destruct Hv as [Hv|]; [|done].
    apply IH in H as (a2 & -> & L2); [|by left|lia]. exists (a1 ++ a2).
    split; [by rewrite app_assoc|]. rewrite Hv in *. eapply laid_app; [exact L1|].
    rewrite element_wrap in L2. rewrite <- (Z.add_0_r (idx +32 1)), element_wrap, Z.add_0_r in L2.
    by replace (idx + Z.of_nat (S (S n))) with (idx + 1 + Z.of_nat (S n)) by lia.
Qed.

(** The fields that one element adds. *)
Lemma expand_nested_shape nested expanded base out t r s :
  expand_nested_field structs nested expanded base = Done out ->
  (forall t' r', parse_nested_field_names (f_name nested) 64 64 = Done (t', r') -> t' = t /\ r' = r) ->
  find_struct_by_name structs t = Some s ->
  map shape out = map shape expanded ++ map shape (map (element_field r) (s_fields s)).
Proof.
  intros H Ht Hs. unfold expand_nested_field in H.
  apply outcome_bind_Done_inv in H as ([t' r'] & Hp & H). apply Ht in Hp as [-> ->]. rewrite Hs in H.
  apply (inj Done) in H as <-. rewrite map_app, !map_map. done.
Qed.

Lemma expand_repeat_shape f t r s offset m n idx expanded out :
  parse_nested_field_names (f_name f) 64 64 = Done (t, r) -> find_struct_by_name structs t = Some s ->
  0 <= idx -> idx + Z.of_nat n <= 2 ^ 32 ->
  expand_repeat structs f t r offset m n idx expanded = Done out ->
  map shape out = map shape expanded ++
    map shape (seqZ idx (Z.of_nat n) ≫= fun i => map (element_field (element_name f t r i)) (s_fields s)).
Proof.
  intros Hp Hs. destruct (parse_names_inv _ _ _ _ _ Hp) as [Hdot Hlen].
  revert idx expanded. induction n as [|n IH]; intros idx expanded Hi Hn H; cbn [expand_repeat] in H.
  { apply (inj Done) in H as <-. by rewrite app_nil_r. }
  apply outcome_bind_Done_inv in H as (e & H1 & H).
  eapply (expand_nested_shape _ _ _ _ t (element_name f t r idx)) in H1; [| |exact Hs].
  2:{ intros t' r'. unfold element_name. destruct (f_is_array f); cbn [set_name set_scalar f_name].
      - by apply parse_names_indexed.
      - rewrite Hp. by intros [= <- <-]. }
  rewrite seqZ_cons by lia. replace (Z.pred (Z.of_nat (S n))) with (Z.of_nat n) by lia.
  cbn [mbind list_bind]. rewrite map_app, app_assoc, <- H1. destruct n as [|n].
  - cbn [expand_repeat] in H. apply (inj Done) in H as <-. by rewrite app_nil_r.
  - rewrite <- (u32_small (Z.succ idx)) by lia. apply IH; [apply u32_range|rewrite u32_small; lia|exact H].
Qed.

Lemma flatten_field_shape sname st f st' :
  f_array_size f < 2 ^ 32 -> flatten_field structs sname st f = Done st' ->
  map shape (fl_expanded st') = map shape (fl_expanded st) ++ map shape (expansion structs f).
Proof.
  intros Ha H. unfold flatten_field in H. destruct (fl_variable_seen st); [done|].
  unfold expansion. fold (elements f) in H. destruct (_ =? 0); [done|].
  destruct (decide (f_type f = FIELD_TYPE_NESTED)) as [Ht|Ht].
  - apply outcome_bind_Done_inv in H as ([t r] & Hp & H). rewrite Hp.
    destruct (find_struct_by_name structs t) as [s|] eqn:Hs; [|done].
    destruct (s_has_variable s && _); [done|].
    apply outcome_bind_Done_inv in H as (e & He & H). apply (inj Done) in H as <-. cbn [fl_expanded].
    assert (elements f < 2 ^ 32) by (unfold elements; destruct (f_is_array f); lia).
    destruct (Z.le_gt_cases 0 (elements f)).
    + eapply expand_repeat_shape in He; [|done..|lia]. by rewrite Z2Nat.id in He.
    + rewrite seqZ_nil by lia. replace (Z.to_nat (elements f)) with 0%nat in He by lia.
      cbn [expand_repeat] in He. apply (inj Done) in He as <-. by rewrite app_nil_r.
  - destruct (f_is_array f); [done|].
    destruct (f_is_variable f); apply (inj Done) in H as <-; cbn [fl_expanded]; by rewrite map_app.
Qed.

Lemma flatten_fields_shape sname fs st st' :
  Forall (fun f => f_array_size f < 2 ^ 32) fs -> flatten_fields structs sname fs st = Done st' ->
  map shape (fl_expanded st') = map shape (fl_expanded st) ++ map shape (fs ≫= expansion structs).
Proof.
  intros Hfs. revert st. induction Hfs as [|f fs Ha _ IH]; intros st H; simpl in H.
  - apply (inj Done) in H as <-. by rewrite app_nil_r.
  - apply outcome_bind_Done_inv in H as (st1 & H1 & H). rewrite (IH _ H), (flatten_field_shape _ _ _ _ Ha H1).
    cbn [mbind list_bind]. by rewrite map_app, app_assoc.
Qed.

Definition laid_state (st : flat_state) : Prop :=
  0 <= fl_offset st < 2 ^ 32 /\ laid 0 (fl_expanded st) (fl_offset st) (fl_variable_seen st).

Lemma flatten_field_laid sname st f st' :
  laid_state st -> nested_laid f -> 0 <= f_array_size f ->
  flatten_field structs sname st f = Done st' -> laid_state st'.
Proof.
  intros [Hr Hst] Hf Ha H. unfold flatten_field in H.
  destruct (fl_variable_seen st); [done|].
  set (repeat := if f_is_array f then f_array_size f else 1) in *.
  assert (Hrep : 0 <= repeat) by (subst repeat; destruct (f_is_array f); lia).
  destruct (Z.eqb_spec repeat 0) as [|Hr0]; [done|].
  destruct (decide (f_type f = FIELD_TYPE_NESTED)) as [Ht|Ht].
  - apply outcome_bind_Done_inv in H as ([t r] & Hp & H).
    destruct (find_struct_by_name structs t) as [s|] eqn:Hs; [|done].
    destruct (s_has_variable s && (1 <? repeat)) eqn:Hv; [done|].
    apply outcome_bind_Done_inv in H as (e & He & H). apply (inj Done) in H as <-.
    assert (Hl : laid_struct s) by (by eapply Hf).
    eapply expand_repeat_laid in He as (added & -> & L); [|done..| |lia].
    2:{ destruct (s_has_variable s); [right|by left]. apply Z.ltb_ge in Hv. lia. }
    unfold element in L. rewrite Z.mul_0_l, Z2Nat.id, Z.add_0_l in L by lia.
    change (u32 0) with 0 in L. rewrite Z.add_0_r, u32_small, (Z.mul_comm repeat) in L by done.
    split; cbn; [apply u32_range|]. by eapply laid_app.
  - destruct (f_is_array f); [done|].
    assert (Hone : forall v, f_is_variable f = v ->
      laid (fl_offset st) [set_offset f (fl_offset st)]
        (if v then fl_offset st else fl_offset st +32 f_size f) v).
    { intros v Hv. split; [done|]. cbn [set_offset f_is_variable]. rewrite Hv. by destruct v. }
    destruct (f_is_variable f); apply (inj Done) in H as <-; split; cbn; try done;
      try apply u32_range; (eapply laid_app; [done|]); [by apply (Hone true)|by apply (Hone false)].
Qed.

Lemma flatten_fields_laid sname fs st st' :
  laid_state st -> Forall (fun f => nested_laid f /\ 0 <= f_array_size f) fs ->
  flatten_fields structs sname fs st = Done st' -> laid_state st'.
Proof.
  intros Hst Hfs. revert st Hst. induction Hfs as [|f fs [Hf Ha] _ IH]; intros st Hst H; simpl in H.
  - by apply (inj Done) in H as <-.
  - apply outcome_bind_Done_inv in H as (st1 & H1 & H). eapply IH; [|exact H].
    by eapply flatten_field_laid.
Qed.
End Field.

(** ** All structs *)

(** [array_size] is a [uint32_t]. *)
Definition array_sizes_ok (s : StructDef) : Prop := Forall (fun f => 0 <= f_array_size f < 2 ^ 32) (s_fields s).

Lemma find_struct_app done_ rest t :
  existsb (String.eqb t) (map s_name done_) = true ->
  exists s, find_struct_by_name (done_ ++ rest) t = Some s /\ In s done_.
Proof.
  unfold find_struct_by_name. induction done_ as [|s d IH]; [done|]. simpl.
  rewrite String.eqb_sym. destruct (String.eqb (s_name s) t); [intros _; exists s; auto|].
  intros H. destruct (IH H) as (s' & ? & ?). exists s'. auto.
Qed.

(** The current struct sees the finished ones first. *)
Lemma nested_declared_laid done_ s rest f :
  Forall laid_struct done_ -> nested_declared (map s_name done_) f = true ->
  nested_laid (done_ ++ s :: rest) f.
Proof.
  intros Hd Hf Ht t r s' Hp Hs. unfold nested_declared in Hf.
  rewrite decide_True, Hp in Hf by done.
  destruct (find_struct_app _ (s :: rest) t Hf) as (s1 & Hs1 & Hin).
  rewrite Hs in Hs1. apply (inj Some) in Hs1 as <-. rewrite Forall_forall in Hd.
  by apply Hd, list_elem_of_In.
Qed.

(** Only the finished structs count for a field that refers to one of them. *)
Lemma expansion_declared done_ rest f :
  nested_declared (map s_name done_) f = true -> expansion (done_ ++ rest) f = expansion done_ f.
Proof.
  intros Hf. unfold nested_declared in Hf. unfold expansion. destruct (decide _); [|done].
  destruct (parse_nested_field_names _ _ _) as [[t r]| | |]; try done.
  enough (find_struct_by_name (done_ ++ rest) t = find_struct_by_name done_ t) as -> by done.
  unfold find_struct_by_name. clear -Hf. induction done_ as [|s d IH]; [done|]. simpl in Hf |- *.
  rewrite String.eqb_sym in Hf. destruct (String.eqb (s_name s) t); [done|]. by apply IH.
Qed.

Lemma expansions_declared done_ rest fs :
  forallb (nested_declared (map s_name done_)) fs = true ->
  fs ≫= expansion (done_ ++ rest) = fs ≫= expansion done_.
Proof.
  induction fs as [|f fs IH]; [done|]. cbn [forallb mbind list_bind]. intros [Hf Hfs]%andb_true_iff.
  by rewrite expansion_declared, IH.
Qed.

(** What the loop owes the structs it has still to flatten. *)
Definition flattened (done_ todo out : list StructDef) : Prop :=
  take (length done_) out = done_ /\ length out = (length done_ + length todo)%nat /\
  forall k s s', todo !! k = Some s -> out !! (length done_ + k)%nat = Some s' ->
    expands (take (length done_ + k) out) s s'.

Lemma flattened_cons done_ s s' todo out :
  expands done_ s s' -> flattened (done_ ++ [s']) todo out -> flattened done_ (s :: todo) out.
Proof.
  unfold flattened. rewrite length_app. cbn [length]. intros Hs (Hd & Hl & H).
  assert (take (length done_) out = done_) as Hd'.
  { apply (f_equal (take (length done_))) in Hd. rewrite take_take, take_app_length in Hd.
    by rewrite Nat.min_l in Hd by lia. }
  split_and!; [done|lia|]. intros [|k] t t' Ht Ht'.
  - injection Ht as <-. rewrite Nat.add_0_r in *. rewrite Hd'.
    assert (out !! length done_ = Some s') as E.
    { rewrite <- (lookup_take_lt out (length done_ + 1)) by lia. rewrite Hd. by apply list_lookup_middle. }
    rewrite E in Ht'. by injection Ht' as <-.
  - replace (length done_ + S k)%nat with (length done_ + 1 + k)%nat in * by lia. by apply H.
Qed.

(** One struct of the loop: laid out, and the expansion of its declaration. *)
Lemma flatten_struct_laid done_ s todo structs' :
  Forall laid_struct done_ -> forallb (nested_declared (map s_name done_)) (s_fields s) = true -> array_sizes_ok s ->
  flatten_struct (done_ ++ s :: todo) (length done_) = Done structs' ->
  exists s', structs' = done_ ++ s' :: todo /\ laid_struct s' /\ expands done_ s s'.
Proof.
  intros Hd Hs Has H1. unfold flatten_struct in H1. rewrite list_lookup_middle in H1 by done.
  apply outcome_bind_Done_inv in H1 as (st & Hst & H1). apply (inj Done) in H1 as <-.
  rewrite insert_app_r_alt, Nat.sub_diag in Hst |- * by lia. cbn in Hst |- *.
  eexists. split; [done|split; [|split; [done|]]].
  - eapply flatten_fields_laid; [| |exact Hst]; [split; [simpl; lia|done]|].
    apply Forall_forall. intros f Hf. rewrite forallb_forall in Hs. split.
    + apply nested_declared_laid; [done|]. by apply Hs, list_elem_of_In.
    + unfold array_sizes_ok in Has. rewrite Forall_forall in Has. by apply Has.
  - cbn [s_fields]. apply flatten_fields_shape in Hst as ->.
    + cbn [fl_expanded map app]. by rewrite expansions_declared.
    + eapply Forall_impl; [exact Has|]. by intros f [].
Qed.

Lemma flatten_from_laid done_ todo out :
  Forall laid_struct done_ -> declared_before (map s_name done_) todo = true ->
  Forall array_sizes_ok todo ->
  flatten_from (length todo) (length done_) (done_ ++ todo) = Done out ->
  Forall laid_struct out /\ flattened done_ todo out.
Proof.
  revert done_. induction todo as [|s todo IH]; intros done_ Hd Hdecl Ha H; simpl in H.
  - apply (inj Done) in H as <-. rewrite app_nil_r. split; [done|]. split_and!; [by rewrite firstn_all|simpl; lia|done].
  - apply outcome_bind_Done_inv in H as (structs' & H1 & H).
    simpl in Hdecl. apply andb_true_iff in Hdecl as [Hs Hdecl].
    apply Forall_cons in Ha as [Has Ha].
    apply flatten_struct_laid in H1 as (s' & -> & Hl & Hx); [|done..]. pose proof (proj1 Hx) as Hn.
    change (done_ ++ s' :: todo) with (done_ ++ [s'] ++ todo) in H. rewrite app_assoc in H.
    replace (S (length done_)) with (length (done_ ++ [s'])) in H by (rewrite length_app; simpl; lia).
    apply IH in H as [HF Hout]; [|by apply Forall_app; auto|by rewrite map_app; cbn [map]; rewrite Hn|done].
    split; [done|]. by apply flattened_cons with s'.
Qed.

(** A struct of fewer than 2^32 - 8 bytes has its loads in range. *)
Lemma sizes_take fs k f :
  Forall (fun f => 0 <= f_size f) fs -> fs !! k = Some f -> 0 <= sizes (take k fs) <= sizes fs.
Proof.
  intros H. revert k. induction H as [|g fs Hg H IH]; intros k; [done|].
  assert (Hs : 0 <= sizes fs) by (clear -H; induction H; simpl; lia).
  destruct k as [|k]; simpl; [lia|]. intros Hk. specialize (IH k Hk). lia.
Qed.

Lemma laid_in_range s :
  struct_laid s -> Forall (fun f => 0 <= f_size f) (s_fields s) -> sizes (s_fields s) < 2 ^ 32 - 8 ->
  offsets_in_range s.
Proof.
  intros [Ho _ _ _] Hf Hs. apply Forall_lookup. intros k f Hk. rewrite (Ho k f Hk).
  pose proof (sizes_take _ _ _ Hf Hk). rewrite u32_small by lia. lia.
Qed.

(** ** Totality *)

Lemma parse_names_reports name a b : reports (parse_nested_field_names name a b).
Proof. unfold parse_nested_field_names. by repeat case_match. Qed.

Lemma expand_repeat_reports structs f t r o m n idx e :
  reports (expand_repeat structs f t r o m n idx e).
Proof.
  revert idx e. induction n as [|n IH]; intros idx e; [done|]. cbn [expand_repeat].
  apply reports_bind; [|auto]. apply reports_bind; [apply parse_names_reports|].
  intros [] _. by case_match.
Qed.

Lemma flatten_field_reports structs n st f : reports (flatten_field structs n st f).
Proof.
  unfold flatten_field. destruct (fl_variable_seen st); [done|].
  destruct (_ =? 0); [done|]. destruct (decide _).
  - apply reports_bind; [apply parse_names_reports|]. intros [t r] _.
    destruct (find_struct_by_name _ _); [|done]. destruct (_ && _); [done|].
    apply reports_bind; [apply expand_repeat_reports|done].
  - by repeat case_match.
Qed.

Lemma flatten_fields_reports structs n fs st : reports (flatten_fields structs n fs st).
Proof.
  revert st. induction fs as [|f fs IH]; intros st; [done|].
  apply reports_bind; [apply flatten_field_reports|auto].
Qed.

Lemma flatten_from_reports n i structs :
  (i + n = length structs)%nat -> reports (flatten_from n i structs).
Proof.
  revert i structs. induction n as [|n IH]; intros i structs Hi; [done|]. cbn [flatten_from].
  apply reports_bind.
  - unfold flatten_struct. destruct (lookup_lt_is_Some_2 structs i ltac:(lia)) as [s ->].
    apply reports_bind; [apply flatten_fields_reports|done].
  - intros structs' H. apply IH. unfold flatten_struct in H. destruct (structs !! i); [|done].
    apply outcome_bind_Done_inv in H as (st & _ & H). apply (inj Done) in H as <-.
    rewrite length_insert. lia.
Qed.

Lemma flatten_structs_reports structs : reports (flatten_structs structs).
Proof. by apply flatten_from_reports. Qed.

(** ** Properties *)

(** C19: struct layout.  When every struct refers only to structs declared before
    it, flattening keeps the structs in order and gives each the expansion of
    its declaration: a plain field stands for itself and a nested field for
    the fields of its struct as flattened before, under the name of the field,
    once for every element of an array.  Each field of the result has the sum
    of the sizes of the fields before it as offset (modulo 2^32), at most the
    last is of variable length, and [min_size] is the size of the fixed
    fields. *)
Theorem flatten_structs_layout structs out :
  declared_before [] structs = true -> Forall array_sizes_ok structs ->
  flatten_structs structs = Done out ->
  length out = length structs /\
  forall k declared laid, structs !! k = Some declared -> out !! k = Some laid ->
    expands (take k out) declared laid /\ struct_laid laid.
Proof.
  intros Hd Ha H.
  destruct (flatten_from_laid [] structs out (Forall_nil_2 _) Hd Ha H) as [HF (_ & Hl & Hx)].
  split; [done|]. intros k s s' Hs Hs'. split; [by apply (Hx k)|].
  apply laid_struct_spec. rewrite Forall_lookup in HF. by apply (HF k).
Qed.

(** [Header { uint8 kind; uint16 len; }  Frame { uint32 magic; Header h\[2\]; varbytes data; }] *)
Definition header_struct : StructDef :=
  mkStructDef "Header"
    [ mkField "kind" FIELD_TYPE_UINT8 0 1 ENDIAN_BIG false false 1;
      mkField "len" FIELD_TYPE_UINT16 0 2 ENDIAN_BIG false false 1 ] 0 false.

Definition frame_struct : StructDef :=
  mkStructDef "Frame"
    [ mkField "magic" FIELD_TYPE_UINT32 0 4 ENDIAN_BIG false false 1;
      mkField "Header.h" FIELD_TYPE_NESTED 0 0 ENDIAN_BIG false true 2;
      mkField "data" FIELD_TYPE_VARBYTES 0 0 ENDIAN_BIG true false 1 ] 0 true.

Definition flat_demo : list StructDef :=
  match flatten_structs [header_struct; frame_struct] with Done l => l | _ => [] end.

Example flat_demo_offsets :
  map (fun s => (s_name s, s_min_size s, map (fun f => (f_name f, f_offset f)) (s_fields s))) flat_demo =
  [ ("Header", 3, [("kind", 0); ("len", 1)]);
    ("Frame", 10, [("magic", 0); ("h[0].kind", 4); ("h[0].len", 5); ("h[1].kind", 7);
                   ("h[1].len", 8); ("data", 10)]) ]%string.
Proof. vm_compute. reflexivity. Qed.

Lemma flatten_structs_layout_witness :
  exists header frame, flat_demo = [header; frame] /\
    expands [header] frame_struct frame /\ length (s_fields frame) = 6%nat /\ struct_laid frame.
Proof.
  destruct (flatten_structs_layout [header_struct; frame_struct] flat_demo) as [_ H].
  - vm_compute. reflexivity.
  - repeat constructor; simpl; lia.
  - vm_compute. reflexivity.
  - do 2 eexists. split; [vm_compute; reflexivity|].
    destruct (H 1%nat frame_struct _ eq_refl ltac:(vm_compute; reflexivity)) as [Hx Hl].
    split; [exact Hx|split; [reflexivity|exact Hl]].
Defined.

(** Layout is wrong for a struct used before its declaration: it is counted
    as zero bytes, so that in [Frame { Header h; uint32 magic; }] followed by
    [Header] the fields [h.kind], [h.len] and [magic] are all put at offset 0,
    and no error is reported. *)
Theorem forward_reference_overlaps :
  exists out s, flatten_structs
      [ mkStructDef "Frame"
          [ mkField "Header.h" FIELD_TYPE_NESTED 0 0 ENDIAN_BIG false false 1;
            mkField "magic" FIELD_TYPE_UINT32 0 4 ENDIAN_BIG false false 1 ] 0 false;
        header_struct ] = Done out /\
    find_struct_by_name out "Frame" = Some s /\
    map (fun f => (f_name f, f_offset f)) (s_fields s) = [("h.kind", 0); ("h.len", 0); ("magic", 0)]%string /\
    s_min_size s = 4.
Proof. do 2 eexists. repeat split; vm_compute; reflexivity. Qed.
