(* ===== verification/Protocol.v ===== *)
(** * Protocol runtime (src/src/runtime/protocol.c)

    Matching a packet against the filters of a protocol, in the three byte
    order modes.  The only state the matcher writes is
    [proto->detected_endian]; it is passed explicitly.  [auto_step] models the
    compare-and-swap detection of several threads that share one
    [ProtocolDef]. *)

From S2P Require Import Prelude Endian PdefTypes Executor Compiler CompilerCorrect.

(** ** Lookup *)

Definition protocol_find_struct (proto : option ProtocolDef) (name : option string)
    : option StructDef :=
  match proto, name with
  | Some p, Some n => find (fun s => String.eqb (s_name s) n) (pd_structs p)
  | _, _ => None
  end.

Fixpoint find_constant (entries : list ConstantEntry) (name : string) : option Z :=
  match entries with
  | [] => None
  | e :: next => if String.eqb (c_name e) name then Some (c_value e) else find_constant next name
  end.

Definition protocol_find_constant (proto : option ProtocolDef) (name : option string) : option Z :=
  match proto, name with
  | Some p, Some n => find_constant (pd_constants p) n
  | _, _ => None
  end.

(** ** Matching *)

(** [__sync_val_compare_and_swap(&detected, UNKNOWN, new)]: the new content. *)
Definition cas_endian (detected new : EndianType) : EndianType :=
  if decide (detected = ENDIAN_TYPE_UNKNOWN) then new else detected.

Definition code_be (rule : FilterRule) : option (list Instruction) * Z :=
  (match r_bytecode_be rule with Some c => Some c | None => r_bytecode rule end,
   if r_bytecode_be_len rule =? 0 then r_bytecode_len rule else r_bytecode_be_len rule).

Definition code_le (rule : FilterRule) : option (list Instruction) * Z :=
  (match r_bytecode_le rule with Some c => Some c | None => r_bytecode rule end,
   if r_bytecode_le_len rule =? 0 then r_bytecode_len rule else r_bytecode_le_len rule).

Definition run_code (packet : list byte) (packet_len : Z) (c : option (list Instruction) * Z)
    : exec_result :=
  execute_bytecode (Some packet) packet_len (fst c) (snd c).

(** The packet, rule and protocol pointers are not null here; the callers
    check them. *)
Definition try_match_with_endian (packet : list byte) (packet_len : Z) (rule : FilterRule)
    (mode : EndianMode) (detected : EndianType) : exec_result * EndianType :=
  match mode with
  | ENDIAN_MODE_BIG => (run_code packet packet_len (code_be rule), detected)
  | ENDIAN_MODE_LITTLE => (run_code packet packet_len (code_le rule), detected)
  | ENDIAN_MODE_AUTO =>
      if decide (detected = ENDIAN_TYPE_BIG) then
        (run_code packet packet_len (code_be rule), detected)
      else if decide (detected = ENDIAN_TYPE_LITTLE) then
        (run_code packet packet_len (code_le rule), detected)
      else
        match run_code packet packet_len (code_be rule) with
        | Ret true => (Ret true, cas_endian detected ENDIAN_TYPE_BIG)
        | Ret false =>
            match run_code packet packet_len (code_le rule) with
            | Ret true => (Ret true, cas_endian detected ENDIAN_TYPE_LITTLE)
            | r => (r, detected)
            end
        | r => (r, detected)
        end
  end.

(** The offset loop of a sliding-window filter, [n] iterations before
    [search_limit]. *)
Fixpoint sliding_loop (n : nat) (offset : Z) (packet : list byte) (packet_len : Z)
    (rule : FilterRule) (mode : EndianMode) (detected : EndianType) : exec_result * EndianType :=
  match n with
  | O => (Ret false, detected)
  | S n' =>
      let remaining := packet_len -32 offset in
      if remaining <? r_min_packet_size rule then (Ret false, detected)
      else
        match try_match_with_endian (drop (Z.to_nat offset) packet) remaining rule mode detected with
        | (Ret false, detected') =>
            sliding_loop n' (offset +32 1) packet packet_len rule mode detected'
        | r => r
        end
  end.

Definition search_limit (rule : FilterRule) (packet_len : Z) : Z :=
  if (0 <? r_sliding_max_offset rule) && (r_sliding_max_offset rule <? packet_len)
  then r_sliding_max_offset rule else packet_len.

Definition match_rule (packet : list byte) (packet_len : Z) (rule : FilterRule)
    (mode : EndianMode) (detected : EndianType) : exec_result * EndianType :=
  if r_sliding_window rule then
    sliding_loop (Z.to_nat (search_limit rule packet_len)) 0 packet packet_len rule mode detected
  else try_match_with_endian packet packet_len rule mode detected.

(** The loop over [proto->filters]. *)
Fixpoint match_filters (packet : list byte) (packet_len : Z) (filters : list FilterRule)
    (mode : EndianMode) (detected : EndianType) : exec_result * EndianType :=
  match filters with
  | [] => (Ret false, detected)
  | rule :: rest =>
      match match_rule packet packet_len rule mode detected with
      | (Ret false, detected') => match_filters packet packet_len rest mode detected'
      | r => r
      end
  end.

Definition set_detected (p : ProtocolDef) (d : EndianType) : ProtocolDef :=
  mkProtocolDef (pd_name p) (pd_ports p) (pd_port_count p) (pd_default_endian p) (pd_structs p)
    (pd_filters p) (pd_constants p) (pd_endian_mode p) d (pd_endian_writeback_done p)
    (pd_pdef_file_path p).

(** [port] is unused by the code. *)
Definition packet_filter_match (packet : option (list byte)) (packet_len port : Z)
    (proto : option ProtocolDef) : exec_result * option ProtocolDef :=
  match packet, proto with
  | Some pkt, Some p =>
      let '(r, d) := match_filters pkt packet_len (pd_filters p) (pd_endian_mode p)
                       (pd_detected_endian p) in
      (r, Some (set_detected p d))
  | _, _ => (Ret false, proto)
  end.

(** ** What the matcher needs from a compiled rule

    The interface between the compiler and the matcher: the two code copies
    of a rule decide two predicates on packets.  [compiled_rule_sem] shows
    that compiled rules implement it. *)

Class RuleSem (rule : FilterRule) := {
  sem_be : list byte -> bool;
  sem_le : list byte -> bool;
  sem_be_ok : forall packet packet_len, 0 <= packet_len <= Z.of_nat (length packet) ->
    run_code packet packet_len (code_be rule) = Ret (sem_be (take (Z.to_nat packet_len) packet));
  sem_le_ok : forall packet packet_len, 0 <= packet_len <= Z.of_nat (length packet) ->
    run_code packet packet_len (code_le rule) = Ret (sem_le (take (Z.to_nat packet_len) packet));
}.

(** What a rule in mode [mode] with detection state [d] accepts. *)
Definition sem_mode {rule} (Sm : RuleSem rule) (mode : EndianMode) (d : EndianType)
    (pkt : list byte) : bool :=
  match mode, d with
  | ENDIAN_MODE_BIG, _ | ENDIAN_MODE_AUTO, ENDIAN_TYPE_BIG => sem_be pkt
  | ENDIAN_MODE_LITTLE, _ | ENDIAN_MODE_AUTO, ENDIAN_TYPE_LITTLE => sem_le pkt
  | ENDIAN_MODE_AUTO, ENDIAN_TYPE_UNKNOWN => sem_be pkt || sem_le pkt
  end.

(** The detection state after a successful match. *)
Definition detect {rule} (Sm : RuleSem rule) (mode : EndianMode) (d : EndianType)
    (pkt : list byte) : EndianType :=
  match mode, d with
  | ENDIAN_MODE_AUTO, ENDIAN_TYPE_UNKNOWN =>
      if sem_be pkt then ENDIAN_TYPE_BIG else ENDIAN_TYPE_LITTLE
  | _, _ => d
  end.

Lemma try_match_sem rule (Sm : RuleSem rule) packet packet_len mode d :
  0 <= packet_len <= Z.of_nat (length packet) ->
  try_match_with_endian packet packet_len rule mode d =
    let pkt := take (Z.to_nat packet_len) packet in
    (Ret (sem_mode Sm mode d pkt), if sem_mode Sm mode d pkt then detect Sm mode d pkt else d).
Proof.
  intros Hp. unfold try_match_with_endian. rewrite (sem_be_ok packet packet_len Hp).
  rewrite (sem_le_ok packet packet_len Hp). cbv zeta.
  set (b := sem_be _). set (l := sem_le _).
  destruct mode, d; unfold sem_mode, detect; fold b; fold l; simpl;
    by destruct b; destruct l.
Qed.

(** Offsets a sliding rule tries: below the limit, while the rest of the
    packet holds the minimal size. *)
Definition window (rule : FilterRule) (pkt : list byte) : list (list byte) :=
  if r_sliding_window rule then
    map (fun o => drop o pkt)
      (filter (fun o => r_min_packet_size rule <= Z.of_nat (length pkt) - Z.of_nat o)
         (seq 0 (Z.to_nat (search_limit rule (Z.of_nat (length pkt))))))
  else [pkt].

(** The first position at which some filter matches, with the detection state
    that match leaves behind. *)
Fixpoint first_match (rules : list { r : FilterRule & RuleSem r }) (mode : EndianMode)
    (d : EndianType) (pkt : list byte) : option EndianType :=
  match rules with
  | [] => None
  | existT r Sm :: rest =>
      match find (sem_mode Sm mode d) (window r pkt) with
      | Some w => Some (detect Sm mode d w)
      | None => first_match rest mode d pkt
      end
  end.

Lemma sliding_loop_sem rule (Sm : RuleSem rule) mode d pkt n o :
  Z.of_nat (o + n) <= Z.of_nat (length pkt) < 2 ^ 32 ->
  sliding_loop n (Z.of_nat o) pkt (Z.of_nat (length pkt)) rule mode d =
    match find (sem_mode Sm mode d)
            (map (fun o => drop o pkt)
               (filter (fun o => r_min_packet_size rule <= Z.of_nat (length pkt) - Z.of_nat o)
                  (seq o n))) with
    | Some w => (Ret true, detect Sm mode d w)
    | None => (Ret false, d)
    end.
Proof.
  revert o. induction n as [|n IH]; intros o Ho; [done|].
  cbn [sliding_loop seq]. rewrite u32_small by lia.
  destruct (Z.ltb_spec (Z.of_nat (length pkt) - Z.of_nat o) (r_min_packet_size rule)) as [Hlt|Hge].
  - replace (filter _ (o :: seq (S o) n)) with (@nil nat); [done|].
    symmetry. apply elem_of_nil_inv. intros x. rewrite list_elem_of_filter. intros [Hmin Hx].
    assert ((o <= x)%nat) by (apply elem_of_cons in Hx as [->|Hx]; [lia|apply elem_of_seq in Hx; lia]).
    lia.
  - rewrite Nat2Z.id, (try_match_sem rule Sm) by (rewrite length_drop; lia). cbv zeta.
    replace (take (Z.to_nat (Z.of_nat (length pkt) - Z.of_nat o)) (drop o pkt)) with (drop o pkt)
      by (symmetry; apply take_ge; rewrite length_drop; lia).
    rewrite filter_cons_True by lia. cbn [map find].
    destruct (sem_mode Sm mode d (drop o pkt)) eqn:Em; [done|].
    rewrite u32_small by lia. replace (Z.of_nat o + 1) with (Z.of_nat (S o)) by lia.
    apply IH. lia.
Qed.

Lemma search_limit_range rule len :
  0 <= len -> 0 <= search_limit rule len <= len.
Proof.
  intros H. unfold search_limit.
  destruct (Z.ltb_spec 0 (r_sliding_max_offset rule)), (Z.ltb_spec (r_sliding_max_offset rule) len);
    simpl; lia.
Qed.

Lemma match_rule_sem rule (Sm : RuleSem rule) mode d pkt :
  Z.of_nat (length pkt) < 2 ^ 32 ->
  match_rule pkt (Z.of_nat (length pkt)) rule mode d =
    match find (sem_mode Sm mode d) (window rule pkt) with
    | Some w => (Ret true, detect Sm mode d w)
    | None => (Ret false, d)
    end.
Proof.
  intros Hl. unfold match_rule, window.
  pose proof (search_limit_range rule (Z.of_nat (length pkt)) ltac:(lia)).
  destruct (r_sliding_window rule).
  - apply (sliding_loop_sem rule Sm mode d pkt _ 0). lia.
  - rewrite (try_match_sem rule Sm) by lia. cbv zeta.
    rewrite Nat2Z.id, (take_ge pkt) by lia. cbn [find].
    by destruct (sem_mode Sm mode d pkt).
Qed.

Lemma match_filters_sem (rules : list { r : FilterRule & RuleSem r }) mode d pkt :
  Z.of_nat (length pkt) < 2 ^ 32 ->
  match_filters pkt (Z.of_nat (length pkt)) (map (fun x => projT1 x) rules) mode d =
    match first_match rules mode d pkt with
    | Some d' => (Ret true, d')
    | None => (Ret false, d)
    end.
Proof.
  intros Hl. induction rules as [|[r Sm] rest IH]; [done|]. cbn [map projT1 match_filters first_match].
  rewrite (match_rule_sem r Sm) by done.
  by destruct (find _ _).
Qed.

(** ** Compiled rules implement the interface *)

Section CompiledSem.
Context (structs : list StructDef) (temp : TempFilterRule) (rule : FilterRule) (target : StructDef).
Hypothesis Hcompile : compile_filter_rule structs temp = Done rule.
Hypothesis Hsize : Z.of_nat (code_size (tf_conditions temp)) < 2 ^ 32.
Hypothesis Hoff : Forall offsets_in_range structs.
Hypothesis Htarget : find_target structs (tf_conditions temp) = Some target.

Lemma compiled_codes :
  code_be rule = (r_bytecode_be rule, r_bytecode_be_len rule) /\
  code_le rule = (r_bytecode_le rule, r_bytecode_le_len rule).
Proof.
  destruct (compile_filter_rule_inv _ _ _ Hsize Hcompile)
    as (t & l & _ & _ & _ & _ & Hb & _ & Hbe & Hbel & Hle & Hlel & _).
  unfold code_be, code_le. rewrite Hbe, Hb, Hle, Hbel, Hlel.
  assert (Hn : Z.of_nat (code_size (tf_conditions temp)) <> 0) by (unfold code_size; lia).
  by apply Z.eqb_neq in Hn as ->.
Qed.

Lemma compiled_runs packet packet_len :
  0 <= packet_len <= Z.of_nat (length packet) ->
  let pkt := take (Z.to_nat packet_len) packet in
  run_code packet packet_len (code_be rule) = Ret (rule_matches id target (tf_conditions temp) pkt) /\
  run_code packet packet_len (code_le rule)
    = Ret (rule_matches swap_endian_opcode target (tf_conditions temp) pkt).
Proof.
  intros Hp. destruct compiled_codes as [Hbe Hle]. unfold run_code. rewrite Hbe, Hle.
  destruct (compile_filter_rule_inv _ _ _ Hsize Hcompile)
    as (t & l & Ht & Hok & Hl & Hlen & Hb & _ & Hbeq & Hbel & Hleq & Hlel & _).
  rewrite Htarget in Ht. apply (inj Some) in Ht as <-.
  assert (Hoff' : offsets_in_range target).
  { apply find_target_In, list_elem_of_In in Htarget. by eapply Forall_forall in Htarget; [|exact Hoff]. }
  cbn [fst snd]. rewrite Hbeq, Hb, Hbel, Hleq, Hlel, map_swap_ins. split.
  - rewrite <- (map_re_op_id (l ++ _)). by apply compiled_code_runs; [apply load_variant_id|..].
  - by apply compiled_code_runs; [apply load_variant_swap|..].
Qed.

Definition compiled_rule_sem : RuleSem rule := {|
  sem_be := rule_matches id target (tf_conditions temp);
  sem_le := rule_matches swap_endian_opcode target (tf_conditions temp);
  sem_be_ok p n H := proj1 (compiled_runs p n H);
  sem_le_ok p n H := proj2 (compiled_runs p n H);
|}.
End CompiledSem.

(** ** Several threads detecting the byte order of one protocol *)

(** Where a thread is inside [try_match_with_endian] in automatic mode. *)
Inductive auto_pc :=
  | AStart                  (* about to read [detected_endian] *)
  | AFixed (big : bool)     (* has read a detected order *)
  | ARunBE | ACasBig        (* has read UNKNOWN: running code_be, then the CAS *)
  | ARunLE | ACasLittle
  | ADone (result : bool).

(** [th_be] and [th_le] are what the two codes of the rule return on the
    packet the thread is matching. *)
Record auto_thread := mkThread { th_be : bool; th_le : bool; th_pc : auto_pc }.

Definition auto_thread_step (d : EndianType) (t : auto_thread) : EndianType * auto_pc :=
  match th_pc t with
  | AStart =>
      (d, match d with
          | ENDIAN_TYPE_BIG => AFixed true
          | ENDIAN_TYPE_LITTLE => AFixed false
          | ENDIAN_TYPE_UNKNOWN => ARunBE
          end)
  | AFixed big => (d, ADone (if big then th_be t else th_le t))
  | ARunBE => (d, if th_be t then ACasBig else ARunLE)
  | ACasBig => (cas_endian d ENDIAN_TYPE_BIG, ADone true)
  | ARunLE => (d, if th_le t then ACasLittle else ADone false)
  | ACasLittle => (cas_endian d ENDIAN_TYPE_LITTLE, ADone true)
  | ADone r => (d, ADone r)
  end.

(** Any thread may take the next step. *)
Inductive auto_step : EndianType * list auto_thread -> EndianType * list auto_thread -> Prop :=
  | auto_step_at d ts i t :
      ts !! i = Some t ->
      auto_step (d, ts)
        (fst (auto_thread_step d t),
         <[i := mkThread (th_be t) (th_le t) (snd (auto_thread_step d t))]> ts).

Definition thread_ok (t : auto_thread) : Prop :=
  match th_pc t with
  | ACasBig => th_be t = true
  | ARunLE => th_be t = false
  | ACasLittle => th_be t = false /\ th_le t = true
  | ADone true => th_be t || th_le t = true
  | _ => True
  end.

Definition detected_justified (d : EndianType) (ts : list auto_thread) : Prop :=
  match d with
  | ENDIAN_TYPE_UNKNOWN => True
  | ENDIAN_TYPE_BIG => exists t, t ∈ ts /\ th_be t = true
  | ENDIAN_TYPE_LITTLE => exists t, t ∈ ts /\ th_be t = false /\ th_le t = true
  end.

Definition auto_inv (s : EndianType * list auto_thread) : Prop :=
  Forall thread_ok (snd s) /\ detected_justified (fst s) (snd s).

(** The results [th_be], [th_le] of the threads never change. *)
Lemma detected_justified_insert d ts i t pc :
  ts !! i = Some t -> detected_justified d ts ->
  detected_justified d (<[i := mkThread (th_be t) (th_le t) pc]> ts).
Proof.
  intros Hi. assert (Hmem : forall u, u ∈ ts ->
    exists u', u' ∈ <[i := mkThread (th_be t) (th_le t) pc]> ts /\ th_be u' = th_be u /\ th_le u' = th_le u).
  { intros u Hu. apply list_elem_of_lookup in Hu as [j Hj]. destruct (decide (i = j)) as [->|Hne].
    - rewrite Hi in Hj. apply (inj Some) in Hj as ->. exists (mkThread (th_be u) (th_le u) pc).
      split; [|done]. apply list_elem_of_lookup. exists j. apply list_lookup_insert_eq.
      by eapply lookup_lt_Some.
    - exists u. split; [|done]. apply list_elem_of_lookup. exists j. by rewrite list_lookup_insert_ne. }
  destruct d; simpl; [done|..].
  - intros (u & Hu & Hb). destruct (Hmem u Hu) as (u' & ? & ? & ?). exists u'. split; [done|congruence].
  - intros (u & Hu & Hb & Hl). destruct (Hmem u Hu) as (u' & ? & ? & ?).
    exists u'. split; [done|split; congruence].
Qed.

Lemma auto_inv_step s s' : auto_step s s' -> auto_inv s -> auto_inv s'.
Proof.
  intros [d ts i t Hi] [Hts Hd]. unfold auto_inv in *. cbn [fst snd] in *.
  assert (Ht : thread_ok t) by (by eapply Forall_lookup_1 in Hts).
  assert (Hin : t ∈ ts) by (apply list_elem_of_lookup; eauto).
  split.
  - apply Forall_insert; [done|]. unfold thread_ok, auto_thread_step in *.
    destruct (th_pc t) as [|[]| | | | |[]], d, (th_be t) eqn:Eb, (th_le t) eqn:El;
      simpl in *; rewrite ?Eb, ?El in *; simpl; intuition congruence.
  - apply detected_justified_insert; [done|]. unfold auto_thread_step, thread_ok in *.
    destruct (th_pc t) as [|[]| | | | |[]]; simpl; try done; unfold cas_endian;
      case_decide; simpl; try done; exists t; intuition.
Qed.

Lemma auto_step_detected s s' :
  auto_step s s' -> fst s <> ENDIAN_TYPE_UNKNOWN -> fst s' = fst s.
Proof.
  intros [d ts i t Hi] Hd. simpl in *. unfold auto_thread_step, cas_endian.
  destruct (th_pc t); simpl; try done; by case_decide.
Qed.

(** [match_filters] as a pair: the answer and the detection state. *)
Lemma match_filters_accepts (rules : list { r : FilterRule & RuleSem r }) m d pkt :
  Z.of_nat (length pkt) < 2 ^ 32 ->
  match_filters pkt (Z.of_nat (length pkt)) (map (fun x => projT1 x) rules) m d =
    (Ret (existsb (fun x => existsb (sem_mode (projT2 x) m d) (window (projT1 x) pkt)) rules),
     default d (first_match rules m d pkt)).
Proof.
  intros Hl. rewrite match_filters_sem by done.
  assert (E : existsb (fun x => existsb (sem_mode (projT2 x) m d) (window (projT1 x) pkt)) rules
              = match first_match rules m d pkt with Some _ => true | None => false end).
  { clear. induction rules as [|[r Sm] rest IH]; [done|]. cbn [existsb first_match projT1 projT2].
    assert (Ef : forall l, existsb (sem_mode Sm m d) l
                 = match find (sem_mode Sm m d) l with Some _ => true | None => false end).
    { induction l as [|x l IHl]; [done|]. simpl. destruct (sem_mode Sm m d x); [done|apply IHl]. }
    rewrite Ef. by destruct (find _ _). }
  rewrite E. by destruct (first_match _ _ _ _).
Qed.

(** ** Properties *)


Definition demo_sem : RuleSem demo_compiled :=
  compiled_rule_sem [demo_struct] demo_rule demo_compiled demo_struct eq_refl eq_refl demo_offsets eq_refl.

Definition demo_proto : ProtocolDef :=
  mkProtocolDef "demo" None 0 ENDIAN_BIG [demo_struct] [demo_compiled] [] ENDIAN_MODE_AUTO
    ENDIAN_TYPE_UNKNOWN 0 "".


(** Byte-order detection is final: in automatic mode a successful match
    leaves a detected order, an unsuccessful one leaves the state alone, and a
    detected order is never revised, whatever packets and filters follow. *)
Theorem detection_final (rules : list { r : FilterRule & RuleSem r }) d pkt b d' :
  Z.of_nat (length pkt) < 2 ^ 32 ->
  match_filters pkt (Z.of_nat (length pkt)) (map (fun x => projT1 x) rules) ENDIAN_MODE_AUTO d
    = (Ret b, d') ->
  (b = true -> d' <> ENDIAN_TYPE_UNKNOWN) /\
  (b = false -> d' = d) /\
  (d <> ENDIAN_TYPE_UNKNOWN -> d' = d).
Proof.
  intros Hl. rewrite match_filters_sem by done.
  assert (Hfm : forall d1, first_match rules ENDIAN_MODE_AUTO d pkt = Some d1 ->
    d1 <> ENDIAN_TYPE_UNKNOWN /\ (d <> ENDIAN_TYPE_UNKNOWN -> d1 = d)).
  { clear. intros d1. induction rules as [|[r Sm] rest IH]; [done|]. cbn [first_match].
    destruct (find _ _) as [w|]; [|apply IH]. intros [= <-]. unfold detect.
    destruct d; [destruct (sem_be w)|..]; done. }
  destruct (first_match rules ENDIAN_MODE_AUTO d pkt) as [d1|]; intros [= <- <-].
  - destruct (Hfm d1 eq_refl). done.
  - done.
Qed.

Lemma detection_final_witness :
  (true = true -> ENDIAN_TYPE_LITTLE <> ENDIAN_TYPE_UNKNOWN) /\
  (true = false -> ENDIAN_TYPE_LITTLE = ENDIAN_TYPE_UNKNOWN) /\
  (ENDIAN_TYPE_UNKNOWN <> ENDIAN_TYPE_UNKNOWN -> ENDIAN_TYPE_LITTLE = ENDIAN_TYPE_UNKNOWN).
Proof.
  apply (detection_final [existT demo_compiled demo_sem] ENDIAN_TYPE_UNKNOWN [x34; x12; x02; x1f]);
    vm_compute; reflexivity.
Defined.

(** C16: concurrent detection.  Threads matching different packets against the
    same protocol interleave arbitrarily; in every reachable state the
    detected order is the order in which some thread's packet really matched
    (little only for a packet that did not match big-endian), a thread
    reports a match only for a packet that matched in one of the orders, and
    from the moment an order is detected no further step changes it. *)
Theorem concurrent_detection_safe ts s s' :
  Forall (fun t => th_pc t = AStart) ts ->
  rtc auto_step (ENDIAN_TYPE_UNKNOWN, ts) s -> rtc auto_step s s' ->
  detected_justified (fst s) (snd s) /\
  (forall t, t ∈ snd s -> th_pc t = ADone true -> th_be t || th_le t = true) /\
  (fst s <> ENDIAN_TYPE_UNKNOWN -> fst s' = fst s).
Proof.
  intros Hts Hs Hs'.
  assert (Hinv : auto_inv s).
  { assert (H0 : auto_inv (ENDIAN_TYPE_UNKNOWN, ts)).
    { split; [|done]. eapply Forall_impl; [exact Hts|]. intros t Ht. simpl in Ht.
      unfold thread_ok. by rewrite Ht. }
    clear Hs' Hts. induction Hs as [|x y z Hxy _ IH]; [done|]. apply IH. by eapply auto_inv_step. }
  destruct Hinv as [Hok Hd]. split; [done|]. split.
  - intros t Ht Hpc. eapply Forall_forall in Hok; [|exact Ht]. unfold thread_ok in Hok.
    by rewrite Hpc in Hok.
  - clear -Hs'. induction Hs' as [|x y z Hxy _ IH]; [done|]. intros Hx.
    pose proof (auto_step_detected _ _ Hxy Hx) as E. rewrite <- E in Hx |- *. by apply IH.
Qed.

(** Two threads race, one packet of each order: the compare-and-swap of the
    big-endian thread wins. *)
Lemma concurrent_detection_safe_witness :
  let s := (ENDIAN_TYPE_BIG, [mkThread true false (ADone true); mkThread false true ACasLittle]) in
  detected_justified (fst s) (snd s) /\
  (forall t, t ∈ snd s -> th_pc t = ADone true -> th_be t || th_le t = true) /\
  (fst s <> ENDIAN_TYPE_UNKNOWN -> ENDIAN_TYPE_BIG = fst s).
Proof.
  intros s.
  apply (concurrent_detection_safe [mkThread true false AStart; mkThread false true AStart] s s).
  - repeat constructor.
  - do 2 (eapply rtc_l; [apply (auto_step_at _ _ 0%nat); reflexivity|]; simpl).
    do 3 (eapply rtc_l; [apply (auto_step_at _ _ 1%nat); reflexivity|]; simpl).
    eapply rtc_l; [apply (auto_step_at _ _ 0%nat); reflexivity|]. apply rtc_refl.
  - apply rtc_refl.
Defined.

Definition field_with_endian (e : Endian) (f : Field) : Field :=
  mkField (f_name f) (f_type f) (f_offset f) (f_size f) e (f_is_variable f) (f_is_array f)
    (f_array_size f).

Definition struct_with_endian (e : Endian) (s : StructDef) : StructDef :=
  mkStructDef (s_name s) (map (field_with_endian e) (s_fields s)) (s_min_size s) (s_has_variable s).

Lemma swap_get_load e f :
  swap_endian_opcode (get_load_opcode (field_with_endian e f))
  = get_load_opcode (field_with_endian (match e with ENDIAN_BIG => ENDIAN_LITTLE | ENDIAN_LITTLE => ENDIAN_BIG end) f).
Proof. unfold get_load_opcode. destruct e; simpl; by destruct (f_type f). Qed.

Lemma find_field_with_endian e s path :
  find_field_by_path (struct_with_endian e s) path = field_with_endian e <$> find_field_by_path s path.
Proof.
  unfold find_field_by_path, struct_with_endian. simpl.
  induction (s_fields s) as [|f fs IH]; [done|]. simpl.
  destruct (String.eqb (f_name f) path); [done|apply IH].
Qed.

(** A protocol declared [endian = little] is matched big-endian.  The
    fields of its structs are compiled with the little-endian loads, stored as
    [bytecode_be]; [ENDIAN_MODE_LITTLE] then runs [bytecode_le], the swapped
    copy, so every multi-byte field is read most significant byte first,
    exactly as if the struct had been declared big-endian. *)
Theorem little_mode_reads_big_endian structs temp rule s packet packet_len d :
  compile_filter_rule structs temp = Done rule ->
  Z.of_nat (code_size (tf_conditions temp)) < 2 ^ 32 ->
  Forall offsets_in_range structs ->
  find_target structs (tf_conditions temp) = Some (struct_with_endian ENDIAN_LITTLE s) ->
  0 <= packet_len <= Z.of_nat (length packet) ->
  try_match_with_endian packet packet_len rule ENDIAN_MODE_LITTLE d
    = (Ret (rule_matches id (struct_with_endian ENDIAN_BIG s) (tf_conditions temp)
              (take (Z.to_nat packet_len) packet)), d).
Proof.
  intros Hc Hs Hoff Ht Hp. unfold try_match_with_endian.
  destruct (compiled_runs structs temp rule _ Hc Hs Hoff Ht packet packet_len Hp) as [_ ->].
  do 2 f_equal. unfold rule_matches.
  assert (E : forall c, cond_matches swap_endian_opcode (struct_with_endian ENDIAN_LITTLE s)
                          (take (Z.to_nat packet_len) packet) c
                = cond_matches id (struct_with_endian ENDIAN_BIG s) (take (Z.to_nat packet_len) packet) c).
  { intros c. unfold cond_matches. rewrite !find_field_with_endian.
    destruct (find_field_by_path s (fc_field_name c)) as [f|]; [|done]. simpl.
    by rewrite swap_get_load. }
  clear -E. induction (tf_conditions temp) as [|c cs IH]; [done|]. cbn [forallb]. by rewrite E, IH.
Qed.

Definition little_struct : StructDef :=
  mkStructDef "ASDU" [mkField "cot" FIELD_TYPE_UINT16 0 2 ENDIAN_BIG false false 1] 2 false.

Definition little_rule : TempFilterRule :=
  mkTempRule "GI" "" [mkCond "cot" COND_EQ 6 0 []] false 0.

Definition little_compiled : FilterRule :=
  match compile_filter_rule [struct_with_endian ENDIAN_LITTLE little_struct] little_rule with
  | Done r => r
  | _ => demo_compiled
  end.

(** [cot = 6] on the wire in little-endian order, bytes 06 00, is rejected and
    the big-endian bytes 00 06 are accepted. *)
Lemma little_mode_reads_big_endian_witness :
  try_match_with_endian [x06; x00] 2 little_compiled ENDIAN_MODE_LITTLE ENDIAN_TYPE_UNKNOWN
    = (Ret false, ENDIAN_TYPE_UNKNOWN) /\
  try_match_with_endian [x00; x06] 2 little_compiled ENDIAN_MODE_LITTLE ENDIAN_TYPE_UNKNOWN
    = (Ret (rule_matches id (struct_with_endian ENDIAN_BIG little_struct) (tf_conditions little_rule)
              (take (Z.to_nat 2) [x00; x06])), ENDIAN_TYPE_UNKNOWN).
Proof.
  split; [vm_compute; reflexivity|].
  apply (little_mode_reads_big_endian [struct_with_endian ENDIAN_LITTLE little_struct] little_rule
           little_compiled little_struct [x00; x06] 2 ENDIAN_TYPE_UNKNOWN);
    [vm_compute; reflexivity | vm_compute; reflexivity | repeat constructor; simpl; lia
    | reflexivity | simpl; lia].
Defined.
