(* ===== verification/Lexer.v ===== *)
(** * Lexer of the PDEF language (src/src/pdef/lexer.c)

    The lexer state, its character loops and [lexer_next_token], branch by
    branch.  A character read is an index into the source, NUL at its end;
    [lexer_ok] is the invariant that the index never passes that NUL. *)

From S2P Require Import Prelude.

Inductive TokenType :=
  | TOKEN_IDENTIFIER | TOKEN_NUMBER | TOKEN_STRING
  | TOKEN_PROTOCOL | TOKEN_CONST | TOKEN_FILTER
  | TOKEN_UINT8 | TOKEN_UINT16 | TOKEN_UINT32 | TOKEN_UINT64
  | TOKEN_INT8 | TOKEN_INT16 | TOKEN_INT32 | TOKEN_INT64
  | TOKEN_BYTES | TOKEN_STRING_TYPE | TOKEN_VARBYTES
  | TOKEN_LBRACE | TOKEN_RBRACE | TOKEN_LBRACKET | TOKEN_RBRACKET
  | TOKEN_SEMICOLON | TOKEN_COMMA | TOKEN_DOT | TOKEN_ASSIGN
  | TOKEN_EQ | TOKEN_NE | TOKEN_LT | TOKEN_LE | TOKEN_GT | TOKEN_GE
  | TOKEN_AND | TOKEN_OR | TOKEN_IN | TOKEN_NOT | TOKEN_AT
  | TOKEN_EOF | TOKEN_ERROR.

#[export] Instance TokenType_eq_dec : EqDecision TokenType.
Proof. solve_decision. Defined.

Record Token := mkToken {
  t_type : TokenType;
  t_text : string;
  t_value : Z;
  t_line : Z;
  t_column : Z;
}.

Record Lexer := mkLexer {
  lx_source : string;
  lx_pos : Z;
  lx_line : Z;
  lx_column : Z;
  lx_error_msg : string;
}.

(** ** Character classes *)

Definition NUL : ascii := Ascii.zero.

Definition in_range (lo c hi : ascii) : bool :=
  (nat_of_ascii lo <=? nat_of_ascii c)%nat && (nat_of_ascii c <=? nat_of_ascii hi)%nat.

Definition is_alpha (c : ascii) : bool :=
  in_range "a" c "z" || in_range "A" c "Z" || Ascii.eqb c "_".

Definition is_digit (c : ascii) : bool := in_range "0" c "9".

Definition is_hex_digit (c : ascii) : bool :=
  is_digit c || in_range "a" c "f" || in_range "A" c "F".

Definition is_alnum (c : ascii) : bool := is_alpha c || is_digit c.

(** [isspace] of the C locale: space, \t, \n, \v, \f, \r. *)
Definition isspace (c : ascii) : bool :=
  Ascii.eqb c " " || ((9 <=? nat_of_ascii c)%nat && (nat_of_ascii c <=? 13)%nat).

Definition newline : ascii := ascii_of_nat 10.
Definition dquote : ascii := ascii_of_nat 34.

(** ** Reading characters *)

Definition lexer_init (source : string) : Lexer := mkLexer source 0 1 1 "".

Definition str_get (s : string) (i : nat) : ascii :=
  match String.get i s with Some c => c | None => NUL end.

Definition current_char (lx : Lexer) : ascii := str_get (lx_source lx) (Z.to_nat (lx_pos lx)).

Definition peek_char (lx : Lexer) (offset : Z) : ascii :=
  str_get (lx_source lx) (Z.to_nat (lx_pos lx +32 offset)).

Definition advance (lx : Lexer) : Lexer :=
  if Ascii.eqb (current_char lx) newline
  then mkLexer (lx_source lx) (lx_pos lx +32 1) (lx_line lx +32 1) 1 (lx_error_msg lx)
  else mkLexer (lx_source lx) (lx_pos lx +32 1) (lx_line lx) (lx_column lx +32 1) (lx_error_msg lx).

(** Every loop consumes a character per iteration. *)
Definition lexer_fuel (lx : Lexer) : nat := S (String.length (lx_source lx)).

Definition skip_whitespace (lx : Lexer) : Lexer :=
  while (fun l => isspace (current_char l)) advance (lexer_fuel lx) lx.

Definition comment_start (lx : Lexer) : bool :=
  Ascii.eqb (current_char lx) "/" && Ascii.eqb (peek_char lx 1) "/".

Definition skip_comment (lx : Lexer) : Lexer :=
  if comment_start lx then
    while (fun l => negb (Ascii.eqb (current_char l) NUL) && negb (Ascii.eqb (current_char l) newline))
      advance (lexer_fuel lx) lx
  else lx.

Fixpoint skip_loop (fuel : nat) (lx : Lexer) : Lexer :=
  match fuel with
  | O => lx
  | S n =>
      let lx1 := skip_whitespace lx in
      if comment_start lx1 then skip_loop n (skip_comment lx1) else lx1
  end.

Definition skip_whitespace_and_comments (lx : Lexer) : Lexer := skip_loop (lexer_fuel lx) lx.

(** [while (p(current) && len < sizeof(token->text) - 1) { text[len++] = current; advance; }] *)
Definition read_text (p : ascii -> bool) (lx : Lexer) : Lexer * string :=
  while (fun st => p (current_char (fst st)) && (String.length (snd st) <? 255)%nat)
    (fun st => (advance (fst st), snd st +:+ String (current_char (fst st)) ""))
    (lexer_fuel lx) (lx, "").

Definition set_error (lx : Lexer) (msg : string) : Lexer :=
  mkLexer (lx_source lx) (lx_pos lx) (lx_line lx) (lx_column lx) (str_take 255 msg).

(** ** Token readers: result, lexer and token *)

Definition identifier_type (text : string) : TokenType :=
  if String.eqb text "uint8" then TOKEN_UINT8
  else if String.eqb text "uint16" then TOKEN_UINT16
  else if String.eqb text "uint32" then TOKEN_UINT32
  else if String.eqb text "uint64" then TOKEN_UINT64
  else if String.eqb text "int8" then TOKEN_INT8
  else if String.eqb text "int16" then TOKEN_INT16
  else if String.eqb text "int32" then TOKEN_INT32
  else if String.eqb text "int64" then TOKEN_INT64
  else if String.eqb text "bytes" then TOKEN_BYTES
  else if String.eqb text "string" then TOKEN_STRING_TYPE
  else if String.eqb text "varbytes" then TOKEN_VARBYTES
  else if String.eqb text "in" then TOKEN_IN
  else TOKEN_IDENTIFIER.

Definition read_identifier (lx : Lexer) (line column : Z) : bool * Lexer * Token :=
  let '(lx', text) := read_text is_alnum lx in
  (true, lx', mkToken (identifier_type text) text 0 line column).

(** Value of a digit, decimal or hexadecimal. *)
Definition digit_value (c : ascii) : Z :=
  let n := Z.of_nat (nat_of_ascii c) in
  if is_digit c then n - 48
  else if in_range "a" c "f" then n - 97 + 10
  else n - 65 + 10.

Fixpoint digits_value (base acc : Z) (s : string) : Z :=
  match s with
  | EmptyString => acc
  | String c s' => digits_value base (acc * base + digit_value c) s'
  end.

(** [strtoull] on a text of digits: saturates at [ULLONG_MAX]. *)
Definition strtoull (s : string) (base : Z) : Z := Z.min (digits_value base 0 s) UINT64_MAX.

Definition read_number (lx : Lexer) (line column : Z) : bool * Lexer * Token :=
  if Ascii.eqb (current_char lx) "0" &&
     (Ascii.eqb (peek_char lx 1) "x" || Ascii.eqb (peek_char lx 1) "X") then
    let '(lx', text) := read_text is_hex_digit (advance (advance lx)) in
    if (String.length text =? 0)%nat then
      (false, set_error lx' ("Invalid hex number at line " +:+ fmt_u (lx_line lx')),
       mkToken TOKEN_NUMBER text 0 line column)
    else (true, lx', mkToken TOKEN_NUMBER text (strtoull text 16) line column)
  else
    let '(lx', text) := read_text is_digit lx in
    (true, lx', mkToken TOKEN_NUMBER text (strtoull text 10) line column).

(** One character of a string literal; a backslash escapes a quote. *)
Definition string_body (st : Lexer * string) : Lexer * string :=
  let '(lx, text) := st in
  if Ascii.eqb (current_char lx) "\" && Ascii.eqb (peek_char lx 1) dquote
  then (advance (advance lx), text +:+ String dquote "")
  else (advance lx, text +:+ String (current_char lx) "").

Definition string_cond (st : Lexer * string) : bool :=
  negb (Ascii.eqb (current_char (fst st)) dquote) && negb (Ascii.eqb (current_char (fst st)) NUL)
  && (String.length (snd st) <? 255)%nat.

Definition read_string (lx : Lexer) (line column : Z) : bool * Lexer * Token :=
  let '(lx', text) := while string_cond string_body (lexer_fuel lx) (advance lx, "") in
  let tok := mkToken TOKEN_STRING text 0 line column in
  if Ascii.eqb (current_char lx') dquote then (true, advance lx', tok)
  else (false, set_error lx' ("Unterminated string at line " +:+ fmt_u (lx_line lx')), tok).

(** A token of one character. *)
Definition single (lx : Lexer) (ty : TokenType) (c : ascii) (line column : Z) : bool * Lexer * Token :=
  (true, advance lx, mkToken ty (String c "") 0 line column).

(** [c=] if the next character is [=], else [c] alone. *)
Definition with_equals (lx : Lexer) (ty2 ty1 : TokenType) (c : ascii) (line column : Z)
    : bool * Lexer * Token :=
  if Ascii.eqb (peek_char lx 1) "="
  then (true, advance (advance lx), mkToken ty2 (String c "=") 0 line column)
  else single lx ty1 c line column.

(** The [case '@'] of the switch. *)
Definition read_at (lx : Lexer) (line column : Z) : bool * Lexer * Token :=
  let lx1 := advance lx in
  if is_alpha (current_char lx1) then
    let '(lx', text) := read_text is_alnum lx1 in
    if String.eqb text "protocol" then (true, lx', mkToken TOKEN_PROTOCOL text 0 line column)
    else if String.eqb text "const" then (true, lx', mkToken TOKEN_CONST text 0 line column)
    else if String.eqb text "filter" then (true, lx', mkToken TOKEN_FILTER text 0 line column)
    else (false,
          set_error lx' ("Unknown keyword @" +:+ text +:+ " at line " +:+ fmt_u (lx_line lx')),
          mkToken TOKEN_ERROR text 0 line column)
  else (true, lx1, mkToken TOKEN_AT "" 0 line column).

(** [lexer_next_token] from the first character of the token on. *)
Definition token_here (lx : Lexer) : bool * Lexer * Token :=
  let line := lx_line lx in
  let column := lx_column lx in
  let c := current_char lx in
  if Ascii.eqb c NUL then (true, lx, mkToken TOKEN_EOF "" 0 line column)
  else if is_alpha c then read_identifier lx line column
  else if is_digit c then read_number lx line column
  else if Ascii.eqb c dquote then read_string lx line column
  else if Ascii.eqb c "{" then single lx TOKEN_LBRACE c line column
  else if Ascii.eqb c "}" then single lx TOKEN_RBRACE c line column
  else if Ascii.eqb c "[" then single lx TOKEN_LBRACKET c line column
  else if Ascii.eqb c "]" then single lx TOKEN_RBRACKET c line column
  else if Ascii.eqb c ";" then single lx TOKEN_SEMICOLON c line column
  else if Ascii.eqb c "," then single lx TOKEN_COMMA c line column
  else if Ascii.eqb c "." then single lx TOKEN_DOT c line column
  else if Ascii.eqb c "@" then read_at lx line column
  else if Ascii.eqb c "=" then with_equals lx TOKEN_EQ TOKEN_ASSIGN c line column
  else if Ascii.eqb c "!" then with_equals lx TOKEN_NE TOKEN_NOT c line column
  else if Ascii.eqb c "<" then with_equals lx TOKEN_LE TOKEN_LT c line column
  else if Ascii.eqb c ">" then with_equals lx TOKEN_GE TOKEN_GT c line column
  else if Ascii.eqb c "&" then single lx TOKEN_AND c line column
  else if Ascii.eqb c "|" then single lx TOKEN_OR c line column
  else
    (false,
     set_error lx ("Unexpected character '" +:+ String c "" +:+ "' at line " +:+ fmt_u line
                   +:+ " column " +:+ fmt_u column),
     mkToken TOKEN_ERROR "" 0 line column).

Definition lexer_next_token (lx : Lexer) : bool * Lexer * Token :=
  token_here (skip_whitespace_and_comments lx).

(** The lexer is saved before and restored after. *)
Definition lexer_peek_token (lx : Lexer) : bool * Lexer * Token :=
  let '(result, _, token) := lexer_next_token lx in (result, lx, token).

Definition lexer_get_error (lx : Lexer) : string := lx_error_msg lx.

(** All tokens of a source up to EOF or the first error, [n] at most. *)
Fixpoint lex_all (n : nat) (lx : Lexer) : list (TokenType * string * Z) :=
  match n with
  | O => []
  | S n' =>
      let '(ok, lx', t) := lexer_next_token lx in
      let e := (t_type t, t_text t, t_value t) in
      if negb ok || bool_decide (t_type t = TOKEN_EOF) then [e] else e :: lex_all n' lx'
  end.

Example lex_demo :
  lex_all 20 (lexer_init "@const { A_1=0x1F; } // note
 x >= 12") =
  [ (TOKEN_CONST, "const", 0); (TOKEN_LBRACE, "{", 0); (TOKEN_IDENTIFIER, "A_1", 0);
    (TOKEN_ASSIGN, "=", 0); (TOKEN_NUMBER, "1F", 31); (TOKEN_SEMICOLON, ";", 0);
    (TOKEN_RBRACE, "}", 0); (TOKEN_IDENTIFIER, "x", 0); (TOKEN_GE, ">=", 0);
    (TOKEN_NUMBER, "12", 12); (TOKEN_EOF, "", 0) ].
Proof. vm_compute. reflexivity. Qed.

(** ** The invariant *)

Definition lexer_ok (lx : Lexer) : Prop :=
  0 <= lx_pos lx <= Z.of_nat (String.length (lx_source lx)) /\
  Z.of_nat (String.length (lx_source lx)) < 2 ^ 32.

(** [b] is a later state of the lexer [a]. *)
Definition reaches (a b : Lexer) : Prop :=
  lexer_ok a -> lexer_ok b /\ lx_source b = lx_source a /\ lx_pos a <= lx_pos b.

(** Strictly later. *)
Definition moves (a b : Lexer) : Prop :=
  lexer_ok a -> lexer_ok b /\ lx_source b = lx_source a /\ lx_pos a < lx_pos b.

Lemma reaches_refl a : reaches a a.
Proof. intros H. split; [done|split; [done|lia]]. Qed.

Lemma reaches_trans a b c : reaches a b -> reaches b c -> reaches a c.
Proof.
  intros H1 H2 Ha. destruct (H1 Ha) as (Hb & E1 & ?). destruct (H2 Hb) as (Hc & E2 & ?).
  split; [done|split; [congruence|lia]].
Qed.

Lemma moves_reaches a b : moves a b -> reaches a b.
Proof. intros H Ha. destruct (H Ha) as (? & ? & ?). split; [done|split; [done|lia]]. Qed.

Lemma moves_trans_l a b c : moves a b -> reaches b c -> moves a c.
Proof.
  intros H1 H2 Ha. destruct (H1 Ha) as (Hb & E1 & ?). destruct (H2 Hb) as (Hc & E2 & ?).
  split; [done|split; [congruence|lia]].
Qed.

Lemma moves_trans_r a b c : reaches a b -> moves b c -> moves a c.
Proof.
  intros H1 H2 Ha. destruct (H1 Ha) as (Hb & E1 & ?). destruct (H2 Hb) as (Hc & E2 & ?).
  split; [done|split; [congruence|lia]].
Qed.

Create HintDb lexer.
#[export] Hint Resolve reaches_refl moves_reaches : lexer.

Lemma str_get_ge s i : (String.length s <= i)%nat -> str_get s i = NUL.
Proof.
  unfold str_get. revert i. induction s as [|c s IH]; intros i Hi; [done|].
  destruct i; simpl in *; [lia|]. apply IH. lia.
Qed.

Lemma current_char_bound lx :
  0 <= lx_pos lx -> current_char lx <> NUL -> lx_pos lx < Z.of_nat (String.length (lx_source lx)).
Proof.
  intros Hp Hc. destruct (Z.lt_ge_cases (lx_pos lx) (Z.of_nat (String.length (lx_source lx)))); [done|].
  exfalso. apply Hc. apply str_get_ge. lia.
Qed.

Lemma advance_fields lx :
  lx_source (advance lx) = lx_source lx /\ lx_pos (advance lx) = lx_pos lx +32 1.
Proof. unfold advance. by destruct (Ascii.eqb _ _). Qed.

Lemma advance_moves lx : current_char lx <> NUL -> moves lx (advance lx).
Proof.
  intros Hc [Hp Hs]. pose proof (current_char_bound lx ltac:(lia) Hc).
  destruct (advance_fields lx) as [E1 E2]. unfold lexer_ok.
  rewrite E1, E2, u32_small by lia. repeat split; lia.
Qed.

Lemma peek_is_next lx :
  lexer_ok lx -> current_char lx <> NUL -> peek_char lx 1 = current_char (advance lx).
Proof.
  intros [Hp Hs] Hc. unfold peek_char, current_char. by destruct (advance_fields lx) as [-> ->].
Qed.

Lemma advance2_moves lx :
  current_char lx <> NUL -> peek_char lx 1 <> NUL -> moves lx (advance (advance lx)).
Proof.
  intros Hc Hp Hok. pose proof (advance_moves lx Hc Hok) as (Hok1 & E1 & Hlt).
  rewrite peek_is_next in Hp by done.
  destruct (advance_moves _ Hp Hok1) as (Hok2 & E2 & ?).
  split; [done|split; [congruence|lia]].
Qed.

Lemma eqb_not_nul c d : Ascii.eqb c d = true -> d <> NUL -> c <> NUL.
Proof. intros H. by apply Ascii.eqb_eq in H as ->. Qed.

(** Loops whose condition fails on NUL stay inside the source. *)
Lemma while_reaches cond fuel lx :
  (forall l, cond l = true -> current_char l <> NUL) -> reaches lx (while cond advance fuel lx).
Proof.
  intros H. apply (while_preserves reaches); [apply reaches_refl|apply reaches_trans|].
  intros l Hl. apply moves_reaches, advance_moves. auto.
Qed.

Lemma isspace_not_nul c : isspace c = true -> c <> NUL.
Proof. intros H ->. done. Qed.

Lemma skip_whitespace_reaches lx : reaches lx (skip_whitespace lx).
Proof. apply while_reaches. intros l Hl. by apply isspace_not_nul. Qed.

Lemma skip_comment_reaches lx : reaches lx (skip_comment lx).
Proof.
  unfold skip_comment. destruct (comment_start lx); [|apply reaches_refl].
  apply while_reaches. intros l Hl. zbool. destruct Hl as [Hl _].
  intros E. by rewrite E in Hl.
Qed.

Lemma skip_loop_reaches n lx : reaches lx (skip_loop n lx).
Proof.
  revert lx. induction n as [|n IH]; intros lx; cbn [skip_loop]; [apply reaches_refl|].
  destruct (comment_start _).
  - eapply reaches_trans; [apply skip_whitespace_reaches|].
    eapply reaches_trans; [apply skip_comment_reaches|apply IH].
  - apply skip_whitespace_reaches.
Qed.

Lemma skip_reaches lx : reaches lx (skip_whitespace_and_comments lx).
Proof. apply skip_loop_reaches. Qed.

Lemma read_text_reaches p lx :
  p NUL = false -> reaches lx (fst (read_text p lx)).
Proof.
  intros Hp. unfold read_text.
  apply (while_preserves (fun a b => reaches (fst a) (fst b)) _ _ (lexer_fuel lx) (lx, "")).
  - intros. apply reaches_refl.
  - intros x y z. apply reaches_trans.
  - intros [l t] Hc. cbn [fst snd] in *. zbool. destruct Hc as [Hc _].
    apply moves_reaches, advance_moves. intros E. by rewrite E, Hp in Hc.
Qed.

(** With a character of the class in front, something is read. *)
Lemma read_text_moves p lx :
  p NUL = false -> p (current_char lx) = true -> moves lx (fst (read_text p lx)).
Proof.
  intros Hp Hc. unfold read_text, lexer_fuel. cbn [while fst snd]. rewrite Hc. cbn [andb Nat.ltb].
  eapply moves_trans_l; [apply advance_moves; intros E; by rewrite E, Hp in Hc|].
  apply (while_preserves (fun a b => reaches (fst a) (fst b)) _ _ _
           (advance lx, "" +:+ String (current_char lx) "")).
  - intros. apply reaches_refl.
  - intros x y z. apply reaches_trans.
  - intros [l t] H. cbn [fst snd] in *. zbool. destruct H as [H _].
    apply moves_reaches, advance_moves. intros E. by rewrite E, Hp in H.
Qed.

Lemma set_error_reaches lx msg : reaches lx (set_error lx msg).
Proof. intros [Hp Hs]. repeat split; simpl; lia. Qed.

Lemma string_while_reaches fuel lx t :
  reaches lx (fst (while string_cond string_body fuel (lx, t))).
Proof.
  apply (while_preserves (fun a b => reaches (fst a) (fst b)) _ _ fuel (lx, t)).
  - intros. apply reaches_refl.
  - intros x y z. apply reaches_trans.
  - intros [l s] H. unfold string_cond, string_body in *. cbn [fst snd] in *. zbool.
    destruct H as [[_ H] _].
    assert (Hn : current_char l <> NUL) by (intros E; by rewrite E in H).
    destruct (Ascii.eqb (current_char l) "\" && Ascii.eqb (peek_char l 1) dquote) eqn:E; cbn [fst].
    + zbool. destruct E as [_ E]. apply moves_reaches, advance2_moves; [done|].
      by eapply eqb_not_nul.
    + by apply moves_reaches, advance_moves.
Qed.

(** What the token readers promise about the lexer they leave. *)
Definition token_progress (lx : Lexer) (r : bool * Lexer * Token) : Prop :=
  reaches lx (snd (fst r)) /\
  (fst (fst r) = true \/ t_type (snd r) <> TOKEN_ERROR -> t_type (snd r) <> TOKEN_EOF ->
   moves lx (snd (fst r))).

Lemma moves_progress lx lx' b t : moves lx lx' -> token_progress lx (b, lx', t).
Proof. intros H. split; [by apply moves_reaches|done]. Qed.

Lemma single_progress lx ty c line col :
  current_char lx <> NUL -> token_progress lx (single lx ty c line col).
Proof. intros. by apply moves_progress, advance_moves. Qed.

Lemma with_equals_progress lx t2 t1 c line col :
  current_char lx <> NUL -> token_progress lx (with_equals lx t2 t1 c line col).
Proof.
  intros Hc. unfold with_equals. destruct (Ascii.eqb (peek_char lx 1) "=") eqn:E.
  - apply moves_progress, advance2_moves; [done|by eapply eqb_not_nul].
  - by apply single_progress.
Qed.

Lemma read_identifier_progress lx line col :
  is_alpha (current_char lx) = true -> token_progress lx (read_identifier lx line col).
Proof.
  intros Hc. unfold read_identifier.
  pose proof (read_text_moves is_alnum lx eq_refl) as H.
  destruct (read_text is_alnum lx) as [lx' t]. apply moves_progress, H.
  unfold is_alnum. by rewrite Hc.
Qed.

Lemma read_number_progress lx line col :
  is_digit (current_char lx) = true -> token_progress lx (read_number lx line col).
Proof.
  intros Hc. unfold read_number.
  destruct (_ && _) eqn:E.
  - zbool. destruct E as [E1 E2].
    assert (Hm : moves lx (advance (advance lx))).
    { apply advance2_moves; [by eapply eqb_not_nul|].
      apply orb_true_iff in E2 as [E2|E2]; by eapply eqb_not_nul. }
    pose proof (read_text_reaches is_hex_digit (advance (advance lx)) eq_refl) as Hr.
    destruct (read_text is_hex_digit _) as [lx' t]. cbn [fst] in Hr.
    pose proof (moves_trans_l _ _ _ Hm Hr) as Hm'.
    destruct (_ =? _)%nat; apply moves_progress; [|done].
    eapply moves_trans_l; [exact Hm'|apply set_error_reaches].
  - pose proof (read_text_moves is_digit lx eq_refl Hc) as H.
    destruct (read_text is_digit lx) as [lx' t]. by apply moves_progress.
Qed.

Lemma read_string_progress lx line col :
  current_char lx = dquote -> token_progress lx (read_string lx line col).
Proof.
  intros Hc. unfold read_string.
  assert (Hm : moves lx (advance lx)) by (apply advance_moves; by rewrite Hc).
  pose proof (string_while_reaches (lexer_fuel lx) (advance lx) "") as Hr.
  destruct (while _ _ _ _) as [lx' t]. cbn [fst] in Hr.
  pose proof (moves_trans_l _ _ _ Hm Hr) as Hm'.
  destruct (Ascii.eqb (current_char lx') dquote) eqn:E; apply moves_progress.
  - eapply moves_trans_l; [exact Hm'|]. apply moves_reaches, advance_moves. by eapply eqb_not_nul.
  - eapply moves_trans_l; [exact Hm'|apply set_error_reaches].
Qed.

Lemma read_at_progress lx line col :
  current_char lx <> NUL -> token_progress lx (read_at lx line col).
Proof.
  intros Hc. unfold read_at. pose proof (advance_moves lx Hc) as Hm.
  destruct (is_alpha _) eqn:Ea; [|by apply moves_progress].
  pose proof (read_text_reaches is_alnum (advance lx) eq_refl) as Hr.
  destruct (read_text is_alnum _) as [lx' t]. cbn [fst] in Hr.
  pose proof (moves_trans_l _ _ _ Hm Hr) as Hm'.
  repeat case_match; by apply moves_progress.
Qed.

Lemma token_here_progress lx : token_progress lx (token_here lx).
Proof.
  unfold token_here. destruct (Ascii.eqb (current_char lx) NUL) eqn:En.
  { split; [apply reaches_refl|done]. }
  assert (Hc : current_char lx <> NUL) by (intros E; by rewrite E in En).
  destruct (is_alpha _) eqn:?; [by apply read_identifier_progress|].
  destruct (is_digit _) eqn:?; [by apply read_number_progress|].
  destruct (Ascii.eqb _ dquote) eqn:Eq; [apply read_string_progress; by apply Ascii.eqb_eq|].
  repeat match goal with
  | |- context [if Ascii.eqb (current_char lx) ?d then _ else _] =>
      destruct (Ascii.eqb (current_char lx) d);
      [by first [apply single_progress | apply with_equals_progress | apply read_at_progress]|]
  end.
  split; [apply set_error_reaches|by intros []].
Qed.

Lemma next_token_progress lx : token_progress lx (lexer_next_token lx).
Proof.
  destruct (token_here_progress (skip_whitespace_and_comments lx)) as [H1 H2].
  pose proof (skip_reaches lx). split; [by eapply reaches_trans|].
  intros. eapply moves_trans_r; eauto.
Qed.

(** Whether EOF comes out depends on the character the lexer stops at. *)
Lemma token_here_EOF lx :
  t_type (snd (token_here lx)) = TOKEN_EOF -> current_char lx = NUL.
Proof.
  unfold token_here. destruct (Ascii.eqb (current_char lx) NUL) eqn:En.
  { by apply Ascii.eqb_eq in En. }
  unfold read_identifier, read_number, read_string, read_at, single, with_equals, identifier_type.
  repeat case_match; try done; simpl; intros; try discriminate;
    repeat case_match; simplify_eq; done.
Qed.

(** ** The source from the current character on *)

Definition suffix (lx : Lexer) : string := str_drop (Z.to_nat (lx_pos lx)) (lx_source lx).

Lemma str_get_drop n s : str_get s n = match str_drop n s with String c _ => c | "" => NUL end.
Proof.
  unfold str_get. revert s. induction n as [|n IH]; intros [|c s]; simpl; done.
Qed.

Lemma str_drop_succ n s c r : str_drop n s = String c r -> str_drop (S n) s = r.
Proof.
  revert s. induction n as [|n IH]; intros [|d s]; simpl; try done.
  - by intros [= -> ->].
  - intros H. apply IH in H. by destruct s.
Qed.

Lemma current_suffix lx c r : suffix lx = String c r -> current_char lx = c.
Proof. unfold suffix, current_char. intros H. by rewrite str_get_drop, H. Qed.

Lemma current_suffix_nil lx : suffix lx = "" -> current_char lx = NUL.
Proof. unfold suffix, current_char. intros H. by rewrite str_get_drop, H. Qed.

Lemma suffix_length lx :
  lexer_ok lx -> Z.of_nat (String.length (suffix lx)) = Z.of_nat (String.length (lx_source lx)) - lx_pos lx.
Proof. intros [Hp _]. unfold suffix. rewrite str_drop_length. lia. Qed.

Lemma advance_suffix lx c r :
  lexer_ok lx -> suffix lx = String c r ->
  lexer_ok (advance lx) /\ suffix (advance lx) = r /\ lx_source (advance lx) = lx_source lx.
Proof.
  intros Hok Hs. pose proof (suffix_length lx Hok) as Hl. rewrite Hs in Hl. simpl in Hl.
  destruct Hok as [Hp H32]. destruct (advance_fields lx) as [E1 E2].
  rewrite u32_small in E2 by lia. unfold lexer_ok, suffix in *. rewrite E1, E2.
  split; [lia|split; [|done]]. replace (Z.to_nat (lx_pos lx + 1)) with (S (Z.to_nat (lx_pos lx))) by lia.
  by eapply str_drop_succ.
Qed.

Lemma suffix_fuel lx : lexer_ok lx -> (String.length (suffix lx) < lexer_fuel lx)%nat.
Proof. intros H. pose proof (suffix_length lx H). destruct H. unfold lexer_fuel. lia. Qed.

Fixpoint str_all (p : ascii -> bool) (s : string) : bool :=
  match s with "" => true | String c s' => p c && str_all p s' end.

(** The first character of [r], or NUL, is outside the class. *)
Definition stops (p : ascii -> bool) (r : string) : Prop :=
  p (match r with String c _ => c | "" => NUL end) = false.

Lemma read_text_loop p s r fuel lx acc :
  lexer_ok lx -> suffix lx = s +:+ r -> str_all p s = true -> stops p r ->
  (String.length acc + String.length s <= 255)%nat -> (String.length s < fuel)%nat ->
  exists lx', while (fun st => p (current_char (fst st)) && (String.length (snd st) <? 255)%nat)
                (fun st => (advance (fst st), snd st +:+ String (current_char (fst st)) ""))
                fuel (lx, acc) = (lx', acc +:+ s) /\
    lexer_ok lx' /\ suffix lx' = r /\ lx_source lx' = lx_source lx.
Proof.
  revert fuel lx acc. induction s as [|c s IH]; intros fuel lx acc Hok Hs Hp Hr Hlen Hf.
  - destruct fuel as [|fuel]; [lia|]. cbn [while fst snd].
    replace (p (current_char lx)) with false.
    2:{ symmetry. unfold stops in Hr. destruct r as [|d r].
        - by rewrite (current_suffix_nil lx).
        - by rewrite (current_suffix lx d r). }
    exists lx. by rewrite str_app_nil_r.
  - simpl in Hp. apply andb_true_iff in Hp as [Hc Hp].
    destruct fuel as [|fuel]; [lia|]. cbn [while fst snd].
    rewrite (current_suffix lx c (s +:+ r)), Hc by done.
    simpl in Hlen, Hf. rewrite (proj2 (Nat.ltb_lt (String.length acc) 255)) by lia. cbn [andb].
    destruct (advance_suffix lx c (s +:+ r) Hok Hs) as (Hok' & Hs' & Hsrc).
    destruct (IH fuel (advance lx) (acc +:+ String c "")) as (lx' & E & ? & ? & ?);
      [done|done|done|done|rewrite str_length_app; simpl; lia|lia|].
    exists lx'. rewrite E, str_app_assoc. split; [done|split; [done|split; [done|congruence]]].
Qed.

Lemma read_text_spec p s r lx :
  lexer_ok lx -> suffix lx = s +:+ r -> str_all p s = true -> stops p r ->
  (String.length s <= 255)%nat ->
  exists lx', read_text p lx = (lx', s) /\ lexer_ok lx' /\ suffix lx' = r.
Proof.
  intros Hok Hs Hp Hr Hl.
  destruct (read_text_loop p s r (lexer_fuel lx) lx "") as (lx' & E & ? & ? & _); try done.
  - pose proof (suffix_fuel lx Hok) as Hf. rewrite Hs, str_length_app in Hf. lia.
  - by exists lx'.
Qed.

(** ** Skipping *)

Lemma skip_whitespace_stops lx : lexer_ok lx -> isspace (current_char (skip_whitespace lx)) = false.
Proof.
  intros Hok. unfold skip_whitespace.
  apply (while_exit (fun l => isspace (current_char l)) advance lexer_ok
           (fun l => String.length (suffix l))); [|done|].
  - intros l Hl Hc. apply isspace_not_nul in Hc. split; [by apply (advance_moves l Hc)|].
    destruct (suffix l) as [|c r] eqn:E; [by rewrite current_suffix_nil in Hc|].
    destruct (advance_suffix l c r Hl E) as (_ & -> & _). simpl. lia.
  - pose proof (suffix_fuel lx Hok). lia.
Qed.

Lemma comment_start_moves lx :
  comment_start lx = true -> moves lx (skip_comment lx).
Proof.
  intros H Hok. unfold skip_comment, lexer_fuel. rewrite H. cbn [while].
  unfold comment_start in H. zbool. destruct H as [H1 _]. apply Ascii.eqb_eq in H1.
  destruct (advance_moves lx ltac:(by rewrite H1) Hok) as (Hok1 & E1 & ?).
  rewrite H1. change (negb (Ascii.eqb "/" NUL) && negb (Ascii.eqb "/" newline)) with true. cbn iota.
  destruct (while_reaches (fun l => negb (Ascii.eqb (current_char l) NUL)
      && negb (Ascii.eqb (current_char l) newline)) (String.length (lx_source lx)) (advance lx))
    as (Hok2 & E2 & ?); [|done|].
  - intros l Hl E. by rewrite E in Hl.
  - split; [done|split; [congruence|lia]].
Qed.

Lemma skip_loop_stops n lx :
  lexer_ok lx -> (String.length (suffix lx) < n)%nat ->
  isspace (current_char (skip_loop n lx)) = false /\ comment_start (skip_loop n lx) = false.
Proof.
  revert lx. induction n as [|n IH]; intros lx Hok Hn; [lia|]. cbn [skip_loop].
  pose proof (skip_whitespace_stops lx Hok). pose proof (skip_whitespace_reaches lx Hok) as (Hok1 & E1 & ?).
  destruct (comment_start (skip_whitespace lx)) eqn:Ec; [|done].
  destruct (comment_start_moves _ Ec Hok1) as (Hok2 & E2 & ?).
  apply IH; [done|]. pose proof (suffix_length _ Hok). pose proof (suffix_length _ Hok2).
  rewrite E2, E1 in *. lia.
Qed.

Lemma skip_here lx c r :
  suffix lx = String c r -> isspace c = false -> Ascii.eqb c "/" = false ->
  skip_whitespace_and_comments lx = lx.
Proof.
  intros Hs Hc Hd. unfold skip_whitespace_and_comments, lexer_fuel. cbn [skip_loop].
  assert (E : skip_whitespace lx = lx).
  { unfold skip_whitespace, lexer_fuel. cbn [while]. by rewrite (current_suffix lx c r), Hc. }
  rewrite E. unfold comment_start. by rewrite (current_suffix lx c r), Hd.
Qed.

Lemma skip_space lx c r :
  lexer_ok lx -> suffix lx = String " " (String c r) -> isspace c = false -> Ascii.eqb c "/" = false ->
  skip_whitespace_and_comments lx = advance lx.
Proof.
  intros Hok Hs Hc Hd. destruct (advance_suffix lx _ _ Hok Hs) as (Hok' & Hs' & Hsrc).
  unfold skip_whitespace_and_comments, lexer_fuel. cbn [skip_loop].
  assert (E : skip_whitespace lx = advance lx).
  { unfold skip_whitespace, lexer_fuel. cbn [while]. rewrite (current_suffix lx _ _ Hs). cbn [isspace].
    destruct (String.length (lx_source lx)) as [|k]; [done|]. cbn [while].
    by rewrite (current_suffix _ _ _ Hs'), Hc. }
  rewrite E. unfold comment_start. by rewrite (current_suffix _ _ _ Hs'), Hd.
Qed.

(** ** Numbers in decimal *)

Lemma digit_cases (P : Z -> Prop) d :
  0 <= d < 10 -> P 0 -> P 1 -> P 2 -> P 3 -> P 4 -> P 5 -> P 6 -> P 7 -> P 8 -> P 9 -> P d.
Proof.
  intros H. intros. assert (d = 0 \/ d = 1 \/ d = 2 \/ d = 3 \/ d = 4 \/ d = 5 \/ d = 6 \/ d = 7
    \/ d = 8 \/ d = 9) as Hd by lia.
  by repeat destruct Hd as [->|Hd]; subst.
Qed.

Lemma digit_char_digit d : 0 <= d < 10 -> is_digit (digit_char d) = true.
Proof. intros H. by apply (digit_cases (fun d => is_digit (digit_char d) = true)). Qed.

Lemma digit_char_value d : 0 <= d < 10 -> digit_value (digit_char d) = d.
Proof. intros H. by apply (digit_cases (fun d => digit_value (digit_char d) = d)). Qed.

Lemma str_all_app p s1 s2 : str_all p (s1 +:+ s2) = str_all p s1 && str_all p s2.
Proof.
  induction s1 as [|c s1 IH]; [done|]. rewrite str_app_cons. cbn [str_all].
  by rewrite IH, andb_assoc.
Qed.

Lemma digits_value_app b a s1 s2 :
  digits_value b a (s1 +:+ s2) = digits_value b (digits_value b a s1) s2.
Proof. revert a. induction s1 as [|c s1 IH]; intros a; [done|]. rewrite str_app_cons. apply IH. Qed.

Lemma fmt_digits_spec fuel z :
  0 <= z < 10 ^ Z.of_nat fuel -> (0 < fuel)%nat ->
  str_all is_digit (fmt_digits fuel z) = true /\ digits_value 10 0 (fmt_digits fuel z) = z /\
  (0 < String.length (fmt_digits fuel z) <= fuel)%nat.
Proof.
  revert z. induction fuel as [|n IH]; intros z Hz Hf; [lia|]. cbn [fmt_digits].
  destruct (Z.ltb_spec z 10) as [Hs|Hs].
  - cbn [str_all digits_value String.length].
    rewrite digit_char_digit, digit_char_value by lia. repeat split; lia.
  - rewrite Nat2Z.inj_succ, Z.pow_succ_r in Hz by lia.
    assert (Hn : (0 < n)%nat) by (destruct n; [simpl in Hz; lia|lia]).
    pose proof (Z.mod_pos_bound z 10 ltac:(lia)).
    destruct (IH (z / 10)) as (H1 & H2 & H3); [|done|].
    { split; [apply Z.div_pos; lia|apply Z.div_lt_upper_bound; lia]. }
    rewrite str_all_app, digits_value_app, str_length_app, H1, H2.
    cbn [str_all digits_value String.length andb].
    rewrite digit_char_digit, digit_char_value by lia.
    repeat split; [|lia|lia]. pose proof (Z.div_mod z 10). lia.
Qed.

(** Printing and reading back a [uint64_t] is the identity. *)
Lemma fmt_u_strtoull z :
  0 <= z <= UINT64_MAX -> strtoull (fmt_u z) 10 = z.
Proof.
  intros H. destruct (fmt_digits_spec 20 z) as (_ & E & _); [|lia|].
  - change (10 ^ Z.of_nat 20) with 100000000000000000000. solve_u.
  - unfold strtoull, fmt_u. rewrite E. lia.
Qed.

(** ** A reference printer *)

Inductive Lexeme :=
  | LWord (s : string)
  | LNumber (n : Z)
  | LSymbol (ty : TokenType).

(** The symbols and the [@] keywords. *)
Definition symbol_text (ty : TokenType) : option string :=
  match ty with
  | TOKEN_PROTOCOL => Some "@protocol" | TOKEN_CONST => Some "@const" | TOKEN_FILTER => Some "@filter"
  | TOKEN_LBRACE => Some "{" | TOKEN_RBRACE => Some "}"
  | TOKEN_LBRACKET => Some "[" | TOKEN_RBRACKET => Some "]"
  | TOKEN_SEMICOLON => Some ";" | TOKEN_COMMA => Some "," | TOKEN_DOT => Some "."
  | TOKEN_ASSIGN => Some "=" | TOKEN_EQ => Some "==" | TOKEN_NE => Some "!="
  | TOKEN_LT => Some "<" | TOKEN_LE => Some "<=" | TOKEN_GT => Some ">" | TOKEN_GE => Some ">="
  | TOKEN_AND => Some "&" | TOKEN_OR => Some "|" | TOKEN_NOT => Some "!"
  | _ => None
  end%string.

Definition lexeme_text (l : Lexeme) : string :=
  match l with
  | LWord s => s
  | LNumber n => fmt_u n
  | LSymbol ty => default "" (symbol_text ty)
  end.

(** The text a token carries: the [@] of a keyword is dropped. *)
Definition token_text (ty : TokenType) : string :=
  match symbol_text ty with
  | Some s => match ty with
              | TOKEN_PROTOCOL | TOKEN_CONST | TOKEN_FILTER => str_drop 1 s
              | _ => s
              end
  | None => ""
  end.

Definition lexeme_token (l : Lexeme) : TokenType * string * Z :=
  match l with
  | LWord s => (identifier_type s, s, 0)
  | LNumber n => (TOKEN_NUMBER, fmt_u n, n)
  | LSymbol ty => (ty, token_text ty, 0)
  end.

Definition lexeme_ok (l : Lexeme) : Prop :=
  match l with
  | LWord s => (exists c s', s = String c s' /\ is_alpha c = true) /\ str_all is_alnum s = true
               /\ (String.length s <= 255)%nat
  | LNumber n => 0 <= n <= UINT64_MAX
  | LSymbol ty => is_Some (symbol_text ty)
  end.

Fixpoint print_lexemes (ls : list Lexeme) : string :=
  match ls with
  | [] => ""
  | l :: ls' => String " " (lexeme_text l +:+ print_lexemes ls')
  end.

(** What follows a lexeme in the printed text. *)
Definition separated (r : string) : Prop :=
  match r with String c _ => c = " "%char | "" => True end.

Lemma separated_stops p r : separated r -> p NUL = false -> p " "%char = false -> stops p r.
Proof. unfold separated, stops. destruct r as [|c r]; [done|]. by intros ->. Qed.

Lemma print_separated ls : separated (print_lexemes ls).
Proof. by destruct ls. Qed.

(** ** One lexeme is read back as its token *)

Lemma ascii_class (f : ascii -> bool) c :
  forallb (fun n => f (ascii_of_nat n)) (seq 0 256) = true -> f c = true.
Proof.
  intros H. rewrite forallb_forall in H. rewrite <- (ascii_nat_embedding c). apply H.
  rewrite in_seq. pose proof (nat_ascii_bounded c). lia.
Qed.

(** A check over all 256 characters. *)
Ltac by_class c f :=
  pose proof (ascii_class f c ltac:(vm_compute; reflexivity)) as Hclass; cbn beta in Hclass.

Lemma alpha_token c :
  is_alpha c = true ->
  c <> NUL /\ isspace c = false /\ Ascii.eqb c "/" = false /\ is_digit c = false /\ is_alnum c = true.
Proof.
  intros H. by_class c (fun c => negb (is_alpha c) || (negb (Ascii.eqb c NUL) && negb (isspace c)
    && negb (Ascii.eqb c "/") && negb (is_digit c) && is_alnum c)).
  rewrite H in Hclass. cbn [negb orb] in Hclass. zbool.
  destruct Hclass as ((((H1 & H2) & H3) & H4) & H5). repeat split; try done.
  intros ->. done.
Qed.

Lemma digit_token c :
  is_digit c = true ->
  c <> NUL /\ isspace c = false /\ Ascii.eqb c "/" = false /\ is_alpha c = false /\
  Ascii.eqb c "x" = false /\ Ascii.eqb c "X" = false.
Proof.
  intros H. by_class c (fun c => negb (is_digit c) || (negb (Ascii.eqb c NUL) && negb (isspace c)
    && negb (Ascii.eqb c "/") && negb (is_alpha c) && negb (Ascii.eqb c "x") && negb (Ascii.eqb c "X"))).
  rewrite H in Hclass. cbn [negb orb] in Hclass. zbool.
  destruct Hclass as (((((H1 & H2) & H3) & H4) & H5) & H6). repeat split; try done.
  intros ->. done.
Qed.

Lemma lexeme_first l :
  lexeme_ok l -> exists c s, lexeme_text l = String c s /\ isspace c = false /\ Ascii.eqb c "/" = false.
Proof.
  destruct l as [s|n|ty]; cbn [lexeme_ok lexeme_text].
  - intros ((c & s' & -> & Hc) & _). exists c, s'. by destruct (alpha_token c Hc) as (_ & ? & ? & _).
  - intros H. destruct (fmt_digits_spec 20 n) as (Hd & _ & Hl); [|lia|].
    { change (10 ^ Z.of_nat 20) with 100000000000000000000. solve_u. }
    unfold fmt_u. destruct (fmt_digits 20 n) as [|c s]; [simpl in Hl; lia|].
    simpl in Hd. apply andb_true_iff in Hd as [Hd _].
    exists c, s. by destruct (digit_token c Hd) as (_ & ? & ? & _).
  - intros [s Hs]. rewrite Hs. destruct ty; try done; injection Hs as <-; by eexists _, _.
Qed.

(** The token at [lx] reads [tok] and leaves the lexer in front of [r]. *)
Definition reads_as (lx : Lexer) (tok : TokenType * string * Z) (r : string) : Prop :=
  exists lx' t, token_here lx = (true, lx', t) /\ (t_type t, t_text t, t_value t) = tok /\
    lexer_ok lx' /\ suffix lx' = r.

Lemma token_here_word s r lx :
  lexer_ok lx -> lexeme_ok (LWord s) -> separated r -> suffix lx = s +:+ r ->
  reads_as lx (lexeme_token (LWord s)) r.
Proof.
  intros Hok ((c & s' & -> & Hc) & Hall & Hlen) Hr Hs.
  destruct (read_text_spec is_alnum (String c s') r lx) as (lx' & E & ? & ?); try done.
  { by apply separated_stops. }
  destruct (alpha_token c Hc) as (Hn & _). apply Ascii.eqb_neq in Hn.
  unfold reads_as, token_here, read_identifier.
  rewrite (current_suffix lx c (s' +:+ r)), Hn, Hc, E by done.
  by eexists _, _.
Qed.

Lemma peek_suffix lx c r :
  lexer_ok lx -> suffix lx = String c r -> c <> NUL ->
  peek_char lx 1 = match r with String d _ => d | "" => NUL end.
Proof.
  intros Hok Hs Hc. rewrite peek_is_next; [|done|by rewrite (current_suffix lx c r)].
  destruct (advance_suffix lx c r Hok Hs) as (_ & Hs' & _). destruct r as [|d r].
  - by apply current_suffix_nil.
  - by eapply current_suffix.
Qed.

Lemma token_here_number n r lx :
  lexer_ok lx -> lexeme_ok (LNumber n) -> separated r -> suffix lx = fmt_u n +:+ r ->
  reads_as lx (lexeme_token (LNumber n)) r.
Proof.
  intros Hok Hn Hr Hs. cbn [lexeme_ok] in Hn.
  destruct (fmt_digits_spec 20 n) as (Hall & _ & Hlen); [|lia|].
  { change (10 ^ Z.of_nat 20) with 100000000000000000000. solve_u. }
  fold (fmt_u n) in Hall, Hlen.
  destruct (read_text_spec is_digit (fmt_u n) r lx) as (lx' & E & ? & ?); try done; [|lia|].
  { by apply separated_stops. }
  pose proof (fmt_u_strtoull n Hn) as Hv.
  destruct (fmt_u n) as [|c s] eqn:Ef; [simpl in Hlen; lia|].
  simpl in Hall. apply andb_true_iff in Hall as [Hd Hall].
  destruct (digit_token c Hd) as (Hnul & _ & _ & Ha & _).
  assert (Hx : Ascii.eqb (peek_char lx 1) "x" || Ascii.eqb (peek_char lx 1) "X" = false).
  { rewrite (peek_suffix lx c (s +:+ r)) by done. destruct s as [|d s].
    - destruct r as [|d r]; [done|]. cbn in Hr. by subst d.
    - simpl in Hall. apply andb_true_iff in Hall as [Hd' _].
      rewrite str_app_cons. by destruct (digit_token d Hd') as (_ & _ & _ & _ & -> & ->). }
  apply Ascii.eqb_neq in Hnul.
  unfold reads_as, token_here, read_number.
  rewrite Hx, andb_false_r, (current_suffix lx c (s +:+ r)), Hnul, Ha, Hd, E by done.
  eexists _, _. split; [done|]. cbn [t_type t_text t_value lexeme_token]. by rewrite Hv, Ef.
Qed.

Lemma single_reads lx ty c r line col :
  lexer_ok lx -> suffix lx = String c r -> token_here lx = single lx ty c line col ->
  reads_as lx (ty, String c "", 0) r.
Proof.
  intros Hok Hs E. destruct (advance_suffix lx c r Hok Hs) as (? & ? & _).
  unfold reads_as. rewrite E. by eexists _, _.
Qed.

Lemma equals_reads lx ty2 ty1 c r line col :
  lexer_ok lx -> suffix lx = String c (String "=" r) -> c <> NUL ->
  token_here lx = with_equals lx ty2 ty1 c line col ->
  reads_as lx (ty2, String c "=", 0) r.
Proof.
  intros Hok Hs Hc E. destruct (advance_suffix lx _ _ Hok Hs) as (Hok1 & Hs1 & _).
  destruct (advance_suffix _ _ _ Hok1 Hs1) as (? & ? & _).
  unfold reads_as. rewrite E. unfold with_equals. rewrite (peek_suffix lx _ _ Hok Hs Hc).
  by eexists _, _.
Qed.

Lemma no_equals_reads lx ty2 ty1 c r line col :
  lexer_ok lx -> suffix lx = String c r -> c <> NUL -> separated r ->
  token_here lx = with_equals lx ty2 ty1 c line col ->
  reads_as lx (ty1, String c "", 0) r.
Proof.
  intros Hok Hs Hc Hr E. apply (single_reads lx ty1 c r line col); [done|done|].
  rewrite E. unfold with_equals. rewrite (peek_suffix lx _ _ Hok Hs Hc).
  destruct r as [|d r]; [done|]. cbn in Hr. by subst d.
Qed.

Lemma keyword_reads lx ty s r :
  lexer_ok lx -> suffix lx = String "@" (s +:+ r) -> separated r ->
  (ty, s) = (TOKEN_PROTOCOL, "protocol"%string) \/ (ty, s) = (TOKEN_CONST, "const"%string) \/
    (ty, s) = (TOKEN_FILTER, "filter"%string) ->
  reads_as lx (ty, s, 0) r.
Proof.
  intros Hok Hs Hr Hk. destruct (advance_suffix lx _ _ Hok Hs) as (Hok1 & Hs1 & _).
  destruct (read_text_spec is_alnum s r (advance lx)) as (lx' & E & ? & ?); try done.
  { destruct Hk as [[= -> ->]|[[= -> ->]|[= -> ->]]]; done. }
  { by apply separated_stops. }
  { destruct Hk as [[= -> ->]|[[= -> ->]|[= -> ->]]]; simpl; lia. }
  unfold reads_as, token_here. rewrite (current_suffix lx _ _ Hs).
  destruct Hk as [[= -> ->]|[[= -> ->]|[= -> ->]]]; cbn -[read_at]; unfold read_at;
    rewrite (current_suffix _ _ _ Hs1), E; by eexists _, _.
Qed.

Lemma token_here_symbol ty r lx :
  lexer_ok lx -> lexeme_ok (LSymbol ty) -> separated r -> suffix lx = lexeme_text (LSymbol ty) +:+ r ->
  reads_as lx (lexeme_token (LSymbol ty)) r.
Proof.
  intros Hok Hty Hr Hs. cbn [lexeme_ok] in Hty.
  destruct ty; try (by destruct Hty);
    cbn [lexeme_text symbol_text default from_option id] in Hs; rewrite ?str_app_cons, ?str_app_nil in Hs;
    pose proof (current_suffix _ _ _ Hs) as Hc;
    first
      [ by apply keyword_reads; auto
      | eapply single_reads; [done|exact Hs|by unfold token_here; rewrite Hc]
      | eapply equals_reads; [done|exact Hs|done|by unfold token_here; rewrite Hc]
      | eapply no_equals_reads; [done|exact Hs|done|done|by unfold token_here; rewrite Hc] ].
Qed.

Lemma lexeme_reads l r lx :
  lexer_ok lx -> lexeme_ok l -> separated r -> suffix lx = lexeme_text l +:+ r ->
  reads_as lx (lexeme_token l) r.
Proof.
  destruct l; [apply token_here_word|apply token_here_number|apply token_here_symbol].
Qed.

Lemma next_lexeme l r lx :
  lexer_ok lx -> lexeme_ok l -> separated r -> suffix lx = String " " (lexeme_text l +:+ r) ->
  exists lx' t, lexer_next_token lx = (true, lx', t) /\
    (t_type t, t_text t, t_value t) = lexeme_token l /\ lexer_ok lx' /\ suffix lx' = r.
Proof.
  intros Hok Hl Hr Hs. destruct (advance_suffix lx _ _ Hok Hs) as (Hok1 & Hs1 & _).
  destruct (lexeme_first l Hl) as (c & s & E & Hc & Hd).
  unfold lexer_next_token.
  rewrite (skip_space lx c (s +:+ r)); [|done|by rewrite Hs, E|done|done].
  by apply lexeme_reads.
Qed.

Lemma next_at_end lx :
  suffix lx = "" ->
  lexer_next_token lx = (true, lx, mkToken TOKEN_EOF "" 0 (lx_line lx) (lx_column lx)).
Proof.
  intros Hs. pose proof (current_suffix_nil lx Hs) as Hc.
  assert (E : skip_whitespace_and_comments lx = lx).
  { unfold skip_whitespace_and_comments, lexer_fuel. cbn [skip_loop].
    assert (Ew : skip_whitespace lx = lx).
    { unfold skip_whitespace, lexer_fuel. cbn [while]. by rewrite Hc. }
    rewrite Ew. unfold comment_start. by rewrite Hc. }
  unfold lexer_next_token. rewrite E. unfold token_here. by rewrite Hc.
Qed.

Lemma lexeme_not_EOF l t : lexeme_ok l ->
  (t_type t, t_text t, t_value t) = lexeme_token l -> t_type t <> TOKEN_EOF.
Proof.
  destruct l as [s|n|ty]; cbn [lexeme_ok lexeme_token]; intros Hl [= -> _ _]; [|done|].
  - unfold identifier_type. by repeat case_match.
  - intros ->. by destruct Hl.
Qed.

Lemma lex_all_print n ls lx :
  (length ls < n)%nat -> Forall lexeme_ok ls -> lexer_ok lx -> suffix lx = print_lexemes ls ->
  lex_all n lx = map lexeme_token ls ++ [(TOKEN_EOF, ""%string, 0)].
Proof.
  revert n lx. induction ls as [|l ls IH]; intros [|n] lx Hn Hls Hok Hs; simpl in Hn; try lia;
    cbn [lex_all].
  - by rewrite (next_at_end lx Hs).
  - apply Forall_cons in Hls as [Hl Hls].
    destruct (next_lexeme l (print_lexemes ls) lx) as (lx' & t & E & Ht & Hok' & Hs');
      [done|done|apply print_separated|done|].
    rewrite E, Ht. cbn [negb orb].
    rewrite bool_decide_false by (by eapply lexeme_not_EOF).
    simpl. f_equal. apply IH; [lia|done|done|done].
Qed.

(** ** Bounds on tokens *)

(** A token's value is a [uint64_t] and its text fits [char text[256]]. *)
Definition token_ok (t : Token) : Prop :=
  0 <= t_value t <= UINT64_MAX /\ (String.length (t_text t) <= 255)%nat.

Lemma read_text_ok p lx :
  str_all p (snd (read_text p lx)) = true /\ (String.length (snd (read_text p lx)) <= 255)%nat.
Proof.
  unfold read_text.
  apply (while_preserves (fun a b => (str_all p (snd a) = true /\ (String.length (snd a) <= 255)%nat) ->
           str_all p (snd b) = true /\ (String.length (snd b) <= 255)%nat) _ _ (lexer_fuel lx) (lx, ""));
    [done|auto| |by split; simpl; [|lia]].
  intros [l t] Hc [H1 H2]. cbn [fst snd] in *. apply andb_true_iff in Hc as [Hc Hl].
  apply Nat.ltb_lt in Hl. rewrite str_all_app, str_length_app, H1. simpl. rewrite Hc. split; [done|lia].
Qed.

Lemma string_while_ok fuel lx :
  (String.length (snd (while string_cond string_body fuel (lx, ""))) <= 255)%nat.
Proof.
  apply (while_preserves (fun a b => (String.length (snd a) <= 255)%nat ->
           (String.length (snd b) <= 255)%nat) _ _ fuel (lx, "")); [done|auto| |simpl; lia].
  intros [l t] Hc H. unfold string_cond, string_body in *. cbn [fst snd] in *.
  apply andb_true_iff in Hc as [_ Hl]. apply Nat.ltb_lt in Hl.
  case_match; cbn [snd]; rewrite str_length_app; simpl; lia.
Qed.

Lemma hex_digit_value c : is_hex_digit c = true -> 0 <= digit_value c.
Proof.
  intros H. by_class c (fun c => negb (is_hex_digit c) || (0 <=? digit_value c)).
  rewrite H in Hclass. cbn [negb orb] in Hclass. by apply Z.leb_le.
Qed.

Lemma digits_value_nonneg b a s :
  0 <= b -> 0 <= a -> str_all is_hex_digit s = true -> 0 <= digits_value b a s.
Proof.
  intros Hb. revert a. induction s as [|c s IH]; intros a Ha H; [done|]. cbn [str_all digits_value] in *.
  apply andb_true_iff in H as [Hc H]. apply IH; [|done]. pose proof (hex_digit_value c Hc). nia.
Qed.

Lemma str_all_impl (p q : ascii -> bool) s :
  (forall c, p c = true -> q c = true) -> str_all p s = true -> str_all q s = true.
Proof.
  intros H. induction s as [|c s IH]; [done|]. cbn [str_all].
  rewrite !andb_true_iff. intros [? ?]. auto.
Qed.

Lemma strtoull_range b s :
  0 <= b -> str_all is_hex_digit s = true -> 0 <= strtoull s b <= UINT64_MAX.
Proof.
  intros Hb H. pose proof (digits_value_nonneg b 0 s Hb ltac:(lia) H). unfold strtoull. solve_u.
Qed.

Lemma text_token_ok ty s line col : (String.length s <= 255)%nat -> token_ok (mkToken ty s 0 line col).
Proof. intros H. split; [simpl; solve_u|done]. Qed.

Lemma next_token_ok lx : token_ok (snd (lexer_next_token lx)).
Proof.
  unfold lexer_next_token, token_here. generalize (skip_whitespace_and_comments lx). clear lx. intros lx.
  repeat case_match; try (apply text_token_ok; simpl; lia);
    unfold read_identifier, read_string, read_number, with_equals, read_at, single.
  - pose proof (read_text_ok is_alnum lx) as [_ H']. destruct (read_text _ _). by apply text_token_ok.
  - repeat case_match; cbn [snd];
      match goal with
      | E : read_text ?p ?l = _ |- _ => pose proof (read_text_ok p l) as [Ha Hl]; rewrite E in Ha, Hl
      end; try by apply text_token_ok.
    + split; [by apply strtoull_range|done].
    + split; [|done]. apply strtoull_range; [done|]. eapply str_all_impl; [|exact Ha].
      intros c Hc. unfold is_hex_digit. by rewrite Hc.
  - pose proof (string_while_ok (lexer_fuel lx) (advance lx)) as H'.
    destruct (while _ _ _ _). case_match; by apply text_token_ok.
  - destruct (is_alpha (current_char (advance lx))); [|apply text_token_ok; simpl; lia].
    pose proof (read_text_ok is_alnum (advance lx)) as [_ H']. destruct (read_text _ _).
    repeat case_match; by apply text_token_ok.
  - case_match; apply text_token_ok; simpl; lia.
  - case_match; apply text_token_ok; simpl; lia.
  - case_match; apply text_token_ok; simpl; lia.
  - case_match; apply text_token_ok; simpl; lia.
Qed.

(** ** Properties *)

(** C4: the lexer inverts the printer: a text that prints any sequence of words,
    numbers up to [UINT64_MAX], symbols and [@] keywords, each after a blank,
    lexes to exactly the tokens of that sequence and then EOF, every number
    with its value. *)
Theorem lexer_inverts_printer ls :
  Forall lexeme_ok ls -> Z.of_nat (String.length (print_lexemes ls)) < 2 ^ 32 ->
  lex_all (S (length ls)) (lexer_init (print_lexemes ls)) =
    map lexeme_token ls ++ [(TOKEN_EOF, ""%string, 0)].
Proof.
  intros Hls Hlen. apply lex_all_print; [lia|done| |done].
  split; [simpl; lia|done].
Qed.

Lemma lexer_inverts_printer_witness :
  lex_all 5 (lexer_init " @filter cot >= 18446744073709551615") =
    map lexeme_token [LSymbol TOKEN_FILTER; LWord "cot"; LSymbol TOKEN_GE; LNumber UINT64_MAX]
      ++ [(TOKEN_EOF, ""%string, 0)].
Proof.
  apply (lexer_inverts_printer
    [LSymbol TOKEN_FILTER; LWord "cot"; LSymbol TOKEN_GE; LNumber UINT64_MAX]).
  - repeat constructor; simpl; try lia; try done. by exists "c"%char, "ot"%string.
  - vm_compute. reflexivity.
Defined.

(** [lexer_next_token] never reads past the terminating NUL, leaves the
    position inside the source and never backwards, consumes at least one
    character for every token other than EOF it returns, starts its token at a
    character that is neither blank nor the start of a comment, and returns EOF
    only at the terminator. *)
Theorem next_token_advances lx ok lx' t :
  lexer_ok lx -> lexer_next_token lx = (ok, lx', t) ->
  lexer_ok lx' /\ lx_source lx' = lx_source lx /\ lx_pos lx <= lx_pos lx' /\
  (ok = true -> t_type t <> TOKEN_EOF -> lx_pos lx < lx_pos lx') /\
  (let start := skip_whitespace_and_comments lx in
   isspace (current_char start) = false /\ comment_start start = false /\
   (t_type t = TOKEN_EOF -> current_char start = NUL)).
Proof.
  intros Hok E. destruct (next_token_progress lx) as [H1 H2]. rewrite E in H1, H2.
  destruct (H1 Hok) as (? & ? & ?). split; [done|split; [done|split; [done|split]]].
  - intros Hb Ht. by apply (H2 (or_introl Hb) Ht).
  - destruct (skip_loop_stops (lexer_fuel lx) lx Hok (suffix_fuel lx Hok)).
    split; [done|split; [done|]]. intros Ht. apply token_here_EOF.
    change (token_here (skip_whitespace_and_comments lx)) with (lexer_next_token lx). by rewrite E.
Qed.

Lemma next_token_advances_witness :
  lexer_ok (lexer_init " // c") /\
  exists lx', lexer_next_token (lexer_init " // c") = (true, lx', mkToken TOKEN_EOF "" 0 1 6) /\
    lexer_ok lx' /\ current_char (skip_whitespace_and_comments (lexer_init " // c")) = NUL.
Proof.
  split; [split; vm_compute; split; congruence|].
  eexists. split; [vm_compute; reflexivity|].
  destruct (next_token_advances (lexer_init " // c") true
    (mkLexer " // c" 5 1 6 "") (mkToken TOKEN_EOF "" 0 1 6)) as (H1 & _ & _ & _ & _ & _ & H2).
  - split; vm_compute; split; congruence.
  - vm_compute. reflexivity.
  - split; [exact H1|by apply H2].
Defined.
