(* ===== verification/Segments.v ===== *)
(** * The segments of a rotated capture (src/src/rxstorageutils.cpp)

    A pattern with a [{seq}] placeholder gives every segment a name of its
    own ([segment_names]): the sequence number is printed in digits, and
    neither the cleaning of the slashes nor the suffixes, which go by the
    slashes and dots of the name, can hide it.  So rotation keeps every packet
    ([rotation_keeps_everything]). *)

From S2P Require Import Prelude CppString Lexer Pcap Storage.

(** ** Texts that differ in a number *)

(** [differ A B k s s']: [s'] is [s] with [k] occurrences of [A] replaced by
    [B]. *)
Inductive differ (A B : string) : nat -> string -> string -> Prop :=
  | differ_nil : differ A B 0 "" ""
  | differ_char c k s s' : differ A B k s s' -> differ A B k (String c s) (String c s')
  | differ_text k s s' : differ A B k s s' -> differ A B (S k) (A +:+ s) (B +:+ s').

Definition number (s : string) : Prop := str_all is_digit s = true /\ s <> "".

Lemma digit_is_not c d : is_digit c = true -> is_digit d = false -> Ascii.eqb c d = false.
Proof. intros Hc Hd. destruct (Ascii.eqb_spec c d) as [->|]; congruence. Qed.

Lemma number_no_char c s : number s -> is_digit c = false -> has_char c s = false.
Proof.
  intros [H _] Hc. induction s as [|d s IH]; [done|]. simpl in H |- *. apply andb_true_iff in H as [Hd Hs].
  by rewrite (digit_is_not d c), IH.
Qed.

Lemma number_head s : number s -> exists c r, s = String c r /\ is_digit c = true.
Proof. intros [H Hne]. destruct s as [|c r]; [done|]. simpl in H. apply andb_true_iff in H as [Hc _]. eauto. Qed.

Section Differ.
Context (A B : string) (HA : number A) (HB : number B).

Lemma differ_same x k s s' : differ A B k s s' -> differ A B k (x +:+ s) (x +:+ s').
Proof. intros H. induction x as [|c x IH]; [done|]. rewrite !str_app_cons. by constructor. Qed.

Lemma differ_app x k s s' : differ A B k s s' -> differ A B k (s +:+ x) (s' +:+ x).
Proof.
  induction 1 as [|c k s s' H IH|k s s' H IH].
  - rewrite str_app_nil. rewrite <- (str_app_nil_r x). apply differ_same. constructor.
  - rewrite !str_app_cons. by constructor.
  - rewrite !str_app_assoc. by constructor.
Qed.

Lemma differ_length k s s' :
  differ A B k s s' -> (String.length s + k * String.length B = String.length s' + k * String.length A)%nat.
Proof. induction 1 as [|c k s s' H IH|k s s' H IH]; rewrite ?str_length_app; simpl; lia. Qed.

Lemma str_app_eq_length a b x y : String.length a = String.length b -> a +:+ x = b +:+ y -> a = b.
Proof.
  revert b. induction a as [|c a IH]; intros [|d b]; try done. rewrite !str_app_cons. intros [=] [= -> E].
  by rewrite (IH b).
Qed.

(** One number in place of another is visible. *)
Lemma differ_ne k s s' : A <> B -> differ A B (S k) s s' -> s <> s'.
Proof.
  intros Hne H E. pose proof (differ_length _ _ _ H) as Hl. rewrite E in Hl.
  assert (String.length A = String.length B) as HAB by nia. clear Hl. revert E.
  remember (S k) as n eqn:En. assert (n <> 0)%nat as Hn by lia. clear En k.
  induction H as [|c n s s' H IH|n s s' H IH]; [done|intros [=]; auto|].
  intros E. by apply str_app_eq_length in E.
Qed.

Lemma differ_has_char c k s s' : is_digit c = false -> differ A B k s s' -> has_char c s = has_char c s'.
Proof.
  intros Hc. induction 1 as [|d k s s' H IH|k s s' H IH]; [done|simpl; by rewrite IH|].
  by rewrite !has_char_app, (number_no_char c A), (number_no_char c B), IH.
Qed.

Lemma differ_prefix c k s s' :
  is_digit c = false -> differ A B k s s' -> is_prefix (String c "") s = is_prefix (String c "") s'.
Proof.
  intros Hc. destruct 1 as [|d k s s' H|k s s' H]; [done|done|].
  destruct (number_head A HA) as (a & ra & -> & Ha), (number_head B HB) as (b & rb & -> & Hb).
  rewrite !str_app_cons. cbn [is_prefix]. by rewrite !(Ascii.eqb_sym c), !digit_is_not.
Qed.

Lemma differ_empty k s s' : differ A B k s s' -> is_empty s = is_empty s'.
Proof.
  destruct 1 as [|d k s s' H|k s s' H]; [done|done|].
  by destruct (number_head A HA) as (a & ra & -> & _), (number_head B HB) as (b & rb & -> & _).
Qed.

Lemma collapse_loop_number n s p : number n -> collapse_loop (n +:+ s) "" p = n +:+ collapse_loop s "" false.
Proof.
  intros [H Hne]. revert p. induction n as [|c n IH]; [done|]. intros p. simpl in H.
  apply andb_true_iff in H as [Hc Hs]. rewrite !str_app_cons. cbn [collapse_loop].
  rewrite (digit_is_not c "/") by done. rewrite collapse_loop_app, push_back_app, str_app_nil. f_equal.
  destruct n as [|d n]; [done|]. by apply IH.
Qed.

Lemma differ_collapse_loop k s s' p :
  differ A B k s s' -> differ A B k (collapse_loop s "" p) (collapse_loop s' "" p).
Proof.
  intros H. revert p. induction H as [|c k s s' H IH|k s s' H IH]; intros p; [constructor| |].
  - cbn [collapse_loop]. destruct (Ascii.eqb c "/"); [destruct p; [apply IH|]|];
      rewrite (collapse_loop_app s), (collapse_loop_app s'); by apply differ_same.
  - rewrite !collapse_loop_number by done. by constructor.
Qed.
End Differ.

(** Nothing to collapse. *)
Lemma collapse_loop_id s p :
  find_str "//" s = None -> (p = true -> is_prefix "/" s = false) -> collapse_loop s "" p = s.
Proof.
  revert p. induction s as [|c s IH]; intros p Hf Hp; [done|]. pose proof (find_str_cons _ _ _ Hf) as Hs.
  cbn [collapse_loop]. destruct (Ascii.eqb_spec c "/") as [->|Hc].
  - destruct p; [by specialize (Hp eq_refl)|]. rewrite collapse_loop_app, push_back_app, str_app_nil, IH; [done..|].
    intros _. destruct (is_prefix "/" s) eqn:E; [|done].
    cbn [find_str] in Hf. change (is_prefix "//" (String "/" s)) with (is_prefix "/" s) in Hf. by rewrite E in Hf.
  - by rewrite collapse_loop_app, push_back_app, str_app_nil, IH.
Qed.

Lemma collapse_is_loop s : collapse s = collapse_loop s "" false.
Proof. unfold collapse. destruct (find_str "//" s) eqn:E; [done|]. by rewrite collapse_loop_id. Qed.

(** [insert_suffix] by recursion. *)
Lemma insert_suffix_cons x c s :
  insert_suffix x (String c s) =
    if has_char "." s then String c (insert_suffix x s)
    else if Ascii.eqb c "." then x +:+ String c s else String c (s +:+ x).
Proof.
  unfold insert_suffix. cbn [rfind_char]. destruct (rfind_char "." s) as [n|] eqn:E.
  - destruct (has_char "." s) eqn:Hh; [done|]. apply rfind_char_none in Hh. congruence.
  - apply rfind_char_none in E. rewrite E. by destruct (Ascii.eqb c ".").
Qed.

Lemma insert_suffix_number x n s : number n ->
  insert_suffix x (n +:+ s) = if has_char "." s then n +:+ insert_suffix x s else (n +:+ s) +:+ x.
Proof.
  intros [H _]. induction n as [|c n IH].
  - rewrite !str_app_nil. destruct (has_char "." s) eqn:E; [done|]. unfold insert_suffix.
    by rewrite (proj2 (rfind_char_none _ _) E).
  - simpl in H. apply andb_true_iff in H as [Hc Hn]. rewrite !str_app_cons, insert_suffix_cons, has_char_app, IH by done.
    assert (has_char "." n = false) as ->.
    { clear -Hn. induction n as [|d n IH]; [done|]. simpl in Hn |- *. apply andb_true_iff in Hn as [Hd Hn].
      by rewrite (digit_is_not d "."), IH. }
    rewrite (digit_is_not c ".") by done. cbn [orb]. by destruct (has_char "." s).
Qed.

Lemma differ_insert_suffix A B x k s s' : number A -> number B ->
  differ A B k s s' -> differ A B k (insert_suffix x s) (insert_suffix x s').
Proof.
  intros HA HB. induction 1 as [|c k s s' H IH|k s s' H IH].
  - change (insert_suffix x "") with x. rewrite <- (str_app_nil_r x). apply differ_same. constructor.
  - rewrite !insert_suffix_cons, <- (differ_has_char A B HA HB "." k s s') by done.
    destruct (has_char "." s); [by constructor|]. destruct (Ascii.eqb c ".").
    + apply differ_same. by constructor.
    + constructor. by apply differ_app.
  - rewrite !insert_suffix_number, <- (differ_has_char A B HA HB "." k s s') by done.
    destruct (has_char "." s); [by constructor|]. apply differ_app. by constructor.
Qed.

Lemma differ_join_path A B base k s s' : number A -> number B ->
  differ A B k s s' -> differ A B k (join_path base s) (join_path base s').
Proof.
  intros HA HB H. unfold join_path.
  rewrite <- (differ_empty A B HA HB k s s'), <- (differ_prefix A B HA HB "/" k s s') by done.
  destruct (is_empty_spec s) as [->|Hne].
  { inversion H as [| |k' t t' Ht E1 E2]; subst.
    - rewrite <- (str_app_nil_r base). apply differ_same. constructor.
    - by destruct (number_head A HA) as (a & ra & -> & _). }
  destruct (is_prefix "/" s); [done|]. destruct (is_empty base); [done|].
  destruct (ends_with "/" base); [by apply differ_same|]. by apply differ_same, differ_same.
Qed.

(** ** The sequence number in a name *)

Definition seq_text (n : Z) : string := str_take 15 (fmt_0d 4 n).

Lemma fmt_digits_short m fuel z : 0 <= z < 10 ^ Z.of_nat (S m) -> (String.length (fmt_digits fuel z) <= S m)%nat.
Proof.
  revert fuel z. induction m as [|m IH]; intros [|fuel] z Hz; cbn [fmt_digits]; try (simpl; lia).
  - destruct (Z.ltb_spec z 10); [simpl; lia|]. simpl in Hz. lia.
  - destruct (Z.ltb_spec z 10); [simpl; lia|]. rewrite str_length_app. cbn [String.length].
    specialize (IH fuel (z / 10)). rewrite Nat2Z.inj_succ, Z.pow_succ_r in Hz by lia.
    assert (0 <= z / 10 < 10 ^ Z.of_nat (S m)).
    { split; [apply Z.div_pos; lia|apply Z.div_lt_upper_bound; lia]. }
    specialize (IH H0). lia.
Qed.

Lemma zeros_digits n s : digits_value 10 0 (zeros n +:+ s) = digits_value 10 0 s /\ str_all is_digit (zeros n) = true.
Proof. induction n as [|n [IH1 IH2]]; [done|exact (conj IH1 IH2)]. Qed.

Lemma seq_text_number n : 0 <= n <= INT_MAX -> number (seq_text n) /\ digits_value 10 0 (seq_text n) = n.
Proof.
  intros Hn. unfold INT_MAX in Hn. unfold seq_text, fmt_0d. destruct (Z.ltb_spec n 0); [lia|].
  destruct (fmt_digits_spec 20 n) as (H1 & H2 & H3); [change (10 ^ Z.of_nat 20) with 100000000000000000000; lia|lia|].
  pose proof (fmt_digits_short 9 20 n ltac:(simpl; lia)) as H4. unfold fmt_u.
  destruct (zeros_digits (4 - String.length (fmt_digits 20 n)) (fmt_digits 20 n)) as [H5 H6].
  rewrite str_take_all.
  - split; [split|].
    + by rewrite str_all_app, H6, H1.
    + intros E. apply (f_equal String.length) in E. rewrite str_length_app in E. cbn [String.length] in E. lia.
    + by rewrite H5, H2.
  - rewrite str_length_app.
    assert (forall k, String.length (zeros k) = k) as -> by (induction k; simpl; lia). lia.
Qed.

(** The pattern has a placeholder [{seq}], as [expand_pattern] reads it. *)
Inductive seq_hole : string -> Prop :=
  | sq_char c s : c <> "{"%char -> seq_hole s -> seq_hole (String c s)
  | sq_skip key s : has_char "}" key = false -> seq_hole s -> seq_hole (String "{" (key +:+ String "}" s))
  | sq_here s : seq_hole ("{seq}" +:+ s).

Section Names.
Context (localtime : Z -> tm) {D : Type} (dc : CRxDumpCtx D) (t : Z).

Lemma expands_differ a b s o h :
  expands localtime (with_seq dc a) t s o h ->
  exists k o', expands localtime (with_seq dc b) t s o' h /\ differ (seq_text a) (seq_text b) k o o' /\
    (seq_hole s -> (0 < k)%nat).
Proof.
  induction 1 as [|c s o h Hne _ (k & o' & He & Hd & Hk)|s o h Hno _ (k & o' & He & Hd & Hk)|key s o h Hkey _ (k & o' & He & Hd & Hk)].
  - exists 0%nat, "". split; [constructor|split; [constructor|]]. intros Hs. inversion Hs.
  - exists k, (String c o'). split; [by constructor|split; [by constructor|]].
    intros Hs. inversion Hs; subst; [auto|done..].
  - exists k, (String "{" o'). split; [by constructor|split; [by constructor|]].
    intros Hs. inversion Hs as [|key s' Hkey Hs' E|s' E]; subst; [done| |].
    + rewrite has_char_app in Hno. simpl in Hno. by rewrite orb_true_r in Hno.
    + done.
  - destruct (String.eqb_spec key "seq") as [->|Hseq].
    + exists (S k), (seq_text b +:+ o'). split; [by apply (exp_hole localtime (with_seq dc b) t "seq")|].
      split; [by constructor|lia].
    + exists k, (placeholder localtime (with_seq dc b) t key +:+ o'). split; [by constructor|].
      rewrite (placeholder_ext localtime (with_seq dc a) (with_seq dc b)) by (repeat split || by right).
      split; [by apply differ_same|]. intros Hs. apply Hk. clear -Hs Hkey Hseq.
      inversion Hs as [|key' s' Hkey' Hs' E|s' E]; subst; [done| |].
      * by apply split_unique in E as [-> ->].
      * change ("seq}" +:+ s') with ("seq" +:+ String "}" s') in E. apply split_unique in E as [<- _]; [done|done|done].
Qed.
End Names.

(** Different sequence numbers give different names. *)
Lemma segment_names localtime {D} now (dc : CRxDumpCtx D) a b :
  seq_hole (pattern_of dc) -> 0 <= a <= INT_MAX -> 0 <= b <= INT_MAX ->
  path_of localtime now dc a = path_of localtime now dc b -> a = b.
Proof.
  intros Hs Ha Hb E. destruct (seq_text_number a Ha) as [Na Va], (seq_text_number b Hb) as [Nb Vb].
  destruct (Z.eq_dec a b) as [|Hne]; [done|]. exfalso.
  destruct (expand_pattern_done localtime now (with_seq dc a)) as (o & h & He & Hpa).
  destruct (expands_differ localtime dc _ a b _ o h He) as (k & o' & He' & Hd & Hk).
  destruct (expand_pattern_done localtime now (with_seq dc b)) as (o2 & h2 & He2 & Hpb).
  destruct (expands_functional _ _ _ _ _ _ _ _ He2 He') as [-> ->].
  unfold path_of in E. rewrite Hpa, Hpb in E. specialize (Hk Hs). destruct k as [|k]; [lia|].
  revert E. apply (differ_ne (seq_text a) (seq_text b) k); [congruence|].
  unfold file_name. cbn [dc_base_dir dc_port dc_protocol_filter_path with_seq].
  apply differ_join_path; [done..|]. rewrite !collapse_is_loop.
  set (c := collapse_loop o "" false). set (c' := collapse_loop o' "" false).
  assert (differ (seq_text a) (seq_text b) (S k) c c') as Hc by by apply differ_collapse_loop.
  destruct ((0 <? dc_port dc) && negb h), (is_empty (dc_protocol_filter_path dc)); try done;
    repeat apply differ_insert_suffix; done.
Qed.

(** ** Properties *)

(** C15: no packet is lost by rotation when the pattern has a [{seq}].  If
    every file opens and neither the sequence number nor the byte counter can
    overflow, then after any packets the segments, in order and under
    different names, hold the packets already in the open file followed by the
    new ones; every segment has at most [max_bytes] bytes or is a single
    packet; and no other file is touched. *)
Theorem rotation_keeps_everything localtime `{Pcap W D R} now (dc : CRxDumpCtx D) w l pks :
  (forall p w, fst (pcap_dump_open p w) <> None) -> seq_hole (pattern_of dc) ->
  writing localtime now dc dc w l -> fits (dc_max_bytes dc) l ->
  0 <= dc_seq dc -> dc_seq dc + Z.of_nat (length pks) <= INT_MAX ->
  Forall packet_ok (l ++ pks) -> total_bytes (l ++ pks) <= LONG_MAX ->
  exists dc' w' segs last, dump_all localtime now dc pks w = Done (dc', w') /\
    writing localtime now dc dc' w' last /\
    concat (segs ++ [last]) = l ++ pks /\ dc_seq dc' = dc_seq dc + Z.of_nat (length segs) /\
    dumped localtime now dc (dc_seq dc) (length pks) w w' (segs ++ [last]).
Proof.
  intros Hopens Hseq Hw Hfit H0 Hmax Hok Htot. apply dump_all_segments; try done.
  intros i j Hi Hj E. apply segment_names in E; [lia|done|lia..].
Qed.

Lemma rotation_keeps_everything_witness :
  exists dc' w' segs last,
    @dump_all demo_time _ _ _ (MemFs ∅) 0 (demo_dc "{iface}-{seq}.pcap" "cap/eth0-0001.pcap")
      [demo_packet 40; demo_packet 60] (demo_fs "cap/eth0-0001.pcap") = Done (dc', w') /\
    concat (segs ++ [last]) = [demo_packet 40; demo_packet 40; demo_packet 60].
Proof.
  destruct (@rotation_keeps_everything demo_time _ _ _ (MemFs ∅) 0
              (demo_dc "{iface}-{seq}.pcap" "cap/eth0-0001.pcap") (demo_fs "cap/eth0-0001.pcap")
              [demo_packet 40] [demo_packet 40; demo_packet 60])
    as (dc' & w' & segs & last & Hd & _ & Hc & _ & _).
  - apply MemFs_opens.
  - change (seq_hole (String "{" ("iface" +:+ String "}" "-{seq}.pcap"))).
    apply sq_skip; [reflexivity|]. apply sq_char; [discriminate|]. apply (sq_here ".pcap").
  - apply demo_writing. reflexivity.
  - right; right. reflexivity.
  - simpl. lia.
  - simpl. unfold INT_MAX. lia.
  - repeat constructor; simpl; lia.
  - vm_compute. discriminate.
  - exists dc', w', segs, last. split; [exact Hd|exact Hc].
Defined.
