(* ===== verification/Parser.v ===== *)
(** * Parser of the PDEF language (src/src/pdef/parser.c, first half)

    The recursive-descent parser: its state ([Parser]: lexer, two tokens of
    lookahead, the tables under construction), the token primitives, one
    definition per block of the grammar and [pdef_parse_string].  A parser
    operation is a [parserM]: it takes the state and returns a result with the
    next state, the message of [parser_error], or [Undef] where the C code
    leaves the bounds of an array.  Every C loop is a [loop] whose fuel is
    computed from the source length; [ParserCorrect] proves it is enough. *)

From S2P Require Import Prelude Endian PdefTypes Executor Compiler Protocol Lexer.

(** ** State and monad *)

(** [p_structs] is [temp_structs[0 .. struct_count)] and [p_rules] is
    [temp_filter_rules[0 .. filter_count)]; [p_proto] holds the other members
    of [*p->proto]. *)
Record Parser := mkParser {
  p_lexer : Lexer;
  p_current : Token;
  p_peek : Token;
  p_proto : ProtocolDef;
  p_structs : list StructDef;
  p_rules : list TempFilterRule;
  p_endian_set : bool;
}.

Definition temp_struct_cap : nat := 16.
Definition temp_filter_rule_cap : nat := 16.

Definition parserM (A : Type) : Type := Parser -> outcome (A * Parser).

#[export] Instance parserM_ret : MRet parserM := fun A a p => Done (a, p).
#[export] Instance parserM_bind : MBind parserM := fun A B k m p =>
  match m p with
  | Done (a, p') => k a p'
  | Fails e => Fails e
  | Undef => Undef
  | NoFuel => NoFuel
  end.

Definition fail {A} (msg : string) : parserM A := fun _ => parser_error msg.
(** [return false] without a message. *)
Definition fail_silently {A} : parserM A := fun _ => Fails "".
Definition undef {A} : parserM A := fun _ => Undef.

(** [p->current_token] *)
Definition current : parserM Token := fun p => Done (p_current p, p).

Definition get_proto : parserM ProtocolDef := fun p => Done (p_proto p, p).

Definition put_proto (d : ProtocolDef) : parserM unit := fun p =>
  Done (tt, mkParser (p_lexer p) (p_current p) (p_peek p) d (p_structs p) (p_rules p) (p_endian_set p)).

(** Iterations of a loop that consumes a token each time around. *)
Definition parser_fuel (p : Parser) : nat := 3 * String.length (lx_source (p_lexer p)) + 4.

Fixpoint loop_n {A} (n : nat) (body : A -> parserM (A + A)) (a : A) : parserM A :=
  match n with
  | O => fun _ => NoFuel
  | S n' => r ← body a; match r with inl a' => loop_n n' body a' | inr a' => mret a' end
  end.

(** A loop whose body says [inl] to go round again and [inr] to leave. *)
Definition loop {A} (body : A -> parserM (A + A)) (a : A) : parserM A :=
  fun p => loop_n (parser_fuel p) body a p.

(** ** Tokens *)

(** The value of the enumerator in [lexer.h]. *)
Definition token_code (t : TokenType) : Z :=
  match t with
  | TOKEN_IDENTIFIER => 0 | TOKEN_NUMBER => 1 | TOKEN_STRING => 2
  | TOKEN_PROTOCOL => 3 | TOKEN_CONST => 4 | TOKEN_FILTER => 5
  | TOKEN_UINT8 => 6 | TOKEN_UINT16 => 7 | TOKEN_UINT32 => 8 | TOKEN_UINT64 => 9
  | TOKEN_INT8 => 10 | TOKEN_INT16 => 11 | TOKEN_INT32 => 12 | TOKEN_INT64 => 13
  | TOKEN_BYTES => 14 | TOKEN_STRING_TYPE => 15 | TOKEN_VARBYTES => 16
  | TOKEN_LBRACE => 17 | TOKEN_RBRACE => 18 | TOKEN_LBRACKET => 19 | TOKEN_RBRACKET => 20
  | TOKEN_SEMICOLON => 21 | TOKEN_COMMA => 22 | TOKEN_DOT => 23 | TOKEN_ASSIGN => 24
  | TOKEN_EQ => 25 | TOKEN_NE => 26 | TOKEN_LT => 27 | TOKEN_LE => 28
  | TOKEN_GT => 29 | TOKEN_GE => 30 | TOKEN_AND => 31 | TOKEN_OR => 32
  | TOKEN_IN => 33 | TOKEN_NOT => 34 | TOKEN_AT => 35
  | TOKEN_EOF => 36 | TOKEN_ERROR => 37
  end.

Definition is_type (t : Token) (ty : TokenType) : bool := bool_decide (t_type t = ty).

(** Most callers ignore the result, which is the lexer's. *)
Definition parser_next_token : parserM bool := fun p =>
  let '(ok, lx, t) := lexer_next_token (p_lexer p) in
  Done (ok, mkParser lx (p_peek p) t (p_proto p) (p_structs p) (p_rules p) (p_endian_set p)).

(** A lexer error makes it fail without [parser_error]: the message stays
    empty. *)
Definition parser_expect (ty : TokenType) : parserM unit :=
  t ← current;
  if is_type t ty then
    ok ← parser_next_token;
    if ok : bool then mret tt else fail_silently
  else fail ("Expected token type " +:+ fmt_d (token_code ty) +:+ ", got "
             +:+ fmt_d (token_code (t_type t)) +:+ " at line " +:+ fmt_u (t_line t)).

(** [if (current == TOKEN_SEMICOLON) parser_next_token(p);] *)
Definition skip_semicolon : parserM unit :=
  t ← current;
  if is_type t TOKEN_SEMICOLON then _ ← parser_next_token; mret tt else mret tt.

(** A block body: entries until the closing brace. *)
Definition until_rbrace {A} (entry : A -> parserM A) : A -> parserM A :=
  loop (fun a => t ← current;
                 if is_type t TOKEN_RBRACE then mret (inr a) else a' ← entry a; mret (inl a')).

(** ** Field paths *)

Definition append_token (out : string) (out_size : nat) (token : string) : parserM string :=
  if (out_size <=? String.length out + String.length token)%nat
  then fail "Field path too long"
  else mret (out +:+ token).

(** One index of a path, if there is one. *)
Definition path_index (out_size : nat) (out : string) : parserM (string + string) :=
  t ← current;
  if is_type t TOKEN_LBRACKET then
    out ← append_token out out_size "[";
    _ ← parser_next_token;
    t ← current;
    if is_type t TOKEN_NUMBER then
      out ← append_token out out_size (fmt_u (t_value t));
      _ ← parser_next_token;
      _ ← parser_expect TOKEN_RBRACKET;
      out ← append_token out out_size "]";
      mret (inl out)
    else fail "Expected index inside []"
  else mret (inr out).

(** One component of a path with its indices. *)
Definition path_component (out_size : nat) (out : string) : parserM (string + string) :=
  t ← current;
  out ← append_token out out_size (t_text t);
  _ ← parser_next_token;
  out ← loop (path_index out_size) out;
  t ← current;
  if is_type t TOKEN_DOT then
    out ← append_token out out_size ".";
    _ ← parser_next_token;
    t ← current;
    if is_type t TOKEN_IDENTIFIER then mret (inl out) else fail "Expected field name after '.'"
  else mret (inr out).

Definition parse_field_path (out_size : nat) : parserM string :=
  t ← current;
  if is_type t TOKEN_IDENTIFIER then loop (path_component out_size) ""
  else fail "Expected field name".

(** ** Initial state and constants *)

(** [memset(p, 0, sizeof(Parser))]: the zero token. *)
Definition zero_token : Token := mkToken TOKEN_IDENTIFIER "" 0 0 0.

Definition init_proto : ProtocolDef :=
  mkProtocolDef "" None 0 ENDIAN_BIG [] [] [] ENDIAN_MODE_AUTO ENDIAN_TYPE_UNKNOWN 0 "".

(** With memory available; the first [lexer_next_token] fills the lookahead,
    [parser_next_token] the current token. *)
Definition parser_init (source : string) : Parser :=
  let '(_, lx, t) := lexer_next_token (lexer_init source) in
  let '(_, lx', t') := lexer_next_token lx in
  mkParser lx' t t' init_proto [] [] false.

(** [p->proto] with one member changed. *)
Definition with_name (d : ProtocolDef) (n : string) : ProtocolDef :=
  mkProtocolDef n (pd_ports d) (pd_port_count d) (pd_default_endian d) (pd_structs d) (pd_filters d)
    (pd_constants d) (pd_endian_mode d) (pd_detected_endian d) (pd_endian_writeback_done d)
    (pd_pdef_file_path d).

Definition with_endian (d : ProtocolDef) (e : Endian) (m : EndianMode) : ProtocolDef :=
  mkProtocolDef (pd_name d) (pd_ports d) (pd_port_count d) e (pd_structs d) (pd_filters d)
    (pd_constants d) m (pd_detected_endian d) (pd_endian_writeback_done d) (pd_pdef_file_path d).

Definition without_ports (d : ProtocolDef) : ProtocolDef :=
  mkProtocolDef (pd_name d) None 0 (pd_default_endian d) (pd_structs d) (pd_filters d)
    (pd_constants d) (pd_endian_mode d) (pd_detected_endian d) (pd_endian_writeback_done d)
    (pd_pdef_file_path d).

Definition with_constants (d : ProtocolDef) (cs : list ConstantEntry) : ProtocolDef :=
  mkProtocolDef (pd_name d) (pd_ports d) (pd_port_count d) (pd_default_endian d) (pd_structs d)
    (pd_filters d) cs (pd_endian_mode d) (pd_detected_endian d) (pd_endian_writeback_done d)
    (pd_pdef_file_path d).

Definition with_results (d : ProtocolDef) (ss : list StructDef) (fs : list FilterRule) : ProtocolDef :=
  mkProtocolDef (pd_name d) (pd_ports d) (pd_port_count d) (pd_default_endian d) ss fs
    (pd_constants d) (pd_endian_mode d) (pd_detected_endian d) (pd_endian_writeback_done d)
    (pd_pdef_file_path d).

Definition with_file (d : ProtocolDef) (path : string) : ProtocolDef :=
  mkProtocolDef (pd_name d) (pd_ports d) (pd_port_count d) (pd_default_endian d) (pd_structs d)
    (pd_filters d) (pd_constants d) (pd_endian_mode d) (pd_detected_endian d)
    (pd_endian_writeback_done d) path.

(** The new entry goes to the head of the list. *)
Definition add_constant (name : string) (value : Z) : parserM unit :=
  d ← get_proto;
  put_proto (with_constants d (mkConstant (str_take 63 name) value :: pd_constants d)).

Definition lookup_constant (name : string) : parserM (option Z) :=
  d ← get_proto;
  mret (protocol_find_constant (Some d) (Some name)).

(** ** [@protocol] *)

(** [name = ...] after the [=]; [sizeof(p->proto->name)] is 64. *)
Definition protocol_name : parserM unit :=
  t ← current;
  if is_type t TOKEN_STRING || is_type t TOKEN_IDENTIFIER then
    d ← get_proto;
    _ ← put_proto (with_name d (str_take 63 (t_text t)));
    _ ← parser_next_token;
    mret tt
  else fail "Expected string or identifier for protocol name".

Definition set_endian (e : Endian) (m : EndianMode) : parserM unit := fun p =>
  Done (tt, mkParser (p_lexer p) (p_current p) (p_peek p) (with_endian (p_proto p) e m)
              (p_structs p) (p_rules p) true).

Definition protocol_endian : parserM unit :=
  t ← current;
  if is_type t TOKEN_IDENTIFIER then
    _ ← (if String.eqb (t_text t) "big" then set_endian ENDIAN_BIG ENDIAN_MODE_BIG
         else if String.eqb (t_text t) "little" then set_endian ENDIAN_LITTLE ENDIAN_MODE_LITTLE
         else if String.eqb (t_text t) "auto" then set_endian ENDIAN_BIG ENDIAN_MODE_AUTO
         else fail ("Expected 'big' or 'little' or 'auto' for endian, got '" +:+ t_text t +:+ "'"));
    _ ← parser_next_token;
    mret tt
  else fail "Expected 'big' or 'little' or 'auto' for endian".

(** The [do ... while] over the deprecated port list. *)
Definition port_entry (_ : unit) : parserM (unit + unit) :=
  t ← current;
  _ ← (if is_type t TOKEN_COMMA then parser_next_token else mret true);
  t ← current;
  if is_type t TOKEN_NUMBER then
    _ ← parser_next_token;
    t ← current;
    if is_type t TOKEN_COMMA then mret (inl tt) else mret (inr tt)
  else fail "Expected port number".

Definition protocol_ports : parserM unit :=
  _ ← loop port_entry tt;
  d ← get_proto;
  put_proto (without_ports d).

(** One [key = value] entry.  [key] is 64 bytes on the stack, filled by
    [strncpy(key, text, 63)] and never terminated beyond that, so printing an
    unknown key of 63 characters or more reads an uninitialised byte. *)
Definition protocol_entry (_ : unit) : parserM unit :=
  t ← current;
  if is_type t TOKEN_IDENTIFIER then
    let key := str_take 63 (t_text t) in
    _ ← parser_next_token;
    _ ← parser_expect TOKEN_ASSIGN;
    _ ← (if String.eqb key "name" then protocol_name
         else if String.eqb key "endian" then protocol_endian
         else if String.eqb key "ports" then protocol_ports
         else if (63 <=? String.length (t_text t))%nat then undef
         else fail ("Unknown protocol metadata key: " +:+ key));
    skip_semicolon
  else fail "Expected identifier in @protocol block".

Definition parse_protocol_block : parserM unit :=
  _ ← parser_expect TOKEN_PROTOCOL;
  _ ← parser_expect TOKEN_LBRACE;
  _ ← until_rbrace protocol_entry tt;
  parser_expect TOKEN_RBRACE.

(** ** [@const] *)

Definition const_entry (_ : unit) : parserM unit :=
  t ← current;
  if is_type t TOKEN_IDENTIFIER then
    let name := str_take 63 (t_text t) in
    _ ← parser_next_token;
    _ ← parser_expect TOKEN_ASSIGN;
    t ← current;
    if is_type t TOKEN_NUMBER then
      let value := t_value t in
      _ ← parser_next_token;
      _ ← add_constant name value;
      skip_semicolon
    else fail "Expected constant value"
  else fail "Expected constant name".

Definition parse_const_block : parserM unit :=
  _ ← parser_expect TOKEN_CONST;
  _ ← parser_expect TOKEN_LBRACE;
  _ ← until_rbrace const_entry tt;
  parser_expect TOKEN_RBRACE.

(** ** [@filter] *)

(** A number or the name of a constant, and the token after it. *)
Definition filter_value (expected : string) : parserM Z :=
  t ← current;
  v ← (if is_type t TOKEN_NUMBER then mret (t_value t)
       else if is_type t TOKEN_IDENTIFIER then
         c ← lookup_constant (t_text t);
         match c with
         | Some v => mret v
         | None => fail ("Undefined constant '" +:+ t_text t +:+ "'")
         end
       else fail expected);
  _ ← parser_next_token;
  mret v.

Definition with_sliding (r : TempFilterRule) (b : bool) : TempFilterRule :=
  mkTempRule (tf_name r) (tf_struct_name r) (tf_conditions r) b (tf_sliding_max_offset r).

Definition with_sliding_max (r : TempFilterRule) (z : Z) : TempFilterRule :=
  mkTempRule (tf_name r) (tf_struct_name r) (tf_conditions r) (tf_sliding_window r) z.

Definition with_condition (r : TempFilterRule) (c : FilterCondition) : TempFilterRule :=
  mkTempRule (tf_name r) (tf_struct_name r) (tf_conditions r ++ [c]) (tf_sliding_window r)
    (tf_sliding_max_offset r).

(** [sliding = true | false | number] *)
Definition filter_sliding (r : TempFilterRule) : parserM TempFilterRule :=
  _ ← parser_next_token;
  _ ← parser_expect TOKEN_ASSIGN;
  t ← current;
  b ← (if is_type t TOKEN_IDENTIFIER then
         if String.eqb (t_text t) "true" then mret true
         else if String.eqb (t_text t) "false" then mret false
         else fail "Expected 'true' or 'false' for sliding"
       else if is_type t TOKEN_NUMBER then mret (negb (t_value t =? 0))
       else fail "Expected boolean value for sliding");
  _ ← parser_next_token;
  _ ← skip_semicolon;
  mret (with_sliding r b).

Definition filter_sliding_max (r : TempFilterRule) : parserM TempFilterRule :=
  _ ← parser_next_token;
  _ ← parser_expect TOKEN_ASSIGN;
  t ← current;
  if is_type t TOKEN_NUMBER then
    _ ← parser_next_token;
    _ ← skip_semicolon;
    mret (with_sliding_max r (u32 (t_value t)))
  else fail "Expected number for sliding_max".

(** One element of a value list and what follows it. *)
Definition list_value (values : list Z) : parserM (list Z + list Z) :=
  v ← filter_value "Expected value in list";
  t ← current;
  if is_type t TOKEN_COMMA then _ ← parser_next_token; mret (inl (values ++ [v]))
  else if is_type t TOKEN_RBRACKET then _ ← parser_next_token; mret (inr (values ++ [v]))
  else fail "Expected ',' or ']' in list".

(** [\[v, v, ...\]] of IN and NOT IN. *)
Definition value_list : parserM (list Z) :=
  _ ← parser_next_token;
  _ ← parser_expect TOKEN_LBRACKET;
  values ← loop list_value [];
  if u32 (Z.of_nat (length values)) =? 0 then fail "Empty value list is not allowed" else mret values.

(** The [switch] on the comparison operator. *)
Definition comparison (t : Token) : option ConditionOp :=
  match t_type t with
  | TOKEN_ASSIGN | TOKEN_EQ => Some COND_EQ
  | TOKEN_NE => Some COND_NE
  | TOKEN_GT => Some COND_GT
  | TOKEN_GE => Some COND_GE
  | TOKEN_LT => Some COND_LT
  | TOKEN_LE => Some COND_LE
  | _ => None
  end.

(** What follows a field path that is not a mask. *)
Definition condition_tail (name : string) : parserM FilterCondition :=
  t ← current;
  let negate := is_type t TOKEN_NOT in
  _ ← (if negate then parser_next_token else mret true);
  t ← current;
  if is_type t TOKEN_IN || (is_type t TOKEN_IDENTIFIER && String.eqb (t_text t) "in") then
    values ← value_list;
    mret (mkCond name (if negate then COND_NOT_IN else COND_IN) 0 0 values)
  else
    match comparison t with
    | None => fail "Expected comparison operator"
    | Some op =>
        _ ← parser_next_token;
        v ← filter_value "Expected value";
        mret (mkCond name op v 0 [])
    end.

(** [path & mask = value] *)
Definition condition_mask (name : string) : parserM FilterCondition :=
  _ ← parser_next_token;
  mask ← filter_value "Expected mask value";
  _ ← parser_expect TOKEN_ASSIGN;
  v ← filter_value "Expected value";
  mret (mkCond name COND_MASK v mask []).

(** One condition; [sizeof(cond->field_name)] is 128. *)
Definition filter_condition (r : TempFilterRule) : parserM TempFilterRule :=
  t ← current;
  if is_type t TOKEN_IDENTIFIER then
    path ← parse_field_path 128;
    let name := str_take 127 path in
    t ← current;
    c ← (if is_type t TOKEN_AND then condition_mask name else condition_tail name);
    _ ← skip_semicolon;
    mret (with_condition r c)
  else fail "Expected field name or configuration".

(** One entry of a filter: a setting or a condition. *)
Definition filter_entry (r : TempFilterRule) : parserM TempFilterRule :=
  t ← current;
  if is_type t TOKEN_IDENTIFIER && String.eqb (t_text t) "sliding" then filter_sliding r
  else if is_type t TOKEN_IDENTIFIER && String.eqb (t_text t) "sliding_max" then filter_sliding_max r
  else filter_condition r.

Definition get_rules : parserM (list TempFilterRule) := fun p => Done (p_rules p, p).

(** [filter_count++] and [temp_filter_rule_count++] *)
Definition push_rule (r : TempFilterRule) : parserM unit := fun p =>
  Done (tt, mkParser (p_lexer p) (p_current p) (p_peek p) (p_proto p) (p_structs p)
              (p_rules p ++ [r]) (p_endian_set p)).

Definition parse_filter_block : parserM unit :=
  _ ← parser_expect TOKEN_FILTER;
  t ← current;
  if is_type t TOKEN_IDENTIFIER then
    rules ← get_rules;
    if (temp_filter_rule_cap <=? length rules)%nat then fail "Too many filters"
    else
      let rule := mkTempRule (str_take 63 (t_text t)) "" [] false 0 in
      _ ← parser_next_token;
      _ ← parser_expect TOKEN_LBRACE;
      rule ← until_rbrace filter_entry rule;
      _ ← push_rule rule;
      parser_expect TOKEN_RBRACE
  else fail "Expected filter name".

(** ** Structs *)

Definition token_to_field_type (t : Token) : FieldType :=
  match t_type t with
  | TOKEN_UINT8 => FIELD_TYPE_UINT8
  | TOKEN_UINT16 => FIELD_TYPE_UINT16
  | TOKEN_UINT32 => FIELD_TYPE_UINT32
  | TOKEN_UINT64 => FIELD_TYPE_UINT64
  | TOKEN_INT8 => FIELD_TYPE_INT8
  | TOKEN_INT16 => FIELD_TYPE_INT16
  | TOKEN_INT32 => FIELD_TYPE_INT32
  | TOKEN_INT64 => FIELD_TYPE_INT64
  | TOKEN_BYTES => FIELD_TYPE_BYTES
  | TOKEN_STRING_TYPE => FIELD_TYPE_STRING
  | TOKEN_VARBYTES => FIELD_TYPE_VARBYTES
  | TOKEN_IDENTIFIER => FIELD_TYPE_NESTED
  | _ => FIELD_TYPE_UINT8
  end.

Definition is_sized (ty : FieldType) : bool :=
  match ty with FIELD_TYPE_BYTES | FIELD_TYPE_STRING => true | _ => false end.

(** [f->size]: from [\[N\]] for [bytes] and [string], from the type for the
    other scalars, zero for a nested struct. *)
Definition field_size (ty : FieldType) : parserM Z :=
  if is_sized ty then
    t ← current;
    if is_type t TOKEN_LBRACKET then
      _ ← parser_next_token;
      t ← current;
      if is_type t TOKEN_NUMBER then
        _ ← parser_next_token;
        _ ← parser_expect TOKEN_RBRACKET;
        mret (u32 (t_value t))
      else fail "Expected array size"
    else fail "bytes/string requires array size [N]"
  else mret (if decide (ty = FIELD_TYPE_NESTED) then 0 else field_type_size ty).

(** [f->name] from the texts of the type and name tokens; the name field is
    128 bytes, the two intermediate buffers 64. *)
Definition field_name (ty : FieldType) (type_text name_text : string) : string :=
  let type_name := str_take 63 type_text in
  let name := str_take 63 name_text in
  if decide (ty = FIELD_TYPE_NESTED) then str_take 127 (type_name +:+ "." +:+ name)
  else str_take 127 name.

(** [f->is_array] and [f->array_size] from an optional [\[N\]]. *)
Definition field_array (ty : FieldType) : parserM (bool * Z) :=
  t ← current;
  if is_type t TOKEN_LBRACKET then
    if decide (ty = FIELD_TYPE_NESTED) then
      _ ← parser_next_token;
      t ← current;
      if is_type t TOKEN_NUMBER then
        if u32 (t_value t) =? 0 then fail "Array size must be greater than 0"
        else
          _ ← parser_next_token;
          _ ← parser_expect TOKEN_RBRACKET;
          mret (true, u32 (t_value t))
      else fail "Expected array size after '['"
    else fail "Array syntax is only supported for nested struct fields"
  else mret (false, 1).

(** One field of a struct. *)
Definition struct_field (s : StructDef) : parserM StructDef :=
  if s_has_variable s then
    fail ("Variable-length field must be the last field in struct '" +:+ s_name s +:+ "'")
  else
    t ← current;
    let ty := token_to_field_type t in
    _ ← parser_next_token;
    size ← field_size ty;
    n ← current;
    if is_type n TOKEN_IDENTIFIER then
      let name := field_name ty (t_text t) (t_text n) in
      _ ← parser_next_token;
      arr ← field_array ty;
      d ← get_proto;
      let variable := bool_decide (ty = FIELD_TYPE_VARBYTES) in
      let f := mkField name ty 0 size (pd_default_endian d) variable (fst arr) (snd arr) in
      _ ← skip_semicolon;
      mret (mkStructDef (s_name s) (s_fields s ++ [f]) (s_min_size s) variable)
    else fail "Expected field name".

Definition get_structs : parserM (list StructDef) := fun p => Done (p_structs p, p).

(** [struct_count++] *)
Definition push_struct (s : StructDef) : parserM unit := fun p =>
  Done (tt, mkParser (p_lexer p) (p_current p) (p_peek p) (p_proto p) (p_structs p ++ [s])
              (p_rules p) (p_endian_set p)).

(** The slot [temp_structs[struct_count]] is written without a check against
    [temp_struct_cap]. *)
Definition parse_struct_def : parserM unit :=
  t ← current;
  if is_type t TOKEN_IDENTIFIER then
    structs ← get_structs;
    if (temp_struct_cap <=? length structs)%nat then undef
    else
      let s := mkStructDef (str_take 63 (t_text t)) [] 0 false in
      _ ← parser_next_token;
      _ ← parser_expect TOKEN_LBRACE;
      s ← until_rbrace struct_field s;
      _ ← push_struct s;
      parser_expect TOKEN_RBRACE
  else fail "Expected struct name".

(** ** The whole source *)

(** The [switch] of the top-level loop. *)
Definition top_level (_ : unit) : parserM (unit + unit) :=
  t ← current;
  match t_type t with
  | TOKEN_EOF => mret (inr tt)
  | TOKEN_PROTOCOL => _ ← parse_protocol_block; mret (inl tt)
  | TOKEN_CONST => _ ← parse_const_block; mret (inl tt)
  | TOKEN_FILTER => _ ← parse_filter_block; mret (inl tt)
  | TOKEN_IDENTIFIER => _ ← parse_struct_def; mret (inl tt)
  | _ => fail "Unexpected token at top level"
  end.

(** Parsing, layout and compilation: the part of [pdef_parse_string] before
    its success and error exits. *)
Definition pdef_parse (source : string) : outcome ProtocolDef :=
  '(_, p) ← loop top_level tt (parser_init source);
  structs ← flatten_structs (p_structs p);
  filters ← compile_filter_rules structs (p_rules p);
  Done (with_results (p_proto p) structs filters).

(** [parser_cleanup(p)]: a null [p->proto] makes it skip the struct table, a
    live one gives it [struct_count]; a freed one is read. *)
Inductive proto_pointer := Null | Live | Freed.

Definition parser_cleanup (temp_structs_null : bool) (proto : proto_pointer) : outcome unit :=
  match temp_structs_null, proto with
  | false, Freed => Undef
  | _, _ => Done tt
  end.

(** The caller's error buffer of [error_size] bytes and the returned pointer.
    The error exit frees [p->proto] and then calls [parser_cleanup]. *)
Definition pdef_parse_string (source : string) (error_size : Z) : option string * outcome (option ProtocolDef) :=
  match pdef_parse source with
  | Done d => (None, _ ← parser_cleanup true Null; Done (Some d))
  | Fails msg =>
      (if 0 <? error_size then Some (str_take (Z.to_nat (error_size - 1)) msg) else None,
       _ ← parser_cleanup false Freed; Done None)
  | Undef => (None, Undef)
  | NoFuel => (None, NoFuel)
  end.

(** [None] as contents is a file that cannot be opened; a source ends at its
    first NUL. *)
Definition pdef_parse_file (contents : option string) (filename : string) (error_size : Z)
    : option string * outcome (option ProtocolDef) :=
  match contents with
  | None => (if 0 <? error_size
             then Some (str_take (Z.to_nat (error_size - 1)) ("Failed to open file: " +:+ filename))
             else None, Done None)
  | Some source =>
      let '(err, r) := pdef_parse_string source error_size in
      (err, d ← r; Done (option_map (fun d => with_file d (str_take 255 filename)) d))
  end.

(** A source with every kind of block. *)
Definition demo_source : string :=
  "// telecontrol frames
@protocol { name = IEC; endian = big; ports = 2404, 2405; }
@const { SPI = 0x64; ACT = 6; DEACT = 8; }
Head { uint8 start; uint8 len; }
Frame { Head h; uint16 cot; Head tail[2]; bytes[3] ioa; varbytes rest; }
@filter Commands {
  h.start = 104;
  cot in [ACT, DEACT];
  tail[1].len & 0xF0 = 16;
  sliding = true; sliding_max = 32;
}
@filter Others { cot ! in [6]; h.len >= 4; }
".

(** The parser state at the end of a source that parses. *)
Definition parsed (source : string) : option Parser :=
  match loop top_level tt (parser_init source) with Done (_, p) => Some p | _ => None end.

Definition demo_def : ProtocolDef :=
  match pdef_parse demo_source with Done d => d | _ => init_proto end.

Example demo_parses :
  pdef_parse demo_source = Done demo_def /\
  option_map p_rules (parsed demo_source) = Some
    [ mkTempRule "Commands" ""
        [ mkCond "h.start" COND_EQ 104 0 []; mkCond "cot" COND_IN 0 0 [6; 8];
          mkCond "tail[1].len" COND_MASK 16 240 [] ] true 32;
      mkTempRule "Others" ""
        [ mkCond "cot" COND_NOT_IN 0 0 [6]; mkCond "h.len" COND_GE 4 0 [] ] false 0 ]%string /\
  map (fun s => (s_name s, s_min_size s, map (fun f => (f_name f, f_offset f)) (s_fields s)))
      (pd_structs demo_def) =
    [ ("Head", 2, [("start", 0); ("len", 1)]);
      ("Frame", 11, [("h.start", 0); ("h.len", 1); ("cot", 2); ("tail[0].start", 4); ("tail[0].len", 5);
                     ("tail[1].start", 6); ("tail[1].len", 7); ("ioa", 8); ("rest", 11)]) ]%string /\
  pd_constants demo_def = [mkConstant "DEACT" 8; mkConstant "ACT" 6; mkConstant "SPI" 100].
Proof. do 3 (split; [vm_compute; reflexivity|]). vm_compute. reflexivity. Qed.
