(* ===== verification/ParserCorrect.v ===== *)
(** * Correctness of the parser

    [spec m p Q] says that the parser operation [m] started in [p] does not
    run out of fuel and, if it succeeds, keeps the parser invariant, consumes
    input and ends in [Q].  One specification per grammar rule gives
    termination of the whole parser and the well-formedness of what it
    builds ([parsed_ok]). *)

From S2P Require Import Prelude Endian PdefTypes Executor Compiler CompilerCorrect Protocol Lexer Parser.

(** ** The measure of a parser *)

(** A token that was lexed by consuming input. *)
Definition live (t : Token) : bool := negb (is_type t TOKEN_EOF) && negb (is_type t TOKEN_ERROR).

Definition remaining (lx : Lexer) : nat := String.length (lx_source lx) - Z.to_nat (lx_pos lx).

(** Lookahead tokens count less than the characters they were read from. *)
Definition measure (p : Parser) : nat :=
  3 * remaining (p_lexer p) + 2 * Nat.b2n (live (p_peek p)) + Nat.b2n (live (p_current p)).

Definition source_length (p : Parser) : nat := String.length (lx_source (p_lexer p)).

(** ** What the parser builds *)

Definition cond_wf (c : FilterCondition) : Prop :=
  cond_ok c /\ (String.length (fc_field_name c) <= 127)%nat /\
  0 <= fc_value c <= UINT64_MAX /\ 0 <= fc_mask c <= UINT64_MAX /\
  Forall (fun v => 0 <= v <= UINT64_MAX) (fc_values c).

Definition conds_len (cs : list FilterCondition) : nat := sum_list (map cond_len cs).

(** A rule of a source of [n] characters. *)
Definition rule_wf (n : nat) (r : TempFilterRule) : Prop :=
  Forall cond_wf (tf_conditions r) /\ (String.length (tf_name r) <= 63)%nat /\
  0 <= tf_sliding_max_offset r < 2 ^ 32 /\ (conds_len (tf_conditions r) <= 9 * n + 9)%nat.

Definition field_wf (f : Field) : Prop :=
  (String.length (f_name f) <= 127)%nat /\ 0 <= f_size f < 2 ^ 32 /\ 0 < f_array_size f < 2 ^ 32 /\
  (f_is_array f = true -> f_type f = FIELD_TYPE_NESTED) /\
  (f_is_variable f = true <-> f_type f = FIELD_TYPE_VARBYTES) /\
  (is_sized (f_type f) = false -> f_size f = field_type_size (f_type f)).

(** Only the last field may be variable, and the struct knows it. *)
Definition fields_wf (fs : list Field) (has_variable : bool) : Prop :=
  Forall field_wf fs /\ Forall (fun f => f_is_variable f = false) (removelast fs) /\
  (has_variable = true <-> exists f, last fs = Some f /\ f_is_variable f = true).

Definition struct_wf (s : StructDef) : Prop :=
  fields_wf (s_fields s) (s_has_variable s) /\ (String.length (s_name s) <= 63)%nat /\ s_min_size s = 0.

Definition constant_wf (c : ConstantEntry) : Prop :=
  (String.length (c_name c) <= 63)%nat /\ 0 <= c_value c <= UINT64_MAX.

(** The parser invariant. *)
Record parser_ok (p : Parser) : Prop := {
  ok_lexer : lexer_ok (p_lexer p);
  ok_current : token_ok (p_current p);
  ok_peek : token_ok (p_peek p);
  ok_structs : Forall struct_wf (p_structs p);
  ok_struct_count : (length (p_structs p) <= temp_struct_cap)%nat;
  ok_rules : Forall (rule_wf (source_length p)) (p_rules p);
  ok_rule_count : (length (p_rules p) <= temp_filter_rule_cap)%nat;
  ok_constants : Forall constant_wf (pd_constants (p_proto p));
}.

(** ** Specifications of parser operations *)

(** [p'] is a parser after [p], with [n] less input left. *)
Record after (p p' : Parser) : Prop := {
  after_ok : parser_ok p';
  after_source : source_length p' = source_length p;
  after_measure : (measure p' <= measure p)%nat;
}.

Definition spec {A} (m : parserM A) (p : Parser) (Q : A -> Parser -> Prop) : Prop :=
  match m p with
  | Done (a, p') => after p p' /\ Q a p'
  | NoFuel => False
  | Fails _ | Undef => True
  end.

Lemma after_refl p : parser_ok p -> after p p.
Proof. by constructor. Qed.

Lemma after_trans p q r : after p q -> after q r -> after p r.
Proof. intros [] []. constructor; [done|congruence|lia]. Qed.

Lemma spec_bind {A B} (m : parserM A) (k : A -> parserM B) p Q R :
  spec m p Q ->
  (forall a p', after p p' -> Q a p' -> spec (k a) p' R) ->
  spec (m ≫= k) p R.
Proof.
  unfold spec, mbind, parserM_bind. intros Hm Hk.
  destruct (m p) as [[a p']| | |]; try done. destruct Hm as [Ha Hq].
  specialize (Hk a p' Ha Hq). destruct (k a p') as [[b p'']| | |]; try done.
  destruct Hk. split; [by eapply after_trans|done].
Qed.

Lemma spec_weaken {A} (m : parserM A) p (Q R : A -> Parser -> Prop) :
  spec m p Q -> (forall a p', after p p' -> Q a p' -> R a p') -> spec m p R.
Proof. unfold spec. destruct (m p) as [[a p']| | |]; [|done..].
  intros [? ?] HR. split; [done|by apply HR]. Qed.

Lemma spec_ret {A} (a : A) p (Q : A -> Parser -> Prop) : parser_ok p -> Q a p -> spec (mret a) p Q.
Proof. intros. split; [by apply after_refl|done]. Qed.

Lemma spec_fail {A} msg p (Q : A -> Parser -> Prop) : spec (fail msg) p Q.
Proof. done. Qed.

Lemma spec_current {B} (k : Token -> parserM B) p R :
  spec (k (p_current p)) p R -> spec (current ≫= k) p R.
Proof. done. Qed.

Lemma spec_get_proto {B} (k : ProtocolDef -> parserM B) p R :
  spec (k (p_proto p)) p R -> spec (get_proto ≫= k) p R.
Proof. done. Qed.

Lemma spec_put_proto d p (Q : unit -> Parser -> Prop) :
  parser_ok p -> Forall constant_wf (pd_constants d) ->
  (forall p', measure p' = measure p -> p_current p' = p_current p -> Q tt p') ->
  spec (put_proto d) p Q.
Proof. intros [] Hd HQ. split; [by constructor|by apply HQ]. Qed.

Lemma measure_bound p : (measure p <= 3 * source_length p + 3)%nat.
Proof.
  unfold measure, source_length, remaining. destruct (live (p_peek p)), (live (p_current p)); simpl; lia.
Qed.

(** A live token is consumed. *)
Lemma spec_next p :
  parser_ok p ->
  spec parser_next_token p (fun _ p' =>
    p_current p' = p_peek p /\ (live (p_current p) = true -> (measure p' < measure p)%nat)).
Proof.
  intros [Hl Hc Hp Hs Hsc Hr Hrc Hcs]. unfold spec, parser_next_token.
  destruct (next_token_progress (p_lexer p)) as [Hre Hmv]. pose proof (next_token_ok (p_lexer p)) as Ht.
  destruct (lexer_next_token (p_lexer p)) as [[ok lx] t]. cbn [fst snd] in *.
  destruct (Hre Hl) as (Hl' & Hsrc & Hpos).
  assert (Hrem : (remaining lx + Nat.b2n (live t) <= remaining (p_lexer p))%nat).
  { unfold remaining. rewrite Hsrc. pose proof Hl as [Hlp _]. destruct Hl' as [Hlp' _]. rewrite Hsrc in Hlp'.
    destruct (live t) eqn:El; simpl; [|lia].
    unfold live, is_type in El. zbool. rewrite !bool_decide_eq_false in El. destruct El as [E1 E2].
    destruct (Hmv (or_intror E2) E1 Hl) as (_ & _ & ?). lia. }
  unfold source_length in *.
  assert (Hm : (measure (mkParser lx (p_peek p) t (p_proto p) (p_structs p) (p_rules p) (p_endian_set p))
    + Nat.b2n (live (p_current p)) <= measure p)%nat).
  { unfold measure. simpl p_lexer. simpl p_peek. simpl p_current.
    destruct (live t), (live (p_peek p)), (live (p_current p)); simpl Nat.b2n in *; lia. }
  split; [constructor|]; cbn [p_lexer p_current p_peek].
  - constructor; try done. unfold source_length. cbn [p_lexer p_rules]. by rewrite Hsrc.
  - unfold source_length. cbn [p_lexer]. by rewrite Hsrc.
  - lia.
  - split; [done|]. intros E. rewrite E in Hm. simpl Nat.b2n in Hm. lia.
Qed.

Lemma is_type_live t ty : is_type t ty = true -> ty <> TOKEN_EOF -> ty <> TOKEN_ERROR -> live t = true.
Proof.
  unfold live, is_type. rewrite bool_decide_eq_true. intros -> ? ?.
  by rewrite !bool_decide_false.
Qed.

(** [parser_expect] of a real token consumes it. *)
Lemma spec_expect p ty :
  parser_ok p -> ty <> TOKEN_EOF -> ty <> TOKEN_ERROR ->
  spec (parser_expect ty) p (fun _ p' => (measure p' < measure p)%nat).
Proof.
  intros Hok H1 H2. unfold parser_expect. apply spec_current.
  destruct (is_type _ ty) eqn:E; [|done].
  eapply spec_bind; [by apply spec_next|].
  intros [] p' [? _ _] [_ Hm]; [|done]. apply spec_ret; [done|]. by eapply Hm, is_type_live.
Qed.

(** The loop rule: the body keeps [I] and consumes input to go round again. *)
Lemma spec_loop_n {A} (body : A -> parserM (A + A)) (I Q : A -> Parser -> Prop) n a p :
  (forall a p, parser_ok p -> I a p ->
     spec (body a) p (fun r p' => match r with
                                  | inl a' => I a' p' /\ (measure p' < measure p)%nat
                                  | inr a' => Q a' p'
                                  end)) ->
  parser_ok p -> I a p -> (measure p < n)%nat ->
  spec (loop_n n body a) p Q.
Proof.
  intros Hb. revert a p. induction n as [|n IH]; intros a p Hok Hi Hn; [lia|]. cbn [loop_n].
  eapply spec_bind; [by apply Hb|].
  intros [a'|a'] p' [? ? ?] Hq; [apply IH; [done|apply Hq|lia]|by apply spec_ret].
Qed.

Lemma spec_loop {A} (body : A -> parserM (A + A)) (I Q : A -> Parser -> Prop) a p :
  (forall a p, parser_ok p -> I a p ->
     spec (body a) p (fun r p' => match r with
                                  | inl a' => I a' p' /\ (measure p' < measure p)%nat
                                  | inr a' => Q a' p'
                                  end)) ->
  parser_ok p -> I a p -> spec (loop body a) p Q.
Proof.
  intros Hb Hok Hi. unfold loop.
  apply (spec_loop_n body I Q (parser_fuel p) a p Hb Hok Hi).
  pose proof (measure_bound p). unfold parser_fuel, source_length in *. lia.
Qed.

Lemma spec_until_rbrace {A} (entry : A -> parserM A) (I : A -> Parser -> Prop) a p :
  (forall a p, parser_ok p -> I a p ->
     spec (entry a) p (fun a' p' => I a' p' /\ (measure p' < measure p)%nat)) ->
  parser_ok p -> I a p -> spec (until_rbrace entry a) p I.
Proof.
  intros He. apply (spec_loop _ I). clear a p. intros a p Hok Hi. apply spec_current.
  destruct (is_type _ _); [by apply spec_ret|].
  eapply spec_bind; [by apply He|]. intros a' p' [? _ _] H. by apply spec_ret.
Qed.

(** ** Automation: one step of a parser operation *)

Ltac pstep :=
  lazymatch goal with
  | |- spec (current ≫= _) _ _ => apply spec_current
  | |- spec (get_proto ≫= _) _ _ => apply spec_get_proto
  | |- spec (fail _) _ _ => apply spec_fail
  | |- spec (parser_next_token ≫= _) ?p _ =>
      eapply spec_bind; [apply spec_next; assumption|];
      let H := fresh "Hmeas" in let Hc := fresh "Hcur" in
      intros ? ? [? ? ?] [Hc H];
      try match goal with E : is_type (p_current p) _ = true |- _ =>
        specialize (H (is_type_live _ _ E ltac:(done) ltac:(done))) end
  | |- spec (parser_expect _ ≫= _) _ _ =>
      eapply spec_bind; [by apply spec_expect|]; intros ? ? [? ? ?] ?
  | |- spec (parser_expect _) _ _ => eapply spec_weaken; [by apply spec_expect|]; intros ? ? [? ? ?] ?
  | |- spec (if ?b then _ else _) _ _ => let E := fresh "E" in destruct b eqn:E
  | |- spec (mret _) _ _ => apply spec_ret; [assumption|]
  end.

Ltac psteps := repeat pstep.

(** ** One specification per grammar rule *)

Lemma spec_skip_semicolon p : parser_ok p -> spec skip_semicolon p (fun _ _ => True).
Proof. intros. unfold skip_semicolon. psteps; done. Qed.

Lemma spec_append_token out n tok p :
  parser_ok p ->
  spec (append_token out n tok) p (fun o p' => p' = p /\ o = out +:+ tok /\ (String.length o < n)%nat).
Proof.
  intros. unfold append_token. destruct (Nat.leb_spec n (String.length out + String.length tok)); [done|].
  apply spec_ret; [done|]. rewrite str_length_app. split; [done|split; [done|lia]].
Qed.

Lemma spec_path_index n out p :
  parser_ok p -> (String.length out < n)%nat ->
  spec (loop (path_index n) out) p (fun o _ => (String.length o < n)%nat).
Proof.
  apply (spec_loop (path_index n) (fun o _ => (String.length o < n)%nat)).
  clear out p. intros out p Hok Hn. unfold path_index. psteps; [|done].
  eapply spec_bind; [by apply spec_append_token|]. intros o1 p1 _ (-> & _ & H1). psteps.
  eapply spec_bind; [by apply spec_append_token|]. intros o2 p2 _ (-> & _ & H2). psteps.
  eapply spec_bind; [by apply spec_append_token|]. intros o3 p3 _ (-> & _ & H3). psteps.
  split; [done|lia].
Qed.

Lemma spec_field_path n p :
  parser_ok p -> (0 < n)%nat ->
  spec (parse_field_path n) p (fun o p' => (String.length o < n)%nat /\ (measure p' < measure p)%nat).
Proof.
  intros Hok Hn. unfold parse_field_path. psteps.
  apply (spec_loop (path_component n) (fun o q => (String.length o < n)%nat /\
    is_type (p_current q) TOKEN_IDENTIFIER = true /\ (measure q <= measure p)%nat)); [|done|by repeat split].
  clear E Hok. intros out q Hok (Ho & E & Hm). unfold path_component. psteps.
  eapply spec_bind; [by apply spec_append_token|]. intros o1 p1 _ (-> & _ & H1). psteps.
  eapply spec_bind; [by apply spec_path_index|]. intros o2 p2 [? ? ?] H2. psteps.
  - eapply spec_bind; [by apply spec_append_token|]. intros o3 p3 _ (-> & _ & H3). psteps.
    split; [split; [done|split; [done|lia]]|lia].
  - split; [done|lia].
Qed.

Lemma str_take_lt n s : (String.length s < S n)%nat -> str_take n s = s.
Proof. intros. apply str_take_all. lia. Qed.

(** [@protocol] keeps the constants. *)
Lemma spec_set_proto d p (Q : unit -> Parser -> Prop) :
  parser_ok p -> pd_constants d = pd_constants (p_proto p) ->
  (forall p', p_current p' = p_current p -> measure p' = measure p -> Q tt p') -> spec (put_proto d) p Q.
Proof. intros Hok E HQ. apply spec_put_proto; [done|rewrite E; apply Hok|auto]. Qed.

Lemma spec_protocol_name p : parser_ok p -> spec protocol_name p (fun _ _ => True).
Proof.
  intros Hok. unfold protocol_name. psteps.
  eapply spec_bind; [by apply (spec_set_proto _ _ (fun _ _ => True))|].
  intros [] p' [? ? ?] _. psteps. done.
Qed.

Lemma spec_set_endian e m p : parser_ok p -> spec (set_endian e m) p (fun _ _ => True).
Proof. intros []. split; [|done]. by do 2 constructor. Qed.

Lemma spec_protocol_endian p : parser_ok p -> spec protocol_endian p (fun _ _ => True).
Proof.
  intros Hok. unfold protocol_endian. psteps.
  eapply (spec_bind _ _ _ (fun _ _ => True)); [psteps; by apply spec_set_endian|].
  intros [] p' [? ? ?] _. psteps. done.
Qed.

Lemma spec_protocol_ports p : parser_ok p -> spec protocol_ports p (fun _ _ => True).
Proof.
  intros Hok. unfold protocol_ports.
  eapply (spec_bind _ _ _ (fun _ _ => True)).
  - apply (spec_loop port_entry (fun _ _ => True)); [|done|done].
    clear p Hok. intros [] p Hok _. unfold port_entry. psteps.
    eapply (spec_bind _ _ _ (fun _ _ => True)).
    { psteps; [|done]. eapply spec_weaken; [by apply spec_next|done]. }
    intros _ q [? ? ?] _. psteps; [split; [done|lia]|done].
  - intros [] q [? ? ?] _. psteps. by apply spec_set_proto.
Qed.

Lemma spec_protocol_entry a p :
  parser_ok p -> spec (protocol_entry a) p (fun _ p' => True /\ (measure p' < measure p)%nat).
Proof.
  intros Hok. unfold protocol_entry. psteps.
  eapply (spec_bind _ _ _ (fun _ _ => True)).
  - psteps; [by apply spec_protocol_name|by apply spec_protocol_endian|by apply spec_protocol_ports|done].
  - intros [] q [? ? ?] _. eapply spec_weaken; [by apply spec_skip_semicolon|].
    intros [] r [? ? ?] _. split; [done|lia].
Qed.

Lemma spec_protocol_block p :
  parser_ok p -> spec parse_protocol_block p (fun _ p' => (measure p' < measure p)%nat).
Proof.
  intros Hok. unfold parse_protocol_block. psteps.
  eapply spec_bind; [apply (spec_until_rbrace _ (fun _ _ => True)); [|done|done]|].
  - intros [] q Hq _. by apply spec_protocol_entry.
  - intros [] q [? ? ?] _. psteps. lia.
Qed.

(** [@const] *)
Lemma spec_const_entry a p :
  parser_ok p -> spec (const_entry a) p (fun _ p' => True /\ (measure p' < measure p)%nat).
Proof.
  intros Hok. unfold const_entry. psteps. unfold add_constant.
  eapply (spec_bind _ _ _ (fun _ _ => True)).
  - psteps. apply spec_put_proto; [done| |done]. constructor; [|by apply ok_constants].
    split; [apply str_take_length|]. by apply ok_current.
  - intros [] q [? ? ?] _. eapply spec_weaken; [by apply spec_skip_semicolon|].
    intros [] r [? ? ?] _. split; [done|lia].
Qed.

Lemma spec_const_block p :
  parser_ok p -> spec parse_const_block p (fun _ p' => (measure p' < measure p)%nat).
Proof.
  intros Hok. unfold parse_const_block. psteps.
  eapply spec_bind; [apply (spec_until_rbrace _ (fun _ _ => True)); [|done|done]|].
  - intros [] q Hq _. by apply spec_const_entry.
  - intros [] q [? ? ?] _. psteps. lia.
Qed.

(** [@filter] *)
Lemma spec_lookup_constant name p :
  parser_ok p ->
  spec (lookup_constant name) p (fun o p' => p' = p /\ forall v, o = Some v -> 0 <= v <= UINT64_MAX).
Proof.
  intros Hok. unfold lookup_constant. psteps. split; [done|]. intros v.
  pose proof (ok_constants _ Hok) as Hc. simpl. induction Hc as [|c cs [_ Hv] _ IH]; [done|].
  simpl. destruct (String.eqb _ _); [by intros [= <-]|done].
Qed.

Definition value_ok (v : Z) : Prop := 0 <= v <= UINT64_MAX.

Lemma spec_filter_value msg p :
  parser_ok p ->
  spec (filter_value msg) p (fun v p' => value_ok v /\ (measure p' < measure p)%nat).
Proof.
  intros Hok. unfold filter_value. apply spec_current.
  eapply (spec_bind _ _ _ (fun v q => q = p /\ value_ok v /\ live (p_current p) = true)).
  - psteps.
    + split; [done|split; [apply Hok|by eapply is_type_live]].
    + eapply spec_bind; [by apply spec_lookup_constant|]. intros [v|] q _ [-> Hv]; [|done].
      psteps. split; [done|split; [by apply Hv|by eapply is_type_live]].
  - intros v q _ (-> & Hv & Hl). psteps. split; [done|auto].
Qed.

Lemma spec_value_list p :
  parser_ok p ->
  spec value_list p (fun vs p' => vs <> [] /\ Forall value_ok vs /\
                                  (length vs + measure p' < measure p)%nat).
Proof.
  intros Hok. unfold value_list. psteps.
  rename select Parser into q. rename select (parser_ok q) into Hq.
  eapply (spec_bind _ _ _ (fun vs p' => vs <> [] /\ Forall value_ok vs /\
                                  (length vs + measure p' <= measure q)%nat)).
  - apply (spec_loop list_value (fun vs p' => Forall value_ok vs /\
                                  (length vs + measure p' <= measure q)%nat)); [|done|by split].
    clear -Hok. intros vs r Hr [Hvs Hm]. unfold list_value.
    eapply spec_bind; [by apply spec_filter_value|]. intros v r' [? ? ?] [Hv Hlt].
    assert (Forall value_ok (vs ++ [v])) by (apply Forall_app; auto).
    assert (length (vs ++ [v]) = S (length vs)) by (rewrite length_app; simpl; lia).
    psteps; [split; [split; [done|lia]|lia]|].
    split; [by destruct vs|split; [done|lia]].
  - intros vs r [? ? ?] (Hne & Hvs & Hm). psteps. split; [done|split; [done|lia]].
Qed.

(** What the parse of one condition guarantees: every instruction it will
    compile to is paid for by consumed input. *)
Definition cond_parsed (p : Parser) (c : FilterCondition) (p' : Parser) : Prop :=
  cond_wf c /\ (cond_len c + 3 * measure p' <= 3 * measure p)%nat.

Lemma comparison_simple t op :
  comparison t = Some op -> op <> COND_IN /\ op <> COND_NOT_IN.
Proof. unfold comparison. destruct (t_type t); intros [= <-]; done. Qed.

Lemma spec_condition_tail name p :
  parser_ok p -> (String.length name <= 127)%nat ->
  spec (condition_tail name) p (cond_parsed p).
Proof.
  intros Hok Hn. unfold condition_tail. apply spec_current.
  eapply (spec_bind _ _ _ (fun _ _ => True)).
  { psteps; [|done]. eapply spec_weaken; [by apply spec_next|done]. }
  intros _ q [Hq Hsq Hmq] _. apply spec_current. destruct (_ || _).
  - eapply spec_bind; [by apply spec_value_list|]. intros vs r [? ? ?] (Hne & Hvs & Hm). psteps.
    split; [split; [by destruct (is_type _ _)|]|].
    + repeat split; simpl; try done; try solve_u.
    + destruct (is_type _ _); unfold cond_len; cbn [fc_op fc_values]; lia.
  - destruct (comparison _) as [op|] eqn:Ec; [|done]. psteps.
    rename select Parser into r. rename select (parser_ok r) into Hr.
    eapply spec_bind; [by apply spec_filter_value|]. intros v s [? ? ?] [Hv Hlt]. psteps.
    apply comparison_simple in Ec as [Ec1 Ec2].
    split; [split; [by destruct op|]|].
    + repeat split; simpl; try done; try solve_u; apply Hv.
    + assert (cond_len (mkCond name op v 0 []) = 3%nat) as -> by (by destruct op). lia.
Qed.

Lemma spec_condition_mask name p :
  parser_ok p -> (String.length name <= 127)%nat ->
  spec (condition_mask name) p (cond_parsed p).
Proof.
  intros Hok Hn. unfold condition_mask. psteps.
  rename select Parser into q. rename select (parser_ok q) into Hq.
  eapply spec_bind; [by apply spec_filter_value|]. intros m r [? ? ?] [Hm Hlt]. psteps.
  rename select Parser into s. rename select (parser_ok s) into Hs'.
  eapply spec_bind; [by apply spec_filter_value|]. intros v s' [? ? ?] [Hv Hlt']. psteps.
  split; [split; [done|]|].
  - repeat split; simpl; try done; try apply Hv; apply Hm.
  - unfold cond_len. cbn [fc_op]. lia.
Qed.

(** The rule under construction in a source of [n] characters. *)
Definition rule_acc (n : nat) (r : TempFilterRule) (p : Parser) : Prop :=
  source_length p = n /\ Forall cond_wf (tf_conditions r) /\ (String.length (tf_name r) <= 63)%nat /\
  0 <= tf_sliding_max_offset r < 2 ^ 32 /\
  (conds_len (tf_conditions r) + 3 * measure p <= 9 * n + 9)%nat.

Lemma spec_filter_sliding n r p :
  parser_ok p -> rule_acc n r p ->
  spec (filter_sliding r) p (fun r' p' => rule_acc n r' p' /\ (measure p' < measure p)%nat).
Proof.
  intros Hok (Hn & Hc & Hnm & Hmax & Hlen). unfold filter_sliding. psteps.
  eapply (spec_bind _ _ _ (fun _ _ => True)); [psteps; done|].
  intros b q [? ? ?] _. psteps. eapply spec_bind; [by apply spec_skip_semicolon|].
  intros [] s [? ? ?] _. psteps. unfold rule_acc. cbn [with_sliding tf_conditions tf_name tf_sliding_max_offset].
  repeat split; try done; try apply u32_range; try lia; congruence.
Qed.

Lemma spec_filter_sliding_max n r p :
  parser_ok p -> rule_acc n r p ->
  spec (filter_sliding_max r) p (fun r' p' => rule_acc n r' p' /\ (measure p' < measure p)%nat).
Proof.
  intros Hok (Hn & Hc & Hnm & Hmax & Hlen). unfold filter_sliding_max. psteps.
  eapply spec_bind; [by apply spec_skip_semicolon|].
  intros [] s [? ? ?] _. psteps. unfold rule_acc.
  cbn [with_sliding_max tf_conditions tf_name tf_sliding_max_offset].
  repeat split; try done; try apply u32_range; try lia; congruence.
Qed.

Lemma conds_len_app cs c : conds_len (cs ++ [c]) = (conds_len cs + cond_len c)%nat.
Proof. unfold conds_len. rewrite map_app, sum_list_with_app. simpl. unfold id. lia. Qed.

Lemma spec_filter_condition n r p :
  parser_ok p -> rule_acc n r p ->
  spec (filter_condition r) p (fun r' p' => rule_acc n r' p' /\ (measure p' < measure p)%nat).
Proof.
  intros Hok (Hn & Hc & Hnm & Hmax & Hlen). unfold filter_condition. psteps.
  eapply spec_bind; [apply spec_field_path; [done|lia]|]. intros path q [Hq ? ?] [Hp Hlt].
  apply spec_current.
  assert (Hname : (String.length (str_take 127 path) <= 127)%nat) by apply str_take_length.
  eapply (spec_bind _ _ _ (cond_parsed q)).
  { psteps; [by apply spec_condition_mask|by apply spec_condition_tail]. }
  intros c s [Hs ? ?] [Hwf Hcl].
  eapply spec_bind; [by apply spec_skip_semicolon|]. intros [] s' [? ? ?] _. psteps.
  unfold rule_acc. cbn [with_condition tf_conditions tf_name tf_sliding_max_offset].
  rewrite conds_len_app.
  repeat split; try done; try lia; by apply Forall_app; auto.
Qed.

Lemma spec_push_rule n r p :
  parser_ok p -> rule_acc n r p -> (length (p_rules p) < temp_filter_rule_cap)%nat ->
  spec (push_rule r) p (fun _ _ => True).
Proof.
  intros [] (Hn & Hc & Hnm & Hmax & Hlen) Hlt. split; [|done]. constructor; [|done|done].
  constructor; try done; cbn [p_rules].
  - apply Forall_app. split; [done|]. apply Forall_singleton.
    split; [done|split; [done|split; [done|]]].
    unfold source_length in *. cbn [p_lexer] in *. lia.
  - rewrite length_app. simpl. lia.
Qed.

(** Entries leave the tables of finished structs and rules alone. *)
Class Framed {A} (m : parserM A) : Prop :=
  framed : forall p a p', m p = Done (a, p') -> p_rules p' = p_rules p /\ p_structs p' = p_structs p.

#[export] Instance framed_ret {A} (a : A) : Framed (mret a).
Proof. intros p b p' H. by apply (inj Done) in H as [= -> ->]. Qed.

#[export] Instance framed_bind {A B} (m : parserM A) (k : A -> parserM B) :
  Framed m -> (forall a, Framed (k a)) -> Framed (m ≫= k).
Proof.
  intros Hm Hk p b p' H. unfold mbind, parserM_bind in H.
  destruct (m p) as [[a q]| | |] eqn:E; try done.
  destruct (Hm p a q E) as [<- <-]. by apply (Hk a q b p').
Qed.

#[export] Instance framed_fail {A} msg : Framed (A := A) (fail msg).
Proof. done. Qed.
#[export] Instance framed_silent {A} : Framed (A := A) fail_silently.
Proof. done. Qed.
#[export] Instance framed_undef {A} : Framed (A := A) undef.
Proof. done. Qed.
#[export] Instance framed_current : Framed current.
Proof. by intros p a p' [= <- <-]. Qed.
#[export] Instance framed_get_proto : Framed get_proto.
Proof. by intros p a p' [= <- <-]. Qed.
#[export] Instance framed_put_proto d : Framed (put_proto d).
Proof. by intros p a p' [= <- <-]. Qed.
#[export] Instance framed_set_endian e m : Framed (set_endian e m).
Proof. by intros p a p' [= <- <-]. Qed.
#[export] Instance framed_next : Framed parser_next_token.
Proof.
  intros p a p'. unfold parser_next_token. destruct (lexer_next_token _) as [[ok lx] t].
  by intros [= <- <-].
Qed.
#[export] Instance framed_if {A} (b : bool) (m1 m2 : parserM A) :
  Framed m1 -> Framed m2 -> Framed (if b then m1 else m2).
Proof. by destruct b. Qed.
#[export] Instance framed_decide {A} P (d : Decision P) (m1 m2 : parserM A) :
  Framed m1 -> Framed m2 -> Framed (if decide P then m1 else m2).
Proof. by destruct (decide P). Qed.
#[export] Instance framed_option {A B} (o : option A) (m1 : A -> parserM B) m2 :
  (forall a, Framed (m1 a)) -> Framed m2 -> Framed (match o with Some a => m1 a | None => m2 end).
Proof. by destruct o. Qed.

#[export] Instance framed_loop {A} (body : A -> parserM (A + A)) a :
  (forall a, Framed (body a)) -> Framed (loop body a).
Proof.
  intros Hb p. unfold loop. generalize (parser_fuel p). intros n. revert a p.
  induction n as [|n IH]; intros a p b p' H; [done|]. cbn [loop_n] in H.
  unfold mbind, parserM_bind in H. destruct (body a p) as [[[a'|a'] q]| | |] eqn:E; try done;
    destruct (Hb a p _ q E) as [<- <-].
  - by eapply IH.
  - by apply (inj Done) in H as [= -> ->].
Qed.

#[export] Instance framed_until {A} (entry : A -> parserM A) a :
  (forall a, Framed (entry a)) -> Framed (until_rbrace entry a).
Proof. intros. unfold until_rbrace. apply _. Qed.

#[export] Instance framed_filter_entry r : Framed (filter_entry r).
Proof.
  unfold filter_entry, filter_sliding, filter_sliding_max, filter_condition, condition_mask,
    condition_tail, value_list, filter_value, lookup_constant, parse_field_path, path_component,
    skip_semicolon, parser_expect.
  apply _.
Qed.

(** An operation that leaves the tables alone keeps facts about them. *)
Lemma spec_framed {A} (m : parserM A) p (Q : A -> Parser -> Prop) :
  Framed m -> spec m p Q ->
  spec m p (fun a p' => Q a p' /\ p_rules p' = p_rules p /\ p_structs p' = p_structs p).
Proof.
  unfold spec. intros Hf. destruct (m p) as [[a p']| | |] eqn:E; try done.
  intros [Ha Hq]. split; [done|]. split; [done|by eapply Hf].
Qed.

Lemma spec_get_rules {B} (k : list TempFilterRule -> parserM B) p R :
  spec (k (p_rules p)) p R -> spec (get_rules ≫= k) p R.
Proof. done. Qed.

Lemma spec_get_structs {B} (k : list StructDef -> parserM B) p R :
  spec (k (p_structs p)) p R -> spec (get_structs ≫= k) p R.
Proof. done. Qed.

#[export] Instance framed_expect ty : Framed (parser_expect ty).
Proof. unfold parser_expect. apply _. Qed.

Lemma spec_filter_entry n r p :
  parser_ok p -> rule_acc n r p ->
  spec (filter_entry r) p (fun r' p' => rule_acc n r' p' /\ (measure p' < measure p)%nat).
Proof.
  intros. unfold filter_entry. psteps;
    [by apply spec_filter_sliding|by apply spec_filter_sliding_max|by apply spec_filter_condition].
Qed.

(** The part of a filter block before its rule is stored. *)
Lemma spec_filter_block p :
  parser_ok p -> spec parse_filter_block p (fun _ p' => (measure p' < measure p)%nat).
Proof.
  intros Hok. unfold parse_filter_block. psteps.
  rename select Parser into q. rename select (parser_ok q) into Hq.
  apply spec_get_rules. destruct (Nat.leb_spec temp_filter_rule_cap (length (p_rules q))); [done|].
  set (name := t_text (p_current q)).
  eapply spec_bind; [apply spec_framed; [apply _|by apply spec_next]|].
  intros ? q1 [H1 ? ?] [_ [Hr1 _]].
  eapply spec_bind; [apply spec_framed; [apply _|by apply spec_expect]|].
  intros ? q2 [H2 ? ?] [_ [Hr2 _]].
  eapply spec_bind.
  { apply spec_framed; [apply _|]. apply (spec_until_rbrace _ (rule_acc (source_length q2))); [|done|].
    - intros r s Hs Hacc. by apply spec_filter_entry.
    - pose proof (measure_bound q2). unfold rule_acc. cbn [tf_conditions tf_name tf_sliding_max_offset].
      repeat split; try done; try lia; [apply str_take_length|]. unfold conds_len. simpl. lia. }
  intros r q3 [H3 ? ?] [Hacc [Hr3 _]].
  eapply spec_bind; [eapply spec_push_rule; [done|done|congruence]|].
  intros [] q4 [H4 ? ?] _. psteps. lia.
Qed.

(** Structs *)
Lemma removelast_snoc {A} (l : list A) x : removelast (l ++ [x]) = l.
Proof. induction l as [|y l IH]; [done|]. simpl. rewrite IH. by destruct l. Qed.

Lemma fields_not_variable fs : fields_wf fs false -> Forall (fun f => f_is_variable f = false) fs.
Proof.
  intros (_ & Hr & Hv). destruct fs as [|f fs _] using rev_ind; [constructor|].
  rewrite removelast_snoc in Hr. apply Forall_app. split; [done|]. constructor; [|constructor].
  destruct (f_is_variable f) eqn:E; [|done].
  enough (false = true) by done. apply Hv. exists f. by rewrite last_snoc.
Qed.

Lemma fields_wf_snoc fs f :
  fields_wf fs false -> field_wf f -> fields_wf (fs ++ [f]) (f_is_variable f).
Proof.
  intros Hfs Hf. pose proof (fields_not_variable fs Hfs) as Hn. destruct Hfs as (Hfs & _ & _).
  split; [by apply Forall_app; auto|]. rewrite removelast_snoc, last_snoc. split; [done|].
  split; [by intros; exists f|]. by intros (g & [= ->] & ?).
Qed.

Lemma spec_field_size ty p :
  parser_ok p ->
  spec (field_size ty) p (fun z _ => 0 <= z < 2 ^ 32 /\ (is_sized ty = false -> z = field_type_size ty)).
Proof.
  intros Hok. unfold field_size. destruct (is_sized ty) eqn:Es.
  - psteps. split; [apply u32_range|done].
  - psteps. split; [by destruct ty|by destruct ty].
Qed.

Lemma spec_field_array ty p :
  parser_ok p ->
  spec (field_array ty) p (fun r _ => 0 < snd r < 2 ^ 32 /\ (fst r = true -> ty = FIELD_TYPE_NESTED)).
Proof.
  intros Hok. unfold field_array. psteps; [|split; [simpl; lia|done]].
  destruct (decide _) as [Ht|]; [|done]. psteps.
  split; [|done]. cbn [snd]. zbool. match goal with |- context [u32 ?x] => pose proof (u32_range x) end. lia.
Qed.

Lemma spec_struct_field s p :
  parser_ok p -> struct_wf s ->
  spec (struct_field s) p (fun s' p' => struct_wf s' /\ (measure p' < measure p)%nat).
Proof.
  intros Hok (Hf & Hn & Hm). unfold struct_field. destruct (s_has_variable s); [done|].
  apply spec_current. set (tok := p_current p). set (ty := token_to_field_type tok).
  eapply spec_bind; [by apply spec_next|]. intros ? q [Hq ? ?] _.
  eapply spec_bind; [by apply spec_field_size|]. intros size r [Hr ? ?] [Hsz Hsz2].
  psteps. rename select Parser into q2. rename select (parser_ok q2) into Hq2.
  eapply spec_bind; [by apply spec_field_array|]. intros [arr n] s2 [? ? ?] [Hn0 Harr]. psteps.
  eapply spec_bind; [by apply spec_skip_semicolon|]. intros [] s3 [? ? ?] _. psteps.
  split; [|lia]. split; [|done]. cbn [s_fields s_has_variable].
  apply (fields_wf_snoc (s_fields s) (mkField _ _ _ _ _ (bool_decide (ty = FIELD_TYPE_VARBYTES)) _ _));
    [done|].
  repeat split; cbn [f_name f_size f_array_size f_is_array f_type f_is_variable fst snd] in *;
    try lia; try done; [|by apply bool_decide_eq_true..].
  unfold field_name. destruct (decide _); apply str_take_length.
Qed.

#[export] Instance framed_struct_field s : Framed (struct_field s).
Proof. unfold struct_field, field_size, field_array, skip_semicolon. apply _. Qed.

Lemma spec_push_struct s p :
  parser_ok p -> struct_wf s -> (length (p_structs p) < temp_struct_cap)%nat ->
  spec (push_struct s) p (fun _ _ => True).
Proof.
  intros [] Hs Hlt. split; [|done]. constructor; [|done|done].
  constructor; try done; cbn [p_structs].
  - apply Forall_app. split; [done|]. by apply Forall_singleton.
  - rewrite length_app. simpl. lia.
Qed.

Lemma spec_struct_def p :
  parser_ok p -> spec parse_struct_def p (fun _ p' => (measure p' < measure p)%nat).
Proof.
  intros Hok. unfold parse_struct_def. psteps. apply spec_get_structs.
  destruct (Nat.leb_spec temp_struct_cap (length (p_structs p))); [done|].
  set (name := t_text (p_current p)).
  eapply spec_bind; [apply spec_framed; [apply _|by apply spec_next]|].
  intros ? q1 [H1 ? ?] [_ [_ Hr1]].
  eapply spec_bind; [apply spec_framed; [apply _|by apply spec_expect]|].
  intros ? q2 [H2 ? ?] [_ [_ Hr2]].
  eapply spec_bind.
  { apply spec_framed; [apply _|]. apply (spec_until_rbrace _ (fun s _ => struct_wf s)); [|done|].
    - intros r s Hs Hacc. by apply spec_struct_field.
    - split; [|split; [apply str_take_length|done]]. split; [constructor|].
      split; [constructor|]. split; [done|]. by intros (? & ? & ?). }
  intros r q3 [H3 ? ?] [Hwf [_ Hr3]].
  eapply spec_bind; [eapply spec_push_struct; [done|done|congruence]|].
  intros [] q4 [H4 ? ?] _. psteps. lia.
Qed.

(** ** The whole parser *)

Lemma spec_top_level p :
  parser_ok p ->
  spec (loop top_level tt) p (fun _ p' => t_type (p_current p') = TOKEN_EOF).
Proof.
  intros Hok. apply (spec_loop top_level (fun _ _ => True)); [|done|done].
  clear p Hok. intros [] p Hok _. unfold top_level. apply spec_current.
  destruct (t_type (p_current p)) eqn:Et; try done;
    try (eapply spec_bind;
         [first [by apply spec_struct_def|by apply spec_protocol_block|by apply spec_const_block
                |by apply spec_filter_block]|];
         intros [] q [? ? ?] Hlt; psteps; done).
Qed.

Lemma parser_init_ok source :
  Z.of_nat (String.length source) < 2 ^ 32 ->
  parser_ok (parser_init source) /\ source_length (parser_init source) = String.length source.
Proof.
  intros Hlen. unfold parser_init.
  assert (Hok : lexer_ok (lexer_init source)) by (split; simpl; lia).
  destruct (next_token_progress (lexer_init source)) as [Hr1 _].
  pose proof (next_token_ok (lexer_init source)) as Ht1.
  destruct (lexer_next_token (lexer_init source)) as [[ok1 lx1] t1]. cbn [fst snd] in *.
  destruct (Hr1 Hok) as (Hok1 & Hs1 & _).
  destruct (next_token_progress lx1) as [Hr2 _]. pose proof (next_token_ok lx1) as Ht2.
  destruct (lexer_next_token lx1) as [[ok2 lx2] t2]. cbn [fst snd] in *.
  destruct (Hr2 Hok1) as (Hok2 & Hs2 & _).
  split; [|unfold source_length; cbn [p_lexer]; by rewrite Hs2, Hs1].
  constructor; simpl; try done; try constructor; unfold temp_struct_cap, temp_filter_rule_cap; lia.
Qed.


(** What a successful parse hands to layout and compilation. *)
Record parsed_ok (source : string) (p : Parser) : Prop := {
  parsed_structs : Forall struct_wf (p_structs p);
  parsed_struct_count : (length (p_structs p) <= 16)%nat;
  parsed_rules : Forall (rule_wf (String.length source)) (p_rules p);
  parsed_rule_count : (length (p_rules p) <= 16)%nat;
  parsed_constants : Forall constant_wf (pd_constants (p_proto p));
}.

Lemma parse_spec source :
  Z.of_nat (String.length source) < 2 ^ 32 ->
  match loop top_level tt (parser_init source) with
  | Done (_, p) => parsed_ok source p
  | NoFuel => False
  | _ => True
  end.
Proof.
  intros Hlen. destruct (parser_init_ok source Hlen) as [Hok Hsrc].
  pose proof (spec_top_level _ Hok) as H. unfold spec in H.
  destruct (loop _ _ _) as [[[] p]| | |]; try done.
  destruct H as [[[] Hs _] _]. rewrite Hsrc in Hs. constructor; try done. by rewrite <- Hs.
Qed.
