(* ===== verification/Pdef.v ===== *)
(** * From PDEF source to matching (parser, layout, compiler and runtime together)

    [pdef_parse] always ends, what it builds is well formed, and the protocol
    it returns matches exactly the packets that satisfy the filters written
    in the source. *)

From S2P Require Import Prelude Endian PdefTypes Executor Compiler CompilerCorrect Layout Protocol Lexer Parser ParserCorrect.

(** A source whose largest conceivable filter compiles to fewer than 2^32
    instructions. *)
Definition source_fits (source : string) : Prop := 9 * Z.of_nat (String.length source) + 11 < 2 ^ 32.

Lemma source_fits_length source : source_fits source -> Z.of_nat (String.length source) < 2 ^ 32.
Proof. unfold source_fits. lia. Qed.

#[local] Hint Resolve source_fits_length : core.

Lemma rule_wf_code source r :
  source_fits source -> rule_wf (String.length source) r ->
  Z.of_nat (code_size (tf_conditions r)) < 2 ^ 32 /\ Forall cond_ok (tf_conditions r).
Proof.
  unfold source_fits. intros Hs (Hc & _ & _ & Hl). split.
  - unfold code_size. unfold conds_len in Hl. lia.
  - eapply Forall_impl; [exact Hc|]. by intros c [].
Qed.

Lemma compile_filter_rules_reports structs temps source :
  source_fits source -> Forall (rule_wf (String.length source)) temps ->
  reports (compile_filter_rules structs temps).
Proof.
  intros Hs. induction 1 as [|t ts Ht _ IH]; [done|]. cbn [compile_filter_rules].
  destruct (rule_wf_code source t Hs Ht) as [Hc Hok].
  apply reports_bind.
  - pose proof (compile_code_total) as Hcc. unfold compile_filter_rule.
    destruct (find_target _ _) as [target|]; [|done].
    specialize (Hcc target (tf_name t) (tf_conditions t) Hc Hok).
    apply reports_bind; [|by intros [] _]. destruct (compile_code _ _ _); done.
  - intros r _. apply reports_bind; [done|by intros].
Qed.

Lemma compile_filter_rules_Done structs temps rules :
  compile_filter_rules structs temps = Done rules ->
  Forall2 (fun t r => compile_filter_rule structs t = Done r) temps rules.
Proof.
  revert rules. induction temps as [|t ts IH]; intros rules H; cbn [compile_filter_rules] in H.
  - apply (inj Done) in H as <-. constructor.
  - apply outcome_bind_Done_inv in H as (r & Hr & H).
    apply outcome_bind_Done_inv in H as (rs & Hrs & H). apply (inj Done) in H as <-.
    constructor; auto.
Qed.

(** The stages of a successful run. *)
Lemma pdef_parse_inv source d :
  pdef_parse source = Done d ->
  exists p structs filters, loop top_level tt (parser_init source) = Done (tt, p) /\
    flatten_structs (p_structs p) = Done structs /\
    compile_filter_rules structs (p_rules p) = Done filters /\
    d = with_results (p_proto p) structs filters.
Proof.
  unfold pdef_parse. intros H.
  apply outcome_bind_Done_inv in H as ([[] p] & Hp & H).
  apply outcome_bind_Done_inv in H as (structs & Hs & H).
  apply outcome_bind_Done_inv in H as (filters & Hf & H). apply (inj Done) in H as <-.
  by exists p, structs, filters.
Qed.

Lemma parse_done source p :
  source_fits source -> loop top_level tt (parser_init source) = Done (tt, p) -> parsed_ok source p.
Proof.
  intros Hs E. pose proof (parse_spec source (source_fits_length source Hs)) as H. by rewrite E in H.
Qed.

(** A check for [offsets_in_range]. *)
Lemma offsets_check structs :
  forallb (fun s => forallb (fun f => (0 <=? f_offset f) && (f_offset f <? 4294967288)) (s_fields s))
    structs = true -> Forall offsets_in_range structs.
Proof.
  intros H. apply Forall_forall. intros s Hs. rewrite forallb_forall in H.
  apply list_elem_of_In, H in Hs. rewrite forallb_forall in Hs.
  apply Forall_forall. intros f Hf. apply list_elem_of_In, Hs in Hf. zbool. lia.
Qed.

(** The two codes of a compiled filter as an instance of the matcher's
    interface. *)
Lemma rules_sem structs temps rules :
  Forall offsets_in_range structs ->
  Forall (fun t => Z.of_nat (code_size (tf_conditions t)) < 2 ^ 32) temps ->
  Forall2 (fun t r => compile_filter_rule structs t = Done r) temps rules ->
  exists sems : list { r : FilterRule & RuleSem r }, rules = map (fun x => projT1 x) sems /\
    Forall2 (fun t x => exists target, find_target structs (tf_conditions t) = Some target /\
       @sem_be _ (projT2 x) = rule_matches id target (tf_conditions t) /\
       @sem_le _ (projT2 x) = rule_matches swap_endian_opcode target (tf_conditions t)) temps sems.
Proof.
  intros Hoff Hsz H. induction H as [|t r ts rs Hc _ IH]; [by exists []|].
  apply Forall_cons in Hsz as [Ht Hsz]. destruct (IH Hsz) as (sems & -> & HF).
  destruct (find_target structs (tf_conditions t)) as [target|] eqn:Et.
  - exists (existT r (compiled_rule_sem structs t r target Hc Ht Hoff Et) :: sems).
    split; [done|]. constructor; [|done]. by exists target.
  - unfold compile_filter_rule in Hc. by rewrite Et in Hc.
Qed.

(** ** Properties *)

(** C18: parsing terminates: on every source the parser, the layout and the
    compiler end without running out of fuel; and once the grammar accepts
    the source, layout and compilation end with a protocol or a reported
    error, without touching memory outside their arrays. *)
Theorem pdef_parse_terminates source :
  source_fits source ->
  pdef_parse source <> NoFuel /\
  (forall p, loop top_level tt (parser_init source) = Done (tt, p) -> reports (pdef_parse source)).
Proof.
  intros Hs. pose proof (parse_spec source (source_fits_length source Hs)) as H.
  assert (Hr : forall p, loop top_level tt (parser_init source) = Done (tt, p) -> reports (pdef_parse source)).
  { intros p E. unfold pdef_parse. rewrite E in *. rewrite outcome_bind_done.
    apply reports_bind; [apply flatten_structs_reports|]. intros structs _.
    apply reports_bind; [|done]. eapply compile_filter_rules_reports; [exact Hs|apply H]. }
  split; [|done]. destruct (loop top_level tt (parser_init source)) as [[[] p]| | |] eqn:E.
  - intros E'. specialize (Hr p eq_refl). by rewrite E' in Hr.
  - unfold pdef_parse. by rewrite E.
  - unfold pdef_parse. by rewrite E.
  - done.
Qed.

Lemma pdef_parse_terminates_witness : source_fits demo_source /\ reports (pdef_parse demo_source).
Proof.
  split; [vm_compute; reflexivity|].
  assert (Hp : loop top_level tt (parser_init demo_source) =
    Done (tt, default (parser_init "") (parsed demo_source))) by (vm_compute; reflexivity).
  eapply (pdef_parse_terminates demo_source); [vm_compute; reflexivity|exact Hp].
Defined.

(** What the grammar accepts is well formed: at most 16 structs and 16
    filters; field sizes and counts are [uint32_t]s, only nested fields are
    arrays, only the last field of a struct is of variable length; every
    condition's operands are [uint64_t]s and every IN and NOT IN list has a
    value; all names fit their buffers. *)
Theorem parsed_well_formed source p :
  source_fits source -> loop top_level tt (parser_init source) = Done (tt, p) ->
  Forall struct_wf (p_structs p) /\ (length (p_structs p) <= 16)%nat /\
  Forall (rule_wf (String.length source)) (p_rules p) /\ (length (p_rules p) <= 16)%nat /\
  Forall constant_wf (pd_constants (p_proto p)).
Proof. intros Hs Hp. by destruct (parse_done source p Hs Hp). Qed.

Lemma parsed_well_formed_witness :
  Forall (rule_wf (String.length demo_source))
    (p_rules (default (parser_init "") (parsed demo_source))).
Proof.
  eapply (parsed_well_formed demo_source); vm_compute; reflexivity.
Defined.


Lemma demo_def_parses : pdef_parse demo_source = Done demo_def.
Proof. vm_compute. reflexivity. Defined.

Lemma demo_def_offsets : Forall offsets_in_range (pd_structs demo_def).
Proof. apply offsets_check. vm_compute. reflexivity. Defined.

(** [68 08] [00 06] [68 01] [68 14]: accepted by [Commands], rejected by
    [Others]. *)
Definition demo_packet : list byte := [x68; x08; x00; x06; x68; x01; x68; x14; x00; x00; x00].


(** ** Inputs on which the code misbehaves *)

(** The size of [p] is accepted and the check of the executor against the
    packet length wraps around: a 4-byte packet is read 4 GiB away. *)
Example huge_field_reads_out_of_bounds :
  (d ← pdef_parse "T { bytes[4294967295] p; uint8 x; } @filter F { x = 1; }";
   Done (fst (packet_filter_match (Some [x00; x00; x00; x01]) 4 0 (Some d)))) = Done Undefined.
Proof. vm_compute. reflexivity. Qed.

(** [temp_structs] has 16 entries and no check guards the seventeenth. *)
Example seventeenth_struct_overflows :
  (exists d, pdef_parse "a{}b{}c{}d{}e{}f{}g{}h{}i{}j{}k{}l{}m{}n{}o{}p{}" = Done d) /\
  pdef_parse "a{}b{}c{}d{}e{}f{}g{}h{}i{}j{}k{}l{}m{}n{}o{}p{} q{}" = Undef.
Proof. split; [eexists|]; vm_compute; reflexivity. Qed.

(** [!] in front of a comparison is accepted and dropped. *)
Example negated_comparison_dropped :
  option_map (fun p => map tf_conditions (p_rules p)) (parsed "@filter F { x ! == 5; y ! < 7; }")
  = Some [[mkCond "x" COND_EQ 5 0 []; mkCond "y" COND_LT 7 0 []]].
Proof. vm_compute. reflexivity. Qed.

(** Any token that is not a type keyword or a name declares a [uint8]. *)
Example stray_token_is_uint8 :
  option_map (fun p => map (fun s => map (fun f => (f_name f, f_type f)) (s_fields s)) (p_structs p))
    (parsed "T { 7 x; ; y }") = Some [[("x", FIELD_TYPE_UINT8); ("y", FIELD_TYPE_UINT8)]]%string.
Proof. vm_compute. reflexivity. Qed.

(** A lexer error below a direct [parser_next_token] is lost: [0x] is the
    number 0.  Below [parser_expect] it stops the parse without a message. *)
Example lexer_errors_lost :
  option_map (fun p => pd_constants (p_proto p)) (parsed "@const { A = 1 B = 0x ; }")
    = Some [mkConstant "B" 0; mkConstant "A" 1] /\
  pdef_parse "@const { A = # }" = Fails "".
Proof. split; vm_compute; reflexivity. Qed.

(** A negative [int8] is compared as a large unsigned value. *)
Example signed_compared_unsigned :
  (d ← pdef_parse "T { int8 t; } @filter F { t > 100; }";
   Done (fst (packet_filter_match (Some [xff]) 1 0 (Some d)))) = Done (Ret true).
Proof. vm_compute. reflexivity. Qed.

(** Every error exit frees the protocol and then reads it in
    [parser_cleanup]. *)
Lemma error_exit_uses_freed_memory source msg n :
  pdef_parse source = Fails msg -> snd (pdef_parse_string source n) = Undef.
Proof. intros H. unfold pdef_parse_string. by rewrite H. Qed.
