(* ===== verification/FilterThread.v ===== *)
(** * Filter thread (src/src/rxfilterthread.cpp)

    Offline filtering of a raw capture file by a PDEF protocol
    ([handle_raw_file]) and filtering of single packets
    ([handle_packet_captured]).  Files and savefiles are the interface [Pcap];
    posted messages are returned as an outbox. *)

From S2P Require Import Prelude CppString Endian PdefTypes Executor Compiler CompilerCorrect Layout Protocol Lexer Parser ParserCorrect Pdef Pcap Storage TaskTypes Messages.

(** ** Packet headers *)

(** [app_data] is the offset of the payload in the packet. *)
Record ParsedPacket := mkParsed {
  pp_app_data : option Z;
  pp_app_len : Z;
  pp_src_port : Z;
  pp_dst_port : Z;
  pp_valid : bool;
}.

Definition byte_at (data : list byte) (i : Z) : outcome Z :=
  match aget data i with Some b => Done (b2z b) | None => Undef end.

(** [(data[i] << 8) | data[i + 1]] as a [uint16_t]. *)
Definition u16_at (data : list byte) (i : Z) : outcome Z :=
  hi ← byte_at data i; lo ← byte_at data (i + 1); Done (u16 (Z.lor (Z.shiftl hi 8) lo)).

Definition parse_packet_data (data : list byte) (len : Z) : outcome ParsedPacket :=
  let result := mkParsed None 0 0 0 false in
  if len <? 14 then Done result else
  eth_type ← u16_at data 12;
  if negb (eth_type =? 2048) then Done result else
  if len <? 34 then Done result else
  b0 ← byte_at data 14;
  let ip_header_len := Z.land b0 15 * 4 in
  protocol ← byte_at data 23;
  if len <? 14 + ip_header_len then Done result else
  if len <? 14 + ip_header_len + 4 then Done result else
  src ← u16_at data (14 + ip_header_len);
  dst ← u16_at data (14 + ip_header_len + 2);
  let result := mkParsed None 0 src dst false in
  thl ← (if protocol =? 6 then
           if len <? 14 + ip_header_len + 12 then Done None else
           b ← byte_at data (14 + ip_header_len + 12);
           Done (Some (Z.land (Z.shiftr b 4) 15 * 4))
         else if protocol =? 17 then Done (Some 8)
         else Done None);
  match thl with
  | None => Done result
  | Some transport_header_len =>
      let offset := 14 + ip_header_len + transport_header_len in
      if len <=? offset then Done result
      else Done (mkParsed (Some offset) (len - offset) src dst (0 <? len - offset))
  end.

(** ** Matching *)

Definition to_outcome (r : exec_result) : outcome bool :=
  match r with Ret b => Done b | Undefined => Undef | OutOfFuel => NoFuel end.

(** Both tries of the code: the destination port, then the source port. *)
Definition match_ports (app_data : list byte) (app_len dst src : Z) (pdef : ProtocolDef)
    : outcome (bool * ProtocolDef) :=
  let '(r, p) := packet_filter_match (Some app_data) app_len dst (Some pdef) in
  b ← to_outcome r;
  let pdef := default pdef p in
  if (b : bool) then Done (true, pdef) else
  let '(r, p) := packet_filter_match (Some app_data) app_len src (Some pdef) in
  b ← to_outcome r;
  Done (b, default pdef p).

Definition endian_value (d : EndianType) : Z :=
  match d with ENDIAN_TYPE_UNKNOWN => 0 | ENDIAN_TYPE_BIG => 1 | ENDIAN_TYPE_LITTLE => 2 end.

(** ** Filtering a raw file *)

(** [std::string filtered_path]. *)
Definition filtered_path (raw : string) : string :=
  match find_str "_raw.pcap" raw with
  | Some pos => replace_at pos 9 ".pcap" raw
  | None => raw +:+ ".filtered"
  end.

Definition send_endian_detected_to_manager (manager_thread_index : Z) (pdef_path : string)
    (detected_endian capture_id : Z) : outbox :=
  [(thread_target manager_thread_index,
    MsgPdefEndian (mkEndianMsg (str_take 255 pdef_path) detected_endian capture_id))].

Section RawFile.
Context `{Pcap W D R}.
(** The text of a PDEF file ([None]: it cannot be opened), [st_size] of a
    file and [get_thread_index()]. *)
Context (read_file : string -> option string) (stat_size : string -> W -> option Z)
  (thread_index : Z).

(** One packet of the loop; the counters are [unsigned long]s. *)
Definition filter_packet (out : D) (pdef : ProtocolDef) (matched : Z) (pk : Packet) (w : W)
    : outcome (ProtocolDef * Z * W) :=
  parsed ← parse_packet_data (pk_data pk) (pk_caplen pk);
  match pp_app_data parsed with
  | Some off =>
      if negb (pp_valid parsed) || (pp_app_len parsed =? 0) then Done (pdef, matched, w) else
      '(b, pdef) ← match_ports (drop (Z.to_nat off) (pk_data pk)) (pp_app_len parsed)
                     (pp_dst_port parsed) (pp_src_port parsed) pdef;
      if (b : bool) then Done (pdef, u64 (matched + 1), pcap_dump out pk w) else Done (pdef, matched, w)
  | None => Done (pdef, matched, w)
  end.

Fixpoint filter_loop (fuel : nat) (r : R) (out : D) (pdef : ProtocolDef) (total matched : Z) (w : W)
    : outcome (ProtocolDef * Z * Z * W) :=
  match fuel with
  | O => NoFuel
  | S n =>
      match pcap_next_ex r with
      | (None, _) => Done (pdef, total, matched, w)
      | (Some pk, r) =>
          '(pdef, matched, w) ← filter_packet out pdef matched pk w;
          filter_loop n r out pdef (u64 (total + 1)) matched w
      end
  end.

(** Printing [errmsg] before anything was written to it is undefined. *)
Definition load_pdef (m : SRxCaptureRawFileMsgV2) : outcome (option ProtocolDef) :=
  if negb (is_empty (rw_pdef_inline_content m)) then snd (pdef_parse_string (rw_pdef_inline_content m) 512)
  else if negb (is_empty (rw_pdef_file_path m))
  then snd (pdef_parse_file (read_file (rw_pdef_file_path m)) (rw_pdef_file_path m) 512)
  else Undef.

(** [now] is the clock when the result message is built. *)
Definition handle_raw_file (now : Z) (raw_msg : option SRxCaptureRawFileMsgV2) (w : W)
    : outcome (outbox * W) :=
  match raw_msg with
  | None => Done ([], w)
  | Some m =>
      if negb (rw_has_pdef_filter m) then Done ([], w) else
      pdef ← load_pdef m;
      match pdef with
      | None => Done ([], w)
      | Some pdef =>
          match pcap_open_offline (rw_raw_pcap_path m) w with
          | None => Done ([], w)
          | Some pcap_in =>
              let out_path := filtered_path (rw_raw_pcap_path m) in
              match pcap_dump_open out_path w with
              | (None, w) => Done ([], w)
              | (Some pcap_out, w) =>
                  '(pdef, total, matched, w) ←
                    filter_loop (S (length (remaining pcap_in))) pcap_in pcap_out pdef 0 0 w;
                  let w := pcap_dump_close pcap_out w in
                  let '(_, w) := unlink (rw_raw_pcap_path m) w in
                  let b := rw_base m in
                  let filtered :=
                    mkFilteredV2
                      (mkBase (mb_capture_id b) (mb_key b) (mb_sid b) 1 now 0 thread_index)
                      out_path total matched (default 0 (stat_size out_path w)) (rw_pdef_file_path m) in
                  let box := [(thread_target (rw_manager_thread_index m), MsgCaptureFilteredFile filtered)] in
                  let box :=
                    if bool_decide (pd_endian_mode pdef = ENDIAN_MODE_AUTO) &&
                       bool_decide (pd_detected_endian pdef <> ENDIAN_TYPE_UNKNOWN) &&
                       negb (is_empty (rw_pdef_file_path m))
                    then box ++ send_endian_detected_to_manager (rw_manager_thread_index m)
                                  (rw_pdef_file_path m) (endian_value (pd_detected_endian pdef))
                                  (mb_capture_id b)
                    else box in
                  Done (box, w)
              end
          end
      end
  end.
End RawFile.

(** ** Filtering single packets *)

Record SRxPacketMsg := mkPacketMsg {
  pm_caplen : Z;
  pm_len : Z;
  pm_data : list byte;      (* [uint8_t data[65536]] *)
  pm_src_port : Z;
  pm_dst_port : Z;
  pm_app_offset : Z;
  pm_app_len : Z;
  pm_valid : bool;
}.

Record FilterStats := mkStats { packets_processed : Z; packets_matched : Z; packets_filtered : Z }.

Record CRxFilterThread (D : Type) := mkFilterThread {
  protocol_def_ : option ProtocolDef;
  dump_ctx_ : option (CRxDumpCtx D);
  stats_ : FilterStats;
}.
Arguments mkFilterThread {D}.
Arguments protocol_def_ {D}. Arguments dump_ctx_ {D}. Arguments stats_ {D}.

Definition init {D} (t : CRxFilterThread D) (protocol_def : option ProtocolDef)
    (dump_ctx : option (CRxDumpCtx D)) : bool * CRxFilterThread D :=
  match dump_ctx with
  | None => (false, t)
  | Some _ => (true, mkFilterThread protocol_def dump_ctx (stats_ t))
  end.

(** The packet pointer is not null here. *)
Definition apply_filter (pdef : option ProtocolDef) (packet : SRxPacketMsg)
    : outcome (bool * option ProtocolDef) :=
  if negb (pm_valid packet) then Done (false, pdef) else
  match pdef with
  | None => Done (true, None)
  | Some p =>
      if pm_app_len packet =? 0 then Done (false, pdef) else
      '(b, p) ← match_ports (drop (Z.to_nat (pm_app_offset packet)) (pm_data packet))
                  (pm_app_len packet) (pm_dst_port packet) (pm_src_port packet) p;
      Done (b, Some p)
  end.

Section Packets.
Context (localtime : Z -> tm) `{Pcap W D R}.
(** The index of the reload thread, when there is one. *)
Context (reload_thread : option Z).

Definition captured (m : SRxPacketMsg) : Packet :=
  mkPacket (pm_caplen m) (pm_len m) (take (Z.to_nat (pm_caplen m)) (pm_data m)).

Definition write_packet (now : Z) (ctx : option (CRxDumpCtx D)) (m : SRxPacketMsg) (w : W)
    : outcome (option (CRxDumpCtx D) * W) :=
  match ctx with
  | None => Done (None, w)
  | Some dc =>
      match dc_d dc with
      | None => Done (ctx, w)
      | Some _ => '(dc, w) ← dump_cb localtime now dc (captured m) w; Done (Some dc, w)
      end
  end.

Definition set_writeback_done (p : ProtocolDef) : ProtocolDef :=
  mkProtocolDef (pd_name p) (pd_ports p) (pd_port_count p) (pd_default_endian p) (pd_structs p)
    (pd_filters p) (pd_constants p) (pd_endian_mode p) (pd_detected_endian p) 1 (pd_pdef_file_path p).

(** The request to write the detected order back: sent once, when this packet
    is the one that settled the order. *)
Definition writeback_request (before : EndianType) (pdef : option ProtocolDef) : outbox * option ProtocolDef :=
  match pdef with
  | Some p =>
      if bool_decide (pd_endian_mode p = ENDIAN_MODE_AUTO) &&
         bool_decide (before = ENDIAN_TYPE_UNKNOWN) &&
         bool_decide (pd_detected_endian p <> ENDIAN_TYPE_UNKNOWN) &&
         (pd_endian_writeback_done p =? 0)
      then (match reload_thread with
            | Some i =>
                if is_empty (pd_pdef_file_path p) then []
                else [(thread_target i,
                       MsgPdefEndian (mkEndianMsg (str_take 255 (pd_pdef_file_path p))
                                        (endian_value (pd_detected_endian p)) 0))]
            | None => []
            end, Some (set_writeback_done p))
      else ([], pdef)
  | None => ([], pdef)
  end.

Definition handle_packet_captured (now : Z) (t : CRxFilterThread D) (m : SRxPacketMsg) (w : W)
    : outcome (outbox * CRxFilterThread D * W) :=
  let st := stats_ t in
  let before := match protocol_def_ t with Some p => pd_detected_endian p | None => ENDIAN_TYPE_UNKNOWN end in
  '(matched, pdef) ← apply_filter (protocol_def_ t) m;
  let '(box, pdef) := writeback_request before pdef in
  let processed := u64 (packets_processed st + 1) in
  if matched : bool then
    '(ctx, w) ← write_packet now (dump_ctx_ t) m w;
    Done (box, mkFilterThread pdef ctx (mkStats processed (u64 (packets_matched st + 1)) (packets_filtered st)), w)
  else
    Done (box, mkFilterThread pdef (dump_ctx_ t)
                 (mkStats processed (packets_matched st) (u64 (packets_filtered st + 1))), w).
End Packets.

(** ** The header parser *)

Lemma byte_at_in data i :
  0 <= i < Z.of_nat (length data) -> exists b, byte_at data i = Done b /\ 0 <= b < 256.
Proof.
  intros Hi. unfold byte_at. destruct (aget_is_Some data i Hi) as [b ->]. exists (b2z b).
  split; [done|apply b2z_range].
Qed.

Lemma u16_at_in data i :
  0 <= i -> i + 1 < Z.of_nat (length data) -> exists x, u16_at data i = Done x.
Proof.
  intros H1 H2. unfold u16_at. destruct (byte_at_in data i) as (a & -> & _); [lia|].
  destruct (byte_at_in data (i + 1)) as (b & -> & _); [lia|]. by eexists.
Qed.

Lemma byte_at_out data i : Z.of_nat (length data) <= i -> byte_at data i = Undef.
Proof.
  intros Hi. unfold byte_at, aget. destruct (Z.ltb_spec i (Z.of_nat (length data))); [lia|].
  by rewrite andb_false_r.
Qed.

Lemma nibble_range x : 0 <= Z.land x 15 <= 15.
Proof.
  assert (E : Z.land x 15 = x mod 16) by (apply (Z.land_ones x 4); lia).
  rewrite E. pose proof (Z.mod_pos_bound x 16). lia.
Qed.

(** An IPv4 TCP packet whose capture ends in front of the byte that holds the
    TCP header length. *)
Definition tcp_cut (data : list byte) : Prop :=
  u16_at data 12 = Done 2048 /\ byte_at data 23 = Done 6 /\
  34 <= Z.of_nat (length data) /\
  exists b0, byte_at data 14 = Done b0 /\ Z.of_nat (length data) = 26 + Z.land b0 15 * 4.

(** What a successful parse reports. *)
Definition parsed_ok (data : list byte) (r : ParsedPacket) : Prop :=
  match pp_app_data r with
  | Some off => pp_valid r = true /\ 14 <= off /\ 0 < pp_app_len r /\
                off + pp_app_len r = Z.of_nat (length data)
  | None => pp_valid r = false /\ pp_app_len r = 0
  end.

Ltac step_byte d i b Hb :=
  let Hr := fresh "Hr" in
  destruct (byte_at_in d i) as (b & Hb & Hr); [lia|rewrite Hb, ?outcome_bind_done].

Ltac step_u16 d i x Hu :=
  destruct (u16_at_in d i) as (x & Hu); [lia|lia|rewrite Hu, ?outcome_bind_done].

(** Every branch of the parser at once. *)
Lemma parse_packet_cases data :
  (tcp_cut data /\ parse_packet_data data (Z.of_nat (length data)) = Undef) \/
  (~ tcp_cut data /\ exists r, parse_packet_data data (Z.of_nat (length data)) = Done r /\ parsed_ok data r).
Proof.
  unfold parse_packet_data. set (len := Z.of_nat (length data)).
  assert (Hno : forall r, parsed_ok data r -> ~ tcp_cut data ->
    (tcp_cut data /\ Done r = Undef) \/ (~ tcp_cut data /\ exists r', Done r = Done r' /\ parsed_ok data r')).
  { intros r Hr Hc. right. split; [done|]. by exists r. }
  destruct (Z.ltb_spec len 14) as [H14|H14].
  { apply Hno; [done|]. intros (_ & _ & Hl & _). fold len in Hl. lia. }
  step_u16 data 12 et Het. destruct (Z.eqb_spec et 2048) as [->|Hne]; cbn [negb].
  2: { apply Hno; [done|]. intros (Hc & _). rewrite Het in Hc. by injection Hc. }
  destruct (Z.ltb_spec len 34) as [H34|H34].
  { apply Hno; [done|]. intros (_ & _ & Hl & _). fold len in Hl. lia. }
  step_byte data 14 b0 Hb0. pose proof (nibble_range b0) as Hn. set (ihl := Z.land b0 15 * 4) in *. step_byte data 23 pr Hpr0.
  assert (Hcut : len <> 26 + ihl \/ pr <> 6 -> ~ tcp_cut data).
  { intros Hd (_ & Hp & _ & b0' & Hb0' & Hl). rewrite Hb0 in Hb0'. injection Hb0' as <-.
    rewrite Hpr0 in Hp. injection Hp as ->. fold len in Hl. fold ihl in Hl. lia. }
  destruct (Z.ltb_spec len (14 + ihl)); [apply Hno; [done|apply Hcut; lia]|].
  destruct (Z.ltb_spec len (14 + ihl + 4)); [apply Hno; [done|apply Hcut; lia]|].
  step_u16 data (14 + ihl) sp Hsp. step_u16 data (14 + ihl + 2) dp Hdp.
  destruct (Z.eqb_spec pr 6) as [->|Hpr]; [|destruct (Z.eqb_spec pr 17) as [->|]].
  - destruct (Z.ltb_spec len (14 + ihl + 12)); [rewrite outcome_bind_done; apply Hno; [done|apply Hcut; lia]|].
    destruct (Z.eq_dec len (26 + ihl)) as [He|He].
    + left. rewrite byte_at_out by (fold len; lia). split; [|done].
      split; [done|]. split; [done|]. split; [done|]. exists b0. done.
    + step_byte data (14 + ihl + 12) b Hb. pose proof (nibble_range (Z.shiftr b 4)).
      destruct (Z.leb_spec len (14 + ihl + Z.land (Z.shiftr b 4) 15 * 4));
        (apply Hno; [|apply Hcut; lia]); [done|].
      unfold parsed_ok. cbn. zbool. fold len. lia.
  - rewrite outcome_bind_done.
    destruct (Z.leb_spec len (14 + ihl + 8)); (apply Hno; [|apply Hcut; lia]); [done|].
    unfold parsed_ok. cbn. zbool. fold len. lia.
  - rewrite outcome_bind_done. apply Hno; [done|apply Hcut; lia].
Qed.

(** ** Matching against the interface of the compiled rules *)

Section Sems.
Context (sems : list { r : FilterRule & RuleSem r }).

Definition accepts (mode : EndianMode) (d : EndianType) (pkt : list byte) : bool :=
  existsb (fun x => existsb (sem_mode (projT2 x) mode d) (window (projT1 x) pkt)) sems.

Definition detect_next (mode : EndianMode) (d : EndianType) (pkt : list byte) : EndianType :=
  default d (first_match sems mode d pkt).

Lemma accepts_first_match mode d pkt :
  accepts mode d pkt = match first_match sems mode d pkt with Some _ => true | None => false end.
Proof.
  unfold accepts. clear. induction sems as [|[r Sm] rest IH]; [done|]. cbn [existsb first_match projT1 projT2].
  assert (Ef : forall l, existsb (sem_mode Sm mode d) l
               = match find (sem_mode Sm mode d) l with Some _ => true | None => false end).
  { induction l as [|x l IHl]; [done|]. simpl. destruct (sem_mode Sm mode d x); [done|apply IHl]. }
  rewrite Ef. by destruct (find _ _).
Qed.

Lemma set_detected_twice p d d' : set_detected (set_detected p d) d' = set_detected p d'.
Proof. done. Qed.

Lemma set_detected_same p : set_detected p (pd_detected_endian p) = p.
Proof. by destruct p. Qed.

(** The second try repeats the first one. *)
Lemma match_ports_sem p pkt dst src :
  pd_filters p = map (fun x => projT1 x) sems -> Z.of_nat (length pkt) < 2 ^ 32 ->
  match_ports pkt (Z.of_nat (length pkt)) dst src p =
    Done (accepts (pd_endian_mode p) (pd_detected_endian p) pkt,
          set_detected p (detect_next (pd_endian_mode p) (pd_detected_endian p) pkt)).
Proof.
  intros Hf Hl. unfold match_ports, packet_filter_match. rewrite Hf, match_filters_sem by done.
  unfold detect_next. rewrite accepts_first_match.
  destruct (first_match sems _ _ pkt) as [d'|] eqn:Ef; cbn [to_outcome]; rewrite outcome_bind_done; cbn [default]; [done|].
  unfold id. rewrite set_detected_same, Hf, match_filters_sem, Ef by done. cbn [to_outcome default].
  rewrite outcome_bind_done. unfold id. by rewrite set_detected_same.
Qed.

(** The payload of a packet, as the parser finds it. *)
Definition payload (pk : Packet) : option (list byte) :=
  match parse_packet_data (pk_data pk) (pk_caplen pk) with
  | Done r => option_map (fun off => drop (Z.to_nat off) (pk_data pk)) (pp_app_data r)
  | _ => None
  end.

(** The packets that stay, and the byte order detected on the way. *)
Fixpoint kept (mode : EndianMode) (d : EndianType) (pks : list Packet) : list Packet * EndianType :=
  match pks with
  | [] => ([], d)
  | pk :: rest =>
      match payload pk with
      | Some app =>
          let '(l, d') := kept mode (detect_next mode d app) rest in
          (if accepts mode d app then pk :: l else l, d')
      | None => kept mode d rest
      end
  end.

(** Packets as libpcap delivers them, none of them cut as above. *)
Definition readable (pk : Packet) : Prop := packet_ok pk /\ ~ tcp_cut (pk_data pk).

Lemma loop_result_eq {W} (p p' : ProtocolDef) (a a' b b' : Z) (w : W) :
  p = p' -> a = a' -> b = b' -> Done (p, a, b, w) = Done (p', a', b', w).
Proof. by intros -> -> ->. Qed.

Section Loop.
Context `{Pcap W D R}.

Lemma filter_packet_spec out p matched pk w :
  pd_filters p = map (fun x => projT1 x) sems -> readable pk ->
  let mode := pd_endian_mode p in let d := pd_detected_endian p in
  filter_packet out p matched pk w =
    Done (match payload pk with
          | Some app =>
              (set_detected p (detect_next mode d app),
               if accepts mode d app then u64 (matched + 1) else matched,
               if accepts mode d app then pcap_dump out pk w else w)
          | None => (p, matched, w)
          end).
Proof.
  intros Hf [[Hcap Hlen] Hcut] mode d. unfold filter_packet, payload. rewrite Hcap.
  destruct (parse_packet_cases (pk_data pk)) as [[? _]|[_ (r & Hr & Hok)]]; [done|].
  rewrite Hr, outcome_bind_done. unfold parsed_ok in Hok. destruct (pp_app_data r) as [off|]; [|done].
  destruct Hok as (Hv & Hoff & Hpos & Hsum). rewrite Hv. cbn [negb orb option_map].
  destruct (Z.eqb_spec (pp_app_len r) 0); [lia|].
  replace (pp_app_len r) with (Z.of_nat (length (drop (Z.to_nat off) (pk_data pk)))) at 1
    by (rewrite length_drop; lia).
  rewrite match_ports_sem by (rewrite ?length_drop; try done; lia). rewrite outcome_bind_done.
  unfold mode, d. by destruct (accepts _ _ _).
Qed.

Lemma filter_loop_spec fuel r out p total matched w l :
  pd_filters p = map (fun x => projT1 x) sems -> Forall readable (remaining r) ->
  (length (remaining r) < fuel)%nat -> contents w !! dumper_path out = Some l ->
  0 <= matched -> matched <= total -> total + Z.of_nat (length (remaining r)) < 2 ^ 64 ->
  let '(ks, d') := kept (pd_endian_mode p) (pd_detected_endian p) (remaining r) in
  exists w', filter_loop fuel r out p total matched w =
    Done (set_detected p d', total + Z.of_nat (length (remaining r)), matched + Z.of_nat (length ks), w') /\
    (length ks <= length (remaining r))%nat /\
    contents w' !! dumper_path out = Some (l ++ ks) /\
    (forall q, q <> dumper_path out -> contents w' !! q = contents w !! q).
Proof.
  revert r p total matched w l. induction fuel as [|n IH]; intros r p total matched w l Hf Hr Hfu Hl Hm Hmt Ht; [lia|].
  cbn [filter_loop]. destruct (next_ex_remaining r) as [Hn Htl].
  destruct (remaining r) as [|pk pks] eqn:Er.
  - rewrite Hn. cbn [kept]. exists w. rewrite set_detected_same. simpl. rewrite !Z.add_0_r, app_nil_r. done.
  - rewrite Hn. apply Forall_cons in Hr as [Hpk Hpks]. rewrite (filter_packet_spec out p matched pk w Hf Hpk).
    rewrite outcome_bind_done. cbn [kept]. simpl in Htl. cbn [length] in Hfu, Ht.
    destruct (payload pk) as [app|].
    + set (d1 := detect_next _ _ app). destruct (accepts _ _ app) eqn:Ea.
      * rewrite u64_small by lia. rewrite u64_small by lia.
        specialize (IH (snd (pcap_next_ex r)) (set_detected p d1) (total + 1) (matched + 1)
          (pcap_dump out pk w) (l ++ [pk])). rewrite Htl in IH. cbn [set_detected pd_filters pd_endian_mode pd_detected_endian] in IH.
        destruct (kept (pd_endian_mode p) d1 pks) as [ks d'].
        destruct IH as (w' & -> & Hlen & Hc & Ho); [done|done|lia|by apply dump_contents_eq|lia..|].
        exists w'. split; [apply loop_result_eq; [done|simpl; lia..]|]. split; [simpl; lia|].
        split; [by rewrite Hc, <- app_assoc|]. intros q Hq. rewrite Ho by done. by apply dump_contents_ne.
      * rewrite u64_small by lia.
        specialize (IH (snd (pcap_next_ex r)) (set_detected p d1) (total + 1) matched w l).
        rewrite Htl in IH. cbn [set_detected pd_filters pd_endian_mode pd_detected_endian] in IH.
        destruct (kept (pd_endian_mode p) d1 pks) as [ks d'].
        destruct IH as (w' & -> & Hlen & Hc & Ho); [done|done|lia|done|lia..|].
        exists w'. split; [apply loop_result_eq; [done|simpl; lia..]|]. split; [simpl; lia|]. done.
    + rewrite u64_small by lia. specialize (IH (snd (pcap_next_ex r)) p (total + 1) matched w l).
      rewrite Htl in IH. destruct (kept (pd_endian_mode p) (pd_detected_endian p) pks) as [ks d'].
      destruct IH as (w' & -> & Hlen & Hc & Ho); [done|done|lia|done|lia..|].
      exists w'. split; [apply loop_result_eq; [done|simpl; lia..]|]. split; [simpl; lia|]. done.
Qed.
End Loop.
End Sems.

(** ** File names *)

Lemma filtered_path_raw a b :
  find_str "_raw.pcap" (a +:+ "_raw.pcap" +:+ b) = Some (String.length a) ->
  filtered_path (a +:+ "_raw.pcap" +:+ b) = a +:+ ".pcap" +:+ b.
Proof.
  intros H. unfold filtered_path. rewrite H. apply (replace_at_app a "_raw.pcap" b ".pcap").
Qed.

Lemma filtered_path_length raw : String.length (filtered_path raw) <> String.length raw.
Proof.
  unfold filtered_path. destruct (find_str "_raw.pcap" raw) as [n|] eqn:E.
  - pose proof (find_str_le _ _ _ E) as Hle. simpl in Hle. unfold replace_at.
    rewrite !str_length_app, str_drop_length.
    assert (String.length (str_take n raw) <= n)%nat by apply str_take_length. simpl. lia.
  - rewrite str_length_app. simpl. lia.
Qed.

Lemma filtered_path_ne raw : filtered_path raw <> raw.
Proof. intros E. apply (filtered_path_length raw). by rewrite E. Qed.

(** ** Properties *)

(** C21: header parsing stays inside the capture except in one case: on an
    IPv4/TCP packet cut right before its header-length byte the guard, which
    asks for 12 bytes of TCP header and then reads the 13th, lets the parser
    read one byte past the end.  On every other packet the parse ends and,
    when it reports a payload, the payload is a non-empty tail of the
    packet. *)
Theorem parse_packet_data_bounds data :
  (parse_packet_data data (Z.of_nat (length data)) = Undef <-> tcp_cut data) /\
  (~ tcp_cut data -> exists r, parse_packet_data data (Z.of_nat (length data)) = Done r /\ parsed_ok data r).
Proof.
  destruct (parse_packet_cases data) as [[Hc Hu]|[Hc (r & Hr & Hok)]].
  - by split.
  - rewrite Hr. split; [by split|]. eauto.
Qed.

(** 34 bytes: Ethernet, and an IPv4 header of 8 bytes whose TCP part is cut
    after 12 bytes. *)
Definition cut_packet : list byte :=
  repeat x00 12 ++ [x08; x00; x42] ++ repeat x00 8 ++ [x06] ++ repeat x00 10.

Lemma parse_packet_data_bounds_witness :
  parse_packet_data cut_packet 34 = Undef /\
  exists r, parse_packet_data (repeat x00 60) 60 = Done r /\ parsed_ok (repeat x00 60) r.
Proof.
  split.
  - apply (proj1 (parse_packet_data_bounds cut_packet)).
    split; [reflexivity|]. split; [reflexivity|]. split; [simpl; lia|].
    exists 66. split; [reflexivity|]. vm_compute. reflexivity.
  - apply (proj2 (parse_packet_data_bounds (repeat x00 60))). intros (H & _). discriminate H.
Defined.

(** ** Filtering a whole file *)

Section FilterRun.
Context `{Pcap W D R} (read_file : string -> option string) (stat_size : string -> W -> option Z) (ti now : Z).
Context (m : SRxCaptureRawFileMsgV2) (pdef : ProtocolDef) (sems : list { r : FilterRule & RuleSem r }).

(** The protocol loads, the raw file opens as [r], its packets are readable
    and the output can be created. *)
Record filterable (r : R) (w : W) : Prop := {
  fa_filter : rw_has_pdef_filter m = true;
  fa_load : load_pdef read_file m = Done (Some pdef);
  fa_rules : pd_filters pdef = map (fun x => projT1 x) sems;
  fa_raw : pcap_open_offline (rw_raw_pcap_path m) w = Some r;
  fa_packets : Forall readable (remaining r);
  fa_count : Z.of_nat (length (remaining r)) < 2 ^ 64;
  fa_output : fst (pcap_dump_open (filtered_path (rw_raw_pcap_path m)) w) <> None;
}.

(** The packets that stay of [pks] and the byte order detected last. *)
Definition filter_result (pks : list Packet) : list Packet * EndianType :=
  kept sems (pd_endian_mode pdef) (pd_detected_endian pdef) pks.

Definition filter_reports (pks : list Packet) (fsize : Z) : outbox :=
  let '(ks, d) := filter_result pks in
  let target := thread_target (rw_manager_thread_index m) in
  (target, MsgCaptureFilteredFile
     (mkFilteredV2 (mkBase (mb_capture_id (rw_base m)) (mb_key (rw_base m)) (mb_sid (rw_base m)) 1 now 0 ti)
        (filtered_path (rw_raw_pcap_path m)) (Z.of_nat (length pks)) (Z.of_nat (length ks)) fsize
        (rw_pdef_file_path m))) ::
  (if bool_decide (pd_endian_mode pdef = ENDIAN_MODE_AUTO) &&
      bool_decide (d <> ENDIAN_TYPE_UNKNOWN) && negb (is_empty (rw_pdef_file_path m))
   then [(target, MsgPdefEndian (mkEndianMsg (str_take 255 (rw_pdef_file_path m))
                    (endian_value d) (mb_capture_id (rw_base m))))]
   else []).

(** The raw file is removed at the end: [w2] is what [unlink] leaves, the file
    is gone when it succeeds and as it was when it fails. *)
Definition raw_unlinked (w w2 : W) : Prop :=
  exists w1 removed, unlink (rw_raw_pcap_path m) w1 = (removed, w2) /\
    contents w2 !! rw_raw_pcap_path m = if removed then None else contents w !! rw_raw_pcap_path m.

Lemma handle_raw_file_run r w :
  filterable r w ->
  exists w2 fsize,
    handle_raw_file read_file stat_size ti now (Some m) w = Done (filter_reports (remaining r) fsize, w2) /\
    contents w2 !! filtered_path (rw_raw_pcap_path m) = Some (fst (filter_result (remaining r))) /\
    raw_unlinked w w2 /\
    (forall q, q <> filtered_path (rw_raw_pcap_path m) -> q <> rw_raw_pcap_path m ->
       contents w2 !! q = contents w !! q).
Proof.
  intros [Hhas Hload Hf Hopen Hread Hlen Hout].
  destruct (pcap_dump_open (filtered_path (rw_raw_pcap_path m)) w) as [[out|] w1] eqn:Hdump; [|done].
  destruct (dump_open_contents _ _ _ _ Hdump) as [Hpath Hc1].
  assert (Hempty : contents w1 !! dumper_path out = Some []) by (by rewrite Hc1, Hpath, lookup_insert_eq).
  pose proof (filter_loop_spec sems (S (length (remaining r))) r out pdef 0 0 w1 [] Hf Hread (Nat.lt_succ_diag_r _) Hempty
    ltac:(lia) ltac:(lia) ltac:(lia)) as Hloop.
  unfold filter_reports, filter_result.
  destruct (kept sems _ _ _) as [ks d]. destruct Hloop as (w3 & Hloop & _ & Hc3 & Ho3).
  unfold handle_raw_file. rewrite Hhas. cbn [negb]. rewrite Hload, outcome_bind_done, Hopen, Hdump, Hloop.
  rewrite outcome_bind_done. destruct (unlink _ (pcap_dump_close out w3)) as [b w4] eqn:Eu.
  pose proof (unlink_contents _ _ _ _ Eu) as Hc4. rewrite dump_close_contents in Hc4.
  eexists w4, _. split.
  - cbn [set_detected pd_endian_mode pd_detected_endian]. rewrite Z.add_0_l. f_equal. f_equal.
    by destruct (_ && _).
  - rewrite Hc4. split.
    + destruct b; [rewrite lookup_delete_ne by (apply not_eq_sym, filtered_path_ne)|]; by rewrite <- Hpath, Hc3.
    + split.
      { exists (pcap_dump_close out w3), b. split; [done|]. rewrite Hc4. destruct b; [by rewrite lookup_delete_eq|].
        rewrite Ho3, Hc1, lookup_insert_ne; [done|apply filtered_path_ne|].
        rewrite Hpath. apply not_eq_sym, filtered_path_ne. }
      intros q Hq1 Hq2. destruct b; [rewrite lookup_delete_ne by done|];
        (rewrite Ho3 by congruence); by rewrite Hc1, lookup_insert_ne by done.
Qed.
End FilterRun.

(** C6: offline filtering.  When the protocol loads, the raw file opens and
    the output can be created, the filtered file holds exactly the packets
    whose payload some filter accepts, in their order (the byte order detected
    on one packet being used for the next); the manager is told the totals;
    the detected order is reported when the mode is automatic and the
    definition comes from a file; the raw file is removed, unless [unlink]
    fails; and no other file changes. *)
Theorem handle_raw_file_filters `{Pcap W D R} read_file stat_size ti now m pdef sems r w :
  filterable read_file m pdef sems r w ->
  exists w2 fsize,
    handle_raw_file read_file stat_size ti now (Some m) w = Done (filter_reports ti now m pdef sems (remaining r) fsize, w2) /\
    contents w2 !! filtered_path (rw_raw_pcap_path m) = Some (fst (filter_result pdef sems (remaining r))) /\
    raw_unlinked m w w2 /\
    (forall q, q <> filtered_path (rw_raw_pcap_path m) -> q <> rw_raw_pcap_path m ->
       contents w2 !! q = contents w !! q).
Proof. apply handle_raw_file_run. Qed.

(** Two UDP packets; the payload of the first is [00 06]. *)
Definition udp_packet (payload : list byte) : Packet :=
  let data := repeat x00 12 ++ [x08; x00; x45] ++ repeat x00 8 ++ [x11] ++ repeat x00 18 ++ payload in
  mkPacket (Z.of_nat (length data)) (Z.of_nat (length data)) data.

Definition raw_packets : list Packet := [udp_packet [x00; x06]; udp_packet [x06; x00]].

Definition raw_source : string := "T { uint16 x; } @filter F { x = 6; }".

Definition raw_def : ProtocolDef :=
  match pdef_parse raw_source with Done d => with_file d "t.pdef" | _ => demo_proto end.

Definition raw_struct : StructDef :=
  mkStructDef "T" [mkField "x" FIELD_TYPE_UINT16 0 2 ENDIAN_BIG false false 1] 2 false.

Definition raw_rule : TempFilterRule := mkTempRule "F" "" [mkCond "x" COND_EQ 6 0 []] false 0.

Definition raw_compiled : FilterRule :=
  match compile_filter_rule [raw_struct] raw_rule with Done r => r | _ => demo_compiled end.

Lemma raw_offsets : Forall offsets_in_range [raw_struct].
Proof. apply offsets_check. reflexivity. Defined.

Definition raw_sems : list { r : FilterRule & RuleSem r } :=
  [existT raw_compiled
     (compiled_rule_sem [raw_struct] raw_rule raw_compiled raw_struct eq_refl eq_refl raw_offsets eq_refl)].

Definition raw_msg : SRxCaptureRawFileMsgV2 :=
  mkRawFileV2 (mkBase 1000 "key" "sid" 1 0 0 3) "cap/a_raw.pcap" "t.pdef" "" true 2.

Definition raw_fs : mem_fs := mkFs {[ "cap/a_raw.pcap"%string := raw_packets ]} [].

Lemma raw_readable : Forall readable raw_packets.
Proof.
  repeat constructor; try reflexivity; intros (_ & H & _); vm_compute in H; discriminate H.
Defined.

Lemma handle_raw_file_filters_witness :
  exists w2 fsize,
    @handle_raw_file _ _ _ (MemFs ∅) (fun _ => Some raw_source) (fun _ _ => None) 5 0 (Some raw_msg) raw_fs =
      Done ([(thread_target 2, MsgCaptureFilteredFile
               (mkFilteredV2 (mkBase 1000 "key" "sid" 1 0 0 5) "cap/a.pcap" 2 1 fsize "t.pdef"));
             (thread_target 2, MsgPdefEndian (mkEndianMsg "t.pdef" 1 1000))], w2) /\
    fs_files w2 !! "cap/a.pcap"%string = Some [udp_packet [x00; x06]] /\
    fs_files w2 !! "cap/a_raw.pcap"%string = None.
Proof.
  destruct (@handle_raw_file_filters _ _ _ (MemFs ∅) (fun _ => Some raw_source) (fun _ _ => None) 5 0
    raw_msg raw_def raw_sems raw_packets raw_fs) as (w2 & fsize & H1 & H2 & (w1 & removed & Hu & H3) & _).
  - split; [reflexivity|vm_compute; reflexivity|vm_compute; reflexivity|reflexivity|exact raw_readable|simpl; lia|discriminate].
  - exists w2, fsize.
    assert (E : filter_result raw_def raw_sems raw_packets = ([udp_packet [x00; x06]], ENDIAN_TYPE_BIG)) by (vm_compute; reflexivity).
    cbn [remaining MemFs] in H1, H2. unfold filter_reports in H1. rewrite E in H1, H2. split; [|split; [exact H2|]].
    2: { cbn in Hu. injection Hu as <- _. exact H3. }
    assert (Em : pd_endian_mode raw_def = ENDIAN_MODE_AUTO) by (vm_compute; reflexivity).
    rewrite Em in H1. exact H1.
Defined.

(** A raw file that cannot be filtered ends in silence.  When the
    definition file cannot be read, the raw file cannot be opened or the
    output cannot be created, the handler returns without a message, so the
    manager never learns that the capture is over; when the definition does
    not parse, its error exit has already used freed memory. *)
Theorem handle_raw_file_failure_silent `{Pcap W D R} read_file stat_size ti now m w :
  rw_has_pdef_filter m = true ->
  (rw_pdef_inline_content m = "" -> rw_pdef_file_path m <> "" -> read_file (rw_pdef_file_path m) = None ->
     handle_raw_file read_file stat_size ti now (Some m) w = Done ([], w)) /\
  (forall pdef, load_pdef read_file m = Done (Some pdef) -> pcap_open_offline (rw_raw_pcap_path m) w = None ->
     handle_raw_file read_file stat_size ti now (Some m) w = Done ([], w)) /\
  (forall pdef r w1, load_pdef read_file m = Done (Some pdef) -> pcap_open_offline (rw_raw_pcap_path m) w = Some r ->
     pcap_dump_open (filtered_path (rw_raw_pcap_path m)) w = (None, w1) ->
     handle_raw_file read_file stat_size ti now (Some m) w = Done ([], w1)) /\
  (forall msg, rw_pdef_inline_content m <> "" -> pdef_parse (rw_pdef_inline_content m) = Fails msg ->
     handle_raw_file read_file stat_size ti now (Some m) w = Undef).
Proof.
  intros Hhas. unfold handle_raw_file. rewrite Hhas. cbn [negb]. split; [|split; [|split]].
  - intros Hi Hp Hr. unfold load_pdef. rewrite Hi, Hr. cbn [is_empty negb].
    destruct (is_empty_spec (rw_pdef_file_path m)); [done|]. reflexivity.
  - intros pdef -> ->. reflexivity.
  - intros pdef r w1 -> -> ->. reflexivity.
  - intros msg Hi Hp. unfold load_pdef. destruct (is_empty_spec (rw_pdef_inline_content m)); [done|].
    unfold pdef_parse_string. rewrite Hp. reflexivity.
Qed.

Lemma handle_raw_file_failure_silent_witness :
  @handle_raw_file _ _ _ (MemFs ∅) (fun _ => None) (fun _ _ => None) 5 0 (Some raw_msg) raw_fs
  = Done ([], raw_fs).
Proof.
  apply (@handle_raw_file_failure_silent _ _ _ (MemFs ∅)); [reflexivity|reflexivity|discriminate|reflexivity].
Defined.

Lemma join_path_app base s t : s <> "" -> join_path base (s +:+ t) = join_path base s +:+ t.
Proof.
  intros Hs. unfold join_path. destruct s as [|c s]; [done|]. rewrite str_app_cons.
  cbn [is_empty is_prefix]. rewrite <- !str_app_cons.
  destruct (Ascii.eqb "/" c && true); [done|]. destruct (is_empty base); [done|].
  by destruct (ends_with "/" base); rewrite !str_app_assoc.
Qed.

(** The two halves of the naming convention agree.  The capture inserts
    [_raw] before the extension of the name; for a [.pcap] name in which
    [_raw.pcap] does not occur earlier, the filter thread stores its result
    under the name without it. *)
Theorem filtered_path_undoes_raw base s :
  s <> "" ->
  find_str "_raw.pcap" (join_path base (s +:+ "_raw.pcap")) = Some (String.length (join_path base s)) ->
  filtered_path (join_path base (insert_suffix "_raw" (s +:+ ".pcap"))) = join_path base (s +:+ ".pcap").
Proof.
  intros Hs Hf. unfold insert_suffix. rewrite (rfind_char_app "." s "pcap") by done.
  rewrite insert_at_app, !join_path_app by done. rewrite join_path_app in Hf by done.
  apply (filtered_path_raw (join_path base s) ""); by rewrite str_app_nil_r.
Qed.

Lemma filtered_path_undoes_raw_witness :
  filtered_path (join_path "cap" (insert_suffix "_raw" "20240109/eth0.pcap")) = join_path "cap" "20240109/eth0.pcap".
Proof. apply (filtered_path_undoes_raw "cap" "20240109/eth0"); [discriminate|reflexivity]. Defined.

(** Another extension, or a name that already has the marker, is stored
    elsewhere. *)
Example filtered_path_other_names :
  filtered_path (insert_suffix "_raw" "a.cap") = "a_raw.cap.filtered" /\
  filtered_path (insert_suffix "_raw" "x_raw.pcap/a.pcap") = "x.pcap/a_raw.pcap".
Proof. by split. Qed.

(** ** One writeback request per protocol *)

Section Requests.
Context (localtime : Z -> tm) `{Pcap W D R} (reload_thread : option Z) (now : Z).

(** The thread's messages for a sequence of captured packets. *)
Fixpoint handle_packets (t : CRxFilterThread D) (ms : list SRxPacketMsg) (w : W)
    : outcome (outbox * CRxFilterThread D * W) :=
  match ms with
  | [] => Done ([], t, w)
  | m :: rest =>
      '(box, t, w) ← handle_packet_captured localtime reload_thread now t m w;
      '(box', t, w) ← handle_packets t rest w;
      Done (box ++ box', t, w)
  end.

Definition writeback_flag (pdef : option ProtocolDef) : Z :=
  match pdef with Some p => pd_endian_writeback_done p | None => 0 end.

Lemma match_ports_flag data len dst src p b p' :
  match_ports data len dst src p = Done (b, p') ->
  pd_endian_writeback_done p' = pd_endian_writeback_done p.
Proof.
  unfold match_ports, packet_filter_match.
  destruct (match_filters data len _ _ _) as [r d]. intros H1.
  apply outcome_bind_Done_inv in H1 as (b1 & _ & H1). cbn [default] in H1. unfold id in H1.
  destruct b1; [by injection H1 as _ <-|].
  destruct (match_filters data len _ _ _) as [r2 d2].
  apply outcome_bind_Done_inv in H1 as (b2 & _ & H1). by injection H1 as _ <-.
Qed.

Lemma apply_filter_flag pdef m b pdef' :
  apply_filter pdef m = Done (b, pdef') -> writeback_flag pdef' = writeback_flag pdef.
Proof.
  unfold apply_filter. destruct (negb (pm_valid m)); [by intros [= _ <-]|].
  destruct pdef as [p|]; [|by intros [= _ <-]]. destruct (pm_app_len m =? 0); [by intros [= _ <-]|].
  intros H1. apply outcome_bind_Done_inv in H1 as ([b1 p1] & Hm & H1). injection H1 as _ <-.
  by apply match_ports_flag in Hm.
Qed.

(** The statistics and the flag after one packet. *)
Lemma handle_packet_captured_spec t m w box t' w' :
  handle_packet_captured localtime reload_thread now t m w = Done (box, t', w') ->
  (length box <= 1)%nat /\
  (writeback_flag (protocol_def_ t) <> 0 -> box = [] /\ writeback_flag (protocol_def_ t') = writeback_flag (protocol_def_ t)) /\
  (box <> [] -> writeback_flag (protocol_def_ t') <> 0) /\
  packets_processed (stats_ t') = u64 (packets_processed (stats_ t) + 1) /\
  exists matched : bool,
    packets_matched (stats_ t') = (if matched then u64 (packets_matched (stats_ t) + 1) else packets_matched (stats_ t)) /\
    packets_filtered (stats_ t') = (if matched then packets_filtered (stats_ t) else u64 (packets_filtered (stats_ t) + 1)).
Proof.
  unfold handle_packet_captured. intros H1.
  apply outcome_bind_Done_inv in H1 as ([matched pdef] & Ha & H1).
  apply apply_filter_flag in Ha. rewrite <- Ha.
  set (before := match protocol_def_ t with Some p => _ | None => _ end) in H1.
  destruct (writeback_request reload_thread before pdef) as [box1 pdef1] eqn:Ew.
  assert (Hw : (length box1 <= 1)%nat /\
    (writeback_flag pdef <> 0 -> box1 = [] /\ writeback_flag pdef1 = writeback_flag pdef) /\
    (box1 <> [] -> writeback_flag pdef1 <> 0)).
  { unfold writeback_request in Ew. destruct pdef as [p|]; [|injection Ew as <- <-; simpl; repeat split; lia || done].
    simpl writeback_flag at 1 2 3.
    destruct (Z.eqb_spec (pd_endian_writeback_done p) 0) as [Hz|Hz].
    - destruct (_ && true); [|by injection Ew as <- <-; simpl; repeat split; (lia || done)].
      injection Ew as <- <-. split; [destruct reload_thread; [destruct (is_empty _)|]; simpl; lia|].
      split; [done|]. intros _. simpl. lia.
    - rewrite andb_false_r in Ew. injection Ew as <- <-. simpl. repeat split; (lia || done). }
  destruct Hw as (Hw1 & Hw2 & Hw3). destruct matched.
  - apply outcome_bind_Done_inv in H1 as ([ctx w1] & _ & H1). injection H1 as <- <- <-.
    repeat (split; [done|]). by exists true.
  - injection H1 as <- <- <-. repeat (split; [done|]). by exists false.
Qed.

Lemma handle_packets_quiet ms t w box t' w' :
  writeback_flag (protocol_def_ t) <> 0 -> handle_packets t ms w = Done (box, t', w') -> box = [].
Proof.
  revert t w box. induction ms as [|m ms IH]; intros t w box Hf Hr; cbn [handle_packets] in Hr.
  - by injection Hr as <-.
  - apply outcome_bind_Done_inv in Hr as ([[box1 t1] w1] & H1 & Hr).
    apply outcome_bind_Done_inv in Hr as ([[box2 t2] w2] & H2 & Hr). injection Hr as <- <- <-.
    apply handle_packet_captured_spec in H1 as (_ & Hq & _). destruct (Hq Hf) as [-> Hf'].
    apply (IH t1 w1); [by rewrite Hf'|done].
Qed.
End Requests.

(** A filter thread asks for the detected byte order to be written back at
    most once, however many packets follow, and its counters add up: every
    processed packet is counted as matched or as filtered. *)
Theorem endian_request_once localtime `{Pcap W D R} reload_thread now ms t w box t' w' :
  handle_packets localtime reload_thread now t ms w = Done (box, t', w') ->
  packets_processed (stats_ t) = packets_matched (stats_ t) + packets_filtered (stats_ t) ->
  0 <= packets_matched (stats_ t) -> 0 <= packets_filtered (stats_ t) ->
  packets_processed (stats_ t) + Z.of_nat (length ms) < 2 ^ 64 ->
  (length box <= 1)%nat /\
  packets_processed (stats_ t') = packets_processed (stats_ t) + Z.of_nat (length ms) /\
  packets_processed (stats_ t') = packets_matched (stats_ t') + packets_filtered (stats_ t').
Proof.
  revert t w box. induction ms as [|m ms IH]; intros t w box Hr Hs Hm Hf Hb; cbn [handle_packets] in Hr.
  - injection Hr as <- <- <-. simpl. split; [lia|]. split; [lia|done].
  - apply outcome_bind_Done_inv in Hr as ([[box1 t1] w1] & H1 & Hr).
    apply outcome_bind_Done_inv in Hr as ([[box2 t2] w2] & H2 & Hr). injection Hr as <- <- <-.
    apply handle_packet_captured_spec in H1 as (Hl & _ & Hset & Hp & matched & Hma & Hfi).
    cbn [length] in Hb. rewrite u64_small in Hp, Hma, Hfi by lia.
    assert (Hs1 : packets_processed (stats_ t1) = packets_matched (stats_ t1) + packets_filtered (stats_ t1)
      /\ 0 <= packets_matched (stats_ t1) /\ 0 <= packets_filtered (stats_ t1)).
    { rewrite Hp, Hma, Hfi. destruct matched; lia. }
    destruct Hs1 as (Hs1 & Hm1 & Hf1).
    destruct (IH t1 w1 box2 H2 Hs1 Hm1 Hf1 ltac:(lia)) as (Hl2 & Hp2 & Hsum2).
    split; [|split; [simpl; lia|done]]. rewrite length_app.
    destruct box1 as [|x box1]; [simpl; lia|].
    apply (handle_packets_quiet localtime reload_thread now) in H2 as ->; [simpl in *; lia|by apply Hset].
Qed.

Definition demo_captured : SRxPacketMsg := mkPacketMsg 2 2 ([x00; x06] ++ repeat x00 6) 53 53 0 2 true.

Definition demo_thread : CRxFilterThread string := mkFilterThread (Some raw_def) None (mkStats 0 0 0).

Lemma endian_request_once_witness :
  exists t' w', @handle_packets demo_time _ _ _ (MemFs ∅) (Some 7) 0 demo_thread [demo_captured; demo_captured] raw_fs =
      Done ([(thread_target 7, MsgPdefEndian (mkEndianMsg "t.pdef" 1 0))], t', w') /\
    packets_processed (stats_ t') = packets_matched (stats_ t') + packets_filtered (stats_ t').
Proof.
  destruct (@handle_packets demo_time _ _ _ (MemFs ∅) (Some 7) 0 demo_thread [demo_captured; demo_captured] raw_fs)
    as [[[box t'] w']| | |] eqn:E; [|vm_compute in E; discriminate E..].
  exists t', w'. split.
  - f_equal. f_equal. f_equal. vm_compute in E. by injection E as <- _ _.
  - apply (@endian_request_once demo_time _ _ _ (MemFs ∅) (Some 7) 0 [demo_captured; demo_captured]
             demo_thread raw_fs box t' w' E); [reflexivity|simpl; lia..].
Defined.
