(* ===== verification/CaptureWorker.v ===== *)
(** * Capture workers (src/src/rxcapturethread.cpp, rxcapturesession.cpp)

    A worker thread runs one capture from its start message to the messages
    that report the result.  libpcap and the network are an environment: the
    capture device opens or not, and [pcap_dispatch] is a sequence of [event]s,
    each with the packets it hands to the callback. *)

From S2P Require Import Prelude CppString Pcap Storage TaskTypes Messages.

(** src/src/rxcapturemanager.h *)
Record CRxCaptureTaskCfg := mkTaskCfg {
  cfg_iface : string;
  cfg_bpf : string;
  cfg_outfile : string;
  cfg_duration_sec : Z;
  cfg_category : string;
  cfg_file_pattern : string;
  cfg_max_bytes : Z;
  cfg_proc_name : string;
  cfg_protocol_filter : string;
  cfg_protocol_filter_inline : string;
  cfg_port : Z;
}.

(** The members of [CRxCaptureTaskInfo] that the job reads. *)
Record CRxCaptureTaskInfo := mkTaskInfo {
  ti_base_dir : string;
  ti_stopping : bool;
}.

Definition build_task_cfg (spec : CaptureSpec) (config : CaptureConfigSnapshot) : CRxCaptureTaskCfg :=
  let duration := if 0 <? sp_max_duration_sec spec then sp_max_duration_sec spec else cs_max_duration_sec config in
  let pattern := if is_empty (sp_output_pattern spec) then cs_filename_template config else sp_output_pattern spec in
  let max_bytes := if 0 <? sp_max_bytes spec then sp_max_bytes spec else cs_max_bytes config in
  mkTaskCfg
    (if is_empty (sp_resolved_iface spec) then sp_iface spec else sp_resolved_iface spec)
    (sp_filter spec) ""
    (if duration <? 0 then 0 else duration)
    (sp_category spec)
    (if is_empty pattern then default_pattern else pattern)
    (if max_bytes <? 0 then 0 else max_bytes)
    (sp_proc_name spec) (sp_protocol_filter spec) (sp_protocol_filter_inline spec) (sp_port_filter spec).

(** ** The capture job *)

Record CRxCaptureJob (D : Type) := mkJob {
  job_cfg : CRxCaptureTaskCfg;
  job_dumper_context : CRxDumpCtx D;
  job_done : bool;
  job_packets : Z;
  job_end_time_sec : Z;
}.
Arguments mkJob {D}.
Arguments job_cfg {D}. Arguments job_dumper_context {D}. Arguments job_done {D}.
Arguments job_packets {D}. Arguments job_end_time_sec {D}.

(** One call of [pcap_dispatch] and the clock after it. *)
Record event := mkEvent {
  ev_packets : list Packet;
  ev_ret : Z;
  ev_now : Z;
}.

(** The return value counts the packets processed; a negative one is an error
    or a break. *)
Definition event_ok (e : event) : Prop :=
  ev_ret e = Z.of_nat (length (ev_packets e)) \/ (ev_ret e < 0 /\ ev_packets e = []).

Section Worker.
Context (localtime : Z -> tm) `{Pcap W D R}.
(** Does [pcap_open_live] succeed, [st_size] of a file, [get_thread_index()]
    and [getpid()]. *)
Context (open_live : string -> bool) (stat_size : string -> W -> option Z) (thread_index pid : Z).

Definition set_ctx_open (dc : CRxDumpCtx D) (d : option D) (path : string) : CRxDumpCtx D :=
  mkDumpCtx d (dc_max_bytes dc) (dc_written dc) (dc_seq dc) (dc_start_time dc) (dc_base_dir dc)
    (dc_pattern dc) (dc_category dc) (dc_iface dc) (dc_proc dc) (dc_port dc) path
    (dc_protocol_filter_path dc).

(** [dumper_context_] as [prepare] fills it in. *)
Definition initial_ctx (now : Z) (cfg : CRxCaptureTaskCfg) (info : CRxCaptureTaskInfo) : CRxDumpCtx D :=
  mkDumpCtx None (cfg_max_bytes cfg) 0 0 now (ti_base_dir info) (cfg_file_pattern cfg) (cfg_category cfg)
    (cfg_iface cfg) (cfg_proc_name cfg) (cfg_port cfg) "" (cfg_protocol_filter cfg).

(** [None] is the result [false].  Whether the BPF expression compiles makes
    no difference to the job; a capture without a valid one is unfiltered.  The
    clock is read twice: [now] when the context is filled in, [armed] when the
    deadline is set, after the file was opened. *)
Definition prepare (now armed : Z) (cfg : CRxCaptureTaskCfg) (info : CRxCaptureTaskInfo) (w : W)
    : outcome (option (CRxCaptureJob D) * W) :=
  if negb (open_live (cfg_iface cfg)) then Done (None, w) else
  let dc := initial_ctx now cfg info in
  '(dc, w) ←
    (if negb (is_empty (cfg_file_pattern cfg)) || negb (is_empty (ti_base_dir info))
     then rotate_open localtime now dc w
     else if negb (is_empty (cfg_outfile cfg))
     then let '(d, w) := pcap_dump_open (cfg_outfile cfg) w in Done (set_ctx_open dc d (cfg_outfile cfg), w)
     else Done (dc, w));
  match dc_d dc with
  | None => Done (None, w)
  | Some _ =>
      Done (Some (mkJob cfg dc false 0
                    (if 0 <? cfg_duration_sec cfg then u64 (armed + cfg_duration_sec cfg) else 0)), w)
  end.

Definition run_once (info : CRxCaptureTaskInfo) (job : CRxCaptureJob D) (e : event) (w : W)
    : outcome (Z * CRxCaptureJob D * W) :=
  if job_done job then Done (-2, job, w) else
  '(dc, w) ← dump_all localtime (ev_now e) (job_dumper_context job) (ev_packets e) w;
  let packets := if 0 <? ev_ret e then u64 (job_packets job + ev_ret e) else job_packets job in
  let done := ti_stopping info || ((0 <? job_end_time_sec job) && (job_end_time_sec job <=? ev_now e)) in
  Done (ev_ret e, mkJob (job_cfg job) dc done packets (job_end_time_sec job), w).

(** [while (!job.is_done()) job.run_once();]: [NoFuel] when the job is still
    running after the given events. *)
Fixpoint run_job (info : CRxCaptureTaskInfo) (job : CRxCaptureJob D) (es : list event) (w : W)
    : outcome (CRxCaptureJob D * W) :=
  if job_done job then Done (job, w) else
  match es with
  | [] => NoFuel
  | e :: rest => '(_, job, w) ← run_once info job e w; run_job info job rest w
  end.

Definition cleanup (job : CRxCaptureJob D) (w : W) : CRxCaptureJob D * W :=
  let dc := job_dumper_context job in
  let w := match dc_d dc with Some d => pcap_dump_close d (pcap_dump_flush d w) | None => w end in
  (mkJob (job_cfg job) (set_ctx_open dc None (dc_current_path dc)) true (job_packets job)
     (job_end_time_sec job), w).

Definition get_bytes_written (job : CRxCaptureJob D) : Z :=
  let n := dc_written (job_dumper_context job) in if n <? 0 then 0 else n.

(** ** Reports to the manager *)

(** The fields every report copies from the start message; [ts] is the clock. *)
Definition report_base (m : SRxCaptureStartMsgV2) (ts : Z) : CaptureMessageBase :=
  let b := sv_base m in
  mkBase (mb_capture_id b) (mb_key b) (mb_sid b) (mb_op_version b) ts (mb_config_hash b) thread_index.

Definition send (manager : Z) (msg : message) : outbox :=
  if manager <=? 0 then [] else [(thread_target manager, msg)].

Definition send_started (manager : Z) (m : SRxCaptureStartMsgV2) (ts start_ts capture_pid : Z) (output_file : string) : outbox :=
  send manager (MsgCaptureStarted (mkStartedV2 (report_base m ts) start_ts capture_pid output_file)).

Definition send_file_ready (manager : Z) (m : SRxCaptureStartMsgV2) (ts : Z) (files : list CaptureFileInfo) : outbox :=
  match files with
  | [] => []
  | _ => send manager (MsgCaptureFileReady (mkFileReadyV2 (report_base m ts) files))
  end.

Definition send_finished (manager : Z) (m : SRxCaptureStartMsgV2) (ts : Z) (stats : CaptureResultStats) : outbox :=
  send manager (MsgCaptureFinished (mkFinishedV2 (report_base m ts) stats)).

Definition send_failure (manager : Z) (m : SRxCaptureStartMsgV2) (ts : Z) (code : ECaptureErrorCode) (error_message : string) : outbox :=
  send manager (MsgCaptureFailed (mkFailedV2 (report_base m ts) code error_message)).

Definition send_raw_file_for_filter (manager : Z) (m : SRxCaptureStartMsgV2) (ts : Z)
    (raw_pcap_path pdef_file_path pdef_inline_content : string) : outbox :=
  send manager (MsgCaptureRawFile
    (mkRawFileV2 (report_base m ts) raw_pcap_path pdef_file_path pdef_inline_content
       (negb (is_empty pdef_file_path) || negb (is_empty pdef_inline_content)) 0)).

(** The record of the captured file. *)
Definition final_file (path : string) (finish_ts total_bytes : Z) (w : W) : list CaptureFileInfo :=
  if is_empty path then []
  else [new_file_info <| cf_file_path := path |>
          <| cf_file_size := default total_bytes (stat_size path w) |>
          <| cf_file_ready_ts := finish_ts |>].

(** [start_sec] and [armed_sec] are the clocks of [prepare]; [start_ts] and [finish_ts] are
    [rx_capture_now_usec()] before and after the capture. *)
Definition execute_capture (start_sec armed_sec start_ts finish_ts : Z) (m : SRxCaptureStartMsgV2)
    (es : list event) (w : W) : outcome (outbox * W) :=
  let spec := sv_spec m in
  let config := sv_config m in
  let manager := mb_sender_thread_index (sv_base m) in
  let cfg := build_task_cfg spec config in
  let info := mkTaskInfo (if is_empty (cs_output_dir config) then "capture_output" else cs_output_dir config) false in
  '(job, w) ← prepare start_sec armed_sec cfg info w;
  match job with
  | None => Done (send_failure manager m start_ts ERR_START_TCPDUMP_FAILED "pcap_prepare_failed", w)
  | Some job =>
      let started := send_started manager m start_ts start_ts pid (dc_current_path (job_dumper_context job)) in
      '(job, w) ← run_job info job es w;
      let '(job, w) := cleanup job w in
      let result := mkResultStats (job_packets job) (get_bytes_written job) start_ts finish_ts 0 "" in
      let final_path := dc_current_path (job_dumper_context job) in
      let files := final_file final_path finish_ts (get_bytes_written job) w in
      if negb (is_empty (sp_protocol_filter spec)) || negb (is_empty (sp_protocol_filter_inline spec))
      then Done (started ++ send_raw_file_for_filter manager m finish_ts final_path
                              (sp_protocol_filter spec) (sp_protocol_filter_inline spec), w)
      else Done (started ++ send_file_ready manager m finish_ts files ++ send_finished manager m finish_ts result, w)
  end.

(** [handle_msg] of the thread; other messages are only logged. *)
Definition handle_msg (start_sec armed_sec start_ts finish_ts : Z) (msg : message) (es : list event) (w : W)
    : outcome (outbox * W) :=
  match msg with
  | MsgCaptureStart m => execute_capture start_sec armed_sec start_ts finish_ts m es w
  | _ => Done ([], w)
  end.
End Worker.

(** ** The job runs until its deadline *)

Section WorkerFacts.
Context (localtime : Z -> tm) `{Pcap W D R}.
Context (open_live : string -> bool) (stat_size : string -> W -> option Z) (thread_index pid : Z).
Hypothesis opens : forall p w, fst (pcap_dump_open p w) <> None.

(** The open file of [dc] holds [l]. *)
Record recording (dc : CRxDumpCtx D) (w : W) (l : list Packet) : Prop := {
  rec_open : exists d, dc_d dc = Some d /\ dumper_path d = dc_current_path dc;
  rec_file : contents w !! dc_current_path dc = Some l;
  rec_written : dc_written dc = total_bytes l;
}.

(** No rotation while [l] is being written. *)
Definition in_one_file (max_bytes : Z) (l : list Packet) : Prop := max_bytes <= 0 \/ total_bytes l <= max_bytes.

Lemma in_one_file_app m l1 l2 : Forall packet_ok l2 -> in_one_file m (l1 ++ l2) -> in_one_file m l1.
Proof.
  unfold in_one_file. rewrite total_bytes_app. intros H2%total_bytes_pos. lia.
Qed.

Lemma dump_all_recording now dc w l pks :
  recording dc w l -> Forall packet_ok pks -> in_one_file (dc_max_bytes dc) (l ++ pks) ->
  total_bytes (l ++ pks) <= LONG_MAX ->
  exists dc' w', dump_all localtime now dc pks w = Done (dc', w') /\ recording dc' w' (l ++ pks) /\
    dc_max_bytes dc' = dc_max_bytes dc /\ dc_current_path dc' = dc_current_path dc /\
    (forall q, q <> dc_current_path dc -> contents w' !! q = contents w !! q).
Proof.
  revert dc w l. induction pks as [|pk pks IH]; intros dc w l Hr Hok Hone Hlong.
  - exists dc, w. by rewrite app_nil_r.
  - apply Forall_cons in Hok as [Hpk Hok]. cbn [dump_all].
    replace (l ++ pk :: pks) with ((l ++ [pk]) ++ pks) in * by by rewrite <- app_assoc.
    destruct (rec_open _ _ _ Hr) as (d & Hd & Hp).
    assert (Hlong1 : dc_written dc + packet_bytes pk <= LONG_MAX).
    { rewrite !total_bytes_app in Hlong. apply total_bytes_pos in Hok. rewrite (rec_written _ _ _ Hr). simpl in Hlong. lia. }
    assert (Hn : overflows dc pk = false).
    { apply in_one_file_app in Hone; [|done]. unfold in_one_file in Hone. rewrite total_bytes_app in Hone.
      unfold overflows. rewrite (rec_written _ _ _ Hr). simpl in Hone.
      apply andb_false_iff. zbool. lia. }
    unfold dump_cb. rewrite Hd, needs_rotation_fits, outcome_bind_done, Hn, add_written_fits, !outcome_bind_done by done.
    destruct (IH (set_written (dc_written dc + packet_bytes pk) dc) (pcap_dump d pk w) (l ++ [pk]))
      as (dc' & w' & -> & Hr' & Hm & Hc & Ho); [|done..|].
    + split; cbn.
      * by exists d.
      * rewrite <- Hp. apply dump_contents_eq. rewrite Hp. apply Hr.
      * rewrite total_bytes_app, (rec_written _ _ _ Hr). simpl. lia.
    + exists dc', w'. split; [done|]. split; [done|]. split; [done|]. split; [done|].
      intros q Hq. rewrite Ho by done. apply dump_contents_ne. by rewrite Hp.
Qed.

(** The events the job sees: up to the first one at or after [t]. *)
Fixpoint upto (t : Z) (es : list event) : list event :=
  match es with
  | [] => []
  | e :: rest => if t <=? ev_now e then [e] else e :: upto t rest
  end.

Definition delivered (es : list event) : list Packet := concat (map ev_packets es).

Lemma run_job_recording info job es w l :
  ti_stopping info = false -> job_done job = false -> 0 < job_end_time_sec job ->
  recording (job_dumper_context job) w l ->
  Forall event_ok es -> Forall (fun e => Forall packet_ok (ev_packets e)) es ->
  in_one_file (dc_max_bytes (job_dumper_context job)) (l ++ delivered (upto (job_end_time_sec job) es)) ->
  Exists (fun e => job_end_time_sec job <= ev_now e) es ->
  total_bytes (l ++ delivered (upto (job_end_time_sec job) es)) <= LONG_MAX ->
  0 <= job_packets job ->
  job_packets job + Z.of_nat (length (delivered (upto (job_end_time_sec job) es))) < 2 ^ 64 ->
  exists job' w', run_job localtime info job es w = Done (job', w') /\
    recording (job_dumper_context job') w' (l ++ delivered (upto (job_end_time_sec job) es)) /\
    dc_current_path (job_dumper_context job') = dc_current_path (job_dumper_context job) /\
    job_packets job' = job_packets job + Z.of_nat (length (delivered (upto (job_end_time_sec job) es))) /\
    (forall q, q <> dc_current_path (job_dumper_context job) -> contents w' !! q = contents w !! q).
Proof.
  intros Hst. revert job w l. induction es as [|e es IH]; intros job w l Hdone Hend Hr Hev Hpk Hone Hex Hlong Hnn Hb.
  - by apply Exists_nil in Hex.
  - apply Forall_cons in Hev as [He Hev], Hpk as [Hp Hpk]. cbn [run_job]. rewrite Hdone.
    unfold run_once. rewrite Hdone.
    assert (Hsplit : delivered (upto (job_end_time_sec job) (e :: es)) =
      ev_packets e ++ (if job_end_time_sec job <=? ev_now e then [] else delivered (upto (job_end_time_sec job) es))).
    { cbn [upto]. unfold delivered. destruct (_ <=? _); simpl; [by rewrite app_nil_r|done]. }
    rewrite Hsplit in *. rewrite length_app in Hb |- *.
    assert (Hrest : Forall packet_ok (if job_end_time_sec job <=? ev_now e then [] else delivered (upto (job_end_time_sec job) es))).
    { destruct (_ <=? _); [done|]. clear -Hpk. unfold delivered. induction es as [|e0 es IH]; [done|].
      apply Forall_cons in Hpk as [H1 H2]. cbn [upto]. destruct (_ <=? _); simpl; apply Forall_app; auto. }
    assert (Hone1 : in_one_file (dc_max_bytes (job_dumper_context job)) (l ++ ev_packets e)).
    { rewrite app_assoc in Hone. by eapply in_one_file_app. }
    assert (Hlong1 : total_bytes (l ++ ev_packets e) <= LONG_MAX).
    { apply total_bytes_pos in Hrest. rewrite app_assoc, total_bytes_app in Hlong. lia. }
    destruct (dump_all_recording (ev_now e) _ w l (ev_packets e) Hr Hp Hone1 Hlong1) as (dc' & w1 & -> & Hr1 & Hm & Hc & Ho).
    rewrite !outcome_bind_done. rewrite Hst. cbn [orb].
    assert (Hcnt : (if 0 <? ev_ret e then u64 (job_packets job + ev_ret e) else job_packets job)
                   = job_packets job + Z.of_nat (length (ev_packets e))).
    { destruct He as [He|[He1 He2]].
      - rewrite He. destruct (Z.ltb_spec 0 (Z.of_nat (length (ev_packets e)))); [apply u64_small; lia|lia].
      - rewrite He2. destruct (Z.ltb_spec 0 (ev_ret e)); simpl; lia. }
    rewrite Hcnt. destruct (Z.ltb_spec 0 (job_end_time_sec job)); [|lia]. cbn [andb].
    destruct (Z.leb_spec (job_end_time_sec job) (ev_now e)) as [Hle|Hlt].
    + rewrite app_nil_r. exists (mkJob (job_cfg job) dc' true (job_packets job + Z.of_nat (length (ev_packets e))) (job_end_time_sec job)), w1.
      split; [by destruct es|]. cbn. split; [done|]. split; [done|]. split; [simpl; lia|done].
    + destruct (IH (mkJob (job_cfg job) dc' false (job_packets job + Z.of_nat (length (ev_packets e))) (job_end_time_sec job)) w1 (l ++ ev_packets e))
        as (job' & w' & -> & Hr' & Hc' & Hp' & Ho'); cbn in *; try done.
      * rewrite Hm, <- app_assoc. exact Hone.
      * by apply Exists_cons in Hex as [Hex|Hex]; [lia|].
      * by rewrite <- app_assoc.
      * lia.
      * lia.
      * exists job', w'. split; [done|]. split; [by rewrite app_assoc|]. split; [by rewrite Hc'|].
        split; [lia|]. intros q Hq. rewrite Ho', Ho; [done|done|by rewrite Hc].
Qed.

(** Without a deadline no event ends the job. *)
Lemma run_job_endless info job es w r :
  ti_stopping info = false -> job_done job = false -> job_end_time_sec job = 0 ->
  run_job localtime info job es w <> Done r.
Proof.
  intros Hst. revert job w. induction es as [|e es IH]; intros job w Hd He; cbn [run_job]; rewrite Hd; [done|].
  intros Hr. apply outcome_bind_Done_inv in Hr as ([[ret job'] w'] & H1 & Hr).
  unfold run_once in H1. rewrite Hd in H1. apply outcome_bind_Done_inv in H1 as ([dc w1] & _ & H1).
  rewrite Hst, He in H1. cbn in H1. injection H1 as <- <- <-. eapply IH; [| |exact Hr]; done.
Qed.

(** [prepare] when the device and the file open. *)
Lemma prepare_opens now armed cfg info w :
  open_live (cfg_iface cfg) = true -> cfg_file_pattern cfg <> "" ->
  exists job w', prepare localtime open_live now armed cfg info w = Done (Some job, w') /\
    job_done job = false /\ job_packets job = 0 /\
    job_end_time_sec job = (if 0 <? cfg_duration_sec cfg then u64 (armed + cfg_duration_sec cfg) else 0) /\
    dc_max_bytes (job_dumper_context job) = cfg_max_bytes cfg /\
    dc_current_path (job_dumper_context job) = path_of localtime now (initial_ctx (D := D) now cfg info) 1 /\
    recording (job_dumper_context job) w' [] /\
    (forall q, q <> dc_current_path (job_dumper_context job) -> contents w' !! q = contents w !! q).
Proof.
  intros Ho Hp. unfold prepare. rewrite Ho. cbn [negb].
  destruct (is_empty_spec (cfg_file_pattern cfg)); [done|]. cbn [negb orb].
  destruct (rotate_open_spec localtime now (initial_ctx now cfg info) (initial_ctx now cfg info) w (same_config_refl _) eq_refl)
    as (dc & w1 & Hr & Hc & Hseq & Hwr & Hpath & Hcont).
  rewrite Hr, outcome_bind_done. destruct (dc_d dc) as [d|] eqn:Ed.
  - destruct Hcont as [Hdp Hcont]. eexists _, w1. split; [done|]. cbn [job_done job_packets job_end_time_sec job_dumper_context].
    split; [done|]. split; [done|]. split; [done|]. split; [by destruct Hc as [<- _]|]. split; [exact Hpath|].
    split; [split|].
    + by exists d.
    + by rewrite Hcont, lookup_insert_eq.
    + by rewrite Hwr.
    + intros q Hq. by rewrite Hcont, lookup_insert_ne.
  - exfalso. unfold rotate_open in Hr. apply outcome_bind_Done_inv in Hr as (seq & _ & Hr).
    apply outcome_bind_Done_inv in Hr as (path & _ & Hr).
    match type of Hr with context [pcap_dump_open path ?w0] =>
      pose proof (opens path w0) as Hop; destruct (pcap_dump_open path w0) as [d' w'] end.
    injection Hr as <- _. cbn in Ed. by subst.
Qed.
End WorkerFacts.

(** ** A whole capture *)

(** Does the manager filter the capture afterwards? *)
Definition filters_protocol (spec : CaptureSpec) : bool :=
  negb (is_empty (sp_protocol_filter spec)) || negb (is_empty (sp_protocol_filter_inline spec)).

Section Run.
Context (localtime : Z -> tm) `{Pcap W D R}.
Context (open_live : string -> bool) (stat_size : string -> W -> option Z) (thread_index pid : Z).
Context (start_sec armed_sec start_ts finish_ts : Z) (m : SRxCaptureStartMsgV2) (es : list event).

Definition run_cfg : CRxCaptureTaskCfg := build_task_cfg (sv_spec m) (sv_config m).

Definition run_info : CRxCaptureTaskInfo :=
  mkTaskInfo (if is_empty (cs_output_dir (sv_config m)) then "capture_output" else cs_output_dir (sv_config m)) false.

(** The output file, the end of the capture and the packets it stores. *)
Definition run_path : string := path_of localtime start_sec (initial_ctx (D := D) start_sec run_cfg run_info) 1.
Definition run_deadline : Z := armed_sec + cfg_duration_sec run_cfg.
Definition run_packets : list Packet := delivered (upto run_deadline es).

(** The device opens, the duration is positive, the clock reaches the
    deadline, the packets are well formed and fit one file, and their bytes
    fit the [long] that counts them. *)
Record good_run : Prop := {
  gr_device : open_live (cfg_iface run_cfg) = true;
  gr_manager : 0 < mb_sender_thread_index (sv_base m);
  gr_path : run_path <> "";
  gr_duration : 0 < cfg_duration_sec run_cfg;
  gr_clock : 0 <= armed_sec /\ run_deadline < 2 ^ 64;
  gr_events : Forall event_ok es;
  gr_packets : Forall (fun e => Forall packet_ok (ev_packets e)) es;
  gr_ends : Exists (fun e => run_deadline <= ev_now e) es;
  gr_fits : in_one_file (cfg_max_bytes run_cfg) run_packets;
  gr_bytes : total_bytes run_packets <= LONG_MAX;
}.

(** The start report, then the file and the final counts, or the raw file to
    be filtered; [w] is the state of the files at the end. *)
Definition capture_reports (w : W) : outbox :=
  let manager := mb_sender_thread_index (sv_base m) in
  (thread_target manager, MsgCaptureStarted (mkStartedV2 (report_base thread_index m start_ts) start_ts pid run_path)) ::
  (if filters_protocol (sv_spec m)
   then [(thread_target manager, MsgCaptureRawFile
            (mkRawFileV2 (report_base thread_index m finish_ts) run_path (sp_protocol_filter (sv_spec m))
               (sp_protocol_filter_inline (sv_spec m)) true 0))]
   else [(thread_target manager, MsgCaptureFileReady
            (mkFileReadyV2 (report_base thread_index m finish_ts)
               (final_file stat_size run_path finish_ts (total_bytes run_packets) w)));
         (thread_target manager, MsgCaptureFinished
            (mkFinishedV2 (report_base thread_index m finish_ts)
               (mkResultStats (Z.of_nat (length run_packets)) (total_bytes run_packets) start_ts finish_ts 0 "")))]).

Hypothesis opens : forall p w, fst (pcap_dump_open p w) <> None.

Lemma run_packets_ok : good_run -> Forall packet_ok run_packets.
Proof.
  intros Hg. pose proof (gr_packets Hg) as Hpk. clear -Hpk. unfold run_packets, delivered.
  induction es as [|e0 es' IH]; [done|]. apply Forall_cons in Hpk as [H1 H2]. cbn [upto].
  destruct (_ <=? _); simpl; apply Forall_app; auto.
Qed.

(** Every packet counts for its header at least. *)
Lemma gr_count : good_run -> Z.of_nat (length run_packets) < 2 ^ 64.
Proof.
  intros Hg. pose proof (gr_bytes Hg) as Hb. pose proof (run_packets_ok Hg) as Hok. unfold LONG_MAX in Hb.
  enough (24 * Z.of_nat (length run_packets) <= total_bytes run_packets) by lia. clear -Hok.
  induction Hok as [|pk l [Hc _] _ IH]; [done|]. simpl length. simpl total_bytes.
  unfold packet_bytes, sizeof_pcap_pkthdr. lia.
Qed.

Lemma execute_capture_run w :
  good_run ->
  exists w', contents w' !! run_path = Some run_packets /\
    (forall q, q <> run_path -> contents w' !! q = contents w !! q) /\
    execute_capture localtime open_live stat_size thread_index pid start_sec armed_sec start_ts finish_ts m es w =
      Done (capture_reports w', w').
Proof.
  intros Hg. pose proof Hg as [Hlive Hman Hpath Hdur [Hstart Hdl] Hev Hpk Hex Hone Hbytes].
  pose proof (gr_count Hg) as Hcount.
  assert (Hpat : cfg_file_pattern run_cfg <> "").
  { unfold run_cfg, build_task_cfg. cbn [cfg_file_pattern].
    set (p := if is_empty (sp_output_pattern (sv_spec m)) then _ else _). by destruct (is_empty_spec p). }
  destruct (prepare_opens localtime open_live opens start_sec armed_sec run_cfg run_info w Hlive Hpat)
    as (job & w1 & Hprep & Hd & Hz & Hend & Hmax & Hcur & Hrec & Ho1).
  destruct (Z.ltb_spec 0 (cfg_duration_sec run_cfg)); [|lia].
  unfold run_deadline in Hdl. rewrite u64_small in Hend by lia. fold run_deadline in Hend, Hdl.
  destruct (run_job_recording localtime run_info job es w1 [] eq_refl Hd) as (job' & w2 & Hrun & Hrec' & Hcur' & Hcnt & Ho2);
    rewrite ?Hend, ?Hz, ?Hmax; try done; [unfold run_deadline; lia|].
  rewrite Hend in Hrec', Hcnt. fold run_packets in Hrec', Hcnt. cbn [app] in Hrec'. rewrite Hz, Z.add_0_l in Hcnt.
  assert (Hcp : dc_current_path (job_dumper_context job') = run_path) by by rewrite Hcur'.
  destruct (rec_open _ _ _ Hrec') as (d & Hdd & Hdp).
  exists (pcap_dump_close d (pcap_dump_flush d w2)). rewrite dump_close_contents, dump_flush_contents.
  split; [rewrite <- Hcp; apply Hrec'|]. split.
  { intros q Hq. rewrite Ho2, Ho1; [done|by rewrite Hcur|by rewrite Hcur]. }
  unfold execute_capture. fold run_cfg run_info. rewrite Hprep, outcome_bind_done, Hrun, outcome_bind_done.
  unfold cleanup. rewrite Hdd. cbn [job_packets job_dumper_context set_ctx_open dc_current_path].
  unfold get_bytes_written. cbn [job_dumper_context set_ctx_open dc_written].
  rewrite Hcp, Hcnt, (rec_written _ _ _ Hrec'), Hcur. fold run_path.
  pose proof (total_bytes_pos _ (run_packets_ok Hg)) as Hpos. apply Z.ltb_ge in Hpos. rewrite Hpos.
  unfold send_started, send_raw_file_for_filter, send_file_ready, send_finished, send, capture_reports, filters_protocol.
  destruct (Z.leb_spec (mb_sender_thread_index (sv_base m)) 0); [lia|].
  destruct (negb (is_empty (sp_protocol_filter _)) || negb _); [done|].
  unfold final_file. destruct (is_empty_spec run_path); [done|]. done.
Qed.
End Run.

(** ** Properties *)

(** C7: what a capture reports.  With a device and an output file that open, a
    positive duration, packets that fit one file and a clock that reaches the
    deadline, the worker ends; the output file holds exactly the packets
    delivered up to the deadline, no other file changed, and the manager gets
    a start report followed by the file and the final counts, or, when a
    protocol filter is set, by the raw file to be filtered. *)
Theorem execute_capture_reports localtime `{Pcap W D R} open_live stat_size ti pid start_sec armed_sec start_ts finish_ts m es w :
  (forall p w, fst (pcap_dump_open p w) <> None) ->
  good_run localtime (D := D) open_live start_sec armed_sec m es ->
  exists w', contents w' !! run_path localtime (D := D) start_sec m = Some (run_packets armed_sec m es) /\
    (forall q, q <> run_path localtime (D := D) start_sec m -> contents w' !! q = contents w !! q) /\
    execute_capture localtime open_live stat_size ti pid start_sec armed_sec start_ts finish_ts m es w =
      Done (capture_reports localtime (D := D) stat_size ti pid start_sec armed_sec start_ts finish_ts m es w', w').
Proof. intros Hopens Hg. by apply execute_capture_run. Qed.

(** A capture without a positive duration never ends: nothing else stops
    the loop, so no report follows the start report. *)
Theorem execute_capture_needs_duration localtime `{Pcap W D R} open_live stat_size ti pid start_sec armed_sec start_ts finish_ts m es w :
  (forall p w, fst (pcap_dump_open p w) <> None) ->
  open_live (cfg_iface (build_task_cfg (sv_spec m) (sv_config m))) = true ->
  sp_max_duration_sec (sv_spec m) <= 0 -> cs_max_duration_sec (sv_config m) <= 0 ->
  forall r, execute_capture localtime open_live stat_size ti pid start_sec armed_sec start_ts finish_ts m es w <> Done r.
Proof.
  intros Hopens Hlive Hd1 Hd2 r Hr. set (cfg := build_task_cfg (sv_spec m) (sv_config m)) in *.
  assert (Hdur : cfg_duration_sec cfg = 0).
  { unfold cfg, build_task_cfg. cbn [cfg_duration_sec].
    destruct (Z.ltb_spec 0 (sp_max_duration_sec (sv_spec m))); [lia|].
    destruct (Z.ltb_spec (cs_max_duration_sec (sv_config m)) 0); lia. }
  assert (Hpat : cfg_file_pattern cfg <> "").
  { unfold cfg, build_task_cfg. cbn [cfg_file_pattern].
    set (p := if is_empty (sp_output_pattern (sv_spec m)) then _ else _). by destruct (is_empty_spec p). }
  unfold execute_capture in Hr. fold cfg in Hr.
  set (info := mkTaskInfo _ false) in Hr.
  destruct (prepare_opens localtime open_live Hopens start_sec armed_sec cfg info w Hlive Hpat)
    as (job & w1 & Hprep & Hd & _ & Hend & _).
  rewrite Hprep, outcome_bind_done in Hr. rewrite Hdur in Hend. cbn in Hend.
  apply outcome_bind_Done_inv in Hr as ([job' w2] & Hrun & _).
  by apply (run_job_endless localtime info job es w1 (job', w2)) in Hrun.
Qed.

(** ** A capture of two packets *)

Definition worker_spec (pattern : string) (duration max_bytes : Z) : CaptureSpec :=
  mkSpec MODE_INTERFACE "eth0" "" (-1) "" "" "" "" "" "" "" 0 pattern "eth0" duration max_bytes 0 65535.

Definition worker_msg (pattern : string) (duration max_bytes : Z) : SRxCaptureStartMsgV2 :=
  mkStartV2 (mkBase 1000 "iface:eth0:" "sid" 1 0 0 2) new_snapshot (worker_spec pattern duration max_bytes) 3.

Definition worker_events : list event :=
  [mkEvent [demo_packet 60] 1 105; mkEvent [] (-1) 108; mkEvent [demo_packet 60] 1 111; mkEvent [demo_packet 9] 1 112].

Lemma execute_capture_reports_witness :
  exists w', @execute_capture demo_time _ _ _ (MemFs ∅) (fun _ => true) (fun _ _ => Some 192) 3 77 100 101 100000000 111000000
      (worker_msg "{iface}.pcap" 10 0) worker_events (mkFs ∅ []) =
    Done ([(thread_target 2, MsgCaptureStarted
              (mkStartedV2 (mkBase 1000 "iface:eth0:" "sid" 1 100000000 0 3) 100000000 77 "capture_output/eth0.pcap"));
           (thread_target 2, MsgCaptureFileReady
              (mkFileReadyV2 (mkBase 1000 "iface:eth0:" "sid" 1 111000000 0 3)
                 [mkFileInfo "capture_output/eth0.pcap" 192 0 1 "" 111000000 false "" 0 ""]));
           (thread_target 2, MsgCaptureFinished
              (mkFinishedV2 (mkBase 1000 "iface:eth0:" "sid" 1 111000000 0 3)
                 (mkResultStats 2 168 100000000 111000000 0 "")))], w') /\
    fs_files w' !! "capture_output/eth0.pcap"%string = Some [demo_packet 60; demo_packet 60].
Proof.
  destruct (@execute_capture_reports demo_time _ _ _ (MemFs ∅) (fun _ => true) (fun _ _ => Some 192) 3 77
    100 101 100000000 111000000 (worker_msg "{iface}.pcap" 10 0) worker_events (mkFs ∅ [])) as (w' & Hf & _ & He).
  - apply MemFs_opens.
  - split.
    + reflexivity.
    + reflexivity.
    + vm_compute. discriminate.
    + reflexivity.
    + split; [lia|reflexivity].
    + repeat constructor; simpl; lia.
    + repeat constructor.
    + apply Exists_cons_tl, Exists_cons_tl, Exists_cons_hd. vm_compute. discriminate.
    + left. vm_compute. discriminate.
    + vm_compute. discriminate.
  - exists w'. split; [exact He|exact Hf].
Defined.

Lemma execute_capture_needs_duration_witness :
  forall r, @execute_capture demo_time _ _ _ (MemFs ∅) (fun _ => true) (fun _ _ => None) 3 77 100 101 100000000 111000000
      (worker_msg "" 0 0) worker_events (mkFs ∅ []) <> Done r.
Proof.
  apply (@execute_capture_needs_duration demo_time _ _ _ (MemFs ∅));
    [apply MemFs_opens|reflexivity|simpl; lia|simpl; lia].
Defined.

(** With rotation only the last segment is reported: its path, and its bytes
    with the packets of all segments. *)
Example only_last_segment_reported :
  match @execute_capture demo_time _ _ _ (MemFs ∅) (fun _ => true) (fun _ _ => None) 3 77 100 101 100000000 111000000
      (worker_msg "{iface}-{seq}.pcap" 10 100) worker_events (mkFs ∅ []) with
  | Done ([_; (_, MsgCaptureFileReady f); (_, MsgCaptureFinished r)], w') =>
      (map cf_file_path (fr_files f), cr_total_packets (fi_result r), cr_total_bytes (fi_result r),
       elements (dom (fs_files w')))
  | _ => ([], 0, 0, [])
  end =
  (["capture_output/eth0-0002.pcap"]%string, 2, 84,
   ["capture_output/eth0-0001.pcap"; "capture_output/eth0-0002.pcap"]%string).
Proof. vm_compute. reflexivity. Qed.
