(* ===== verification/CaptureUtil.v ===== *)
(** * Text helpers of the capture manager (src/src/rxcapturemanagerthread.cpp, lines 22-362)

    JSON escaping, the capture hint of a sampling module, numbers, the port of
    a capture filter and the signature that identifies a capture.  Character
    classes are those of the C locale. *)

From stdpp Require Import sorting.
From S2P Require Import Prelude CppString Lexer TaskTypes Messages.

Definition capture_status_to_string (status : ECaptureTaskStatus) : string :=
  match status with
  | STATUS_PENDING => "pending"
  | STATUS_RESOLVING => "resolving"
  | STATUS_RUNNING => "running"
  | STATUS_COMPLETED => "completed"
  | STATUS_FAILED => "failed"
  | STATUS_STOPPED => "stopped"
  end.

Definition capture_mode_to_string (mode : ECaptureMode) : string :=
  match mode with
  | MODE_INTERFACE => "interface"
  | MODE_PROCESS => "process"
  | MODE_PID => "pid"
  | MODE_CONTAINER => "container"
  end.

(** ** JSON *)

Definition chr (n : nat) : ascii := ascii_of_nat n.

Definition QUOTE : ascii := chr 34.
Definition BACKSLASH : ascii := chr 92.

Definition hex_digit (n : nat) : ascii :=
  if (n <? 10)%nat then ascii_of_nat (48 + n) else ascii_of_nat (87 + n).

(** The [default] case of the [switch]; [\u%04x] of a value below 32. *)
Definition escape_char (c : ascii) : string :=
  let n := nat_of_ascii c in
  if Ascii.eqb c BACKSLASH then String BACKSLASH (String BACKSLASH "")
  else if Ascii.eqb c QUOTE then String BACKSLASH (String QUOTE "")
  else if (n =? 10)%nat then String BACKSLASH "n"
  else if (n =? 13)%nat then String BACKSLASH "r"
  else if (n =? 9)%nat then String BACKSLASH "t"
  else if (n <? 32)%nat then
    String BACKSLASH ("u00" +:+ String (hex_digit (n / 16)) (String (hex_digit (n mod 16)) ""))
  else String c "".

Fixpoint json_escape (input : string) : string :=
  match input with
  | EmptyString => EmptyString
  | String c rest => escape_char c +:+ json_escape rest
  end.

(** ** Trimming and case *)

Fixpoint skip_space (s : string) : string :=
  match s with
  | String c s' => if isspace c then skip_space s' else s
  | EmptyString => EmptyString
  end.

(** The part up to the last character that is not a space. *)
Fixpoint drop_end (p : ascii -> bool) (s : string) : string :=
  match s with
  | EmptyString => EmptyString
  | String c s' =>
      match drop_end p s' with
      | EmptyString => if p c then EmptyString else String c EmptyString
      | r => String c r
      end
  end.

Definition trim_copy (value : string) : string := drop_end isspace (skip_space value).

Definition tolower (c : ascii) : ascii :=
  if in_range "A" c "Z" then ascii_of_nat (nat_of_ascii c + 32) else c.

Fixpoint str_map (f : ascii -> ascii) (s : string) : string :=
  match s with EmptyString => EmptyString | String c s' => String (f c) (str_map f s') end.

Definition to_lower_copy (value : string) : string := str_map tolower value.

Definition strip_quotes_copy (value : string) : string :=
  match value with
  | String first (String _ _ as rest) =>
      if (Ascii.eqb first QUOTE && ends_with QUOTE value) || (Ascii.eqb first "'" && ends_with "'" value)
      then substr value 1 (String.length value - 2) else value
  | _ => value
  end.

(** [StringTrim] of core/legacy_core_common.cpp, which trims four characters. *)
Definition trim_char (c : ascii) : bool :=
  Ascii.eqb c " " || (nat_of_ascii c =? 9)%nat || (nat_of_ascii c =? 13)%nat || (nat_of_ascii c =? 10)%nat.

Fixpoint drop_start (p : ascii -> bool) (s : string) : string :=
  match s with
  | String c s' => if p c then drop_start p s' else s
  | EmptyString => EmptyString
  end.

Definition StringTrim (s : string) : string := drop_end trim_char (drop_start trim_char s).

(** Its second loop tests [sSrc[i]] before [i >= 0]; it gets to [i = -1] when
    every character is trimmed, the empty string included. *)
Definition StringTrim_reads_before_start (s : string) : bool := str_all trim_char s.

(** A call of it: the read in front of a blank string is undefined. *)
Definition trim (s : string) : outcome string :=
  if StringTrim_reads_before_start s then Undef else Done (StringTrim s).

Definition normalize_filter_for_signature (filter : string) : outcome string := trim filter.

(** ** Capture hints *)

Definition hint_separator (c : ascii) : ascii :=
  if Ascii.eqb c "," || Ascii.eqb c ";" then " "%char else c.

(** The tokens [ss >> token] yields; [cur] is the one being read. *)
Fixpoint tokens (cur s : string) : list string :=
  match s with
  | EmptyString => if is_empty cur then [] else [cur]
  | String c s' =>
      if isspace c then (if is_empty cur then tokens "" s' else cur :: tokens "" s')
      else tokens (push_back cur c) s'
  end.

(** [token.find_first_of(":=")]. *)
Fixpoint find_assign (s : string) : option nat :=
  match s with
  | EmptyString => None
  | String c s' => if Ascii.eqb c ":" || Ascii.eqb c "=" then Some 0%nat else option_map S (find_assign s')
  end.

Definition add_pair (result : gmap string string) (token : string) : gmap string string :=
  match find_assign token with
  | None => result
  | Some pos =>
      let key := to_lower_copy (trim_copy (str_take pos token)) in
      let value := strip_quotes_copy (trim_copy (str_drop (pos + 1) token)) in
      <[key := value]> result
  end.

Definition parse_capture_hint_pairs (hint : string) : gmap string string :=
  foldl add_pair ∅ (tokens "" (str_map hint_separator hint)).

(** ** Numbers *)

Fixpoint span_digits (s : string) : string * string :=
  match s with
  | String c s' =>
      if is_digit c then let '(d, r) := span_digits s' in (String c d, r) else (EmptyString, s)
  | EmptyString => (EmptyString, EmptyString)
  end.

Definition clamp_long (v : Z) : Z := Z.max LONG_MIN (Z.min v LONG_MAX).

(** [strtol(s, &endptr, 10)]: the value and the text from [endptr] on;
    [None] when there is nothing to convert ([endptr == s]). *)
Definition strtol (s : string) : option (Z * string) :=
  let s1 := skip_space s in
  let '(neg, s2) := match s1 with
                    | String c s' =>
                        if Ascii.eqb c "-" then (true, s')
                        else if Ascii.eqb c "+" then (false, s') else (false, s1)
                    | EmptyString => (false, s1)
                    end in
  let '(d, r) := span_digits s2 in
  if is_empty d then None
  else let v := digits_value 10 0 d in Some (clamp_long (if neg : bool then - v else v), r).

(** [None] is the result [false]. *)
Definition parse_long_value (text : string) : option Z :=
  match strtol text with
  | Some (value, EmptyString) => Some value
  | _ => None
  end.

Definition parse_int_value (text : string) : option Z :=
  option_map (signed_cast 32) (parse_long_value text).

(** [atoi]: the conversion of [long] to [int]. *)
Definition atoi (s : string) : Z :=
  match strtol s with Some (v, _) => signed_cast 32 v | None => 0 end.

(** ** The port of a capture filter *)

Definition isalnum (c : ascii) : bool := in_range "a" c "z" || in_range "A" c "Z" || is_digit c.

(** [pos > 0] and the character in front of [pos] continues an identifier. *)
Definition prev_ident (filter : string) (pos : nat) : bool :=
  match pos with
  | O => false
  | S p => match str_drop p filter with
           | String c _ => isalnum c || Ascii.eqb c "_"
           | EmptyString => false
           end
  end.

(** The number after the keyword, [s] being the text behind it. *)
Definition port_number (s : string) : option Z :=
  let s := skip_space s in
  let s := match s with
           | String c s' => if Ascii.eqb c "=" || Ascii.eqb c ":" then skip_space s' else s
           | EmptyString => s
           end in
  let s := match s with
           | String c s' => if Ascii.eqb c "+" || Ascii.eqb c "-" then s' else s
           | EmptyString => s
           end in
  let '(num, _) := span_digits s in
  if is_empty num then None
  else let port := atoi num in if (0 <? port) && (port <=? 65535) then Some port else None.

Fixpoint infer_port_loop (fuel : nat) (filter : string) (pos : nat) (found_port : Z) : outcome Z :=
  match fuel with
  | O => NoFuel
  | S n =>
      match find_str_from "port" filter pos with
      | None => Done found_port
      | Some pos =>
          if prev_ident filter pos then infer_port_loop n filter (pos + 4) found_port
          else
            match port_number (str_drop (pos + 4) filter) with
            | Some port =>
                if found_port =? 0 then infer_port_loop n filter (pos + 4) port
                else if port =? found_port then infer_port_loop n filter (pos + 4) found_port
                else Done 0
            | None => infer_port_loop n filter (pos + 4) found_port
            end
      end
  end.

Definition infer_port_from_filter (filter : string) : outcome Z :=
  if is_empty filter then Done 0 else infer_port_loop (S (String.length filter)) filter 0 0.

(** ** The signature of a capture *)

(** [oss] and [first]. *)
Definition json_out : Type := string * bool.

Definition json_comma (o : json_out) : string :=
  if snd o then fst o else fst o +:+ ",".

Definition quoted (s : string) : string := String QUOTE (s +:+ String QUOTE "").

Definition append_json_str_field (key value : string) (o : json_out) : json_out :=
  if is_empty value then o
  else (json_comma o +:+ quoted key +:+ ":" +:+ quoted (json_escape value), false).

Definition append_json_int_field (key : string) (value : Z) (include_zero : bool) (o : json_out) : json_out :=
  if negb include_zero && (value =? 0) then o
  else (json_comma o +:+ quoted key +:+ ":" +:+ fmt_d value, false).

(** [include_false] is true at every call. *)
Definition append_json_bool_field (key : string) (value : bool) (o : json_out) : json_out :=
  (json_comma o +:+ quoted key +:+ ":" +:+ (if value then "true" else "false"), false).

Definition append_json_int_array_field (key : string) (values : list Z) (o : json_out) : json_out :=
  match values with
  | [] => o
  | v :: rest =>
      (json_comma o +:+ quoted key +:+ ":[" +:+ fmt_d v
         +:+ foldr (fun v s => "," +:+ fmt_d v +:+ s) "" rest +:+ "]", false)
  end.

(** [std::sort] and [std::unique]. *)
Fixpoint insert_unique (p : Z) (l : list Z) : list Z :=
  match l with
  | [] => [p]
  | q :: l' => if p <? q then p :: l else if p =? q then l else q :: insert_unique p l'
  end.

Definition sorted_unique (pids : list Z) : list Z := foldr insert_unique [] pids.

(** A process found by the resolver (src/src/rxprocessresolver.h). *)
Record SProcessInfo := mkProcess {
  pi_pid : Z;
  pi_cmdline : string;
  pi_comm : string;
  pi_listening_ports : list Z;
  pi_netns_path : string;
}.

Definition build_capture_signature (spec : CaptureSpec) (cfg : CaptureConfigSnapshot)
    (matched_processes : list SProcessInfo) : outcome string :=
  let o := ("{", true) in
  let o := append_json_str_field "mode" (capture_mode_to_string (sp_capture_mode spec)) o in
  let o := append_json_str_field "iface" (sp_iface spec) o in
  let o := append_json_str_field "resolved_iface" (sp_resolved_iface spec) o in
  let o := append_json_str_field "category" (sp_category spec) o in
  let o := append_json_str_field "output_pattern"
             (if is_empty (sp_output_pattern spec) then cs_filename_template cfg else sp_output_pattern spec) o in
  let o := append_json_str_field "output_dir" (cs_output_dir cfg) o in
  normalized_filter ← normalize_filter_for_signature (sp_filter spec);
  let o := append_json_str_field "filter" normalized_filter o in
  let o := append_json_str_field "protocol_filter" (sp_protocol_filter spec) o in
  let o := append_json_str_field "ip_filter" (sp_ip_filter spec) o in
  let o := append_json_int_field "port_filter" (sp_port_filter spec) false o in
  let d := if 0 <? sp_max_duration_sec spec then sp_max_duration_sec spec else cs_max_duration_sec cfg in
  let o := if 0 <? d then append_json_int_field "max_duration_sec" d false o else o in
  let b := if 0 <? sp_max_bytes spec then sp_max_bytes spec else cs_max_bytes cfg in
  let o := if 0 <? b then append_json_int_field "max_bytes" b false o else o in
  let p := if 0 <? sp_max_packets spec then sp_max_packets spec else cs_max_packets cfg in
  let o := if 0 <? p then append_json_int_field "max_packets" p false o else o in
  let o := append_json_int_field "snaplen" (sp_snaplen spec) true o in
  let o := append_json_bool_field "compress_enabled" (cs_compress_enabled cfg) o in
  let o := append_json_int_field "compress_threshold_mb" (cs_compress_threshold_mb cfg) true o in
  let o := append_json_str_field "compress_format" (cs_compress_format cfg) o in
  let o := append_json_bool_field "compress_remove_src" (cs_compress_remove_src cfg) o in
  let o := append_json_str_field "netns_path" (sp_netns_path spec) o in
  let o :=
    match sp_capture_mode spec with
    | MODE_PROCESS =>
        let o := append_json_str_field "proc_name" (sp_proc_name spec) o in
        append_json_int_array_field "matched_pids"
          (sorted_unique (filter (fun p => 0 < p) (map pi_pid matched_processes))) o
    | MODE_PID =>
        if 0 <? sp_target_pid spec then append_json_int_field "target_pid" (sp_target_pid spec) true o else o
    | MODE_CONTAINER => append_json_str_field "container_id" (sp_container_id spec) o
    | MODE_INTERFACE => o
    end in
  Done (fst o +:+ "}").

(** The 64-bit FNV-1a loop of [handle_start_capture] and its 16 hexadecimal
    digits. *)
Fixpoint fnv1a_64 (h : Z) (s : string) : Z :=
  match s with
  | EmptyString => h
  | String c s' => fnv1a_64 (u64 (Z.lxor h (Z.of_nat (nat_of_ascii c)) * 1099511628211)) s'
  end.

Fixpoint hex_digits (n : nat) (z : Z) : string :=
  match n with
  | O => EmptyString
  | S n' => hex_digits n' (z / 16) +:+ String (hex_digit (Z.to_nat (z mod 16))) EmptyString
  end.

Definition capture_signature (payload : string) : string :=
  hex_digits 16 (fnv1a_64 1469598103934665603 payload).

(** [std::setfill('0') << std::setw(w) << z]. *)
Definition fmt_setw (w : nat) (z : Z) : string :=
  zeros (w - String.length (fmt_d z)) +:+ fmt_d z.

(** [tm_sec] is a parameter of its own: the other components do not read it. *)
Definition make_sid_with_timestamp (signature : string) (year mon mday hour min sec now_usec : Z) : string :=
  let millis := Z.rem (Z.quot now_usec 1000) 1000 in
  signature +:+ fmt_setw 4 (year + 1900) +:+ fmt_setw 2 (mon + 1) +:+ fmt_setw 2 mday
    +:+ fmt_setw 2 hour +:+ fmt_setw 2 min +:+ fmt_setw 2 sec +:+ fmt_setw 3 millis.

(** ** Reading JSON strings back *)

Definition hex_value (c : ascii) : option nat :=
  if is_digit c then Some (nat_of_ascii c - 48)%nat
  else if in_range "a" c "f" then Some (nat_of_ascii c - 87)%nat else None.

(** The contents of a JSON string literal; [None] when the text is not one (a
    bare quote or control character, an unknown escape). *)
Fixpoint json_unescape (s : string) : option string :=
  match s with
  | EmptyString => Some EmptyString
  | String c s' =>
      if Ascii.eqb c BACKSLASH then
        match s' with
        | String e s2 =>
            if Ascii.eqb e BACKSLASH || Ascii.eqb e QUOTE then option_map (String e) (json_unescape s2)
            else if Ascii.eqb e "n" then option_map (String (chr 10)) (json_unescape s2)
            else if Ascii.eqb e "r" then option_map (String (chr 13)) (json_unescape s2)
            else if Ascii.eqb e "t" then option_map (String (chr 9)) (json_unescape s2)
            else if Ascii.eqb e "u" then
              match s2 with
              | String z1 (String z2 (String h (String l s3))) =>
                  match hex_value h, hex_value l with
                  | Some h, Some l =>
                      if Ascii.eqb z1 "0" && Ascii.eqb z2 "0"
                      then option_map (String (chr (h * 16 + l))) (json_unescape s3) else None
                  | _, _ => None
                  end
              | _ => None
              end
            else None
        | EmptyString => None
        end
      else if Ascii.eqb c QUOTE || (nat_of_ascii c <? 32)%nat then None
      else option_map (String c) (json_unescape s')
  end.

Lemma json_unescape_char c rest :
  json_unescape (escape_char c +:+ rest) = option_map (String c) (json_unescape rest).
Proof. destruct c as [[] [] [] [] [] [] [] []]; reflexivity. Qed.

(** ** Numbers *)

Lemma span_digits_app d r :
  str_all is_digit d = true -> (match r with String c _ => is_digit c = false | EmptyString => True end) ->
  span_digits (d +:+ r) = (d, r).
Proof.
  intros Hd Hr. induction d as [|c d IH].
  - rewrite str_app_nil. destruct r as [|c r]; [done|]. simpl. by rewrite Hr.
  - rewrite str_app_cons. simpl in Hd |- *. apply andb_true_iff in Hd as [Hc Hd]. by rewrite Hc, IH.
Qed.

Lemma digit_head_not_special s :
  str_all is_digit s = true ->
  skip_space s = s /\ (match s with String c _ => Ascii.eqb c "-" = false /\ Ascii.eqb c "+" = false | EmptyString => True end).
Proof.
  destruct s as [|c s]; [done|]. intros H. simpl in H. apply andb_true_iff in H as [H _].
  by_class c (fun c => negb (is_digit c) || (negb (isspace c) && negb (Ascii.eqb c "-") && negb (Ascii.eqb c "+"))).
  rewrite H in Hclass. cbn [negb orb] in Hclass. zbool. destruct Hclass as [[H1 H2] H3].
  split; [simpl; by rewrite H1|done].
Qed.

Lemma strtol_digits d :
  str_all is_digit d = true -> d <> "" ->
  strtol d = Some (clamp_long (digits_value 10 0 d), "") /\
  strtol (String "-" d) = Some (clamp_long (- digits_value 10 0 d), "").
Proof.
  intros Hd Hne. assert (Hs : span_digits d = (d, "")).
  { rewrite <- (str_app_nil_r d) at 1. by apply span_digits_app. }
  assert (He : is_empty d = false) by (destruct d; done). split.
  - unfold strtol. destruct (digit_head_not_special d Hd) as [-> Hh]. destruct d as [|c d]; [done|].
    destruct Hh as [-> ->]. by rewrite Hs, He.
  - change (strtol (String "-" d)) with
      (let '(dd, r) := span_digits d in
       if is_empty dd then None else Some (clamp_long (- digits_value 10 0 dd), r)).
    by rewrite Hs, He.
Qed.

Lemma strtol_fmt_d z : LONG_MIN <= z <= LONG_MAX -> strtol (fmt_d z) = Some (z, "").
Proof.
  unfold LONG_MIN, LONG_MAX. intros Hz. unfold fmt_d, fmt_u.
  assert (Hspec : forall n, 0 <= n <= 2 ^ 63 -> str_all is_digit (fmt_digits 20 n) = true /\
    digits_value 10 0 (fmt_digits 20 n) = n /\ fmt_digits 20 n <> "").
  { intros n Hn. destruct (fmt_digits_spec 20 n) as (H1 & H2 & H3);
      [change (10 ^ Z.of_nat 20) with 100000000000000000000; lia|lia|].
    split; [done|]. split; [done|]. intros E. rewrite E in H3. simpl in H3. lia. }
  destruct (Z.ltb_spec z 0).
  - destruct (Hspec (- z) ltac:(lia)) as (H1 & H2 & H3). rewrite str_app_cons, str_app_nil.
    destruct (strtol_digits _ H1 H3) as [_ ->]. rewrite H2. unfold clamp_long, LONG_MIN, LONG_MAX.
    do 2 f_equal. lia.
  - destruct (Hspec z ltac:(lia)) as (H1 & H2 & H3). destruct (strtol_digits _ H1 H3) as [-> _].
    rewrite H2. unfold clamp_long, LONG_MIN, LONG_MAX. do 2 f_equal. lia.
Qed.

Lemma signed_cast_small w z : 0 < w -> - 2 ^ (w - 1) <= z < 2 ^ (w - 1) -> signed_cast w z = z.
Proof.
  intros Hw Hz. unfold signed_cast. assert (E : 2 ^ w = 2 * 2 ^ (w - 1)).
  { rewrite <- Z.pow_succ_r by lia. f_equal. lia. }
  destruct (Z.ltb_spec z 0).
  - replace (z mod 2 ^ w) with (z + 2 ^ w).
    + destruct (Z.ltb_spec (z + 2 ^ w) (2 ^ (w - 1))); lia.
    + symmetry. rewrite <- (Z.mod_add z 1) by lia. rewrite Z.mul_1_l. apply Z.mod_small. lia.
  - rewrite Z.mod_small by lia. destruct (Z.ltb_spec z (2 ^ (w - 1))); lia.
Qed.

(** ** The port of a filter *)

(** Occurrences of [port] do not overlap. *)
Lemma port_no_overlap s m k :
  is_prefix "port" (str_drop m s) = true -> (m < k < m + 4)%nat -> is_prefix "port" (str_drop k s) = false.
Proof.
  intros H Hk.
  apply is_prefix_cons_false in H as (s1 & E1 & H). apply is_prefix_cons_false in H as (s2 & -> & H).
  apply is_prefix_cons_false in H as (s3 & -> & H). apply is_prefix_cons_false in H as (s4 & -> & _).
  apply str_drop_S in E1 as E2. apply str_drop_S in E2 as E3. apply str_drop_S in E3 as E4.
  assert (k = S m \/ k = S (S m) \/ k = S (S (S m))) as [ -> | [ -> | -> ] ] by lia;
    rewrite ?E2, ?E3, ?E4; done.
Qed.

(** The port named at position [p], when the keyword starts there. *)
Definition mention_at (filter : string) (p : nat) : option Z :=
  if is_prefix "port" (str_drop p filter) && negb (prev_ident filter p)
  then port_number (str_drop (p + 4) filter) else None.

Definition port_mentions (filter : string) : list Z :=
  omap (mention_at filter) (seq 0 (String.length filter)).

(** The port every mention agrees on; 0 when there is none or they differ. *)
Definition agreed (ports : list Z) : Z :=
  match ports with
  | [] => 0
  | p :: rest => if forallb (Z.eqb p) rest then p else 0
  end.

Lemma port_number_range s p : port_number s = Some p -> 0 < p <= 65535.
Proof.
  unfold port_number. destruct (span_digits _) as [num r]. destruct (is_empty num); [done|].
  destruct (Z.ltb_spec 0 (atoi num)), (Z.leb_spec (atoi num) 65535); simpl; try done.
  intros [= <-]. lia.
Qed.

Lemma omap_none {A B} (f : A -> option B) l : (forall x, x ∈ l -> f x = None) -> omap f l = [].
Proof.
  induction l as [|x l IH]; [done|]. intros H. cbn. rewrite (H x) by left.
  apply IH. intros y Hy. apply H. by right.
Qed.

(** The mentions from [pos] on, split at the next occurrence. *)
Lemma mentions_split filter pos q n :
  find_str_from "port" filter pos = Some q -> (pos + n = String.length filter)%nat ->
  (pos <= q)%nat /\ (q + 4 <= String.length filter)%nat /\
  omap (mention_at filter) (seq pos n) =
    option_list (if prev_ident filter q then None else port_number (str_drop (q + 4) filter)) ++
    omap (mention_at filter) (seq (q + 4) (String.length filter - (q + 4))).
Proof.
  unfold find_str_from. destruct (find_str "port" (str_drop pos filter)) as [k|] eqn:Ek; [|done].
  intros [= <-] Hn. pose proof (find_str_le _ _ _ Ek) as Hle. rewrite str_drop_length in Hle. simpl in Hle.
  destruct (find_str_first _ _ _ Ek) as [Hk Hfirst]. rewrite str_drop_drop in Hk.
  split; [lia|]. split; [lia|].
  replace n with (k + (1 + (3 + (String.length filter - (pos + k + 4)))))%nat by lia.
  rewrite (seq_app k), (seq_app 1), (seq_app 3), !omap_app.
  rewrite (omap_none _ (seq pos k)).
  2: { intros x Hx%elem_of_seq. unfold mention_at. replace x with (pos + (x - pos))%nat by lia.
       rewrite <- str_drop_drop, Hfirst by lia. done. }
  rewrite (omap_none _ (seq (pos + k + 1) 3)).
  2: { intros x Hx%elem_of_seq. unfold mention_at. rewrite (port_no_overlap filter (pos + k)) by (done || lia). done. }
  cbn [app]. replace (pos + k + 1 + 3)%nat with (pos + k + 4)%nat by lia. f_equal.
  cbn. unfold mention_at. rewrite Hk. cbn [andb]. destruct (prev_ident filter (pos + k)); [done|].
  cbn [negb]. by destruct (port_number _).
Qed.

Lemma infer_port_loop_spec fuel filter pos found ports0 :
  (String.length filter - pos < fuel)%nat -> (pos <= String.length filter)%nat ->
  Forall (fun p => 0 < p <= 65535) ports0 -> found = agreed ports0 -> forallb (Z.eqb found) ports0 = true ->
  infer_port_loop fuel filter pos found =
    Done (agreed (ports0 ++ omap (mention_at filter) (seq pos (String.length filter - pos)))).
Proof.
  revert pos found ports0. induction fuel as [|n IH]; intros pos found ports0 Hf Hp Hr Hfound Hall; [lia|].
  cbn [infer_port_loop]. destruct (find_str_from "port" filter pos) as [q|] eqn:Eq.
  - destruct (mentions_split filter pos q (String.length filter - pos) Eq ltac:(lia)) as (Hq & Hql & Hsplit).
    rewrite Hsplit. destruct (prev_ident filter q); [cbn [option_list app]; apply IH; (done || lia)|].
    destruct (port_number _) as [p|] eqn:Epn; [|cbn [option_list app]; apply IH; (done || lia)].
    apply port_number_range in Epn as Hpr. change (option_list (Some p)) with [p].
    destruct ports0 as [|p0 rest].
    + cbn [agreed] in Hfound. subst found. cbn [Z.eqb app].
      rewrite (IH (q + 4)%nat p [p]); [done|lia|lia|by apply Forall_singleton|done|].
      simpl. by rewrite Z.eqb_refl.
    + inversion Hr as [|? ? Hp0 Hrest]; subst.
      assert (Hag : agreed (p0 :: rest) = p0).
      { unfold agreed in *. destruct (forallb (Z.eqb p0) rest); [done|]. cbn [forallb] in Hall.
        destruct (Z.eqb_spec 0 p0); [lia|done]. }
      rewrite Hag in Hall |- *. destruct (Z.eqb_spec p0 0); [lia|].
      destruct (Z.eqb_spec p p0) as [->|Hne].
      * rewrite (IH (q + 4)%nat p0 ((p0 :: rest) ++ [p0])).
        -- by rewrite <- app_assoc.
        -- lia.
        -- lia.
        -- apply Forall_app. split; [done|by apply Forall_singleton].
        -- simpl in Hall |- *. rewrite forallb_app. apply andb_true_iff in Hall as [_ ->].
           simpl. by rewrite Z.eqb_refl.
        -- rewrite forallb_app, Hall. simpl. by rewrite Z.eqb_refl.
      * rewrite <- app_comm_cons. cbn [agreed]. rewrite forallb_app. cbn [app forallb].
        destruct (Z.eqb_spec p0 p); [done|]. cbn [andb]. by destruct (forallb _ rest).
  - unfold find_str_from in Eq. destruct (find_str _ _) eqn:Es; [done|].
    rewrite omap_none, app_nil_r; [by f_equal|]. intros x Hx%elem_of_seq. unfold mention_at.
    pose proof (find_str_none_prefix _ _ Es (x - pos)) as Hn. rewrite str_drop_drop in Hn.
    replace (pos + (x - pos))%nat with x in Hn by lia. by rewrite Hn.
Qed.

(** ** Sorted process ids *)

Lemma insert_unique_elem p q l : p ∈ insert_unique q l <-> p = q \/ p ∈ l.
Proof.
  induction l as [|r l IH]; simpl.
  - by rewrite elem_of_cons.
  - destruct (Z.ltb_spec q r); [by rewrite elem_of_cons|].
    destruct (Z.eqb_spec q r) as [->|]; rewrite !elem_of_cons, ?IH; tauto.
Qed.

Lemma insert_unique_sorted q l : StronglySorted Z.lt l -> StronglySorted Z.lt (insert_unique q l).
Proof.
  induction 1 as [|r l Hl IH Hr]; [by repeat constructor|]. simpl.
  destruct (Z.ltb_spec q r).
  - constructor; [by constructor|]. constructor; [done|]. eapply Forall_impl; [exact Hr|]. simpl. lia.
  - destruct (Z.eqb_spec q r); [by constructor|]. constructor; [done|].
    apply Forall_forall. intros x [->|Hx]%insert_unique_elem; [lia|].
    rewrite Forall_forall in Hr. by apply Hr.
Qed.

Lemma sorted_unique_spec l :
  StronglySorted Z.lt (sorted_unique l) /\ forall p, p ∈ sorted_unique l <-> p ∈ l.
Proof.
  induction l as [|q l [H1 H2]]; [by split; [constructor|]|]. simpl. split.
  - by apply insert_unique_sorted.
  - intros p. by rewrite insert_unique_elem, elem_of_cons, H2.
Qed.

Lemma sorted_lt_NoDup l : StronglySorted Z.lt l -> NoDup l.
Proof.
  induction 1 as [|r l Hl IH Hr]; [constructor|]. constructor; [|done]. intros Hin.
  rewrite Forall_forall in Hr. specialize (Hr _ Hin). lia.
Qed.

Lemma sorted_unique_ext l1 l2 :
  (forall p, p ∈ l1 <-> p ∈ l2) -> sorted_unique l1 = sorted_unique l2.
Proof.
  intros H. destruct (sorted_unique_spec l1) as [S1 E1], (sorted_unique_spec l2) as [S2 E2].
  assert (AntiSymm (=) Z.lt) by (intros x y ? ?; lia).
  apply (StronglySorted_unique Z.lt); [done|done|].
  apply NoDup_Permutation; [by apply sorted_lt_NoDup..|]. intros p. by rewrite E1, E2.
Qed.

(** ** Hints *)

Definition print_pair (kv : string * string) : string := fst kv +:+ "=" +:+ snd kv.

(** [k1=v1,k2=v2,...]. *)
Fixpoint print_hint (l : list (string * string)) : string :=
  match l with
  | [] => ""
  | [kv] => print_pair kv
  | kv :: rest => print_pair kv +:+ "," +:+ print_hint rest
  end.

Definition value_char (c : ascii) : bool := negb (isspace c) && negb (Ascii.eqb c ",") && negb (Ascii.eqb c ";").
Definition key_char (c : ascii) : bool :=
  value_char c && negb (Ascii.eqb c ":") && negb (Ascii.eqb c "=") && negb (in_range "A" c "Z").

(** Keys in lower case without separators; values without separators and not
    in quotes. *)
Definition pair_ok (kv : string * string) : Prop :=
  str_all key_char (fst kv) = true /\ str_all value_char (snd kv) = true /\
  strip_quotes_copy (snd kv) = snd kv.

Lemma str_all_weaken (p q : ascii -> bool) s :
  (forall c, p c = true -> q c = true) -> str_all p s = true -> str_all q s = true.
Proof. intros Hpq. induction s as [|c s IH]; [done|]. simpl. rewrite !andb_true_iff. intuition. Qed.

Lemma str_map_id f p s : (forall c, p c = true -> f c = c) -> str_all p s = true -> str_map f s = s.
Proof.
  intros Hf. induction s as [|c s IH]; [done|]. simpl. rewrite andb_true_iff. intros [Hc Hs].
  by rewrite Hf, IH.
Qed.

Lemma str_map_app f s1 s2 : str_map f (s1 +:+ s2) = str_map f s1 +:+ str_map f s2.
Proof. induction s1 as [|c s1 IH]; [done|]. rewrite !str_app_cons. simpl. by rewrite IH, str_app_cons. Qed.

Lemma value_char_facts c : value_char c = true -> isspace c = false /\ hint_separator c = c.
Proof.
  unfold value_char, hint_separator. rewrite !andb_true_iff, !negb_true_iff.
  intros [[-> ->] ->]. done.
Qed.

Lemma drop_end_id p s : str_all (fun c => negb (p c)) s = true -> drop_end p s = s.
Proof.
  induction s as [|c s IH]; [done|]. simpl. rewrite andb_true_iff, negb_true_iff. intros [Hc Hs].
  rewrite IH by done. destruct s; [by rewrite Hc|done].
Qed.

Lemma trim_copy_id s : str_all (fun c => negb (isspace c)) s = true -> trim_copy s = s.
Proof.
  intros H. unfold trim_copy. assert (E : skip_space s = s).
  { destruct s as [|c s]; [done|]. simpl in H |- *. apply andb_true_iff in H as [H _].
    apply negb_true_iff in H. by rewrite H. }
  rewrite E. by apply drop_end_id.
Qed.

Lemma tokens_word a cur s :
  str_all (fun c => negb (isspace c)) a = true -> tokens cur (a +:+ s) = tokens (cur +:+ a) s.
Proof.
  revert cur. induction a as [|c a IH]; intros cur; [by rewrite str_app_nil, str_app_nil_r|].
  rewrite str_app_cons. simpl. rewrite andb_true_iff, negb_true_iff. intros [Hc Ha].
  rewrite Hc, IH by done. by rewrite push_back_app.
Qed.

Lemma find_assign_app k v : str_all key_char k = true -> find_assign (k +:+ String "=" v) = Some (String.length k).
Proof.
  induction k as [|c k IH]; [done|]. rewrite str_app_cons. simpl. rewrite andb_true_iff. intros [Hc Hk].
  unfold key_char in Hc. rewrite !andb_true_iff, !negb_true_iff in Hc. destruct Hc as [[[_ H1] H2] _].
  rewrite H1, H2, IH by done. done.
Qed.

Lemma value_not_space s : str_all value_char s = true -> str_all (fun c => negb (isspace c)) s = true.
Proof. apply str_all_weaken. intros c Hc. by destruct (value_char_facts c Hc) as [-> _]. Qed.

Lemma key_value s : str_all key_char s = true -> str_all value_char s = true.
Proof. apply str_all_weaken. intros c. unfold key_char. rewrite !andb_true_iff. tauto. Qed.

Lemma add_pair_print m kv : pair_ok kv -> add_pair m (print_pair kv) = <[fst kv := snd kv]> m.
Proof.
  destruct kv as [k v]. intros (Hk & Hv & Hq). unfold add_pair, print_pair. simpl in *.
  rewrite (str_app_cons "="), str_app_nil, find_assign_app by done.
  rewrite str_take_app, <- (str_drop_drop 1 (String.length k)), str_drop_app. cbn [str_drop].
  rewrite (trim_copy_id k) by (by apply value_not_space, key_value).
  rewrite (trim_copy_id v) by (by apply value_not_space). rewrite Hq.
  unfold to_lower_copy. rewrite (str_map_id tolower key_char) by (done || (intros c Hc;
    unfold key_char in Hc; rewrite !andb_true_iff, !negb_true_iff in Hc; unfold tolower; by destruct Hc as [_ ->])).
  done.
Qed.

Lemma print_pair_word kv :
  pair_ok kv -> str_all value_char (print_pair kv) = true /\ print_pair kv <> "".
Proof.
  destruct kv as [k v]. intros (Hk & Hv & _). unfold print_pair. simpl in *. split.
  - rewrite !str_all_app, (key_value k Hk), Hv. done.
  - by destruct k.
Qed.

Lemma tokens_print l :
  Forall pair_ok l -> tokens "" (str_map hint_separator (print_hint l)) = map print_pair l.
Proof.
  induction 1 as [|kv l Hkv Hl IH]; [done|]. destruct (print_pair_word kv Hkv) as [Hw Hne].
  assert (Hid : str_map hint_separator (print_pair kv) = print_pair kv).
  { apply (str_map_id _ value_char); [|done]. intros c Hc. by destruct (value_char_facts c Hc). }
  assert (Hsp : str_all (fun c => negb (isspace c)) (print_pair kv) = true) by by apply value_not_space.
  destruct l as [|kv2 l].
  - cbn [print_hint map]. rewrite Hid, <- (str_app_nil_r (print_pair kv)) at 1.
    rewrite tokens_word by done. rewrite str_app_nil. cbn [tokens].
    destruct (is_empty_spec (print_pair kv)); done.
  - change (print_hint (kv :: kv2 :: l)) with (print_pair kv +:+ "," +:+ print_hint (kv2 :: l)).
    rewrite !str_map_app, Hid, tokens_word by done. rewrite str_app_nil.
    change (str_map hint_separator ",") with " "%string. rewrite (str_app_cons " "), str_app_nil. cbn [tokens].
    change (isspace " ") with true. cbn iota. destruct (is_empty_spec (print_pair kv)); [done|].
    by rewrite IH.
Qed.

(** ** Properties *)

(** JSON escaping loses nothing and is safe: reading the escaped text back
    as the contents of a JSON string literal, which rejects bare quotes,
    control characters and unknown escapes, yields the original. *)
Theorem json_escape_roundtrip s : json_unescape (json_escape s) = Some s.
Proof.
  induction s as [|c s IH]; [done|]. cbn [json_escape]. by rewrite json_unescape_char, IH.
Qed.

Lemma infer_port_total filter : exists p, infer_port_from_filter filter = Done p.
Proof.
  unfold infer_port_from_filter. destruct (is_empty_spec filter) as [->|]; [by eexists|].
  eexists. rewrite (infer_port_loop_spec _ filter 0 0 []); try done; lia.
Qed.

(** The inferred port.  On every filter the scan ends; it returns the port
    in 1..65535 that all mentions [port N] of the filter agree on, and 0 when
    there is no mention or two of them differ. *)
Theorem infer_port_from_filter_spec filter :
  infer_port_from_filter filter = Done (agreed (port_mentions filter)) /\
  Forall (fun p => 0 < p <= 65535) (port_mentions filter).
Proof.
  split.
  - unfold infer_port_from_filter. destruct (is_empty_spec filter) as [->|]; [done|].
    rewrite (infer_port_loop_spec _ filter 0 0 []); try done; [|lia|lia].
    by rewrite Nat.sub_0_r.
  - apply Forall_forall. intros p. unfold port_mentions. rewrite list_elem_of_omap.
    intros (x & _ & Hx). unfold mention_at in Hx. destruct (_ && _); [|done].
    by apply port_number_range in Hx.
Qed.

Example infer_port_examples :
  infer_port_from_filter "tcp port 80 and (dst port = 80)" = Done 80 /\
  infer_port_from_filter "port 80 or port 443" = Done 0 /\
  infer_port_from_filter "sport 80 or port:+53" = Done 53 /\
  infer_port_from_filter "port 4294967376" = Done 80.
Proof. repeat split. Qed.

(** Numbers of hints and requests: printing an [int] or a [long] and
    parsing it back is the identity. *)
Theorem parse_value_roundtrip z :
  (LONG_MIN <= z <= LONG_MAX -> parse_long_value (fmt_d z) = Some z) /\
  (- 2 ^ 31 <= z < 2 ^ 31 -> parse_int_value (fmt_d z) = Some z).
Proof.
  assert (Hl : LONG_MIN <= z <= LONG_MAX -> parse_long_value (fmt_d z) = Some z).
  { intros Hz. unfold parse_long_value. by rewrite strtol_fmt_d. }
  split; [done|]. intros Hz. unfold parse_int_value. rewrite Hl by (unfold LONG_MIN, LONG_MAX; lia).
  simpl. by rewrite signed_cast_small by lia.
Qed.

Lemma parse_value_roundtrip_witness :
  parse_long_value (fmt_d (-5000000000)) = Some (-5000000000) /\ parse_int_value (fmt_d 443) = Some 443.
Proof.
  split.
  - apply (parse_value_roundtrip (-5000000000)). unfold LONG_MIN, LONG_MAX. lia.
  - apply (parse_value_roundtrip 443). lia.
Defined.

(** A value that does not fit an [int] is accepted and wraps around. *)
Example parse_int_value_wraps : parse_int_value "4294967297" = Some 1.
Proof. reflexivity. Qed.

(** Capture hints round trip: parsing a printed list of pairs gives the map
    of the pairs, a later pair overriding an earlier one with the same key. *)
Theorem capture_hint_roundtrip l :
  Forall pair_ok l ->
  parse_capture_hint_pairs (print_hint l) = foldl (fun m kv => <[fst kv := snd kv]> m) ∅ l.
Proof.
  intros Hl. unfold parse_capture_hint_pairs. rewrite tokens_print by done.
  generalize (∅ : gmap string string). induction Hl as [|kv l Hkv Hl IH]; intros m; [done|].
  cbn [map foldl]. rewrite add_pair_print by done. apply IH.
Qed.

Lemma capture_hint_roundtrip_witness :
  parse_capture_hint_pairs "process=nginx,duration=30" =
    foldl (fun m kv => <[fst kv := snd kv]> m) ∅ [("process", "nginx"); ("duration", "30")]%string.
Proof.
  apply (capture_hint_roundtrip [("process", "nginx"); ("duration", "30")]%string).
  constructor; [split; [reflexivity|split; reflexivity]|].
  constructor; [split; [reflexivity|split; reflexivity]|]. constructor.
Defined.

(** The signature of a capture does not depend on the order in which the
    processes were found, nor on repetitions. *)
Theorem signature_order_independent spec cfg ps1 ps2 :
  (forall p, p ∈ map pi_pid ps1 <-> p ∈ map pi_pid ps2) ->
  build_capture_signature spec cfg ps1 = build_capture_signature spec cfg ps2.
Proof.
  intros H. unfold build_capture_signature.
  rewrite (sorted_unique_ext (filter (fun p => 0 < p) (map pi_pid ps1)) (filter (fun p => 0 < p) (map pi_pid ps2)));
    [done|]. intros p. by rewrite !list_elem_of_filter, H.
Qed.

Definition demo_spec : CaptureSpec :=
  mkSpec MODE_PROCESS "any" "nginx" (-1) "" "" "" "port 80" "" "" "" 80 "" "any" 60 0 0 65535.

Definition demo_process (pid : Z) : SProcessInfo := mkProcess pid "nginx" "nginx" [80] "".

Lemma signature_order_independent_witness :
  build_capture_signature demo_spec new_snapshot [demo_process 7; demo_process 3] =
  build_capture_signature demo_spec new_snapshot [demo_process 3; demo_process 7; demo_process 3].
Proof.
  apply signature_order_independent. intros p. simpl. rewrite !elem_of_cons. tauto.
Defined.

(** The signature of a capture exists if its filter has a character that is
    not trimmed; without one the trimming is undefined. *)
Lemma signature_defined spec cfg ps :
  StringTrim_reads_before_start (sp_filter spec) = false ->
  exists payload, build_capture_signature spec cfg ps = Done payload.
Proof.
  intros H. unfold build_capture_signature, normalize_filter_for_signature, trim. rewrite H, outcome_bind_done. by eexists.
Qed.

Lemma signature_undefined spec cfg ps :
  StringTrim_reads_before_start (sp_filter spec) = true -> build_capture_signature spec cfg ps = Undef.
Proof. intros H. unfold build_capture_signature, normalize_filter_for_signature, trim. by rewrite H. Qed.

(** [StringTrim] on the filter of a capture without filter looks at the
    character in front of the string. *)
Lemma StringTrim_empty_underrun s :
  StringTrim_reads_before_start s = true -> StringTrim s = "".
Proof.
  intros H. unfold StringTrim. replace (drop_start trim_char s) with ""%string; [done|].
  unfold StringTrim_reads_before_start in H. induction s as [|c s IH]; [done|].
  simpl in H |- *. apply andb_true_iff in H as [-> H]. by apply IH.
Qed.
