(* ===== verification/PdefWriteback.v ===== *)
(** * Writing a detected byte order back (rxcapturemanagerthread.cpp lines 2330-2571, rxreloadthread.cpp)

    The manager keeps, per PDEF file, the captures that use it and the byte
    order they detected, and edits the file when the last of them is done.
    [Manager] models that; [Reload] is the older routine of the reload thread,
    which the filter thread addresses directly. *)

From S2P Require Import Prelude CppString TaskTypes Messages PdefTypes Lexer Parser.

(** Text files.  A path in [tf_readonly] cannot be opened for writing. *)
Record text_fs := mkTextFs { tf_files : gmap string string; tf_readonly : gset string }.

Definition endian_str (detected_endian : Z) : string := if detected_endian =? 1 then "big" else "little".

Module Manager.

(** ** The edit *)

(** [new_content]; [None] when the file has no place for the field. *)
Definition new_content (content : string) (detected_endian : Z) : option string :=
  match find_str "endian" content with
  | Some endian_pos =>
      match find_str_from "=" content endian_pos with
      | None => None
      | Some eq_pos =>
          if (endian_pos + 20 <? eq_pos)%nat then None else
          match find_str_from ";" content eq_pos with
          | None => None
          | Some semi_pos =>
              if (eq_pos + 50 <? semi_pos)%nat then None
              else Some (str_take (eq_pos + 1) content +:+ " " +:+ endian_str detected_endian
                           +:+ str_drop semi_pos content)
          end
      end
  | None =>
      match find_str "@protocol" content with
      | None => None
      | Some protocol_pos =>
          match find_str_from "{" content protocol_pos with
          | None => None
          | Some brace_open =>
              let insert_pos :=
                match find_str_from (String (ascii_of_nat 10) "") content brace_open with
                | None => brace_open + 1
                | Some n => n + 1
                end%nat in
              Some (str_take insert_pos content +:+ "    endian = " +:+ endian_str detected_endian
                      +:+ ";" +:+ String (ascii_of_nat 10) (str_drop insert_pos content))
          end
      end
  end.

Definition writeback_endian_to_file (pdef_path : string) (detected_endian : Z) (fs : text_fs) : bool * text_fs :=
  match tf_files fs !! pdef_path with
  | None => (false, fs)
  | Some content =>
      match new_content content detected_endian with
      | None => (false, fs)
      | Some text =>
          let tmp_path := pdef_path +:+ ".tmp" in
          if bool_decide (tmp_path ∈ tf_readonly fs) then (false, fs)
          else
            (* the rename fails when the target's directory entry cannot change *)
            if bool_decide (pdef_path ∈ tf_readonly fs)
            then (false, mkTextFs (delete tmp_path (tf_files fs)) (tf_readonly fs))
            else (true, mkTextFs (<[pdef_path := text]> (delete tmp_path (tf_files fs))) (tf_readonly fs))
      end
  end.

(** ** Who uses a file *)

Record PDEFUsageInfo := mkUsage {
  active_capture_ids : gset Z;
  detected_endian : Z;
  writeback_needed : bool;
  writeback_done : bool;
}.

Definition new_usage : PDEFUsageInfo := mkUsage ∅ 0 false false.

(** [_pdef_usage_map] and the files; [writes] lists the edits that succeeded. *)
Record usage := mkState {
  us_map : gmap string PDEFUsageInfo;
  us_fs : text_fs;
  us_writes : list (string * Z);
}.

(** [_pdef_usage_map[path]], which creates a missing entry. *)
Definition usage_of (s : usage) (path : string) : PDEFUsageInfo := default new_usage (us_map s !! path).

Definition set_usage (s : usage) (path : string) (info : PDEFUsageInfo) : usage :=
  mkState (<[path := info]> (us_map s)) (us_fs s) (us_writes s).

Definition track_pdef_usage_start (capture_id : Z) (path : string) (s : usage) : usage :=
  if is_empty path then s else
  let info := usage_of s path in
  set_usage s path (mkUsage ({[capture_id]} ∪ active_capture_ids info) (detected_endian info)
                      (writeback_needed info) (writeback_done info)).

Definition track_pdef_usage_end (capture_id : Z) (path : string) (s : usage) : usage :=
  if is_empty path then s else
  match us_map s !! path with
  | None => s
  | Some info =>
      set_usage s path (mkUsage (active_capture_ids info ∖ {[capture_id]}) (detected_endian info)
                          (writeback_needed info) (writeback_done info))
  end.

Definition try_writeback_pdef_endian (path : string) (s : usage) : usage :=
  if is_empty path then s else
  match us_map s !! path with
  | None => s
  | Some info =>
      if negb (writeback_needed info) || writeback_done info then s
      else if bool_decide (active_capture_ids info <> ∅) then s
      else
        let '(ok, fs) := writeback_endian_to_file path (detected_endian info) (us_fs s) in
        if ok then
          mkState (<[path := mkUsage (active_capture_ids info) (detected_endian info) (writeback_needed info) true]> (us_map s))
            fs (us_writes s ++ [(path, detected_endian info)])
        else mkState (us_map s) fs (us_writes s)
  end.

Definition handle_pdef_endian_detected (m : SRxPdefEndianMsg) (s : usage) : usage :=
  let path := em_pdef_file_path m in
  if is_empty path then s else
  let info := usage_of s path in
  let s := set_usage s path info in
  if writeback_done info then s else
  let s := if detected_endian info =? 0
           then set_usage s path (mkUsage (active_capture_ids info) (em_detected_endian m) true (writeback_done info))
           else s in
  try_writeback_pdef_endian path s.

(** The steps the manager's handlers make: a raw file arrives, a filtered file
    arrives, an order was detected. *)
Inductive step :=
  | RawArrived (capture_id : Z) (path : string)
  | FilteredArrived (capture_id : Z) (path : string)
  | Detected (m : SRxPdefEndianMsg).

Definition run_step (s : usage) (x : step) : usage :=
  match x with
  | RawArrived id path => track_pdef_usage_start id path s
  | FilteredArrived id path => try_writeback_pdef_endian path (track_pdef_usage_end id path s)
  | Detected m => handle_pdef_endian_detected m s
  end.

End Manager.

Module Reload.

(** The new text; [timestamp] is the formatted local time. *)
Definition new_content (content : string) (detected_endian : Z) (timestamp : string) : option string :=
  match find_str "endian " content with
  | Some _ => None
  | None =>
      match find_str "protocol " content with
      | None => None
      | Some protocol_pos =>
          match find_str_from "{" content protocol_pos with
          | None => None
          | Some brace_pos =>
              let nl := String (ascii_of_nat 10) "" in
              let endian_line :=
                str_take 255 (nl +:+ "    endian " +:+ endian_str detected_endian
                                +:+ ";  # auto-detected on " +:+ timestamp +:+ nl) in
              Some (substr content 0 (brace_pos + 1) +:+ endian_line +:+ str_drop (brace_pos + 1) content)
          end
      end
  end.

(** The lock is free ([flock] succeeds) and writes are complete. *)
Definition writeback_pdef_endian (pdef_file_path : string) (detected_endian : Z) (timestamp : string)
    (fs : text_fs) : text_fs :=
  if is_empty pdef_file_path then fs else
  match tf_files fs !! pdef_file_path with
  | None => fs
  | Some content =>
      if bool_decide (pdef_file_path ∈ tf_readonly fs) then fs else
      match new_content content detected_endian timestamp with
      | None => fs
      | Some text => mkTextFs (<[pdef_file_path := text]> (tf_files fs)) (tf_readonly fs)
      end
  end.

End Reload.

(** ** Text lemmas *)

Lemma find_char_app c a b :
  has_char c a = false -> find_str (String c "") (a +:+ String c b) = Some (String.length a).
Proof.
  induction a as [|d a IH].
  - intros _. rewrite str_app_nil. cbn [find_str is_prefix]. by rewrite Ascii.eqb_refl.
  - rewrite str_app_cons. cbn [has_char]. intros [Hd Ha]%orb_false_iff. cbn [find_str is_prefix].
    rewrite Ascii.eqb_sym, Hd. cbn [andb]. by rewrite IH.
Qed.

Lemma find_char_spec c s k :
  find_str (String c "") s = Some k ->
  s = str_take k s +:+ String c (str_drop (S k) s) /\ has_char c (str_take k s) = false /\
  String.length (str_take k s) = k.
Proof.
  revert k. induction s as [|d s IH]; intros k; [done|]. cbn [find_str is_prefix].
  rewrite andb_true_r. destruct (Ascii.eqb_spec c d) as [->|Hne].
  - intros [= <-]. done.
  - destruct (find_str (String c "") s) as [m|]; [|done]. intros [= <-]. destruct (IH m eq_refl) as (H1 & H2 & H3).
    cbn [str_take str_drop has_char String.length]. rewrite str_app_cons. split; [by f_equal|].
    split; [|by f_equal]. apply orb_false_iff. split; [|done]. by apply Ascii.eqb_neq, not_eq_sym.
Qed.

(** An occurrence that lies inside a prefix is found whatever follows. *)
Lemma find_str_extend needle p q q' k :
  find_str needle (p +:+ q) = Some k -> (k + String.length needle <= String.length p)%nat ->
  find_str needle (p +:+ q') = Some k.
Proof.
  assert (Hpre : forall n s x y, (String.length n <= String.length s)%nat -> is_prefix n (s +:+ x) = is_prefix n (s +:+ y)).
  { induction n as [|c n IH]; intros [|d s] x y Hl; simpl in Hl; try lia; try done.
    rewrite !str_app_cons. simpl. by rewrite (IH s x y) by lia. }
  revert k. induction p as [|c p IH]; intros k Hf Hk.
  - destruct needle; [|simpl in Hk; lia]. simpl in Hk. destruct k; [|lia]. by destruct q'.
  - rewrite str_app_cons in *. cbn [find_str] in *.
    destruct (is_prefix needle (String c (p +:+ q))) eqn:E.
    + injection Hf as <-. rewrite <- str_app_cons in *. by rewrite (Hpre needle (String c p) q' q), E by (simpl in *; lia).
    + destruct (find_str needle (p +:+ q)) as [m|] eqn:Em; [|done]. injection Hf as <-. simpl in Hk.
      rewrite (IH m eq_refl) by lia.
      rewrite <- str_app_cons in *. rewrite (Hpre needle (String c p) q' q), E by (simpl in *; lia). done.
Qed.

Lemma is_prefix_before_char c needle s x :
  has_char c needle = false -> is_prefix needle (s +:+ String c x) = is_prefix needle s.
Proof.
  revert s. induction needle as [|d n IH]; intros s; simpl; [by destruct s, x|].
  intros [Hd Hn]%orb_false_iff. destruct s as [|e s].
  - rewrite str_app_nil. by rewrite Hd.
  - rewrite str_app_cons. by rewrite IH.
Qed.

(** The first occurrence behind a text that has none and a separator. *)
Lemma find_str_skip c needle s x :
  has_char c needle = false -> needle <> "" -> find_str needle s = None ->
  find_str needle (s +:+ String c x) = option_map (fun k => String.length s + 1 + k)%nat (find_str needle x).
Proof.
  intros Hc Hne. induction s as [|d s IH]; intros Hs.
  - rewrite str_app_nil. cbn [find_str]. destruct needle as [|d needle]; [done|].
    cbn [is_prefix has_char] in *. apply orb_false_iff in Hc as [-> _]. cbn [andb].
    by destruct (find_str _ x).
  - rewrite str_app_cons. cbn [find_str] in *. rewrite <- str_app_cons, is_prefix_before_char by done.
    destruct (is_prefix needle (String d s)); [done|]. destruct (find_str needle s); [done|].
    rewrite IH by done. destruct (find_str needle x); simpl; [f_equal; lia|done].
Qed.

Lemma find_str_take needle s n : find_str needle s = None -> find_str needle (str_take n s) = None.
Proof.
  assert (Hp : forall nd s n, is_prefix nd (str_take n s) = true -> is_prefix nd s = true).
  { induction nd as [|c nd IH]; intros [|d t] [|m]; simpl; try done.
    destruct (Ascii.eqb c d); [|done]. simpl. apply IH. }
  revert n. induction s as [|c s IH]; intros [|n]; cbn [str_take]; try done.
  - intros H. cbn [find_str] in *. destruct (is_prefix needle "") eqn:E; [|done].
    destruct needle; [|done]. by cbn in H.
  - intros H. cbn [find_str] in *. destruct (is_prefix needle (String c s)) eqn:E; [done|].
    destruct (find_str needle s); [done|]. rewrite IH by done.
    destruct (is_prefix needle (String c (str_take n s))) eqn:E2; [|done].
    pose proof (Hp needle (String c s) (S n) E2) as E3. by rewrite E3 in E.
Qed.

Lemma str_take_length_le n s : (n <= String.length s)%nat -> String.length (str_take n s) = n.
Proof. revert s. induction n as [|n IH]; intros [|c s]; simpl; try lia. intros H. by rewrite IH by lia. Qed.

Lemma has_char_drop c n s : has_char c s = false -> has_char c (str_drop n s) = false.
Proof. revert n. induction s as [|d s IH]; intros [|n]; try done. simpl. intros [_ H]%orb_false_iff. by apply IH. Qed.

Lemma find_str_first_at needle s n :
  find_str needle s = Some n -> exists t, str_drop n s = needle +:+ t.
Proof.
  intros H. exists (str_drop (n + String.length needle) s).
  pose proof (find_str_spec _ _ _ H) as E. pose proof (find_str_le _ _ _ H) as Hle.
  rewrite E at 1. rewrite <- (str_take_length_le n s) at 1 by lia. apply str_drop_app.
Qed.

(** ** The field in the text *)

Module ManagerFacts.
Import Manager.

(** [A] ends right before the [=] of the first [endian]. *)
Record field_at (A : string) (endian_pos : nat) : Prop := {
  fa_first : forall x, find_str "endian" (A +:+ x) = Some endian_pos;
  fa_noeq : has_char "=" (str_drop endian_pos A) = false;
  fa_near : (endian_pos <= String.length A <= endian_pos + 20)%nat;
}.

Lemma str_drop_app_le n a b : (n <= String.length a)%nat -> str_drop n (a +:+ b) = str_drop n a +:+ b.
Proof.
  revert a. induction n as [|n IH]; intros a H; [done|]. destruct a as [|c a]; [simpl in H; lia|].
  rewrite str_app_cons. cbn [str_drop]. apply IH. simpl in H. lia.
Qed.

Lemma new_content_field A ep u z d :
  field_at A ep -> has_char ";" u = false -> (String.length u < 50)%nat ->
  new_content (A +:+ String "=" (u +:+ String ";" z)) d =
    Some (A +:+ String "=" (String " " (endian_str d) +:+ String ";" z)).
Proof.
  intros [Hf Hn Hl] Hu Hul. unfold new_content. rewrite Hf. unfold find_str_from.
  rewrite str_drop_app_le by lia. rewrite find_char_app by done. cbn [option_map].
  rewrite str_drop_length. replace (ep + (String.length A - ep))%nat with (String.length A) by lia.
  destruct (Nat.ltb_spec (ep + 20) (String.length A)); [lia|].
  rewrite str_drop_app.
  assert (Ef : find_str ";" (String "=" (u +:+ String ";" z)) = Some (S (String.length u))).
  { rewrite <- str_app_cons. by apply (find_char_app ";" (String "=" u)). }
  rewrite Ef. cbn [option_map].
  destruct (Nat.ltb_spec (String.length A + 50) (String.length A + S (String.length u))); [lia|].
  f_equal.
  assert (E : A +:+ String "=" (u +:+ String ";" z) = (A +:+ "=") +:+ u +:+ String ";" z)
    by (rewrite !str_app_assoc; by rewrite str_app_cons, str_app_nil).
  assert (E1 : str_take (String.length A + 1) (A +:+ String "=" (u +:+ String ";" z)) = A +:+ "=").
  { rewrite E. replace (String.length A + 1)%nat with (String.length (A +:+ "=")) by (rewrite str_length_app; simpl; lia).
    apply str_take_app. }
  assert (E2 : str_drop (String.length A + S (String.length u)) (A +:+ String "=" (u +:+ String ";" z)) = String ";" z).
  { rewrite E, <- str_app_assoc.
    replace (String.length A + S (String.length u))%nat with (String.length ((A +:+ "=") +:+ u))
      by (rewrite !str_length_app; simpl; lia).
    apply str_drop_app. }
  rewrite E1, E2, !str_app_assoc, !str_app_cons, !str_app_nil. done.
Qed.

(** What an edit looks like: the field set, the rest of the text kept. *)
Lemma keyword_before_eq c ep k :
  find_str "endian" c = Some ep -> find_str "=" (str_drop ep c) = Some k -> (6 <= k)%nat.
Proof.
  intros Ee Ek. destruct (find_char_spec _ _ _ Ek) as (Hs1 & _ & _).
  destruct (Nat.le_gt_cases 6 k); [done|]. exfalso. destruct (find_str_first_at _ _ _ Ee) as (t & Ht).
  rewrite Ht in Hs1. clear -Hs1 H.
  destruct k as [|[|[|[|[|[|k]]]]]]; try lia; rewrite ?str_app_cons, ?str_app_nil in Hs1;
    simpl in Hs1; rewrite ?str_app_cons, ?str_app_nil in Hs1; try discriminate Hs1; by inversion Hs1.
Qed.

(** The [=] after a position, and the [;] after it. *)
Lemma equals_then_semicolon c ep k j :
  (ep <= String.length c)%nat ->
  find_str "=" (str_drop ep c) = Some k -> find_str ";" (str_drop (ep + k) c) = Some j ->
  exists A u z, c = A +:+ String "=" (u +:+ String ";" z) /\ String.length A = (ep + k)%nat /\
    str_drop ep A = str_take k (str_drop ep c) /\ has_char ";" u = false /\ j = S (String.length u).
Proof.
  intros Hep Ek Ej. destruct (find_char_spec _ _ _ Ek) as (Hs1 & _ & Hl1).
  set (A := str_take ep c +:+ str_take k (str_drop ep c)). set (s2 := str_drop (S k) (str_drop ep c)) in *.
  assert (HP : String.length (str_take ep c) = ep) by by apply str_take_length_le.
  assert (HA : String.length A = (ep + k)%nat) by (unfold A; rewrite str_length_app; lia).
  assert (Hc : c = A +:+ String "=" s2).
  { rewrite <- (str_take_drop ep c) at 1. rewrite Hs1 at 1. unfold A. by rewrite str_app_assoc. }
  assert (HdA : str_drop ep A = str_take k (str_drop ep c)).
  { unfold A. rewrite <- HP at 1. apply str_drop_app. }
  clearbody A s2. clear Hs1 HP Ek Hep. rewrite <- HdA. rewrite Hc, <- HA, str_drop_app in Ej.
  destruct (find_char_spec _ _ _ Ej) as (Hs2 & Hn2 & Hl2). destruct j as [|j]; [discriminate Hs2|].
  cbn [str_take str_drop] in Hs2. rewrite str_app_cons in Hs2. injection Hs2 as Hs2.
  cbn [str_take has_char] in Hn2. apply orb_false_iff in Hn2 as [_ Hn2]. cbn [str_take String.length] in Hl2.
  eexists A, (str_take j s2), _. rewrite Hc at 1. rewrite Hs2 at 1. split_and!; [done..|lia].
Qed.

Lemma new_content_replaces c d c' ep :
  find_str "endian" c = Some ep -> new_content c d = Some c' ->
  exists A z u, field_at A ep /\ c' = A +:+ String "=" (String " " (endian_str d) +:+ String ";" z) /\
    has_char ";" u = false /\ (String.length u < 50)%nat /\ c = A +:+ String "=" (u +:+ String ";" z).
Proof.
  intros Ee H. pose proof H as Hnew. unfold new_content in H. rewrite Ee in H. unfold find_str_from in H.
  destruct (find_str "=" (str_drop ep c)) as [k|] eqn:Ek; [|done]. cbn [option_map] in H.
  destruct (Nat.ltb_spec (ep + 20) (ep + k)) as [|Hk]; [done|].
  destruct (find_str ";" (str_drop (ep + k) c)) as [j|] eqn:Ej; [|done]. cbn [option_map] in H.
  destruct (Nat.ltb_spec (ep + k + 50) (ep + k + j)) as [|Hj]; [done|]. clear H.
  pose proof (keyword_before_eq _ _ _ Ee Ek) as Hk6. pose proof (find_str_le _ _ _ Ee) as Hle. simpl in Hle.
  destruct (equals_then_semicolon c ep k j) as (A & u & z & Hc & HA & HdA & Hu & ->); [lia|done..|].
  assert (Hf : field_at A ep).
  { split; [| |lia].
    - intros x. apply (find_str_extend _ A (String "=" (u +:+ String ";" z))); [by rewrite <- Hc|]. simpl. lia.
    - rewrite HdA. by apply find_char_spec in Ek as (_ & ? & _). }
  exists A, z, u. rewrite Hc, (new_content_field A ep u z d Hf Hu) in Hnew by lia. injection Hnew as <-.
  split_and!; [done..|lia|done].
Qed.

Lemma new_content_inserts c d c' :
  find_str "endian" c = None -> new_content c d = Some c' ->
  exists B rest, field_at (B +:+ "    endian ") (String.length B + 4) /\ c = B +:+ rest /\
    forall d', new_content c d' =
      Some (B +:+ "    endian " +:+ String "=" (String " " (endian_str d') +:+ String ";" (String (ascii_of_nat 10) rest))).
Proof.
  intros Hno. unfold new_content. rewrite Hno.
  destruct (find_str "@protocol" c) as [pp|]; [|done].
  destruct (find_str_from "{" c pp) as [bo|]; [|done].
  set (ip := match find_str_from _ c bo with None => _ | Some n => _ end). intros [= <-].
  exists (str_take ip c), (str_drop ip c). split; [split|split].
  - intros x. rewrite str_app_assoc. rewrite (str_app_cons " " "   endian ").
    rewrite find_str_skip; [|done|done|by apply find_str_take]. cbn. apply (f_equal Some). lia.
  - rewrite <- (str_drop_drop 4), str_drop_app. done.
  - rewrite str_length_app. simpl. lia.
  - by rewrite str_take_drop.
  - done.
Qed.
End ManagerFacts.

(** The text between the [=] and the [;] of the first [endian]. *)
Definition endian_field (c : string) : option string :=
  endian_pos ← find_str "endian" c;
  eq_pos ← find_str_from "=" c endian_pos;
  semi_pos ← find_str_from ";" c eq_pos;
  Some (substr c (eq_pos + 1) (semi_pos - (eq_pos + 1))).

Lemma endian_field_at A ep u z :
  ManagerFacts.field_at A ep -> has_char ";" u = false ->
  endian_field (A +:+ String "=" (u +:+ String ";" z)) = Some u.
Proof.
  intros [Hf Hn Hl] Hu. unfold endian_field. rewrite Hf. cbn [mbind option_bind]. unfold find_str_from.
  rewrite ManagerFacts.str_drop_app_le by lia. rewrite find_char_app by done. cbn [option_map mbind option_bind].
  rewrite str_drop_length. replace (ep + (String.length A - ep))%nat with (String.length A) by lia.
  rewrite str_drop_app.
  assert (Ef : find_str ";" (String "=" (u +:+ String ";" z)) = Some (S (String.length u))).
  { rewrite <- str_app_cons. by apply (find_char_app ";" (String "=" u)). }
  rewrite Ef. cbn [option_map mbind option_bind]. f_equal. unfold substr.
  rewrite <- str_drop_drop, str_drop_app. cbn [str_drop].
  replace (String.length A + S (String.length u) - (String.length A + 1))%nat with (String.length u) by lia.
  apply str_take_app.
Qed.

Lemma endian_str_short d : has_char ";" (String " " (endian_str d)) = false /\ (String.length (String " " (endian_str d)) < 50)%nat.
Proof. unfold endian_str. destruct (d =? 1); simpl; lia || (split; [done|lia]). Qed.

(** ** The usage table *)

Section UsageFacts.
Import Manager.

(** The first order reported for [path]. *)
Fixpoint first_detected (path : string) (xs : list step) : Z :=
  match xs with
  | [] => 0
  | Detected m :: rest =>
      if String.eqb (em_pdef_file_path m) path && negb (em_detected_endian m =? 0)
      then em_detected_endian m else first_detected path rest
  | _ :: rest => first_detected path rest
  end.

(** The captures whose raw file arrived and whose filtered file did not. *)
Definition active_step (path : string) (a : gset Z) (x : step) : gset Z :=
  match x with
  | RawArrived id p => if String.eqb p path then {[id]} ∪ a else a
  | FilteredArrived id p => if String.eqb p path then a ∖ {[id]} else a
  | Detected _ => a
  end.

Definition active_after (path : string) (xs : list step) : gset Z := foldl (active_step path) ∅ xs.

Definition writes_to (path : string) (s : usage) : list Z :=
  map snd (filter (fun w => w.1 = path) (us_writes s)).

(** The filter thread reports an order only once it is known. *)
Definition step_ok (x : step) : Prop :=
  match x with Detected m => em_detected_endian m <> 0 | _ => True end.

(** What the entry [info] and the successful edits [ws] of a path say when the
    captures in [a] use it and [fd] was reported first. *)
Definition entry_ok (a : gset Z) (fd : Z) (info : PDEFUsageInfo) (ws : list Z) : Prop :=
  active_capture_ids info = a /\ detected_endian info = fd /\
  (writeback_needed info = negb (fd =? 0)) /\
  ws = (if writeback_done info then [fd] else []) /\ (writeback_done info = true -> fd <> 0).

(** The entry of [path] before the attempt to write. *)
Definition entry_mid (path : string) (info : PDEFUsageInfo) (x : step) : PDEFUsageInfo :=
  match x with
  | RawArrived id p =>
      if String.eqb p path
      then mkUsage ({[id]} ∪ active_capture_ids info) (detected_endian info) (writeback_needed info) (writeback_done info)
      else info
  | FilteredArrived id p =>
      if String.eqb p path
      then mkUsage (active_capture_ids info ∖ {[id]}) (detected_endian info) (writeback_needed info) (writeback_done info)
      else info
  | Detected m =>
      if String.eqb (em_pdef_file_path m) path && negb (writeback_done info) && (detected_endian info =? 0)
      then mkUsage (active_capture_ids info) (em_detected_endian m) true (writeback_done info)
      else info
  end.

Lemma first_detected_app path xs x :
  first_detected path (xs ++ [x]) =
    if first_detected path xs =? 0 then first_detected path [x] else first_detected path xs.
Proof.
  induction xs as [|y xs IH]; [done|]. destruct y as [id p|id p|m]; simpl; try apply IH.
  destruct (String.eqb _ _); [|apply IH].
  destruct (Z.eqb_spec (em_detected_endian m) 0) as [E|E]; cbn [negb andb]; [apply IH|].
  by apply Z.eqb_neq in E as ->.
Qed.

Lemma zero_or_self (z : Z) : (if z =? 0 then 0 else z) = z.
Proof. by destruct (Z.eqb_spec z 0). Qed.

Lemma active_after_app path xs x : active_after path (xs ++ [x]) = active_step path (active_after path xs) x.
Proof. unfold active_after. by rewrite foldl_app. Qed.

Lemma usage_of_set s p info q : usage_of (set_usage s p info) q = if decide (q = p) then info else usage_of s q.
Proof.
  unfold usage_of, set_usage. cbn. destruct (decide (q = p)) as [->|Hne].
  - by rewrite lookup_insert_eq.
  - by rewrite lookup_insert_ne.
Qed.

Definition finished_usage (info : PDEFUsageInfo) : PDEFUsageInfo :=
  mkUsage (active_capture_ids info) (detected_endian info) (writeback_needed info) true.

(** [try_writeback_pdef_endian] does nothing the table shows, or edits the
    file. *)
Lemma try_cases path s :
  path <> "" ->
  let s' := try_writeback_pdef_endian path s in let info := usage_of s path in
  (us_map s' = us_map s /\ us_writes s' = us_writes s /\
     (writeback_needed info = true -> writeback_done info = false -> active_capture_ids info = ∅ ->
      fst (writeback_endian_to_file path (detected_endian info) (us_fs s)) = false)) \/
  (writeback_needed info = true /\ writeback_done info = false /\ active_capture_ids info = ∅ /\
   us_map s' = <[path := finished_usage info]> (us_map s) /\
   us_writes s' = us_writes s ++ [(path, detected_endian info)]).
Proof.
  intros Hp. unfold try_writeback_pdef_endian, usage_of. destruct (is_empty_spec path); [done|].
  destruct (us_map s !! path) as [info|]; [|by left]. cbn [default]. unfold id.
  destruct (writeback_needed info) eqn:En; [|by left].
  destruct (writeback_done info) eqn:Ed; [by left|].
  cbn [negb orb]. case_bool_decide as Ha; [by left|].
  destruct (writeback_endian_to_file _ _ _) as [[] fs].
  - right. unfold finished_usage. by rewrite En.
  - by left.
Qed.

Lemma writes_to_app path s l p e :
  us_writes s = l ++ [(p, e)] ->
  writes_to path s = map snd (filter (fun w => w.1 = path) l) ++ (if decide (p = path) then [e] else []).
Proof.
  intros E. unfold writes_to. rewrite E, filter_app, map_app. f_equal. cbn.
  unfold filter, list_filter. by destruct (decide (p = path)).
Qed.

(** After [try_writeback_pdef_endian], seen from one path. *)
Lemma try_seen p path s :
  p <> "" ->
  let s' := try_writeback_pdef_endian p s in
  (usage_of s' path = usage_of s path /\ writes_to path s' = writes_to path s) \/
  (p = path /\ writeback_needed (usage_of s path) = true /\ writeback_done (usage_of s path) = false /\
   active_capture_ids (usage_of s path) = ∅ /\ usage_of s' path = finished_usage (usage_of s path) /\
   writes_to path s' = writes_to path s ++ [detected_endian (usage_of s path)]).
Proof.
  intros Hp s'. destruct (try_cases p s Hp) as [(Hm & Hw & _)|(Hn & Hd & Ha & Hm & Hw)].
  - left. fold s' in Hm, Hw. unfold usage_of, writes_to. by rewrite Hm, Hw.
  - fold s' in Hm, Hw. rewrite (writes_to_app path s' _ _ _ Hw).
    assert (Hu : usage_of s' path = default new_usage (us_map s' !! path)) by done. rewrite Hm in Hu. rewrite Hu.
    destruct (decide (p = path)) as [->|Hne].
    + right. rewrite lookup_insert_eq. done.
    + left. rewrite lookup_insert_ne by done. by rewrite app_nil_r.
Qed.

Lemma set_usage_seen p info path s :
  usage_of (set_usage s p info) path = (if String.eqb p path then info else usage_of s path) /\
  writes_to path (set_usage s p info) = writes_to path s.
Proof.
  split; [|done]. rewrite usage_of_set. destruct (String.eqb_spec p path), (decide (path = p)); congruence.
Qed.

Lemma track_end_seen id p path s :
  p <> "" ->
  usage_of (track_pdef_usage_end id p s) path = entry_mid path (usage_of s path) (FilteredArrived id p) /\
  writes_to path (track_pdef_usage_end id p s) = writes_to path s.
Proof.
  intros Hp. unfold track_pdef_usage_end, entry_mid. destruct (is_empty_spec p); [done|].
  destruct (us_map s !! p) as [info|] eqn:Ei.
  - destruct (set_usage_seen p (mkUsage (active_capture_ids info ∖ {[id]}) (detected_endian info)
      (writeback_needed info) (writeback_done info)) path s) as [-> ->]. split; [|done].
    destruct (String.eqb_spec p path) as [->|]; [|done]. unfold usage_of. by rewrite Ei.
  - split; [|done]. destruct (String.eqb_spec p path) as [->|]; [|done]. unfold usage_of. rewrite Ei. cbn.
    unfold new_usage. f_equal. apply set_eq. intros y. rewrite elem_of_difference. split; [|by intros []].
    intros H. by apply not_elem_of_empty in H.
Qed.

(** One step, seen from one path. *)
Lemma step_seen path s x :
  path <> "" ->
  let mid := entry_mid path (usage_of s path) x in
  (usage_of (run_step s x) path = mid /\ writes_to path (run_step s x) = writes_to path s) \/
  (writeback_needed mid = true /\ writeback_done mid = false /\ active_capture_ids mid = ∅ /\
   usage_of (run_step s x) path = finished_usage mid /\
   writes_to path (run_step s x) = writes_to path s ++ [detected_endian mid]).
Proof.
  intros Hpath mid. destruct x as [id p|id p|m]; cbn [run_step].
  - left. unfold track_pdef_usage_start, mid, entry_mid. destruct (is_empty_spec p) as [->|Hp].
    + destruct (String.eqb_spec "" path); [congruence|done].
    + destruct (set_usage_seen p (mkUsage ({[id]} ∪ active_capture_ids (usage_of s p)) (detected_endian (usage_of s p))
        (writeback_needed (usage_of s p)) (writeback_done (usage_of s p))) path s) as [-> ->].
      split; [|done]. by destruct (String.eqb_spec p path) as [->|].
  - destruct (decide (p = "")) as [->|Hp].
    + left. unfold mid, entry_mid. destruct (String.eqb_spec "" path); [congruence|]. done.
    + destruct (track_end_seen id p path s Hp) as [Hu Hw]. fold mid in Hu.
      destruct (try_seen p path (track_pdef_usage_end id p s) Hp) as [[H1 H2]|(-> & H1 & H2 & H3 & H4 & H5)];
        rewrite ?Hu, ?Hw in *; [by left|by right].
  - unfold handle_pdef_endian_detected, mid, entry_mid. set (p := em_pdef_file_path m).
    destruct (is_empty_spec p) as [Hp|Hp].
    { left. rewrite Hp. destruct (String.eqb_spec "" path); [congruence|done]. }
    set (info := usage_of s p).
    destruct (set_usage_seen p info path s) as [Hu0 Hw0].
    assert (Hu0' : usage_of (set_usage s p info) path = usage_of s path).
    { rewrite Hu0. by destruct (String.eqb_spec p path) as [<-|]. }
    destruct (writeback_done info) eqn:Ed.
    { left. rewrite Hu0', Hw0. split; [|done]. destruct (String.eqb_spec p path) as [<-|]; [|done].
      fold info. by rewrite Ed. }
    set (s1 := if detected_endian info =? 0 then _ else _).
    assert (Hs1 : usage_of s1 path = entry_mid path (usage_of s path) (Detected m) /\ writes_to path s1 = writes_to path s).
    { unfold s1, entry_mid. fold p. destruct (Z.eqb_spec (detected_endian info) 0) as [E0|E0].
      - match goal with |- context [set_usage (set_usage s p info) p ?i] => destruct (set_usage_seen p i path (set_usage s p info)) as [-> ->] end.
        split; [|done]. destruct (String.eqb_spec p path) as [<-|]; [|done]. fold info. rewrite Ed, E0. done.
      - split; [|done]. rewrite Hu0'. destruct (String.eqb_spec p path) as [<-|]; [|done]. fold info.
        apply Z.eqb_neq in E0 as ->. by rewrite andb_false_r. }
    destruct Hs1 as [Hu1 Hw1]. unfold entry_mid in Hu1. fold p in Hu1.
    destruct (try_seen p path s1 Hp) as [[H1 H2]|(-> & H1 & H2 & H3 & H4 & H5)];
      rewrite ?Hu1, ?Hw1 in *; [by left|by right].
Qed.

Lemma entry_mid_ok path xs x info ws :
  step_ok x -> entry_ok (active_after path xs) (first_detected path xs) info ws ->
  entry_ok (active_after path (xs ++ [x])) (first_detected path (xs ++ [x])) (entry_mid path info x) ws.
Proof.
  intros Hx (Ha & Hd & Hn & Hw & Hdn). rewrite active_after_app, first_detected_app.
  destruct x as [id p|id p|m]; simpl in Hx |- *.
  - rewrite zero_or_self.
    destruct (String.eqb p path); unfold entry_ok; cbn; by rewrite ?Ha.
  - rewrite zero_or_self.
    destruct (String.eqb p path); unfold entry_ok; cbn; by rewrite ?Ha.
  - rewrite Hd. destruct (Z.eqb_spec (first_detected path xs) 0) as [E|E].
    + assert (Hdone : writeback_done info = false) by (destruct (writeback_done info); [by destruct (Hdn eq_refl)|done]).
      rewrite Hdone. apply Z.eqb_neq in Hx. destruct (String.eqb _ path); cbn [andb negb].
      * rewrite Hx. cbn [negb]. unfold entry_ok. cbn. rewrite Hdone in *. rewrite Hx. done.
      * unfold entry_ok. rewrite Ha, Hd, Hn, Hw, ?E, Hdone. by split_and!.
    + rewrite andb_false_r. unfold entry_ok. rewrite Hn, Hd. apply Z.eqb_neq in E as ->. by split_and!.
Qed.

Lemma entry_ok_run path fs xs :
  path <> "" -> Forall step_ok xs ->
  let s := foldl run_step (mkState ∅ fs []) xs in
  entry_ok (active_after path xs) (first_detected path xs) (usage_of s path) (writes_to path s).
Proof.
  intros Hp. induction xs as [|x xs IH] using rev_ind; intros Hok; [done|].
  apply Forall_app in Hok as [Hxs Hx]. rewrite Forall_singleton in Hx. specialize (IH Hxs). cbn in *.
  rewrite foldl_app. cbn [foldl]. set (s := foldl run_step _ xs) in *.
  pose proof (entry_mid_ok path xs x _ _ Hx IH) as Hmid.
  destruct (step_seen path s x Hp) as [[-> ->]|(Hn & Hd & Ha & -> & ->)]; [done|].
  destruct Hmid as (Ha' & Hd' & Hn' & Hw' & _). unfold entry_ok, finished_usage. cbn.
  rewrite Hd in Hw'. rewrite Hw', Hd'. split; [done|]. split; [done|]. split; [done|]. split; [done|].
  intros _ E. rewrite Hn, E in Hn'. done.
Qed.
End UsageFacts.

(** ** Properties *)

(** Editing a PDEF file.  When the manager's edit succeeds, the first
    [endian] field of the new text has the detected order, everything else is
    the old text, and the edit can be repeated: a later order replaces the
    field as it would have in the original. *)
Theorem writeback_sets_field c d c' :
  Manager.new_content c d = Some c' ->
  endian_field c' = Some (String " " (endian_str d)) /\
  (exists A z, c' = A +:+ String "=" (String " " (endian_str d) +:+ String ";" z) /\
     ((exists u, c = A +:+ String "=" (u +:+ String ";" z)) \/
      (exists B rest, A = B +:+ "    endian " /\ z = String (ascii_of_nat 10) rest /\ c = B +:+ rest))) /\
  (forall d', Manager.new_content c' d' = Manager.new_content c d').
Proof.
  intros H. destruct (endian_str_short d) as [Hs Hl]. destruct (find_str "endian" c) as [ep|] eqn:Ee.
  - destruct (ManagerFacts.new_content_replaces c d c' ep Ee H) as (A & z & u & HA & -> & Hu & Hul & ->).
    split; [by apply (endian_field_at A ep)|]. split; [exists A, z; eauto|].
    intros d'. by rewrite !(ManagerFacts.new_content_field A ep).
  - destruct (ManagerFacts.new_content_inserts c d c' Ee H) as (B & rest & HA & -> & Hd).
    rewrite Hd in H. injection H as <-. rewrite <- str_app_assoc.
    split; [by eapply endian_field_at|]. split; [do 2 eexists; split; [done|]; right; by do 2 eexists|].
    intros d'. by rewrite (ManagerFacts.new_content_field _ _ _ _ d' HA Hs Hl), Hd, <- str_app_assoc.
Qed.

Lemma writeback_sets_field_witness :
  endian_field "@protocol { endian = big; }" = Some " big"%string /\
  Manager.new_content "@protocol { endian = big; }" 0 = Manager.new_content "@protocol { endian = little; }" 0.
Proof.
  destruct (writeback_sets_field "@protocol { endian = little; }" 1 "@protocol { endian = big; }") as (H1 & _ & H3);
    [reflexivity|]. split; [exact H1|apply H3].
Defined.

(** C20: when a definition is edited.  Whatever raw files, filtered files and
    detections the manager sees, in whatever order, each definition is edited
    at most once, with the first byte order reported for it, and only at a
    step after which no capture is using it; and the step that makes it idle
    edits it if an order is known and the file can be written. *)
Theorem writeback_once_when_idle fs xs path :
  path <> "" -> Forall step_ok xs ->
  let s := foldl Manager.run_step (Manager.mkState ∅ fs []) xs in
  (writes_to path s = [] \/ writes_to path s = [first_detected path xs]) /\
  (forall x, step_ok x -> writes_to path (Manager.run_step s x) <> writes_to path s ->
     active_after path (xs ++ [x]) = ∅) /\
  (forall id, active_after path (xs ++ [Manager.FilteredArrived id path]) = ∅ -> first_detected path xs <> 0 ->
     fst (Manager.writeback_endian_to_file path (first_detected path xs) (Manager.us_fs s)) = true ->
     writes_to path (Manager.run_step s (Manager.FilteredArrived id path)) = [first_detected path xs]).
Proof.
  intros Hp Hok s. pose proof (entry_ok_run path fs xs Hp Hok) as Hs. cbn in Hs. fold s in Hs.
  split; [|split].
  - destruct Hs as (_ & _ & _ & -> & _). destruct (Manager.writeback_done _); [by right|by left].
  - intros x Hx Hne. destruct (step_seen path s x Hp) as [[_ E]|(_ & _ & Ha & _)]; [done|].
    pose proof (entry_mid_ok path xs x _ _ Hx Hs) as (Ha' & _). congruence.
  - intros id Hidle Hfd Hwrite. pose proof (entry_mid_ok path xs (Manager.FilteredArrived id path) _ _ I Hs) as Hmid.
    cbn [Manager.run_step]. destruct (track_end_seen id path path s Hp) as [Hu Hw].
    set (s1 := Manager.track_pdef_usage_end id path s) in *.
    assert (Hfs : Manager.us_fs s1 = Manager.us_fs s).
    { unfold s1, Manager.track_pdef_usage_end. destruct (is_empty path); [done|]. by destruct (Manager.us_map s !! path). }
    rewrite <- Hu, Hidle in Hmid. destruct Hmid as (Ha & Hd & Hn & Hws & Hdn).
    rewrite first_detected_app in *. cbn [first_detected] in *. rewrite zero_or_self in *.
    destruct (Manager.writeback_done (Manager.usage_of s1 path)) eqn:Edone.
    + destruct (try_seen path path s1 Hp) as [[_ E]|(_ & _ & E & _)]; [|congruence]. by rewrite E, Hw.
    + destruct (try_cases path s1 Hp) as [(_ & _ & Hf)|(_ & _ & _ & _ & E)].
      * rewrite Hd, Hfs, Hwrite in Hf. apply Z.eqb_neq in Hfd. rewrite Hfd in Hn. by specialize (Hf Hn Edone Ha).
      * rewrite (writes_to_app path _ _ _ _ E). destruct (decide (path = path)); [|done].
        change (map snd (filter (fun w => w.1 = path) (Manager.us_writes s1))) with (writes_to path s1).
        by rewrite Hw, Hws, Hd.
Qed.

(** ** Edited files, parsed again *)

Definition endian_after (text : option string) : option EndianMode :=
  match text with
  | Some s => match pdef_parse s with Done d => Some (pd_endian_mode d) | _ => None end
  | None => None
  end.

Definition bare_source : string := "@protocol {
    name = demo;
}
T { uint16 x; }
@filter F { x = 258; }
".

(** The manager's edit fixes the byte order of the next parse, whether the
    field was there or not. *)
Example edit_parses_back :
  endian_after (Some bare_source) = Some ENDIAN_MODE_AUTO /\
  endian_after (Manager.new_content bare_source 1) = Some ENDIAN_MODE_BIG /\
  endian_after (Manager.new_content bare_source 2) = Some ENDIAN_MODE_LITTLE /\
  endian_after (Manager.new_content demo_source 2) = Some ENDIAN_MODE_LITTLE.
Proof. split; [|split; [|split]]; vm_compute; reflexivity. Qed.

(** A [@protocol] block on one line: the field goes after the block, and the
    definition no longer parses. *)
Example edit_leaves_block :
  let one_line := "@protocol { name = demo; }
T { uint16 x; }
" in
  endian_after (Some one_line) = Some ENDIAN_MODE_AUTO /\
  Manager.new_content one_line 1 <> None /\ endian_after (Manager.new_content one_line 1) = None.
Proof.
  split; [vm_compute; reflexivity|]. split; [vm_compute; congruence|vm_compute; reflexivity].
Qed.

(** The word in a comment is taken for the field: the edit fails or edits the
    comment. *)
Example edit_misled_by_comment :
  endian_after (Manager.new_content ("// endian = auto; "  +:+ String (ascii_of_nat 10) bare_source) 1) =
    Some ENDIAN_MODE_AUTO /\
  Manager.new_content ("// big endian device" +:+ String (ascii_of_nat 10) bare_source) 1 = None.
Proof. split; vm_compute; reflexivity. Qed.

(** The reload thread's edit has no [=] and a [#] comment: a definition that
    parsed is rejected afterwards. *)
Example reload_edit_breaks_file :
  endian_after (Some bare_source) = Some ENDIAN_MODE_AUTO /\
  Reload.new_content bare_source 1 "2024-01-01 00:00:00" <> None /\
  endian_after (Reload.new_content bare_source 1 "2024-01-01 00:00:00") = None.
Proof.
  split; [vm_compute; reflexivity|]. split; [vm_compute; congruence|vm_compute; reflexivity].
Qed.

Definition demo_steps : list Manager.step :=
  [ Manager.RawArrived 1 "p"; Manager.RawArrived 2 "p"; Manager.Detected (mkEndianMsg "p" 1 1);
    Manager.FilteredArrived 1 "p" ].

Lemma writeback_once_when_idle_witness :
  let fs := mkTextFs {[ "p"%string := bare_source ]} ∅ in
  let s := foldl Manager.run_step (Manager.mkState ∅ fs []) demo_steps in
  writes_to "p" s = [] /\ writes_to "p" (Manager.run_step s (Manager.FilteredArrived 2 "p")) = [1].
Proof.
  intros fs s. destruct (writeback_once_when_idle fs demo_steps "p") as (_ & _ & H); [done|by repeat constructor|].
  split; [vm_compute; reflexivity|]. apply (H 2); [|done|vm_compute; reflexivity].
  reflexivity.
Defined.
