(* ===== verification/TaskMgr.v ===== *)
(** * Task manager (src/src/rxsafetaskmgr.h)

    [CRxSafeTaskMgr] keeps tasks by pointer in two tables, one live and one
    scratch, changes a task by swapping in a modified copy, and defers the
    deletion of replaced tasks.  The model has the heap the pointers point
    into, so that reading a deleted task and deleting one twice are [Undef].
    The class has no lock, though several threads use it; here an operation is
    one step. *)

From S2P Require Import Prelude TaskTypes.

(** ** Data *)

Record TaskSnapshot := mkSnapshot {
  sn_capture_id : Z;
  sn_key : string;
  sn_signature : string;
  sn_sid : string;
  sn_status : ECaptureTaskStatus;
  sn_capture_mode : ECaptureMode;
  sn_iface : string;
  sn_proc_name : string;
  sn_target_pid : Z;
  sn_worker_thread_index : Z;
  sn_stop_requested : bool;
  sn_cancel_requested : bool;
  sn_filter : string;
  sn_port_filter : Z;
  sn_duration_sec : Z;
  sn_start_time : Z;
  sn_end_time : Z;
  sn_packet_count : Z;
  sn_bytes_captured : Z;
  sn_error_message : string;
  sn_client_ip : string;
  sn_request_user : string;
  sn_captured_files : list CaptureFileInfo;
  sn_archives : list CaptureArchiveInfo;
}.

Record TaskStats := mkStats {
  total_count : Z;
  pending_count : Z;
  resolving_count : Z;
  running_count : Z;
  completed_count : Z;
  failed_count : Z;
  stopped_count : Z;
}.

(** A pointer to a task is an address; [None] in a slot is the null pointer. *)
Abbreviation ptr := Z.
Abbreviation heap := (gmap Z SRxCaptureTask).

Record TaskTable := mkTable {
  slots : gmap Z (option ptr);
  key_to_id : gmap string Z;
  signature_to_id : gmap string Z;
  sid_to_id : gmap string Z;
}.

Definition deref (h : heap) (p : ptr) : outcome SRxCaptureTask :=
  match h !! p with Some t => Done t | None => Undef end.

Definition is_active_status (status : ECaptureTaskStatus) : bool :=
  match status with
  | STATUS_PENDING | STATUS_RESOLVING | STATUS_RUNNING => true
  | _ => false
  end.

(** ** [TaskTable] *)

Definition nonempty (s : string) : bool := negb (String.eqb s "").

(** The copy of the task's signature and sid into the object it points to. *)
Definition label_task (signature sid : string) (t : SRxCaptureTask) : SRxCaptureTask :=
  t <| t_signature := signature |> <| t_sid := sid |>.

Definition table_add_task (h : heap) (tbl : TaskTable) (capture_id : Z) (key signature sid : string)
    (task : ptr) : outcome (heap * TaskTable) :=
  t ← deref h task;
  let t' := label_task signature sid t in
  Done (<[task := t']> h,
        mkTable (<[capture_id := Some task]> (slots tbl)) (<[key := capture_id]> (key_to_id tbl))
          (if nonempty signature && is_active_status (t_status t')
           then <[signature := capture_id]> (signature_to_id tbl) else signature_to_id tbl)
          (if nonempty sid then <[sid := capture_id]> (sid_to_id tbl) else sid_to_id tbl)).

(** [find] the entry and [erase] it if it maps to [capture_id]. *)
Definition erase_if (idx : gmap string Z) (name : string) (capture_id : Z) : gmap string Z :=
  if nonempty name then
    match idx !! name with
    | Some id => if id =? capture_id then delete name idx else idx
    | None => idx
    end
  else idx.

Definition table_remove_task (h : heap) (tbl : TaskTable) (capture_id : Z)
    : outcome (TaskTable * option ptr) :=
  match slots tbl !! capture_id with
  | None => Done (tbl, None)
  | Some None =>
      Done (mkTable (delete capture_id (slots tbl)) (key_to_id tbl) (signature_to_id tbl) (sid_to_id tbl), None)
  | Some (Some p) =>
      old_task ← deref h p;
      Done (mkTable (delete capture_id (slots tbl)) (delete (t_key old_task) (key_to_id tbl))
              (erase_if (signature_to_id tbl) (t_signature old_task) capture_id)
              (erase_if (sid_to_id tbl) (t_sid old_task) capture_id), Some p)
  end.

Definition snapshot_of (t : SRxCaptureTask) : TaskSnapshot :=
  mkSnapshot (t_capture_id t) (t_key t) (t_signature t) (t_sid t) (t_status t) (t_capture_mode t)
    (t_iface t) (t_proc_name t) (t_target_pid t) (t_worker_thread_index t) (t_stop_requested t)
    (t_cancel_requested t) (t_filter t) (t_port_filter t) (t_duration_sec t) (t_start_time t)
    (t_end_time t) (t_packet_count t) (t_bytes_captured t) (t_error_message t) (t_client_ip t)
    (t_request_user t) (t_captured_files t) (t_archives t).

(** [None] is the result [false]. *)
Definition table_query_task (h : heap) (tbl : TaskTable) (capture_id : Z) : outcome (option TaskSnapshot) :=
  match slots tbl !! capture_id with
  | Some (Some p) => t ← deref h p; Done (Some (snapshot_of t))
  | _ => Done None
  end.

Definition table_query_by (h : heap) (tbl : TaskTable) (idx : gmap string Z) (name : string)
    : outcome (option TaskSnapshot) :=
  match idx !! name with
  | None => Done None
  | Some id => table_query_task h tbl id
  end.

(** ** [CRxSafeTaskMgr] *)

Record TaskMgr := mkMgr {
  tm_tables : TaskTable * TaskTable;
  tm_curr : Z;
  tm_stats : TaskStats;
  tm_pending_deletes : list ptr;
  tm_heap : heap;
  tm_next : ptr;            (* the next address [new] returns *)
}.

Definition empty_table : TaskTable := mkTable ∅ ∅ ∅ ∅.

Definition new_mgr : TaskMgr :=
  mkMgr (empty_table, empty_table) 0 (mkStats 0 0 0 0 0 0 0) [] ∅ 1.

Definition table_at (m : TaskMgr) (i : Z) : TaskTable :=
  if i =? 0 then fst (tm_tables m) else snd (tm_tables m).

Definition set_table (m : TaskMgr) (i : Z) (tbl : TaskTable) : TaskMgr :=
  m <| tm_tables := if i =? 0 then (tbl, snd (tm_tables m)) else (fst (tm_tables m), tbl) |>.

Definition curr_table (m : TaskMgr) : TaskTable := table_at m (tm_curr m).

(** The counter of a status plus [d], wrapping as a [size_t]. *)
Definition bump (d : Z) (s : TaskStats) (status : ECaptureTaskStatus) : TaskStats :=
  let s := s <| total_count := total_count s +64 d |> in
  match status with
  | STATUS_PENDING => s <| pending_count := pending_count s +64 d |>
  | STATUS_RESOLVING => s <| resolving_count := resolving_count s +64 d |>
  | STATUS_RUNNING => s <| running_count := running_count s +64 d |>
  | STATUS_COMPLETED => s <| completed_count := completed_count s +64 d |>
  | STATUS_FAILED => s <| failed_count := failed_count s +64 d |>
  | STATUS_STOPPED => s <| stopped_count := stopped_count s +64 d |>
  end.

Definition increment_status_count (m : TaskMgr) (status : ECaptureTaskStatus) : TaskMgr :=
  m <| tm_stats := bump 1 (tm_stats m) status |>.

Definition decrement_status_count (m : TaskMgr) (status : ECaptureTaskStatus) : TaskMgr :=
  m <| tm_stats := bump (-1) (tm_stats m) status |>.

Definition push_pending (m : TaskMgr) (p : ptr) : TaskMgr :=
  m <| tm_pending_deletes := tm_pending_deletes m ++ [p] |>.

(** [new SRxCaptureTask(t)] *)
Definition alloc (m : TaskMgr) (t : SRxCaptureTask) : TaskMgr * ptr :=
  (m <| tm_heap := <[tm_next m := t]> (tm_heap m) |> <| tm_next := tm_next m + 1 |>, tm_next m).

Definition query_task (m : TaskMgr) (id : Z) : outcome (option TaskSnapshot) :=
  table_query_task (tm_heap m) (curr_table m) id.

Definition query_task_by_key (m : TaskMgr) (key : string) : outcome (option TaskSnapshot) :=
  table_query_by (tm_heap m) (curr_table m) (key_to_id (curr_table m)) key.

Definition query_task_by_signature (m : TaskMgr) (signature : string) : outcome (option TaskSnapshot) :=
  table_query_by (tm_heap m) (curr_table m) (signature_to_id (curr_table m)) signature.

Definition query_task_by_sid (m : TaskMgr) (sid : string) : outcome (option TaskSnapshot) :=
  table_query_by (tm_heap m) (curr_table m) (sid_to_id (curr_table m)) sid.

Definition active_only (r : option TaskSnapshot) : option TaskSnapshot :=
  match r with
  | Some s => if is_active_status (sn_status s) then Some s else None
  | None => None
  end.

Definition query_active_task_by_signature (m : TaskMgr) (signature : string)
    : outcome (option TaskSnapshot) :=
  r ← query_task_by_signature m signature; Done (active_only r).

Definition query_active_task_by_sid (m : TaskMgr) (sid : string) : outcome (option TaskSnapshot) :=
  r ← query_task_by_sid m sid; Done (active_only r).

Definition is_some {A} (o : option A) : bool := match o with Some _ => true | None => false end.

Definition is_key_active (m : TaskMgr) (key : string) : outcome bool :=
  r ← query_task_by_key m key; Done (is_some (active_only r)).

Definition is_signature_active (m : TaskMgr) (signature : string) : outcome bool :=
  r ← query_task_by_signature m signature; Done (is_some (active_only r)).

Definition is_sid_active (m : TaskMgr) (sid : string) : outcome bool :=
  r ← query_task_by_sid m sid; Done (is_some (active_only r)).

Definition get_stats (m : TaskMgr) : TaskStats := tm_stats m.

(** *** Updates *)

(** [decrement_status_count(old->status); _pending_deletes.push_back(old);] *)
Definition retire (m : TaskMgr) (old : ptr) : outcome TaskMgr :=
  t ← deref (tm_heap m) old;
  Done (push_pending (decrement_status_count m (t_status t)) old).

(** The task stored under [capture_id] itself is taken out of the slot. *)
Definition displace (m : TaskMgr) (i capture_id : Z) : outcome TaskMgr :=
  let tbl := table_at m i in
  match slots tbl !! capture_id with
  | Some (Some old) =>
      retire (set_table m i (tbl <| slots := <[capture_id := None]> (slots tbl) |>)) old
  | _ => Done m
  end.

(** Another task that an index maps [name] to is removed. *)
Definition evict (m : TaskMgr) (i capture_id : Z) (idx : TaskTable -> gmap string Z) (name : string)
    : outcome TaskMgr :=
  match idx (table_at m i) !! name with
  | Some id =>
      if id =? capture_id then Done m
      else
        '(tbl, old) ← table_remove_task (tm_heap m) (table_at m i) id;
        let m := set_table m i tbl in
        match old with Some p => retire m p | None => Done m end
  | None => Done m
  end.

(** The evictions of [add_task], in its order. *)
Definition make_room (m : TaskMgr) (i id : Z) (key signature sid : string) : outcome TaskMgr :=
  m ← evict m i id key_to_id key;
  m ← (if nonempty signature then evict m i id signature_to_id signature else Done m);
  (if nonempty sid then evict m i id sid_to_id sid else Done m).

Definition add_task (m : TaskMgr) (capture_id : Z) (key signature sid : string) (task : option ptr)
    : outcome (bool * TaskMgr) :=
  match task with
  | None => Done (false, m)
  | Some p =>
      let idle := 1 - tm_curr m in
      let m := set_table m idle (curr_table m) in
      m ← displace m idle capture_id;
      m ← make_room m idle capture_id key signature sid;
      '(h, tbl) ← table_add_task (tm_heap m) (table_at m idle) capture_id key signature sid p;
      let m := set_table (m <| tm_heap := h |>) idle tbl in
      let m := m <| tm_curr := idle |> in
      t ← deref (tm_heap m) p;
      Done (true, increment_status_count m (t_status t))
  end.

Definition remove_task (m : TaskMgr) (capture_id : Z) : outcome TaskMgr :=
  let idle := 1 - tm_curr m in
  let m := set_table m idle (curr_table m) in
  '(tbl, old) ← table_remove_task (tm_heap m) (table_at m idle) capture_id;
  let m := (set_table m idle tbl) <| tm_curr := idle |> in
  match old with Some p => retire m p | None => Done m end.

(** The signature and sid indexes after a change of the task. *)
Definition reindex (tbl : TaskTable) (capture_id : Z) (t : SRxCaptureTask) : TaskTable :=
  mkTable (slots tbl) (key_to_id tbl)
    (if nonempty (t_signature t) then
       if is_active_status (t_status t) then <[t_signature t := capture_id]> (signature_to_id tbl)
       else erase_if (signature_to_id tbl) (t_signature t) capture_id
     else signature_to_id tbl)
    (if nonempty (t_sid t) then <[t_sid t := capture_id]> (sid_to_id tbl) else sid_to_id tbl).

(** The slot's pointer is exchanged for a pointer to [t]. *)
Definition exchange_slot (m : TaskMgr) (capture_id : Z) (t : SRxCaptureTask) : TaskMgr :=
  let '(m, new_ptr) := alloc m t in
  let tbl := reindex (curr_table m) capture_id t in
  set_table m (tm_curr m) (tbl <| slots := <[capture_id := Some new_ptr]> (slots tbl) |>).

Definition update_status (m : TaskMgr) (capture_id : Z) (new_status : ECaptureTaskStatus)
    : outcome (bool * TaskMgr) :=
  match slots (curr_table m) !! capture_id with
  | Some (Some old) =>
      t ← deref (tm_heap m) old;
      let m := exchange_slot m capture_id (t <| t_status := new_status |>) in
      let m := increment_status_count (decrement_status_count m (t_status t)) new_status in
      Done (true, push_pending m old)
  | _ => Done (false, m)
  end.

Definition update_task (m : TaskMgr) (capture_id : Z) (updater : SRxCaptureTask -> SRxCaptureTask)
    : outcome (bool * TaskMgr) :=
  match slots (curr_table m) !! capture_id with
  | Some (Some old) =>
      t ← deref (tm_heap m) old;
      let t' := updater t in
      let m := exchange_slot m capture_id t' in
      let m := if decide (t_status t = t_status t') then m
               else increment_status_count (decrement_status_count m (t_status t)) (t_status t') in
      Done (true, push_pending m old)
  | _ => Done (false, m)
  end.

(** [delete p]: the object must be allocated. *)
Fixpoint delete_all (h : heap) (ps : list ptr) : outcome heap :=
  match ps with
  | [] => Done h
  | p :: ps' => _ ← deref h p; delete_all (delete p h) ps'
  end.

Definition cleanup_pending_deletes (m : TaskMgr) : outcome TaskMgr :=
  h ← delete_all (tm_heap m) (tm_pending_deletes m);
  Done (m <| tm_heap := h |> <| tm_pending_deletes := [] |>).

Definition pending_delete_count (m : TaskMgr) : nat := length (tm_pending_deletes m).

(** The tasks of the current table, in no particular order, then the deferred
    ones. *)
Definition destroy (m : TaskMgr) : outcome heap :=
  h ← delete_all (tm_heap m) (omap snd (map_to_list (slots (curr_table m))));
  delete_all h (tm_pending_deletes m).

(** *** The updaters and the operations built on them *)

(** [static_cast<long>(ts_usec / 1000000)], zero if not positive. *)
Definition usec_to_sec (ts_usec : Z) : Z := if ts_usec <=? 0 then 0 else ts_usec / 1000000.

Definition TaskUpdaterStart (ts_usec capture_pid : Z) (output_file : string) (t : SRxCaptureTask)
    : SRxCaptureTask :=
  let t := t <| t_start_time := usec_to_sec ts_usec |> <| t_capture_pid := capture_pid |> in
  if nonempty output_file then t <| t_output_file := output_file |> else t.

Definition TaskUpdaterProgress (packets bytes ts_usec : Z) (t : SRxCaptureTask) : SRxCaptureTask :=
  let t := if 0 <? packets then t <| t_packet_count := packets |> else t in
  let t := if 0 <? bytes then t <| t_bytes_captured := bytes |> else t in
  if 0 <? ts_usec then t <| t_end_time := ts_usec / 1000000 |> else t.

Definition TaskUpdaterFinished (ts_usec packets bytes : Z) (final_path : string) (t : SRxCaptureTask)
    : SRxCaptureTask :=
  let t := t <| t_end_time := usec_to_sec ts_usec |> <| t_packet_count := packets |>
             <| t_bytes_captured := bytes |> in
  if nonempty final_path then t <| t_output_file := final_path |> else t.

(** [now] is [time(NULL)]. *)
Definition TaskUpdaterFailed (now : Z) (message : string) (t : SRxCaptureTask) : SRxCaptureTask :=
  t <| t_error_message := message |> <| t_end_time := now |>.

(** The first file with the path of [f] is replaced, or [f] is appended. *)
Fixpoint merge_file (f : CaptureFileInfo) (files : list CaptureFileInfo) : list CaptureFileInfo :=
  match files with
  | [] => [f]
  | g :: gs => if String.eqb (cf_file_path g) (cf_file_path f) then f :: gs else g :: merge_file f gs
  end.

Definition merge_files (files fs : list CaptureFileInfo) : list CaptureFileInfo :=
  foldl (fun acc f => merge_file f acc) files fs.

Definition TaskAppendFiles (files : list CaptureFileInfo) (t : SRxCaptureTask) : SRxCaptureTask :=
  t <| t_captured_files := merge_files (t_captured_files t) files |>.

Fixpoint merge_archive (a : CaptureArchiveInfo) (archives : list CaptureArchiveInfo)
    : list CaptureArchiveInfo :=
  match archives with
  | [] => [a]
  | b :: bs =>
      if String.eqb (ca_archive_path b) (ca_archive_path a) && nonempty (ca_archive_path a)
      then a :: bs else b :: merge_archive a bs
  end.

Definition TaskArchiveRecorder (archive : CaptureArchiveInfo) (t : SRxCaptureTask) : SRxCaptureTask :=
  t <| t_archives := merge_archive archive (t_archives t) |>
    <| t_captured_files := merge_files (t_captured_files t) (ca_files archive) |>.

(** [update_task] and, if it found the task, [update_status]. *)
Definition update_then_status (m : TaskMgr) (capture_id : Z) (u : SRxCaptureTask -> SRxCaptureTask)
    (status : ECaptureTaskStatus) : outcome (bool * TaskMgr) :=
  '(updated, m) ← update_task m capture_id u;
  if updated : bool then '(_, m) ← update_status m capture_id status; Done (true, m)
  else Done (false, m).

Definition set_capture_started (m : TaskMgr) (id start_ts_usec capture_pid : Z) (output_file : string) :=
  update_then_status m id (TaskUpdaterStart start_ts_usec capture_pid output_file) STATUS_RUNNING.

Definition append_capture_files (m : TaskMgr) (id : Z) (files : list CaptureFileInfo)
    : outcome (bool * TaskMgr) :=
  match files with
  | [] => Done (false, m)
  | _ => update_task m id (TaskAppendFiles files)
  end.

Definition record_archive (m : TaskMgr) (id : Z) (archive : CaptureArchiveInfo) :=
  update_task m id (TaskArchiveRecorder archive).

Definition update_progress (m : TaskMgr) (id packets bytes last_ts_usec : Z) :=
  update_task m id (TaskUpdaterProgress packets bytes last_ts_usec).

Definition set_capture_finished (m : TaskMgr) (id finish_ts_usec packets bytes : Z) (final_path : string) :=
  update_then_status m id (TaskUpdaterFinished finish_ts_usec packets bytes final_path) STATUS_COMPLETED.

Definition set_capture_failed (m : TaskMgr) (now id : Z) (error_message : string) :=
  update_then_status m id (TaskUpdaterFailed now error_message) STATUS_FAILED.

Definition demo_task (id : Z) (key : string) (st : ECaptureTaskStatus) : SRxCaptureTask :=
  new_task <| t_capture_id := id |> <| t_key := key |> <| t_status := st |>.

(** A client: allocate a task and add it. *)
Definition submit (m : TaskMgr) (id : Z) (key signature sid : string) : outcome (bool * TaskMgr) :=
  let '(m, p) := alloc m (demo_task id key STATUS_PENDING) in
  add_task m id key signature sid (Some p).

Example mgr_demo :
  ('(_, m) ← submit new_mgr 1 "k1" "sig" "s1";
   '(_, m) ← submit m 2 "k2" "" "s2";
   '(_, m) ← set_capture_started m 1 5000000 77 "out.pcap";
   '(_, m) ← submit m 3 "k3" "sig" "s3";
   a ← query_task_by_key m "k1";
   b ← query_active_task_by_signature m "sig";
   m ← cleanup_pending_deletes m;
   Done (option_map sn_capture_id a, option_map sn_capture_id b, get_stats m, tm_pending_deletes m,
         size (tm_heap m)))
  = Done (None, Some 3, mkStats 2 2 0 0 0 0 0, [], 2%nat).
Proof. vm_compute. reflexivity. Qed.
