(* ===== verification/TaskMgrCorrect.v ===== *)
(** * Correctness of the task manager

    The manager implements a finite map from capture ids to tasks ([view]):
    every operation is a simple map update, the three name indexes agree with
    the map, the counters count it, and the deferred deletion frees exactly
    the replaced objects, each once ([mgr_inv]). *)

From S2P Require Import Prelude TaskTypes TaskMgr.

(** ** The abstract state *)

Definition view (h : heap) (tbl : TaskTable) : gmap Z SRxCaptureTask :=
  omap (fun o => o ≫= fun p => h !! p) (slots tbl).

Definition tasks (m : TaskMgr) : gmap Z SRxCaptureTask := view (tm_heap m) (curr_table m).

Lemma lookup_view h tbl id t :
  view h tbl !! id = Some t <-> exists p, slots tbl !! id = Some (Some p) /\ h !! p = Some t.
Proof.
  unfold view. rewrite lookup_omap. destruct (slots tbl !! id) as [[p|]|]; simpl.
  - split; [by exists p|]. by intros (q & [= ->] & ?).
  - split; [done|]. by intros (q & [=] & ?).
  - split; [done|]. by intros (q & ? & ?).
Qed.

(** ** Counters *)

Definition stat (st : ECaptureTaskStatus) (s : TaskStats) : Z :=
  match st with
  | STATUS_PENDING => pending_count s
  | STATUS_RESOLVING => resolving_count s
  | STATUS_RUNNING => running_count s
  | STATUS_COMPLETED => completed_count s
  | STATUS_FAILED => failed_count s
  | STATUS_STOPPED => stopped_count s
  end.

Definition count (st : ECaptureTaskStatus) (v : gmap Z SRxCaptureTask) : Z :=
  Z.of_nat (size (filter (fun x => t_status x.2 = st) v)).

(** The counters of a map of tasks, as [size_t]s. *)
Definition stats_ok (s : TaskStats) (v : gmap Z SRxCaptureTask) : Prop :=
  total_count s = u64 (Z.of_nat (size v)) /\ forall st, stat st s = u64 (count st v).

Lemma u64_add a d : u64 a +64 d = u64 (a + d).
Proof. unfold u64. by rewrite Zplus_mod_idemp_l. Qed.

Lemma total_bump d s st : total_count (bump d s st) = total_count s +64 d.
Proof. by destruct s, st. Qed.

Lemma stat_bump d s st st' :
  stat st' (bump d s st) = if decide (st = st') then stat st' s +64 d else stat st' s.
Proof. by destruct s, st, st'. Qed.

Lemma count_insert v id t st :
  v !! id = None ->
  count st (<[id := t]> v) = count st v + (if decide (t_status t = st) then 1 else 0).
Proof.
  intros Hv. unfold count. case_decide as Hs.
  - rewrite map_filter_insert_True by done. rewrite map_size_insert_None; [lia|].
    apply map_lookup_filter_None. by left.
  - rewrite map_filter_insert_False by done. rewrite delete_id by done. lia.
Qed.

Lemma count_delete v id t st :
  v !! id = Some t ->
  count st (delete id v) = count st v - (if decide (t_status t = st) then 1 else 0).
Proof.
  intros Hv. rewrite <- (insert_delete_id v id t) at 2 by done.
  rewrite count_insert by apply lookup_delete_eq. case_decide; lia.
Qed.

Lemma stats_insert s v id t :
  stats_ok s v -> v !! id = None -> stats_ok (bump 1 s (t_status t)) (<[id := t]> v).
Proof.
  intros [Ht Hs] Hv. split.
  - rewrite total_bump, Ht, map_size_insert_None, u64_add by done. f_equal. lia.
  - intros st. rewrite stat_bump, count_insert by done. rewrite Hs. case_decide.
    + by rewrite u64_add.
    + by rewrite Z.add_0_r.
Qed.

Lemma stats_delete s v id t :
  stats_ok s v -> v !! id = Some t -> stats_ok (bump (-1) s (t_status t)) (delete id v).
Proof.
  intros [Ht Hs] Hv. split.
  - rewrite total_bump, Ht, u64_add. f_equal.
    rewrite map_size_delete_Some by (by exists t).
    assert (size v <> 0)%nat; [|lia]. intros E. apply map_size_empty_iff in E. by subst v.
  - intros st. rewrite stat_bump, (count_delete v id t) by done. rewrite Hs. case_decide.
    + by rewrite u64_add.
    + by rewrite Z.sub_0_r.
Qed.

(** Swapping in a task of another status. *)
Lemma stats_replace s v id t t' :
  stats_ok s v -> v !! id = Some t ->
  stats_ok (bump 1 (bump (-1) s (t_status t)) (t_status t')) (<[id := t']> v).
Proof.
  intros Hs Hv. rewrite <- insert_delete_eq.
  apply stats_insert; [by apply stats_delete|apply lookup_delete_eq].
Qed.

(** Swapping in a task of the same status. *)
Lemma stats_same s v id t t' :
  stats_ok s v -> v !! id = Some t -> t_status t = t_status t' -> stats_ok s (<[id := t']> v).
Proof.
  intros [Ht Hs] Hv E. split.
  - by rewrite map_size_insert_Some with (x := t').
  - intros st. rewrite Hs, <- insert_delete_eq, count_insert, (count_delete v id t), E by
      (done || apply lookup_delete_eq). f_equal. lia.
Qed.

(** ** The invariant *)

(** Slots point to allocated tasks, each to its own, and the indexes agree
    with the tasks: keys and sids exactly, signatures only with active tasks. *)
Record table_ok (h : heap) (tbl : TaskTable) : Prop := {
  slot_ok : forall id o, slots tbl !! id = Some o -> exists p t, o = Some p /\ h !! p = Some t;
  slot_inj : forall i j p, slots tbl !! i = Some (Some p) -> slots tbl !! j = Some (Some p) -> i = j;
  keys_ok : forall k id, key_to_id tbl !! k = Some id <->
    exists t, view h tbl !! id = Some t /\ t_key t = k;
  sids_ok : forall s id, sid_to_id tbl !! s = Some id <->
    s <> "" /\ exists t, view h tbl !! id = Some t /\ t_sid t = s;
  signatures_ok : forall g id, signature_to_id tbl !! g = Some id ->
    g <> "" /\ exists t, view h tbl !! id = Some t /\ t_signature t = g /\ is_active_status (t_status t) = true;
}.

Definition live (tbl : TaskTable) (p : ptr) : Prop := exists id, slots tbl !! id = Some (Some p).

(** Every object is owned once: by a slot of the table, by the list of
    deferred deletions, or by the caller ([loose]). *)
Record owned (m : TaskMgr) (tbl : TaskTable) (loose : option ptr) : Prop := {
  heap_owned : forall p, is_Some (tm_heap m !! p) <->
    live tbl p \/ p ∈ tm_pending_deletes m \/ loose = Some p;
  pending_once : NoDup (tm_pending_deletes m);
  pending_dead : forall p, p ∈ tm_pending_deletes m -> ~ live tbl p;
  loose_free : forall p, loose = Some p -> ~ live tbl p /\ p ∉ tm_pending_deletes m;
  heap_below : forall p, is_Some (tm_heap m !! p) -> p < tm_next m;
}.

(** The invariant with table [i] as the live one. *)
Record mgr_at (m : TaskMgr) (i : Z) (loose : option ptr) : Prop := {
  at_table : table_ok (tm_heap m) (table_at m i);
  at_owned : owned m (table_at m i) loose;
  at_stats : stats_ok (tm_stats m) (view (tm_heap m) (table_at m i));
}.

Definition mgr_inv (m : TaskMgr) : Prop :=
  (tm_curr m = 0 \/ tm_curr m = 1) /\ mgr_at m (tm_curr m) None.

Lemma live_view h tbl p : table_ok h tbl -> live tbl p -> exists id t, view h tbl !! id = Some t /\ h !! p = Some t.
Proof.
  intros Hok [id Hid]. destruct (slot_ok _ _ Hok id _ Hid) as (q & t & [= <-] & Ht).
  exists id, t. split; [|done]. apply lookup_view. by exists p.
Qed.

Lemma view_None h tbl id : table_ok h tbl -> view h tbl !! id = None <-> slots tbl !! id = None.
Proof.
  intros Hok. split.
  - intros Hv. destruct (slots tbl !! id) as [o|] eqn:E; [|done].
    destruct (slot_ok _ _ Hok id o E) as (p & t & -> & Ht).
    assert (view h tbl !! id = Some t) by (apply lookup_view; by exists p). congruence.
  - intros E. destruct (view h tbl !! id) as [t|] eqn:Ev; [|done].
    apply lookup_view in Ev as (p & ? & _). congruence.
Qed.

Lemma nonempty_true s : nonempty s = true <-> s <> ""%string.
Proof. unfold nonempty. rewrite negb_true_iff. apply String.eqb_neq. Qed.

Lemma nonempty_false s : nonempty s = false <-> s = ""%string.
Proof. unfold nonempty. rewrite negb_false_iff. apply String.eqb_eq. Qed.

(** [erase_if] removes exactly the mapping of [name] to [id]. *)
Lemma erase_if_lookup idx name id n j :
  (forall n j, idx !! n = Some j -> n <> ""%string) ->
  erase_if idx name id !! n = Some j <-> idx !! n = Some j /\ ~ (n = name /\ j = id).
Proof.
  intros Hidx. unfold erase_if. destruct (nonempty name) eqn:Hn.
  2:{ apply nonempty_false in Hn as ->. split; [|by intros [? _]]. intros H. split; [done|].
      intros [-> _]. by apply Hidx in H. }
  destruct (idx !! name) as [k|] eqn:E.
  - destruct (Z.eqb_spec k id) as [->|Hk].
    + rewrite lookup_delete_Some. split.
      * intros [H ?]. split; [done|]. by intros [-> _].
      * intros [H Hnot]. split; [|done]. intros <-. apply Hnot. split; [done|congruence].
    + split; [|by intros [? _]]. intros H. split; [done|]. intros [-> ->]. congruence.
  - split; [|by intros [? _]]. intros H. split; [done|]. intros [-> ->]. congruence.
Qed.

Lemma erase_if_sub idx name id : erase_if idx name id ⊆ idx.
Proof.
  unfold erase_if. destruct (nonempty name); [|done]. destruct (idx !! name) as [k|]; [|done].
  destruct (k =? id); [apply delete_subseteq|done].
Qed.

Lemma sids_nonempty h tbl s id : table_ok h tbl -> sid_to_id tbl !! s = Some id -> s <> ""%string.
Proof. intros Hok H. by apply (sids_ok _ _ Hok) in H as [? _]. Qed.

Lemma signatures_nonempty h tbl g id :
  table_ok h tbl -> signature_to_id tbl !! g = Some id -> g <> ""%string.
Proof. intros Hok H. by apply (signatures_ok _ _ Hok) in H as [? _]. Qed.

(** ** Removing a task from a table *)

(** The table after [table_remove_task] of a task [t]. *)
Definition without (tbl : TaskTable) (id : Z) (t : SRxCaptureTask) : TaskTable :=
  mkTable (delete id (slots tbl)) (delete (t_key t) (key_to_id tbl))
    (erase_if (signature_to_id tbl) (t_signature t) id) (erase_if (sid_to_id tbl) (t_sid t) id).

Lemma view_without h tbl id t : view h (without tbl id t) = delete id (view h tbl).
Proof. unfold view. simpl. by rewrite omap_delete. Qed.

Lemma table_remove_spec h tbl id t :
  view h tbl !! id = Some t ->
  exists p, slots tbl !! id = Some (Some p) /\ h !! p = Some t /\
    table_remove_task h tbl id = Done (without tbl id t, Some p).
Proof.
  intros Hv. apply lookup_view in Hv as (p & Hp & Ht). exists p. split; [done|split; [done|]].
  unfold table_remove_task, deref. by rewrite Hp, Ht.
Qed.

Lemma table_remove_none h tbl id :
  table_ok h tbl -> view h tbl !! id = None -> table_remove_task h tbl id = Done (tbl, None).
Proof. intros Hok Hv. apply view_None in Hv; [|done]. unfold table_remove_task. by rewrite Hv. Qed.

Lemma without_ok h tbl id t :
  table_ok h tbl -> view h tbl !! id = Some t -> table_ok h (without tbl id t).
Proof.
  intros Hok Hv. constructor; rewrite ?view_without; cbn [without slots key_to_id sid_to_id signature_to_id].
  - intros j o Hj. apply lookup_delete_Some in Hj as [_ Hj]. by eapply slot_ok.
  - intros i j q Hi Hj. apply lookup_delete_Some in Hi as [_ Hi], Hj as [_ Hj]. by eapply slot_inj.
  - intros k j. rewrite lookup_delete_Some, (keys_ok _ _ Hok). split.
    + intros (Hne & u & Hu & Hk). exists u. split; [|done].
      rewrite lookup_delete_ne; [done|]. intros <-. congruence.
    + intros (u & Hu & Hk). apply lookup_delete_Some in Hu as [Hne Hu]. split; [|by exists u].
      intros E. assert (H1 : key_to_id tbl !! k = Some id) by (apply (keys_ok _ _ Hok); exists t; split; congruence).
      assert (H2 : key_to_id tbl !! k = Some j) by (apply (keys_ok _ _ Hok); by exists u). congruence.
  - intros s j. rewrite erase_if_lookup by (intros ? ?; by apply sids_nonempty with (h := h)).
    rewrite (sids_ok _ _ Hok). split.
    + intros ((Hs & u & Hu & Hsu) & Hne). split; [done|]. exists u. split; [|done].
      rewrite lookup_delete_ne; [done|]. intros <-. apply Hne. split; congruence.
    + intros (Hs & u & Hu & Hsu). apply lookup_delete_Some in Hu as [Hid Hu].
      split; [split; [done|by exists u]|]. by intros [_ ->].
  - intros g j. rewrite erase_if_lookup by (intros ? ?; by apply signatures_nonempty with (h := h)).
    intros [Hg Hne]. apply (signatures_ok _ _ Hok) in Hg as (Hg & u & Hu & Hgu & Ha).
    split; [done|]. exists u. split; [|done].
    rewrite lookup_delete_ne; [done|]. intros <-. apply Hne. split; congruence.
Qed.

(** ** Evictions *)

Lemma table_at_set m i tbl : table_at (set_table m i tbl) i = tbl.
Proof. unfold table_at, set_table. destruct m, (i =? 0); done. Qed.

(** Pushing an object that just left the table on the deferred list. *)
Lemma owned_retire m tbl tbl' p x m' :
  owned m tbl x -> live tbl p -> (forall q, live tbl' q <-> live tbl q /\ q <> p) ->
  tm_heap m' = tm_heap m -> tm_next m' = tm_next m ->
  tm_pending_deletes m' = tm_pending_deletes m ++ [p] -> owned m' tbl' x.
Proof.
  intros [Ho Hn Hd Hl Hb] Hp Hq Hh Hx Hpd. constructor; rewrite ?Hh, ?Hpd, ?Hx; try done.
  - intros q. rewrite Ho, Hq, elem_of_app, list_elem_of_singleton.
    split.
    + intros [?|[?|?]]; [|auto|auto]. destruct (decide (q = p)); auto.
    + intros [[? _]|[[?| ->]|?]]; auto.
  - apply NoDup_app. split; [done|]. split; [|apply NoDup_singleton].
    intros q Hq1 Hq2. apply list_elem_of_singleton in Hq2 as ->. by apply (Hd p).
  - intros q. rewrite Hq, elem_of_app, list_elem_of_singleton.
    intros [?| ->] [? ?]; [by eapply Hd|done].
  - intros q Hxq. rewrite Hq, elem_of_app, list_elem_of_singleton. destruct (Hl q Hxq) as [H1 H2].
    split; [by intros [? _]|]. by intros [?| ->].
Qed.

Lemma live_without h tbl id t p q :
  table_ok h tbl -> slots tbl !! id = Some (Some p) ->
  live (without tbl id t) q <-> live tbl q /\ q <> p.
Proof.
  intros Hok Hp. unfold live. cbn [without slots]. split.
  - intros [j Hj]. apply lookup_delete_Some in Hj as [Hne Hj]. split; [by exists j|].
    intros ->. apply Hne. by eapply slot_inj.
  - intros [[j Hj] Hne]. exists j. apply lookup_delete_Some. split; [|done]. intros <-. congruence.
Qed.

Lemma retire_spec m i x id t :
  mgr_at m i x -> view (tm_heap m) (table_at m i) !! id = Some t ->
  exists p m', slots (table_at m i) !! id = Some (Some p) /\
    (let m1 := set_table m i (without (table_at m i) id t) in retire m1 p = Done m') /\
    mgr_at m' i x /\ tm_heap m' = tm_heap m /\ tm_curr m' = tm_curr m /\ tm_next m' = tm_next m /\
    table_at m' i = without (table_at m i) id t.
Proof.
  intros [Ht Ho Hs] Hv. pose proof (without_ok _ _ _ _ Ht Hv) as Hok'.
  pose proof (view_without (tm_heap m) (table_at m i) id t) as Hv'.
  pose proof Hv as Hp. apply lookup_view in Hp as (p & Hp & Hpt).
  set (tbl' := without (table_at m i) id t) in *. cbv zeta.
  set (m' := push_pending (decrement_status_count (set_table m i tbl') (t_status t)) p).
  assert (Eh : tm_heap m' = tm_heap m) by (by destruct m).
  assert (Et : table_at m' i = tbl').
  { transitivity (table_at (set_table m i tbl') i); [by destruct m|apply table_at_set]. }
  exists p, m'. split; [done|]. split.
  { unfold retire. replace (tm_heap (set_table m i tbl')) with (tm_heap m) by (by destruct m).
    unfold deref. by rewrite Hpt. }
  split; [|repeat split; try done; by destruct m].
  constructor; rewrite ?Et, ?Eh; [done| |].
  - eapply owned_retire; [exact Ho|by exists id|intros q; by apply (live_without (tm_heap m))|done|by destruct m|by destruct m].
  - rewrite Hv'. replace (tm_stats m') with (bump (-1) (tm_stats m) (t_status t)) by (by destruct m).
    by apply stats_delete.
Qed.

(** Indexes whose entries name tasks. *)
Definition index_sound (idx : TaskTable -> gmap string Z) : Prop :=
  forall h tbl, table_ok h tbl -> forall n id, idx tbl !! n = Some id -> is_Some (view h tbl !! id).

Lemma key_index : index_sound key_to_id.
Proof. intros h tbl Hok n id H. apply (keys_ok _ _ Hok) in H as (t & ? & _). by exists t. Qed.

Lemma signature_index : index_sound signature_to_id.
Proof. intros h tbl Hok n id H. apply (signatures_ok _ _ Hok) in H as (_ & t & ? & _). by exists t. Qed.

Lemma sid_index : index_sound sid_to_id.
Proof. intros h tbl Hok n id H. apply (sids_ok _ _ Hok) in H as (_ & t & ? & _). by exists t. Qed.

(** [m'] is [m] with some tasks other than [id] evicted from table [i]. *)
Record evicted (m m' : TaskMgr) (i : Z) (x : option ptr) : Prop := {
  ev_at : mgr_at m' i x;
  ev_heap : tm_heap m' = tm_heap m;
  ev_curr : tm_curr m' = tm_curr m;
  ev_next : tm_next m' = tm_next m;
  ev_sub : view (tm_heap m') (table_at m' i) ⊆ view (tm_heap m) (table_at m i);
  ev_signatures : signature_to_id (table_at m' i) ⊆ signature_to_id (table_at m i);
}.

Lemma evicted_refl m i x : mgr_at m i x -> evicted m m i x.
Proof. by constructor. Qed.

Lemma evicted_trans m1 m2 m3 i x : evicted m1 m2 i x -> evicted m2 m3 i x -> evicted m1 m3 i x.
Proof. intros [] []. constructor; [done|congruence|congruence|congruence|by etrans|by etrans]. Qed.

(** Only the task the index names goes, and nothing is left under that name. *)
Lemma evict_spec m i x id idx name :
  mgr_at m i x -> index_sound idx ->
  exists m', evict m i id idx name = Done m' /\ evicted m m' i x /\
    (forall j t, view (tm_heap m) (table_at m i) !! j = Some t ->
       view (tm_heap m') (table_at m' i) !! j = Some t \/ idx (table_at m i) !! name = Some j) /\
    (forall j, idx (table_at m i) !! name = Some j -> j <> id ->
       view (tm_heap m') (table_at m' i) !! j = None).
Proof.
  intros Hm Hidx. unfold evict. destruct (idx (table_at m i) !! name) as [j|] eqn:E.
  2:{ exists m. split; [done|]. split; [by apply evicted_refl|]. split; [by left|done]. }
  destruct (Z.eqb_spec j id) as [->|Hne].
  { exists m. split; [done|]. split; [by apply evicted_refl|]. split; [by left|congruence]. }
  destruct (Hidx _ _ (at_table _ _ _ Hm) name j E) as [t Ht].
  destruct (table_remove_spec _ _ _ _ Ht) as (p & Hp & _ & ->). rewrite outcome_bind_done. cbv zeta.
  destruct (retire_spec m i x j t Hm Ht) as (q & m' & Hq & Hret & Hm' & Hh & Hc & Hn & Htbl).
  rewrite Hp in Hq. apply (inj Some) in Hq. injection Hq as <-. exists m'. split; [exact Hret|].
  rewrite Hh, Htbl, view_without. split; [|split].
  - constructor; try done; rewrite ?Hh, Htbl; [rewrite view_without; apply delete_subseteq|apply erase_if_sub].
  - intros k u Hk. destruct (decide (k = j)) as [->|]; [by right|]. left. by rewrite lookup_delete_ne.
  - intros k [= <-] _. apply lookup_delete_eq.
Qed.

(** ** Adding a task *)

Definition added (tbl : TaskTable) (id : Z) (p : ptr) (t : SRxCaptureTask) : TaskTable :=
  mkTable (<[id := Some p]> (slots tbl)) (<[t_key t := id]> (key_to_id tbl))
    (if nonempty (t_signature t) && is_active_status (t_status t)
     then <[t_signature t := id]> (signature_to_id tbl) else signature_to_id tbl)
    (if nonempty (t_sid t) then <[t_sid t := id]> (sid_to_id tbl) else sid_to_id tbl).

Lemma view_added h tbl id p t :
  ~ live tbl p -> view (<[p := t]> h) (added tbl id p t) = <[id := t]> (view h tbl).
Proof.
  intros Hp. apply map_eq. intros j. unfold view at 1. rewrite lookup_omap. cbn [added slots].
  destruct (decide (j = id)) as [->|Hj].
  - rewrite !lookup_insert_eq. simpl. by rewrite lookup_insert_eq.
  - rewrite !lookup_insert_ne by done. unfold view. rewrite lookup_omap.
    destruct (slots tbl !! j) as [[q|]|] eqn:E; simpl; [|done|done].
    rewrite lookup_insert_ne; [done|]. intros <-. apply Hp. by exists j.
Qed.

(** Nothing but [id] goes by the key or sid of [t]. *)
Definition names_free (v : gmap Z SRxCaptureTask) (t : SRxCaptureTask) : Prop :=
  forall j u, v !! j = Some u -> t_key u <> t_key t /\ (t_sid t <> "" -> t_sid u <> t_sid t).

Lemma added_ok h tbl id p t :
  table_ok h tbl -> view h tbl !! id = None -> ~ live tbl p -> names_free (view h tbl) t ->
  table_ok (<[p := t]> h) (added tbl id p t).
Proof.
  intros Hok Hid Hp Hfree. constructor; rewrite ?view_added by done;
    cbn [added slots key_to_id sid_to_id signature_to_id].
  - intros j o Hj. destruct (decide (j = id)) as [->|Hne].
    + rewrite lookup_insert_eq in Hj. injection Hj as <-. exists p, t. by rewrite lookup_insert_eq.
    + rewrite lookup_insert_ne in Hj by done. destruct (slot_ok _ _ Hok j o Hj) as (q & u & -> & Hu).
      exists q, u. split; [done|]. rewrite lookup_insert_ne; [done|]. intros <-. apply Hp. by exists j.
  - intros i j q Hi Hj. apply lookup_insert_Some in Hi as [[<- [= <-]]|[Hi1 Hi]];
      apply lookup_insert_Some in Hj as [[<- Hj]|[Hj1 Hj]]; try done.
    + exfalso. apply Hp. by exists j.
    + injection Hj as <-. exfalso. apply Hp. by exists i.
    + by eapply slot_inj.
  - intros k j. rewrite lookup_insert_Some, (keys_ok _ _ Hok). split.
    + intros [[<- <-]|[Hk (u & Hu & Huk)]]; [exists t; by rewrite lookup_insert_eq|].
      exists u. split; [|done]. rewrite lookup_insert_ne; [done|]. intros <-. congruence.
    + intros (u & Hu & Huk). apply lookup_insert_Some in Hu as [[<- <-]|[Hne Hu]]; [by left|].
      right. split; [|by exists u]. destruct (Hfree j u Hu) as [Hk _]. congruence.
  - intros s j. destruct (nonempty (t_sid t)) eqn:Hs.
    + apply nonempty_true in Hs. rewrite lookup_insert_Some, (sids_ok _ _ Hok). split.
      * intros [[<- <-]|[Hk (Hs' & u & Hu & Huk)]]; (split; [done|]); [exists t; by rewrite lookup_insert_eq|].
        exists u. split; [|done]. rewrite lookup_insert_ne; [done|]. intros <-. congruence.
      * intros (Hs' & u & Hu & Huk). apply lookup_insert_Some in Hu as [[<- <-]|[Hne Hu]]; [by left|].
        right. split; [|split; [done|by exists u]]. destruct (Hfree j u Hu) as [_ Hk]. specialize (Hk Hs). congruence.
    + apply nonempty_false in Hs. rewrite (sids_ok _ _ Hok). split.
      * intros (Hs' & u & Hu & Huk). split; [done|]. exists u. split; [|done].
        rewrite lookup_insert_ne; [done|]. intros <-. congruence.
      * intros (Hs' & u & Hu & Huk). split; [done|].
        apply lookup_insert_Some in Hu as [[<- <-]|[Hne Hu]]; [congruence|by exists u].
  - intros g j Hg. destruct (nonempty (t_signature t) && is_active_status (t_status t)) eqn:Ha.
    + zbool. destruct Ha as [Hne Ha]. apply nonempty_true in Hne.
      apply lookup_insert_Some in Hg as [[<- <-]|[Hgne Hg]].
      * split; [done|]. exists t. by rewrite lookup_insert_eq.
      * apply (signatures_ok _ _ Hok) in Hg as (? & u & Hu & Hug & Hua). split; [done|]. exists u.
        split; [|done]. rewrite lookup_insert_ne; [done|]. intros <-. congruence.
    + apply (signatures_ok _ _ Hok) in Hg as (? & u & Hu & Hug & Hua). split; [done|]. exists u.
      split; [|done]. rewrite lookup_insert_ne; [done|]. intros <-. congruence.
Qed.

Lemma live_added tbl id p t q :
  slots tbl !! id = None -> live (added tbl id p t) q <-> live tbl q \/ q = p.
Proof.
  intros Hid. unfold live. cbn [added slots]. split.
  - intros [j Hj]. apply lookup_insert_Some in Hj as [[_ [= ->]]|[_ Hj]]; [by right|left; by exists j].
  - intros [[j Hj]| ->]; [exists j; rewrite lookup_insert_ne; congruence|].
    exists id. by rewrite lookup_insert_eq.
Qed.

(** The caller's object becomes the table's. *)
Lemma owned_add m tbl id p t m' :
  owned m tbl (Some p) -> slots tbl !! id = None -> is_Some (tm_heap m !! p) ->
  tm_heap m' = <[p := t]> (tm_heap m) -> tm_next m' = tm_next m ->
  tm_pending_deletes m' = tm_pending_deletes m -> owned m' (added tbl id p t) None.
Proof.
  intros [Ho Hn Hd Hl Hb] Hid Hp Hh Hx Hpd. destruct (Hl p eq_refl) as [Hp1 Hp2].
  assert (Hdom : forall q, is_Some (tm_heap m' !! q) <-> is_Some (tm_heap m !! q)).
  { intros q. rewrite Hh. destruct (decide (q = p)) as [->|].
    - rewrite lookup_insert_eq. split; [done|by eexists].
    - by rewrite lookup_insert_ne. }
  constructor; rewrite ?Hpd, ?Hx; try done.
  - intros q. rewrite Hdom, Ho, (live_added tbl id p t q Hid). split.
    + intros [?|[?|[= ->]]]; auto.
    + intros [[?| ->]|[?|[=]]]; auto.
  - intros q Hq. rewrite (live_added tbl id p t q Hid). intros [?| ->]; [by eapply Hd|done].
  - intros q. rewrite Hdom. apply Hb.
Qed.

(** What the task [u] under [j] loses its place for: its key, its signature if
    the index [signatures] has it there, or its sid. *)
Definition clashes (signatures : gmap string Z) (j : Z) (u : SRxCaptureTask) (key signature sid : string) : Prop :=
  t_key u = key \/
  (signature <> "" /\ signatures !! signature = Some j /\ t_signature u = signature /\
   is_active_status (t_status u) = true) \/
  (sid <> "" /\ t_sid u = sid).

Lemma evict_if_spec (b : bool) m i x id idx name :
  mgr_at m i x -> index_sound idx ->
  exists m', (if b then evict m i id idx name else Done m) = Done m' /\ evicted m m' i x /\
    (forall j t, view (tm_heap m) (table_at m i) !! j = Some t ->
       view (tm_heap m') (table_at m' i) !! j = Some t \/
       b = true /\ idx (table_at m i) !! name = Some j) /\
    (b = true -> forall j, idx (table_at m i) !! name = Some j -> j <> id ->
       view (tm_heap m') (table_at m' i) !! j = None).
Proof.
  intros Hm Hidx. destruct b.
  - destruct (evict_spec m i x id idx name Hm Hidx) as (m' & ? & ? & H1 & H2).
    exists m'. split; [done|split; [done|split; [|by intros _]]].
    intros j t Hj. destruct (H1 j t Hj); auto.
  - exists m. split; [done|]. split; [by apply evicted_refl|]. split; [by left|done].
Qed.

Lemma sub_lookup `{Countable K} {A} {m m' : gmap K A} {j u} : m' ⊆ m -> m' !! j = Some u -> m !! j = Some u.
Proof. intros Hs Hj. by eapply lookup_weaken. Qed.

Lemma make_room_spec m i x id key signature sid :
  mgr_at m i x -> view (tm_heap m) (table_at m i) !! id = None ->
  exists m', make_room m i id key signature sid = Done m' /\ evicted m m' i x /\
    (forall j u, view (tm_heap m') (table_at m' i) !! j = Some u ->
       t_key u <> key /\ (sid <> "" -> t_sid u <> sid)) /\
    (forall j u, view (tm_heap m) (table_at m i) !! j = Some u ->
       view (tm_heap m') (table_at m' i) !! j = Some u \/
       clashes (signature_to_id (table_at m i)) j u key signature sid).
Proof.
  intros Hm Hid. unfold make_room.
  destruct (evict_spec m i x id key_to_id key Hm key_index) as (m1 & -> & E1 & K1 & N1).
  rewrite outcome_bind_done.
  destruct (evict_if_spec (nonempty signature) m1 i x id signature_to_id signature
    (ev_at _ _ _ _ E1) signature_index) as (m2 & -> & E2 & K2 & N2).
  rewrite outcome_bind_done.
  destruct (evict_if_spec (nonempty sid) m2 i x id sid_to_id sid
    (ev_at _ _ _ _ E2) sid_index) as (m3 & E3' & E3 & K3 & N3).
  exists m3. split; [exact E3'|]. split; [by do 2 (eapply evicted_trans; [eassumption|])|].
  pose proof (ev_sub _ _ _ _ E1) as S1. pose proof (ev_sub _ _ _ _ E2) as S2.
  pose proof (ev_sub _ _ _ _ E3) as S3. split.
  - intros j u Hj. pose proof (sub_lookup S3 Hj) as Hj2. pose proof (sub_lookup S2 Hj2) as Hj1.
    pose proof (sub_lookup S1 Hj1) as Hj0.
    assert (Hne : j <> id) by (intros ->; congruence). split.
    + intros Hk. rewrite (N1 j) in Hj1; [done| |done].
      apply (keys_ok _ _ (at_table _ _ _ Hm)). by exists u.
    + intros Hs Hsu. rewrite (N3 (proj2 (nonempty_true sid) Hs) j) in Hj; [done| |done].
      apply (sids_ok _ _ (at_table _ _ _ (ev_at _ _ _ _ E2))). split; [done|by exists u].
  - intros j u Hj. destruct (K1 j u Hj) as [Hj1|Hk].
    2:{ right. left. apply (keys_ok _ _ (at_table _ _ _ Hm)) in Hk as (u' & Hu' & ?). congruence. }
    destruct (K2 j u Hj1) as [Hj2|[Hg Hk]].
    2:{ right. right. left. pose proof (sub_lookup (ev_signatures _ _ _ _ E1) Hk) as Hk0.
        apply (signatures_ok _ _ (at_table _ _ _ (ev_at _ _ _ _ E1))) in Hk as (? & u' & Hu' & ? & ?).
        split; [done|]. split; [done|]. split; congruence. }
    destruct (K3 j u Hj2) as [Hj3|[Hg Hk]]; [by left|].
    right. right. right. apply (sids_ok _ _ (at_table _ _ _ (ev_at _ _ _ _ E2)))
      in Hk as (? & u' & Hu' & ?). split; [done|]. congruence.
Qed.

(** Copying the live table to the idle one. *)
Lemma copy_table_at m x :
  mgr_at m (tm_curr m) x -> tm_curr m = 0 \/ tm_curr m = 1 ->
  let m1 := set_table m (1 - tm_curr m) (curr_table m) in
  mgr_at m1 (1 - tm_curr m) x /\ table_at m1 (1 - tm_curr m) = curr_table m /\
  tm_heap m1 = tm_heap m /\ tm_curr m1 = tm_curr m /\ tm_next m1 = tm_next m.
Proof.
  intros Hm Hc. cbv zeta. pose proof (table_at_set m (1 - tm_curr m) (curr_table m)) as Et.
  set (m1 := set_table m _ _) in *.
  assert (Eh : tm_heap m1 = tm_heap m) by (by destruct m).
  split; [|repeat split; try done; by destruct m].
  destruct Hm as [Ht [Ho Hn Hd Hl Hb] Hs]. constructor; rewrite ?Et, ?Eh; [done| |by destruct m].
  constructor; rewrite ?Eh; destruct m; done.
Qed.

Lemma displace_fresh m i id : slots (table_at m i) !! id = None -> displace m i id = Done m.
Proof. intros H. unfold displace. by rewrite H. Qed.

(** A task offered to [add_task]: allocated, owned by the caller, its key as
    announced, under an id not in use. *)
Record offered (m : TaskMgr) (id : Z) (key : string) (p : ptr) (t : SRxCaptureTask) : Prop := {
  of_curr : tm_curr m = 0 \/ tm_curr m = 1;
  of_inv : mgr_at m (tm_curr m) (Some p);
  of_heap : tm_heap m !! p = Some t;
  of_key : t_key t = key;
  of_id : tasks m !! id = None;
}.

(** The state [add_task] ends in, from the state [m] after the evictions. *)
Definition installed (m : TaskMgr) (i id : Z) (p : ptr) (t : SRxCaptureTask) : TaskMgr :=
  increment_status_count
    ((set_table (m <| tm_heap := <[p := t]> (tm_heap m) |>) i (added (table_at m i) id p t))
       <| tm_curr := i |>) (t_status t).

Lemma installed_inv m i id p t :
  i = 0 \/ i = 1 -> mgr_at m i (Some p) -> is_Some (tm_heap m !! p) ->
  view (tm_heap m) (table_at m i) !! id = None -> names_free (view (tm_heap m) (table_at m i)) t ->
  mgr_inv (installed m i id p t) /\
  tasks (installed m i id p t) = <[id := t]> (view (tm_heap m) (table_at m i)).
Proof.
  intros Hi [Ht Ho Hs] Hp Hid Hfree. destruct (loose_free _ _ _ Ho p eq_refl) as [Hlive _].
  set (tbl := table_at m i) in *. set (m' := installed m i id p t).
  assert (Eh : tm_heap m' = <[p := t]> (tm_heap m)) by (by destruct m).
  assert (Ec : tm_curr m' = i) by (by destruct m).
  assert (Et : table_at m' i = added tbl id p t).
  { transitivity (table_at (set_table m i (added tbl id p t)) i); [by destruct m|apply table_at_set]. }
  pose proof (view_added (tm_heap m) tbl id p t Hlive) as Hv.
  unfold mgr_inv, tasks, curr_table. rewrite Ec, Et, Eh. split; [|done]. split; [done|].
  constructor; rewrite ?Et, ?Eh, ?Hv.
  - by apply added_ok.
  - apply (owned_add m tbl id p t); try done; try (by destruct m). by apply (view_None (tm_heap m)).
  - replace (tm_stats m') with (bump 1 (tm_stats m) (t_status t)) by (by destruct m).
    by apply stats_insert.
Qed.

Lemma add_task_ok m id key signature sid p t :
  offered m id key p t ->
  let t' := label_task signature sid t in
  exists m', add_task m id key signature sid (Some p) = Done (true, m') /\ mgr_inv m' /\
    tasks m' !! id = Some t' /\
    (forall j u, j <> id -> tasks m' !! j = Some u ->
       tasks m !! j = Some u /\ t_key u <> key /\ (sid <> "" -> t_sid u <> sid)) /\
    (forall j u, tasks m !! j = Some u ->
       tasks m' !! j = Some u \/ clashes (signature_to_id (curr_table m)) j u key signature sid).
Proof.
  intros [Hc Hm Hp Hk Hid]. cbv zeta. unfold tasks, curr_table in Hid.
  destruct (copy_table_at m _ Hm Hc) as (Hm1 & Et1 & Eh1 & Ec1 & En1).
  unfold add_task. set (i := 1 - tm_curr m) in *. set (m1 := set_table m i _) in *.
  assert (Ev0 : view (tm_heap m1) (table_at m1 i) = tasks m) by (by rewrite Eh1, Et1).
  rewrite displace_fresh, outcome_bind_done.
  2:{ apply (view_None (tm_heap m1)); [apply Hm1|by rewrite Ev0]. }
  destruct (make_room_spec m1 _ _ id key signature sid Hm1 ltac:(by rewrite Ev0))
    as (m2 & E2 & [Hm2 Eh2 Ec2 En2 Hsub _] & Hfree & Hkeep).
  rewrite E2, outcome_bind_done, Ev0 in *. set (t' := label_task signature sid t).
  assert (Hp2 : tm_heap m2 !! p = Some t) by (by rewrite Eh2, Eh1).
  assert (Et' : t_key t' = key /\ t_signature t' = signature /\ t_sid t' = sid) by (by subst t'; destruct t).
  destruct Et' as (Ek & Eg & Es).
  assert (Hid2 : view (tm_heap m2) (table_at m2 i) !! id = None) by (by eapply lookup_weaken_None).
  destruct (installed_inv m2 i id p t') as [Hinv Hv]; [lia|done|by exists t|done| |].
  { intros j u Hj. rewrite Ek, Es. by apply (Hfree j). }
  exists (installed m2 i id p t'). rewrite Hv. split; [|split; [done|split; [apply lookup_insert_eq|split]]].
  - unfold table_add_task. replace (deref (tm_heap m2) p) with (Done t) by (unfold deref; by rewrite Hp2).
    rewrite outcome_bind_done. cbv zeta. fold t'.
    rewrite outcome_bind_done.
    match goal with |- context [deref (tm_heap ?x) p] =>
      replace (tm_heap x) with (<[p := t']> (tm_heap m2)) by (by destruct m2) end.
    unfold deref. rewrite lookup_insert_eq, outcome_bind_done.
    unfold installed, added. by rewrite Ek, Eg, Es.
  - intros j u Hj Hu. rewrite lookup_insert_ne in Hu by done. split; [by eapply lookup_weaken|].
    by apply (Hfree j).
  - intros j u Hj. destruct (decide (j = id)) as [->|Hne]; [unfold tasks, curr_table in Hj; congruence|].
    rewrite lookup_insert_ne by done. rewrite <- Et1. auto.
Qed.

(** ** Removing a task *)

Lemma remove_task_ok m id :
  mgr_inv m ->
  exists m', remove_task m id = Done m' /\ mgr_inv m' /\ tasks m' = delete id (tasks m).
Proof.
  intros [Hc Hm]. destruct (copy_table_at m _ Hm Hc) as (Hm1 & Et1 & Eh1 & Ec1 & En1).
  unfold remove_task. set (i := 1 - tm_curr m) in *. set (m1 := set_table m i _) in *. cbv zeta.
  set (mc := m1 <| tm_curr := i |>).
  assert (Hmc : mgr_at mc i None) by (destruct Hm1 as [? [] ?]; subst mc; destruct m1; constructor; done).
  assert (Ecur : tm_curr mc = i) by (by destruct m1).
  assert (Etab : table_at mc i = table_at m1 i) by (by destruct m1).
  assert (Ehc : tm_heap mc = tm_heap m1) by (by destruct m1).
  assert (Ev : view (tm_heap mc) (table_at mc i) = tasks m) by (by rewrite Etab, Ehc, Et1, Eh1).
  assert (Eset : forall t, (set_table m1 i t) <| tm_curr := i |> = set_table mc i t)
    by (intros; by destruct m1).
  rewrite <- Etab, <- Ehc. destruct (tasks m !! id) as [t|] eqn:Hid.
  - destruct (table_remove_spec (tm_heap mc) (table_at mc i) id t) as (p & Hp & _ & ->); [by rewrite Ev|].
    rewrite outcome_bind_done, Eset.
    destruct (retire_spec mc i None id t Hmc) as (q & m' & Hq & Hret & Hm' & Hh & Hcu & _ & Htb);
      [by rewrite Ev|].
    rewrite Hp in Hq. injection Hq as <-. cbv zeta in Hret. exists m'. split; [done|].
    unfold mgr_inv, tasks, curr_table. rewrite Hcu, Ecur, Htb, Hh, view_without, Ev.
    split; [|done]. split; [lia|done].
  - rewrite (table_remove_none _ _ _ (at_table _ _ _ Hmc)) by (by rewrite Ev).
    rewrite outcome_bind_done, Eset. eexists. split; [done|].
    assert (Es : set_table mc i (table_at mc i) = mc).
    { unfold set_table, table_at. destruct m1 as [[a b] c s pd h n]; simpl. by destruct (i =? 0). }
    rewrite Es. unfold mgr_inv, tasks, curr_table. rewrite Ecur, Ev. split; [split; [lia|done]|].
    by rewrite delete_id.
Qed.

(** ** Changing a task *)

(** The changed task keeps its id and the names the indexes know it by. *)
Definition same_names (t t' : SRxCaptureTask) : Prop :=
  t_key t' = t_key t /\ t_signature t' = t_signature t /\ t_sid t' = t_sid t /\ t_capture_id t' = t_capture_id t.

Definition swapped (tbl : TaskTable) (id : Z) (q : ptr) (t : SRxCaptureTask) : TaskTable :=
  (reindex tbl id t) <| slots := <[id := Some q]> (slots tbl) |>.

Lemma view_swapped h tbl id q t :
  table_ok h tbl -> h !! q = None -> view (<[q := t]> h) (swapped tbl id q t) = <[id := t]> (view h tbl).
Proof.
  intros Hok Hq. apply map_eq. intros j. unfold view at 1. rewrite lookup_omap.
  change (slots (swapped tbl id q t)) with (<[id := Some q]> (slots tbl)).
  destruct (decide (j = id)) as [->|Hj].
  - rewrite !lookup_insert_eq. simpl. by rewrite lookup_insert_eq.
  - rewrite !lookup_insert_ne by done. unfold view. rewrite lookup_omap.
    destruct (slots tbl !! j) as [[r|]|] eqn:E; simpl; [|done|done].
    rewrite lookup_insert_ne; [done|]. intros <-.
    destruct (slot_ok _ _ Hok j _ E) as (p & u & [= <-] & Hu). congruence.
Qed.

Lemma swapped_ok h tbl id q t t' :
  table_ok h tbl -> h !! q = None -> view h tbl !! id = Some t -> same_names t t' ->
  table_ok (<[q := t']> h) (swapped tbl id q t').
Proof.
  intros Hok Hq Hid (Ek & Eg & Es & _).
  assert (Hnl : forall j, slots tbl !! j <> Some (Some q)).
  { intros j Hj. destruct (slot_ok _ _ Hok j _ Hj) as (p & u & [= <-] & Hu). congruence. }
  assert (Hnames : forall (f : SRxCaptureTask -> string), f t' = f t -> forall n j,
    (exists u, <[id := t']> (view h tbl) !! j = Some u /\ f u = n) <->
    (exists u, view h tbl !! j = Some u /\ f u = n)).
  { intros f Hf n j. destruct (decide (j = id)) as [->|Hne].
    - rewrite lookup_insert_eq, Hid. split; intros (u & [= <-] & Hu); eexists; split; try done; congruence.
    - by rewrite lookup_insert_ne. }
  constructor; rewrite ?view_swapped by done.
  - intros j o. change (slots _) with (<[id := Some q]> (slots tbl)). intros Hj.
    apply lookup_insert_Some in Hj as [[<- <-]|[Hne Hj]]; [exists q, t'; by rewrite lookup_insert_eq|].
    destruct (slot_ok _ _ Hok j o Hj) as (p & u & -> & Hu). exists p, u. split; [done|].
    rewrite lookup_insert_ne; [done|]. intros <-. congruence.
  - intros i j p. change (slots _) with (<[id := Some q]> (slots tbl)). intros Hi Hj.
    apply lookup_insert_Some in Hi as [[<- [= <-]]|[Hi1 Hi]];
      apply lookup_insert_Some in Hj as [[<- Hj]|[Hj1 Hj]]; try done.
    + by apply Hnl in Hj.
    + injection Hj as <-. by apply Hnl in Hi.
    + by eapply slot_inj.
  - intros k j. change (key_to_id _) with (key_to_id tbl). rewrite Hnames by done. apply (keys_ok _ _ Hok).
  - intros s j. rewrite Hnames by done.
    change (sid_to_id _) with (if nonempty (t_sid t') then <[t_sid t' := id]> (sid_to_id tbl) else sid_to_id tbl).
    rewrite <- (sids_ok _ _ Hok). destruct (nonempty (t_sid t')) eqn:Hs; [|done].
    rewrite insert_id; [done|]. apply nonempty_true in Hs. apply (sids_ok _ _ Hok).
    split; [done|]. by exists t.
  - intros g j. change (signature_to_id _) with (signature_to_id (reindex tbl id t')).
    unfold reindex. cbn [signature_to_id]. destruct (nonempty (t_signature t')) eqn:Hg.
    + apply nonempty_true in Hg. destruct (is_active_status (t_status t')) eqn:Ha.
      * intros Hj. apply lookup_insert_Some in Hj as [[<- <-]|[Hne Hj]].
        { split; [done|]. exists t'. by rewrite lookup_insert_eq. }
        apply (signatures_ok _ _ Hok) in Hj as (? & u & Hu & Hgu & Hau). split; [done|].
        exists u. split; [|done]. rewrite lookup_insert_ne; [done|]. intros <-. congruence.
      * rewrite erase_if_lookup by (intros ? ?; by apply signatures_nonempty with (h := h)).
        intros [Hj Hne]. apply (signatures_ok _ _ Hok) in Hj as (? & u & Hu & Hgu & Hau).
        split; [done|]. exists u. split; [|done]. rewrite lookup_insert_ne; [done|]. intros <-.
        apply Hne. split; congruence.
    + intros Hj. apply nonempty_false in Hg. apply (signatures_ok _ _ Hok) in Hj as (? & u & Hu & Hgu & Hau).
      split; [done|]. exists u. split; [|done]. rewrite lookup_insert_ne; [done|]. intros <-. congruence.
Qed.

Lemma live_swapped h tbl id p q t r :
  table_ok h tbl -> slots tbl !! id = Some (Some p) ->
  live (swapped tbl id q t) r <-> (live tbl r /\ r <> p) \/ r = q.
Proof.
  intros Hok Hp. unfold live. change (slots (swapped tbl id q t)) with (<[id := Some q]> (slots tbl)). split.
  - intros [j Hj]. apply lookup_insert_Some in Hj as [[_ [= ->]]|[Hne Hj]]; [by right|].
    left. split; [by exists j|]. intros ->. apply Hne. by eapply slot_inj.
  - intros [[[j Hj] Hne]| ->]; [|exists id; by rewrite lookup_insert_eq].
    exists j. rewrite lookup_insert_ne; [done|]. intros <-. congruence.
Qed.

(** The state after the exchange of [p] for a new object holding [t']. *)
Definition replaced (m : TaskMgr) (id : Z) (p : ptr) (t' : SRxCaptureTask) (s : TaskStats) : TaskMgr :=
  push_pending ((exchange_slot m id t') <| tm_stats := s |>) p.

Lemma owned_replace m tbl id p t' m' :
  table_ok (tm_heap m) tbl -> owned m tbl None -> slots tbl !! id = Some (Some p) ->
  tm_heap m' = <[tm_next m := t']> (tm_heap m) -> tm_next m' = tm_next m + 1 ->
  tm_pending_deletes m' = tm_pending_deletes m ++ [p] ->
  owned m' (swapped tbl id (tm_next m) t') None.
Proof.
  intros Hok [Ho Hn Hd Hl Hb] Hp Hh Hx Hpd. set (q := tm_next m) in *.
  assert (Hq : tm_heap m !! q = None).
  { destruct (tm_heap m !! q) eqn:E; [|done]. assert (q < q); [|lia]. by apply Hb; eexists. }
  assert (Hpl : live tbl p) by (by exists id).
  assert (Hqn : ~ is_Some (tm_heap m !! q)) by (rewrite Hq; by intros []).
  constructor; rewrite ?Hh, ?Hpd, ?Hx; try done.
  - intros r. rewrite (live_swapped (tm_heap m) tbl id p q t' r Hok Hp), elem_of_app, list_elem_of_singleton.
    destruct (decide (r = q)) as [->|Hr].
    + rewrite lookup_insert_eq. split; [by auto|by eexists].
    + rewrite lookup_insert_ne, Ho by done. split.
      * intros [?|[?|[=]]]; [|by auto]. destruct (decide (r = p)); auto.
      * intros [[[? _]|?]|[[?| ->]|[=]]]; auto; congruence.
  - apply NoDup_app. split; [done|]. split; [|apply NoDup_singleton].
    intros r Hr1 Hr2. apply list_elem_of_singleton in Hr2 as ->. by apply (Hd p).
  - intros r Hr Hlr. rewrite (live_swapped (tm_heap m) tbl id p q t' r Hok Hp) in Hlr.
    apply elem_of_app in Hr as [Hr|Hr].
    + destruct Hlr as [[Hlr _]| ->]; [by eapply Hd|]. apply Hqn, Ho. auto.
    + apply list_elem_of_singleton in Hr as ->. destruct Hlr as [[_ ?]| ->]; [done|].
      apply Hqn, Ho. auto.
  - intros r. destruct (decide (r = q)) as [->|Hr]; [lia|]. rewrite lookup_insert_ne by done.
    intros Hr'. apply Hb in Hr'. lia.
Qed.

Lemma replaced_inv m id p t t' s :
  mgr_inv m -> slots (curr_table m) !! id = Some (Some p) -> tm_heap m !! p = Some t ->
  same_names t t' -> stats_ok s (<[id := t']> (tasks m)) ->
  mgr_inv (replaced m id p t' s) /\ tasks (replaced m id p t' s) = <[id := t']> (tasks m).
Proof.
  intros [Hc [Ht Ho Hs]] Hp Hpt Hn Hst. set (m' := replaced m id p t' s). set (q := tm_next m).
  unfold tasks in Hst. unfold curr_table in *. set (i := tm_curr m) in *. set (tbl := table_at m i) in *.
  assert (Hq : tm_heap m !! q = None).
  { destruct (tm_heap m !! q) eqn:E; [|done]. assert (q < q); [|lia].
    apply (heap_below _ _ _ Ho). by eexists. }
  assert (Hv : view (tm_heap m) tbl !! id = Some t) by (apply lookup_view; by exists p).
  assert (Eh : tm_heap m' = <[q := t']> (tm_heap m)) by (by destruct m).
  assert (Ec : tm_curr m' = i) by (by destruct m).
  assert (Et : table_at m' i = swapped tbl id q t').
  { transitivity (table_at (set_table m i (swapped tbl id q t')) i); [by destruct m|apply table_at_set]. }
  pose proof (view_swapped (tm_heap m) tbl id q t' Ht Hq) as Hv'.
  unfold mgr_inv, tasks, curr_table. rewrite Ec, Et, Eh. split; [|done]. split; [done|].
  constructor; rewrite ?Et, ?Eh, ?Hv'.
  - by eapply swapped_ok.
  - apply (owned_replace m tbl id p t'); try done; by destruct m.
  - replace (tm_stats m') with s by (by destruct m). done.
Qed.

Lemma slot_of_task m id t :
  tasks m !! id = Some t -> exists p, slots (curr_table m) !! id = Some (Some p) /\ tm_heap m !! p = Some t.
Proof. apply lookup_view. Qed.

Lemma alter_missing (f : SRxCaptureTask -> SRxCaptureTask) id (v : gmap Z SRxCaptureTask) :
  v !! id = None -> alter f id v = v.
Proof.
  intros Hv. apply map_eq. intros j. destruct (decide (j = id)) as [->|].
  - by rewrite lookup_alter_eq, Hv.
  - by rewrite lookup_alter_ne.
Qed.

Lemma alter_found (f : SRxCaptureTask -> SRxCaptureTask) id t (v : gmap Z SRxCaptureTask) :
  v !! id = Some t -> alter f id v = <[id := f t]> v.
Proof.
  intros Hv. apply map_eq. intros j. destruct (decide (j = id)) as [->|].
  - by rewrite lookup_insert_eq, lookup_alter_eq, Hv.
  - by rewrite lookup_insert_ne, lookup_alter_ne.
Qed.

(** Ids without a task have no slot. *)
Lemma no_slot m id : mgr_inv m -> tasks m !! id = None -> slots (curr_table m) !! id = None.
Proof. intros [Hc Hm]. apply view_None, Hm. Qed.

Lemma update_status_ok m id st :
  mgr_inv m ->
  exists m', update_status m id st = Done (is_some (tasks m !! id), m') /\ mgr_inv m' /\
    tasks m' = alter (fun t => t <| t_status := st |>) id (tasks m).
Proof.
  intros Hm. unfold update_status. destruct (tasks m !! id) as [t|] eqn:Hid.
  - destruct (slot_of_task m id t Hid) as (p & Hp & Ht). rewrite Hp. unfold deref.
    rewrite Ht, outcome_bind_done. set (t' := t <| t_status := st |>).
    assert (Est : t_status t' = st) by (by destruct t).
    destruct (replaced_inv m id p t t' (bump 1 (bump (-1) (tm_stats m) (t_status t)) (t_status t')) Hm Hp Ht)
      as [Hinv Htasks]; [by destruct t| |].
    { apply stats_replace; [|done]. apply Hm. }
    exists (replaced m id p t' (bump 1 (bump (-1) (tm_stats m) (t_status t)) (t_status t'))).
    split; [rewrite Est; by destruct m|]. split; [done|]. rewrite Htasks.
    by erewrite alter_found.
  - exists m. rewrite (no_slot m id Hm Hid). split; [done|]. split; [done|]. by rewrite alter_missing.
Qed.

Lemma update_task_ok m id u :
  mgr_inv m -> (forall t, tasks m !! id = Some t -> same_names t (u t)) ->
  exists m', update_task m id u = Done (is_some (tasks m !! id), m') /\ mgr_inv m' /\
    tasks m' = alter u id (tasks m).
Proof.
  intros Hm Hu. unfold update_task. destruct (tasks m !! id) as [t|] eqn:Hid.
  - destruct (slot_of_task m id t Hid) as (p & Hp & Ht). rewrite Hp. unfold deref.
    rewrite Ht, outcome_bind_done. cbv zeta.
    set (s := if decide (t_status t = t_status (u t)) then tm_stats m
              else bump 1 (bump (-1) (tm_stats m) (t_status t)) (t_status (u t))).
    assert (Hs0 : stats_ok (tm_stats m) (tasks m)) by apply Hm.
    destruct (replaced_inv m id p t (u t) s Hm Hp Ht) as [Hinv Htasks]; [by apply Hu| |].
    { subst s. case_decide; [by eapply stats_same|by apply stats_replace]. }
    exists (replaced m id p (u t) s).
    split; [subst s; case_decide; by destruct m|]. split; [done|]. rewrite Htasks.
    by erewrite alter_found.
  - exists m. rewrite (no_slot m id Hm Hid). split; [done|]. split; [done|]. by rewrite alter_missing.
Qed.

(** ** Deferred deletion *)

Lemma delete_all_ok (h : heap) ps :
  NoDup ps -> (forall p, p ∈ ps -> is_Some (h !! p)) ->
  exists h', delete_all h ps = Done h' /\
    (forall q, h' !! q = if decide (q ∈ ps) then None else h !! q).
Proof.
  revert h. induction ps as [|p ps IH]; intros h Hn Hin.
  - exists h. split; [done|]. intros q. rewrite decide_False; [done|]. apply not_elem_of_nil.
  - apply NoDup_cons in Hn as [Hp Hn]. destruct (Hin p ltac:(left)) as [t Ht]. cbn [delete_all].
    unfold deref. rewrite Ht, outcome_bind_done.
    destruct (IH (delete p h) Hn) as (h' & -> & Hh').
    { intros q Hq. rewrite lookup_delete_ne; [apply Hin; by right|]. by intros ->. }
    exists h'. split; [done|]. intros q. rewrite Hh'. destruct (decide (q = p)) as [->|Hne].
    + rewrite lookup_delete_eq. rewrite (decide_True (P := p ∈ p :: ps)) by left. by case_decide.
    + rewrite lookup_delete_ne by done. do 2 case_decide; try done.
      * exfalso. apply H0. by right.
      * by apply elem_of_cons in H0 as [?|?].
Qed.

Lemma cleanup_ok m :
  mgr_inv m ->
  exists m', cleanup_pending_deletes m = Done m' /\ mgr_inv m' /\ tasks m' = tasks m /\
    tm_pending_deletes m' = [].
Proof.
  intros [Hc [Ht [Ho Hn Hd Hl Hb] Hs]]. unfold cleanup_pending_deletes.
  destruct (delete_all_ok (tm_heap m) (tm_pending_deletes m) Hn) as (h & -> & Hh).
  { intros p Hp. apply Ho. auto. }
  rewrite outcome_bind_done. set (m' := _ <| tm_pending_deletes := _ |>). exists m'. split; [done|].
  assert (Eh : tm_heap m' = h) by (by destruct m).
  assert (Ec : tm_curr m' = tm_curr m) by (by destruct m).
  assert (Et : table_at m' (tm_curr m) = table_at m (tm_curr m)) by (by destruct m).
  assert (Ep : tm_pending_deletes m' = []) by (by destruct m).
  assert (En : tm_next m' = tm_next m) by (by destruct m).
  assert (Es : tm_stats m' = tm_stats m) by (by destruct m).
  clearbody m'. set (i := tm_curr m) in *. set (tbl := table_at m i) in *.
  assert (Hlive : forall p, live tbl p -> h !! p = tm_heap m !! p).
  { intros p Hp. rewrite Hh, decide_False; [done|]. intros Hq. by apply (Hd p). }
  assert (Hview : view h tbl = view (tm_heap m) tbl).
  { apply map_eq. intros j. unfold view. rewrite !lookup_omap.
    destruct (slots tbl !! j) as [[p|]|] eqn:E; [|done..]. simpl. apply Hlive. by exists j. }
  unfold mgr_inv, tasks, curr_table. rewrite Ec. fold i. rewrite Et, Eh, Hview.
  split; [|done]. split; [done|]. constructor; rewrite ?Et, ?Eh, ?Hview, ?Es; [| |done].
  - destruct Ht as [H1 H2 H3 H4 H5]. constructor; rewrite ?Hview; try done.
    intros id o Hid. destruct (H1 id o Hid) as (p & t & -> & Hp). exists p, t. split; [done|].
    rewrite Hlive; [done|]. by exists id.
  - constructor; rewrite ?Ep, ?Eh, ?En; try done; try apply NoDup_nil_2.
    + intros p. rewrite Hh. case_decide as Hp.
      * split; [by intros []|]. intros [Hlp|[Hp'|Hp']]; [by apply Hd in Hlp|by apply not_elem_of_nil in Hp'|done].
      * rewrite Ho. rewrite elem_of_nil. split; [intros [?|[?|?]]; [auto|done|auto]|intros [?|[[]|?]]; auto].
    + intros p Hp. by apply not_elem_of_nil in Hp.
    + intros p. rewrite Hh. case_decide; [by intros []|]. apply Hb.
Qed.

(** The pointers of a table, as [destroy] walks them. *)
Definition pointers (tbl : TaskTable) : list ptr := omap snd (map_to_list (slots tbl)).

Lemma elem_of_pointers tbl p : p ∈ pointers tbl <-> live tbl p.
Proof.
  unfold pointers, live. rewrite list_elem_of_omap. split.
  - intros ([id o] & Hin & Ho). simpl in Ho. subst o. exists id. by apply elem_of_map_to_list.
  - intros [id Hid]. exists (id, Some p). split; [by apply elem_of_map_to_list|done].
Qed.

Lemma NoDup_omap_inj {A B} (f : A -> option B) (l : list A) :
  NoDup l -> (forall x y b, x ∈ l -> y ∈ l -> f x = Some b -> f y = Some b -> x = y) -> NoDup (omap f l).
Proof.
  intros Hn Hinj. induction Hn as [|x l Hx Hn IH]; [constructor|]. cbn [omap list_omap].
  assert (IH' : NoDup (omap f l)) by (apply IH; intros; eapply Hinj; eauto; by right).
  destruct (f x) as [b|] eqn:E; [|done]. constructor; [|done].
  rewrite list_elem_of_omap. intros (y & Hy & Ey). apply Hx.
  by rewrite (Hinj x y b) by (done || left || by right).
Qed.

Lemma pointers_NoDup h tbl : table_ok h tbl -> NoDup (pointers tbl).
Proof.
  intros Hok. apply NoDup_omap_inj; [apply NoDup_map_to_list|].
  intros [i o] [j o'] p Hi Hj Ei Ej. simpl in *. subst.
  apply elem_of_map_to_list in Hi, Hj. f_equal. by eapply slot_inj.
Qed.

Lemma destroy_ok m : mgr_inv m -> destroy m = Done ∅.
Proof.
  intros [Hc [Ht [Ho Hn Hd Hl Hb] Hs]]. unfold destroy. fold (pointers (curr_table m)).
  unfold curr_table. set (tbl := table_at m (tm_curr m)) in *.
  destruct (delete_all_ok (tm_heap m) (pointers tbl)) as (h & -> & Hh).
  { by eapply pointers_NoDup. }
  { intros p Hp. apply Ho. left. by apply elem_of_pointers. }
  rewrite outcome_bind_done.
  destruct (delete_all_ok h (tm_pending_deletes m) Hn) as (h' & -> & Hh').
  { intros p Hp. rewrite Hh, decide_False; [apply Ho; auto|].
    rewrite elem_of_pointers. by apply Hd. }
  f_equal. apply map_eq. intros p. rewrite Hh', lookup_empty. case_decide; [done|]. rewrite Hh.
  case_decide as Hp; [done|]. rewrite elem_of_pointers in Hp.
  destruct (tm_heap m !! p) eqn:E; [|done].
  assert (live tbl p \/ p ∈ tm_pending_deletes m \/ None = Some p) as [?|[?|?]]; [|done..].
  apply Ho. by eexists.
Qed.

(** ** Histories *)

(** The operations of the manager; [OSubmit] allocates a task and adds it
    under its key. *)
Inductive op :=
  | OSubmit (id : Z) (t : SRxCaptureTask) (signature sid : string)
  | ORemove (id : Z)
  | OStatus (id : Z) (status : ECaptureTaskStatus)
  | OUpdate (id : Z) (u : SRxCaptureTask -> SRxCaptureTask)
  | OCleanup.

Definition run_op (m : TaskMgr) (o : op) : outcome TaskMgr :=
  match o with
  | OSubmit id t signature sid =>
      let '(m, p) := alloc m t in
      '(_, m) ← add_task m id (t_key t) signature sid (Some p); Done m
  | ORemove id => remove_task m id
  | OStatus id status => '(_, m) ← update_status m id status; Done m
  | OUpdate id u => '(_, m) ← update_task m id u; Done m
  | OCleanup => cleanup_pending_deletes m
  end.

(** Ids are not reused while their task is there, and an update leaves the
    names of a task alone. *)
Definition op_ok (m : TaskMgr) (o : op) : Prop :=
  match o with
  | OSubmit id _ _ _ => tasks m !! id = None
  | OUpdate id u => forall t, tasks m !! id = Some t -> same_names t (u t)
  | _ => True
  end.

Inductive reachable : TaskMgr -> Prop :=
  | reach_new : reachable new_mgr
  | reach_op m o m' : reachable m -> op_ok m o -> run_op m o = Done m' -> reachable m'.

Lemma view_empty h : view h empty_table = ∅.
Proof. unfold view. simpl. apply omap_empty. Qed.

Lemma empty_table_ok h : table_ok h empty_table.
Proof.
  constructor; rewrite ?view_empty; cbn [empty_table slots key_to_id sid_to_id signature_to_id].
  - intros id o H. by rewrite lookup_empty in H.
  - intros i j p H. by rewrite lookup_empty in H.
  - intros k id. rewrite lookup_empty. split; [done|]. intros (t & H & _). by rewrite lookup_empty in H.
  - intros k id. rewrite lookup_empty. split; [done|]. intros (_ & t & H & _). by rewrite lookup_empty in H.
  - intros g id H. by rewrite lookup_empty in H.
Qed.

Lemma new_mgr_inv : mgr_inv new_mgr.
Proof.
  split; [by left|]. constructor.
  - apply empty_table_ok.
  - change (table_at new_mgr (tm_curr new_mgr)) with empty_table.
    constructor; cbn [tm_heap new_mgr tm_pending_deletes]; try done; try apply NoDup_nil_2.
    + intros p. rewrite lookup_empty. split; [by intros []|].
      intros [[id H]|[H|H]]; [cbn in H; by rewrite lookup_empty in H|by apply not_elem_of_nil in H|done].
    + intros p H. by apply not_elem_of_nil in H.
    + intros p [t H]. by rewrite lookup_empty in H.
  - change (table_at new_mgr (tm_curr new_mgr)) with empty_table. rewrite view_empty.
    split; [done|]. by intros [].
Qed.

Lemma alloc_offered m id t :
  mgr_inv m -> tasks m !! id = None ->
  offered (fst (alloc m t)) id (t_key t) (snd (alloc m t)) t /\ tasks (fst (alloc m t)) = tasks m /\
  curr_table (fst (alloc m t)) = curr_table m.
Proof.
  intros [Hc [Ht Ho Hs]] Hid. set (q := tm_next m). set (m' := fst (alloc m t)).
  assert (Eh : tm_heap m' = <[q := t]> (tm_heap m)) by (by destruct m).
  assert (Ec : tm_curr m' = tm_curr m) by (by destruct m).
  assert (Et : table_at m' (tm_curr m) = table_at m (tm_curr m)) by (by destruct m).
  assert (Ep : tm_pending_deletes m' = tm_pending_deletes m) by (by destruct m).
  assert (En : tm_next m' = q + 1) by (by destruct m).
  assert (Es : tm_stats m' = tm_stats m) by (by destruct m).
  assert (Ecur : curr_table m' = curr_table m) by (by destruct m).
  replace (snd (alloc m t)) with q by (by destruct m). clearbody m'.
  set (i := tm_curr m) in *. set (tbl := table_at m i) in *.
  assert (Hq : ~ is_Some (tm_heap m !! q)).
  { intros H. assert (q < q); [by apply (heap_below _ _ _ Ho)|lia]. }
  assert (Hlive : forall p, live tbl p -> p <> q).
  { intros p Hp ->. apply Hq, (heap_owned _ _ _ Ho). by left. }
  assert (Hview : view (<[q := t]> (tm_heap m)) tbl = view (tm_heap m) tbl).
  { apply map_eq. intros j. unfold view. rewrite !lookup_omap.
    destruct (slots tbl !! j) as [[p|]|] eqn:E; [|done..]. simpl. rewrite lookup_insert_ne; [done|].
    intros <-. eapply Hlive; [by exists j|done]. }
  assert (Htasks : tasks m' = tasks m) by (unfold tasks, curr_table; by rewrite Ec, Et, Eh, Hview).
  split; [|done]. clear Ecur. constructor; rewrite ?Ec, ?Eh, ?Htasks; try done; [|by rewrite lookup_insert_eq].
  fold i. constructor; rewrite ?Et, ?Eh, ?Es, ?Hview; [| |done].
  - destruct Ht as [H1 H2 H3 H4 H5]. constructor; rewrite ?Hview; try done.
    intros id0 o Hid0. destruct (H1 id0 o Hid0) as (p & u & -> & Hp). exists p, u. split; [done|].
    rewrite lookup_insert_ne; [done|]. intros <-. eapply Hlive; [by exists id0|done].
  - destruct Ho as [Ho Hn Hd Hl Hb]. constructor; rewrite ?Ep, ?Eh, ?En; try done.
    + intros p. destruct (decide (p = q)) as [->|Hne].
      * rewrite lookup_insert_eq. split; [auto|by eexists].
      * rewrite lookup_insert_ne by done. rewrite Ho. split; [intros [?|[?|[=]]]; auto|].
        intros [?|[?|[= ?]]]; [auto|auto|congruence].
    + intros p [= <-]. split; [intros Hp; by apply (Hlive q)|].
      intros Hp. apply Hq, Ho. auto.
    + intros p. destruct (decide (p = q)) as [->|Hne]; [lia|]. rewrite lookup_insert_ne by done.
      intros Hp. apply Hb in Hp. lia.
Qed.

Lemma run_op_ok m o : mgr_inv m -> op_ok m o -> exists m', run_op m o = Done m' /\ mgr_inv m'.
Proof.
  intros Hm Ho. destruct o as [id t g s|id|id st|id u|]; cbn [run_op op_ok] in *.
  - destruct (alloc_offered m id t Hm Ho) as (Hof & _ & _).
    destruct (alloc m t) as [m1 p]. cbn [fst snd] in Hof.
    destruct (add_task_ok m1 id (t_key t) g s p t Hof) as (m' & -> & Hm' & _). by exists m'.
  - destruct (remove_task_ok m id Hm) as (m' & -> & Hm' & _). by exists m'.
  - destruct (update_status_ok m id st Hm) as (m' & -> & Hm' & _). by exists m'.
  - destruct (update_task_ok m id u Hm Ho) as (m' & -> & Hm' & _). by exists m'.
  - destruct (cleanup_ok m Hm) as (m' & -> & Hm' & _). by exists m'.
Qed.

Lemma reachable_inv m : reachable m -> mgr_inv m.
Proof.
  induction 1 as [|m o m' _ IH Ho Hr]; [apply new_mgr_inv|].
  destruct (run_op_ok m o IH Ho) as (m1 & E & Hm1). rewrite Hr in E. by apply (inj Done) in E as ->.
Qed.

(** ** Queries *)

Lemma query_task_view m id : mgr_inv m -> query_task m id = Done (snapshot_of <$> tasks m !! id).
Proof.
  intros Hm. unfold query_task, table_query_task. destruct (tasks m !! id) as [t|] eqn:Hid.
  - destruct (slot_of_task m id t Hid) as (p & -> & Ht). unfold deref. by rewrite Ht.
  - by rewrite (no_slot m id Hm Hid).
Qed.

Lemma query_by_found m (idx : gmap string Z) name id t :
  mgr_inv m -> idx !! name = Some id -> tasks m !! id = Some t ->
  table_query_by (tm_heap m) (curr_table m) idx name = Done (Some (snapshot_of t)).
Proof.
  intros Hm Hn Ht. unfold table_query_by. rewrite Hn. fold (query_task m id).
  by rewrite query_task_view, Ht.
Qed.

(** The record of a path in a file list. *)
Definition file_at (files : list CaptureFileInfo) (path : string) : option CaptureFileInfo :=
  find (fun f => String.eqb (cf_file_path f) path) files.

Lemma file_at_app fs gs path :
  file_at (fs ++ gs) path = match file_at fs path with Some f => Some f | None => file_at gs path end.
Proof.
  unfold file_at. induction fs as [|f fs IH]; [done|]. simpl. by destruct (String.eqb _ path).
Qed.

Lemma merge_file_at f files path :
  file_at (merge_file f files) path =
    if String.eqb (cf_file_path f) path then Some f else file_at files path.
Proof.
  unfold file_at. induction files as [|g gs IH]; simpl; [by destruct (String.eqb _ _)|].
  destruct (String.eqb_spec (cf_file_path g) (cf_file_path f)) as [E|E]; simpl.
  - rewrite E. by destruct (String.eqb (cf_file_path f) path).
  - rewrite IH. destruct (String.eqb_spec (cf_file_path f) path), (String.eqb_spec (cf_file_path g) path);
      [congruence|done..].
Qed.

Lemma merge_file_paths f files :
  map cf_file_path (merge_file f files) =
    if existsb (fun g => String.eqb (cf_file_path g) (cf_file_path f)) files
    then map cf_file_path files else map cf_file_path files ++ [cf_file_path f].
Proof.
  induction files as [|g gs IH]; [done|]. simpl.
  destruct (String.eqb_spec (cf_file_path g) (cf_file_path f)) as [E|E]; simpl; [by rewrite E|].
  rewrite IH. by destruct (existsb _ gs).
Qed.

Lemma merge_file_NoDup f files :
  NoDup (map cf_file_path files) -> NoDup (map cf_file_path (merge_file f files)).
Proof.
  intros Hn. rewrite merge_file_paths. destruct (existsb _ files) eqn:E; [done|].
  apply NoDup_app. split; [done|]. split; [|apply NoDup_singleton].
  intros p Hp1 Hp2. apply list_elem_of_singleton in Hp2 as ->.
  apply list_elem_of_fmap in Hp1 as (g & Hg & Hin). apply list_elem_of_In in Hin.
  assert (existsb (fun g => String.eqb (cf_file_path g) (cf_file_path f)) files = true); [|congruence].
  apply existsb_exists. exists g. split; [done|]. by rewrite <- Hg, String.eqb_refl.
Qed.

(** The updaters of the manager leave the names alone. *)
Lemma updaters_keep_names t :
  (forall ts pid f, same_names t (TaskUpdaterStart ts pid f t)) /\
  (forall p b ts, same_names t (TaskUpdaterProgress p b ts t)) /\
  (forall ts p b f, same_names t (TaskUpdaterFinished ts p b f t)) /\
  (forall now msg, same_names t (TaskUpdaterFailed now msg t)) /\
  (forall fs, same_names t (TaskAppendFiles fs t)) /\
  (forall a, same_names t (TaskArchiveRecorder a t)).
Proof.
  unfold TaskUpdaterStart, TaskUpdaterProgress, TaskUpdaterFinished.
  destruct t; repeat split; intros; cbv zeta; by repeat destr_goal.
Qed.

Lemma alter_alter (f g : SRxCaptureTask -> SRxCaptureTask) id (v : gmap Z SRxCaptureTask) :
  alter g id (alter f id v) = alter (fun t => g (f t)) id v.
Proof.
  apply map_eq. intros j. destruct (decide (j = id)) as [->|].
  - rewrite !lookup_alter_eq. by destruct (v !! id).
  - by rewrite !lookup_alter_ne.
Qed.

Lemma update_then_status_ok m id u st :
  mgr_inv m -> (forall t, tasks m !! id = Some t -> same_names t (u t)) ->
  exists m', update_then_status m id u st = Done (is_some (tasks m !! id), m') /\ mgr_inv m' /\
    tasks m' = alter (fun t => (u t) <| t_status := st |>) id (tasks m).
Proof.
  intros Hm Hu. unfold update_then_status.
  destruct (update_task_ok m id u Hm Hu) as (m1 & -> & Hm1 & E1). rewrite outcome_bind_done.
  destruct (tasks m !! id) as [t|] eqn:Hid; cbn [is_some].
  - destruct (update_status_ok m1 id st Hm1) as (m2 & -> & Hm2 & E2). exists m2.
    rewrite outcome_bind_done. split; [done|split; [done|]]. by rewrite E2, E1, alter_alter.
  - exists m1. split; [done|split; [done|]]. by rewrite E1, !alter_missing.
Qed.

Lemma delete_all_none h ps h' p : h !! p = None -> delete_all h ps = Done h' -> h' !! p = None.
Proof.
  revert h. induction ps as [|q ps IH]; intros h Hp; cbn [delete_all]; [by intros [= <-]|].
  intros (t & _ & E)%outcome_bind_Done_inv. eapply IH; [|exact E]. rewrite lookup_delete_None. by right.
Qed.

Lemma delete_all_gone h ps h' p : delete_all h ps = Done h' -> p ∈ ps -> h' !! p = None.
Proof.
  revert h. induction ps as [|q ps IH]; intros h; cbn [delete_all]; [by intros _ ?%elem_of_nil|].
  intros (t & _ & E)%outcome_bind_Done_inv [->|Hp]%elem_of_cons; [|by eapply IH].
  eapply delete_all_none; [|exact E]. apply lookup_delete_eq.
Qed.

(** ** Properties *)

(** C8: memory safety of the task manager, its operations one after another (the
    class has no lock: about operations of several threads that overlap, see
    [overlapping_query_undefined], nothing is claimed).  In every state reached
    from the empty manager by submitting, removing and changing tasks and by
    deferred deletion, in any order, every operation that respects the
    discipline of [op_ok] and every query runs without touching freed memory,
    and the destructor frees every task exactly once, leaving nothing
    allocated. *)
Theorem task_manager_memory_safe m :
  reachable m ->
  (forall o, op_ok m o -> exists m', run_op m o = Done m' /\ reachable m') /\
  (forall id, query_task m id = Done (snapshot_of <$> tasks m !! id)) /\
  destroy m = Done ∅.
Proof.
  intros Hr. pose proof (reachable_inv m Hr) as Hm. split; [|split].
  - intros o Ho. destruct (run_op_ok m o Hm Ho) as (m' & E & _). exists m'. split; [done|].
    by eapply reach_op.
  - intros id. by apply query_task_view.
  - by apply destroy_ok.
Qed.

(** A task submitted, changed and dropped by the destructor. *)
Lemma task_manager_memory_safe_witness :
  exists m1 m2, run_op new_mgr (OSubmit 1000 (demo_task 1000 "k" STATUS_PENDING) "sig" "sid") = Done m1 /\
    run_op m1 (OStatus 1000 STATUS_RUNNING) = Done m2 /\ length (tm_pending_deletes m2) = 1%nat /\ destroy m2 = Done ∅.
Proof.
  destruct (task_manager_memory_safe new_mgr reach_new) as [H0 _].
  destruct (H0 (OSubmit 1000 (demo_task 1000 "k" STATUS_PENDING) "sig" "sid")) as (m1 & E1 & R1); [reflexivity|].
  destruct (task_manager_memory_safe m1 R1) as [H1 _].
  destruct (H1 (OStatus 1000 STATUS_RUNNING) I) as (m2 & E2 & R2).
  exists m1, m2. split; [exact E1|]. split; [exact E2|]. split.
  - vm_compute in E1. injection E1 as <-. vm_compute in E2. injection E2 as <-. reflexivity.
  - apply (task_manager_memory_safe m2 R2).
Defined.

(** Operations that overlap: a query of another thread that has loaded the slot
    of a task and reads the task after the manager thread has changed it and
    run its timer reads freed memory. *)
Theorem overlapping_query_undefined m id u p ok m1 m2 :
  slots (curr_table m) !! id = Some (Some p) ->
  update_task m id u = Done (ok, m1) -> cleanup_pending_deletes m1 = Done m2 ->
  deref (tm_heap m2) p = Undef.
Proof.
  intros Hp E1 E2. unfold update_task in E1. rewrite Hp in E1. apply outcome_bind_Done_inv in E1 as (t & _ & E1).
  injection E1 as _ <-. unfold cleanup_pending_deletes in E2. apply outcome_bind_Done_inv in E2 as (h & Eh & E2).
  injection E2 as <-. apply (delete_all_gone _ _ _ p) in Eh.
  - unfold deref. cbn. unfold constant. by rewrite Eh.
  - cbn. apply elem_of_app. right. by left.
Qed.

Lemma overlapping_query_undefined_witness :
  exists m p ok m1 m2, reachable m /\ slots (curr_table m) !! 1000 = Some (Some p) /\
    update_task m 1000 (TaskUpdaterProgress 1 60 0) = Done (ok, m1) /\ cleanup_pending_deletes m1 = Done m2 /\
    deref (tm_heap m2) p = Undef.
Proof.
  destruct (run_op new_mgr (OSubmit 1000 (demo_task 1000 "k" STATUS_PENDING) "sig" "sid")) as [m| | |] eqn:E; [|discriminate..].
  assert (R : reachable m) by (eapply reach_op; [exact reach_new| |exact E]; reflexivity).
  assert (is_Some (tasks m !! 1000)) as [t Ht] by (vm_compute in E; injection E as <-; vm_compute; by eexists).
  pose proof (reachable_inv m R) as Hm. destruct (slot_of_task m 1000 t Ht) as (p & Hp & _).
  destruct (update_task_ok m 1000 (TaskUpdaterProgress 1 60 0) Hm) as (m1 & E1 & H1 & _); [done|].
  destruct (cleanup_ok m1 H1) as (m2 & E2 & _).
  exists m, p, (is_some (tasks m !! 1000)), m1, m2. split; [exact R|]. split; [exact Hp|]. split; [exact E1|]. split; [exact E2|].
  exact (overlapping_query_undefined m 1000 _ p _ m1 m2 Hp E1 E2).
Defined.

(** C3: the manager refines a finite map from ids to tasks.  Submitting under a
    fresh id inserts the labelled task and drops only tasks that share its
    key, its (active) signature or its sid, so that the key and the sid are
    unique afterwards; removing deletes; [update_status] and [update_task]
    change that one task and report whether it exists; cleaning up frees all
    deferred objects and changes no task. *)
Theorem task_manager_refines_map m :
  reachable m ->
  (forall id t signature sid, tasks m !! id = None ->
     exists m', run_op m (OSubmit id t signature sid) = Done m' /\
       tasks m' !! id = Some (label_task signature sid t) /\
       (forall j u, j <> id -> tasks m' !! j = Some u ->
          tasks m !! j = Some u /\ t_key u <> t_key t /\ (sid <> "" -> t_sid u <> sid)) /\
       (forall j u, tasks m !! j = Some u ->
          tasks m' !! j = Some u \/
          clashes (signature_to_id (curr_table m)) j u (t_key t) signature sid)) /\
  (forall id, exists m', remove_task m id = Done m' /\ tasks m' = delete id (tasks m)) /\
  (forall id st, exists m', update_status m id st = Done (is_some (tasks m !! id), m') /\
     tasks m' = alter (fun t => t <| t_status := st |>) id (tasks m)) /\
  (forall id u, op_ok m (OUpdate id u) ->
     exists m', update_task m id u = Done (is_some (tasks m !! id), m') /\
       tasks m' = alter u id (tasks m)) /\
  (exists m', cleanup_pending_deletes m = Done m' /\ tasks m' = tasks m /\
     tm_pending_deletes m' = []).
Proof.
  intros Hr. pose proof (reachable_inv m Hr) as Hm. split; [|split; [|split; [|split]]].
  - intros id t g s Hid. destruct (alloc_offered m id t Hm Hid) as (Hof & Et & Ec). cbn [run_op].
    destruct (alloc m t) as [m1 p]. cbn [fst snd] in *.
    destruct (add_task_ok m1 id (t_key t) g s p t Hof) as (m' & -> & _ & H1 & H2 & H3).
    exists m'. rewrite Et, Ec in *. done.
  - intros id. destruct (remove_task_ok m id Hm) as (m' & ? & _ & ?). by exists m'.
  - intros id st. destruct (update_status_ok m id st Hm) as (m' & ? & _ & ?). by exists m'.
  - intros id u Hu. destruct (update_task_ok m id u Hm Hu) as (m' & ? & _ & ?). by exists m'.
  - destruct (cleanup_ok m Hm) as (m' & ? & _ & ? & ?). by exists m'.
Qed.

Lemma task_manager_refines_map_witness :
  exists m', run_op new_mgr (OSubmit 1 new_task "g" "s") = Done m' /\
    tasks m' !! 1 = Some (label_task "g" "s" new_task).
Proof.
  destruct (task_manager_refines_map new_mgr reach_new) as [H _].
  destruct (H 1 new_task "g"%string "s"%string eq_refl) as (m' & E & Hid & _). by exists m'.
Defined.

(** Queries by name find exactly the task of that name: by key and by
    nonempty sid the one task that has it, or nothing if none does; a query
    for an active task by signature only returns an active task with that
    signature. *)
Theorem queries_agree m :
  reachable m ->
  (forall id t, tasks m !! id = Some t ->
     query_task_by_key m (t_key t) = Done (Some (snapshot_of t)) /\
     (t_sid t <> "" -> query_task_by_sid m (t_sid t) = Done (Some (snapshot_of t)))) /\
  (forall k, (forall id t, tasks m !! id = Some t -> t_key t <> k) -> query_task_by_key m k = Done None) /\
  (forall s, (forall id t, tasks m !! id = Some t -> t_sid t <> s) -> query_task_by_sid m s = Done None) /\
  (forall g, exists r, query_active_task_by_signature m g = Done r /\
     forall sn, r = Some sn -> exists id t, tasks m !! id = Some t /\ sn = snapshot_of t /\
       t_signature t = g /\ is_active_status (t_status t) = true).
Proof.
  intros Hr. pose proof (reachable_inv m Hr) as Hm. pose proof Hm as [_ [Hok _ _]].
  fold (curr_table m) in Hok. split; [|split; [|split]].
  - intros id t Ht. split; [|intros Hs]; apply (query_by_found m _ _ id); try done.
    + apply (keys_ok _ _ Hok). by exists t.
    + apply (sids_ok _ _ Hok). split; [done|]. by exists t.
  - intros k Hk. unfold query_task_by_key, table_query_by.
    destruct (key_to_id (curr_table m) !! k) as [id|] eqn:E; [|done].
    apply (keys_ok _ _ Hok) in E as (t & Ht & Hkt). by destruct (Hk id t).
  - intros k Hk. unfold query_task_by_sid, table_query_by.
    destruct (sid_to_id (curr_table m) !! k) as [id|] eqn:E; [|done].
    apply (sids_ok _ _ Hok) in E as (_ & t & Ht & Hkt). by destruct (Hk id t).
  - intros g. unfold query_active_task_by_signature, query_task_by_signature.
    destruct (signature_to_id (curr_table m) !! g) as [id|] eqn:E.
    + pose proof E as E'. apply (signatures_ok _ _ Hok) in E' as (_ & t & Ht & Hg & Ha).
      rewrite (query_by_found m _ _ id t Hm E Ht), outcome_bind_done. eexists. split; [done|].
      intros sn. simpl. rewrite Ha. intros [= <-]. by exists id, t.
    + unfold table_query_by. rewrite E. by exists None.
Qed.

Lemma queries_agree_witness : query_task_by_key new_mgr "k" = Done None.
Proof.
  apply (queries_agree new_mgr reach_new). intros id t H.
  change (tasks new_mgr) with (∅ : gmap Z SRxCaptureTask) in H. by rewrite lookup_empty in H.
Defined.

(** The counters of [get_stats] count the tasks: in total and per status,
    whatever the history, for fewer than 2^64 tasks. *)
Theorem stats_count_tasks m :
  reachable m -> Z.of_nat (size (tasks m)) < 2 ^ 64 ->
  total_count (get_stats m) = Z.of_nat (size (tasks m)) /\
  (forall st, stat st (get_stats m) = count st (tasks m)).
Proof.
  intros Hr Hsz. destruct (reachable_inv m Hr) as [_ [_ _ [Ht Hs]]].
  fold (curr_table m) (tasks m) in Ht, Hs. unfold get_stats. split.
  - rewrite Ht. apply u64_small. lia.
  - intros st. rewrite Hs. apply u64_small. unfold count.
    assert (size (filter (fun x => t_status x.2 = st) (tasks m)) <= size (tasks m))%nat; [|lia].
    apply map_subseteq_size, map_filter_subseteq.
Qed.

Lemma stats_count_tasks_witness : total_count (get_stats new_mgr) = 0.
Proof. apply (stats_count_tasks new_mgr reach_new). vm_compute. reflexivity. Defined.

(** The life cycle operations built on updates: [set_capture_started],
    [set_capture_finished] and [set_capture_failed] apply their fields and
    set RUNNING, COMPLETED and FAILED on that task alone, and report whether
    it exists; [update_progress], [append_capture_files] and [record_archive]
    keep its status. *)
Theorem lifecycle_operations m id :
  reachable m ->
  (forall ts pid file, exists m', set_capture_started m id ts pid file = Done (is_some (tasks m !! id), m') /\
     tasks m' = alter (fun t => (TaskUpdaterStart ts pid file t) <| t_status := STATUS_RUNNING |>) id (tasks m)) /\
  (forall ts p b file, exists m', set_capture_finished m id ts p b file = Done (is_some (tasks m !! id), m') /\
     tasks m' = alter (fun t => (TaskUpdaterFinished ts p b file t) <| t_status := STATUS_COMPLETED |>) id (tasks m)) /\
  (forall now msg, exists m', set_capture_failed m now id msg = Done (is_some (tasks m !! id), m') /\
     tasks m' = alter (fun t => (TaskUpdaterFailed now msg t) <| t_status := STATUS_FAILED |>) id (tasks m)) /\
  (forall p b ts, exists m', update_progress m id p b ts = Done (is_some (tasks m !! id), m') /\
     tasks m' = alter (TaskUpdaterProgress p b ts) id (tasks m)) /\
  (forall f fs, exists m', append_capture_files m id (f :: fs) = Done (is_some (tasks m !! id), m') /\
     tasks m' = alter (TaskAppendFiles (f :: fs)) id (tasks m)) /\
  (forall a, exists m', record_archive m id a = Done (is_some (tasks m !! id), m') /\
     tasks m' = alter (TaskArchiveRecorder a) id (tasks m)).
Proof.
  intros Hr. pose proof (reachable_inv m Hr) as Hm.
  assert (Hu : forall u, (forall t, same_names t (u t)) -> exists m',
    update_task m id u = Done (is_some (tasks m !! id), m') /\ tasks m' = alter u id (tasks m)).
  { intros u Hn. destruct (update_task_ok m id u Hm) as (m' & ? & _ & ?); [by intros|]. by exists m'. }
  assert (Hs : forall u st, (forall t, same_names t (u t)) -> exists m',
    update_then_status m id u st = Done (is_some (tasks m !! id), m') /\
    tasks m' = alter (fun t => (u t) <| t_status := st |>) id (tasks m)).
  { intros u st Hn. destruct (update_then_status_ok m id u st Hm) as (m' & ? & _ & ?); [by intros|]. by exists m'. }
  repeat split; intros; [apply Hs|apply Hs|apply Hs|apply Hu|apply Hu|apply Hu]; intros t; apply updaters_keep_names.
Qed.

Lemma lifecycle_operations_witness :
  exists m', set_capture_finished new_mgr 1 0 0 0 "" = Done (false, m').
Proof.
  destruct (lifecycle_operations new_mgr 1 reach_new) as (_ & H & _).
  destruct (H 0 0 0 ""%string) as (m' & E & _). by exists m'.
Defined.

(** Merging file records: after files are appended to a task, the record of
    a path is the last one appended for it, or the one it had; and if paths
    were unique they still are. *)
Theorem append_files_merges files fs path :
  file_at (merge_files files fs) path =
    match file_at (rev fs) path with Some f => Some f | None => file_at files path end /\
  (NoDup (map cf_file_path files) -> NoDup (map cf_file_path (merge_files files fs))).
Proof.
  unfold merge_files. revert files. induction fs as [|f fs IH]; intros files; [done|]. simpl.
  destruct (IH (merge_file f files)) as [E Hn]. split.
  - rewrite E, merge_file_at, file_at_app. destruct (file_at (rev fs) path); [done|].
    unfold file_at at 2. simpl. by destruct (String.eqb _ _).
  - intros H. by apply Hn, merge_file_NoDup.
Qed.

Lemma append_files_merges_witness :
  NoDup (map cf_file_path (merge_files [] [new_file_info <| cf_file_path := "a" |>;
    new_file_info <| cf_file_path := "a" |> <| cf_file_size := 7 |>])).
Proof. apply (append_files_merges [] _ "a"). constructor. Defined.

(** The discipline of [op_ok] is needed: submitting under an id in use leaves
    the old key pointing at the new task, and the next task submitted under
    that key evicts it. *)
Example reused_id_leaves_stale_key :
  ('(_, m) ← submit new_mgr 1 "k1" "" "";
   '(_, m) ← submit m 1 "k2" "" "";
   a ← query_task_by_key m "k1";
   '(_, m) ← submit m 2 "k1" "" "";
   b ← query_task_by_key m "k2";
   Done (option_map sn_key a, option_map sn_key b)) = Done (Some "k2"%string, None).
Proof. vm_compute. reflexivity. Qed.
