(* ===== verification/ProcData.v ===== *)
(** * Process data (rxprocdata.cpp/.h, the settings of rxstrategyconfig.h)

    The settings the strategy configuration holds, the configuration snapshot
    every capture starts from with its hash, and the ring of sample alerts.
    Loading the JSON files is in [Config]; here the settings are values. *)

From S2P Require Import Prelude TaskTypes Messages.

(** ** Settings *)

Record SRxDefaults := mkDefaults {
  df_iface : string;
  df_duration_sec : Z;
  df_category : string;
  df_file_pattern : string;
  df_max_bytes : Z;
}.

Definition new_defaults : SRxDefaults :=
  mkDefaults "any" 60 "diag" "{day}/{date}-{iface}-{proc}-{port}.pcap" (200 * 1024 * 1024).

Record SRxLimits := mkLimits {
  lm_max_concurrent_captures : Z;
  lm_queue_capacity : Z;
  lm_per_key_cooldown_sec : Z;
  lm_per_client_window_sec : Z;
  lm_per_client_max_req : Z;
  lm_high_priority_slots : Z;
}.

Definition new_limits : SRxLimits := mkLimits 3 1024 120 10 20 2.

Record SRxStorage := mkStorage {
  so_base_dir : string;
  so_max_age_days : Z;
  so_max_size_gb : Z;
  so_progress_interval_sec : Z;
  so_progress_packet_threshold : Z;
  so_progress_bytes_threshold : Z;
  so_compress_batch_interval_sec : Z;
}.

Definition new_storage : SRxStorage :=
  mkStorage "/var/log/rxtrace/captures" 7 100 10 50000 (100 * 1024 * 1024) 300.

(** The part of [CRxStrategyConfigManager] the capture threads read. *)
Record CRxStrategyConfigManager := mkStrategy {
  sc_defaults : SRxDefaults;
  sc_limits : SRxLimits;
  sc_storage : SRxStorage;
}.

Definition new_strategy : CRxStrategyConfigManager := mkStrategy new_defaults new_limits new_storage.

(** ** The configuration hash *)

(** One byte of FNV-1a with 32 bits. *)
Definition fnv1a_byte (hash b : Z) : Z := (Z.lxor hash b) *32 16777619.

(** The [n] low bytes of [value], the least significant first. *)
Fixpoint fnv1a_mix (n : nat) (hash value : Z) : Z :=
  match n with
  | O => hash
  | S n' => fnv1a_mix n' (fnv1a_byte hash (Z.land value 255)) (Z.shiftr value 8)
  end.

Definition fnv1a_mix_uint32 (hash value : Z) : Z := fnv1a_mix 4 hash (u32 value).
Definition fnv1a_mix_uint64 (hash value : Z) : Z := fnv1a_mix 8 hash (u64 value).

Fixpoint fnv1a_append (hash : Z) (s : string) : Z :=
  match s with
  | EmptyString => hash
  | String c s' => fnv1a_append (fnv1a_byte hash (Z.of_nat (nat_of_ascii c))) s'
  end.

(** The text and a terminating zero byte. *)
Definition fnv1a_mix_string (hash : Z) (value : string) : Z := fnv1a_byte (fnv1a_append hash value) 0.

Definition compute_config_hash (cfg : CaptureConfigSnapshot) : Z :=
  let hash := 2166136261 in
  let hash := fnv1a_mix_string hash (cs_output_dir cfg) in
  let hash := fnv1a_mix_string hash (cs_filename_template cfg) in
  let hash := fnv1a_mix_uint32 hash (cs_file_rotate_size_mb cfg) in
  let hash := fnv1a_mix_uint32 hash (cs_file_rotate_count cfg) in
  let hash := fnv1a_mix_uint32 hash (cs_max_duration_sec cfg) in
  let hash := fnv1a_mix_uint64 hash (cs_max_bytes cfg) in
  let hash := fnv1a_mix_uint32 hash (cs_max_packets cfg) in
  let hash := fnv1a_mix_uint32 hash (cs_snaplen cfg) in
  let hash := fnv1a_mix_uint32 hash (if cs_compress_enabled cfg then 1 else 0) in
  let hash := fnv1a_mix_uint32 hash (cs_compress_threshold_mb cfg) in
  let hash := fnv1a_mix_string hash (cs_compress_format cfg) in
  let hash := fnv1a_mix_uint32 hash (cs_compress_level cfg) in
  let hash := fnv1a_mix_uint32 hash (if cs_compress_remove_src cfg then 1 else 0) in
  let hash := fnv1a_mix_uint32 hash (cs_retain_days cfg) in
  let hash := fnv1a_mix_uint32 hash (cs_clean_batch_size cfg) in
  let hash := fnv1a_mix_uint64 hash (cs_disk_threshold_gb cfg) in
  let hash := fnv1a_mix_uint32 hash (cs_progress_interval_sec cfg) in
  let hash := fnv1a_mix_uint32 hash (cs_progress_packet_threshold cfg) in
  fnv1a_mix_uint64 hash (cs_progress_bytes_threshold cfg).

(** A size in mebibytes as the [int] of the snapshot, at least one. *)
Definition size_mb (bytes : Z) : Z :=
  if 0 <? bytes
  then let mb := signed_cast 32 (bytes / (1024 * 1024)) in if mb <=? 0 then 1 else mb
  else 0.

(** [now] is [time(NULL)]; without a strategy configuration the snapshot keeps
    its initial values. *)
Definition get_capture_config_snapshot (now : Z) (cfg_manager : option CRxStrategyConfigManager)
    : CaptureConfigSnapshot :=
  let snapshot :=
    match cfg_manager with
    | None => new_snapshot
    | Some c =>
        let defaults := sc_defaults c in
        let storage := sc_storage c in
        mkConfigSnapshot (so_base_dir storage) (df_file_pattern defaults) (size_mb (df_max_bytes defaults)) 0
          (df_duration_sec defaults) (df_max_bytes defaults) 0 65535
          (cs_compress_enabled new_snapshot) (size_mb (so_progress_bytes_threshold storage))
          (cs_compress_format new_snapshot) 0 (cs_compress_remove_src new_snapshot)
          (so_max_age_days storage) (so_compress_batch_interval_sec storage) (so_max_size_gb storage)
          (so_progress_interval_sec storage) (so_progress_packet_threshold storage)
          (so_progress_bytes_threshold storage) 0 0
    end in
  snapshot <| cs_config_hash := compute_config_hash snapshot |> <| cs_config_timestamp := now |>.

(** ** Sample alerts *)

Record SRxSampleAlertRecord := mkAlert {
  ar_alert_id : Z;
  ar_timestamp : Z;
  ar_cpu_hit : bool;
  ar_mem_hit : bool;
  ar_net_hit : bool;
  ar_module_name : string;
  ar_capture_hint : string;
  ar_capture_category : string;
  ar_capture_duration_sec : Z;
  ar_cooldown_sec : Z;
  ar_cpu_threshold : Z;
  ar_mem_threshold : Z;
  ar_net_threshold : Z;
}.

(** [_sample_alerts], oldest first, and [_next_sample_alert_id]. *)
Record alert_ring := mkRing { al_records : list SRxSampleAlertRecord; al_next_id : Z }.

Definition new_ring : alert_ring := mkRing [] 1.

Definition record_sample_alert (now : Z) (alert : SRxSampleAlertRecord) (r : alert_ring) : Z * alert_ring :=
  let stored := alert <| ar_alert_id := al_next_id r |> in
  let next := al_next_id r +64 1 in
  let next := if next =? 0 then 1 else next in
  let stored := if ar_timestamp stored =? 0 then stored <| ar_timestamp := now |> else stored in
  let records := if (128 <=? length (al_records r))%nat then tail (al_records r) else al_records r in
  (ar_alert_id stored, mkRing (records ++ [stored]) next).

(** Newest first. *)
Definition get_sample_alerts (max_count : nat) (r : alert_ring) : list SRxSampleAlertRecord :=
  take max_count (rev (al_records r)).

(** ** The ring *)

Fixpoint record_all (as_ : list (Z * SRxSampleAlertRecord)) (r : alert_ring) : list Z * alert_ring :=
  match as_ with
  | [] => ([], r)
  | (now, a) :: rest =>
      let '(id, r) := record_sample_alert now a r in
      let '(ids, r) := record_all rest r in
      (id :: ids, r)
  end.

Lemma record_all_app xs ys r :
  record_all (xs ++ ys) r =
    (fst (record_all xs r) ++ fst (record_all ys (snd (record_all xs r))),
     snd (record_all ys (snd (record_all xs r)))).
Proof.
  revert r. induction xs as [|[now a] xs IH]; intros r; simpl.
  - by destruct (record_all ys r).
  - destruct (al_next_id r +64 1 =? 0); rewrite IH; by destruct (record_all xs _).
Qed.

(** The record stored for the alert number [i]. *)
Definition stored_alert (i : nat) (x : Z * SRxSampleAlertRecord) : SRxSampleAlertRecord :=
  let a := x.2 <| ar_alert_id := Z.of_nat i + 1 |> in
  if ar_timestamp x.2 =? 0 then a <| ar_timestamp := x.1 |> else a.

Definition last128 {A} (l : list A) : list A := drop (length l - 128) l.

Lemma last128_snoc {A} (l : list A) x :
  last128 (l ++ [x]) =
    (if (128 <=? length (last128 l))%nat then tail (last128 l) else last128 l) ++ [x].
Proof.
  unfold last128. rewrite length_app, length_drop. cbn [length].
  destruct (Nat.leb_spec 128 (length l - (length l - 128))) as [H|H].
  - rewrite drop_app_le by lia. f_equal.
    replace (length l + 1 - 128)%nat with (length l - 128 + 1)%nat by lia.
    rewrite <- drop_drop. by destruct (drop (length l - 128) l).
  - rewrite drop_app_le by lia. f_equal. f_equal. lia.
Qed.

(** Sample alerts.  Until the 64-bit counter wraps, alerts get the numbers
    1, 2, 3, ..., the ring holds the last 128 of them in order with their
    numbers and times filled in, and a query returns the newest first. *)
Theorem alerts_are_recent xs :
  Z.of_nat (length xs) < 2 ^ 64 - 1 ->
  let '(ids, r) := record_all xs new_ring in
  ids = map (fun i => Z.of_nat i + 1) (seq 0 (length xs)) /\
  al_records r = last128 (imap stored_alert xs) /\
  (forall n, get_sample_alerts n r = take n (rev (last128 (imap stored_alert xs)))) /\
  (length (al_records r) <= 128)%nat.
Proof.
  intros Hlen.
  assert (H : fst (record_all xs new_ring) = map (fun i => Z.of_nat i + 1) (seq 0 (length xs)) /\
    al_records (snd (record_all xs new_ring)) = last128 (imap stored_alert xs) /\
    al_next_id (snd (record_all xs new_ring)) = Z.of_nat (length xs) + 1).
  { induction xs as [|[now a] xs IH] using rev_ind; [done|].
    rewrite length_app in Hlen. cbn [length] in Hlen. destruct IH as (Hi & Hr & Hn); [lia|].
    rewrite record_all_app. destruct (record_all xs new_ring) as [ids [rs next]]. cbn [fst snd al_records al_next_id] in *.
    subst ids rs next. cbn [record_all record_sample_alert]. unfold record_sample_alert. cbn [al_records al_next_id].
    rewrite (u64_small (Z.of_nat (length xs) + 1 + 1)) by lia.
    destruct (Z.eqb_spec (Z.of_nat (length xs) + 1 + 1) 0); [lia|]. cbn [fst snd al_records al_next_id].
    rewrite !length_app, seq_app, map_app, imap_app. cbn [length imap Nat.add seq map].
    change (imap _ [(now, a)]) with [stored_alert (length xs + 0) (now, a)]. rewrite last128_snoc.
    split; [|split; [|lia]].
    - f_equal. by destruct (_ =? 0).
    - unfold stored_alert. cbn. rewrite Nat.add_0_r. by destruct (_ =? 0). }
  destruct (record_all xs new_ring) as [ids r]. cbn [fst snd] in H. destruct H as (-> & Hr & _).
  split; [done|]. split; [done|]. unfold get_sample_alerts. rewrite Hr. split; [done|].
  unfold last128. rewrite length_drop. lia.
Qed.

Definition demo_alert : SRxSampleAlertRecord := mkAlert 0 0 true false false "m" "" "" 0 0 80 0 0.

Lemma alerts_are_recent_witness :
  let '(ids, r) := record_all [(5, demo_alert); (6, demo_alert)] new_ring in
  ids = [1; 2] /\ map ar_timestamp (get_sample_alerts 1 r) = [6].
Proof.
  pose proof (alerts_are_recent [(5, demo_alert); (6, demo_alert)] ltac:(cbn; lia)) as H.
  destruct (record_all _ _) as [ids r]. destruct H as (-> & _ & H & _). split; [reflexivity|]. by rewrite H.
Defined.
