(* ===== verification/CaptureManager.v ===== *)
(** * The capture manager (rxcapturemanagerthread.cpp, rxcapturemanagerthread.h)

    The thread that owns the tasks: it accepts and rejects capture requests,
    hands them to the workers, follows their reports and answers queries.  A
    handler takes what it reads from outside ([env]) and the manager's state
    and returns the new state and the messages it posts, in order. *)

From S2P Require Import Prelude CppString TaskTypes TaskMgr Messages CaptureUtil ProcData PdefWriteback.

(** ** State and surroundings *)

Definition kFallbackDurationSec : Z := 60.
Definition kCaptureIdStartValue : Z := 1000.
Definition kMinConcurrentCaptures : Z := 1.

(** What a handler reads: the clocks ([time], [rx_capture_now_usec],
    [GetMilliSecond], [localtime]), the process table as the resolver reports
    it, the configuration and the other threads' indexes. *)
Record env := mkEnv {
  en_time : Z;
  en_usec : Z;
  en_ms : Z;
  en_tm : Z * Z * Z * Z * Z * Z;         (* year, mon, mday, hour, min, sec *)
  en_processes : string -> list SProcessInfo;
  en_process : Z -> option SProcessInfo;
  en_strategy : option CRxStrategyConfigManager;
  en_max_concurrent : option Z;          (* of the server configuration, if there is one *)
  en_cleanup : option Z;
  en_http_threads : list Z;
}.

(** The statics [next_capture_id], [next_worker] and [next_filter] are part of
    the state, as are the shared task manager, the alert ring and the files. *)
Record manager := mkManager {
  mg_tasks : TaskMgr;
  mg_thread_index : Z;
  mg_workers : list Z;
  mg_filter_threads : list Z;
  mg_next_capture_id : Z;
  mg_next_worker : Z;
  mg_next_filter : Z;
  mg_last_trigger : gmap string Z;
  mg_usage : Manager.usage;
  mg_alerts : alert_ring;
}.

Definition set_tasks (s : manager) (m : TaskMgr) : manager := s <| mg_tasks := m |>.

(** The environment's configuration snapshot. *)
Definition config_snapshot (e : env) : CaptureConfigSnapshot :=
  get_capture_config_snapshot (en_time e) (en_strategy e).

(** ** Replies *)

Definition json_headers : gmap string string := {["Content-Type" := "application/json"]}.

Definition set_reply (status : Z) (reason body : string) (r : SRxHttpReplyMsg) : SRxHttpReplyMsg :=
  r <| hr_status := status |> <| hr_reason := reason |>
    <| hr_headers := <["Content-Type" := "application/json"]> (hr_headers r) |> <| hr_body := body |>.

(** [snprintf] into a buffer of [n] bytes. *)
Definition bounded (n : nat) (s : string) : string := str_take (n - 1) s.

(** A member of a JSON object. *)
Definition member (key value : string) : string := quoted key +:+ ":" +:+ value.
Definition smember (key value : string) : string := member key (quoted value).

Definition reply_for (target : ObjId) : SRxHttpReplyMsg := new_reply <| hr_conn_id := obj_id target |>.

Definition send_reply_to_http (reply_target : ObjId) (reply : SRxHttpReplyMsg) : outbox :=
  if 0 <? obj_thread_index reply_target then [(reply_target, MsgHttpReply reply)] else [].

(** ** Updaters *)

Definition AssignWorker (worker_id : Z) (t : SRxCaptureTask) : SRxCaptureTask :=
  let t := t <| t_worker_thread_index := worker_id |> <| t_stop_requested := false |>
             <| t_cancel_requested := false |> in
  if decide (t_status t = STATUS_PENDING) then t <| t_status := STATUS_RESOLVING |> else t.

Definition MarkStopped (now ts_usec packets bytes : Z) (message : string) (t : SRxCaptureTask) : SRxCaptureTask :=
  t <| t_end_time := if ts_usec <=? 0 then now else ts_usec / 1000000 |>
    <| t_packet_count := packets |> <| t_bytes_captured := bytes |>
    <| t_error_message := message |> <| t_stop_requested := false |>.

Definition UpdateTask (m : SRxTaskUpdateMsg) (t : SRxCaptureTask) : SRxCaptureTask :=
  let t := t <| t_status := tu_new_status m |> in
  let t := if tu_update_capture_pid m then t <| t_capture_pid := tu_capture_pid m |> else t in
  let t := if tu_update_output_file m then t <| t_output_file := tu_output_file m |> else t in
  let t := if tu_update_start_time m then t <| t_start_time := tu_start_time m |> else t in
  let t := if tu_update_end_time m then t <| t_end_time := tu_end_time m |> else t in
  let t := if tu_update_stats m
           then t <| t_packet_count := tu_packet_count m |> <| t_bytes_captured := tu_bytes_captured m |> else t in
  if tu_update_error m then t <| t_error_message := tu_error_message m |> else t.

(** ** Starting a capture *)

(** The processes of the target, or the 404 reply. *)
Definition resolve_target_processes (e : env) (m : SRxStartCaptureMsg)
    : list SProcessInfo + SRxHttpReplyMsg :=
  let not_found body := set_reply 404 "Not Found" (bounded 256 body) (reply_for (sm_reply_target m)) in
  match sm_capture_mode m with
  | MODE_PROCESS =>
      match en_processes e (sm_proc_name m) with
      | [] => inr (not_found ("{" +:+ smember "error" "process not found" +:+ ","
                              +:+ smember "proc_name" (sm_proc_name m) +:+ "}"))
      | ps => inl ps
      end
  | MODE_PID =>
      match en_process e (sm_target_pid m) with
      | None => inr (not_found ("{" +:+ smember "error" "pid not found" +:+ ","
                                +:+ member "pid" (fmt_d (sm_target_pid m)) +:+ "}"))
      | Some p => inl [p]
      end
  | _ => inl []
  end.

(** [bpf]: the ports, ascending, joined by [or]. *)
Fixpoint ports_bpf (ports : list Z) : string :=
  match ports with
  | [] => ""
  | [p] => "port " +:+ fmt_d p
  | p :: rest => "port " +:+ fmt_d p +:+ " or " +:+ ports_bpf rest
  end.

Definition listening_ports (ps : list SProcessInfo) : list Z :=
  sorted_unique (filter (fun p => 0 < p) (concat (map pi_listening_ports ps))).

(** A process capture without a filter gets one from the listening ports. *)
Definition auto_filter (ps : list SProcessInfo) (m : SRxStartCaptureMsg) : SRxStartCaptureMsg :=
  if bool_decide (sm_capture_mode m = MODE_PROCESS) && is_empty (sm_filter m) && negb (is_empty (sm_proc_name m)) then
    match listening_ports ps with
    | [] => m
    | [p] =>
        let m := m <| sm_filter := ports_bpf [p] |> in
        if sm_port_filter m =? 0 then m <| sm_port_filter := p |> else m
    | ports => m <| sm_filter := ports_bpf ports |>
    end
  else m.

Definition infer_port (m : SRxStartCaptureMsg) : outcome SRxStartCaptureMsg :=
  if (sm_port_filter m <=? 0) && negb (is_empty (sm_filter m)) then
    inferred_port ← infer_port_from_filter (sm_filter m);
    Done (if 0 <? inferred_port then m <| sm_port_filter := inferred_port |> else m)
  else Done m.

Definition generate_task_key (m : SRxStartCaptureMsg) : string :=
  bounded 512
    match sm_capture_mode m with
    | MODE_INTERFACE => "iface:" +:+ sm_iface m +:+ ":" +:+ sm_filter m
    | MODE_PROCESS => "proc:" +:+ sm_proc_name m +:+ ":" +:+ sm_filter m +:+ ":" +:+ fmt_d (sm_port_filter m)
    | MODE_PID => "pid:" +:+ fmt_d (sm_target_pid m)
    | MODE_CONTAINER => "container:" +:+ sm_container_id m +:+ ":" +:+ sm_filter m
    end.

Definition default_iface (strategy : option CRxStrategyConfigManager) (m : SRxStartCaptureMsg) : SRxStartCaptureMsg :=
  if is_empty (sm_iface m) then
    let iface := match strategy with Some c => df_iface (sc_defaults c) | None => "" end in
    m <| sm_iface := if is_empty iface then "any" else iface |>
  else m.

(** The first positive one of the request's, the snapshot's and the
    configuration's durations. *)
Definition effective_duration (requested : Z) (snapshot : CaptureConfigSnapshot)
    (strategy : option CRxStrategyConfigManager) : Z :=
  let d := requested in
  let d := if d <=? 0 then cs_max_duration_sec snapshot else d in
  let d := match strategy with
           | Some c => if d <=? 0 then df_duration_sec (sc_defaults c) else d
           | None => d
           end in
  if d <=? 0 then kFallbackDurationSec else d.

Definition capture_spec (m : SRxStartCaptureMsg) (snapshot : CaptureConfigSnapshot) (ps : list SProcessInfo)
    : CaptureSpec :=
  mkSpec (sm_capture_mode m) (sm_iface m) (sm_proc_name m) (sm_target_pid m) (sm_container_id m)
    (if is_empty (sm_netns_path m) then match ps with p :: _ => pi_netns_path p | [] => sm_netns_path m end
     else sm_netns_path m)
    (sm_category m) (sm_filter m) (sm_protocol_filter m) (sm_protocol_filter_inline m) (sm_ip_filter m)
    (sm_port_filter m) (sm_file_pattern m) (sm_iface m) (sm_duration_sec m) (sm_max_bytes m) (sm_max_packets m)
    (cs_snaplen snapshot).

Definition make_sid (e : env) (signature : string) : string :=
  let '(year, mon, mday, hour, min, sec) := en_tm e in
  make_sid_with_timestamp signature year mon mday hour min sec (en_usec e).

(** What [handle_start_capture] computes before it decides. *)
Record request := mkRequest {
  rq_msg : SRxStartCaptureMsg;
  rq_processes : list SProcessInfo;
  rq_key : string;
  rq_snapshot : CaptureConfigSnapshot;
  rq_spec : CaptureSpec;
  rq_signature : string;
  rq_sid : string;
}.

Definition prepare_request (e : env) (m : SRxStartCaptureMsg) (ps : list SProcessInfo) : outcome request :=
  m ← infer_port (auto_filter ps m);
  let task_key := generate_task_key m in
  let snapshot := config_snapshot e in
  let m := default_iface (en_strategy e) m in
  let d := effective_duration (sm_duration_sec m) snapshot (en_strategy e) in
  let m := m <| sm_duration_sec := d |> in
  let snapshot := if cs_max_duration_sec snapshot <=? 0 then snapshot <| cs_max_duration_sec := d |> else snapshot in
  let spec := capture_spec m snapshot ps in
  payload ← build_capture_signature spec snapshot ps;
  let signature := capture_signature payload in
  Done (mkRequest m ps task_key snapshot spec signature (make_sid e signature)).

(** *** Duplicates and capacity *)

Definition status_name (st : ECaptureTaskStatus) : string :=
  match st with
  | STATUS_PENDING => "pending" | STATUS_RESOLVING => "resolving" | STATUS_RUNNING => "running"
  | STATUS_COMPLETED => "completed" | STATUS_FAILED => "failed" | STATUS_STOPPED => "stopped"
  end.

(** The id and status of an active task with the key. *)
Definition check_task_duplicate (m : TaskMgr) (task_key : string) : outcome (option (Z * string)) :=
  active ← is_key_active m task_key;
  if negb active then Done None
  else
    r ← query_task_by_key m task_key;
    Done (Some match r with
               | Some sn => (sn_capture_id sn, status_name (sn_status sn))
               | None => (0, "unknown")
               end).

Definition get_max_concurrent_limit (e : env) : Z :=
  let max_concurrent := default 0 (en_max_concurrent e) in
  if max_concurrent <=? 0 then kMinConcurrentCaptures else max_concurrent.

(** [running_count] and [pending_count]. *)
Definition count_active_tasks (m : TaskMgr) : Z * Z :=
  let stats := get_stats m in (running_count stats +64 resolving_count stats, pending_count stats).

Definition create_duplicate_error_reply (reply : SRxHttpReplyMsg) (task_key sid : string) (existing_id : Z)
    (status : string) : SRxHttpReplyMsg :=
  set_reply 409 "Conflict"
    ("{" +:+ smember "error" "duplicate capture task" +:+ "," +:+ smember "key" (json_escape task_key)
       +:+ (if is_empty sid then "" else "," +:+ smember "sid" (json_escape sid))
       +:+ "," +:+ member "existing_capture_id" (fmt_d existing_id)
       +:+ "," +:+ smember "status" (json_escape status) +:+ "}") reply.

Definition create_capacity_error_reply (reply : SRxHttpReplyMsg) (max_concurrent : Z) : SRxHttpReplyMsg :=
  set_reply 429 "Too Many Requests"
    (bounded 256 ("{" +:+ smember "error" "capture capacity reached" +:+ ","
                    +:+ member "max_concurrent" (fmt_d max_concurrent) +:+ "}")) reply.

(** The duplicate of a request, as the reply names it: id, status, key, sid. *)
Definition find_duplicate (m : TaskMgr) (r : request) : outcome (option (Z * string * string * string)) :=
  let named (sn : option TaskSnapshot) (id : Z) (status : string) :=
    let key := match sn with Some sn => sn_key sn | None => "" end in
    let sid := match sn with Some sn => sn_sid sn | None => "" end in
    (id, status, if is_empty key then rq_key r else key, if is_empty sid then rq_sid r else sid) in
  signature_snapshot ← query_active_task_by_signature m (rq_signature r);
  match signature_snapshot with
  | Some sn => Done (Some (named (Some sn) (sn_capture_id sn) (capture_status_to_string (sn_status sn))))
  | None =>
      d ← check_task_duplicate m (rq_key r);
      match d with
      | None => Done None
      | Some (existing_id, status) =>
          sn ← (if 0 <? existing_id then query_task m existing_id else Done None);
          Done (Some (named sn existing_id status))
      end
  end.

(** *** Acceptance *)

(** The first path that is not empty. *)
Definition first_netns (netns : string) (ps : list SProcessInfo) : string :=
  foldl (fun n p => if is_empty n then pi_netns_path p else n) netns ps.

Definition task_of (now : Z) (capture_id : Z) (r : request) : SRxCaptureTask :=
  let m := rq_msg r in
  new_task <| t_capture_id := capture_id |> <| t_key := rq_key r |> <| t_capture_mode := sm_capture_mode m |>
    <| t_iface := sm_iface m |> <| t_proc_name := sm_proc_name m |> <| t_target_pid := sm_target_pid m |>
    <| t_container_id := sm_container_id m |> <| t_resolved_iface := sm_iface m |>
    <| t_netns_path := first_netns (sm_netns_path m) (rq_processes r) |>
    <| t_matched_pids := map pi_pid (rq_processes r) |>
    <| t_filter := sm_filter m |> <| t_protocol_filter := sm_protocol_filter m |>
    <| t_ip_filter := sm_ip_filter m |> <| t_port_filter := sm_port_filter m |>
    <| t_category := sm_category m |> <| t_file_pattern := sm_file_pattern m |>
    <| t_duration_sec := sm_duration_sec m |> <| t_max_bytes := sm_max_bytes m |>
    <| t_max_packets := sm_max_packets m |> <| t_priority := 0 |>
    <| t_signature := rq_signature r |> <| t_sid := rq_sid r |>
    <| t_reply_target := sm_reply_target m |> <| t_client_ip := sm_client_ip m |>
    <| t_request_user := sm_request_user m |>
    <| t_status := STATUS_PENDING |> <| t_start_time := now |>.

(** The id and the new value of [next_capture_id], whose increment must not
    overflow. *)
Definition take_capture_id (next : Z) : outcome (Z * Z) :=
  if next <? kCaptureIdStartValue then Done (kCaptureIdStartValue, next)
  else if next =? INT_MAX then Undef else Done (next, next + 1).

Definition started_body (capture_id : Z) (r : request) : string :=
  let m := rq_msg r in
  bounded 1024
    ("{" +:+ member "capture_id" (fmt_d capture_id) +:+ "," +:+ member "duplicate" "false" +:+ ","
       +:+ smember "status" "started" +:+ "," +:+ smember "mode" (capture_mode_to_string (sm_capture_mode m)) +:+ ","
       +:+ smember "key" (rq_key r) +:+ "," +:+ smember "sid" (rq_sid r) +:+ ","
       +:+ member "matched_pids" (fmt_d (Z.of_nat (length (rq_processes r)))) +:+ ","
       +:+ member "port" (fmt_d (sm_port_filter m)) +:+ "}").

Definition create_and_add_capture_task (e : env) (r : request) (reply : SRxHttpReplyMsg) (s : manager)
    : outcome (Z * SRxHttpReplyMsg * manager) :=
  '(capture_id, next) ← take_capture_id (mg_next_capture_id s);
  let '(m, task) := alloc (mg_tasks s) (task_of (en_time e) capture_id r) in
  '(_, m) ← add_task m capture_id (rq_key r) (rq_signature r) (rq_sid r) (Some task);
  Done (capture_id, set_reply 200 "OK" (started_body capture_id r) reply,
        (set_tasks s m) <| mg_next_capture_id := next |>).

(** The worker the next task goes to. *)
Definition pick {A} (next : Z) (l : list A) : option A :=
  match l with
  | [] => None
  | _ => l !! Z.to_nat (next mod Z.of_nat (length l))
  end.

Definition start_v2 (e : env) (s : manager) (capture_id worker : Z) (r : request) : SRxCaptureStartMsgV2 :=
  mkStartV2 (mkBase capture_id (rq_key r) (rq_sid r) 1 (en_usec e) (cs_config_hash (rq_snapshot r)) (mg_thread_index s))
    (rq_snapshot r) (rq_spec r) worker.

Definition dispatch_task_to_worker (e : env) (capture_id : Z) (r : request) (s : manager)
    : outcome (manager * outbox) :=
  match pick (mg_next_worker s) (mg_workers s) with
  | None => Done (s, [])
  | Some worker =>
      let s := s <| mg_next_worker := mg_next_worker s +64 1 |> in
      let target := mkObjId OBJ_ID_THREAD worker in
      let out := [(target, MsgCaptureStart (start_v2 e s capture_id worker r));
                  (target, MsgStartCapture ((rq_msg r) <| sm_sid := rq_sid r |>))] in
      '(_, m) ← update_task (mg_tasks s) capture_id (AssignWorker worker);
      Done (set_tasks s m, out)
  end.

(** The timing fields of the final reply. *)
Definition stamp_reply (now_ms : Z) (m : SRxStartCaptureMsg) (reply : SRxHttpReplyMsg) : SRxHttpReplyMsg :=
  let reply := reply <| hr_debug_request_ts_ms := sm_enqueue_ts_ms m |> <| hr_debug_reply_ts_ms := now_ms |> in
  if 0 <? sm_enqueue_ts_ms m
  then reply <| hr_headers := <["X-Debug-QueueMs" := fmt_d (now_ms -64 sm_enqueue_ts_ms m)]> (hr_headers reply) |>
  else reply.

(** The decision: duplicate, over capacity, or accepted. *)
Definition decide_request (e : env) (r : request) (s : manager) : outcome (manager * outbox) :=
  let m := rq_msg r in
  duplicate ← find_duplicate (mg_tasks s) r;
  let '(running_count, _) := count_active_tasks (mg_tasks s) in
  let max_concurrent := get_max_concurrent_limit e in
  let reply := reply_for (sm_reply_target m) in
  let answer reply := send_reply_to_http (sm_reply_target m) (stamp_reply (en_ms e) m reply) in
  match duplicate with
  | Some (existing_id, status, key, sid) =>
      Done (s, answer (create_duplicate_error_reply reply key sid existing_id status))
  | None =>
      if max_concurrent <=? running_count then Done (s, answer (create_capacity_error_reply reply max_concurrent))
      else
        '(capture_id, reply, s) ← create_and_add_capture_task e r reply s;
        '(s, out) ← dispatch_task_to_worker e capture_id r s;
        Done (s, out ++ answer reply)
  end.

Definition handle_start_capture (e : env) (m : SRxStartCaptureMsg) (s : manager) : outcome (manager * outbox) :=
  match resolve_target_processes e m with
  | inr error_reply => Done (s, send_reply_to_http (sm_reply_target m) error_reply)
  | inl ps => r ← prepare_request e m ps; decide_request e r s
  end.

(** Stopping is refused. *)
Definition handle_stop_capture (m : SRxStopCaptureMsg) : outbox :=
  send_reply_to_http (sp_reply_target m)
    (set_reply 501 "Not Implemented"
       ("{" +:+ smember "error" "stop not supported" +:+ ","
          +:+ smember "message" "capture tasks cannot be stopped once started" +:+ "}")
       (reply_for (sp_reply_target m))).

(** ** Queries *)

(** [long] arithmetic stored into an [int]; [duration_sec] is positive. *)
Definition progress_pct (elapsed_sec duration_sec : Z) : Z :=
  let pct := signed_cast 32 ((elapsed_sec * 100) / duration_sec) in if 100 <? pct then 100 else pct.

Definition elapsed_sec (now start_time : Z) : Z := let e := now - start_time in if e <? 0 then 0 else e.
Definition remaining_sec (duration elapsed : Z) : Z := let r := duration - elapsed in if r <? 0 then 0 else r.

Definition progress_fields (now : Z) (sn : TaskSnapshot) : string :=
  match sn_status sn with
  | STATUS_RUNNING | STATUS_RESOLVING =>
      if (0 <? sn_duration_sec sn) && (0 <? sn_start_time sn) then
        let elapsed := elapsed_sec now (sn_start_time sn) in
        "," +:+ member "estimated_progress_pct" (fmt_d (progress_pct elapsed (sn_duration_sec sn)))
          +:+ "," +:+ member "duration_sec" (fmt_d (sn_duration_sec sn))
          +:+ "," +:+ member "elapsed_sec" (fmt_d elapsed)
          +:+ "," +:+ member "remaining_sec" (fmt_d (remaining_sec (sn_duration_sec sn) elapsed))
      else ""
  | _ => ""
  end.

Definition jbool (b : bool) : string := if b then "true" else "false".

(** The items joined by commas. *)
Fixpoint comma_join (l : list string) : string :=
  match l with
  | [] => ""
  | [x] => x
  | x :: rest => x +:+ "," +:+ comma_join rest
  end.

Definition opt_str (key value : string) : string :=
  if is_empty value then "" else "," +:+ smember key (json_escape value).
Definition opt_pos (key : string) (value : Z) : string :=
  if 0 <? value then "," +:+ member key (fmt_d value) else "".

Definition file_json (f : CaptureFileInfo) : string :=
  "{" +:+ smember "path" (json_escape (cf_file_path f)) +:+ "," +:+ member "size" (fmt_d (cf_file_size f))
    +:+ "," +:+ member "segment" (fmt_d (cf_segment_index f)) +:+ "," +:+ member "segments" (fmt_d (cf_total_segments f))
    +:+ "," +:+ member "compressed" (jbool (cf_compressed f))
    +:+ opt_str "archive" (cf_archive_path f) +:+ opt_pos "compressed_at" (cf_compress_finish_ts f)
    +:+ opt_str "record" (cf_record_path f) +:+ "}".

Definition array (items : list string) : string := "[" +:+ comma_join items +:+ "]".

Definition opt_array (key : string) (items : list string) : string :=
  match items with [] => "" | _ => "," +:+ member key (array items) end.

Definition archive_json (a : CaptureArchiveInfo) : string :=
  "{" +:+ smember "path" (json_escape (ca_archive_path a)) +:+ "," +:+ member "size" (fmt_d (ca_archive_size a))
    +:+ opt_pos "compressed_at" (ca_compress_finish_ts a)
    +:+ opt_array "files" (map (fun f => quoted (json_escape (cf_file_path f))) (ca_files a)) +:+ "}".

Definition query_body (now : Z) (sn : TaskSnapshot) : string :=
  "{" +:+ member "capture_id" (fmt_d (sn_capture_id sn))
    +:+ "," +:+ smember "status" (capture_status_to_string (sn_status sn))
    +:+ "," +:+ smember "mode" (capture_mode_to_string (sn_capture_mode sn))
    +:+ "," +:+ smember "key" (json_escape (sn_key sn)) +:+ "," +:+ smember "sid" (json_escape (sn_sid sn))
    +:+ opt_str "iface" (sn_iface sn) +:+ opt_str "proc_name" (sn_proc_name sn) +:+ opt_str "filter" (sn_filter sn)
    +:+ opt_pos "pid" (sn_target_pid sn) +:+ opt_pos "port" (sn_port_filter sn)
    +:+ "," +:+ member "start_time" (fmt_d (sn_start_time sn)) +:+ "," +:+ member "end_time" (fmt_d (sn_end_time sn))
    +:+ "," +:+ member "packets" (fmt_d (sn_packet_count sn)) +:+ "," +:+ member "bytes" (fmt_d (sn_bytes_captured sn))
    +:+ "," +:+ member "worker" (fmt_d (sn_worker_thread_index sn))
    +:+ progress_fields now sn
    +:+ "," +:+ member "stop_requested" (jbool (sn_stop_requested sn))
    +:+ "," +:+ smember "client_ip" (json_escape (sn_client_ip sn))
    +:+ "," +:+ smember "request_user" (json_escape (sn_request_user sn))
    +:+ opt_str "error" (sn_error_message sn)
    +:+ opt_array "files" (map file_json (sn_captured_files sn))
    +:+ opt_array "archives" (map archive_json (sn_archives sn)) +:+ "}".

Definition handle_query_capture (e : env) (m : SRxQueryCaptureMsg) (s : manager) : outcome outbox :=
  r ← query_task (mg_tasks s) (qm_capture_id m);
  let reply := reply_for (qm_reply_target m) in
  Done (send_reply_to_http (qm_reply_target m)
    match r with
    | None =>
        set_reply 404 "Not Found"
          (bounded 256 ("{" +:+ smember "error" "capture_not_found" +:+ ","
                          +:+ member "capture_id" (fmt_d (qm_capture_id m)) +:+ "}")) reply
    | Some sn => set_reply 200 "OK" (query_body (en_time e) sn) reply
    end).

(** ** Reports of the workers, the filter thread and the cleanup thread *)

(** A change of the shared tasks. *)
Definition on_tasks (s : manager) (r : outcome (bool * TaskMgr)) : outcome manager :=
  '(_, m) ← r; Done (set_tasks s m).

Definition handle_task_update (e : env) (u : SRxTaskUpdateMsg) (s : manager) : outcome manager :=
  let id := tu_capture_id u in
  let m := mg_tasks s in
  let out := if tu_update_output_file u then tu_output_file u else ""%string in
  '(handled, m) ←
    (if decide (tu_new_status u = STATUS_RUNNING) then
       if tu_update_start_time u
       then set_capture_started m id (tu_start_time u * 1000000) (if tu_update_capture_pid u then tu_capture_pid u else -1) out
       else Done (false, m)
     else Done (false, m));
  '(handled, m) ←
    (if tu_update_stats u then
       '(ok, m) ← update_progress m id (tu_packet_count u) (tu_bytes_captured u)
                    (if tu_update_end_time u then tu_end_time u * 1000000 else 0);
       Done (handled || ok, m)
     else Done (handled, m));
  '(handled, m) ←
    (match tu_new_status u with
     | STATUS_COMPLETED =>
         '(ok, m) ← set_capture_finished m id (if tu_update_end_time u then tu_end_time u * 1000000 else en_usec e)
                      (tu_packet_count u) (tu_bytes_captured u) out;
         Done (handled || ok, m)
     | STATUS_FAILED =>
         if tu_update_error u then
           '(ok, m) ← set_capture_failed m (en_time e) id (tu_error_message u); Done (handled || ok, m)
         else Done (handled, m)
     | _ => Done (handled, m)
     end);
  if handled : bool then Done (set_tasks s m)
  else on_tasks s (update_task m id (UpdateTask u)).

Definition handle_capture_started_v2 (st : SRxCaptureStartedMsgV2) (s : manager) : outcome manager :=
  on_tasks s (set_capture_started (mg_tasks s) (mb_capture_id (st_base st)) (st_start_ts st) (st_capture_pid st)
                (st_output_file st)).

Definition handle_capture_progress_v2 (p : SRxCaptureProgressMsgV2) (s : manager) : outcome manager :=
  let stats := pr_progress p in
  on_tasks s (update_progress (mg_tasks s) (mb_capture_id (pr_base p)) (cp_packets stats) (cp_bytes stats)
                (if cp_last_packet_ts stats =? 0 then pr_report_ts p else cp_last_packet_ts stats)).

Definition handle_capture_file_ready_v2 (e : env) (r : SRxCaptureFileReadyMsgV2) (s : manager)
    : outcome (manager * outbox) :=
  let b := fr_base r in
  match fr_files r with
  | [] => Done (s, [])
  | files =>
      s ← on_tasks s (append_capture_files (mg_tasks s) (mb_capture_id b) files);
      match en_cleanup e with
      | None => Done (s, [])
      | Some cleanup_thread =>
          Done (s, [(mkObjId OBJ_ID_THREAD cleanup_thread,
                     MsgFileEnqueue (mkFileEnqueueV2
                       (mkBase (mb_capture_id b) (mb_key b) (mb_sid b) (mb_op_version b) (en_usec e)
                          (mb_config_hash b) (mg_thread_index s))
                       files (config_snapshot e)))])
      end
  end.

(** A finished capture of a sample module lets the module trigger again. *)
Definition clear_module_cooldown_for_capture (capture_id : Z) (s : manager) : outcome manager :=
  snapshot ← query_task (mg_tasks s) capture_id;
  Done match snapshot with
       | None => s
       | Some sn =>
           if is_prefix "module:" (sn_request_user sn) && negb (is_empty (str_drop 7 (sn_request_user sn)))
           then s <| mg_last_trigger := delete (str_drop 7 (sn_request_user sn)) (mg_last_trigger s) |>
           else s
       end.

Definition handle_capture_finished_v2 (e : env) (f : SRxCaptureFinishedMsgV2) (s : manager) : outcome manager :=
  let id := mb_capture_id (fi_base f) in
  let r := fi_result f in
  s ←
    (if cr_exit_code r =? 0 then
       on_tasks s (set_capture_finished (mg_tasks s) id (cr_finish_ts r) (cr_total_packets r) (cr_total_bytes r) "")
     else if cr_exit_code r =? error_code_value ERR_RUN_CANCELLED then
       s ← on_tasks s (update_task (mg_tasks s) id
             (MarkStopped (en_time e) (cr_finish_ts r) (cr_total_packets r) (cr_total_bytes r)
                (if is_empty (cr_error_message r) then "stopped" else cr_error_message r)));
       on_tasks s (update_status (mg_tasks s) id STATUS_STOPPED)
     else
       on_tasks s (set_capture_failed (mg_tasks s) (en_time e) id
         (if is_empty (cr_error_message r) then "capture_failed" else cr_error_message r)));
  clear_module_cooldown_for_capture id s.

Definition handle_capture_failed_v2 (e : env) (f : SRxCaptureFailedMsgV2) (s : manager) : outcome manager :=
  let id := mb_capture_id (fa_base f) in
  s ← on_tasks s (set_capture_failed (mg_tasks s) (en_time e) id
        (if is_empty (fa_error_message f) then rx_capture_error_to_string (fa_error_code f) else fa_error_message f));
  clear_module_cooldown_for_capture id s.

Definition with_usage (f : Manager.usage -> Manager.usage) (s : manager) : manager := s <| mg_usage := f (mg_usage s) |>.

(** [track_pdef_usage_start] and [track_pdef_usage_end] ignore an empty path,
    which the handler also checks. *)
Definition handle_capture_raw_file_v2 (raw : SRxCaptureRawFileMsgV2) (s : manager) : manager * outbox :=
  let id := mb_capture_id (rw_base raw) in
  let path := rw_pdef_file_path raw in
  let s := with_usage (Manager.track_pdef_usage_start id path) s in
  match pick (mg_next_filter s) (mg_filter_threads s) with
  | None => (with_usage (Manager.track_pdef_usage_end id path) s, [])
  | Some filter_thread =>
      (s <| mg_next_filter := mg_next_filter s +64 1 |>,
       [(mkObjId OBJ_ID_THREAD filter_thread,
         MsgCaptureRawFile (raw <| rw_manager_thread_index := mg_thread_index s |>))])
  end.

Definition handle_capture_filtered_file_v2 (e : env) (f : SRxCaptureFilteredFileMsgV2) (s : manager) : outcome manager :=
  let id := mb_capture_id (ff_base f) in
  let path := ff_pdef_file_path f in
  let file_info := new_file_info <| cf_file_path := ff_filtered_pcap_path f |> <| cf_file_size := ff_file_size f |>
                     <| cf_file_ready_ts := en_usec e |> in
  s ← on_tasks s (append_capture_files (mg_tasks s) id [file_info]);
  s ← on_tasks s (set_capture_finished (mg_tasks s) id (en_usec e) (ff_total_packets f) (ff_file_size f)
                    (ff_filtered_pcap_path f));
  s ← clear_module_cooldown_for_capture id s;
  Done (with_usage (fun u => Manager.try_writeback_pdef_endian path (Manager.track_pdef_usage_end id path u)) s).

Definition handle_clean_compress_done (d : SRxCleanCompressDoneMsgV2) (s : manager) : outcome manager :=
  let archive := mkArchiveInfo (cd_archive_path d) (cd_compressed_files d) (cd_compressed_bytes d)
    match cd_compressed_files d with
    | [] => Z.quot (mb_ts_usec (cd_base d)) 1000000
    | f :: _ => cf_compress_finish_ts f
    end in
  on_tasks s (record_archive (mg_tasks s) (mb_capture_id (cd_base d)) archive).

(** ** Captures triggered by samples *)

Definition should_throttle_module (last : gmap string Z) (module_name : string) (cooldown_sec now : Z) : bool :=
  if cooldown_sec <=? 0 then false else
  match last !! module_name with
  | Some last => (last <=? now) && (now - last <? cooldown_sec)
  | None => false
  end.

Definition mode_of_key (key : string) : option ECaptureMode :=
  if String.eqb key "process" || String.eqb key "proc" then Some MODE_PROCESS
  else if String.eqb key "pid" then Some MODE_PID
  else if String.eqb key "container" || String.eqb key "container_id" then Some MODE_CONTAINER
  else if String.eqb key "iface" || String.eqb key "interface" then Some MODE_INTERFACE
  else None.

Definition target_keys : list string :=
  ["process"; "proc"; "pid"; "container"; "container_id"; "iface"; "interface"]%string.

(** The mode and target of a capture hint: the first target key among the
    pairs, or the [key:value] form of the whole hint. *)
Fixpoint target_pair (keys : list string) (pairs : gmap string string) : option (ECaptureMode * string) :=
  match keys with
  | [] => None
  | key :: rest =>
      match pairs !! key, mode_of_key key with
      | Some v, Some mode => Some (mode, v)
      | _, _ => target_pair rest pairs
      end
  end.

Definition hint_target (hint : string) (pairs : gmap string string) : option (ECaptureMode * string) :=
  match target_pair target_keys pairs with
  | Some t => Some t
  | None =>
      pos ← find_str ":" hint;
      mode ← mode_of_key (to_lower_copy (trim_copy (str_take pos hint)));
      Some (mode, strip_quotes_copy (trim_copy (str_drop (pos + 1) hint)))
  end.

Definition positive (v : option Z) : option Z :=
  match v with Some x => if 0 <? x then Some x else None | None => None end.

(** The value of the last of two keys that has one, else [dflt]. *)
Definition hint_str (pairs : gmap string string) (k1 k2 dflt : string) : string :=
  match pairs !! k2 with Some v => v | None => default dflt (pairs !! k1) end.

Definition hint_int (pairs : gmap string string) (k1 k2 : string) (dflt : Z) : Z :=
  let get k := positive (pairs !! k ≫= parse_int_value) in
  match get k2 with Some v => v | None => default dflt (get k1) end.

(** The message with its target, or [None] for a hint without one. *)
Definition with_target (defaults : option SRxDefaults) (mode : ECaptureMode) (target : string)
    : option SRxStartCaptureMsg :=
  let target :=
    match mode, defaults with
    | MODE_INTERFACE, Some d => if is_empty target then df_iface d else target
    | _, _ => target
    end in
  let m := new_start_msg <| sm_capture_mode := mode |> in
  match mode with
  | MODE_PID =>
      pid ← positive (parse_int_value target); Some (m <| sm_target_pid := pid |>)
  | _ =>
      if is_empty target then None
      else Some match mode with
                | MODE_INTERFACE => m <| sm_iface := target |>
                | MODE_PROCESS => m <| sm_proc_name := target |>
                | _ => m <| sm_container_id := target |>
                end
  end.

Definition or_default (s dflt : string) : string := if is_empty s then dflt else s.

Definition prepare_capture_from_sample (now_ms : Z) (strategy : option CRxStrategyConfigManager) (alert : SRxSampleMsg)
    : option SRxStartCaptureMsg :=
  let module_name := or_default (sa_module_name alert) "default" in
  let defaults := option_map sc_defaults strategy in
  let pairs := parse_capture_hint_pairs (sa_capture_hint alert) in
  '(mode, target) ← hint_target (sa_capture_hint alert) pairs;
  m ← with_target defaults mode target;
  let m := m <| sm_netns_path := default "" (pairs !! "netns"%string) |>
             <| sm_filter := default "" (pairs !! "filter"%string) |>
             <| sm_protocol_filter := hint_str pairs "protocol" "protocol_filter" "" |>
             <| sm_ip_filter := hint_str pairs "ip" "ip_filter" "" |>
             <| sm_port_filter := hint_int pairs "port" "port_filter" 0 |>
             <| sm_category := match pairs !! "category"%string with
                               | Some c => c
                               | None => sa_capture_category alert
                               end |> in
  let duration := hint_int pairs "duration" "duration_sec" (sa_capture_duration_sec alert) in
  let duration := match defaults with
                  | Some d => if duration <=? 0 then df_duration_sec d else duration
                  | None => duration
                  end in
  let m := if 0 <? duration then m <| sm_duration_sec := duration |> else m in
  let m :=
    match pairs !! "max_bytes"%string with
    | Some v => match positive (parse_long_value v) with
                | Some b => m <| sm_max_bytes := b |>
                | None => m
                end
    | None => match defaults with
              | Some d => m <| sm_max_bytes := df_max_bytes d |>
              | None => m
              end
    end in
  let m := m <| sm_max_packets := hint_int pairs "max_packets" "max_packets" 0 |> in
  let m := match defaults with
           | Some d => m <| sm_category := or_default (sm_category m) (df_category d) |>
                         <| sm_file_pattern := df_file_pattern d |>
           | None => m
           end in
  Some (m <| sm_client_ip := "sample" |> <| sm_request_user := "module:" +:+ module_name |>
          <| sm_enqueue_ts_ms := now_ms |>).

Definition alert_record (a : SRxSampleMsg) : SRxSampleAlertRecord :=
  mkAlert 0 (sa_timestamp a) (sa_cpu_hit a) (sa_mem_hit a) (sa_net_hit a) (sa_module_name a) (sa_capture_hint a)
    (sa_capture_category a) (sa_capture_duration_sec a) (sa_cooldown_sec a) (sa_cpu_threshold a)
    (sa_mem_threshold a) (sa_net_threshold a).

Definition module_cooldown (strategy : option CRxStrategyConfigManager) (alert : SRxSampleMsg) : Z :=
  let c := sa_cooldown_sec alert in
  let c := match strategy with
           | Some cfg => if c <=? 0 then lm_per_key_cooldown_sec (sc_limits cfg) else c
           | None => c
           end in
  if c <=? 0 then 60 else c.

Definition handle_sample_alert (e : env) (alert : SRxSampleMsg) (s : manager) : outcome (manager * outbox) :=
  let alert := alert <| sa_module_name := or_default (sa_module_name alert) "default" |> in
  let '(alert_id, ring) := record_sample_alert (en_time e) (alert_record alert) (mg_alerts s) in
  let s := s <| mg_alerts := ring |> in
  let alert := alert <| sa_alert_id := alert_id |> in
  let notify := map (fun t => (mkObjId OBJ_ID_THREAD t, MsgSampleAlert alert)) (en_http_threads e) in
  if is_empty (sa_capture_hint alert) then Done (s, notify) else
  if should_throttle_module (mg_last_trigger s) (sa_module_name alert) (module_cooldown (en_strategy e) alert) (en_time e)
  then Done (s, notify)
  else
    match prepare_capture_from_sample (en_ms e) (en_strategy e) alert with
    | None => Done (s, notify)
    | Some start_msg =>
        let s := s <| mg_last_trigger := <[sa_module_name alert := en_time e]> (mg_last_trigger s) |> in
        '(s, out) ← handle_start_capture e start_msg s;
        Done (s, notify ++ out)
    end.

(** ** The thread *)

Definition quiet (r : outcome manager) : outcome (manager * outbox) := s ← r; Done (s, []).

(** [handle_msg]; what the other messages start only writes the log. *)
Definition handle_msg (e : env) (msg : message) (s : manager) : outcome (manager * outbox) :=
  match msg with
  | MsgStartCapture m => handle_start_capture e m s
  | MsgStopCapture m => Done (s, handle_stop_capture m)
  | MsgQueryCapture m => out ← handle_query_capture e m s; Done (s, out)
  | MsgTaskUpdate m => quiet (handle_task_update e m s)
  | MsgCaptureStarted m => quiet (handle_capture_started_v2 m s)
  | MsgCaptureProgress m => quiet (handle_capture_progress_v2 m s)
  | MsgCaptureFileReady m => handle_capture_file_ready_v2 e m s
  | MsgCaptureFinished m => quiet (handle_capture_finished_v2 e m s)
  | MsgCaptureFailed m => quiet (handle_capture_failed_v2 e m s)
  | MsgCaptureRawFile m => Done (handle_capture_raw_file_v2 m s)
  | MsgCaptureFilteredFile m => quiet (handle_capture_filtered_file_v2 e m s)
  | MsgPdefEndian m => Done (with_usage (Manager.handle_pdef_endian_detected m) s, [])
  | MsgSampleAlert m => handle_sample_alert e m s
  | MsgCompressDone m => quiet (handle_clean_compress_done m s)
  | _ => Done (s, [])
  end.

(** [run_process], and the queue timer's [check_queue]. *)
Definition run_process (s : manager) : outcome manager :=
  m ← cleanup_pending_deletes (mg_tasks s); Done (set_tasks s m).
