(* ===== verification/CaptureManagerCorrect.v ===== *)
(** * Correctness of the capture manager

    The invariant of the manager's state ([manager_ok]), what a handler may do
    to the tasks in progress ([quiet_step]), that every report, query and stop
    request keeps it, and what the search for a duplicate finds. *)

From S2P Require Import Prelude CppString TaskTypes TaskMgr TaskMgrCorrect Messages CaptureUtil ProcData PdefWriteback CaptureManager.

(** ** The captures in progress *)

Definition occupying (st : ECaptureTaskStatus) : bool :=
  match st with STATUS_RESOLVING | STATUS_RUNNING => true | _ => false end.

Definition busy (t : SRxCaptureTask) : Prop := occupying (t_status t) = true.

#[export] Instance busy_dec t : Decision (busy t) := decide (occupying (t_status t) = true).

(** The tasks the limit counts. *)
Definition occupied (v : gmap Z SRxCaptureTask) : Z :=
  Z.of_nat (size (filter (fun x => busy x.2) v)).

Lemma occupied_insert v id t :
  v !! id = None -> occupied (<[id := t]> v) = occupied v + (if decide (busy t) then 1 else 0).
Proof.
  intros Hv. unfold occupied. case_decide as Hs.
  - rewrite map_filter_insert_True by done. rewrite map_size_insert_None; [lia|].
    apply map_lookup_filter_None. by left.
  - rewrite map_filter_insert_False by done. rewrite delete_id by done. lia.
Qed.

Lemma occupied_counts v : occupied v = count STATUS_RUNNING v + count STATUS_RESOLVING v.
Proof.
  induction v as [|id t v Hv IH] using map_ind; [done|].
  rewrite occupied_insert, !count_insert, IH by done.
  unfold busy. repeat case_decide; destruct (t_status t); try done; lia.
Qed.

(** The counters give the number of captures in progress. *)
Lemma running_count_occupied m :
  mgr_inv m -> fst (count_active_tasks m) = u64 (occupied (tasks m)).
Proof.
  intros [_ [_ _ [_ Hs]]]. unfold count_active_tasks, get_stats. cbn [fst].
  change (running_count (tm_stats m)) with (stat STATUS_RUNNING (tm_stats m)).
  change (resolving_count (tm_stats m)) with (stat STATUS_RESOLVING (tm_stats m)).
  rewrite !Hs, u64_add, occupied_counts. unfold tasks. unfold u64. by rewrite Zplus_mod_idemp_r.
Qed.

(** [v'] has no task that [v] lacks and none is in progress anew. *)
Definition calmer (v v' : gmap Z SRxCaptureTask) : Prop :=
  forall id t', v' !! id = Some t' ->
    exists t, v !! id = Some t /\ (busy t' -> busy t) /\ t_capture_id t' = t_capture_id t.

Lemma calmer_refl v : calmer v v.
Proof. intros id t H. by exists t. Qed.

Lemma calmer_trans v1 v2 v3 : calmer v1 v2 -> calmer v2 v3 -> calmer v1 v3.
Proof.
  intros H1 H2 id t H. destruct (H2 id t H) as (t2 & E2 & B2 & I2).
  destruct (H1 id t2 E2) as (t1 & E1 & B1 & I1). exists t1. split; [done|]. split; [auto|congruence].
Qed.

Lemma occupied_sub v v' (X : gset Z) :
  dom (filter (fun x => busy x.2) v') ⊆ X ∪ dom (filter (fun x => busy x.2) v) ->
  occupied v' <= Z.of_nat (size X) + occupied v.
Proof.
  intros H. unfold occupied. rewrite <- !(size_dom (D := gset Z)).
  set (B := dom (filter _ v)) in *. apply subseteq_size in H. rewrite size_union_alt in H.
  assert (size (B ∖ X) <= size B)%nat; [apply subseteq_size; set_solver|lia].
Qed.

Lemma calmer_occupied v v' : calmer v v' -> occupied v' <= occupied v.
Proof.
  intros H. pose proof (occupied_sub v v' ∅) as L. rewrite size_empty in L. apply L.
  intros id Hid. apply elem_of_dom in Hid as [t' Ht']. apply map_lookup_filter_Some in Ht' as [Ht' Hb].
  destruct (H id t' Ht') as (t & Ht & Hbt & _). apply elem_of_union_r, elem_of_dom. exists t.
  apply map_lookup_filter_Some. auto.
Qed.

Lemma calmer_alter (f : SRxCaptureTask -> SRxCaptureTask) id v :
  (forall t, v !! id = Some t -> busy (f t) -> busy t) ->
  (forall t, t_capture_id (f t) = t_capture_id t) -> calmer v (alter f id v).
Proof.
  intros Hf Hi j t' Hj. destruct (decide (j = id)) as [->|Hne].
  - rewrite lookup_alter_eq in Hj. destruct (v !! id) as [t|]; [|done]. injection Hj as <-. exists t. auto.
  - rewrite lookup_alter_ne in Hj by done. by exists t'.
Qed.

(** ** Changes of the task manager *)

(** The task [id], if it exists, is in progress. *)
Definition busy_at (m : TaskMgr) (id : Z) : Prop := forall t, tasks m !! id = Some t -> busy t.

(** A change that runs, keeps the invariant, puts no task in progress anew and
    keeps [id] in progress if [b]. *)
Definition keeps (b : bool) (m : TaskMgr) (id : Z) (r : outcome (bool * TaskMgr)) : Prop :=
  exists ok m', r = Done (ok, m') /\ mgr_inv m' /\ calmer (tasks m) (tasks m') /\
    (b = true -> busy_at m id -> busy_at m' id).

Lemma keeps_alter (b : bool) m id ok m' f :
  mgr_inv m' -> tasks m' = alter f id (tasks m) ->
  (forall t, tasks m !! id = Some t -> busy (f t) -> busy t) ->
  (forall t, t_capture_id (f t) = t_capture_id t) ->
  (b = true -> forall t, busy t -> busy (f t)) -> keeps b m id (Done (ok, m')).
Proof.
  intros Hm E Hf Hi Hb. exists ok, m'. split; [done|split; [done|split]].
  - rewrite E. by apply calmer_alter.
  - intros Eb Ha t. rewrite E, lookup_alter_eq. destruct (tasks m !! id) as [t0|] eqn:E0; [|done].
    intros [= <-]. auto.
Qed.

Lemma keeps_update b m id u :
  mgr_inv m -> (forall t, same_names t (u t)) ->
  (forall t, tasks m !! id = Some t -> busy (u t) -> busy t) ->
  (b = true -> forall t, busy t -> busy (u t)) -> keeps b m id (update_task m id u).
Proof.
  intros Hm Hn Hf Hb. destruct (update_task_ok m id u Hm) as (m' & -> & Hm' & E); [by intros|].
  eapply keeps_alter; [done|done|done| |done]. intros t. apply Hn.
Qed.

Lemma keeps_same_status b m id u :
  mgr_inv m -> (forall t, same_names t (u t)) -> (forall t, t_status (u t) = t_status t) ->
  keeps b m id (update_task m id u).
Proof. intros Hm Hn Hs. apply keeps_update; try done; unfold busy; intros; by rewrite Hs in *. Qed.

Lemma status_of_set (t : SRxCaptureTask) st : t_status (t <| t_status := st |>) = st.
Proof. by destruct t. Qed.

Lemma keeps_then_status (b : bool) m id u st :
  mgr_inv m -> (forall t, same_names t (u t)) -> (occupying st = true -> busy_at m id) ->
  (b = true -> occupying st = true) -> keeps b m id (update_then_status m id u st).
Proof.
  intros Hm Hn Ho Hb. destruct (update_then_status_ok m id u st Hm) as (m' & -> & Hm' & E); [by intros|].
  eapply keeps_alter; [done|exact E|..]; unfold busy; intros; rewrite ?status_of_set in *; auto; [by apply Ho|].
  by destruct (Hn t) as (_ & _ & _ & <-).
Qed.

Lemma keeps_status m id st :
  mgr_inv m -> occupying st = false -> keeps false m id (update_status m id st).
Proof.
  intros Hm Ho. destruct (update_status_ok m id st Hm) as (m' & -> & Hm' & E).
  eapply keeps_alter; [done|exact E|..]; [|by intros []|done]. unfold busy. intros t _. by rewrite status_of_set, Ho.
Qed.

(** The updaters of this file. *)
Lemma AssignWorker_names w t : same_names t (AssignWorker w t).
Proof. unfold AssignWorker. case_decide; by destruct t. Qed.

Lemma MarkStopped_names now ts p b msg t : same_names t (MarkStopped now ts p b msg t).
Proof. by destruct t. Qed.

Lemma UpdateTask_names u t : same_names t (UpdateTask u t) /\ t_status (UpdateTask u t) = tu_new_status u.
Proof.
  unfold UpdateTask. destruct (tu_update_capture_pid u), (tu_update_output_file u), (tu_update_start_time u),
    (tu_update_end_time u), (tu_update_stats u), (tu_update_error u); by destruct t.
Qed.

Lemma updaters_keep_status t :
  (forall p b ts, t_status (TaskUpdaterProgress p b ts t) = t_status t) /\
  (forall fs, t_status (TaskAppendFiles fs t) = t_status t) /\
  (forall a, t_status (TaskArchiveRecorder a t) = t_status t) /\
  (forall now ts p b msg, t_status (MarkStopped now ts p b msg t) = t_status t).
Proof.
  split; [|by destruct t]. intros p b ts. unfold TaskUpdaterProgress.
  destruct (0 <? p), (0 <? b), (0 <? ts); by destruct t.
Qed.

(** ** The manager's invariant *)

(** The task manager's invariant; tasks know their ids, which are given out in
    order, are positive and below [next_capture_id]. *)
Record manager_ok (s : manager) : Prop := {
  mo_tasks : mgr_inv (mg_tasks s);
  mo_ids : forall id t, tasks (mg_tasks s) !! id = Some t ->
    t_capture_id t = id /\ kCaptureIdStartValue <= id < mg_next_capture_id s;
  mo_next : kCaptureIdStartValue <= mg_next_capture_id s <= INT_MAX;
  mo_worker : 0 <= mg_next_worker s;
  mo_filter : 0 <= mg_next_filter s;
}.

(** What no handler but [handle_start_capture] changes. *)
Definition same_frame (s s' : manager) : Prop :=
  mg_next_capture_id s' = mg_next_capture_id s /\ mg_thread_index s' = mg_thread_index s /\
  mg_workers s' = mg_workers s /\ mg_next_worker s' = mg_next_worker s /\
  mg_filter_threads s' = mg_filter_threads s.

Definition mg_view (s : manager) : gmap Z SRxCaptureTask := tasks (mg_tasks s).

Definition quiet_step (s s' : manager) : Prop :=
  manager_ok s' /\ same_frame s s' /\ calmer (mg_view s) (mg_view s').

Definition steady (s : manager) (r : outcome manager) : Prop := exists s', r = Done s' /\ quiet_step s s'.

Lemma same_frame_trans s1 s2 s3 : same_frame s1 s2 -> same_frame s2 s3 -> same_frame s1 s3.
Proof. unfold same_frame. intuition congruence. Qed.

Lemma quiet_refl s : manager_ok s -> quiet_step s s.
Proof. intros H. split; [done|split; [by repeat split|apply calmer_refl]]. Qed.

Lemma quiet_trans s1 s2 s3 : quiet_step s1 s2 -> quiet_step s2 s3 -> quiet_step s1 s3.
Proof.
  intros (_ & F1 & C1) (M & F2 & C2). split; [done|]. split; [by eapply same_frame_trans|by eapply calmer_trans].
Qed.

Lemma steady_bind s r k :
  steady s r -> (forall s', quiet_step s s' -> steady s' (k s')) -> steady s (r ≫= k).
Proof.
  intros (s1 & -> & H1) Hk. destruct (Hk s1 H1) as (s2 & E & H2). exists s2.
  rewrite outcome_bind_done. split; [done|by eapply quiet_trans].
Qed.

Lemma quiet_tasks s m :
  manager_ok s -> mgr_inv m -> calmer (mg_view s) (tasks m) -> quiet_step s (set_tasks s m).
Proof.
  intros [Hm Hi Hn Hw Hw'] Hm' Hc. assert (E : mg_tasks (set_tasks s m) = m) by (by destruct s).
  assert (En : mg_next_capture_id (set_tasks s m) = mg_next_capture_id s) by (by destruct s).
  split; [|split].
  - constructor; rewrite ?E, ?En; try done. intros id t Ht.
    destruct (Hc id t Ht) as (t0 & Ht0 & _ & ->). by apply (Hi id t0).
  - by destruct s.
  - unfold mg_view. by rewrite E.
Qed.

Lemma on_tasks_steady s b id r : manager_ok s -> keeps b (mg_tasks s) id r -> steady s (on_tasks s r).
Proof.
  intros Hs (ok & m' & -> & Hm & Hc & _). exists (set_tasks s m'). unfold on_tasks. rewrite outcome_bind_done.
  split; [done|by apply quiet_tasks].
Qed.

Lemma clear_cooldown_steady id s : manager_ok s -> steady s (clear_module_cooldown_for_capture id s).
Proof.
  intros Hs. unfold clear_module_cooldown_for_capture. rewrite query_task_view by apply Hs. rewrite outcome_bind_done.
  eexists. split; [done|]. destruct (tasks (mg_tasks s) !! id) as [t|]; [|by apply quiet_refl]. cbn [fmap option_fmap option_map].
  destruct (_ && _); [|by apply quiet_refl]. destruct Hs, s. split; [by constructor|]. split; [done|apply calmer_refl].
Qed.

Lemma with_usage_quiet f s : manager_ok s -> quiet_step s (with_usage f s).
Proof. intros []. destruct s. split; [by constructor|]. split; [done|apply calmer_refl]. Qed.

(** ** The handlers of reports *)

(** Reports come in an order that puts no task in progress that was not: a
    worker reports the start of a capture it was assigned, before its end. *)
Definition orderly (s : manager) (msg : message) : Prop :=
  match msg with
  | MsgCaptureStarted st => busy_at (mg_tasks s) (mb_capture_id (st_base st))
  | MsgTaskUpdate u => occupying (tu_new_status u) = true -> busy_at (mg_tasks s) (tu_capture_id u)
  | _ => True
  end.

Create HintDb manager.
#[export] Hint Resolve mo_tasks clear_cooldown_steady : manager.

Ltac names := let t := fresh in intros t; first [apply updaters_keep_names|apply MarkStopped_names|apply AssignWorker_names].

Lemma finished_keeps m id ts p b path : mgr_inv m -> keeps false m id (set_capture_finished m id ts p b path).
Proof. intros Hm. apply keeps_then_status; [done|names|done|done]. Qed.

Lemma failed_keeps m id now msg : mgr_inv m -> keeps false m id (set_capture_failed m now id msg).
Proof. intros Hm. apply keeps_then_status; [done|names|done|done]. Qed.

Lemma started_keeps m id ts pid path :
  mgr_inv m -> busy_at m id -> keeps true m id (set_capture_started m id ts pid path).
Proof. intros Hm Hb. apply keeps_then_status; [done|names|done|done]. Qed.

Lemma progress_keeps m id p b ts : mgr_inv m -> keeps true m id (update_progress m id p b ts).
Proof. intros Hm. apply keeps_same_status; [done|names|]. intros t. apply (updaters_keep_status t). Qed.

Lemma append_keeps m id fs : mgr_inv m -> keeps true m id (append_capture_files m id fs).
Proof.
  intros Hm. unfold append_capture_files. destruct fs as [|f fs].
  - exists false, m. split; [done|]. split; [done|]. split; [apply calmer_refl|auto].
  - apply keeps_same_status; [done|names|]. intros t. apply (updaters_keep_status t).
Qed.

Lemma archive_keeps m id a : mgr_inv m -> keeps true m id (record_archive m id a).
Proof. intros Hm. apply keeps_same_status; [done|names|]. intros t. apply (updaters_keep_status t). Qed.

(** The order the last step needs: the new status is in progress only for a
    task that is. *)
Definition waits (st : ECaptureTaskStatus) (id : Z) (m : TaskMgr) : Prop := occupying st = true -> busy_at m id.

Definition step_of (st : ECaptureTaskStatus) (id : Z) (m : TaskMgr) (r : outcome (bool * TaskMgr)) : Prop :=
  exists ok m', r = Done (ok, m') /\ mgr_inv m' /\ calmer (tasks m) (tasks m') /\ waits st id m'.

Lemma step_keeps st id m ok0 r b :
  waits st id m -> keeps b m id r -> (occupying st = true -> b = true) ->
  step_of st id m ('(ok, m') ← r; Done (ok0 || ok, m')).
Proof.
  intros Hw (ok & m' & -> & Hm & Hc & Hb) Hst. exists (ok0 || ok), m'. rewrite outcome_bind_done.
  split; [done|]. split; [done|]. split; [done|]. intros Ho. apply Hb; auto.
Qed.

Lemma step_none st id m ok : mgr_inv m -> waits st id m -> step_of st id m (Done (ok, m)).
Proof. intros Hm Hw. exists ok, m. split; [done|split; [done|split; [apply calmer_refl|done]]]. Qed.

Lemma step_then st id m r (k : bool * TaskMgr -> outcome manager) s :
  step_of st id m r ->
  (forall ok m', mgr_inv m' -> calmer (tasks m) (tasks m') -> waits st id m' ->
     exists s', k (ok, m') = Done s' /\ quiet_step s s') ->
  exists s', (r ≫= k) = Done s' /\ quiet_step s s'.
Proof. intros (ok & m' & -> & Hm & Hc & Hw) Hk. rewrite outcome_bind_done. auto. Qed.

Lemma task_update_steady e u s :
  manager_ok s -> orderly s (MsgTaskUpdate u) -> steady s (handle_task_update e u s).
Proof.
  intros Hs Ho. unfold handle_task_update, steady. cbn [orderly] in Ho. set (id := tu_capture_id u) in *.
  set (st := tu_new_status u) in *. assert (Hm := mo_tasks s Hs).
  eapply (step_then st id (mg_tasks s)).
  { case_decide as E; [|by apply step_none]. destruct (tu_update_start_time u); [|by apply step_none].
    match goal with |- step_of _ _ _ ?r => replace r with ('(ok, m') ← r; Done (false || ok, m')) by (by destruct r as [[]| | |]) end.
    eapply step_keeps; [done|apply started_keeps; [done|apply Ho; by rewrite E]|done]. }
  intros ok1 m1 Hm1 C1 W1. cbn beta iota.
  eapply (step_then st id m1).
  { destruct (tu_update_stats u); [|by apply step_none]. eapply step_keeps; [done|by apply progress_keeps|done]. }
  intros ok2 m2 Hm2 C2 W2. cbn beta iota.
  eapply (step_then st id m2).
  { destruct st eqn:Est; try (by apply step_none).
    - eapply step_keeps; [done|by apply finished_keeps|done].
    - destruct (tu_update_error u); [|by apply step_none]. eapply step_keeps; [done|by apply failed_keeps|done]. }
  intros ok3 m3 Hm3 C3 W3. cbn beta iota.
  assert (C : calmer (mg_view s) (tasks m3)) by (do 2 (eapply calmer_trans; [eassumption|]); done).
  destruct ok3; [exists (set_tasks s m3); split; [done|by apply quiet_tasks]|].
  destruct (keeps_update false m3 id (UpdateTask u)) as (ok & m4 & -> & Hm4 & C4 & _);
    [done|apply UpdateTask_names| |done|].
  { intros t Ht Hb. apply W3; [|done]. unfold busy in Hb. by rewrite (proj2 (UpdateTask_names u t)) in Hb. }
  exists (set_tasks s m4). unfold on_tasks. rewrite outcome_bind_done. split; [done|].
  apply quiet_tasks; [done|done|by eapply calmer_trans].
Qed.

Lemma finished_steady e f s : manager_ok s -> steady s (handle_capture_finished_v2 e f s).
Proof.
  intros Hs. unfold handle_capture_finished_v2. apply steady_bind; [|intros s' [? _]; auto with manager].
  destruct (_ =? 0); [eapply on_tasks_steady; [done|by apply finished_keeps, mo_tasks]|].
  destruct (_ =? _); [|eapply on_tasks_steady; [done|by apply failed_keeps, mo_tasks]].
  apply steady_bind.
  - apply (on_tasks_steady s true (mb_capture_id (fi_base f))); [done|].
    apply keeps_same_status; [by apply mo_tasks|names|]. intros t. apply (updaters_keep_status t).
  - intros s' [? _]. eapply on_tasks_steady; [done|]. apply keeps_status; [by apply mo_tasks|done].
Qed.

Lemma failed_steady e f s : manager_ok s -> steady s (handle_capture_failed_v2 e f s).
Proof.
  intros Hs. apply steady_bind; [|intros s' [? _]; auto with manager].
  eapply on_tasks_steady; [done|by apply failed_keeps, mo_tasks].
Qed.

Lemma filtered_steady e f s : manager_ok s -> steady s (handle_capture_filtered_file_v2 e f s).
Proof.
  intros Hs. unfold handle_capture_filtered_file_v2. apply steady_bind.
  { eapply on_tasks_steady; [done|by apply append_keeps, mo_tasks]. }
  intros s1 [H1 _]. apply steady_bind; [eapply on_tasks_steady; [done|by apply finished_keeps, mo_tasks]|].
  intros s2 [H2 _]. apply steady_bind; [by apply clear_cooldown_steady|].
  intros s3 [H3 _]. eexists. split; [done|by apply with_usage_quiet].
Qed.

Lemma raw_quiet raw s : manager_ok s -> quiet_step s (fst (handle_capture_raw_file_v2 raw s)).
Proof.
  intros Hs. unfold handle_capture_raw_file_v2. set (s1 := with_usage _ s).
  assert (H1 : quiet_step s s1) by by apply with_usage_quiet.
  destruct (pick _ _) as [t|].
  - eapply quiet_trans; [exact H1|]. destruct H1 as [[] _]. destruct s1. split; [constructor; try done; apply u64_range|].
    split; [done|apply calmer_refl].
  - eapply quiet_trans; [exact H1|]. apply with_usage_quiet. apply H1.
Qed.

Definition starts_capture (msg : message) : bool :=
  match msg with MsgStartCapture _ | MsgSampleAlert _ => true | _ => false end.

Lemma quiet_steady s r : steady s r -> exists s' out, quiet r = Done (s', out) /\ quiet_step s s'.
Proof. intros (s' & -> & H). exists s', []. done. Qed.

Lemma query_runs e m s : manager_ok s -> exists out, handle_query_capture e m s = Done out.
Proof. intros Hs. unfold handle_query_capture. rewrite query_task_view by apply Hs. by eexists. Qed.

Lemma file_ready_quiet e r s :
  manager_ok s -> exists s' out, handle_capture_file_ready_v2 e r s = Done (s', out) /\ quiet_step s s'.
Proof.
  intros Hs. unfold handle_capture_file_ready_v2. destruct (fr_files r) as [|f fs] eqn:E.
  - exists s, []. split; [done|by apply quiet_refl].
  - destruct (on_tasks_steady s true (mb_capture_id (fr_base r))
      (append_capture_files (mg_tasks s) (mb_capture_id (fr_base r)) (f :: fs)) Hs) as (s' & -> & Hq).
    { by apply append_keeps, mo_tasks. }
    rewrite outcome_bind_done. destruct (en_cleanup e); by eexists _, _.
Qed.

(** Every message but a request for a capture is handled without undefined
    behaviour and calms the tasks. *)
Lemma reports_quiet e msg s :
  manager_ok s -> starts_capture msg = false -> orderly s msg ->
  exists s' out, handle_msg e msg s = Done (s', out) /\ quiet_step s s'.
Proof.
  intros Hs Hn Ho. destruct msg; cbn [starts_capture handle_msg] in *; try done;
    try (exists s, []; split; [done|by apply quiet_refl]).
  - eexists _, _. split; [done|by apply quiet_refl].
  - destruct (query_runs e m s Hs) as [out E]. rewrite E. exists s, out. split; [done|by apply quiet_refl].
  - by apply quiet_steady, task_update_steady.
  - apply quiet_steady. eapply on_tasks_steady; [done|by apply started_keeps; [apply mo_tasks|]].
  - apply quiet_steady. eapply on_tasks_steady; [done|by apply progress_keeps, mo_tasks].
  - by apply file_ready_quiet.
  - by apply quiet_steady, finished_steady.
  - by apply quiet_steady, failed_steady.
  - pose proof (raw_quiet m s Hs). destruct (handle_capture_raw_file_v2 m s) as [s' out]. by eexists _, _.
  - by apply quiet_steady, filtered_steady.
  - apply quiet_steady. eapply on_tasks_steady; [done|by apply archive_keeps, mo_tasks].
  - eexists _, _. split; [done|by apply with_usage_quiet].
Qed.

(** ** The decision on a request *)

(** The duplicate the reply names for the active task [t]. *)
Definition names_duplicate (r : request) (t : SRxCaptureTask) : Z * string * string * string :=
  (t_capture_id t, capture_status_to_string (t_status t),
   if is_empty (t_key t) then rq_key r else t_key t, if is_empty (t_sid t) then rq_sid r else t_sid t).

(** An active task with the key of [r]. *)
Definition active_with_key (v : gmap Z SRxCaptureTask) (r : request) (id : Z) (t : SRxCaptureTask) : Prop :=
  v !! id = Some t /\ is_active_status (t_status t) = true /\ t_key t = rq_key r.

(** An active task the index of active signatures has under the signature of
    [r]. *)
Definition active_with_signature (m : TaskMgr) (r : request) (id : Z) (t : SRxCaptureTask) : Prop :=
  tasks m !! id = Some t /\ is_active_status (t_status t) = true /\ t_signature t = rq_signature r /\
  signature_to_id (curr_table m) !! rq_signature r = Some id.

Lemma status_name_same st : status_name st = capture_status_to_string st.
Proof. by destruct st. Qed.

(** The decision looks for a task in the signature index, then for an active
    task with the key. *)
Lemma find_duplicate_spec s r :
  manager_ok s ->
  (exists id t, (active_with_signature (mg_tasks s) r id t \/ active_with_key (mg_view s) r id t) /\
     find_duplicate (mg_tasks s) r = Done (Some (names_duplicate r t))) \/
  (find_duplicate (mg_tasks s) r = Done None /\ signature_to_id (curr_table (mg_tasks s)) !! rq_signature r = None /\
   forall id t, ~ active_with_key (mg_view s) r id t).
Proof.
  intros Hs. pose proof (mo_tasks s Hs) as Hm. pose proof Hm as [_ [Hok _ _]].
  fold (curr_table (mg_tasks s)) in Hok. unfold mg_view, find_duplicate.
  unfold query_active_task_by_signature, query_task_by_signature. pose proof (mo_ids s Hs) as Hids.
  set (m := mg_tasks s) in *.
  destruct (signature_to_id (curr_table m) !! rq_signature r) as [id|] eqn:Eg.
  { left. pose proof Eg as E'. apply (signatures_ok _ _ Hok) in E' as (_ & t & Ht & Hg & Ha).
    exists id, t. split; [by left|].
    rewrite (query_by_found m _ _ id t Hm Eg Ht), !outcome_bind_done. cbn [active_only snapshot_of sn_status].
    by rewrite Ha. }
  unfold table_query_by. rewrite Eg, outcome_bind_done. cbn [active_only].
  unfold check_task_duplicate, is_key_active, query_task_by_key.
  destruct (key_to_id (curr_table m) !! rq_key r) as [id|] eqn:Ek.
  - pose proof Ek as E'. apply (keys_ok _ _ Hok) in E' as (t & Ht & Hk).
    change (tasks m !! id = Some t) in Ht. rewrite (query_by_found m _ _ id t Hm Ek Ht), !outcome_bind_done. cbn [active_only snapshot_of sn_status].
    destruct (is_active_status (t_status t)) eqn:Ea; cbn [is_some negb].
    + left. exists id, t. split; [by right|]. rewrite !outcome_bind_done. cbn [snapshot_of sn_capture_id sn_status].
      destruct (Hids id t Ht) as (Eid & Hpos & _). unfold kCaptureIdStartValue in Hpos.
      destruct (Z.ltb_spec 0 (t_capture_id t)); [|lia].
      rewrite query_task_view by done. rewrite Eid, Ht, outcome_bind_done. unfold names_duplicate. by rewrite Eid, status_name_same.
    + right. rewrite outcome_bind_done. split; [done|]. split; [done|].
      intros j u (Hj & Hau & Hku). assert (Hkj : key_to_id (curr_table m) !! rq_key r = Some j).
      { apply (keys_ok _ _ Hok). by exists u. }
      rewrite Ek in Hkj. injection Hkj as <-. unfold tasks in *. congruence.
  - right. unfold table_query_by. rewrite Ek, !outcome_bind_done. cbn [active_only is_some negb].
    rewrite outcome_bind_done. split; [done|]. split; [done|].
    intros j u (Hj & Hau & Hku). assert (key_to_id (curr_table m) !! rq_key r = Some j); [|congruence].
    apply (keys_ok _ _ Hok). by exists u.
Qed.

