(* ===== verification/CaptureDecision.v ===== *)
(** * Requests for captures

    What the manager decides on a request: duplicates, capacity, acceptance.
    The theorems on all messages together ([runs]) are here too: the capacity
    limit and the absence of undefined behaviour over histories in which the
    reports are orderly, which the code does not check
    ([late_start_exceeds_limit]), and the cooldown of modules that trigger
    captures. *)

From S2P Require Import Prelude CppString TaskTypes TaskMgr TaskMgrCorrect Messages CaptureUtil ProcData PdefWriteback CaptureManager CaptureManagerCorrect.


(** *** Acceptance *)

(** The state after [r] was accepted: the task is added under the next id and,
    if there are workers, assigned to the next one; a task that went was not
    active or had the new sid. *)
Record accepted (e : env) (r : request) (s s' : manager) : Prop := {
  ac_ok : manager_ok s';
  ac_task : mg_view s' !! mg_next_capture_id s =
    Some (let t := task_of (en_time e) (mg_next_capture_id s) r in
          match pick (mg_next_worker s) (mg_workers s) with Some w => AssignWorker w t | None => t end);
  ac_old : forall j u, j <> mg_next_capture_id s -> mg_view s' !! j = Some u -> mg_view s !! j = Some u;
  ac_kept : forall j u, mg_view s !! j = Some u ->
    mg_view s' !! j = Some u \/ is_active_status (t_status u) = false \/ t_sid u = rq_sid r;
  ac_next : mg_next_capture_id s' = mg_next_capture_id s + 1;
  ac_worker : mg_next_worker s' = match mg_workers s with [] => mg_next_worker s | _ => mg_next_worker s +64 1 end;
  ac_frame : mg_workers s' = mg_workers s /\ mg_thread_index s' = mg_thread_index s /\
    mg_filter_threads s' = mg_filter_threads s;
  ac_rest : mg_last_trigger s' = mg_last_trigger s /\ mg_usage s' = mg_usage s /\ mg_alerts s' = mg_alerts s /\
    mg_next_filter s' = mg_next_filter s;
}.

(** What the worker of an accepted request gets. *)
Definition dispatched (e : env) (r : request) (s : manager) : outbox :=
  match pick (mg_next_worker s) (mg_workers s) with
  | None => []
  | Some worker =>
      [(mkObjId OBJ_ID_THREAD worker, MsgCaptureStart (start_v2 e s (mg_next_capture_id s) worker r));
       (mkObjId OBJ_ID_THREAD worker, MsgStartCapture ((rq_msg r) <| sm_sid := rq_sid r |>))]
  end.

Lemma task_of_fields now id r :
  let t := task_of now id r in
  t_key t = rq_key r /\ label_task (rq_signature r) (rq_sid r) t = t /\ t_status t = STATUS_PENDING.
Proof. done. Qed.

Lemma take_id_ok s :
  manager_ok s -> mg_next_capture_id s < INT_MAX ->
  take_capture_id (mg_next_capture_id s) = Done (mg_next_capture_id s, mg_next_capture_id s + 1).
Proof.
  intros [_ _ Hn _ _] Hlt. unfold take_capture_id. destruct (Z.ltb_spec (mg_next_capture_id s) kCaptureIdStartValue); [lia|].
  destruct (Z.eqb_spec (mg_next_capture_id s) INT_MAX); [lia|done].
Qed.

(** The task manager after the new task was added. *)
Lemma add_request_ok e r s :
  manager_ok s ->
  (forall id t, ~ active_with_key (mg_view s) r id t) ->
  signature_to_id (curr_table (mg_tasks s)) !! rq_signature r = None ->
  let n := mg_next_capture_id s in
  let t := task_of (en_time e) n r in
  let '(m, p) := alloc (mg_tasks s) t in
  exists m', add_task m n (rq_key r) (rq_signature r) (rq_sid r) (Some p) = Done (true, m') /\ mgr_inv m' /\
    tasks m' !! n = Some t /\
    (forall j u, j <> n -> tasks m' !! j = Some u -> mg_view s !! j = Some u) /\
    (forall j u, mg_view s !! j = Some u ->
       tasks m' !! j = Some u \/ is_active_status (t_status u) = false \/ t_sid u = rq_sid r).
Proof.
  intros Hs Hkey Hsig n t. assert (Hid : tasks (mg_tasks s) !! n = None).
  { destruct (tasks (mg_tasks s) !! n) as [u|] eqn:E; [|done]. apply (mo_ids s Hs) in E as [_ E]. unfold n in E. lia. }
  destruct (alloc_offered (mg_tasks s) n t (mo_tasks s Hs) Hid) as (Hof & Et & Ec).
  destruct (alloc (mg_tasks s) t) as [m p]. cbn [fst snd] in *.
  destruct (add_task_ok m n (rq_key r) (rq_signature r) (rq_sid r) p t Hof) as (m' & E & Hm' & Hn & Hold & Hkeep).
  exists m'. split; [exact E|]. split; [done|]. split; [exact Hn|]. unfold mg_view. rewrite <- Et. split.
  - intros j u Hj Hu. by apply (Hold j u Hj).
  - intros j u Hj. destruct (Hkeep j u Hj) as [H|[H|[(_ & H & _)|[_ H]]]]; [by left| | |by auto].
    + right. left. destruct (is_active_status (t_status u)) eqn:Ea; [|done]. exfalso. apply (Hkey j u).
      split; [|done]. unfold mg_view. by rewrite <- Et.
    + rewrite Ec, Hsig in H. done.
Qed.

Lemma pick_nil {A} next : pick (A := A) next [] = None.
Proof. done. Qed.

Lemma pick_some {A} next (l : list A) : l <> [] -> 0 <= next -> exists x, pick next l = Some x /\ x ∈ l.
Proof.
  intros Hl Hn. destruct l as [|a l]; [done|]. cbn [pick].
  destruct (lookup_lt_is_Some_2 (a :: l) (Z.to_nat (next mod Z.of_nat (length (a :: l))))) as [x Hx].
  { pose proof (Z.mod_pos_bound next (Z.of_nat (length (a :: l)))). cbn [length] in *. lia. }
  exists x. split; [done|]. by eapply list_elem_of_lookup_2.
Qed.

(** Creating the task and dispatching it. *)
Lemma accept_ok e r reply s :
  manager_ok s -> mg_next_capture_id s < INT_MAX ->
  (forall id t, ~ active_with_key (mg_view s) r id t) ->
  signature_to_id (curr_table (mg_tasks s)) !! rq_signature r = None ->
  exists s1 s', create_and_add_capture_task e r reply s =
      Done (mg_next_capture_id s, set_reply 200 "OK" (started_body (mg_next_capture_id s) r) reply, s1) /\
    dispatch_task_to_worker e (mg_next_capture_id s) r s1 = Done (s', dispatched e r s) /\ accepted e r s s'.
Proof.
  intros Hs Hlt Hkey Hsig. pose proof (mo_worker s Hs) as Hnw. pose proof (add_request_ok e r s Hs Hkey Hsig) as Hadd. cbv zeta in Hadd.
  unfold create_and_add_capture_task. rewrite take_id_ok, outcome_bind_done by done.
  set (n := mg_next_capture_id s) in *. destruct (alloc (mg_tasks s) (task_of (en_time e) n r)) as [m p].
  destruct Hadd as (m1 & -> & Hm1 & Hn1 & Hold & Hkeep). rewrite outcome_bind_done.
  set (s1 := (set_tasks s m1) <| mg_next_capture_id := n + 1 |>). eexists s1.
  assert (Hs1 : mg_tasks s1 = m1 /\ mg_next_capture_id s1 = n + 1 /\ mg_workers s1 = mg_workers s /\
    mg_next_worker s1 = mg_next_worker s /\ mg_thread_index s1 = mg_thread_index s /\ mg_filter_threads s1 = mg_filter_threads s) by by destruct s.
  destruct Hs1 as (E1 & E2 & E3 & E4 & E5 & E6). pose proof (mo_next s Hs) as Hnext. fold n in Hnext.
  assert (Hids : forall id t, tasks m1 !! id = Some t -> t_capture_id t = id /\ kCaptureIdStartValue <= id < n + 1).
  { intros id t Ht. destruct (decide (id = n)) as [->|Hne].
    - rewrite Hn1 in Ht. injection Ht as <-. split; [done|lia].
    - apply (Hold id t Hne), (mo_ids s Hs) in Ht. fold n in Ht. split; [apply Ht|lia]. }
  unfold dispatch_task_to_worker, dispatched. rewrite E3, E4.
  destruct (pick (mg_next_worker s) (mg_workers s)) as [w|] eqn:Ep.
  - set (s2 := s1 <| mg_next_worker := _ |>).
    assert (Hs2 : mg_tasks s2 = m1 /\ mg_next_capture_id s2 = n + 1 /\ mg_workers s2 = mg_workers s /\
      mg_next_worker s2 = mg_next_worker s +64 1 /\ mg_thread_index s2 = mg_thread_index s /\ mg_filter_threads s2 = mg_filter_threads s)
      by (by unfold s2; destruct s1).
    destruct Hs2 as (F1 & F2 & F3 & F4 & F5 & F6). rewrite F1.
    destruct (update_task_ok m1 n (AssignWorker w) Hm1) as (m2 & -> & Hm2 & Htasks); [intros; apply AssignWorker_names|].
    rewrite outcome_bind_done. exists (set_tasks s2 m2). split; [done|]. split.
    { unfold start_v2. by rewrite F5. }
    assert (G : mg_tasks (set_tasks s2 m2) = m2) by by destruct s2.
    assert (G2 : mg_next_capture_id (set_tasks s2 m2) = n + 1) by (rewrite <- F2; by destruct s2).
    constructor; fold n; rewrite ?G2.
    + constructor; rewrite ?G, ?G2; [done| |lia| |].
      * intros id t Ht. rewrite Htasks in Ht.
        apply lookup_alter_Some in Ht as [(-> & u & Hu & ->)|(_ & Ht)]; [|by apply (Hids id t)].
        destruct (AssignWorker_names w u) as (_ & _ & _ & ->). by apply (Hids _ u).
      * replace (mg_next_worker (set_tasks s2 m2)) with (mg_next_worker s2) by by destruct s2. rewrite F4. apply u64_range.
      * pose proof (mo_filter s Hs). unfold s2, s1. by destruct s.
    + unfold mg_view. rewrite G, Htasks, lookup_alter_eq, Hn1, Ep. done.
    + intros j u Hj. unfold mg_view. rewrite G, Htasks, lookup_alter_ne by done. by apply Hold.
    + intros j u Hj. unfold mg_view. rewrite G, Htasks.
      destruct (decide (j = n)) as [->|Hne]; [apply (mo_ids s Hs) in Hj as [_ Hj]; fold n in Hj; lia|].
      rewrite lookup_alter_ne by done. auto.
    + done.
    + replace (mg_next_worker (set_tasks s2 m2)) with (mg_next_worker s2) by by destruct s2. rewrite F4.
      destruct (mg_workers s); [by rewrite pick_nil in Ep|done].
    + rewrite <- F3, <- F5, <- F6. by destruct s2.
    + unfold s2, s1. by destruct s.
  - exists s1. split; [done|]. split; [done|].
    assert (Hw : mg_workers s = []).
    { destruct (mg_workers s) as [|a l] eqn:El; [done|]. destruct (pick_some (mg_next_worker s) (a :: l)) as (x & Hx & _); [done..|congruence]. }
    constructor; fold n.
    + constructor; rewrite ?E1, ?E2; [done|done|lia|by rewrite E4|]. pose proof (mo_filter s Hs). unfold s1. by destruct s.
    + unfold mg_view. by rewrite E1, Ep.
    + intros j u Hj. unfold mg_view. rewrite E1. by apply Hold.
    + intros j u Hj. unfold mg_view. rewrite E1. by apply Hkeep.
    + done.
    + by rewrite E4, Hw.
    + done.
    + by destruct s.
Qed.

(** *** The decision *)

(** Ids bound the number of tasks, so the counters do not wrap. *)
Lemma occupied_range s : manager_ok s -> 0 <= occupied (mg_view s) <= INT_MAX.
Proof.
  intros Hs. unfold occupied. split; [lia|]. rewrite <- (size_dom (D := gset Z)).
  set (n := mg_next_capture_id s). pose proof (mo_next s Hs) as Hn. fold n in Hn.
  assert (H : dom (filter (fun x => busy x.2) (mg_view s)) ⊆ (list_to_set (seqZ 0 n) : gset Z)).
  { intros id Hid. apply elem_of_dom in Hid as [t Ht]. apply map_lookup_filter_Some in Ht as [Ht _].
    apply (mo_ids s Hs) in Ht as [_ Ht]. unfold kCaptureIdStartValue in Ht. fold n in Ht.
    apply elem_of_list_to_set, elem_of_seqZ. lia. }
  apply subseteq_size in H. rewrite size_list_to_set, length_seqZ in H by apply NoDup_seqZ.
  unfold kCaptureIdStartValue in Hn. lia.
Qed.

Lemma running_count_exact s : manager_ok s -> fst (count_active_tasks (mg_tasks s)) = occupied (mg_view s).
Proof.
  intros Hs. rewrite running_count_occupied by apply Hs. apply u64_small.
  pose proof (occupied_range s Hs). unfold INT_MAX in *. unfold mg_view in *. lia.
Qed.

(** The reply to the client, if it waits for one. *)
Definition answer (e : env) (r : request) (reply : SRxHttpReplyMsg) : outbox :=
  send_reply_to_http (sm_reply_target (rq_msg r)) (stamp_reply (en_ms e) (rq_msg r) reply).

Definition no_duplicate (s : manager) (r : request) : Prop :=
  signature_to_id (curr_table (mg_tasks s)) !! rq_signature r = None /\
  forall id t, ~ active_with_key (mg_view s) r id t.

(** What a decision on a request may be. *)
Inductive decided (e : env) (r : request) (s : manager) : manager -> outbox -> Prop :=
  | refused_duplicate id t :
      active_with_signature (mg_tasks s) r id t \/ active_with_key (mg_view s) r id t ->
      let '(existing_id, status, key, sid) := names_duplicate r t in
      decided e r s s (answer e r (create_duplicate_error_reply (reply_for (sm_reply_target (rq_msg r)))
                                     key sid existing_id status))
  | refused_capacity :
      no_duplicate s r ->
      get_max_concurrent_limit e <= occupied (mg_view s) ->
      decided e r s s (answer e r (create_capacity_error_reply (reply_for (sm_reply_target (rq_msg r)))
                                     (get_max_concurrent_limit e)))
  | admitted s' :
      no_duplicate s r ->
      occupied (mg_view s) < get_max_concurrent_limit e ->
      accepted e r s s' ->
      decided e r s s' (dispatched e r s ++
        answer e r (set_reply 200 "OK" (started_body (mg_next_capture_id s) r) (reply_for (sm_reply_target (rq_msg r))))).

Lemma decide_request_ok e r s :
  manager_ok s -> mg_next_capture_id s < INT_MAX ->
  exists s' out, decide_request e r s = Done (s', out) /\ decided e r s s' out.
Proof.
  intros Hs Hlt. unfold decide_request. destruct (count_active_tasks (mg_tasks s)) as [running pending] eqn:Ec.
  assert (Er : running = occupied (mg_view s)) by (by rewrite <- running_count_exact, Ec).
  destruct (find_duplicate_spec s r Hs) as [(id & t & Hd & ->)|(-> & Hsig & Hkey)]; rewrite outcome_bind_done.
  - eexists _, _. split; [done|]. exact (refused_duplicate e r s id t Hd).
  - destruct (Z.leb_spec (get_max_concurrent_limit e) running) as [Hc|Hc]; rewrite Er in Hc.
    + eexists _, _. split; [done|by apply refused_capacity].
    + destruct (accept_ok e r (reply_for (sm_reply_target (rq_msg r))) s Hs Hlt Hkey Hsig) as (s1 & s' & -> & E & Ha).
      rewrite outcome_bind_done, E, outcome_bind_done. eexists _, _. split; [done|by apply admitted].
Qed.

(** The request names no filter and gets none from the listening ports, or
    one of blanks: trimming it for the signature is undefined. *)
Definition blank_filter (ps : list SProcessInfo) (m : SRxStartCaptureMsg) : bool :=
  StringTrim_reads_before_start (sm_filter (auto_filter ps m)).

Lemma infer_port_filter m : exists a, infer_port m = Done a /\ sm_filter a = sm_filter m.
Proof.
  unfold infer_port. destruct (_ && _); [|by exists m].
  destruct (infer_port_total (sm_filter m)) as [p ->]. rewrite outcome_bind_done.
  eexists. split; [done|]. destruct (0 <? p); [by destruct m|done].
Qed.

(** What the signature is built from has the filter of the request. *)
Lemma capture_spec_filter strategy d snapshot ps a :
  sp_filter (capture_spec ((default_iface strategy a) <| sm_duration_sec := d |>) snapshot ps) = sm_filter a.
Proof. unfold default_iface. destruct (is_empty (sm_iface a)); by destruct a. Qed.

Lemma prepare_cases e m ps :
  if blank_filter ps m then prepare_request e m ps = Undef else exists r, prepare_request e m ps = Done r.
Proof.
  unfold prepare_request, blank_filter. destruct (infer_port_filter (auto_filter ps m)) as (a & -> & <-).
  rewrite outcome_bind_done. cbv zeta. set (spec := capture_spec _ _ _).
  assert (E : sp_filter spec = sm_filter a) by apply capture_spec_filter. rewrite <- E.
  destruct (StringTrim_reads_before_start (sp_filter spec)) eqn:Eb.
  - by rewrite signature_undefined by done.
  - match goal with |- context [build_capture_signature spec ?c ps] =>
      destruct (signature_defined spec c ps Eb) as [payload ->] end.
    rewrite outcome_bind_done. by eexists.
Qed.

Lemma prepare_total e m ps : blank_filter ps m = false -> exists r, prepare_request e m ps = Done r.
Proof. intros H. pose proof (prepare_cases e m ps) as P. by rewrite H in P. Qed.

(** C9: the decision on a capture request.  With the targets not found the
    client gets the 404 reply and nothing changes.  A request whose filter is
    blank is undefined behaviour (the trimming of the signature reads in front
    of the string).  Any other request is prepared, and exactly one of three
    things happens: an active task has its signature or key, and the 409 reply
    names that task; the captures in progress have reached the limit, and the
    reply is 429; or a task is created under the next id and handed to the
    next worker, and the reply is 200.  A refused request changes nothing. *)
Theorem start_decision e m s :
  manager_ok s -> mg_next_capture_id s < INT_MAX ->
  match resolve_target_processes e m with
  | inr error_reply => handle_start_capture e m s = Done (s, send_reply_to_http (sm_reply_target m) error_reply)
  | inl ps =>
      if blank_filter ps m then handle_start_capture e m s = Undef
      else exists r s' out, prepare_request e m ps = Done r /\
        handle_start_capture e m s = Done (s', out) /\ decided e r s s' out
  end.
Proof.
  intros Hs Hlt. unfold handle_start_capture. destruct (resolve_target_processes e m) as [ps|reply]; [|done].
  pose proof (prepare_cases e m ps) as Hp. destruct (blank_filter ps m); [by rewrite Hp|].
  destruct Hp as [r E]. rewrite E, outcome_bind_done.
  destruct (decide_request_ok e r s Hs Hlt) as (s' & out & Ed & Hd). by exists r, s', out.
Qed.

(** The manager at its start. *)
Definition new_manager (thread_index : Z) (workers filters : list Z) (fs : text_fs) : manager :=
  mkManager new_mgr thread_index workers filters kCaptureIdStartValue 0 0 ∅ (Manager.mkState ∅ fs []) new_ring.

Lemma new_manager_ok i ws flt fs : manager_ok (new_manager i ws flt fs).
Proof.
  constructor; cbn [new_manager mg_tasks mg_next_capture_id mg_next_worker].
  - apply reachable_inv, reach_new.
  - intros id t H. unfold tasks in H. change (curr_table new_mgr) with empty_table in H. by rewrite view_empty in H.
  - unfold kCaptureIdStartValue, INT_MAX. lia.
  - done.
  - done.
Qed.

Definition sample_env (now : Z) (limit : Z) : env :=
  mkEnv now (now * 1000000) (now * 1000) (2024, 5, 1, 12, 0, 0) (fun _ => []) (fun _ => None) None (Some limit)
    None [].

Definition sample_request (proc : string) : SRxStartCaptureMsg :=
  new_start_msg <| sm_capture_mode := MODE_INTERFACE |> <| sm_iface := proc |> <| sm_filter := "port 80" |>
    <| sm_reply_target := mkObjId 7 3 |>.

Definition no_files : text_fs := mkTextFs ∅ ∅.

Lemma start_decision_witness :
  let s := new_manager 5 [10; 11] [20] no_files in
  (exists r s' out, prepare_request (sample_env 100 2) (sample_request "eth0") [] = Done r /\
    handle_start_capture (sample_env 100 2) (sample_request "eth0") s = Done (s', out) /\
    decided (sample_env 100 2) r s s' out) /\
  handle_start_capture (sample_env 100 2) ((sample_request "eth0") <| sm_filter := "" |>) s = Undef.
Proof.
  split.
  - exact (start_decision (sample_env 100 2) (sample_request "eth0") (new_manager 5 [10; 11] [20] no_files)
             (new_manager_ok 5 [10; 11] [20] no_files) eq_refl).
  - exact (start_decision (sample_env 100 2) ((sample_request "eth0") <| sm_filter := "" |>)
             (new_manager 5 [10; 11] [20] no_files) (new_manager_ok 5 [10; 11] [20] no_files) eq_refl).
Defined.

(** ** Every message *)

(** An admitted task is the only one that may be in progress anew. *)
Lemma decided_occupied e r s s' out :
  decided e r s s' out -> occupied (mg_view s') <= Z.max (occupied (mg_view s)) (get_max_concurrent_limit e).
Proof.
  intros H. destruct H as [id t H|Hd Hc|s' Hd Hc Ha]; try lia.
  pose proof (occupied_sub (mg_view s) (mg_view s') {[mg_next_capture_id s]}) as L. rewrite size_singleton in L.
  apply Z.le_trans with (1 + occupied (mg_view s)); [|lia]. apply L. intros j Hj.
  apply elem_of_dom in Hj as [t Ht]. apply map_lookup_filter_Some in Ht as [Ht Hb].
  destruct (decide (j = mg_next_capture_id s)) as [->|Hne]; [set_solver|].
  apply elem_of_union_r, elem_of_dom. exists t. apply map_lookup_filter_Some.
  split; [by apply (ac_old _ _ _ _ Ha)|done].
Qed.

Lemma decided_ok e r s s' out : manager_ok s -> decided e r s s' out -> manager_ok s'.
Proof. intros Hs H. destruct H as [| |s' _ _ Ha]; [done|done|apply Ha]. Qed.

(** A step respects the limit [M] if it leads from at most [M] captures in
    progress to at most [M], in good order. *)
Definition respects (M : Z) (s : manager) (r : outcome (manager * outbox)) : Prop :=
  exists s' out, r = Done (s', out) /\ manager_ok s' /\
    (occupied (mg_view s) <= M -> occupied (mg_view s') <= M).

(** The filter of a request has something to trim. *)
Definition request_filtered (e : env) (m : SRxStartCaptureMsg) : bool :=
  match resolve_target_processes e m with inl ps => negb (blank_filter ps m) | inr _ => true end.

(** The request an alert leads to, if it leads to one. *)
Definition alert_request (e : env) (a : SRxSampleMsg) : option SRxStartCaptureMsg :=
  prepare_capture_from_sample (en_ms e) (en_strategy e) a.

Definition alert_filtered (e : env) (a : SRxSampleMsg) : bool :=
  match alert_request e a with Some m => request_filtered e m | None => true end.

Definition filter_given (e : env) (msg : message) : bool :=
  match msg with
  | MsgStartCapture m => request_filtered e m
  | MsgSampleAlert a => alert_filtered e a
  | _ => true
  end.

(** A step respects the limit, or it is undefined for want of a filter. *)
Definition respects_if (M : Z) (s : manager) (filtered : bool) (r : outcome (manager * outbox)) : Prop :=
  respects M s r \/ r = Undef /\ filtered = false.

Lemma start_respects_if M e m s :
  manager_ok s -> mg_next_capture_id s < INT_MAX -> get_max_concurrent_limit e <= M ->
  respects_if M s (request_filtered e m) (handle_start_capture e m s).
Proof.
  intros Hs Hlt HM. unfold handle_start_capture, request_filtered.
  destruct (resolve_target_processes e m) as [ps|reply]; [|left; by eexists _, _].
  pose proof (prepare_cases e m ps) as Hp. destruct (blank_filter ps m); [right; by rewrite Hp|left].
  destruct Hp as [r ->]. rewrite outcome_bind_done.
  destruct (decide_request_ok e r s Hs Hlt) as (s' & out & -> & Hd). eexists _, _. split; [done|].
  split; [by eapply decided_ok|]. apply decided_occupied in Hd. lia.
Qed.

Lemma start_respects M e m s :
  manager_ok s -> mg_next_capture_id s < INT_MAX -> get_max_concurrent_limit e <= M -> request_filtered e m = true ->
  respects M s (handle_start_capture e m s).
Proof. intros Hs Hlt HM Hf. destruct (start_respects_if M e m s) as [H|[_ H]]; [done..|congruence]. Qed.

(** Neither the id of the alert nor the default for its module changes it. *)
Lemma alert_request_same e a id :
  alert_request e (a <| sa_module_name := or_default (sa_module_name a) "default" |> <| sa_alert_id := id |>)
  = alert_request e a.
Proof.
  assert (E : or_default (or_default (sa_module_name a) "default") "default" = or_default (sa_module_name a) "default").
  { unfold or_default. by destruct (sa_module_name a). }
  set (b := a <| sa_module_name := _ |> <| sa_alert_id := id |>).
  assert (Hb : sa_module_name b = or_default (sa_module_name a) "default" /\ sa_capture_hint b = sa_capture_hint a /\
    sa_capture_category b = sa_capture_category a /\ sa_capture_duration_sec b = sa_capture_duration_sec a)
    by (unfold b; by destruct a).
  clearbody b. destruct Hb as (E1 & E2 & E3 & E4).
  unfold alert_request, prepare_capture_from_sample. by rewrite E1, E2, E3, E4, E.
Qed.

Lemma manager_ok_same s s' :
  manager_ok s -> mg_tasks s' = mg_tasks s -> mg_next_capture_id s' = mg_next_capture_id s ->
  mg_next_worker s' = mg_next_worker s -> mg_next_filter s' = mg_next_filter s -> manager_ok s'.
Proof. intros [] E1 E2 E3 E4. constructor; by rewrite ?E1, ?E2, ?E3, ?E4. Qed.

Lemma alert_respects_if M e a s :
  manager_ok s -> mg_next_capture_id s < INT_MAX -> get_max_concurrent_limit e <= M ->
  respects_if M s (alert_filtered e a) (handle_sample_alert e a s).
Proof.
  intros Hs Hlt HM. unfold handle_sample_alert. destruct (record_sample_alert _ _ _) as [id ring].
  set (s1 := s <| mg_alerts := ring |>). set (a1 := _ <| sa_alert_id := id |>).
  assert (H1 : manager_ok s1) by (by apply (manager_ok_same s); destruct s).
  assert (E1 : mg_view s1 = mg_view s /\ mg_next_capture_id s1 = mg_next_capture_id s) by by destruct s.
  destruct E1 as [E1 N1]. assert (Hquiet : forall b out, respects_if M s b (Done (s1, out))).
  { intros b out. left. exists s1, out. split; [done|]. split; [done|by rewrite E1]. }
  destruct (is_empty _); [apply Hquiet|]. destruct (should_throttle_module _ _ _ _); [apply Hquiet|].
  fold (alert_request e a1). unfold a1. rewrite alert_request_same. unfold alert_filtered.
  destruct (alert_request e a) as [m|]; [|apply Hquiet].
  set (s2 := s1 <| mg_last_trigger := _ |>).
  assert (H2 : manager_ok s2) by (by apply (manager_ok_same s1); unfold s2; destruct s1).
  assert (E2 : mg_view s2 = mg_view s1 /\ mg_next_capture_id s2 = mg_next_capture_id s1) by (unfold s2; by destruct s1).
  destruct E2 as [E2 N2]. destruct (start_respects_if M e m s2) as [(s' & out & -> & Hok & Ho)|[-> Hf]]; [done|congruence|done| |by right].
  left. rewrite outcome_bind_done. eexists _, _. split; [done|]. split; [done|]. rewrite <- E1, <- E2. exact Ho.
Qed.

Lemma message_respects_if M e msg s :
  manager_ok s -> orderly s msg -> mg_next_capture_id s < INT_MAX -> get_max_concurrent_limit e <= M ->
  respects_if M s (filter_given e msg) (handle_msg e msg s).
Proof.
  intros Hs Ho Hlt HM. destruct (starts_capture msg) eqn:Em.
  - destruct msg; try done; [by apply start_respects_if|by apply alert_respects_if].
  - destruct (reports_quiet e msg s Hs Em Ho) as (s' & out & -> & Hq & _ & Hc). left. exists s', out.
    split; [done|]. split; [done|]. intros HsM. apply calmer_occupied in Hc. lia.
Qed.

Lemma message_respects M e msg s :
  manager_ok s -> orderly s msg -> mg_next_capture_id s < INT_MAX -> get_max_concurrent_limit e <= M ->
  filter_given e msg = true -> respects M s (handle_msg e msg s).
Proof. intros Hs Ho Hlt HM Hf. destruct (message_respects_if M e msg s) as [H|[_ H]]; [done..|congruence]. Qed.

Lemma run_process_quiet s : manager_ok s -> exists s', run_process s = Done s' /\ quiet_step s s'.
Proof.
  intros Hs. destruct (cleanup_ok (mg_tasks s) (mo_tasks s Hs)) as (m & E & Hm & Ht & _).
  exists (set_tasks s m). unfold run_process. rewrite E, outcome_bind_done. split; [done|].
  apply quiet_tasks; [done|done|]. rewrite Ht. apply calmer_refl.
Qed.

(** The messages and timer steps of the manager thread, one after another, while
    ids are left and reports come in order ([orderly] is a hypothesis on the
    workers: the code does not check it), and between two of them the files the
    cleanup thread appends to a task; [M] bounds every configured limit. *)
Inductive runs (M : Z) (s : manager) : manager -> Prop :=
  | runs_refl : runs M s s
  | runs_msg s1 e msg s2 out :
      runs M s s1 -> orderly s1 msg -> mg_next_capture_id s1 < INT_MAX -> get_max_concurrent_limit e <= M ->
      handle_msg e msg s1 = Done (s2, out) -> runs M s s2
  | runs_idle s1 s2 : runs M s s1 -> run_process s1 = Done s2 -> runs M s s2
  | runs_cleanup s1 id files ok m :
      runs M s s1 -> append_capture_files (mg_tasks s1) id files = Done (ok, m) -> runs M s (set_tasks s1 m).

Lemma runs_ok M s s' : manager_ok s -> runs M s s' -> manager_ok s' /\ (occupied (mg_view s) <= M -> occupied (mg_view s') <= M).
Proof.
  intros Hs. induction 1 as [|s1 e msg s2 out _ [H1 IH] Ho Hlt HM E|s1 s2 _ [H1 IH] E|s1 id files ok m _ [H1 IH] E]; [done| | |].
  - destruct (message_respects_if M e msg s1 H1 Ho Hlt HM) as [(s2' & out' & E' & H2 & Hc)|[E' _]]; rewrite E in E'; [|done].
    apply (inj Done) in E'. injection E' as <- <-. auto.
  - destruct (run_process_quiet s1 H1) as (s2' & E' & H2 & _ & Hc). rewrite E in E'. apply (inj Done) in E' as <-.
    split; [done|]. intros HsM. apply calmer_occupied in Hc. auto with zarith.
  - destruct (append_keeps (mg_tasks s1) id files (mo_tasks s1 H1)) as (ok' & m' & E' & Hm & Hc & _). rewrite E in E'.
    apply (inj Done) in E'. injection E' as <- <-. destruct (quiet_tasks s1 m H1 Hm Hc) as (H2 & _ & Hc2).
    split; [done|]. intros HsM. apply calmer_occupied in Hc2. auto with zarith.
Qed.

(** C10: the capacity limit.  After any sequence of requests, queries, alerts,
    timer steps, file records of the cleanup thread and orderly reports (no
    report puts a task in progress that is not: the code does not check that),
    handled one after another while ids are left, the number of captures that
    are assigned or running does not exceed the configured limit (the largest
    one, if it is changed on the way). *)
Theorem capacity_respected M i ws flt fs s :
  0 <= M -> runs M (new_manager i ws flt fs) s -> occupied (mg_view s) <= M.
Proof.
  intros HM Hr. apply (runs_ok M _ _ (new_manager_ok i ws flt fs) Hr). apply Z.le_trans with 0; [|done].
  unfold mg_view, tasks. cbn [new_manager mg_tasks]. change (curr_table new_mgr) with empty_table.
  by rewrite view_empty.
Qed.

(** C11: the manager handles its messages.  In every state it reaches by
    handling messages one after another, with the cleanup thread's file records
    in between, every message is handled without undefined behaviour (no freed
    task is touched, no iterator is invalid, no id overflows) and the invariant
    of the tasks is kept, if the report is orderly, an id is left, and a
    request for a capture has a filter that is not blank; the only undefined
    behaviour of a request without one is the trimming of that filter.  The
    timer step is always handled. *)
Theorem manager_handles_every_message M i ws flt fs s :
  runs M (new_manager i ws flt fs) s ->
  (forall e msg, orderly s msg -> mg_next_capture_id s < INT_MAX ->
     (exists s' out, handle_msg e msg s = Done (s', out) /\ manager_ok s') \/
     handle_msg e msg s = Undef /\ filter_given e msg = false) /\
  (exists s', run_process s = Done s' /\ manager_ok s').
Proof.
  intros Hr. assert (Hs : manager_ok s) by (apply (runs_ok M _ _ (new_manager_ok i ws flt fs) Hr)). split.
  - intros e msg Ho Hlt. destruct (message_respects_if _ e msg s Hs Ho Hlt (Z.le_refl _)) as [(s' & out & ? & ? & _)|H]; [|by right].
    left. by exists s', out.
  - destruct (run_process_quiet s Hs) as (s' & E & Hok & _). by exists s'.
Qed.

(** The state after a message. *)
Definition after (r : outcome (manager * outbox)) (s : manager) : manager :=
  match r with Done (s', _) => s' | _ => s end.

Lemma runs_after M s s1 e msg :
  manager_ok s -> runs M s s1 -> orderly s1 msg -> mg_next_capture_id s1 < INT_MAX ->
  get_max_concurrent_limit e <= M -> filter_given e msg = true -> runs M s (after (handle_msg e msg s1) s1).
Proof.
  intros Hs Hr Ho Hlt HM Hf. destruct (runs_ok M s s1 Hs Hr) as [H1 _].
  destruct (message_respects M e msg s1 H1 Ho Hlt HM Hf) as (s2 & out & E & _). rewrite E. by eapply runs_msg.
Qed.

(** Two requests with a limit of one. *)
Definition first_run : manager :=
  let s := new_manager 5 [10; 11] [20] no_files in
  after (handle_msg (sample_env 100 1) (MsgStartCapture (sample_request "eth0")) s) s.

Definition second_run : manager :=
  after (handle_msg (sample_env 101 1) (MsgStartCapture (sample_request "eth1")) first_run) first_run.

Lemma sample_runs : runs 1 (new_manager 5 [10; 11] [20] no_files) second_run.
Proof.
  pose proof (new_manager_ok 5 [10; 11] [20] no_files) as Hs. apply runs_after; try done.
  apply runs_after; try done. apply runs_refl.
Qed.

Lemma capacity_respected_witness : occupied (mg_view second_run) = 1 /\ occupied (mg_view second_run) <= 1.
Proof.
  split; [by vm_compute|]. apply (capacity_respected 1 5 [10; 11] [20] no_files); [lia|apply sample_runs].
Defined.

(** Why reports must be orderly: a second report of the start of a capture that
    has finished puts it in progress again, over the limit of one. *)
Definition demo_base : CaptureMessageBase := mkBase 1000 "" "" 1 0 0 10.

Definition late_run : manager :=
  let finished := after (handle_msg (sample_env 101 1)
    (MsgCaptureFinished (mkFinishedV2 demo_base (mkResultStats 0 0 0 0 0 ""))) first_run) first_run in
  let second := after (handle_msg (sample_env 102 1) (MsgStartCapture (sample_request "eth1")) finished) finished in
  after (handle_msg (sample_env 103 1) (MsgCaptureStarted (mkStartedV2 demo_base 100000000 7 "")) second) second.

Example late_start_exceeds_limit : occupied (mg_view late_run) = 2.
Proof. vm_compute. reflexivity. Qed.

Lemma manager_handles_every_message_witness :
  exists s' out, handle_msg (sample_env 102 1) (MsgQueryCapture (mkQueryMsg 1000 (mkObjId 7 3))) second_run = Done (s', out) /\
    manager_ok s'.
Proof.
  destruct (manager_handles_every_message 1 5 [10; 11] [20] no_files second_run sample_runs) as [H _].
  destruct (H (sample_env 102 1) (MsgQueryCapture (mkQueryMsg 1000 (mkObjId 7 3)))) as [H1|[_ [=]]]; [done|by vm_compute|exact H1].
Defined.

(** ** Prepared requests *)

Lemma effective_duration_pos d snapshot strategy : 0 < effective_duration d snapshot strategy.
Proof.
  unfold effective_duration. cbv zeta. match goal with |- 0 < if ?x <=? 0 then _ else _ => set (y := x) end.
  destruct (Z.leb_spec y 0); [done|lia].
Qed.

Lemma bounded_length n s : (0 < n)%nat -> (String.length (bounded n s) < n)%nat.
Proof. intros Hn. unfold bounded. pose proof (str_take_length (n - 1) s). lia. Qed.

(** What a prepared request guarantees, for every request whose filter is not
    blank and every process list and configuration: the capture has a positive duration, which the task,
    the worker's specification and its configuration agree on; it has an
    interface; and its key fits the code's buffer. *)
Theorem prepared_request e m ps :
  blank_filter ps m = false ->
  exists r, prepare_request e m ps = Done r /\
    0 < sm_duration_sec (rq_msg r) /\ sp_max_duration_sec (rq_spec r) = sm_duration_sec (rq_msg r) /\
    0 < cs_max_duration_sec (rq_snapshot r) /\
    sm_iface (rq_msg r) <> "" /\ sp_iface (rq_spec r) = sm_iface (rq_msg r) /\
    (String.length (rq_key r) < 512)%nat.
Proof.
  unfold prepare_request, blank_filter. intros Hf. destruct (infer_port_filter (auto_filter ps m)) as (a & -> & Ef).
  rewrite <- Ef in Hf. rewrite outcome_bind_done. cbv zeta.
  match goal with |- context [build_capture_signature ?spec ?c ps] =>
    destruct (signature_defined spec c ps) as [payload ->]; [by rewrite capture_spec_filter|] end.
  rewrite outcome_bind_done. eexists. split; [done|].
  set (snapshot := config_snapshot e). set (b := default_iface (en_strategy e) a).
  pose proof (effective_duration_pos (sm_duration_sec b) snapshot (en_strategy e)) as Hd.
  set (d := effective_duration _ _ _) in *. cbn [rq_msg rq_snapshot rq_spec rq_key].
  assert (Hi : sm_iface b <> "").
  { unfold b, default_iface. destruct (is_empty_spec (sm_iface a)) as [_|E]; [|done].
    destruct a. cbn. by destruct (is_empty_spec (match en_strategy e with Some c => df_iface (sc_defaults c) | None => "" end)). }
  split; [by destruct b|]. split; [by destruct b|]. split; [|split; [by destruct b|split; [by destruct b|]]].
  - destruct (Z.leb_spec (cs_max_duration_sec snapshot) 0); [by destruct snapshot|done].
  - apply bounded_length. lia.
Qed.

Lemma prepared_request_witness :
  exists r, prepare_request (sample_env 100 2) (sample_request "eth0") [] = Done r /\
    0 < sm_duration_sec (rq_msg r) /\ sp_max_duration_sec (rq_spec r) = sm_duration_sec (rq_msg r) /\
    0 < cs_max_duration_sec (rq_snapshot r) /\
    sm_iface (rq_msg r) <> "" /\ sp_iface (rq_spec r) = sm_iface (rq_msg r) /\
    (String.length (rq_key r) < 512)%nat.
Proof. exact (prepared_request (sample_env 100 2) (sample_request "eth0") [] eq_refl). Defined.

(** ** Alerts *)

Lemma start_keeps_triggers e m s s' out :
  manager_ok s -> mg_next_capture_id s < INT_MAX -> handle_start_capture e m s = Done (s', out) ->
  mg_last_trigger s' = mg_last_trigger s.
Proof.
  intros Hs Hlt. unfold handle_start_capture. destruct (resolve_target_processes e m) as [ps|reply].
  - pose proof (prepare_cases e m ps) as Hp. destruct (blank_filter ps m); [by rewrite Hp|].
    destruct Hp as [r ->]. rewrite outcome_bind_done.
    destruct (decide_request_ok e r s Hs Hlt) as (s1 & o & -> & Hd). intros E. apply (inj Done) in E as [= <- <-].
    destruct Hd as [| |s' _ _ Ha]; [done|done|]. apply (ac_rest _ _ _ _ Ha).
  - intros E. by apply (inj Done) in E as [= <- <-].
Qed.

Lemma module_cooldown_pos strategy a : 0 < module_cooldown strategy a.
Proof.
  unfold module_cooldown. cbv zeta. match goal with |- 0 < if ?x <=? 0 then _ else _ => set (y := x) end.
  destruct (Z.leb_spec y 0); [done|lia].
Qed.

(** The module an alert names. *)
Definition alert_module (a : SRxSampleMsg) : string := or_default (sa_module_name a) "default".

(** [out] tells every HTTP thread of the alert, and nothing else. *)
Definition only_notifies (e : env) (out : outbox) : Prop :=
  exists alert, out = map (fun t => (mkObjId OBJ_ID_THREAD t, MsgSampleAlert alert)) (en_http_threads e).

(** The module has triggered less than its cooldown ago. *)
Definition cooling (e : env) (a : SRxSampleMsg) (s : manager) : Prop :=
  exists last, mg_last_trigger s !! alert_module a = Some last /\
    last <= en_time e < last + module_cooldown (en_strategy e) a.

Lemma throttle_iff e a s :
  should_throttle_module (mg_last_trigger s) (alert_module a) (module_cooldown (en_strategy e) a) (en_time e) = true
  <-> cooling e a s.
Proof.
  unfold should_throttle_module, cooling. pose proof (module_cooldown_pos (en_strategy e) a).
  destruct (Z.leb_spec (module_cooldown (en_strategy e) a) 0); [lia|].
  destruct (mg_last_trigger s !! alert_module a) as [last|].
  - rewrite andb_true_iff, Z.leb_le, Z.ltb_lt. split; [intros; exists last; split; [done|lia]|].
    intros (l & [= <-] & Hl). lia.
  - split; [done|by intros (l & [=] & _)].
Qed.

(** C25: alerts are throttled per module.  While a module is in its cooldown,
    an alert of it is recorded and shown to the HTTP threads, and starts no
    capture: no task, no message to a worker.  An alert that is not throttled
    and leads to a capture request starts the cooldown of its module (even if
    the request is then refused) and leaves the other modules' alone.  An alert
    is undefined behaviour only if it is not throttled and its request has a
    blank filter. *)
Theorem alert_cooldown e a s :
  manager_ok s -> mg_next_capture_id s < INT_MAX ->
  (exists s' out, handle_sample_alert e a s = Done (s', out) /\
    (cooling e a s -> mg_tasks s' = mg_tasks s /\ mg_last_trigger s' = mg_last_trigger s /\ only_notifies e out) /\
    (mg_last_trigger s' = mg_last_trigger s /\ only_notifies e out \/
     ~ cooling e a s /\ mg_last_trigger s' = <[alert_module a := en_time e]> (mg_last_trigger s))) \/
  handle_sample_alert e a s = Undef /\ ~ cooling e a s /\ alert_filtered e a = false.
Proof.
  intros Hs Hlt. unfold handle_sample_alert. destruct (record_sample_alert _ _ _) as [id ring].
  set (s1 := s <| mg_alerts := ring |>). set (a0 := a <| sa_module_name := _ |>). set (a1 := a0 <| sa_alert_id := id |>).
  assert (E1 : sa_module_name a1 = alert_module a /\ module_cooldown (en_strategy e) a1 = module_cooldown (en_strategy e) a)
    by (unfold a1, a0, module_cooldown; by destruct a). destruct E1 as [Em Ec]. rewrite Em, Ec.
  assert (F1 : mg_tasks s1 = mg_tasks s /\ mg_last_trigger s1 = mg_last_trigger s /\
    mg_next_capture_id s1 = mg_next_capture_id s) by by destruct s.
  destruct F1 as (F1 & F2 & F3). set (notify := map _ (en_http_threads e)).
  assert (Hn : only_notifies e notify) by by exists a1.
  destruct (is_empty _); [left; exists s1, notify; split; [done|]; split; [by rewrite F1, F2|by left]|].
  rewrite F2. destruct (should_throttle_module _ _ _ _) eqn:Et.
  { left. exists s1, notify. split; [done|]. split; [by rewrite F1, F2|by left]. }
  assert (Hnc : ~ cooling e a s) by (rewrite <- throttle_iff; congruence).
  fold (alert_request e a1). unfold a1, a0. rewrite alert_request_same. unfold alert_filtered.
  destruct (alert_request e a) as [m|]; [|left; exists s1, notify; split; [done|]; split; [by rewrite F1, F2|by left]].
  set (s2 := s1 <| mg_last_trigger := _ |>).
  assert (G : mg_tasks s2 = mg_tasks s /\ mg_next_capture_id s2 = mg_next_capture_id s)
    by (unfold s2; destruct s1; naive_solver). destruct G as (G1 & G2).
  assert (H2 : manager_ok s2) by (apply (manager_ok_same s); unfold s2, s1; by destruct s).
  destruct (start_respects_if (get_max_concurrent_limit e) e m s2) as [(s' & out & E & _)|[-> Hf]];
    [done|congruence|lia| |by right].
  left. rewrite E, outcome_bind_done. eexists _, _. split; [done|]. split; [by intros|].
  right. split; [done|]. rewrite (start_keeps_triggers e m s2 s' out H2) by (congruence || done).
  unfold s2. destruct s1. cbn in *. by rewrite F2.
Qed.

Definition sample_alert : SRxSampleMsg :=
  mkSampleMsg 0 true false false 0 "cpu" "iface:eth0,filter:tcp" "diag" 30 60 90 80 70.

Definition alerted : manager :=
  let s := new_manager 5 [10] [20] no_files in
  after (handle_sample_alert (sample_env 100 4) sample_alert s) s.

Lemma alerted_ok : manager_ok alerted /\ mg_next_capture_id alerted < INT_MAX.
Proof.
  split; [|by vm_compute].
  destruct (alert_respects_if 4 (sample_env 100 4) sample_alert (new_manager 5 [10] [20] no_files)) as [(s' & out & E & H & _)|[_ E]];
    [apply new_manager_ok|done|done| |by vm_compute in E]. unfold alerted. by rewrite E.
Qed.

Lemma alert_cooldown_witness :
  cooling (sample_env 130 4) sample_alert alerted /\
  exists s' out, handle_sample_alert (sample_env 130 4) sample_alert alerted = Done (s', out) /\
    mg_tasks s' = mg_tasks alerted /\ mg_last_trigger s' = mg_last_trigger alerted /\ only_notifies (sample_env 130 4) out.
Proof.
  assert (Hc : cooling (sample_env 130 4) sample_alert alerted).
  { exists 100. split; [by vm_compute|]. split; [done|by vm_compute]. }
  split; [exact Hc|]. destruct alerted_ok as [H1 H2].
  destruct (alert_cooldown (sample_env 130 4) sample_alert alerted H1 H2) as [(s' & out & E & Hq & _)|(_ & Hn & _)];
    [|destruct (Hn Hc)].
  exists s', out. split; [exact E|exact (Hq Hc)].
Defined.
