(* ===== verification/System.v ===== *)
(** * The capture system: manager, worker and filter thread together

    A request goes from the manager to a worker, the worker's reports go back,
    and a capture with a protocol filter goes through the filter thread.  The
    theorems follow one capture from the request to the completed task and the
    packets in its file. *)

From S2P Require Import Prelude CppString Pcap Storage TaskTypes TaskMgr TaskMgrCorrect Messages PdefTypes Compiler CompilerCorrect Protocol FilterThread CaptureWorker CaptureUtil ProcData PdefWriteback CaptureManager CaptureManagerCorrect CaptureDecision.

(** The manager handles messages in order; what it posts, in order. *)
Fixpoint deliver (e : env) (msgs : list message) (s : manager) : outcome (manager * outbox) :=
  match msgs with
  | [] => Done (s, [])
  | m :: rest =>
      '(s, out1) ← CaptureManager.handle_msg e m s;
      '(s, out2) ← deliver e rest s;
      Done (s, out1 ++ out2)
  end.

(** ** One task *)

(** The step changed the task [id] by [f] and no other. *)
Definition task_step (id : Z) (f : SRxCaptureTask -> SRxCaptureTask) (s s' : manager) : Prop :=
  manager_ok s' /\ same_frame s s' /\ mg_view s' = alter f id (mg_view s).

Lemma task_step_trans id f g s1 s2 s3 :
  task_step id f s1 s2 -> task_step id g s2 s3 -> task_step id (fun t => g (f t)) s1 s3.
Proof.
  intros (_ & F1 & E1) (M & F2 & E2). split; [done|]. split; [by eapply same_frame_trans|].
  by rewrite E2, E1, alter_alter.
Qed.

Lemma task_step_at id f s s' t : task_step id f s s' -> mg_view s !! id = Some t -> mg_view s' !! id = Some (f t).
Proof. intros (_ & _ & E) Ht. by rewrite E, lookup_alter_eq, Ht. Qed.

(** Only this task is released or taken. *)
Lemma task_step_occupied id f s s' :
  task_step id f s s' -> (forall t, busy (f t) -> False) -> occupied (mg_view s') <= occupied (delete id (mg_view s)).
Proof.
  intros (_ & _ & E) Hf. rewrite E. pose proof (occupied_sub (delete id (mg_view s)) (alter f id (mg_view s)) ∅) as L.
  rewrite size_empty in L. apply L. intros j Hj. apply elem_of_dom in Hj as [t Ht].
  apply map_lookup_filter_Some in Ht as [Ht Hb]. cbn [snd] in Hb.
  destruct (decide (j = id)) as [->|Hne].
  - rewrite lookup_alter_eq in Ht. destruct (mg_view s !! id) as [t0|]; [|done]. injection Ht as <-. by destruct (Hf t0).
  - rewrite lookup_alter_ne in Ht by done. apply elem_of_union_r, elem_of_dom. exists t.
    apply map_lookup_filter_Some. by rewrite lookup_delete_ne.
Qed.

Lemma on_tasks_step s id f ok m :
  manager_ok s -> mgr_inv m -> tasks m = alter f id (mg_view s) -> (forall t, t_capture_id (f t) = t_capture_id t) ->
  on_tasks s (Done (ok, m)) = Done (set_tasks s m) /\ task_step id f s (set_tasks s m).
Proof.
  intros Hs Hm Et Hid. split; [done|]. destruct Hs as [_ Hi Hn Hw Hw'].
  assert (E : mg_tasks (set_tasks s m) = m) by by destruct s. split; [|split; [by destruct s|by unfold mg_view; rewrite E]].
  constructor; rewrite ?E; [done| |by destruct s..]. intros j t. rewrite Et. intros Hj.
  replace (mg_next_capture_id (set_tasks s m)) with (mg_next_capture_id s) by by destruct s.
  apply lookup_alter_Some in Hj as [(-> & t0 & Ht0 & ->)|(_ & Hj)]; [|by apply Hi].
  rewrite Hid. by apply Hi.
Qed.

Lemma then_status_step s id u st :
  manager_ok s -> (forall t, same_names t (u t)) ->
  exists s', on_tasks s (update_then_status (mg_tasks s) id u st) = Done s' /\
    task_step id (fun t => (u t) <| t_status := st |>) s s'.
Proof.
  intros Hs Hn. destruct (update_then_status_ok (mg_tasks s) id u st (mo_tasks s Hs)) as (m & -> & Hm & Et); [by intros|].
  eexists. eapply on_tasks_step; [done|done|exact Et|]. intros t. destruct (Hn t) as (_ & _ & _ & <-). by destruct (u t).
Qed.

Lemma update_step s id u :
  manager_ok s -> (forall t, same_names t (u t)) ->
  exists s', on_tasks s (update_task (mg_tasks s) id u) = Done s' /\ task_step id u s s'.
Proof.
  intros Hs Hn. destruct (update_task_ok (mg_tasks s) id u (mo_tasks s Hs)) as (m & -> & Hm & Et); [by intros|].
  eexists. eapply on_tasks_step; [done|done|exact Et|]. intros t. apply Hn.
Qed.

(** A step that only touches what the tasks do not depend on. *)
Lemma same_tasks_step id s s' :
  manager_ok s' -> same_frame s s' -> mg_view s' = mg_view s -> task_step id (fun t => t) s s'.
Proof.
  intros Hs Hf E. split; [done|]. split; [done|]. rewrite E. symmetry. apply map_eq. intros j.
  destruct (decide (j = id)) as [->|]; [rewrite lookup_alter_eq; by destruct (_ !! id)|by rewrite lookup_alter_ne].
Qed.

Lemma clear_step id j s :
  manager_ok s -> exists s', clear_module_cooldown_for_capture j s = Done s' /\ task_step id (fun t => t) s s'.
Proof.
  intros Hs. destruct (clear_cooldown_steady j s Hs) as (s' & E & Hq & Hf & _). exists s'. split; [done|].
  apply same_tasks_step; [done|done|]. unfold clear_module_cooldown_for_capture in E.
  rewrite query_task_view in E by apply Hs. rewrite outcome_bind_done in E. apply (inj Done) in E as <-.
  destruct (tasks (mg_tasks s) !! j) as [t|]; [|done]. cbn [fmap option_fmap option_map].
  destruct (_ && _); [by destruct s|done].
Qed.

(** ** What each report does to the task *)

Definition started (st : SRxCaptureStartedMsgV2) (t : SRxCaptureTask) : SRxCaptureTask :=
  (TaskUpdaterStart (st_start_ts st) (st_capture_pid st) (st_output_file st) t) <| t_status := STATUS_RUNNING |>.

Definition finished (ts packets bytes : Z) (path : string) (t : SRxCaptureTask) : SRxCaptureTask :=
  (TaskUpdaterFinished ts packets bytes path t) <| t_status := STATUS_COMPLETED |>.

Lemma started_step e st s :
  manager_ok s -> exists s', CaptureManager.handle_msg e (MsgCaptureStarted st) s = Done (s', []) /\
    task_step (mb_capture_id (st_base st)) (started st) s s'.
Proof.
  intros Hs. destruct (then_status_step s (mb_capture_id (st_base st))
    (TaskUpdaterStart (st_start_ts st) (st_capture_pid st) (st_output_file st)) STATUS_RUNNING Hs) as (s' & E & Hst); [names|].
  exists s'. split; [|exact Hst]. cbn [CaptureManager.handle_msg]. unfold handle_capture_started_v2, set_capture_started.
  by rewrite E.
Qed.

Lemma file_ready_step e r s :
  manager_ok s -> fr_files r <> [] ->
  exists s' out, CaptureManager.handle_msg e (MsgCaptureFileReady r) s = Done (s', out) /\
    task_step (mb_capture_id (fr_base r)) (TaskAppendFiles (fr_files r)) s s'.
Proof.
  intros Hs Hne. cbn [CaptureManager.handle_msg]. unfold handle_capture_file_ready_v2.
  destruct (fr_files r) as [|f fs]; [done|].
  destruct (update_step s (mb_capture_id (fr_base r)) (TaskAppendFiles (f :: fs)) Hs) as (s' & E & Hst); [names|].
  unfold append_capture_files. rewrite E, outcome_bind_done.
  destruct (en_cleanup e); eexists _, _; (split; [done|exact Hst]).
Qed.

Lemma finished_step e f s :
  manager_ok s -> cr_exit_code (fi_result f) = 0 ->
  exists s', CaptureManager.handle_msg e (MsgCaptureFinished f) s = Done (s', []) /\
    task_step (mb_capture_id (fi_base f))
      (finished (cr_finish_ts (fi_result f)) (cr_total_packets (fi_result f)) (cr_total_bytes (fi_result f)) "") s s'.
Proof.
  intros Hs He. set (id := mb_capture_id (fi_base f)). set (r := fi_result f) in *.
  destruct (then_status_step s id (TaskUpdaterFinished (cr_finish_ts r) (cr_total_packets r) (cr_total_bytes r) "")
    STATUS_COMPLETED Hs) as (s1 & E1 & H1); [names|].
  destruct (clear_step id id s1 (proj1 H1)) as (s2 & E2 & H2). exists s2.
  split; [|exact (task_step_trans _ _ _ _ _ _ H1 H2)].
  cbn [CaptureManager.handle_msg]. unfold handle_capture_finished_v2. fold id r. rewrite He. cbn [Z.eqb].
  unfold set_capture_finished. by rewrite E1, outcome_bind_done, E2.
Qed.

(** The record of the filtered file. *)
Definition filtered_file (now_usec : Z) (f : SRxCaptureFilteredFileMsgV2) : CaptureFileInfo :=
  new_file_info <| cf_file_path := ff_filtered_pcap_path f |> <| cf_file_size := ff_file_size f |>
    <| cf_file_ready_ts := now_usec |>.

Lemma filtered_step e f s :
  manager_ok s ->
  exists s', CaptureManager.handle_msg e (MsgCaptureFilteredFile f) s = Done (s', []) /\
    task_step (mb_capture_id (ff_base f))
      (fun t => finished (en_usec e) (ff_total_packets f) (ff_file_size f) (ff_filtered_pcap_path f)
                  (TaskAppendFiles [filtered_file (en_usec e) f] t)) s s'.
Proof.
  intros Hs. set (id := mb_capture_id (ff_base f)).
  destruct (update_step s id (TaskAppendFiles [filtered_file (en_usec e) f]) Hs) as (s1 & E1 & H1); [names|].
  destruct (then_status_step s1 id (TaskUpdaterFinished (en_usec e) (ff_total_packets f) (ff_file_size f)
    (ff_filtered_pcap_path f)) STATUS_COMPLETED (proj1 H1)) as (s2 & E2 & H2); [names|].
  destruct (clear_step id id s2 (proj1 H2)) as (s3 & E3 & H3).
  set (g := fun u => Manager.try_writeback_pdef_endian (ff_pdef_file_path f) (Manager.track_pdef_usage_end id (ff_pdef_file_path f) u)).
  exists (with_usage g s3). split.
  - cbn [CaptureManager.handle_msg]. unfold handle_capture_filtered_file_v2. fold id.
    unfold append_capture_files, set_capture_finished. fold (filtered_file (en_usec e) f).
    by rewrite E1, outcome_bind_done, E2, outcome_bind_done, E3, outcome_bind_done.
  - destruct (with_usage_quiet g s3 (proj1 H3)) as (M & F & _).
    assert (H4 : task_step id (fun t => t) s3 (with_usage g s3)) by (apply same_tasks_step; [done|done|by destruct s3]).
    pose proof (task_step_trans _ _ _ _ _ _ H1 H2) as H12. pose proof (task_step_trans _ _ _ _ _ _ H12 H3) as H123.
    exact (task_step_trans _ _ _ _ _ _ H123 H4).
Qed.

Lemma endian_step e m id s :
  manager_ok s ->
  exists s', CaptureManager.handle_msg e (MsgPdefEndian m) s = Done (s', []) /\ task_step id (fun t => t) s s'.
Proof.
  intros Hs. eexists. split; [done|]. destruct (with_usage_quiet (Manager.handle_pdef_endian_detected m) s Hs) as (M & F & _).
  apply same_tasks_step; [done|done|by destruct s].
Qed.

(** A raw file is passed to the next filter thread. *)
Lemma raw_step e raw id s :
  manager_ok s -> mg_filter_threads s <> [] ->
  exists s' i, i ∈ mg_filter_threads s /\
    CaptureManager.handle_msg e (MsgCaptureRawFile raw) s =
      Done (s', [(mkObjId OBJ_ID_THREAD i, MsgCaptureRawFile (raw <| rw_manager_thread_index := mg_thread_index s |>))]) /\
    task_step id (fun t => t) s s'.
Proof.
  intros Hs Hne. pose proof (mo_filter s Hs) as Hnf. pose proof (raw_quiet raw s Hs) as (M & F & _). cbn [CaptureManager.handle_msg].
  unfold handle_capture_raw_file_v2 in *. set (s1 := with_usage _ s) in *.
  assert (Hs1 : mg_next_filter s1 = mg_next_filter s /\ mg_filter_threads s1 = mg_filter_threads s /\
    mg_thread_index s1 = mg_thread_index s /\ mg_view s1 = mg_view s) by by destruct s.
  destruct Hs1 as (E1 & E2 & E3 & E4).
  destruct (pick_some (mg_next_filter s) (mg_filter_threads s) Hne Hnf) as (i & Hp & Hi).
  rewrite E1, E2, Hp in *. rewrite E3. cbn [fst] in M, F. eexists _, i. split; [done|]. split; [done|].
  apply same_tasks_step; [done|done|]. rewrite <- E4. by destruct s1.
Qed.

(** ** From the request to the worker *)

(** A capture that starts was accepted and is assigned. *)
Lemma start_dispatches e req s s1 out target m :
  manager_ok s -> mg_next_capture_id s < INT_MAX -> handle_start_capture e req s = Done (s1, out) ->
  (target, MsgCaptureStart m) ∈ out ->
  exists r worker, accepted e r s s1 /\ pick (mg_next_worker s) (mg_workers s) = Some worker /\
    target = mkObjId OBJ_ID_THREAD worker /\ m = start_v2 e s (mg_next_capture_id s) worker r.
Proof.
  intros Hs Hlt He Hin. unfold handle_start_capture in He.
  assert (Hreply : forall t reply, (target, MsgCaptureStart m) ∈ send_reply_to_http t reply -> False).
  { intros t reply. unfold send_reply_to_http. destruct (0 <? _); [|by intros ?%elem_of_nil].
    by intros [=]%list_elem_of_singleton. }
  destruct (resolve_target_processes e req) as [ps|reply].
  2:{ apply (inj Done) in He as [= <- <-]. by apply Hreply in Hin. }
  destruct (prepare_request e req ps) as [r| | |]; [rewrite outcome_bind_done in He|done..].
  destruct (decide_request_ok e r s Hs Hlt) as (s' & o & Ed & Hd). rewrite Ed in He. apply (inj Done) in He as [= <- <-].
  destruct Hd as [id t Hd|Hd Hc|s' Hd Hc Ha]; [by apply Hreply in Hin|by apply Hreply in Hin|].
  apply elem_of_app in Hin as [Hin|Hin]; [|by apply Hreply in Hin]. unfold dispatched in Hin.
  destruct (pick (mg_next_worker s) (mg_workers s)) as [worker|] eqn:Ep; [|by apply elem_of_nil in Hin].
  exists r, worker. split; [done|]. split; [done|].
  apply elem_of_cons in Hin as [[= -> ->]|Hin]; [done|]. apply list_elem_of_singleton in Hin. by simplify_eq.
Qed.

Lemma accepted_occupied e r s s1 :
  accepted e r s s1 -> occupied (delete (mg_next_capture_id s) (mg_view s1)) <= occupied (mg_view s).
Proof.
  intros Ha. apply calmer_occupied. intros j t Hj. apply lookup_delete_Some in Hj as [Hne Hj].
  exists t. split; [by apply (ac_old _ _ _ _ Ha)|done].
Qed.

(** The task the manager made for a capture. *)
Definition assigned_task (e : env) (r : request) (s : manager) (worker : Z) : SRxCaptureTask :=
  AssignWorker worker (task_of (en_time e) (mg_next_capture_id s) r).

(** ** The capture of one task *)

Section Capture.
Context (localtime : Z -> tm) `{Pcap W D R}.
Context (open_live : string -> bool) (stat_size : string -> W -> option Z) (ti pid : Z).
Context (start_sec armed_sec start_ts finish_ts : Z) (es : list event).
Hypothesis opens : forall p w, fst (pcap_dump_open p w) <> None.

Abbreviation path m := (run_path localtime (D := D) start_sec m).
Abbreviation stored m := (run_packets armed_sec m es).
Abbreviation run m w := (execute_capture localtime open_live stat_size ti pid start_sec armed_sec start_ts finish_ts m es w).

(** What a completed task records: the counts and its one file. *)
Record completed (t : SRxCaptureTask) (packets bytes : Z) (file : string) : Prop := {
  co_status : t_status t = STATUS_COMPLETED;
  co_packets : t_packet_count t = packets;
  co_bytes : t_bytes_captured t = bytes;
  co_output : t_output_file t = file;
  co_files : map cf_file_path (t_captured_files t) = [file];
}.

(** Reports of an unfiltered capture. *)
Lemma reports_complete e2 e r s s1 worker w' :
  accepted e r s s1 -> pick (mg_next_worker s) (mg_workers s) = Some worker ->
  let m := start_v2 e s (mg_next_capture_id s) worker r in
  filters_protocol (sv_spec m) = false -> path m <> "" ->
  exists s2 out2 t,
    deliver e2 (map snd (capture_reports localtime (D := D) stat_size ti pid start_sec armed_sec start_ts finish_ts m es w')) s1 = Done (s2, out2) /\
    task_step (mg_next_capture_id s) (fun _ => t) s1 s2 /\ completed t (Z.of_nat (length (stored m))) (total_bytes (stored m)) (path m).
Proof.
  intros Ha Hp m Hf Hpath. unfold capture_reports. rewrite Hf. cbn [map snd]. set (id := mg_next_capture_id s).
  pose proof (ac_task _ _ _ _ Ha) as Ht. rewrite Hp in Ht. fold id in Ht. cbv zeta in Ht.
  set (t0 := AssignWorker worker _) in Ht.
  assert (Ht0 : t_captured_files t0 = []) by (unfold t0, AssignWorker; by case_decide).
  match goal with |- context [deliver e2 [MsgCaptureStarted ?st; MsgCaptureFileReady ?fr; MsgCaptureFinished ?fi] s1] =>
    destruct (started_step e2 st s1 (ac_ok _ _ _ _ Ha)) as (sa & Ea & Ha1);
    destruct (file_ready_step e2 fr sa (proj1 Ha1)) as (sb & ob & Eb & Hb1);
      [cbn [fr_files]; unfold final_file; by destruct (is_empty_spec (path m))|];
    destruct (finished_step e2 fi sb (proj1 Hb1) eq_refl) as (sc & Ec & Hc1)
  end.
  cbn [deliver]. rewrite Ea, outcome_bind_done, Eb, outcome_bind_done, Ec, outcome_bind_done. cbn [outcome_bind].
  rewrite !outcome_bind_done.
  cbn [report_base st_base fr_base fi_base mb_capture_id] in Ha1, Hb1, Hc1.
  change (mb_capture_id (sv_base m)) with id in Ha1, Hb1, Hc1.
  pose proof (task_step_trans _ _ _ _ _ _ (task_step_trans _ _ _ _ _ _ Ha1 Hb1) Hc1) as (Hok & Hfr & Hv).
  eexists _, _, _. split; [done|]. split.
  - split; [exact Hok|]. split; [exact Hfr|]. rewrite Hv. apply map_eq. intros j. destruct (decide (j = id)) as [->|Hne].
    + rewrite !lookup_alter_eq, Ht. reflexivity.
    + by rewrite !lookup_alter_ne.
  - destruct t0. cbn in Ht0. subst. unfold finished, started, TaskAppendFiles, TaskUpdaterStart, TaskUpdaterFinished, final_file, nonempty.
    cbn [st_output_file]. destruct (is_empty_spec (path m)) as [|Hne]; [done|].
    destruct (String.eqb_spec (path m) ""); [done|]. cbn. by split.
Qed.

(** C12: an accepted capture runs to completion.  When a request makes the
    manager start a worker, and the worker's run is good, then delivering the
    worker's reports to the manager completes exactly that task: it records
    the number of packets, their bytes and the output file, which holds the
    packets delivered up to the deadline in order; the slot it took is free
    again; and the other tasks are as they were. *)
Theorem capture_completes e e2 req s s1 out target m w :
  manager_ok s -> mg_next_capture_id s < INT_MAX ->
  handle_start_capture e req s = Done (s1, out) -> (target, MsgCaptureStart m) ∈ out ->
  filters_protocol (sv_spec m) = false -> good_run localtime (D := D) open_live start_sec armed_sec m es ->
  exists reports w' s2 out2 t,
    run m w = Done (reports, w') /\
    Forall (fun x => fst x = thread_target (mg_thread_index s)) reports /\
    deliver e2 (map snd reports) s1 = Done (s2, out2) /\ manager_ok s2 /\
    mg_view s2 = <[mb_capture_id (sv_base m) := t]> (mg_view s1) /\
    completed t (Z.of_nat (length (stored m))) (total_bytes (stored m)) (path m) /\
    contents w' !! path m = Some (stored m) /\
    occupied (mg_view s2) <= occupied (mg_view s).
Proof.
  intros Hs Hlt He Hin Hf Hg. destruct (start_dispatches _ _ _ _ _ _ _ Hs Hlt He Hin) as (r & worker & Ha & Hp & Et & Em). subst target m.
  destruct (execute_capture_run localtime open_live stat_size ti pid start_sec armed_sec start_ts finish_ts _ es opens w Hg)
    as (w' & Hc & _ & Er).
  destruct (reports_complete e2 e r s s1 worker w' Ha Hp Hf (gr_path _ _ _ _ _ _ Hg)) as (s2 & out2 & t & Ed & Hst & Hco).
  eexists _, w', s2, out2, t. split; [exact Er|]. split; [|split; [exact Ed|split; [apply Hst|split; [|split; [exact Hco|split; [exact Hc|]]]]]].
  - unfold capture_reports. rewrite Hf. by repeat constructor.
  - destruct Hst as (_ & _ & ->). apply map_eq. intros j. change (mb_capture_id _) with (mg_next_capture_id s).
    destruct (decide (j = mg_next_capture_id s)) as [->|Hne].
    + rewrite lookup_alter_eq, lookup_insert_eq. by rewrite (ac_task _ _ _ _ Ha).
    + by rewrite lookup_alter_ne, lookup_insert_ne.
  - etransitivity; [|by eapply accepted_occupied]. eapply task_step_occupied; [exact Hst|].
    intros ?. unfold busy. by rewrite (co_status _ _ _ _ Hco).
Qed.

(** ** A capture with a protocol filter *)

Section Filtered.
Context (read_file : string -> option string) (pdef : ProtocolDef) (sems : list { r : FilterRule & RuleSem r }).
Context (tf filter_now : Z).

(** The message the filter thread gets. *)
Definition forwarded (s : manager) (m : SRxCaptureStartMsgV2) : SRxCaptureRawFileMsgV2 :=
  mkRawFileV2 (report_base ti m finish_ts) (path m) (sp_protocol_filter (sv_spec m))
    (sp_protocol_filter_inline (sv_spec m)) true (mg_thread_index s).

(** The protocol of the capture is [pdef], and the packets are readable. *)
Record filter_works (s : manager) (m : SRxCaptureStartMsgV2) : Prop := {
  fw_threads : mg_filter_threads s <> [];
  fw_load : load_pdef read_file (forwarded s m) = Done (Some pdef);
  fw_rules : pd_filters pdef = map (fun x => projT1 x) sems;
  fw_reopens : forall w', contents w' !! path m = Some (stored m) -> pcap_open_offline (path m) w' <> None;
  fw_packets : Forall readable (stored m);
}.

Lemma works_filterable s m w' :
  filter_works s m -> good_run localtime (D := D) open_live start_sec armed_sec m es ->
  contents w' !! path m = Some (stored m) ->
  exists r, filterable read_file (forwarded s m) pdef sems r w' /\ remaining r = stored m.
Proof.
  intros [Hth Hload Hrules Hop Hpk] Hg Hc. destruct (pcap_open_offline (path m) w') as [r|] eqn:Er; [|by apply Hop in Er].
  pose proof (open_offline_contents _ _ _ Er) as Hr. rewrite Hc in Hr. injection Hr as Hr. exists r. split; [|done].
  split; [done|exact Hload|exact Hrules|exact Er|by rewrite <- Hr|rewrite <- Hr; apply (gr_count _ _ _ _ _ _ Hg)|apply opens].
Qed.

(** Delivering the filter thread's reports completes the task. *)
Lemma filter_reports_complete e3 s0 s m id fsize pks t0 :
  manager_ok s -> mg_view s !! id = Some t0 -> t_captured_files t0 = [] -> mb_capture_id (rw_base (forwarded s0 m)) = id ->
  filtered_path (path m) <> "" ->
  exists s2 out2 t,
    deliver e3 (map snd (filter_reports tf filter_now (forwarded s0 m) pdef sems pks fsize)) s = Done (s2, out2) /\
    task_step id (fun _ => t) s s2 /\ completed t (Z.of_nat (length pks)) fsize (filtered_path (path m)).
Proof.
  intros Hs Ht Hfiles Hid Hpath. unfold filter_reports. destruct (filter_result pdef sems pks) as [ks d]. cbn [map snd].
  set (f := mkFilteredV2 _ _ _ _ _ _). destruct (filtered_step e3 f s Hs) as (sa & Ea & Ha).
  assert (Hf : mb_capture_id (ff_base f) = id) by done. rewrite Hf in Ha.
  assert (Hend : exists sb ob, deliver e3 (map snd (if bool_decide (pd_endian_mode pdef = ENDIAN_MODE_AUTO) &&
      bool_decide (d <> ENDIAN_TYPE_UNKNOWN) && negb (is_empty (rw_pdef_file_path (forwarded s0 m)))
      then [(thread_target (rw_manager_thread_index (forwarded s0 m)), MsgPdefEndian (mkEndianMsg (str_take 255 (rw_pdef_file_path (forwarded s0 m)))
             (endian_value d) (mb_capture_id (rw_base (forwarded s0 m)))))] else [])) sa = Done (sb, ob) /\
      task_step id (fun t => t) sa sb).
  { destruct (_ && _ && _); cbn [map snd deliver].
    - match goal with |- context [MsgPdefEndian ?m0] => destruct (endian_step e3 m0 id sa (proj1 Ha)) as (sb & Eb & Hb) end.
      exists sb, []. split; [|exact Hb]. by rewrite Eb.
    - eexists _, _. split; [done|]. apply same_tasks_step; [apply Ha|by repeat split|done]. }
  destruct Hend as (sb & ob & Eb & Hb). cbn [deliver]. rewrite Ea, outcome_bind_done, Eb, outcome_bind_done.
  pose proof (task_step_trans _ _ _ _ _ _ Ha Hb) as (Hok & Hfr & Hv). eexists _, _, _. split; [done|]. split.
  - split; [exact Hok|]. split; [exact Hfr|]. rewrite Hv. apply map_eq. intros j. destruct (decide (j = id)) as [->|Hne].
    + rewrite !lookup_alter_eq, Ht. reflexivity.
    + by rewrite !lookup_alter_ne.
  - destruct t0. cbn in Hfiles. subst. unfold finished, TaskAppendFiles, TaskUpdaterFinished, nonempty.
    change (ff_filtered_pcap_path f) with (filtered_path (path m)).
    destruct (String.eqb_spec (filtered_path (path m)) ""); [done|]. by split.
Qed.

Lemma filtered_path_nonempty raw : filtered_path raw <> "".
Proof.
  unfold filtered_path. destruct (find_str "_raw.pcap" raw) as [n|].
  - unfold replace_at. intros E. apply (f_equal String.length) in E. rewrite !str_length_app in E. simpl in E. lia.
  - intros E. apply (f_equal String.length) in E. rewrite str_length_app in E. simpl in E. lia.
Qed.

(** The start report and the raw file reach the manager, which passes the file
    to a filter thread. *)
Lemma raw_reports_pass e2 e r s s1 worker w' :
  manager_ok s -> accepted e r s s1 -> pick (mg_next_worker s) (mg_workers s) = Some worker ->
  let m := start_v2 e s (mg_next_capture_id s) worker r in
  filters_protocol (sv_spec m) = true -> mg_filter_threads s <> [] ->
  exists s2 i t,
    i ∈ mg_filter_threads s /\
    deliver e2 (map snd (capture_reports localtime (D := D) stat_size ti pid start_sec armed_sec start_ts finish_ts m es w')) s1 =
      Done (s2, [(mkObjId OBJ_ID_THREAD i, MsgCaptureRawFile (forwarded s m))]) /\
    task_step (mg_next_capture_id s) (fun _ => t) s1 s2 /\ t_captured_files t = [].
Proof.
  intros Hs Ha Hp m Hf Hth. unfold capture_reports. rewrite Hf. cbn [map snd]. set (id := mg_next_capture_id s).
  pose proof (ac_task _ _ _ _ Ha) as Ht. rewrite Hp in Ht. fold id in Ht. cbv zeta in Ht.
  set (t0 := AssignWorker worker _) in Ht.
  assert (Ht0 : t_captured_files t0 = []) by (unfold t0, AssignWorker; by case_decide).
  destruct (ac_frame _ _ _ _ Ha) as (_ & Hti & Hfl).
  match goal with |- context [deliver e2 [MsgCaptureStarted ?st; MsgCaptureRawFile ?rw] s1] =>
    destruct (started_step e2 st s1 (ac_ok _ _ _ _ Ha)) as (sa & Ea & Ha1);
    destruct Ha1 as (Ma & Fa & Va);
    destruct (raw_step e2 rw id sa Ma) as (sb & i & Hi & Eb & Hb1)
  end.
  { destruct Fa as (_ & _ & _ & _ & ->). by rewrite Hfl. }
  destruct Fa as (Fa1 & Fa2 & Fa3 & Fa4 & Fa5). rewrite Fa5, Hfl in Hi. rewrite Fa2, Hti in Eb.
  cbn [deliver]. rewrite Ea, outcome_bind_done, Eb, outcome_bind_done.
  cbn [report_base st_base mb_capture_id] in Va. change (mb_capture_id (sv_base m)) with id in Va.
  destruct Hb1 as (Mb & Fb & Vb). eexists sb, i, _. split; [done|]. split; [done|]. split.
  - split; [done|]. split; [eapply same_frame_trans; [|exact Fb]; by repeat split|].
    rewrite Vb, Va. apply map_eq. intros j. destruct (decide (j = id)) as [->|Hne].
    + rewrite !lookup_alter_eq, Ht. reflexivity.
    + by rewrite !lookup_alter_ne.
  - destruct t0. cbn in Ht0. subst. unfold started, TaskUpdaterStart. cbn. by destruct (nonempty _).
Qed.

(** C13: a capture with a protocol filter runs to completion through the filter
    thread, if nothing fails: the worker's run is good, there is a filter
    thread, the definition loads, the raw file can be read back and the dump
    files open.  The worker's file goes from the manager to one of its filter
    threads; delivering that thread's reports completes the task with the
    filtered file, which holds, in order, exactly the captured packets the
    protocol's filters accept, and frees the slot.  The task's packet count is
    that of the captured packets, its size that of the filtered file.  (When
    filtering fails the filter thread reports nothing and the task stays
    RUNNING: FilterThread, [handle_raw_file_failure_silent].) *)
Theorem filtered_capture_completes e e2 e3 req s s1 out target m w :
  manager_ok s -> mg_next_capture_id s < INT_MAX ->
  handle_start_capture e req s = Done (s1, out) -> (target, MsgCaptureStart m) ∈ out ->
  filters_protocol (sv_spec m) = true -> good_run localtime (D := D) open_live start_sec armed_sec m es -> filter_works s m ->
  exists reports w1 s2 i freports w2 s3 out3 t fsize,
    run m w = Done (reports, w1) /\ i ∈ mg_filter_threads s /\
    deliver e2 (map snd reports) s1 = Done (s2, [(mkObjId OBJ_ID_THREAD i, MsgCaptureRawFile (forwarded s m))]) /\
    handle_raw_file read_file stat_size tf filter_now (Some (forwarded s m)) w1 = Done (freports, w2) /\
    deliver e3 (map snd freports) s2 = Done (s3, out3) /\ manager_ok s3 /\
    mg_view s3 = <[mb_capture_id (sv_base m) := t]> (mg_view s1) /\
    completed t (Z.of_nat (length (stored m))) fsize (filtered_path (path m)) /\
    contents w2 !! filtered_path (path m) = Some (fst (filter_result pdef sems (stored m))) /\
    occupied (mg_view s3) <= occupied (mg_view s).
Proof.
  intros Hs Hlt He Hin Hf Hg Hw. destruct (start_dispatches _ _ _ _ _ _ _ Hs Hlt He Hin) as (r & worker & Ha & Hp & Et & Em).
  subst target m. set (m := start_v2 e s (mg_next_capture_id s) worker r) in *.
  destruct (execute_capture_run localtime open_live stat_size ti pid start_sec armed_sec start_ts finish_ts _ es opens w Hg)
    as (w1 & Hc & _ & Er).
  destruct (raw_reports_pass e2 e r s s1 worker w1 Hs Ha Hp Hf (fw_threads _ _ Hw)) as (s2 & i & t1 & Hi & Ed & Hst & Ht1).
  destruct (works_filterable s m w1 Hw Hg Hc) as (rd & Hfl & Hrem).
  destruct (handle_raw_file_run read_file stat_size tf filter_now (forwarded s m) pdef sems rd w1 Hfl) as (w2 & fsize & Eh & Hc2 & _).
  assert (Hv2 : mg_view s2 !! mg_next_capture_id s = Some t1).
  { destruct Hst as (_ & _ & ->). by rewrite lookup_alter_eq, (ac_task _ _ _ _ Ha). }
  rewrite Hrem in Eh, Hc2.
  destruct (filter_reports_complete e3 s s2 m (mg_next_capture_id s) fsize (stored m) t1 (proj1 Hst) Hv2 Ht1 eq_refl (filtered_path_nonempty _))
    as (s3 & out3 & t & Ed3 & Hst3 & Hco).
  eexists _, w1, s2, i, _, w2, s3, out3, t, fsize. split; [exact Er|]. split; [done|]. split; [exact Ed|]. split; [exact Eh|].
  split; [exact Ed3|]. split; [apply Hst3|]. pose proof (task_step_trans _ _ _ _ _ _ Hst Hst3) as Hall. split; [|split; [exact Hco|split; [exact Hc2|]]].
  - destruct Hall as (_ & _ & ->). apply map_eq. intros j. change (mb_capture_id _) with (mg_next_capture_id s).
    destruct (decide (j = mg_next_capture_id s)) as [->|Hne].
    + rewrite lookup_alter_eq, lookup_insert_eq. by rewrite (ac_task _ _ _ _ Ha).
    + by rewrite lookup_alter_ne, lookup_insert_ne.
  - etransitivity; [|by eapply accepted_occupied]. eapply task_step_occupied; [exact Hall|].
    intros ?. unfold busy. by rewrite (co_status _ _ _ _ Hco).
Qed.
End Filtered.
End Capture.

(** ** Two captures *)

Definition demo_request (protocol_filter : string) : SRxStartCaptureMsg :=
  new_start_msg <| sm_capture_mode := MODE_INTERFACE |> <| sm_iface := "eth0" |> <| sm_file_pattern := "{iface}.pcap" |>
    <| sm_filter := "tcp" |> <| sm_protocol_filter := protocol_filter |> <| sm_duration_sec := 10 |> <| sm_reply_target := mkObjId 7 3 |>.

Definition demo_manager : manager := new_manager 5 [10; 11] [20] no_files.

Definition demo_start (protocol_filter : string) : manager * outbox :=
  match handle_start_capture (sample_env 100 2) (demo_request protocol_filter) demo_manager with
  | Done r => r
  | _ => (demo_manager, [])
  end.

Definition demo_msg (protocol_filter : string) : SRxCaptureStartMsgV2 :=
  match snd (demo_start protocol_filter) with
  | (_, MsgCaptureStart m) :: _ => m
  | _ => worker_msg "" 0 0
  end.

Definition filtered_events : list event := [mkEvent raw_packets 2 105; mkEvent [] (-1) 111].

Lemma demo_start_done pf :
  handle_start_capture (sample_env 100 2) (demo_request pf) demo_manager = Done (demo_start pf).
Proof.
  unfold demo_start. pose proof (start_respects 2 (sample_env 100 2) (demo_request pf) demo_manager
    (new_manager_ok _ _ _ _) eq_refl (Z.le_refl _) eq_refl) as (s' & out & -> & _). done.
Qed.

Lemma capture_completes_witness :
  exists reports w' s2 out2 t,
    @execute_capture demo_time _ _ _ (MemFs ∅) (fun _ => true) (fun _ _ => Some 192) 10 77 100 101 100000000 111000000
      (demo_msg "") worker_events (mkFs ∅ []) = Done (reports, w') /\
    deliver (sample_env 111 2) (map snd reports) (fst (demo_start "")) = Done (s2, out2) /\
    completed t 2 168 "capture_output/eth0.pcap" /\ mg_view s2 !! 1000 = Some t /\
    fs_files w' !! "capture_output/eth0.pcap"%string = Some [demo_packet 60; demo_packet 60] /\
    occupied (mg_view s2) <= 0.
Proof.
  destruct (@capture_completes demo_time _ _ _ (MemFs ∅) (fun _ => true) (fun _ _ => Some 192) 10 77 100 101 100000000 111000000
    worker_events MemFs_opens (sample_env 100 2) (sample_env 111 2) (demo_request "") demo_manager
    (fst (demo_start "")) (snd (demo_start "")) (mkObjId OBJ_ID_THREAD 10) (demo_msg "") (mkFs ∅ []))
    as (reports & w' & s2 & out2 & t & Er & _ & Ed & _ & Hv & Hco & Hc & Ho).
  - apply new_manager_ok.
  - reflexivity.
  - rewrite demo_start_done. by destruct (demo_start "").
  - vm_compute. constructor.
  - vm_compute. reflexivity.
  - split.
    + reflexivity.
    + vm_compute. reflexivity.
    + vm_compute. discriminate.
    + vm_compute. reflexivity.
    + split; [lia|vm_compute; reflexivity].
    + repeat constructor; simpl; lia.
    + repeat constructor.
    + apply Exists_cons_tl, Exists_cons_tl, Exists_cons_hd. vm_compute. discriminate.
    + left. vm_compute. discriminate.
    + vm_compute. discriminate.
  - exists reports, w', s2, out2, t. split; [exact Er|]. split; [exact Ed|].
    assert (E1 : run_packets 101 (demo_msg "") worker_events = [demo_packet 60; demo_packet 60]) by (vm_compute; reflexivity).
    assert (E2 : run_path demo_time (D := string) 100 (demo_msg "") = "capture_output/eth0.pcap"%string) by (vm_compute; reflexivity).
    assert (E3 : mb_capture_id (sv_base (demo_msg "")) = 1000) by (vm_compute; reflexivity).
    rewrite E1, E2 in Hco, Hc. rewrite E3 in Hv. split; [exact Hco|]. split; [by rewrite Hv, lookup_insert_eq|]. split; [exact Hc|].
    etransitivity; [exact Ho|]. by vm_compute.
Defined.

Lemma filtered_capture_completes_witness :
  exists reports w1 s2 i freports w2 s3 out3 t fsize,
    @execute_capture demo_time _ _ _ (MemFs ∅) (fun _ => true) (fun _ _ => None) 10 77 100 101 100000000 111000000
      (demo_msg "t.pdef") filtered_events (mkFs ∅ []) = Done (reports, w1) /\ i ∈ [20] /\
    deliver (sample_env 111 2) (map snd reports) (fst (demo_start "t.pdef")) =
      Done (s2, [(mkObjId OBJ_ID_THREAD i, MsgCaptureRawFile (forwarded demo_time (D := string) 10 100 111000000 demo_manager (demo_msg "t.pdef")))]) /\
    @handle_raw_file _ _ _ (MemFs ∅) (fun _ => Some raw_source) (fun _ _ => None) 20 112000000
      (Some (forwarded demo_time (D := string) 10 100 111000000 demo_manager (demo_msg "t.pdef"))) w1 = Done (freports, w2) /\
    deliver (sample_env 112 2) (map snd freports) s2 = Done (s3, out3) /\
    completed t 2 fsize "capture_output/eth0.pcap" /\
    fs_files w2 !! "capture_output/eth0.pcap"%string = Some [udp_packet [x00; x06]].
Proof.
  destruct (@filtered_capture_completes demo_time _ _ _ (MemFs ∅) (fun _ => true) (fun _ _ => None) 10 77 100 101 100000000 111000000
    filtered_events MemFs_opens (fun _ => Some raw_source) raw_def raw_sems 20 112000000
    (sample_env 100 2) (sample_env 111 2) (sample_env 112 2) (demo_request "t.pdef") demo_manager
    (fst (demo_start "t.pdef")) (snd (demo_start "t.pdef")) (mkObjId OBJ_ID_THREAD 10) (demo_msg "t.pdef") (mkFs ∅ []))
    as (reports & w1 & s2 & i & freports & w2 & s3 & out3 & t & fsize & Er & Hi & Ed & Eh & Ed3 & _ & _ & Hco & Hc & _).
  - apply new_manager_ok.
  - reflexivity.
  - rewrite demo_start_done. by destruct (demo_start "t.pdef").
  - vm_compute. constructor.
  - vm_compute. reflexivity.
  - split.
    + reflexivity.
    + vm_compute. reflexivity.
    + vm_compute. discriminate.
    + vm_compute. reflexivity.
    + split; [lia|vm_compute; reflexivity].
    + repeat constructor; simpl; lia.
    + repeat constructor; simpl; lia.
    + apply Exists_cons_tl, Exists_cons_hd. vm_compute. discriminate.
    + left. vm_compute. discriminate.
    + vm_compute. discriminate.
  - assert (E1 : run_packets 101 (demo_msg "t.pdef") filtered_events = raw_packets) by (vm_compute; reflexivity).
    split.
    + discriminate.
    + vm_compute. reflexivity.
    + vm_compute. reflexivity.
    + intros w' Hw'. cbn [pcap_open_offline MemFs contents] in *. by rewrite Hw'.
    + rewrite E1. exact raw_readable.
  - exists reports, w1, s2, i, freports, w2, s3, out3, t, fsize. split; [exact Er|]. split; [exact Hi|].
    split; [exact Ed|]. split; [exact Eh|]. split; [exact Ed3|].
    assert (E1 : run_packets 101 (demo_msg "t.pdef") filtered_events = raw_packets) by (vm_compute; reflexivity).
    assert (E2 : filtered_path (run_path demo_time (D := string) 100 (demo_msg "t.pdef")) = "capture_output/eth0.pcap"%string) by (vm_compute; reflexivity).
    assert (E3 : fst (filter_result raw_def raw_sems raw_packets) = [udp_packet [x00; x06]]) by (vm_compute; reflexivity).
    rewrite E1, E2 in Hco. rewrite E1, E2, E3 in Hc. split; [exact Hco|exact Hc].
Defined.
