(* ===== verification/Cleanup.v ===== *)
(** * Cleanup thread (src/src/rxcleanupthread.cpp, rxcleanupthread.h)

    Records the captured files in a log, batches them into archives and removes
    old archives and old temporary PDEF files.  The file system and the
    archiver ([std::system]) are the interface [Files]; the order [std::sort]
    gives to entries of the same age is not determined, so the sort is a
    parameter. *)

From Stdlib Require Import Permutation Sorted.
From S2P Require Import Prelude CppString TaskTypes TaskMgr Messages CaptureUtil.

(** ** The file system *)

(** What [stat] tells of a path; [sf_ino] is the identity of the file,
    [st_dev] and [st_ino]. *)
Record Stat := mkStat { sf_size : Z; sf_mtime : Z; sf_reg : bool; sf_dir : bool; sf_ino : Z }.

(** [stat(path, &st) == 0 && S_ISREG(st.st_mode)] *)
Definition regular_stat (s : option Stat) : option Stat :=
  match s with
  | Some s => if sf_reg s then Some s else None
  | None => None
  end.

Inductive mkdir_result := MkdirDone | MkdirExists | MkdirFailed.

(** The calls of the thread.  [fs_append] is [fopen(path, "a")], [fwrite] and
    [fclose]: [None] when the file does not open, else the bytes written;
    [fs_list] the names [readdir] returns, [None] when [opendir] fails.  The
    laws are what remove(3) says of a regular file: a removed path is gone, a
    removal that fails changes nothing, and files other than the removed one
    (which other paths may name too) stay as they are.  Nothing is said of
    directories, whose times change, or of whether a removal succeeds. *)
Class Files (W : Type) := {
  fs_stat : string -> W -> option Stat;
  fs_mkdir : string -> W -> mkdir_result * W;
  fs_remove : string -> W -> bool * W;
  fs_rename : string -> string -> W -> bool * W;
  fs_list : string -> W -> option (list string);
  fs_append : string -> string -> W -> option Z * W;
  fs_system : string -> W -> Z * W;

  (** [off_t]. *)
  stat_size p w s : fs_stat p w = Some s -> 0 <= sf_size s < 2 ^ 63;
  remove_gone p w s :
    regular_stat (fs_stat p w) = Some s -> fst (fs_remove p w) = true -> fs_stat p (snd (fs_remove p w)) = None;
  remove_failed p w q :
    fst (fs_remove p w) = false -> fs_stat q (snd (fs_remove p w)) = fs_stat q w;
  remove_others p w s q :
    regular_stat (fs_stat p w) = Some s ->
    match regular_stat (fs_stat q w) with Some t => sf_ino t <> sf_ino s | None => True end ->
    regular_stat (fs_stat q (snd (fs_remove p w))) = regular_stat (fs_stat q w);
}.

(** ** Configuration and state *)

Record CleanupConfig := mkCleanupConfig {
  cc_compress_interval_sec : Z;
  cc_batch_compress_file_count : Z;
  cc_batch_compress_size_mb : Z;
  cc_archive_dir : string;
  cc_archive_keep_days : Z;
  cc_archive_max_total_size_mb : Z;
  cc_archive_remove_source : bool;
}.

Definition new_cleanup_config : CleanupConfig := mkCleanupConfig 600 10 1024 "/var/log/rxtrace/archives" 14 0 true.

(** The members of [StorageConfig] the thread reads. *)
Record StorageConfig := mkStorageConfig { st_temp_pdef_dir : string; st_temp_pdef_ttl_hours : Z }.

Definition new_storage_config : StorageConfig := mkStorageConfig "/tmp/rxtracenetcap_pdef" 24.

Record PendingFile := mkPending {
  pf_capture_id : Z;
  pf_key : string;
  pf_sid : string;
  pf_file : CaptureFileInfo;
  pf_policy : CaptureConfigSnapshot;
}.

Definition RECORD_MAX_SIZE_BYTES : Z := 50 * 1024 * 1024.
Definition RECORD_MAX_FILES : nat := 2.
Definition default_pdef_dir : string := "/tmp/rxtracenetcap_pdef".
Definition default_record_dir : string := "/var/log/rxtrace/captures".

(** [record_max_size_bytes_] and [compress_threshold_bytes_] (zero) never
    change. *)
Record CRxCleanupThread := mkCleanup {
  cu_config : CleanupConfig;
  cu_pdef_dir : string;
  cu_pdef_ttl_seconds : Z;
  cu_record_file_path : string;
  cu_current_record_size : Z;
  cu_archive_max_total_bytes : Z;
  cu_archive_retention_seconds : Z;
  cu_pending_files : list PendingFile;
}.

Definition new_cleanup : CRxCleanupThread := mkCleanup new_cleanup_config default_pdef_dir (24 * 3600) "" 0 0 0 [].

Definition configure (cfg : CleanupConfig) (storage_cfg : StorageConfig) (c : CRxCleanupThread) : CRxCleanupThread :=
  let days := cc_archive_keep_days cfg in
  mkCleanup cfg
    (if is_empty (st_temp_pdef_dir storage_cfg) then default_pdef_dir else st_temp_pdef_dir storage_cfg)
    (if 0 <? st_temp_pdef_ttl_hours storage_cfg then st_temp_pdef_ttl_hours storage_cfg * 3600 else 0)
    (cu_record_file_path c) (cu_current_record_size c)
    (if 0 <? cc_archive_max_total_size_mb cfg then u64 (cc_archive_max_total_size_mb cfg * 1024 * 1024) else 0)
    (if 0 <? days then if LONG_MAX / 86400 <? days then LONG_MAX else days * 86400 else 0)
    (cu_pending_files c).

(** A time with its calendar fields: year, month, day, hour, minute, second. *)
Definition calendar : Type := Z * Z * Z * Z * Z * Z.

(** The clocks of one batch: when its archive is named, when it is done, and
    [rx_capture_now_usec()] of its report. *)
Record batch_clock := mkBatchClock { bk_named : calendar; bk_done : Z; bk_usec : Z }.

(** What the thread reads: the clock, each time it does (for the age of the
    temporary files, for the record line of the n-th file and for a rotation in
    front of it, for the n-th batch, for the age of the archives), the base
    directory of the strategy configuration (empty without one) and the thread
    indexes. *)
Record cleanup_env := mkCleanupEnv {
  ce_now : Z;
  ce_line : nat -> Z * calendar;
  ce_batch : nat -> batch_clock;
  ce_prune_now : Z;
  ce_base_dir : string;
  ce_manager : option Z;
  ce_thread_index : Z;
}.

(** ** Names *)

(** [strftime] with [%Y%m%d_%H%M%S]. *)
Definition timestamp_suffix (t : calendar) : string :=
  let '(year, mon, mday, hour, min, sec) := t in
  fmt_d year +:+ fmt_0d 2 mon +:+ fmt_0d 2 mday +:+ "_" +:+ fmt_0d 2 hour +:+ fmt_0d 2 min +:+ fmt_0d 2 sec.

(** [path += "/"] unless it is empty or ends in one. *)
Definition with_slash (path : string) : string :=
  if negb (is_empty path) && negb (ends_with "/" path) then path +:+ "/" else path.

Definition get_record_base_dir (e : cleanup_env) : string :=
  if is_empty (ce_base_dir e) then default_record_dir else ce_base_dir e.

Definition current_record_file (e : cleanup_env) : string := with_slash (get_record_base_dir e) +:+ "cleanup.log".

(** The part after the last slash. *)
Definition basename (filename : string) : string :=
  match rfind_char "/" filename with
  | Some pos => str_drop (pos + 1) filename
  | None => filename
  end.

Definition contains (needle s : string) : bool :=
  match find_str needle s with Some _ => true | None => false end.

(** Record files are neither archived nor removed. *)
Definition is_record_file (path : string) : bool :=
  is_prefix "cleanup" (basename path) && contains ".log" (basename path).

Definition quoted_path (path : string) : string := "'" +:+ path +:+ "'".

Definition starts_with_dot (name : string) : bool := is_prefix "." name.

(** The prefixes of [path] that end before a slash, but not before a leading
    one, then [path] itself unless it ends in a slash. *)
Fixpoint dir_prefixes (cur path : string) : list string :=
  match path with
  | EmptyString => []
  | String c rest =>
      let next := push_back cur c in
      if Ascii.eqb c "/" then (if is_empty cur then [] else [cur]) ++ dir_prefixes next rest
      else match rest with
           | EmptyString => [next]
           | _ => dir_prefixes next rest
           end
  end.

Section Cleanup.
Context `{Files W}.

(** [std::sort] by modification time. *)
Context (sort_entries : list (string * Stat) -> list (string * Stat)).

(** [ensure_directory]. *)
Fixpoint ensure_all (dirs : list string) (w : W) : bool * W :=
  match dirs with
  | [] => (true, w)
  | d :: rest =>
      match fs_stat d w with
      | Some s => if sf_dir s then ensure_all rest w else (false, w)
      | None =>
          match fs_mkdir d w with
          | (MkdirFailed, w) => (false, w)
          | (_, w) => ensure_all rest w
          end
      end
  end.

Definition ensure_directory (path : string) (w : W) : bool * W :=
  if is_empty path then (false, w) else ensure_all (dir_prefixes "" path) w.

(** What [stat] says of a regular file. *)
Definition regular (path : string) (w : W) : option Stat := regular_stat (fs_stat path w).

Definition remove_file (path : string) (w : W) : W := snd (fs_remove path w).

(** [static_cast<unsigned long>(st.st_size)], zero if the file is not there. *)
Definition size_of (path : string) (w : W) : Z :=
  match fs_stat path w with Some s => sf_size s | None => 0 end.

(** ** Temporary PDEF files *)

Definition cleanup_pdef_temp_files (e : cleanup_env) (c : CRxCleanupThread) (w : W) : W :=
  if is_empty (cu_pdef_dir c) || (cu_pdef_ttl_seconds c <=? 0) then w else
  match fs_list (cu_pdef_dir c) w with
  | None => w
  | Some names =>
      foldl (fun w name =>
        if starts_with_dot name then w else
        let path := with_slash (cu_pdef_dir c) +:+ name in
        match regular path w with
        | Some s => if cu_pdef_ttl_seconds c <=? ce_now e - sf_mtime s then remove_file path w else w
        | None => w
        end) w names
  end.

(** ** The record of captured files *)

(** The regular files of a directory whose names have the prefix. *)
Fixpoint entries_with (prefix base : string) (names : list string) (w : W) : list (string * Stat) :=
  match names with
  | [] => []
  | name :: rest =>
      let path := base +:+ name in
      match regular path w with
      | Some s =>
          if negb (starts_with_dot name) && is_prefix prefix name then (path, s) :: entries_with prefix base rest w
          else entries_with prefix base rest w
      | None => entries_with prefix base rest w
      end
  end.

Definition prune_record_files (e : cleanup_env) (w : W) : W :=
  match fs_list (get_record_base_dir e) w with
  | None => w
  | Some names =>
      let entries := entries_with "cleanup" (with_slash (get_record_base_dir e)) names w in
      if (length entries <=? RECORD_MAX_FILES)%nat then w
      else foldl (fun w x => remove_file (fst x) w) w
             (take (length entries - RECORD_MAX_FILES) (sort_entries entries))
  end.

Definition set_record (path : string) (size : Z) (c : CRxCleanupThread) : CRxCleanupThread :=
  mkCleanup (cu_config c) (cu_pdef_dir c) (cu_pdef_ttl_seconds c) path size (cu_archive_max_total_bytes c)
    (cu_archive_retention_seconds c) (cu_pending_files c).

Definition open_record (e : cleanup_env) (c : CRxCleanupThread) (w : W) : CRxCleanupThread :=
  if is_empty (cu_record_file_path c)
  then set_record (current_record_file e) (size_of (current_record_file e) w) c
  else c.

Definition rotate_record_file_if_needed (e : cleanup_env) (t : calendar) (incoming_size : Z) (c : CRxCleanupThread) (w : W)
    : CRxCleanupThread * W :=
  let c := open_record e c w in
  if cu_current_record_size c +64 incoming_size <=? RECORD_MAX_SIZE_BYTES then (c, w) else
  let rotated := with_slash (get_record_base_dir e) +:+ "cleanup_" +:+ timestamp_suffix t +:+ ".log" in
  let '(renamed, w) := fs_rename (cu_record_file_path c) rotated w in
  let c := set_record (cu_record_file_path c) 0 c in
  (c, if renamed then prune_record_files e w else w).

Definition NEWLINE : string := String (chr 10) "".

Definition record_line (ts : Z) (capture_id : Z) (key : string) (info : CaptureFileInfo) : string :=
  "{" +:+ quoted "ts" +:+ ":" +:+ fmt_d ts
    +:+ "," +:+ quoted "capture_id" +:+ ":" +:+ fmt_d capture_id
    +:+ "," +:+ quoted "key" +:+ ":" +:+ quoted (json_escape key)
    +:+ "," +:+ quoted "file" +:+ ":" +:+ quoted (json_escape (cf_file_path info))
    +:+ "," +:+ quoted "size" +:+ ":" +:+ fmt_d (cf_file_size info)
    +:+ "," +:+ quoted "segment" +:+ ":" +:+ fmt_d (cf_segment_index info)
    +:+ "," +:+ quoted "segments" +:+ ":" +:+ fmt_d (cf_total_segments info) +:+ "}" +:+ NEWLINE.

(** The path of the record file, empty if the line could not be recorded. *)
Definition record_file_metadata (e : cleanup_env) (clocks : Z * calendar) (capture_id : Z) (key : string) (info : CaptureFileInfo)
    (c : CRxCleanupThread) (w : W) : string * CRxCleanupThread * W :=
  let line := record_line (fst clocks) capture_id key info in
  let size := Z.of_nat (String.length line) in
  let '(ok, w) := ensure_directory (get_record_base_dir e) w in
  if negb ok then (""%string, c, w) else
  let c := open_record e c w in
  let '(c, w) := rotate_record_file_if_needed e (snd clocks) size c w in
  match fs_append (cu_record_file_path c) line w with
  | (None, w) => (""%string, c, w)
  | (Some written, w) =>
      (cu_record_file_path c,
       if written =? size then set_record (cu_record_file_path c) (cu_current_record_size c +64 written) c else c, w)
  end.

(** ** Queueing *)

Definition set_pending (l : list PendingFile) (c : CRxCleanupThread) : CRxCleanupThread :=
  mkCleanup (cu_config c) (cu_pdef_dir c) (cu_pdef_ttl_seconds c) (cu_record_file_path c) (cu_current_record_size c)
    (cu_archive_max_total_bytes c) (cu_archive_retention_seconds c) l.

(** The [n]-th file: recorded, queued and appended to its task, in the shared
    task manager. *)
Definition enqueue_file (e : cleanup_env) (n : nat) (m : SRxFileEnqueueMsgV2) (f : CaptureFileInfo)
    (x : CRxCleanupThread * TaskMgr * W) : outcome (CRxCleanupThread * TaskMgr * W) :=
  let '(c, tm, w) := x in
  let id := mb_capture_id (fe_base m) in
  let '(record_path, c, w) := record_file_metadata e (ce_line e n) id (mb_key (fe_base m)) f c w in
  let file_info := if is_empty record_path then f else f <| cf_record_path := record_path |> in
  let c := set_pending (cu_pending_files c ++
             [mkPending id (mb_key (fe_base m)) (mb_sid (fe_base m)) file_info (fe_clean_policy m)]) c in
  '(_, tm) ← append_capture_files tm id [file_info];
  Done (c, tm, w).

Fixpoint enqueue_all (e : cleanup_env) (n : nat) (m : SRxFileEnqueueMsgV2) (fs : list CaptureFileInfo)
    (x : CRxCleanupThread * TaskMgr * W) : outcome (CRxCleanupThread * TaskMgr * W) :=
  match fs with
  | [] => Done x
  | f :: rest => x ← enqueue_file e n m f x; enqueue_all e (S n) m rest x
  end.

Definition enqueue_files (e : cleanup_env) (m : SRxFileEnqueueMsgV2) (x : CRxCleanupThread * TaskMgr * W)
    : outcome (CRxCleanupThread * TaskMgr * W) :=
  enqueue_all e 0 m (fe_files m) x.

(** ** Archives *)

Definition compressed_file (archive_path : string) (ts : Z) (f : CaptureFileInfo) : CaptureFileInfo :=
  f <| cf_compressed := true |> <| cf_archive_path := archive_path |> <| cf_compress_finish_ts := ts |>.

Definition batch_archive_path (t : calendar) (c : CRxCleanupThread) (capture_id : Z) : string :=
  with_slash (cc_archive_dir (cu_config c)) +:+ "batch_" +:+ timestamp_suffix t +:+ "_" +:+ fmt_d capture_id +:+ ".tar.gz".

Definition to_archive (files : list PendingFile) : list PendingFile :=
  base.filter (fun p => is_record_file (cf_file_path (pf_file p)) = false) files.

Definition batch_command (archive_path : string) (files : list PendingFile) : string :=
  "tar -czf " +:+ quoted_path archive_path
    +:+ foldr (fun p s => " " +:+ quoted_path (cf_file_path (pf_file p)) +:+ s) "" (to_archive files).

(** The archive, or the error message. *)
Definition compress_batch (b : batch_clock) (c : CRxCleanupThread) (files : list PendingFile) (w : W)
    : (CaptureArchiveInfo + string) * W :=
  match files with
  | [] => (inr "no_files_to_compress"%string, w)
  | first :: _ =>
      let '(ok, w) := ensure_directory (cc_archive_dir (cu_config c)) w in
      if negb ok then (inr "archive_dir_unavailable"%string, w) else
      let archive_path := batch_archive_path (bk_named b) c (pf_capture_id first) in
      match to_archive files with
      | [] => (inr "no_files_after_filter"%string, w)
      | kept =>
          let '(rc, w) := fs_system (batch_command archive_path files) w in
          if negb (rc =? 0) then (inr "compress_failed"%string, w) else
          let archive_size := size_of archive_path w in
          let w := if cc_archive_remove_source (cu_config c)
                   then foldl (fun w p => remove_file (cf_file_path (pf_file p)) w) w kept else w in
          (inl (mkArchiveInfo archive_path
                  (map (fun p => compressed_file archive_path (bk_done b) (pf_file p)) files) archive_size (bk_done b)), w)
      end
  end.

(** The messages to the manager; there is none without a manager. *)
Definition notify (e : cleanup_env) (msg : message) : outbox :=
  match ce_manager e with
  | Some i => [(mkObjId OBJ_ID_THREAD i, msg)]
  | None => []
  end.

Definition notice_base (e : cleanup_env) (b : batch_clock) (p : PendingFile) : CaptureMessageBase :=
  mkBase (pf_capture_id p) (pf_key p) (pf_sid p) 1 (bk_usec b) 0 (ce_thread_index e).

Definition notify_archive_result (e : cleanup_env) (b : batch_clock) (p : PendingFile) (archive : CaptureArchiveInfo) : outbox :=
  notify e (MsgCompressDone (mkCompressDoneV2 (notice_base e b p) (ca_files archive) (ca_archive_path archive)
                               (ca_archive_size archive) 0)).

Definition notify_archive_failure (e : cleanup_env) (b : batch_clock) (p : PendingFile) (files : list CaptureFileInfo) (error : string)
    : outbox :=
  notify e (MsgCompressFailed (mkCompressFailedV2 (notice_base e b p) files ERR_CLEAN_COMPRESS_FAILED error)).

(** One group of files, all of the same capture. *)
Definition process_group (e : cleanup_env) (b : batch_clock) (c : CRxCleanupThread) (files : list PendingFile) (w : W) : outbox * W :=
  match files with
  | [] => ([], w)
  | first :: _ =>
      match compress_batch b c files w with
      | (inl archive, w) =>
          ((match ca_files archive with [] => [] | _ => notify_archive_result e b first archive end), w)
      | (inr error, w) => (notify_archive_failure e b first (map pf_file files) error, w)
      end
  end.

(** [std::map<int, std::vector<PendingFile> >]: the ids ascending, the files of
    each in their order. *)
Definition groups (pending : list PendingFile) : list (list PendingFile) :=
  map (fun id => base.filter (fun p => pf_capture_id p = id) pending) (sorted_unique (map pf_capture_id pending)).

(** The [n]-th group and the rest. *)
Fixpoint process_groups (e : cleanup_env) (n : nat) (c : CRxCleanupThread) (gs : list (list PendingFile)) (w : W) : outbox * W :=
  match gs with
  | [] => ([], w)
  | g :: rest =>
      let '(out1, w) := process_group e (ce_batch e n) c g w in
      let '(out2, w) := process_groups e (S n) c rest w in
      (out1 ++ out2, w)
  end.

(** The number of files or their size reaches the configured threshold;
    [config_.batch_compress_file_count] is unsigned. *)
Definition total_pending_size (pending : list PendingFile) (w : W) : Z :=
  foldl (fun n p => match fs_stat (cf_file_path (pf_file p)) w with Some s => n +64 sf_size s | None => n end) 0 pending.

Definition should_compress (c : CRxCleanupThread) (w : W) : bool :=
  (cc_batch_compress_file_count (cu_config c) <=? Z.of_nat (length (cu_pending_files c))) ||
  (u64 (cc_batch_compress_size_mb (cu_config c) * 1024 * 1024) <=? total_pending_size (cu_pending_files c) w).

Definition process_pending_files (e : cleanup_env) (c : CRxCleanupThread) (w : W) : CRxCleanupThread * outbox * W :=
  match cu_pending_files c with
  | [] => (c, [], w)
  | pending =>
      if negb (should_compress c w) then (c, [], w) else
      let '(out, w) := process_groups e 0 c (groups pending) w in
      (set_pending [] c, out, w)
  end.

(** ** Pruning *)

(** The entries of the directory that stay, with their total size, after the
    expired ones were removed. *)
Fixpoint scan_archives (base : string) (names : list string) (cutoff : Z) (enforce_size : bool)
    (entries : list (string * Stat)) (total_size : Z) (w : W) : list (string * Stat) * Z * W :=
  match names with
  | [] => (entries, total_size, w)
  | name :: rest =>
      let path := base +:+ name in
      match (if negb (starts_with_dot name) && is_prefix "capture_" name then regular path w else None) with
      | None => scan_archives base rest cutoff enforce_size entries total_size w
      | Some s =>
          if negb (cutoff =? 0) && (sf_mtime s <? cutoff)
          then scan_archives base rest cutoff enforce_size entries total_size (remove_file path w)
          else if negb enforce_size then scan_archives base rest cutoff enforce_size entries total_size w
          else scan_archives base rest cutoff enforce_size (entries ++ [(path, s)]) (total_size +64 sf_size s) w
      end
  end.

(** Oldest first, until the rest fits. *)
Fixpoint prune_by_size (entries : list (string * Stat)) (limit total_size : Z) (w : W) : W :=
  if total_size <=? limit then w else
  match entries with
  | [] => w
  | (path, s) :: rest =>
      let '(removed, w) := fs_remove path w in
      prune_by_size rest limit
        (if removed then if sf_size s <=? total_size then total_size - sf_size s else 0 else total_size) w
  end.

Definition cutoff_of (now retention : Z) : Z :=
  if 0 <? retention then if now <? retention then 0 else now - retention else 0.

Definition prune_archives (e : cleanup_env) (c : CRxCleanupThread) (w : W) : W :=
  let retention := cu_archive_retention_seconds c in
  let limit := cu_archive_max_total_bytes c in
  if is_empty (cc_archive_dir (cu_config c)) then w else
  if (retention <=? 0) && (limit =? 0) then w else
  match fs_list (cc_archive_dir (cu_config c)) w with
  | None => w
  | Some names =>
      let '(entries, total_size, w) :=
        scan_archives (with_slash (cc_archive_dir (cu_config c))) names (cutoff_of (ce_prune_now e) retention)
          (0 <? limit) [] 0 w in
      if negb (0 <? limit) || match entries with [] => true | _ => false end || (total_size <=? limit) then w
      else prune_by_size (sort_entries entries) limit total_size w
  end.

(** ** The thread *)

Definition do_cleanup (e : cleanup_env) (c : CRxCleanupThread) (w : W) : CRxCleanupThread * outbox * W :=
  let w := cleanup_pdef_temp_files e c w in
  let '(c, out, w) := process_pending_files e c w in
  (c, out, prune_archives e c w).

(** [handle_msg]; a new configuration is only logged, and stopping the thread
    is not part of this state. *)
Definition handle_msg (e : cleanup_env) (msg : message) (x : CRxCleanupThread * TaskMgr * W)
    : outcome (CRxCleanupThread * TaskMgr * W) :=
  match msg with
  | MsgFileEnqueue m => enqueue_files e m x
  | _ => Done x
  end.
End Cleanup.
