(* ===== verification/CleanupCorrect.v ===== *)
(** * Correctness of the cleanup thread

    Every queued file is reported exactly once; pruning removes only expired
    or, oldest first, excess archives; the record file stays within its size;
    and a finished archive reaches the task. *)

From Stdlib Require Import Permutation Sorted.
From stdpp Require Import sorting.
From S2P Require Import Prelude CppString TaskTypes TaskMgr TaskMgrCorrect Messages CaptureUtil Cleanup.

(** ** Groups *)

Lemma filter_nil_of {A} (P : A -> Prop) `{forall x, Decision (P x)} (l : list A) :
  (forall x, x ∈ l -> ~ P x) -> filter P l = [].
Proof.
  induction l as [|x l IH]; [done|]. intros Hl. rewrite filter_cons. rewrite decide_False by (apply Hl; set_solver).
  apply IH. intros y Hy. apply Hl. set_solver.
Qed.

(** Splitting a list by a key and joining the parts permutes it. *)
Lemma concat_filters {A} (key : A -> Z) (l : list A) (ids : list Z) :
  NoDup ids -> (forall x, x ∈ l -> key x ∈ ids) -> Permutation (concat (map (fun id => filter (fun x => key x = id) l) ids)) l.
Proof.
  revert l. induction ids as [|id ids IH]; intros l Hnd Hl.
  - destruct l as [|x l]; [done|]. exfalso. apply (not_elem_of_nil (key x)), Hl. set_solver.
  - apply NoDup_cons in Hnd as [Hid Hnd]. cbn [map concat].
    assert (E : map (fun j => filter (fun x => key x = j) l) ids
                = map (fun j => filter (fun x => key x = j) (filter (fun x => key x <> id) l)) ids).
    { apply map_ext_in. intros j Hj. rewrite list_filter_filter. apply list_filter_iff. intros x. split; [|by intros []].
      intros Hk. split; [done|]. intros Hk'. apply Hid. rewrite <- Hk', Hk. by apply list_elem_of_In. }
    rewrite E, IH; [|done|].
    + apply filter_app_complement.
    + intros x Hx. apply list_elem_of_filter in Hx as [Hne Hx]. apply Hl, elem_of_cons in Hx as [|]; done.
Qed.

Lemma groups_permutation pending : Permutation (concat (groups pending)) pending.
Proof.
  destruct (sorted_unique_spec (map pf_capture_id pending)) as [Hs He]. apply concat_filters.
  - clear He. induction Hs as [|x l Hl IH Hx]; [constructor|]. apply NoDup_cons. split; [|done].
    intros Hin. rewrite Forall_forall in Hx. apply Hx in Hin. lia.
  - intros x Hx. apply He. by apply list_elem_of_fmap_2.
Qed.

Lemma group_same pending g : g ∈ groups pending -> g <> [] /\ exists id, Forall (fun p => pf_capture_id p = id) g.
Proof.
  intros Hg. apply list_elem_of_fmap in Hg as (id & -> & Hid). apply sorted_unique_spec, list_elem_of_fmap in Hid as (p & -> & Hp).
  split.
  - intros E. apply (not_elem_of_nil p). rewrite <- E. by apply list_elem_of_filter.
  - exists (pf_capture_id p). apply Forall_forall. intros x Hx. by apply list_elem_of_filter in Hx as [? _].
Qed.

(** ** Reports *)

Section Reports.
Context `{Files W}.

(** The group [g] is reported by the message [x]: all its files in one
    archive, or all of them failed. *)
Definition reports_group (e : cleanup_env) (b : batch_clock) (i : Z) (g : list PendingFile) (x : ObjId * message) : Prop :=
  fst x = mkObjId OBJ_ID_THREAD i /\ exists first, head g = Some first /\
  ((exists path size, snd x = MsgCompressDone (mkCompressDoneV2 (notice_base e b first)
       (map (fun p => compressed_file path (bk_done b) (pf_file p)) g) path size 0)) \/
   (exists error, snd x = MsgCompressFailed (mkCompressFailedV2 (notice_base e b first) (map pf_file g)
       ERR_CLEAN_COMPRESS_FAILED error))).

(** The groups with the clocks of their batches. *)
Fixpoint batches (e : cleanup_env) (n : nat) (gs : list (list PendingFile)) : list (batch_clock * list PendingFile) :=
  match gs with
  | [] => []
  | g :: rest => (ce_batch e n, g) :: batches e (S n) rest
  end.

Definition reports_batch (e : cleanup_env) (i : Z) (bg : batch_clock * list PendingFile) (x : ObjId * message) : Prop :=
  reports_group e (fst bg) i (snd bg) x.

Lemma batches_groups e n gs : map snd (batches e n gs) = gs.
Proof. revert n. induction gs as [|g gs IH]; intros n; [done|]. simpl. by rewrite IH. Qed.

Lemma batches_clock e n gs bg : bg ∈ batches e n gs -> exists k, fst bg = ce_batch e k.
Proof.
  revert n. induction gs as [|g gs IH]; intros n; [by intros ?%elem_of_nil|]. cbn [batches].
  intros [->|Hin]%elem_of_cons; [by exists n|by eapply IH].
Qed.

Lemma process_group_reports e b c g w i :
  ce_manager e = Some i -> g <> [] -> exists x w', process_group e b c g w = ([x], w') /\ reports_group e b i g x.
Proof.
  intros Hi Hg. destruct g as [|first g]; [done|]. unfold process_group, notify_archive_failure, notify_archive_result, notify.
  rewrite Hi. unfold compress_batch.
  assert (Hfail : forall error (w' : W), exists x w'', ([(mkObjId OBJ_ID_THREAD i, MsgCompressFailed
      (mkCompressFailedV2 (notice_base e b first) (map pf_file (first :: g)) ERR_CLEAN_COMPRESS_FAILED error))], w') = ([x], w'')
      /\ reports_group e b i (first :: g) x).
  { intros error w'. eexists _, w'. split; [done|]. split; [done|]. exists first. split; [done|]. right. by exists error. }
  destruct (ensure_directory _ w) as [ok w1]. destruct ok; [|apply Hfail]. cbn [negb].
  destruct (to_archive (first :: g)) as [|k ks]; [apply Hfail|].
  destruct (fs_system _ w1) as [rc w2]. destruct (rc =? 0); [|apply Hfail]. cbn [negb ca_files map].
  eexists _, _. split; [done|]. split; [done|]. exists first. split; [done|]. left. by eexists _, _.
Qed.

Lemma process_groups_report e n c gs w i :
  ce_manager e = Some i -> Forall (fun g => g <> []) gs ->
  exists out w', process_groups e n c gs w = (out, w') /\ Forall2 (reports_batch e i) (batches e n gs) out.
Proof.
  intros Hi. revert n w. induction gs as [|g gs IH]; intros n w Hg.
  - exists [], w. by split.
  - apply Forall_cons in Hg as [Hne Hg]. destruct (process_group_reports e (ce_batch e n) c g w i Hi Hne) as (x & w1 & E1 & H1).
    destruct (IH (S n) w1 Hg) as (out & w2 & E2 & H2). exists (x :: out), w2. cbn [process_groups batches]. rewrite E1, E2.
    split; [done|by constructor].
Qed.

(** C23: batching.  Below the thresholds nothing happens.  Otherwise the queue
    is emptied and the manager gets one message per capture, in the order of
    the ids, which reports all queued files of that capture: archived, marked
    with the archive and the time its batch was done, or failed.  So every queued file is
    reported exactly once. *)
Theorem pending_files_reported e c w i :
  ce_manager e = Some i ->
  exists c' out w', process_pending_files e c w = (c', out, w') /\
    (cu_pending_files c = [] \/ should_compress c w = false -> c' = c /\ out = [] /\ w' = w) /\
    (cu_pending_files c <> [] -> should_compress c w = true ->
       c' = set_pending [] c /\
       Forall2 (reports_batch e i) (batches e 0 (groups (cu_pending_files c))) out /\
       Permutation (concat (groups (cu_pending_files c))) (cu_pending_files c) /\
       Forall (fun g => exists id, Forall (fun p => pf_capture_id p = id) g) (groups (cu_pending_files c))).
Proof.
  intros Hi. unfold process_pending_files. destruct (cu_pending_files c) as [|p ps] eqn:Ep.
  { exists c, [], w. split; [done|]. by split. }
  destruct (should_compress c w) eqn:Es; cbn [negb].
  - destruct (process_groups_report e 0 c (groups (p :: ps)) w i Hi) as (out & w' & E & Hf).
    { apply Forall_forall. intros g Hg. by apply group_same in Hg as [? _]. }
    rewrite E. eexists _, out, w'. split; [done|]. split; [by intros [|]|]. intros _ _. split; [done|].
    split; [done|]. split; [apply groups_permutation|]. apply Forall_forall. intros g Hg. by apply group_same in Hg as [_ ?].
  - exists c, [], w. split; [done|]. split; [done|]. by intros.
Qed.
End Reports.

(** ** Pruning *)

Definition total_of (l : list (string * Stat)) : Z := foldr (fun x n => sf_size (snd x) + n) 0 l.

Definition sizes_ok (l : list (string * Stat)) : Prop := Forall (fun x => 0 <= sf_size (snd x)) l.

Lemma total_of_app l1 l2 : total_of (l1 ++ l2) = total_of l1 + total_of l2.
Proof. induction l1 as [|x l1 IH]; simpl; [done|]. rewrite IH. lia. Qed.

Lemma total_of_nonneg l : sizes_ok l -> 0 <= total_of l.
Proof. induction 1; simpl; lia. Qed.

Lemma total_of_permutation l1 l2 : Permutation l1 l2 -> total_of l1 = total_of l2.
Proof. induction 1; simpl; lia. Qed.

Section Prune.
Context `{Hfs : Files W}.

(** The files of [gone] no longer exist in [w'], and every other regular file
    is as in [w]; a path that names a file of [gone] too is not told of. *)
Record only_removed (gone : list (string * Stat)) (w w' : W) : Prop := {
  or_gone : forall x, x ∈ gone -> regular (fst x) w' = None;
  or_others : forall q, (forall s x, regular q w = Some s -> x ∈ gone -> sf_ino s <> sf_ino (snd x)) ->
    regular q w' = regular q w;
}.

Lemma only_removed_nil w : only_removed [] w w.
Proof. split; [by intros ? ?%elem_of_nil|done]. Qed.

Lemma only_removed_app g1 g2 w1 w2 w3 :
  only_removed g1 w1 w2 -> only_removed g2 w2 w3 -> only_removed (g1 ++ g2) w1 w3.
Proof.
  intros [G1 O1] [G2 O2]. split.
  - intros x [Hx|Hx]%elem_of_app; [|by apply G2]. rewrite O2; [by apply G1|]. rewrite G1 by done. by intros.
  - intros q Hq. assert (regular q w2 = regular q w1) as E.
    { apply O1. intros s x Hs Hx. apply (Hq s x Hs), elem_of_app. by left. }
    rewrite O2; [done|]. rewrite E. intros s x Hs Hx. apply (Hq s x Hs), elem_of_app. by right.
Qed.

Lemma remove_one x w :
  regular (fst x) w = Some (snd x) ->
  only_removed (if fst (fs_remove (fst x) w) then [x] else []) w (remove_file (fst x) w).
Proof.
  intros Hx. unfold remove_file. destruct (fst (fs_remove (fst x) w)) eqn:E; split.
  - intros y ->%list_elem_of_singleton. unfold regular. by rewrite (remove_gone _ _ _ Hx E).
  - intros q Hq. apply (remove_others _ _ _ _ Hx). change (regular_stat (fs_stat q w)) with (regular q w).
    destruct (regular q w) as [t|]; [|done]. by apply (Hq t), list_elem_of_singleton.
  - by intros y ?%elem_of_nil.
  - intros q _. unfold regular. by rewrite (remove_failed _ _ q E).
Qed.

(** Different files, each as [stat] described it. *)
Definition inodes (l : list (string * Stat)) : list Z := map (fun x => sf_ino (snd x)) l.

Definition entries_in (l : list (string * Stat)) (w : W) : Prop :=
  NoDup (inodes l) /\ Forall (fun x => regular (fst x) w = Some (snd x)) l.

Lemma inode_in x l : x ∈ l -> sf_ino (snd x) ∈ inodes l.
Proof. apply (list_elem_of_fmap_2 (fun x => sf_ino (snd x))). Qed.

Lemma entries_in_cons x l w :
  entries_in (x :: l) w ->
  regular (fst x) w = Some (snd x) /\ entries_in l w /\ forall y, y ∈ l -> sf_ino (snd y) <> sf_ino (snd x).
Proof.
  intros [[Hx Hnd]%NoDup_cons [Hr Hl]%Forall_cons]. split; [done|]. split; [by split|].
  intros y Hy E. apply Hx. rewrite <- E. by apply inode_in.
Qed.

Lemma only_removed_entries gone l w w' :
  only_removed gone w w' -> (forall x y, x ∈ l -> y ∈ gone -> sf_ino (snd x) <> sf_ino (snd y)) ->
  entries_in l w -> entries_in l w'.
Proof.
  intros [_ Ho] Hd [Hnd Hl]. split; [done|]. rewrite Forall_forall in Hl |- *. intros x Hx.
  rewrite Ho; [by apply Hl|]. rewrite (Hl x Hx). intros s y [= <-]. by apply Hd.
Qed.

(** Whether a file can be removed; it does not change while the thread
    prunes. *)
Context (can : string -> bool).

Definition removal (l : list (string * Stat)) : Prop :=
  forall x w s, x ∈ l -> regular (fst x) w = Some s -> fst (fs_remove (fst x) w) = can (fst x).

(** What goes when the removal of all of [l] is tried. *)
Definition freed (l : list (string * Stat)) : list (string * Stat) := base.filter (fun x => can (fst x) = true) l.

Lemma freed_in l x : x ∈ freed l -> x ∈ l.
Proof. by intros [_ ?]%list_elem_of_filter. Qed.

Lemma freed_app l k : freed (l ++ k) = freed l ++ freed k.
Proof. apply filter_app. Qed.

Lemma remove_freed x w l :
  removal l -> x ∈ l -> regular (fst x) w = Some (snd x) ->
  fst (fs_remove (fst x) w) = can (fst x) /\ only_removed (freed [x]) w (remove_file (fst x) w).
Proof.
  intros Hr Hx Hw. specialize (Hr x w _ Hx Hw) as E. split; [done|]. pose proof (remove_one x w Hw) as Ho. rewrite E in Ho.
  unfold freed. destruct (can (fst x)) eqn:Ec.
  - by rewrite filter_cons_True.
  - by rewrite filter_cons_False by congruence.
Qed.

Lemma removal_cons x l : removal (x :: l) -> removal l.
Proof. intros Hr y w s Hy. by apply Hr, list_elem_of_further. Qed.

Lemma freed_not_x (l : list (string * Stat)) (x : string * Stat) : (forall y, y ∈ l -> sf_ino (snd y) <> sf_ino (snd x)) ->
  forall y z, y ∈ l -> z ∈ freed [x] -> sf_ino (snd y) <> sf_ino (snd z).
Proof. intros Hx y z Hy Hz. apply freed_in, list_elem_of_singleton in Hz as ->. by apply Hx. Qed.

Lemma total_of_freed l : sizes_ok l -> 0 <= total_of (freed l).
Proof.
  intros Hl. apply total_of_nonneg. unfold sizes_ok in *. rewrite Forall_forall in Hl |- *.
  intros x Hx%freed_in. by apply Hl.
Qed.

(** The oldest go until the rest fits: no more than needed. *)
Lemma prune_by_size_spec entries limit total w :
  sizes_ok entries -> entries_in entries w -> total_of entries <= total -> removal entries ->
  exists old young, entries = old ++ young /\ (young = [] \/ total - total_of (freed old) <= limit) /\
    (forall l x k, old = l ++ x :: k -> limit < total - total_of (freed l)) /\
    only_removed (freed old) w (prune_by_size entries limit total w).
Proof.
  revert total w. induction entries as [|x entries IH]; intros total w Hs Hin Ht Hr.
  { exists [], []. split; [done|]. split; [by left|]. split; [by intros [] ? ?|]. simpl. destruct (total <=? limit); apply only_removed_nil. }
  apply Forall_cons in Hs as [Hs0 Hs]. pose proof (total_of_nonneg _ Hs) as Hn.
  cbn [total_of foldr] in Ht. fold (total_of entries) in Ht.
  destruct (entries_in_cons _ _ _ Hin) as (Hx & Hin' & Hne).
  destruct (remove_freed x w _ Hr (list_elem_of_here _ _) Hx) as [Hc Ho].
  assert (prune_by_size (x :: entries) limit total w = if total <=? limit then w else
    prune_by_size entries limit (total - total_of (freed [x])) (remove_file (fst x) w)) as ->.
  { destruct x as [p st]. cbn [prune_by_size fst snd] in *. unfold remove_file, freed.
    destruct (fs_remove p w) as [b w1]. cbn [fst snd] in Hc |- *. subst b. destruct (can p) eqn:Ec.
    - rewrite filter_cons_True by done. cbn [filter list_filter total_of foldr snd].
      destruct (Z.leb_spec (sf_size st) total); [|lia]. by rewrite Z.add_0_r.
    - rewrite filter_cons_False by (cbn; congruence). simpl. by rewrite Z.sub_0_r. }
  destruct (Z.leb_spec total limit) as [Hle|Hgt].
  { exists [], (x :: entries). split; [done|]. split; [right; simpl; lia|]. split; [by intros [] ? ?|apply only_removed_nil]. }
  destruct (IH (total - total_of (freed [x])) (remove_file (fst x) w) Hs) as (old & young & -> & Hy & Hm & Hg).
  - eapply only_removed_entries; [exact Ho|by apply freed_not_x|done].
  - assert (total_of (freed [x]) <= sf_size (snd x)); [|lia]. unfold freed.
    rewrite filter_cons. case_decide; simpl; lia.
  - by apply removal_cons in Hr.
  - assert (forall l, freed (x :: l) = freed [x] ++ freed l) as Hfx by (intros l; by rewrite <- freed_app).
    exists (x :: old), young. split; [done|]. rewrite Hfx, total_of_app. split; [|split].
    + destruct Hy as [Hy|Hy]; [by left|right; lia].
    + intros [|z l] y k E; [simpl; lia|]. injection E as <- E. specialize (Hm l y k E). rewrite Hfx, total_of_app. lia.
    + by eapply only_removed_app.
Qed.

(** ** Scanning the archive directory *)

(** An archive that is too old. *)
Definition expired (cutoff : Z) (x : string * Stat) : Prop := cutoff <> 0 /\ sf_mtime (snd x) < cutoff.

#[local] Instance expired_dec cutoff x : Decision (expired cutoff x).
Proof. unfold expired. apply _. Defined.

Definition wanted (prefix n : string) : bool := negb (starts_with_dot n) && is_prefix prefix n.

Lemma entries_with_cons prefix base n names w :
  entries_with prefix base (n :: names) w =
    match (if wanted prefix n then regular (base +:+ n) w else None) with
    | Some s => (base +:+ n, s) :: entries_with prefix base names w
    | None => entries_with prefix base names w
    end.
Proof. cbn [entries_with]. unfold wanted. by destruct (regular (base +:+ n) w), (_ && _). Qed.

Lemma entries_with_ext prefix base names w w' :
  (forall n, n ∈ names -> wanted prefix n = true -> regular (base +:+ n) w' = regular (base +:+ n) w) ->
  entries_with prefix base names w' = entries_with prefix base names w.
Proof.
  induction names as [|n names IH]; intros Hn; [done|]. rewrite !entries_with_cons.
  rewrite IH by (intros m Hm; by apply Hn, list_elem_of_further).
  destruct (wanted prefix n) eqn:E; [|done]. by rewrite (Hn n) by (done || apply list_elem_of_here).
Qed.

Lemma entries_with_elem prefix base names w x :
  x ∈ entries_with prefix base names w <->
  exists n, n ∈ names /\ wanted prefix n = true /\ fst x = base +:+ n /\ regular (fst x) w = Some (snd x).
Proof.
  induction names as [|n names IH].
  { split; [by intros ?%elem_of_nil|]. by intros (n & ?%elem_of_nil & _). }
  assert ((exists m, m ∈ n :: names /\ wanted prefix m = true /\ fst x = base +:+ m /\ regular (fst x) w = Some (snd x)) <->
    (wanted prefix n = true /\ fst x = base +:+ n /\ regular (fst x) w = Some (snd x)) \/ x ∈ entries_with prefix base names w) as ->.
  { rewrite IH. split.
    - intros (m & [->|Hm]%elem_of_cons & H); [by left|right; by exists m].
    - intros [H|(m & Hm & H)]; [exists n; split; [apply list_elem_of_here|done]|exists m; split; [by apply list_elem_of_further|done]]. }
  rewrite entries_with_cons. destruct (wanted prefix n); [|split; [by right|by intros [(? & _)|?]]].
  destruct (regular (base +:+ n) w) as [s|] eqn:Es.
  - rewrite elem_of_cons. split; [intros [->|Hx]; [by left|by right]|]. intros [(_ & Ep & Er)|Hx]; [left|by right].
    destruct x as [p t]. cbn [fst snd] in *. subst p. rewrite Es in Er. by injection Er as <-.
  - split; [by right|]. intros [(_ & Ep & Er)|Hx]; [|done]. rewrite Ep, Es in Er. done.
Qed.

Lemma entries_with_sizes prefix base names w : sizes_ok (entries_with prefix base names w).
Proof.
  apply Forall_forall. intros x (n & _ & _ & _ & Hs)%entries_with_elem. unfold regular, regular_stat in Hs.
  destruct (fs_stat (fst x) w) as [s|] eqn:E; [|done]. destruct (sf_reg s); [|done]. injection Hs as <-.
  by apply stat_size in E as [? _].
Qed.

Lemma entries_with_regular prefix base names w :
  Forall (fun x => regular (fst x) w = Some (snd x)) (entries_with prefix base names w).
Proof. apply Forall_forall. by intros x (n & _ & _ & _ & Hs)%entries_with_elem. Qed.

(** The scan removes the expired archives that can be removed and collects
    those that are not expired. *)
Lemma scan_archives_spec base names cutoff (es : bool) entries total w :
  let files := entries_with "capture_" base names w in
  let kept := base.filter (fun x => ~ expired cutoff x) files in
  NoDup (inodes files) -> removal files -> total + total_of files < 2 ^ 64 -> 0 <= total ->
  exists w', scan_archives base names cutoff es entries total w =
      (if es then entries ++ kept else entries, if es then total + total_of kept else total, w') /\
    only_removed (freed (base.filter (expired cutoff) files)) w w'.
Proof.
  revert entries total w. induction names as [|n names IH]; intros entries total w files kept Hnd Hr Ht H0.
  { exists w. unfold kept, files. cbn. rewrite app_nil_r, Z.add_0_r. split; [by destruct es|apply only_removed_nil]. }
  cbn [scan_archives]. pose proof (entries_with_sizes "capture_" base (n :: names) w) as Hs.
  pose proof (entries_with_regular "capture_" base (n :: names) w) as Hreg.
  unfold kept, files in *. rewrite entries_with_cons in *. fold (wanted "capture_" n) in *.
  destruct (if wanted "capture_" n then regular (base +:+ n) w else None) as [s|] eqn:Es; [|by apply IH].
  set (x := (base +:+ n, s)) in *. set (rest := entries_with "capture_" base names w) in *.
  destruct (entries_in_cons x rest w (conj Hnd Hreg)) as (Hx & [Hnd' Hreg'] & Hne).
  apply Forall_cons in Hs as [Hs1 Hs]. pose proof (total_of_nonneg _ Hs) as Hn0.
  cbn [total_of foldr] in Ht. fold (total_of rest) in Ht.
  destruct (decide (expired cutoff x)) as [He|He].
  - rewrite (filter_cons_True (expired cutoff)) by done.
    rewrite (filter_cons_False (fun x => ~ expired cutoff x)) by (intros Hf; by apply Hf).
    destruct He as [Hc Hm]. cbn [snd x] in Hm. destruct (Z.eqb_spec cutoff 0); [done|]. destruct (Z.ltb_spec (sf_mtime s) cutoff); [|lia].
    cbn [negb andb]. destruct (remove_freed x w _ Hr (list_elem_of_here _ _) Hx) as [_ Ho].
    change (remove_file (base +:+ n) w) with (remove_file (fst x) w). set (w1 := remove_file (fst x) w) in *.
    assert (Eext : entries_with "capture_" base names w1 = rest).
    { apply entries_with_ext. intros m Hm' Hwm. apply (or_others _ _ _ Ho). intros t y Hty Hy.
      apply freed_in, list_elem_of_singleton in Hy as ->. apply (Hne (base +:+ m, t)).
      apply entries_with_elem. by exists m. }
    destruct (IH entries total w1) as (w' & E & Hg); rewrite ?Eext; try done; [by apply removal_cons in Hr|cbn [x snd] in *; lia|].
    exists w'. rewrite E, Eext. split; [done|]. rewrite Eext in Hg.
    change (freed (x :: ?l)) with (freed ([x] ++ l)). rewrite freed_app. by eapply only_removed_app.
  - rewrite (filter_cons_False (expired cutoff)), (filter_cons_True (fun x => ~ expired cutoff x)) by done.
    assert (Eif : negb (cutoff =? 0) && (sf_mtime s <? cutoff) = false).
    { apply andb_false_iff. destruct (Z.eqb_spec cutoff 0); [by left|]. right. apply Z.ltb_ge.
      destruct (Z.le_gt_cases cutoff (sf_mtime s)); [done|]. exfalso. apply He. by split. }
    rewrite Eif. apply removal_cons in Hr. cbn [x snd] in *. destruct es; cbn [negb].
    2:{ apply IH; [done|done|fold rest; lia|done]. }
    rewrite u64_small by lia.
    destruct (IH (entries ++ [x]) (total + sf_size s) w) as (w' & E & Hg); try done; [fold rest; lia|lia|].
    exists w'. change (base +:+ n, s) with x. rewrite E, <- app_assoc. fold rest. cbn [total_of foldr snd app].
    fold (total_of (base.filter (fun x => ~ expired cutoff x) rest)). split; [|done].
    change (sf_size (snd x)) with (sf_size s). do 2 f_equal; lia.
Qed.

(** *** What pruning leaves *)

Context (sort_entries : list (string * Stat) -> list (string * Stat)).

Definition older (x y : string * Stat) : Prop := sf_mtime (snd x) <= sf_mtime (snd y).

(** [std::sort]. *)
Hypothesis sorts : forall l, Permutation (sort_entries l) l /\ StronglySorted older (sort_entries l).

Lemma sorted_split l old young :
  StronglySorted older l -> l = old ++ young -> forall x y, x ∈ old -> y ∈ young -> older x y.
Proof.
  intros Hs ->. induction old as [|z old IH]; intros x y Hx Hy; [by apply elem_of_nil in Hx|].
  inversion Hs as [|? ? Hs' Hz]; subst. apply elem_of_cons in Hx as [->|Hx]; [|by apply IH].
  rewrite Forall_forall in Hz. apply Hz, elem_of_app. by right.
Qed.

Lemma inodes_filter (P : string * Stat -> Prop) `{forall x, Decision (P x)} l : NoDup (inodes l) -> NoDup (inodes (base.filter P l)).
Proof.
  induction l as [|x l IH]; [done|]. cbn [inodes map]. intros [Hx Hnd]%NoDup_cons. rewrite filter_cons. case_decide; [|auto].
  cbn [inodes map]. apply NoDup_cons. split; [|by apply IH]. intros Hin. apply Hx. apply list_elem_of_fmap in Hin as (y & -> & Hy).
  apply list_elem_of_filter in Hy as [_ Hy]. by apply inode_in.
Qed.

Lemma inodes_permutation l k : Permutation l k -> NoDup (inodes k) -> NoDup (inodes l).
Proof. intros Hp. by rewrite (Permutation_map (fun x => sf_ino (snd x)) Hp). Qed.

(** The files that are not expired are still there after the scan. *)
Lemma kept_entries cutoff l w w' :
  entries_in l w -> only_removed (freed (base.filter (expired cutoff) l)) w w' ->
  entries_in (base.filter (fun x => ~ expired cutoff x) l) w'.
Proof.
  intros [Hnd Hreg] Ho. eapply only_removed_entries; [exact Ho| |].
  - intros x y [Hnx Hx]%list_elem_of_filter [Hey Hy]%freed_in%list_elem_of_filter E.
    assert (x = y) as ->; [|done]. clear -Hnd Hx Hy E. induction l as [|z l IH]; [by apply elem_of_nil in Hx|].
    apply NoDup_cons in Hnd as [Hz Hnd]. apply elem_of_cons in Hx as [->|Hx], Hy as [->|Hy]; [done| | |auto].
    + exfalso. apply Hz. rewrite E. by apply inode_in.
    + exfalso. apply Hz. rewrite <- E. by apply inode_in.
  - split; [by apply inodes_filter|]. rewrite Forall_forall in Hreg |- *. by intros x [_ Hx%Hreg]%list_elem_of_filter.
Qed.

(** C24: pruning of archives.  With a retention or a size limit configured, of
    the regular files of the archive directory whose names start with
    [capture_], removal is tried of exactly those that are older than the
    retention and then, if the others exceed the limit, of the oldest of them,
    as few as are needed for the rest to fit the limit, files that cannot be
    removed counting as staying; those that can be removed are gone.  Every
    other regular file is left alone.  The files must be different ones (no
    links to one another), a file can be removed or cannot during the whole
    pass ([can]), and their total must fit 64 bits. *)
Theorem prune_archives_spec e c w names :
  let limit := cu_archive_max_total_bytes c in
  let files := entries_with "capture_" (with_slash (cc_archive_dir (cu_config c))) names w in
  let cutoff := cutoff_of (ce_prune_now e) (cu_archive_retention_seconds c) in
  let kept := base.filter (fun x => ~ expired cutoff x) files in
  cc_archive_dir (cu_config c) <> "" -> 0 < cu_archive_retention_seconds c \/ 0 < limit -> 0 <= limit ->
  fs_list (cc_archive_dir (cu_config c)) w = Some names -> NoDup (inodes files) -> removal files ->
  total_of files < 2 ^ 64 ->
  exists old young,
    Permutation (old ++ young) kept /\ (forall x y, x ∈ old -> y ∈ young -> older x y) /\
    (if decide (limit = 0) then old = []
     else (young = [] \/ total_of kept - total_of (freed old) <= limit) /\
       forall l x k, old = l ++ x :: k -> limit < total_of kept - total_of (freed l)) /\
    only_removed (freed (base.filter (expired cutoff) files) ++ freed old) w (prune_archives sort_entries e c w).
Proof.
  intros limit files cutoff kept Hdir Hon Hl Hlist Hnd Hr Ht. unfold prune_archives. fold limit cutoff.
  destruct (is_empty_spec (cc_archive_dir (cu_config c))); [done|].
  assert (Eoff : (cu_archive_retention_seconds c <=? 0) && (limit =? 0) = false).
  { apply andb_false_iff. destruct Hon; [left; by apply Z.leb_gt|right; apply Z.eqb_neq; lia]. }
  rewrite Eoff, Hlist.
  destruct (scan_archives_spec (with_slash (cc_archive_dir (cu_config c))) names cutoff (0 <? limit) [] 0 w Hnd Hr Ht (Z.le_refl 0))
    as (w1 & Escan & Hg1). fold files kept in Escan, Hg1. rewrite Escan. cbn [app]. rewrite Z.add_0_l.
  assert (Hkept : entries_in kept w1).
  { eapply kept_entries; [|exact Hg1]. split; [done|apply entries_with_regular]. }
  assert (Hkin : forall x, x ∈ kept -> x ∈ files) by by intros x [_ ?]%list_elem_of_filter.
  assert (Hstop : (limit = 0 \/ kept = [] \/ total_of kept <= limit) ->
    exists old young, Permutation (old ++ young) kept /\ (forall x y, x ∈ old -> y ∈ young -> older x y) /\
      (if decide (limit = 0) then old = [] else (young = [] \/ total_of kept - total_of (freed old) <= limit) /\
         forall l x k, old = l ++ x :: k -> limit < total_of kept - total_of (freed l)) /\
      only_removed (freed (base.filter (expired cutoff) files) ++ freed old) w w1).
  { intros Hor. exists [], kept. split; [done|]. split; [by intros ? ? ?%elem_of_nil|].
    split; [|by rewrite (app_nil_r (freed _))]. case_decide; [done|]. split; [|by intros [] ? ?].
    destruct Hor as [|[Hk|]]; [done|by left|right; simpl; lia]. }
  destruct (Z.ltb_spec 0 limit) as [Hpos|Hz]; cbn [negb orb]; [|apply Hstop; left; lia].
  destruct kept as [|k ks] eqn:Ek; [apply Hstop; auto|]. rewrite <- Ek in *.
  replace (match kept with [] => true | _ :: _ => false end) with false by (by rewrite Ek). cbn [orb].
  destruct (Z.leb_spec (total_of kept) limit); [apply Hstop; auto|].
  destruct (sorts kept) as [Hperm Hsorted]. rewrite <- (total_of_permutation _ _ Hperm).
  destruct (prune_by_size_spec (sort_entries kept) limit (total_of (sort_entries kept)) w1) as (old & young & Esp & Hy & Hm & Hg2).
  - unfold sizes_ok. rewrite Hperm. pose proof (entries_with_sizes "capture_" (with_slash (cc_archive_dir (cu_config c))) names w) as Hs.
    unfold sizes_ok in Hs. rewrite Forall_forall in Hs |- *. intros x Hx. by apply Hs, Hkin.
  - destruct Hkept as [H1 H2]. split; [by eapply inodes_permutation|by rewrite Hperm].
  - done.
  - intros x w' s Hx. rewrite Hperm in Hx. by apply Hr, Hkin.
  - exists old, young. rewrite <- Esp. split; [done|]. split; [by eapply sorted_split|]. split; [by rewrite decide_False by lia|].
    by eapply only_removed_app.
Qed.

(** The retention and the size limit do not apply to the archives the
    thread makes.  Batches are named [batch_...], pruning looks at names that
    start with [capture_]: whatever the configuration, pruning leaves every
    batch archive where it is, provided no [capture_] name is a link to it. *)
Theorem batch_archives_kept e t c w names capture_id :
  let files := entries_with "capture_" (with_slash (cc_archive_dir (cu_config c))) names w in
  let batch := batch_archive_path t c capture_id in
  fs_list (cc_archive_dir (cu_config c)) w = Some names -> NoDup (inodes files) -> removal files ->
  total_of files < 2 ^ 64 -> 0 <= cu_archive_max_total_bytes c ->
  (forall s x, regular batch w = Some s -> x ∈ files -> sf_ino s <> sf_ino (snd x)) ->
  regular batch (prune_archives sort_entries e c w) = regular batch w.
Proof.
  intros files batch Hlist Hnd Hr Ht Hl Hb. destruct (is_empty_spec (cc_archive_dir (cu_config c))) as [E|Hdir].
  { unfold prune_archives. by rewrite E. }
  destruct (decide (0 < cu_archive_retention_seconds c \/ 0 < cu_archive_max_total_bytes c)) as [Hon|Hoff].
  2: { unfold prune_archives. destruct (is_empty _); [done|].
       destruct (Z.leb_spec (cu_archive_retention_seconds c) 0), (Z.eqb_spec (cu_archive_max_total_bytes c) 0); [done|lia..]. }
  destruct (prune_archives_spec e c w names Hdir Hon Hl Hlist Hnd Hr Ht) as (old & young & Hp & _ & _ & Ho).
  apply (or_others _ _ _ Ho). intros s x Hs Hx. apply (Hb s x Hs). apply elem_of_app in Hx as [Hx|Hx]; apply freed_in in Hx.
  - by apply list_elem_of_filter in Hx as [_ ?].
  - assert (x ∈ old ++ young) as Hin by (apply elem_of_app; by left). rewrite Hp in Hin. by apply list_elem_of_filter in Hin as [_ ?].
Qed.
End Prune.

(** ** The record file *)

Section Record.
Context `{Files W} (sort_entries : list (string * Stat) -> list (string * Stat)).

Lemma open_record_size e c w :
  0 <= cu_current_record_size c < 2 ^ 63 -> 0 <= cu_current_record_size (open_record e c w) < 2 ^ 63.
Proof.
  intros Hc. unfold open_record. destruct (is_empty _); [|done]. cbn [set_record cu_current_record_size]. unfold size_of.
  destruct (fs_stat _ w) as [s|] eqn:E; [by apply stat_size in E|lia].
Qed.

Lemma rotate_size e t size c w :
  0 <= cu_current_record_size c < 2 ^ 63 -> 0 <= size < 2 ^ 63 ->
  let '(c', _) := rotate_record_file_if_needed sort_entries e t size c w in
  0 <= cu_current_record_size c' /\ cu_current_record_size c' + size <= Z.max RECORD_MAX_SIZE_BYTES size.
Proof.
  intros Hc Hs. unfold rotate_record_file_if_needed. pose proof (open_record_size e c w Hc) as H1.
  set (c1 := open_record e c w) in *. rewrite u64_small by lia.
  destruct (Z.leb_spec (cu_current_record_size c1 + size) RECORD_MAX_SIZE_BYTES); [lia|].
  destruct (fs_rename _ _ w) as [b w2]. cbn [set_record cu_current_record_size]. lia.
Qed.

(** The size of the record file.  After a line was recorded, the size the
    thread keeps for its record file is within the limit of 50 MB (or is that
    of the line, if the line alone is longer), whatever it was before. *)
Theorem record_file_bounded e clocks capture_id key info c w path c' w' :
  0 <= cu_current_record_size c < 2 ^ 63 ->
  Z.of_nat (String.length (record_line (fst clocks) capture_id key info)) < 2 ^ 63 ->
  record_file_metadata sort_entries e clocks capture_id key info c w = (path, c', w') -> path <> "" ->
  0 <= cu_current_record_size c' <= Z.max RECORD_MAX_SIZE_BYTES (Z.of_nat (String.length (record_line (fst clocks) capture_id key info))).
Proof.
  intros Hc Hsz. unfold record_file_metadata. destruct (ensure_directory _ w) as [ok w0]. destruct ok; cbn [negb]; [|by intros [= <- <- <-]].
  set (size := Z.of_nat _) in *. assert (Hs : 0 <= size < 2 ^ 63) by lia.
  pose proof (rotate_size e (snd clocks) size (open_record e c w0) w0 (open_record_size e c w0 Hc) Hs) as Hr.
  destruct (rotate_record_file_if_needed _ _ _ _ _ _) as [c2 w2].
  destruct (fs_append (cu_record_file_path c2) _ w2) as [[written|] w3]; intros [= <- <- <-] Hp; [|done].
  destruct (Z.eqb_spec written size) as [->|]; [|lia]. cbn [set_record cu_current_record_size].
  rewrite u64_small; [lia|]. unfold RECORD_MAX_SIZE_BYTES in *. lia.
Qed.
End Record.

(** ** Files in memory *)

Abbreviation mem_files := (gmap string Stat).

Definition mem_stat (p : string) (w : mem_files) : option Stat :=
  match w !! p with
  | Some s => if (0 <=? sf_size s) && (sf_size s <? 2 ^ 63) then Some s else None
  | None => None
  end.

Definition names_in (dir : string) (w : mem_files) : list string :=
  omap (fun x => if is_prefix (with_slash dir) (fst x) then Some (str_drop (String.length (with_slash dir)) (fst x)) else None)
    (map_to_list w).

#[refine, export] Instance MemFiles : Files mem_files := {|
  fs_stat := mem_stat;
  fs_mkdir p w := (MkdirDone, <[p := mkStat 0 0 false true (Z.of_nat (size w))]> w);
  fs_remove p w := (true, delete p w);
  fs_rename p q w := match w !! p with Some s => (true, <[q := s]> (delete p w)) | None => (false, w) end;
  fs_list d w := Some (names_in d w);
  fs_append p t w :=
    let s := default (mkStat 0 0 true false (Z.of_nat (size w))) (w !! p) in
    (Some (Z.of_nat (String.length t)), <[p := mkStat (sf_size s + Z.of_nat (String.length t)) 0 true false (sf_ino s)]> w);
  fs_system _ w := (0, w);
|}.
Proof.
  - intros p w s. unfold mem_stat. destruct (w !! p) as [s0|]; [|done].
    destruct (Z.leb_spec 0 (sf_size s0)), (Z.ltb_spec (sf_size s0) (2 ^ 63)); try done. by intros [= <-].
  - intros p w s _ _. unfold mem_stat. cbn [fst snd]. by rewrite lookup_delete_eq.
  - done.
  - intros p w s q Hp Hq. unfold mem_stat in *. cbn [fst snd]. destruct (decide (q = p)) as [->|Hne].
    + by rewrite Hp in Hq.
    + by rewrite lookup_delete_ne.
Defined.

#[export] Instance older_dec x y : Decision (older x y) := decide (sf_mtime (snd x) <= sf_mtime (snd y)).
#[export] Instance older_total : Total older.
Proof. intros x y. unfold older. lia. Qed.
#[export] Instance older_trans : Transitive older.
Proof. intros x y z. unfold older. lia. Qed.

Definition sort_older : list (string * Stat) -> list (string * Stat) := merge_sort older.

Lemma sort_older_sorts l : Permutation (sort_older l) l /\ StronglySorted older (sort_older l).
Proof. split; [apply merge_sort_Permutation|apply (StronglySorted_merge_sort older)]. Qed.

Definition archive_file (size mtime ino : Z) : Stat := mkStat size mtime true false ino.

Definition demo_archives : mem_files :=
  {["a/capture_1.tgz" := archive_file 5 10 1; "a/capture_2.tgz" := archive_file 60 100 2; "a/capture_3.tgz" := archive_file 50 200 3;
    "a/batch_4.tar.gz" := archive_file 900 1 4]}.

Definition demo_cleanup : CRxCleanupThread :=
  mkCleanup (mkCleanupConfig 600 2 1024 "a" 14 0 false) "" 0 "" 0 70 950 [].

Definition demo_batch_clock : batch_clock := mkBatchClock (2024, 5, 1, 12, 0, 0) 1000 1000000000.

Definition demo_cleanup_env : cleanup_env :=
  mkCleanupEnv 1000 (fun _ => (1000, (2024, 5, 1, 12, 0, 0))) (fun _ => demo_batch_clock) 1000 "rec" (Some 5) 9.

Definition all_removable : string -> bool := fun _ => true.

Lemma demo_removal l : removal (W := mem_files) all_removable l.
Proof. by intros x w s _ _. Defined.

(** The expired archive goes, and then the older of the two that are too big
    together; the batch stays. *)
Lemma prune_archives_spec_witness :
  exists old young, Permutation (old ++ young) [("a/capture_3.tgz"%string, archive_file 50 200 3); ("a/capture_2.tgz"%string, archive_file 60 100 2)] /\
    (young = [] \/ 110 - total_of old <= 70) /\
    only_removed (("a/capture_1.tgz"%string, archive_file 5 10 1) :: old) demo_archives
      (prune_archives sort_older demo_cleanup_env demo_cleanup demo_archives).
Proof.
  destruct (prune_archives_spec all_removable sort_older sort_older_sorts demo_cleanup_env demo_cleanup demo_archives (names_in "a" demo_archives))
    as (old & young & Hp & _ & Hl & Hr).
  - discriminate.
  - left. reflexivity.
  - discriminate.
  - reflexivity.
  - apply (bool_decide_unpack _). vm_compute. exact I.
  - apply demo_removal.
  - vm_compute. reflexivity.
  - assert (forall l, freed all_removable l = l) as Hfreed.
    { intros l. induction l as [|x l IH]; [reflexivity|]. unfold freed in *. rewrite filter_cons_True by reflexivity. by rewrite IH. }
    rewrite Hfreed in Hr. rewrite decide_False in Hl by discriminate. destruct Hl as [Hl _]. rewrite Hfreed in Hl, Hr.
    exists old, young. split; [exact Hp|split; [exact Hl|exact Hr]].
Defined.

Definition demo_batch : string := batch_archive_path (2024, 5, 1, 12, 0, 0) demo_cleanup 4.

Definition demo_batches : mem_files := <[demo_batch := archive_file 900 1 4]> demo_archives.

Lemma batch_archives_kept_witness :
  regular demo_batch (prune_archives sort_older demo_cleanup_env demo_cleanup demo_batches) = Some (archive_file 900 1 4).
Proof.
  assert (regular demo_batch demo_batches = Some (archive_file 900 1 4)) as E by (vm_compute; reflexivity).
  rewrite <- E. apply (batch_archives_kept all_removable sort_older sort_older_sorts demo_cleanup_env (2024, 5, 1, 12, 0, 0) demo_cleanup
    demo_batches (names_in "a" demo_batches) 4).
  - reflexivity.
  - apply (bool_decide_unpack _). vm_compute. exact I.
  - apply demo_removal.
  - vm_compute. reflexivity.
  - discriminate.
  - intros s x Hs Hx. change (regular demo_batch demo_batches = Some s) in Hs. rewrite E in Hs. injection Hs as <-.
    revert x Hx. apply Forall_forall. apply (bool_decide_unpack _). vm_compute. exact I.
Defined.

Definition demo_pending (id : Z) (path : string) : PendingFile :=
  mkPending id "key" "sid" (new_file_info <| cf_file_path := path |>) new_snapshot.

Definition demo_queue : CRxCleanupThread :=
  set_pending [demo_pending 1001 "c/x.pcap"; demo_pending 1000 "c/y.pcap"; demo_pending 1001 "c/z.pcap"] demo_cleanup.

Lemma pending_files_reported_witness :
  exists c' out w', process_pending_files demo_cleanup_env demo_queue demo_archives = (c', out, w') /\
    Forall2 (reports_batch demo_cleanup_env 5)
      [(demo_batch_clock, [demo_pending 1000 "c/y.pcap"]);
       (demo_batch_clock, [demo_pending 1001 "c/x.pcap"; demo_pending 1001 "c/z.pcap"])] out.
Proof.
  destruct (pending_files_reported demo_cleanup_env demo_queue demo_archives 5 eq_refl) as (c' & out & w' & E & _ & Hr).
  exists c', out, w'. split; [exact E|]. destruct Hr as (_ & Hf & _); [discriminate|vm_compute; reflexivity|]. exact Hf.
Defined.

Lemma record_file_bounded_witness :
  let r := record_file_metadata sort_older demo_cleanup_env (1000, (2024, 5, 1, 12, 0, 0)) 1000 "key" new_file_info
             (set_record "rec/cleanup.log" (50 * 1024 * 1024 - 3) demo_cleanup) demo_archives in
  0 <= cu_current_record_size (snd (fst r)) <= 52428800.
Proof.
  intros r. destruct r as [[path c'] w'] eqn:E.
  pose proof (record_file_bounded sort_older demo_cleanup_env (1000, (2024, 5, 1, 12, 0, 0)) 1000 "key" new_file_info
    (set_record "rec/cleanup.log" (50 * 1024 * 1024 - 3) demo_cleanup) demo_archives path c' w') as H.
  apply H; [split; [discriminate|reflexivity]|vm_compute; reflexivity|exact E|].
  assert (Ep : path = fst (fst r)) by (by rewrite E). rewrite Ep. vm_compute. discriminate.
Defined.
