(* ===== verification/Archive.v ===== *)
(** * From a finished capture to its archive

    The cleanup thread's report, handled by the manager, leaves every archived
    file marked in its task. *)

From Stdlib Require Import Permutation Sorted.
From S2P Require Import Prelude CppString TaskTypes TaskMgr TaskMgrCorrect Messages CaptureUtil ProcData PdefWriteback CaptureManager CaptureManagerCorrect CaptureDecision System Cleanup CleanupCorrect.

Lemma file_at_in fs f : NoDup (map cf_file_path fs) -> f ∈ fs -> file_at fs (cf_file_path f) = Some f.
Proof.
  induction fs as [|g fs IH]; [by intros _ ?%elem_of_nil|]. cbn [map]. intros [Hg Hnd]%NoDup_cons Hf. unfold file_at. simpl.
  apply elem_of_cons in Hf as [<-|Hf]; [by rewrite String.eqb_refl|].
  destruct (String.eqb_spec (cf_file_path g) (cf_file_path f)) as [E|_]; [|by apply IH].
  exfalso. apply Hg. rewrite E. by apply list_elem_of_fmap_2.
Qed.

Lemma Forall2_r {A B} (R : A -> B -> Prop) l k y : Forall2 R l k -> y ∈ k -> exists x, x ∈ l /\ R x y.
Proof.
  induction 1 as [|x z l k Hxz _ IH]; [by intros ?%elem_of_nil|]. intros [->|Hy]%elem_of_cons.
  - exists x. split; [apply list_elem_of_here|done].
  - destruct (IH Hy) as (u & Hu & Ru). exists u. split; [by apply list_elem_of_further|done].
Qed.

Lemma merge_archive_in a l : a ∈ merge_archive a l.
Proof.
  induction l as [|b l IH]; simpl; [by apply list_elem_of_singleton|].
  destruct (_ && _); [apply list_elem_of_here|by apply list_elem_of_further].
Qed.

Lemma merged_file files fs f :
  NoDup (map cf_file_path fs) -> f ∈ fs -> file_at (merge_files files fs) (cf_file_path f) = Some f.
Proof.
  intros Hnd Hf. rewrite (proj1 (append_files_merges files fs (cf_file_path f))).
  rewrite file_at_in; [done| |by apply list_elem_of_In, in_rev; rewrite rev_involutive; apply list_elem_of_In].
  by rewrite <- Permutation_rev.
Qed.

Definition archive_of (d : SRxCleanCompressDoneMsgV2) : CaptureArchiveInfo :=
  mkArchiveInfo (cd_archive_path d) (cd_compressed_files d) (cd_compressed_bytes d)
    match cd_compressed_files d with
    | [] => Z.quot (mb_ts_usec (cd_base d)) 1000000
    | f :: _ => cf_compress_finish_ts f
    end.

Lemma compress_done_step e d s :
  manager_ok s -> exists s', CaptureManager.handle_msg e (MsgCompressDone d) s = Done (s', []) /\
    task_step (mb_capture_id (cd_base d)) (TaskArchiveRecorder (archive_of d)) s s'.
Proof.
  intros Hs. destruct (update_step s (mb_capture_id (cd_base d)) (TaskArchiveRecorder (archive_of d)) Hs) as (s' & E & Hst); [names|].
  exists s'. split; [|exact Hst]. cbn [CaptureManager.handle_msg]. unfold handle_clean_compress_done, record_archive.
  fold (archive_of d). by rewrite E.
Qed.

(** C22: archived files reach their task.  When the cleanup thread reports an
    archive of a capture and the manager handles the report, the task of that
    capture lists the archive, and every file of the capture that was queued
    is marked as compressed into it, at the time its batch was done; status, counts and the other tasks are as
    before. *)
Theorem archive_reaches_task `{Files W} e c w c' out w' i target d em s t :
  ce_manager e = Some i -> process_pending_files e c w = (c', out, w') -> (target, MsgCompressDone d) ∈ out ->
  manager_ok s -> mg_view s !! mb_capture_id (cd_base d) = Some t ->
  let queued := filter (fun p => pf_capture_id p = mb_capture_id (cd_base d)) (cu_pending_files c) in
  NoDup (map (fun p => cf_file_path (pf_file p)) queued) ->
  exists s' t' n, CaptureManager.handle_msg em (MsgCompressDone d) s = Done (s', []) /\ manager_ok s' /\
    mg_view s' = <[mb_capture_id (cd_base d) := t']> (mg_view s) /\
    archive_of d ∈ t_archives t' /\ t_status t' = t_status t /\ t_packet_count t' = t_packet_count t /\
    forall p, p ∈ queued ->
      file_at (t_captured_files t') (cf_file_path (pf_file p)) =
        Some (compressed_file (cd_archive_path d) (bk_done (ce_batch e n)) (pf_file p)).
Proof.
  intros Hi Hp Hin Hs Ht. unfold process_pending_files in Hp.
  destruct (cu_pending_files c) as [|p0 ps] eqn:Ep; [by injection Hp as <- <- <-; apply elem_of_nil in Hin|]. rewrite <- Ep in *.
  destruct (should_compress c w); [|by injection Hp as <- <- <-; apply elem_of_nil in Hin]. cbn [negb] in Hp.
  destruct (process_groups_report e 0 c (groups (cu_pending_files c)) w i Hi) as (o & w1 & E & Hf).
  { apply Forall_forall. intros g Hg. by apply group_same in Hg as [? _]. }
  rewrite E in Hp. injection Hp as <- <- <-. intros queued Hnd.
  destruct (Forall2_r _ _ _ _ Hf Hin) as ([b g] & Hbg & Hr).
  destruct (batches_clock _ _ _ _ Hbg) as [n Hb]. cbn [fst] in Hb. subst b.
  assert (g ∈ groups (cu_pending_files c)) as Hg.
  { rewrite <- (batches_groups e 0 (groups (cu_pending_files c))). by apply (list_elem_of_fmap_2 snd _ (ce_batch e n, g)). }
  apply list_elem_of_fmap in Hg as (id & Eg & _).
  destruct Hr as (_ & first & Hfirst & [(path & size & Ed)|(error & Ed)]); [|done]. cbn [snd] in Ed. injection Ed as Ed.
  assert (Eid : mb_capture_id (cd_base d) = id).
  { rewrite Ed. cbn. apply head_Some_elem_of in Hfirst. rewrite Eg in Hfirst. by apply list_elem_of_filter in Hfirst as [? _]. }
  subst id. change (g = queued) in Eg. subst g.
  destruct (compress_done_step em d s Hs) as (s' & Es & Hst). exists s', (TaskArchiveRecorder (archive_of d) t), n.
  split; [exact Es|]. destruct Hst as (Hok & _ & Hv). split; [exact Hok|]. split.
  { rewrite Hv. apply map_eq. intros j. destruct (decide (j = mb_capture_id (cd_base d))) as [->|Hne].
    - by rewrite lookup_alter_eq, lookup_insert_eq, Ht.
    - by rewrite lookup_alter_ne, lookup_insert_ne. }
  pose proof (f_equal cd_archive_path Ed) as Epath. pose proof (f_equal cd_compressed_files Ed) as Efiles.
  cbn [cd_archive_path cd_compressed_files] in Epath, Efiles. split; [|split; [by destruct t|split; [by destruct t|]]].
  - unfold TaskArchiveRecorder. destruct t. apply merge_archive_in.
  - intros p Hq. set (f := compressed_file (cd_archive_path d) (bk_done (ce_batch e n)) (pf_file p)).
    replace (cf_file_path (pf_file p)) with (cf_file_path f) by (unfold f; by destruct (pf_file p)).
    replace (t_captured_files (TaskArchiveRecorder (archive_of d) t)) with (merge_files (t_captured_files t) (cd_compressed_files d))
      by by destruct t.
    rewrite Efiles. apply merged_file.
    + rewrite map_map. rewrite (map_ext _ (fun p => cf_file_path (pf_file p))); [exact Hnd|]. intros x. by destruct x as [? ? ? [] ?].
    + unfold f. rewrite Epath. by apply (list_elem_of_fmap_2 (fun p => compressed_file path (bk_done (ce_batch e n)) (pf_file p))).
Qed.

Definition archive_queue : CRxCleanupThread :=
  set_pending [demo_pending 1000 "c/x.pcap"; demo_pending 1000 "c/y.pcap"] demo_cleanup.

Definition archive_report : SRxCleanCompressDoneMsgV2 :=
  match process_pending_files demo_cleanup_env archive_queue demo_archives with
  | (_, [(_, MsgCompressDone d)], _) => d
  | _ => mkCompressDoneV2 (new_base 0) [] "" 0 0
  end.

Lemma archive_reaches_task_witness :
  exists s' t', CaptureManager.handle_msg (sample_env 200 1) (MsgCompressDone archive_report) second_run = Done (s', []) /\
    mg_view s' !! 1000 = Some t' /\ t_status t' = STATUS_RESOLVING /\
    file_at (t_captured_files t') "c/x.pcap" =
      Some (compressed_file "a/batch_20240501_120000_1000.tar.gz" 1000 (pf_file (demo_pending 1000 "c/x.pcap"))).
Proof.
  destruct (runs_ok 1 _ _ (new_manager_ok 5 [10; 11] [20] no_files) sample_runs) as [Hs _].
  destruct (process_pending_files demo_cleanup_env archive_queue demo_archives) as [[c' out] w'] eqn:E.
  assert (Hout : out = snd (fst (process_pending_files demo_cleanup_env archive_queue demo_archives))) by (by rewrite E).
  destruct (mg_view second_run !! 1000) as [t|] eqn:Et; [|by vm_compute in Et].
  destruct (archive_reaches_task demo_cleanup_env archive_queue demo_archives c' out w' 5 (mkObjId OBJ_ID_THREAD 5)
    archive_report (sample_env 200 1) second_run t) as (s' & t' & n & E1 & _ & E2 & _ & E3 & _ & E4).
  - reflexivity.
  - exact E.
  - rewrite Hout. vm_compute. constructor.
  - exact Hs.
  - exact Et.
  - apply (bool_decide_unpack _). vm_compute. exact I.
  - exists s', t'. split; [exact E1|]. split; [rewrite E2; apply lookup_insert_eq|]. split.
    + rewrite E3. assert (H1 : t_status <$> mg_view second_run !! 1000 = Some STATUS_RESOLVING) by (vm_compute; reflexivity).
      rewrite Et in H1. by injection H1.
    + exact (E4 (demo_pending 1000 "c/x.pcap") (list_elem_of_here _ _)).
Defined.
