(* ===== verification/LockFreeQueue.v ===== *)
(** * The single-producer single-consumer ring (src/src/rxlockfreequeue.c, rxlockfreequeue.h)

    The queue, its operations as functions, and the same operations cut into
    their memory accesses, so that a producer and a consumer interleave.  A
    step is one load, one store or one assignment of the packet copy; the
    acquire and release accesses make every such interleaving sequentially
    consistent for one producer and one consumer.  [malloc] is a parameter: it
    gives the block, with any content, or fails. *)

From S2P Require Import Prelude.

(** ** Data *)

Record pcap_pkthdr := mkHdr { ph_sec : Z; ph_usec : Z; ph_caplen : Z; ph_len : Z }.

Definition DATA_SIZE : Z := 65536.

(** [app_data] is NULL or a pointer into [data], here its offset. *)
Record PacketNode := mkNode {
  pn_header : pcap_pkthdr;
  pn_data : list byte;
  pn_src_port : Z;
  pn_dst_port : Z;
  pn_app_data : option Z;
  pn_app_len : Z;
  pn_valid : bool;
}.

Record LockFreeQueue := mkQueue {
  lq_write_pos : Z;
  lq_read_pos : Z;
  lq_capacity : Z;
  lq_mask : Z;
  lq_buffer : list PacketNode;
}.

(** ** Creation *)

Definition fill_right (k n : Z) : Z := Z.lor n (Z.shiftr n k).

Definition next_power_of_2 (n : Z) : Z :=
  if n =? 0 then 1
  else fill_right 16 (fill_right 8 (fill_right 4 (fill_right 2 (fill_right 1 (n -32 1))))) +32 1.

(** [malloc_queue] tells whether the first allocation succeeds; [malloc_buffer]
    gives the content of the second one. *)
Definition lfq_create (malloc_queue : bool) (malloc_buffer : Z -> option (list PacketNode)) (capacity : Z)
  : option LockFreeQueue :=
  if capacity =? 0 then None
  else if negb malloc_queue then None
  else
    let real_capacity := next_power_of_2 capacity in
    buffer ← malloc_buffer real_capacity;
    Some (mkQueue 0 0 real_capacity (real_capacity -32 1) buffer).

(** ** The packet copy, one assignment after the other *)

Inductive assign := AHeader | AData | ASrcPort | ADstPort | AAppLen | AValid | AAppData.

(** [memcpy(dst, src, n)] stays inside both arrays, or is undefined. *)
Definition memcpy (dst src : list byte) (n : Z) : option (list byte) :=
  if (0 <=? n) && (n <=? Z.of_nat (length src)) && (n <=? Z.of_nat (length dst))
  then Some (take (Z.to_nat n) src ++ drop (Z.to_nat n) dst) else None.

Definition run_assign (a : assign) (src dst : PacketNode) : option PacketNode :=
  let 'mkNode h d sp dp ap al v := dst in
  match a with
  | AHeader => Some (mkNode (pn_header src) d sp dp ap al v)
  | AData => d' ← memcpy d (pn_data src) (ph_caplen (pn_header src)); Some (mkNode h d' sp dp ap al v)
  | ASrcPort => Some (mkNode h d (pn_src_port src) dp ap al v)
  | ADstPort => Some (mkNode h d sp (pn_dst_port src) ap al v)
  | AAppLen => Some (mkNode h d sp dp ap (pn_app_len src) v)
  | AValid => Some (mkNode h d sp dp ap al (pn_valid src))
  | AAppData => Some (mkNode h d sp dp (if pn_valid src then pn_app_data src else None) al v)
  end.

Definition copy_list : list assign := [AHeader; AData; ASrcPort; ADstPort; AAppLen; AValid; AAppData].

Fixpoint run_assigns (l : list assign) (src dst : PacketNode) : option PacketNode :=
  match l with
  | [] => Some dst
  | a :: l => dst' ← run_assign a src dst; run_assigns l src dst'
  end.

Definition slot_index (pos : Z) (q : LockFreeQueue) : Z := u32 (Z.land pos (lq_mask q)).

Definition set_buffer (b : list PacketNode) (q : LockFreeQueue) : LockFreeQueue :=
  mkQueue (lq_write_pos q) (lq_read_pos q) (lq_capacity q) (lq_mask q) b.
Definition set_write_pos (w : Z) (q : LockFreeQueue) : LockFreeQueue :=
  mkQueue w (lq_read_pos q) (lq_capacity q) (lq_mask q) (lq_buffer q).
Definition set_read_pos (r : Z) (q : LockFreeQueue) : LockFreeQueue :=
  mkQueue (lq_write_pos q) r (lq_capacity q) (lq_mask q) (lq_buffer q).

(** ** The operations, run without interruption

    [None] is undefined behaviour: an access outside the buffer or a packet. *)

Definition lfq_push (queue : option LockFreeQueue) (item : option PacketNode) : option (bool * option LockFreeQueue) :=
  match queue, item with
  | Some q, Some item =>
      let write_pos := lq_write_pos q in
      let read_pos := lq_read_pos q in
      if lq_capacity q <=? write_pos -64 read_pos then Some (false, Some q)
      else
        slot ← aget (lq_buffer q) (slot_index write_pos q);
        slot' ← run_assigns copy_list item slot;
        buffer ← aset (lq_buffer q) (slot_index write_pos q) slot';
        Some (true, Some (set_write_pos (write_pos +64 1) (set_buffer buffer q)))
  | _, _ => Some (false, queue)
  end.

Definition lfq_pop (queue : option LockFreeQueue) (item : option PacketNode)
  : option (bool * option PacketNode * option LockFreeQueue) :=
  match queue, item with
  | Some q, Some dst =>
      let read_pos := lq_read_pos q in
      let write_pos := lq_write_pos q in
      if write_pos <=? read_pos then Some (false, item, queue)
      else
        slot ← aget (lq_buffer q) (slot_index read_pos q);
        item' ← run_assigns copy_list slot dst;
        Some (true, Some item', Some (set_read_pos (read_pos +64 1) q))
  | _, _ => Some (false, item, queue)
  end.

Definition lfq_size (queue : option LockFreeQueue) : Z :=
  match queue with
  | None => 0
  | Some q => u32 (lq_write_pos q -64 lq_read_pos q)
  end.

Definition lfq_is_empty (queue : option LockFreeQueue) : bool := lfq_size queue =? 0.

Definition lfq_is_full (queue : option LockFreeQueue) : bool :=
  match queue with
  | None => true
  | Some q => lq_capacity q <=? lq_write_pos q -64 lq_read_pos q
  end.

(** ** The operations, one memory access at a time *)

(** What a packet carries: the captured bytes, not the rest of the array. *)
Record packet_view := mkView {
  vw_header : pcap_pkthdr; vw_bytes : list byte; vw_src_port : Z; vw_dst_port : Z;
  vw_app_data : option Z; vw_app_len : Z; vw_valid : bool }.

Definition view (n : PacketNode) : packet_view :=
  mkView (pn_header n) (take (Z.to_nat (ph_caplen (pn_header n))) (pn_data n)) (pn_src_port n) (pn_dst_port n)
    (if pn_valid n then pn_app_data n else None) (pn_app_len n) (pn_valid n).

(** What a completed call reports. *)
Inductive event :=
  | Pushed (v : packet_view)
  | Full
  | Popped (v : packet_view)
  | Empty.

(** Where the producer is in [lfq_push]. *)
Inductive producer :=
  | PIdle
  | PCalled (item : PacketNode)
  | PLoaded (item : PacketNode) (write_pos : Z)
  | PCopy (item : PacketNode) (write_pos : Z) (todo : list assign).

(** Where the consumer is in [lfq_pop]. *)
Inductive consumer :=
  | CIdle
  | CCalled (item : PacketNode)
  | CLoaded (item : PacketNode) (read_pos : Z)
  | CCopy (item : PacketNode) (read_pos : Z) (todo : list assign).

Definition producer_step (pc : producer) (q : LockFreeQueue) : option (producer * LockFreeQueue * list event) :=
  match pc with
  | PIdle => Some (PIdle, q, [])
  | PCalled item => Some (PLoaded item (lq_write_pos q), q, [])
  | PLoaded item w =>
      if lq_capacity q <=? w -64 lq_read_pos q then Some (PIdle, q, [Full])
      else Some (PCopy item w copy_list, q, [])
  | PCopy item w (a :: todo) =>
      slot ← aget (lq_buffer q) (slot_index w q);
      slot' ← run_assign a item slot;
      buffer ← aset (lq_buffer q) (slot_index w q) slot';
      Some (PCopy item w todo, set_buffer buffer q, [])
  | PCopy item w [] => Some (PIdle, set_write_pos (w +64 1) q, [Pushed (view item)])
  end.

Definition consumer_step (pc : consumer) (q : LockFreeQueue) : option (consumer * LockFreeQueue * list event) :=
  match pc with
  | CIdle => Some (CIdle, q, [])
  | CCalled item => Some (CLoaded item (lq_read_pos q), q, [])
  | CLoaded item r =>
      if lq_write_pos q <=? r then Some (CIdle, q, [Empty])
      else Some (CCopy item r copy_list, q, [])
  | CCopy item r (a :: todo) =>
      slot ← aget (lq_buffer q) (slot_index r q);
      item' ← run_assign a slot item;
      Some (CCopy item' r todo, q, [])
  | CCopy item r [] => Some (CIdle, set_read_pos (r +64 1) q, [Popped (view item)])
  end.

Record system := mkSystem { sy_queue : LockFreeQueue; sy_producer : producer; sy_consumer : consumer }.

(** A packet the caller may pass: its captured bytes fit in the array. *)
Definition node_ok (n : PacketNode) : Prop :=
  Z.of_nat (length (pn_data n)) = DATA_SIZE /\ 0 <= ph_caplen (pn_header n) <= DATA_SIZE.

(** A buffer the caller may receive a packet in. *)
Definition room_ok (n : PacketNode) : Prop := Z.of_nat (length (pn_data n)) = DATA_SIZE.

Inductive step : system -> list event -> system -> Prop :=
  | step_call_push q item c :
      node_ok item -> step (mkSystem q PIdle c) [] (mkSystem q (PCalled item) c)
  | step_call_pop q p item :
      room_ok item -> step (mkSystem q p CIdle) [] (mkSystem q p (CCalled item))
  | step_producer q p c q' p' ev :
      producer_step p q = Some (p', q', ev) -> step (mkSystem q p c) ev (mkSystem q' p' c)
  | step_consumer q p c q' c' ev :
      consumer_step c q = Some (c', q', ev) -> step (mkSystem q p c) ev (mkSystem q' p c').

(** The events of a run, oldest first. *)
Inductive steps (s : system) : list event -> system -> Prop :=
  | steps_refl : steps s [] s
  | steps_snoc tr s1 ev s2 : steps s tr s1 -> step s1 ev s2 -> steps s (tr ++ ev) s2.

(** ** The specification: a bounded FIFO *)

Inductive fifo_step (cap : Z) : list packet_view -> event -> list packet_view -> Prop :=
  | fifo_push l v : Z.of_nat (length l) < cap -> fifo_step cap l (Pushed v) (l ++ [v])
  | fifo_full l : Z.of_nat (length l) = cap -> fifo_step cap l Full l
  | fifo_pop l v : fifo_step cap (v :: l) (Popped v) l
  | fifo_empty : fifo_step cap [] Empty [].

Inductive fifo_run (cap : Z) (l : list packet_view) : list event -> list packet_view -> Prop :=
  | fifo_done : fifo_run cap l [] l
  | fifo_next tr l1 ev l2 : fifo_run cap l tr l1 -> fifo_step cap l1 ev l2 -> fifo_run cap l (tr ++ [ev]) l2.

Definition pushes (tr : list event) : list packet_view :=
  omap (fun e => match e with Pushed v => Some v | _ => None end) tr.

Definition pops (tr : list event) : list packet_view :=
  omap (fun e => match e with Popped v => Some v | _ => None end) tr.

(** ** The capacity *)

(** [x] has bit [i] when [m] has one of the bits [i .. i+d-1]. *)
Definition spread (m d x : Z) : Prop :=
  0 <= x /\ forall i, 0 <= i -> Z.testbit x i = true <-> exists e, 0 <= e < d /\ Z.testbit m (i + e) = true.

Lemma spread_start m : 0 <= m -> spread m 1 m.
Proof.
  intros Hm. split; [done|]. intros i Hi. split.
  - intros E. exists 0. by rewrite Z.add_0_r.
  - intros (e & He & E). by replace (i + e) with i in E by lia.
Qed.

Lemma spread_fill m d x : 0 < d -> spread m d x -> spread m (d + d) (fill_right d x).
Proof.
  unfold fill_right. intros Hd [Hx H]. split.
  { apply Z.lor_nonneg. split; [done|]. by apply Z.shiftr_nonneg. }
  intros i Hi. rewrite Z.lor_spec, Z.shiftr_spec, orb_true_iff, !H by lia. split.
  - intros [(e & He & E)|(e & He & E)]; [exists e|exists (d + e)]; (split; [lia|]); [done|].
    by replace (i + (d + e)) with (i + d + e) by lia.
  - intros (e & He & E). destruct (Z.lt_ge_cases e d); [left; exists e|right; exists (e - d)];
      (split; [lia|]); [done|]. by replace (i + d + (e - d)) with (i + e) by lia.
Qed.

Lemma spread_ones m x : 0 < m < 2 ^ 32 -> spread m 32 x -> x = Z.ones (Z.log2 m + 1).
Proof.
  intros Hm [Hx H]. pose proof (Z.log2_nonneg m).
  assert (Z.log2 m < 32) by (apply Z.log2_lt_pow2; lia).
  apply Z.bits_inj'. intros i Hi. rewrite Z.testbit_ones_nonneg by lia.
  apply eq_true_iff_eq. rewrite H, Z.ltb_lt by done. split.
  - intros (e & He & E). destruct (Z.lt_ge_cases i (Z.log2 m + 1)); [done|].
    rewrite Z.bits_above_log2 in E; lia.
  - intros Hlt. exists (Z.log2 m - i). split; [lia|].
    replace (i + (Z.log2 m - i)) with (Z.log2 m) by lia. apply Z.bit_log2. lia.
Qed.

Lemma next_power_of_2_value n :
  0 < n < 2 ^ 32 -> next_power_of_2 n = if n <=? 2 ^ 31 then 2 ^ Z.log2_up n else 0.
Proof.
  intros Hn. unfold next_power_of_2. destruct (Z.eqb_spec n 0); [lia|].
  rewrite (u32_small (n - 1)) by lia.
  destruct (Z.eq_dec n 1) as [->|Hn1]; [done|].
  assert (spread (n - 1) 32 (fill_right 16 (fill_right 8 (fill_right 4 (fill_right 2 (fill_right 1 (n - 1))))))) as Hs.
  { apply (spread_fill _ 16), (spread_fill _ 8), (spread_fill _ 4), (spread_fill _ 2), (spread_fill _ 1); try lia.
    apply spread_start. lia. }
  apply spread_ones in Hs as ->; [|lia].
  rewrite Z.log2_up_eqn by lia. change (Z.pred n) with (n - 1).
  rewrite Z.ones_equiv. replace (Z.pred (2 ^ (Z.log2 (n - 1) + 1)) + 1) with (2 ^ (Z.log2 (n - 1) + 1)) by lia.
  rewrite <- Z.add_1_r. pose proof (Z.log2_nonneg (n - 1)). destruct (Z.leb_spec n (2 ^ 31)).
  - apply u32_small. split; [apply Z.pow_nonneg; lia|]. apply Z.pow_lt_mono_r; try lia.
    assert (Z.log2 (n - 1) < 31) by (apply Z.log2_lt_pow2; lia). lia.
  - assert (Z.log2 (n - 1) = 31) as -> by (apply Z.log2_unique; lia). done.
Qed.

(** The queues the theorems are about: a power of two of slots. *)
Definition queue_shape (k : Z) (q : LockFreeQueue) : Prop :=
  0 <= k <= 31 /\ lq_capacity q = 2 ^ k /\ lq_mask q = 2 ^ k - 1 /\
  Z.of_nat (length (lq_buffer q)) = 2 ^ k /\ Forall room_ok (lq_buffer q).

Lemma create_shape malloc_buffer n q :
  (forall c b, malloc_buffer c = Some b -> Z.of_nat (length b) = c /\ Forall room_ok b) ->
  0 <= n <= 2 ^ 31 -> lfq_create true malloc_buffer n = Some q ->
  queue_shape (Z.log2_up n) q /\ lq_write_pos q = 0 /\ lq_read_pos q = 0 /\ n <= lq_capacity q < 2 * n.
Proof.
  intros Hm Hn. unfold lfq_create. destruct (Z.eqb_spec n 0); [done|]. simpl.
  rewrite next_power_of_2_value by lia. destruct (Z.leb_spec n (2 ^ 31)); [|lia].
  destruct (malloc_buffer _) as [b|] eqn:E; [|done]. intros [= <-]. apply Hm in E as [Hlen Hb].
  pose proof (Z.log2_up_nonneg n). assert (Z.log2_up n <= 31) by (apply Z.log2_up_le_pow2; lia).
  assert (0 < 2 ^ Z.log2_up n <= 2 ^ 31) by (split; [apply Z.pow_pos_nonneg; lia|apply Z.pow_le_mono_r; lia]).
  unfold queue_shape. simpl. rewrite u32_small by lia.
  assert (n <= 2 ^ Z.log2_up n < 2 * n); [|by split_and!; try lia].
  destruct (Z.eq_dec n 1) as [->|]; [done|].
  destruct (Z.log2_up_spec n); [lia|]. replace (Z.log2_up n) with (Z.succ (Z.pred (Z.log2_up n))) at 2 by lia.
  rewrite Z.pow_succ_r; [lia|]. assert (0 < Z.log2_up n) by (apply Z.log2_up_pos; lia). lia.
Qed.

(** ** Slots *)

Lemma slot_index_mod k q pos : queue_shape k q -> 0 <= pos -> slot_index pos q = pos mod 2 ^ k.
Proof.
  intros (Hk & _ & Hmask & _) Hp. unfold slot_index. rewrite Hmask.
  replace (2 ^ k - 1) with (Z.ones k) by (rewrite Z.ones_equiv; lia).
  rewrite Z.land_ones by lia. assert (0 < 2 ^ k) by (apply Z.pow_pos_nonneg; lia).
  pose proof (Z.mod_pos_bound pos (2 ^ k)). apply u32_small.
  assert (2 ^ k <= 2 ^ 31) by (apply Z.pow_le_mono_r; lia). lia.
Qed.

Lemma mod_apart c i j : 0 < c -> i < j < i + c -> i mod c <> j mod c.
Proof.
  intros Hc Hij E. pose proof (Z.div_mod i c ltac:(lia)) as Hi. pose proof (Z.div_mod j c ltac:(lia)) as Hj.
  rewrite E in Hi. destruct (Z.le_gt_cases (j / c) (i / c)); nia.
Qed.

Lemma aset_Some {A} (l : list A) i x :
  0 <= i < Z.of_nat (length l) -> aset l i x = Some (<[Z.to_nat i := x]> l).
Proof.
  intros Hi. unfold aset. destruct (Z.leb_spec 0 i), (Z.ltb_spec i (Z.of_nat (length l))); simpl; try lia. done.
Qed.

Lemma aget_lookup {A} (l : list A) i : 0 <= i -> aget l i = l !! Z.to_nat i.
Proof. intros Hi. rewrite <- (Z2Nat.id i) at 1 by done. apply aget_nat. Qed.

Lemma aget_insert_eq {A} (l : list A) i x :
  0 <= i < Z.of_nat (length l) -> aget (<[Z.to_nat i := x]> l) i = Some x.
Proof. intros Hi. rewrite aget_lookup by lia. apply list_lookup_insert_eq. lia. Qed.

Lemma aget_insert_ne {A} (l : list A) i j x :
  0 <= i -> 0 <= j -> i <> j -> aget (<[Z.to_nat i := x]> l) j = aget l j.
Proof. intros Hi Hj Hne. rewrite !aget_lookup by lia. apply list_lookup_insert_ne. lia. Qed.

(** ** The copy *)

(** What an assignment has established about the destination. *)
Definition assigned (src dst : PacketNode) (a : assign) : Prop :=
  match a with
  | AHeader => pn_header dst = pn_header src
  | AData => let n := Z.to_nat (ph_caplen (pn_header src)) in take n (pn_data dst) = take n (pn_data src)
  | ASrcPort => pn_src_port dst = pn_src_port src
  | ADstPort => pn_dst_port dst = pn_dst_port src
  | AAppLen => pn_app_len dst = pn_app_len src
  | AValid => pn_valid dst = pn_valid src
  | AAppData => pn_app_data dst = if pn_valid src then pn_app_data src else None
  end.

(** [todo] is what is left of the copy of [src] into [dst]. *)
Definition copying (src dst : PacketNode) (todo : list assign) : Prop :=
  room_ok dst /\ exists done, done ++ todo = copy_list /\ Forall (assigned src dst) done.

Lemma copying_start src dst : room_ok dst -> copying src dst copy_list.
Proof. intros H. split; [done|]. by exists []. Qed.

Lemma run_assign_assigned a src dst dst' b :
  run_assign a src dst = Some dst' -> assigned src dst b -> assigned src dst' b.
Proof.
  destruct dst as [h d sp dp ap al v]. destruct a; simpl;
    try (intros [= <-]; destruct b; simpl; by intros).
  unfold memcpy. destruct (_ && _) eqn:E; [|done]. intros [= <-]. zbool.
  destruct b; simpl; try by intros. intros _. rewrite take_app_le by (rewrite length_take; lia).
  rewrite take_take. f_equal. lia.
Qed.

Lemma copying_step a todo src dst :
  node_ok src -> copying src dst (a :: todo) ->
  exists dst', run_assign a src dst = Some dst' /\ copying src dst' todo.
Proof.
  intros [Hlen Hcap] [Hroom (done & Hd & Hall)]. unfold room_ok in Hroom.
  assert (exists dst', run_assign a src dst = Some dst' /\ room_ok dst' /\ assigned src dst' a)
    as (dst' & E & Hroom' & Ha).
  { destruct dst as [h d sp dp ap al v]. simpl in Hroom. destruct a; simpl; try by eexists.
    unfold memcpy. simpl. rewrite Hroom, Hlen.
    destruct (Z.leb_spec 0 (ph_caplen (pn_header src))); [|lia].
    destruct (Z.leb_spec (ph_caplen (pn_header src)) DATA_SIZE); [|lia]. simpl.
    eexists. split; [done|]. unfold room_ok. simpl. split.
    - rewrite length_app, length_take, length_drop. lia.
    - rewrite take_app_le by (rewrite length_take; lia). rewrite take_take. f_equal. lia. }
  exists dst'. split; [done|]. split; [done|]. exists (done ++ [a]). split.
  { by rewrite <- app_assoc. }
  apply Forall_app. split; [|by constructor].
  eapply Forall_impl; [exact Hall|]. intros b Hb. by eapply run_assign_assigned.
Qed.

Lemma copying_done src dst : node_ok src -> copying src dst [] -> node_ok dst /\ view dst = view src.
Proof.
  intros [Hlen Hcap] [Hroom (done & Hd & Hall)]. rewrite app_nil_r in Hd. subst done.
  unfold copy_list in Hall. rewrite !Forall_cons in Hall. simpl in Hall.
  destruct Hall as (Hh & Hdat & Hs & Hp & Hl & Hv & Ha & _).
  split.
  - split; [done|]. by rewrite Hh.
  - unfold view. rewrite Hh, Hdat, Hs, Hp, Hl, Hv, Ha. by destruct (pn_valid src).
Qed.

(** ** The invariant *)

Section Ring.
Context (k : Z).

Definition slot_at (q : LockFreeQueue) (pos : Z) : option PacketNode := aget (lq_buffer q) (pos mod 2 ^ k).

(** The slots from the read position on hold the packets of [l]. *)
Definition stored (q : LockFreeQueue) (l : list packet_view) : Prop :=
  forall i v, l !! i = Some v ->
  exists n, slot_at q (lq_read_pos q + Z.of_nat i) = Some n /\ node_ok n /\ view n = v.

Definition producer_inv (p : producer) (q : LockFreeQueue) : Prop :=
  match p with
  | PIdle => True
  | PCalled item => node_ok item
  | PLoaded item w => node_ok item /\ w = lq_write_pos q
  | PCopy item w todo =>
      node_ok item /\ w = lq_write_pos q /\ lq_write_pos q < lq_read_pos q + 2 ^ k /\
      exists slot, slot_at q w = Some slot /\ copying item slot todo
  end.

Definition consumer_inv (c : consumer) (q : LockFreeQueue) : Prop :=
  match c with
  | CIdle => True
  | CCalled item => room_ok item
  | CLoaded item r => room_ok item /\ r = lq_read_pos q
  | CCopy item r todo =>
      r = lq_read_pos q /\ lq_read_pos q < lq_write_pos q /\
      exists slot, slot_at q r = Some slot /\ node_ok slot /\ copying slot item todo
  end.

Record ring_inv (s : system) (l : list packet_view) : Prop := {
  ri_shape : queue_shape k (sy_queue s);
  ri_order : 0 <= lq_read_pos (sy_queue s) <= lq_write_pos (sy_queue s);
  ri_range : lq_write_pos (sy_queue s) < 2 ^ 64;
  ri_length : Z.of_nat (length l) = lq_write_pos (sy_queue s) - lq_read_pos (sy_queue s);
  ri_room : Z.of_nat (length l) <= 2 ^ k;
  ri_stored : stored (sy_queue s) l;
  ri_producer : producer_inv (sy_producer s) (sy_queue s);
  ri_consumer : consumer_inv (sy_consumer s) (sy_queue s);
}.

Lemma slot_valid q pos :
  queue_shape k q -> 0 <= pos -> 0 <= pos mod 2 ^ k < Z.of_nat (length (lq_buffer q)).
Proof.
  intros (Hk & _ & _ & -> & _) Hp. apply Z.mod_pos_bound. apply Z.pow_pos_nonneg; lia.
Qed.

Lemma slot_is_room q pos n : queue_shape k q -> slot_at q pos = Some n -> room_ok n.
Proof.
  intros (_ & _ & _ & _ & Hall) E. unfold slot_at, aget in E. destruct (_ && _); [|done].
  rewrite Forall_lookup in Hall. eauto.
Qed.

Lemma length_unchanged q (l : list packet_view) : queue_shape k q -> 0 <= lq_read_pos q <= lq_write_pos q ->
  Z.of_nat (length l) = lq_write_pos q - lq_read_pos q -> Z.of_nat (length l) <= 2 ^ k ->
  lq_write_pos q -64 lq_read_pos q = Z.of_nat (length l).
Proof.
  intros (Hk & _) Ho Hl Hr. rewrite Hl. apply u64_small.
  assert (2 ^ k <= 2 ^ 31) by (apply Z.pow_le_mono_r; lia). lia.
Qed.

(** The producer's write leaves the published slots alone. *)
Section Write.
Context (q : LockFreeQueue) (w : Z) (n : PacketNode).
Hypothesis Hq : queue_shape k q.
Hypothesis Hw : 0 <= w.
Hypothesis Hn : room_ok n.

Definition written : LockFreeQueue := set_buffer (<[Z.to_nat (w mod 2 ^ k) := n]> (lq_buffer q)) q.

Lemma written_shape : queue_shape k written.
Proof.
  destruct Hq as (Hk & Hc & Hm & Hl & Hall). unfold written, set_buffer.
  split_and!; cbn [lq_capacity lq_mask lq_buffer]; try done; try lia.
  - by rewrite length_insert.
  - by apply Forall_insert.
Qed.

Lemma written_at : slot_at written w = Some n.
Proof. apply aget_insert_eq. by apply slot_valid. Qed.

Lemma written_other pos : 0 <= pos < w -> w < pos + 2 ^ k -> slot_at written pos = slot_at q pos.
Proof.
  intros Hp Hd. pose proof (slot_valid q w Hq Hw). pose proof (slot_valid q pos Hq ltac:(lia)).
  apply aget_insert_ne; try lia. apply not_eq_sym, mod_apart; lia.
Qed.

Lemma written_stored l :
  0 <= lq_read_pos q -> w = lq_read_pos q + Z.of_nat (length l) -> w < lq_read_pos q + 2 ^ k ->
  stored q l -> stored written l.
Proof.
  intros Hr Hlen Hd Hst i v Hi. pose proof (lookup_lt_Some _ _ _ Hi).
  change (lq_read_pos written) with (lq_read_pos q). rewrite written_other by lia. by apply Hst.
Qed.

Lemma written_consumer c :
  0 <= lq_read_pos q -> w = lq_write_pos q -> w < lq_read_pos q + 2 ^ k ->
  consumer_inv c q -> consumer_inv c written.
Proof.
  intros Hr Ew Hd. destruct c as [| | |item r todo]; simpl; try done.
  intros (-> & Hlt & slot & Hs & H). split_and!; [done|done|]. exists slot. split; [|done].
  rewrite written_other by lia. done.
Qed.
End Write.

(** ** Simulation *)

(** From content [l] and write position [w], a run with events [ev] to [s]. *)
Definition simulated (w : Z) (l : list packet_view) (ev : list event) (s : system) : Prop :=
  exists l', fifo_run (2 ^ k) l ev l' /\ ring_inv s l' /\
    lq_write_pos (sy_queue s) = w + Z.of_nat (length (pushes ev)).

Lemma simulated_quiet l s : ring_inv s l -> simulated (lq_write_pos (sy_queue s)) l [] s.
Proof. intros H. exists l. split_and!; [constructor|done|simpl; lia]. Qed.

Lemma simulated_event w l e l' s :
  fifo_step (2 ^ k) l e l' -> lq_write_pos (sy_queue s) = w + Z.of_nat (length (pushes [e])) ->
  ring_inv s l' -> simulated w l [e] s.
Proof. intros He Hw H. exists l'. split_and!; try done. by apply (fifo_next _ _ [] l); [constructor|]. Qed.

Lemma producer_copies q c l item w a todo :
  ring_inv (mkSystem q (PCopy item w (a :: todo)) c) l ->
  exists n, producer_step (PCopy item w (a :: todo)) q = Some (PCopy item w todo, written q w n, []) /\
    ring_inv (mkSystem (written q w n) (PCopy item w todo) c) l.
Proof.
  intros [Hq Ho Hrg Hl Hr Hst (Hi & Hw & Hd & slot & Hs & Hc) Hcons]. simpl in *.
  destruct (copying_step _ _ _ _ Hi Hc) as (n & En & Hn). pose proof (proj1 Hn) as Hroom.
  exists n. rewrite (slot_index_mod k) by (done || lia). unfold slot_at in Hs. rewrite Hs. simpl.
  rewrite En. simpl. rewrite aset_Some by (apply slot_valid; [done|lia]). split; [done|].
  constructor; simpl; try done.
  - by apply written_shape.
  - apply written_stored; try done; lia.
  - split_and!; try done. exists n. split; [|done]. apply written_at; [done|lia].
  - apply written_consumer; try done; lia.
Qed.

Lemma producer_publishes q c l item w :
  lq_write_pos q + 1 < 2 ^ 64 ->
  ring_inv (mkSystem q (PCopy item w []) c) l ->
  simulated (lq_write_pos q) l [Pushed (view item)] (mkSystem (set_write_pos (w +64 1) q) PIdle c).
Proof.
  intros Hmax [Hq Ho Hrg Hl Hr Hst (Hi & Hw & Hd & slot & Hs & Hc) Hcons]. simpl in *. subst w.
  apply copying_done in Hc as [Hok Hv]; [|done].
  rewrite u64_small by lia.
  apply simulated_event with (l ++ [view item]); [constructor; lia|done|]. constructor; simpl; try done; try (rewrite length_app; simpl); try lia.
  - intros i v Hlk. apply lookup_app_Some in Hlk as [Hlk|[Hge Hlk]]; [by apply Hst|].
    apply list_lookup_singleton_Some in Hlk as [Hz <-].
    exists slot. split; [|done]. rewrite <- Hs. unfold slot_at. simpl. f_equal. f_equal. lia.
  - destruct c; simpl in *; try done. destruct Hcons as (? & ? & ?). split_and!; [done|lia|done].
Qed.

Lemma producer_simulates q p c l :
  lq_write_pos q + 1 < 2 ^ 64 -> ring_inv (mkSystem q p c) l ->
  exists p' q' ev, producer_step p q = Some (p', q', ev) /\ simulated (lq_write_pos q) l ev (mkSystem q' p' c).
Proof.
  intros Hmax H. destruct p as [|item|item w|item w [|a todo]].
  - do 3 eexists. split; [done|]. by apply (simulated_quiet l).
  - do 3 eexists. split; [done|]. apply (simulated_quiet l). by destruct H; constructor.
  - destruct H as [Hq Ho Hrg Hl Hr Hst [Hi Hw] Hcons]. simpl in *. subst w.
    rewrite (length_unchanged q l) by done. pose proof Hq as (_ & -> & _).
    destruct (Z.leb_spec (2 ^ k) (Z.of_nat (length l))); do 3 eexists; (split; [done|]).
    + apply simulated_event with l; [constructor; lia|simpl; lia|]. by constructor.
    + apply (simulated_quiet l). constructor; simpl; try done. split_and!; try done; [lia|].
      destruct (aget_is_Some (lq_buffer q) (lq_write_pos q mod 2 ^ k)) as [slot Hs]; [apply slot_valid; [done|lia]|].
      exists slot. split; [done|]. apply copying_start. by eapply slot_is_room.
  - do 3 eexists. split; [done|]. by apply producer_publishes.
  - apply producer_copies in H as (n & E & H). do 3 eexists. split; [exact E|]. by apply (simulated_quiet l).
Qed.

Lemma stored_head q l : ring_inv q l -> lq_read_pos (sy_queue q) < lq_write_pos (sy_queue q) ->
  exists v l' slot, l = v :: l' /\ slot_at (sy_queue q) (lq_read_pos (sy_queue q)) = Some slot /\
    node_ok slot /\ view slot = v.
Proof.
  intros [_ _ _ Hl _ Hst _ _] Hlt. destruct l as [|v l']; [simpl in Hl; lia|].
  destruct (Hst 0%nat v eq_refl) as (slot & Hs & Hok & Hv). rewrite Z.add_0_r in Hs. by exists v, l', slot.
Qed.

Lemma consumer_copies q p l item r a todo :
  ring_inv (mkSystem q p (CCopy item r (a :: todo))) l ->
  exists item', consumer_step (CCopy item r (a :: todo)) q = Some (CCopy item' r todo, q, []) /\
    ring_inv (mkSystem q p (CCopy item' r todo)) l.
Proof.
  intros [Hq Ho Hrg Hl Hr Hst Hp (Hrd & Hlt & slot & Hs & Hok & Hc)]. simpl in *.
  destruct (copying_step _ _ _ _ Hok Hc) as (n & En & Hn). exists n.
  rewrite (slot_index_mod k) by (done || lia). unfold slot_at in Hs. rewrite Hs. simpl. rewrite En. split; [done|].
  constructor; simpl; try done. split_and!; try done. by exists slot.
Qed.

Lemma consumer_returns q p l item r :
  ring_inv (mkSystem q p (CCopy item r [])) l ->
  simulated (lq_write_pos q) l [Popped (view item)] (mkSystem (set_read_pos (r +64 1) q) p CIdle).
Proof.
  intros H. pose proof H as [Hq Ho Hrg Hl Hr Hst Hp (Hrd & Hlt & slot & Hs & Hok & Hc)]. simpl in *. subst r.
  destruct (stored_head _ _ H Hlt) as (v & l' & slot' & -> & Hs' & _ & Hv). simpl in Hs'.
  assert (slot' = slot) as -> by congruence. apply copying_done in Hc as [_ Hview]; [|done].
  rewrite Hview, Hv. apply simulated_event with l'; [constructor|simpl; lia|]. simpl in Hl, Hr.
  rewrite u64_small by lia. constructor; simpl; try done; try lia.
  - intros i u Hi. destruct (Hst (S i) u Hi) as (n & Hn & Hok' & Hu). exists n. split; [|done].
    rewrite <- Hn. unfold slot_at. simpl. f_equal. f_equal. lia.
  - destruct p; simpl in *; try done. destruct Hp as (? & ? & ? & ?). split_and!; [done|done|lia|done].
Qed.

Lemma consumer_simulates q p c l :
  ring_inv (mkSystem q p c) l ->
  exists c' q' ev, consumer_step c q = Some (c', q', ev) /\ simulated (lq_write_pos q) l ev (mkSystem q' p c').
Proof.
  intros H. destruct c as [|item|item r|item r [|a todo]].
  - do 3 eexists. split; [done|]. by apply (simulated_quiet l).
  - do 3 eexists. split; [done|]. apply (simulated_quiet l). by destruct H; constructor.
  - pose proof H as [Hq Ho Hrg Hl Hr Hst Hp [Hi Hrd]]. simpl in *. subst r.
    destruct (Z.leb_spec (lq_write_pos q) (lq_read_pos q)); do 3 eexists; (split; [done|]).
    + apply simulated_event with l; [|simpl; lia|by constructor]. destruct l; [constructor|simpl in Hl; lia].
    + apply (simulated_quiet l). constructor; simpl; try done. split_and!; [done|lia|].
      destruct (stored_head _ _ H) as (v & l' & slot & _ & Hs & Hok & _); [simpl; lia|].
      exists slot. split_and!; try done. by apply copying_start.
  - do 3 eexists. split; [done|]. by apply consumer_returns.
  - apply consumer_copies in H as (n & E & H). do 3 eexists. split; [exact E|]. by apply (simulated_quiet l).
Qed.

Lemma step_simulates s l ev s' :
  lq_write_pos (sy_queue s) + 1 < 2 ^ 64 -> ring_inv s l -> step s ev s' -> simulated (lq_write_pos (sy_queue s)) l ev s'.
Proof.
  intros Hmax H Hs. destruct Hs as [q item c Hok|q p item Hok|q p c q' p' ev E|q p c q' c' ev E].
  - apply (simulated_quiet l (mkSystem q (PCalled item) c)). by destruct H; constructor.
  - apply (simulated_quiet l (mkSystem q p (CCalled item))). by destruct H; constructor.
  - destruct (producer_simulates _ _ _ _ Hmax H) as (p1 & q1 & e1 & E1 & H1). simpl in E1. by simplify_eq.
  - destruct (consumer_simulates _ _ _ _ H) as (p1 & q1 & e1 & E1 & H1). simpl in E1. by simplify_eq.
Qed.
End Ring.

(** ** Theorems *)

Lemma fifo_run_app cap l tr1 l1 tr2 l2 :
  fifo_run cap l tr1 l1 -> fifo_run cap l1 tr2 l2 -> fifo_run cap l (tr1 ++ tr2) l2.
Proof.
  intros H1 H2. induction H2 as [|tr l2 ev l3 _ IH Hs]; [by rewrite app_nil_r|].
  rewrite app_assoc. by econstructor.
Qed.

(** What went in is what came out, followed by what is still there. *)
Lemma fifo_run_order cap l tr l' : fifo_run cap l tr l' -> l ++ pushes tr = pops tr ++ l'.
Proof.
  unfold pushes, pops. induction 1 as [|tr l1 ev l2 _ IH Hs]; [by rewrite app_nil_r|].
  rewrite !omap_app, app_assoc, IH. destruct Hs; simpl; rewrite ?app_nil_r, <- ?app_assoc; done.
Qed.

Definition idle (q : LockFreeQueue) : system := mkSystem q PIdle CIdle.

(** An empty queue as [lfq_create] gives it. *)
Definition fresh (k : Z) (q : LockFreeQueue) : Prop :=
  queue_shape k q /\ lq_write_pos q = 0 /\ lq_read_pos q = 0.

Lemma fresh_inv k q : fresh k q -> ring_inv k (idle q) [].
Proof.
  intros (Hq & Hw & Hr). constructor; simpl; rewrite ?Hw, ?Hr; try done; try lia.
Qed.

Lemma pushes_app tr1 tr2 : pushes (tr1 ++ tr2) = pushes tr1 ++ pushes tr2.
Proof. apply omap_app. Qed.

Lemma ring_reachable k q tr s :
  fresh k q -> steps (idle q) tr s -> Z.of_nat (length (pushes tr)) < UINT64_MAX -> simulated k 0 [] tr s.
Proof.
  intros Hf. pose proof Hf as (_ & Hw0 & _). induction 1 as [|tr s1 ev s2 _ IH Hs]; intros Hmax.
  - rewrite <- Hw0. by apply (simulated_quiet k [] (idle q)), fresh_inv.
  - rewrite pushes_app, length_app in Hmax. destruct IH as (l1 & Hr1 & H1 & Hw1); [lia|].
    destruct (step_simulates k s1 l1 ev s2) as (l2 & Hr2 & H2 & Hw2);
      [rewrite Hw1; unfold UINT64_MAX in Hmax; lia|done|done|].
    exists l2. split_and!; [by eapply fifo_run_app|done|]. rewrite pushes_app, length_app. lia.
Qed.

(** How many accesses a call in progress still has to make. *)
Definition producer_left (p : producer) : nat :=
  match p with PIdle => 0 | PCalled _ => 10 | PLoaded _ _ => 9 | PCopy _ _ todo => S (length todo) end.
Definition consumer_left (c : consumer) : nat :=
  match c with CIdle => 0 | CCalled _ => 10 | CLoaded _ _ => 9 | CCopy _ _ todo => S (length todo) end.

Lemma producer_step_left p q p' q' ev :
  producer_step p q = Some (p', q', ev) -> p = PIdle \/ (producer_left p' < producer_left p)%nat.
Proof.
  destruct p as [|item|item w|item w [|a todo]]; simpl; intros E; [by left|right..];
    repeat (destr_in E; try done); simpl in E; simplify_option_eq; simpl; lia.
Qed.

Lemma consumer_step_left c q c' q' ev :
  consumer_step c q = Some (c', q', ev) -> c = CIdle \/ (consumer_left c' < consumer_left c)%nat.
Proof.
  destruct c as [|item|item w|item w [|a todo]]; simpl; intros E; [by left|right..];
    repeat (destr_in E; try done); simpl in E; simplify_option_eq; simpl; lia.
Qed.

(** Running the producer alone through the rest of its call. *)
Fixpoint run_producer (n : nat) (p : producer) (q : LockFreeQueue) : option (producer * LockFreeQueue * list event) :=
  match n with
  | O => Some (p, q, [])
  | S n => '(p, q, ev) ← producer_step p q; '(p, q, ev') ← run_producer n p q; Some (p, q, ev ++ ev')
  end.

Fixpoint run_consumer (n : nat) (c : consumer) (q : LockFreeQueue) : option (consumer * LockFreeQueue * list event) :=
  match n with
  | O => Some (c, q, [])
  | S n => '(c, q, ev) ← consumer_step c q; '(c, q, ev') ← run_consumer n c q; Some (c, q, ev ++ ev')
  end.

Lemma set_buffer_twice b b' q : set_buffer b (set_buffer b' q) = set_buffer b q.
Proof. done. Qed.

Lemma run_producer_copy item w todo q slot n :
  aget (lq_buffer q) (slot_index w q) = Some slot ->
  run_producer (length todo + n) (PCopy item w todo) q =
  (slot' ← run_assigns todo item slot; buffer ← aset (lq_buffer q) (slot_index w q) slot';
   run_producer n (PCopy item w []) (set_buffer buffer q)).
Proof.
  revert q slot. induction todo as [|a todo IH]; intros q slot Hs; simpl.
  - pose proof (aget_Some_lt _ _ _ Hs). rewrite aset_Some by done. simpl.
    rewrite list_insert_id by (by rewrite <- aget_lookup by lia). by destruct q.
  - rewrite Hs. simpl. destruct (run_assign a item slot) as [slot1|]; [|done]. simpl.
    pose proof (aget_Some_lt _ _ _ Hs) as Hr. rewrite aset_Some by done. simpl.
    rewrite (IH _ slot1) by (by apply aget_insert_eq). unfold slot_index. simpl.
    destruct (run_assigns todo item slot1) as [slot2|]; [|done]. simpl.
    rewrite !aset_Some by (rewrite ?length_insert; done). simpl.
    rewrite list_insert_insert_eq. unfold set_buffer. simpl. by destruct (run_producer n _ _) as [[[? ?] ?]|].
Qed.

Lemma run_consumer_copy dst r todo q slot n :
  aget (lq_buffer q) (slot_index r q) = Some slot ->
  run_consumer (length todo + n) (CCopy dst r todo) q =
  (item ← run_assigns todo slot dst; run_consumer n (CCopy item r []) q).
Proof.
  intros Hs. revert dst. induction todo as [|a todo IH]; intros dst; simpl; [done|].
  rewrite Hs. simpl. destruct (run_assign a slot dst) as [dst'|]; [|done]. simpl. rewrite IH.
  destruct (run_assigns todo slot dst') as [i|]; [|done]. simpl.
  by destruct (run_consumer n _ _) as [[[? ?] ?]|].
Qed.

Lemma run_assigns_copying todo src dst :
  node_ok src -> copying src dst todo ->
  exists dst', run_assigns todo src dst = Some dst' /\ copying src dst' [].
Proof.
  intros Hs. revert dst. induction todo as [|a todo IH]; intros dst H; [by exists dst|].
  destruct (copying_step _ _ _ _ Hs H) as (d & E & Hd). simpl. rewrite E. simpl. by apply IH.
Qed.

Lemma run_producer_idle n q : run_producer n PIdle q = Some (PIdle, q, []).
Proof. induction n as [|n IH]; simpl; [done|]. by rewrite IH. Qed.

Lemma run_consumer_idle n q : run_consumer n CIdle q = Some (CIdle, q, []).
Proof. induction n as [|n IH]; simpl; [done|]. by rewrite IH. Qed.

Lemma run_producer_S n p q :
  run_producer (S n) p q =
  ('(p, q, ev) ← producer_step p q; '(p, q, ev') ← run_producer n p q; Some (p, q, ev ++ ev')).
Proof. done. Qed.

Lemma push_runs q item :
  run_producer 10 (PCalled item) q =
  match lfq_push (Some q) (Some item) with
  | Some (b, Some q') => Some (PIdle, q', [if b then Pushed (view item) else Full])
  | _ => None
  end.
Proof.
  unfold lfq_push. rewrite (run_producer_S 9). cbn [producer_step mbind option_bind].
  rewrite (run_producer_S 8). cbn [producer_step mbind option_bind].
  destruct (_ <=? _); cbn [mbind option_bind]; [by rewrite (run_producer_idle 8)|].
  change 8%nat with (length copy_list + 1)%nat.
  destruct (aget (lq_buffer q) (slot_index (lq_write_pos q) q)) as [slot|] eqn:E.
  - rewrite (run_producer_copy item (lq_write_pos q) copy_list q slot 1) by done. cbn [mbind option_bind].
    destruct (run_assigns copy_list item slot) as [slot'|]; [|done]. cbn [mbind option_bind].
    destruct (aset _ _ slot') as [b|]; [|done]. done.
  - unfold copy_list. cbn [length Nat.add]. rewrite run_producer_S. cbn [producer_step]. by rewrite E.
Qed.

Lemma run_consumer_S n c q :
  run_consumer (S n) c q =
  ('(c, q, ev) ← consumer_step c q; '(c, q, ev') ← run_consumer n c q; Some (c, q, ev ++ ev')).
Proof. done. Qed.

Lemma pop_runs q dst :
  run_consumer 10 (CCalled dst) q =
  match lfq_pop (Some q) (Some dst) with
  | Some (b, Some item, Some q') => Some (CIdle, q', [if b then Popped (view item) else Empty])
  | _ => None
  end.
Proof.
  unfold lfq_pop. rewrite (run_consumer_S 9). cbn [consumer_step mbind option_bind].
  rewrite (run_consumer_S 8). cbn [consumer_step mbind option_bind].
  destruct (_ <=? _); cbn [mbind option_bind]; [by rewrite (run_consumer_idle 8)|].
  change 8%nat with (length copy_list + 1)%nat.
  destruct (aget (lq_buffer q) (slot_index (lq_read_pos q) q)) as [slot|] eqn:E.
  - rewrite (run_consumer_copy dst (lq_read_pos q) copy_list q slot 1) by done. cbn [mbind option_bind].
    destruct (run_assigns copy_list slot dst) as [item|]; [|done]. done.
  - unfold copy_list. cbn [length Nat.add]. rewrite run_consumer_S. cbn [consumer_step]. by rewrite E.
Qed.

Lemma steps_app s tr s1 tr' s2 : steps s tr s1 -> steps s1 tr' s2 -> steps s (tr ++ tr') s2.
Proof.
  intros H. induction 1 as [|tr' s2 ev s3 _ IH Hs]; [by rewrite app_nil_r|].
  rewrite app_assoc. by econstructor.
Qed.

Lemma steps_one s ev s' : step s ev s' -> steps s ev s'.
Proof. intros H. apply (steps_snoc s [] s ev s'); [constructor|done]. Qed.

Lemma run_producer_steps n p q c p' q' ev :
  run_producer n p q = Some (p', q', ev) -> steps (mkSystem q p c) ev (mkSystem q' p' c).
Proof.
  revert p q ev. induction n as [|n IH]; simpl; intros p q ev E; [simplify_eq; constructor|].
  destruct (producer_step p q) as [[[p1 q1] ev1]|] eqn:E1; [|done]. simpl in E.
  destruct (run_producer n p1 q1) as [[[p2 q2] ev2]|] eqn:E2; [|done]. simpl in E. simplify_eq.
  eapply steps_app; [by apply steps_one, step_producer|by apply IH].
Qed.

Lemma run_consumer_steps n p q c c' q' ev :
  run_consumer n c q = Some (c', q', ev) -> steps (mkSystem q p c) ev (mkSystem q' p c').
Proof.
  revert c q ev. induction n as [|n IH]; simpl; intros c q ev E; [simplify_eq; constructor|].
  destruct (consumer_step c q) as [[[c1 q1] ev1]|] eqn:E1; [|done]. simpl in E.
  destruct (run_consumer n c1 q1) as [[[c2 q2] ev2]|] eqn:E2; [|done]. simpl in E. simplify_eq.
  eapply steps_app; [by apply steps_one, step_consumer|by apply IH].
Qed.

(** A packet pushed into a queue with room, and popped when nothing precedes it. *)
Lemma push_succeeds k q item :
  queue_shape k q -> 0 <= lq_read_pos q <= lq_write_pos q -> lq_write_pos q < lq_read_pos q + 2 ^ k ->
  lq_write_pos q < UINT64_MAX -> node_ok item ->
  exists slot, node_ok slot /\ view slot = view item /\
    lfq_push (Some q) (Some item) = Some (true, Some (set_write_pos (lq_write_pos q + 1) (written k q (lq_write_pos q) slot))).
Proof.
  intros Hq Ho Hd Hmax Hi. unfold UINT64_MAX in Hmax.
  pose proof (slot_valid k q (lq_write_pos q) Hq ltac:(lia)) as Hv.
  destruct (aget_is_Some (lq_buffer q) _ Hv) as [old Hold].
  destruct (run_assigns_copying copy_list item old) as (slot & E & Hc);
    [done|by apply copying_start; eapply slot_is_room|].
  apply copying_done in Hc as [Hok Hview]; [|done]. exists slot. split_and!; [done|done|].
  pose proof Hq as (Hk & Hcap & _). unfold lfq_push. assert (2 ^ k <= 2 ^ 31) by (apply Z.pow_le_mono_r; lia).
  rewrite u64_small, Hcap by lia. destruct (Z.leb_spec (2 ^ k) (lq_write_pos q - lq_read_pos q)); [lia|].
  rewrite (slot_index_mod k) by (done || lia). rewrite Hold. simpl. simpl in E. rewrite E. simpl.
  rewrite aset_Some by done. simpl. by rewrite u64_small by lia.
Qed.

Lemma pop_succeeds k q dst slot :
  queue_shape k q -> 0 <= lq_read_pos q < lq_write_pos q -> lq_write_pos q <= UINT64_MAX ->
  slot_at k q (lq_read_pos q) = Some slot -> node_ok slot -> room_ok dst ->
  exists item, node_ok item /\ view item = view slot /\
    lfq_pop (Some q) (Some dst) = Some (true, Some item, Some (set_read_pos (lq_read_pos q + 1) q)).
Proof.
  intros Hq Ho Hmax Hs Hok Hd. unfold UINT64_MAX in Hmax.
  destruct (run_assigns_copying copy_list slot dst) as (item & E & Hc); [done|by apply copying_start|].
  apply copying_done in Hc as [Hok' Hview]; [|done]. exists item. split_and!; [done|done|].
  unfold lfq_pop. destruct (Z.leb_spec (lq_write_pos q) (lq_read_pos q)); [lia|].
  rewrite (slot_index_mod k) by (done || lia). unfold slot_at in Hs. rewrite Hs. simpl. simpl in E. rewrite E. simpl.
  by rewrite u64_small by lia.
Qed.

Lemma fresh_push_pop k q item dst :
  fresh k q -> node_ok item -> room_ok dst ->
  exists s, steps (idle q) [Pushed (view item); Popped (view item)] s.
Proof.
  intros (Hq & Hw & Hr) Hi Hd. pose proof (proj1 Hq) as Hk. assert (0 < 2 ^ k) by (apply Z.pow_pos_nonneg; lia).
  destruct (push_succeeds k q item) as (slot & Hok & Hv & E); [done|rewrite ?Hw, ?Hr; unfold UINT64_MAX; lia..|done|].
  rewrite Hw in E. set (q1 := set_write_pos _ _) in E.
  pose proof (written_shape k q 0 slot Hq (proj1 Hok)) as Hq1.
  destruct (pop_succeeds k q1 dst slot) as (it & Hit & Hvi & E');
    [done|simpl; rewrite Hr; lia|simpl; unfold UINT64_MAX; lia| |done|done|].
  { unfold slot_at. simpl. rewrite Hr. by apply (written_at k q 0). }
  eexists. apply (steps_app _ [Pushed (view item)] (idle q1) [Popped (view item)]).
  - apply (steps_app _ [] (mkSystem q (PCalled item) CIdle) [Pushed (view item)]).
    { by apply steps_one, step_call_push. }
    apply (run_producer_steps 10). by rewrite push_runs, E.
  - apply (steps_app _ [] (mkSystem q1 PIdle (CCalled dst)) [Popped (view item)]).
    { by apply steps_one, step_call_pop. }
    apply (run_consumer_steps 10). rewrite pop_runs, E'. by rewrite Hvi, Hv.
Qed.

(** ** A queue of one slot *)

Definition demo_node : PacketNode :=
  mkNode (mkHdr 0 0 2 60) (x45 :: x00 :: replicate (Z.to_nat 65534) x00) 1234 80 (Some 1) 1 true.

Definition demo_queue : LockFreeQueue := mkQueue 0 0 1 0 [demo_node].

Lemma demo_node_ok : node_ok demo_node.
Proof. split; [|simpl; unfold DATA_SIZE; lia]. unfold demo_node, pn_data, DATA_SIZE. cbn [length]. rewrite length_replicate. lia. Qed.

Lemma demo_fresh : fresh 0 demo_queue.
Proof.
  split; [|done]. split_and!; try done; try lia. constructor; [|constructor]. apply demo_node_ok.
Qed.

(** ** Properties *)

(** C33: Under every interleaving of a producer and a consumer, from an empty
    queue of capacity 2^k, the completed calls are a run of a bounded FIFO:
    [lfq_push] adds its packet at the back and fails only on a full queue,
    [lfq_pop] takes the packet at the front and fails only on an empty one.
    So what was pushed is what was popped, in order and unchanged, followed
    by the packets still inside, which [lfq_size] counts and which never
    exceed the capacity. *)
Theorem ring_is_fifo k q tr s :
  fresh k q -> steps (idle q) tr s -> Z.of_nat (length (pushes tr)) < UINT64_MAX ->
  exists l,
    fifo_run (lq_capacity q) [] tr l /\ pushes tr = pops tr ++ l /\
    Z.of_nat (length l) <= lq_capacity q /\ lfq_size (Some (sy_queue s)) = Z.of_nat (length l) /\
    lfq_is_full (Some (sy_queue s)) = (Z.of_nat (length l) =? lq_capacity q) /\
    lfq_is_empty (Some (sy_queue s)) = bool_decide (l = []).
Proof.
  intros Hf Hs Hn. destruct (ring_reachable k q tr s Hf Hs Hn) as (l & Hrun & H & _).
  pose proof Hf as ((Hk & -> & _) & _). exists l. split; [done|].
  pose proof (fifo_run_order _ _ _ _ Hrun) as Hord. split; [done|].
  destruct H as [Hq Ho Hrg Hl Hr _ _ _]. split; [done|].
  assert (2 ^ k <= 2 ^ 31) by (apply Z.pow_le_mono_r; lia).
  unfold lfq_is_empty, lfq_is_full, lfq_size. rewrite (length_unchanged k _ l) by done.
  rewrite u32_small by lia. pose proof Hq as (_ & -> & _). split_and!; [done| |].
  - apply eq_true_iff_eq. rewrite Z.leb_le, Z.eqb_eq. lia.
  - apply eq_true_iff_eq. rewrite Z.eqb_eq, bool_decide_eq_true. rewrite <- length_zero_iff_nil. lia.
Qed.

Lemma ring_is_fifo_witness :
  exists s l, steps (idle demo_queue) [Pushed (view demo_node); Popped (view demo_node)] s /\
    pushes [Pushed (view demo_node); Popped (view demo_node)] =
      pops [Pushed (view demo_node); Popped (view demo_node)] ++ l.
Proof.
  destruct (fresh_push_pop 0 demo_queue demo_node demo_node) as [s Hs];
    [apply demo_fresh|apply demo_node_ok|apply demo_node_ok|].
  destruct (ring_is_fifo 0 demo_queue _ s demo_fresh Hs) as (l & _ & H & _); [reflexivity|].
  exists s, l. split; [exact Hs|exact H].
Defined.

(** C34: The queue is wait-free and free of undefined behaviour: in every
    reachable state a call in progress, on either side, has a next access, which
    stays inside the buffer and the packets, and brings it nearer to its return
    whatever the other side has done; no call takes more than ten accesses. *)
Theorem ring_wait_free k q tr s :
  fresh k q -> steps (idle q) tr s -> Z.of_nat (length (pushes tr)) < UINT64_MAX ->
  (exists p' q' ev, producer_step (sy_producer s) (sy_queue s) = Some (p', q', ev) /\
     (sy_producer s = PIdle \/ (producer_left p' < producer_left (sy_producer s) <= 10)%nat)) /\
  (exists c' q' ev, consumer_step (sy_consumer s) (sy_queue s) = Some (c', q', ev) /\
     (sy_consumer s = CIdle \/ (consumer_left c' < consumer_left (sy_consumer s) <= 10)%nat)).
Proof.
  intros Hf Hs Hn. destruct (ring_reachable k q tr s Hf Hs Hn) as (l & _ & H & Hw). destruct s as [q1 p c]. simpl in *.
  destruct (producer_simulates k q1 p c l) as (p' & q2 & ev & Ep & _); [unfold UINT64_MAX in Hn; lia|done|].
  destruct (consumer_simulates k q1 p c l H) as (c' & q3 & ev' & Ec & _).
  assert (forall i sr ds todo, copying sr ds (i ++ todo) -> (length (i ++ todo) <= 7)%nat) as Hcopy.
  { intros i sr ds todo (_ & done & Hd & _). apply (f_equal length) in Hd. rewrite length_app in Hd. simpl in Hd. lia. }
  split.
  - exists p', q2, ev. split; [done|]. apply producer_step_left in Ep as [|]; [by left|right]. split; [done|].
    destruct H as [_ _ _ _ _ _ Hp _]. destruct p as [| | |item w todo]; simpl in *; try lia.
    destruct Hp as (_ & _ & _ & slot & _ & Hc). apply (Hcopy []) in Hc. simpl in Hc. lia.
  - exists c', q3, ev'. split; [done|]. apply consumer_step_left in Ec as [|]; [by left|right]. split; [done|].
    destruct H as [_ _ _ _ _ _ _ Hp]. destruct c as [| | |item w todo]; simpl in *; try lia.
    destruct Hp as (_ & _ & slot & _ & _ & Hc). apply (Hcopy []) in Hc. simpl in Hc. lia.
Qed.

Lemma ring_wait_free_witness :
  exists p' q' ev, producer_step (PCalled demo_node) demo_queue = Some (p', q', ev).
Proof.
  destruct (ring_wait_free 0 demo_queue [] (mkSystem demo_queue (PCalled demo_node) CIdle)) as [(p' & q' & ev & E & _) _].
  - apply demo_fresh.
  - apply steps_one, step_call_push, demo_node_ok.
  - reflexivity.
  - exists p', q', ev. exact E.
Defined.

(** [lfq_push] and [lfq_pop] are their sequences of memory accesses run
    without interruption: ten steps of the producer (the consumer) end the
    call, with the queue, the result and the undefined cases of the function. *)
Theorem calls_are_their_accesses q item :
  run_producer 10 (PCalled item) q =
    match lfq_push (Some q) (Some item) with
    | Some (b, Some q') => Some (PIdle, q', [if b then Pushed (view item) else Full])
    | _ => None
    end /\
  run_consumer 10 (CCalled item) q =
    match lfq_pop (Some q) (Some item) with
    | Some (b, Some item', Some q') => Some (CIdle, q', [if b then Popped (view item') else Empty])
    | _ => None
    end.
Proof. split; [apply push_runs|apply pop_runs]. Qed.

(** For every 32-bit capacity request above zero that is at most 2^31 the
    queue has the least power of two of slots not below it; above 2^31 the
    rounding overflows to zero, and the queue that is returned refuses every
    packet. *)
Theorem create_capacity malloc_buffer n q :
  0 < n < 2 ^ 32 -> lfq_create true malloc_buffer n = Some q ->
  lq_capacity q = (if n <=? 2 ^ 31 then 2 ^ Z.log2_up n else 0) /\
  lq_mask q = u32 (lq_capacity q - 1) /\
  (2 ^ 31 < n -> forall item, lfq_push (Some q) item = Some (false, Some q)).
Proof.
  intros Hn. unfold lfq_create. destruct (Z.eqb_spec n 0); [lia|]. simpl.
  destruct (malloc_buffer _) as [b|] eqn:E; [|done]. intros [= <-]. simpl.
  rewrite next_power_of_2_value by done. split_and!; [done|done|].
  intros Hbig [item|]; [|done]. destruct (Z.leb_spec n (2 ^ 31)); [lia|]. done.
Qed.

Lemma create_capacity_witness :
  exists q, lfq_create true (fun _ => Some []) 3000000000 = Some q /\
    lfq_push (Some q) (Some demo_node) = Some (false, Some q).
Proof.
  eexists. split; [reflexivity|].
  apply (create_capacity (fun _ => Some []) 3000000000); [lia|reflexivity|lia].
Defined.
