(* ===== verification/Json.v ===== *)
(** * What the program relies on from RapidJSON

    The configuration loaders and the HTTP handlers read JSON documents through
    RapidJSON, which is vendored.  [Json] has the calls they make; its laws are
    the documented ranges of [IsInt] and [IsInt64].  [Tree] is a concrete
    document type on which the theorems' witnesses run. *)

From S2P Require Import Prelude.

(** [json_parse] is [Document::Parse] with [HasParseError]; [find_member] is
    [HasMember] followed by [operator[]] on an object; [as_string] is [IsString]
    followed by [GetString] as a C string, and so on for the other types. *)
Class Json (V : Type) := {
  json_parse : string -> option V;
  is_object : V -> bool;
  find_member : V -> string -> option V;
  members : V -> list (string * V);
  as_array : V -> option (list V);
  as_string : V -> option string;
  as_int : V -> option Z;
  as_int64 : V -> option Z;
  as_bool : V -> option bool;

  as_int_range v z : as_int v = Some z -> - 2 ^ 31 <= z < 2 ^ 31;
  as_int64_range v z : as_int64 v = Some z -> - 2 ^ 63 <= z < 2 ^ 63;
}.

Section Read.
Context {V : Type} `{Json V}.

(** [if (doc.HasMember(key) && doc[key].IsT()) x = doc[key].GetT();] *)
Definition read {A} (as_ : V -> option A) (doc : V) (key : string) (x : A) : A :=
  default x (find_member doc key ≫= as_).

(** [doc.HasMember(key) && doc[key].IsObject()] *)
Definition section (doc : V) (key : string) : option V :=
  v ← find_member doc key; if is_object v then Some v else None.

(** [GetInt] assigned to an unsigned member: a negative number wraps. *)
Definition as_uint (v : V) : option Z := u32 <$> as_int v.
Definition as_ulong (v : V) : option Z := u64 <$> as_int v.

Lemma read_int_range doc key x (P : Z -> Prop) :
  (forall z, - 2 ^ 31 <= z < 2 ^ 31 -> P z) -> P x -> P (read as_int doc key x).
Proof.
  intros Hr Hx. unfold read. destruct (find_member doc key ≫= as_int) as [z|] eqn:E; [|done].
  apply bind_Some in E as (v & _ & E). by apply Hr, as_int_range with v.
Qed.

Lemma read_absent {A} (as_ : V -> option A) doc key x : find_member doc key = None -> read as_ doc key x = x.
Proof. unfold read. by intros ->. Qed.

Lemma read_present {A} (as_ : V -> option A) doc key x v a :
  find_member doc key = Some v -> as_ v = Some a -> read as_ doc key x = a.
Proof. unfold read. intros -> E. simpl. by rewrite E. Qed.
End Read.

#[global] Arguments read : simpl never.

(** ** A concrete document type *)

Inductive tree :=
  | TNull
  | TBool (b : bool)
  | TNum (z : Z)
  | TStr (s : string)
  | TArr (l : list tree)
  | TObj (l : list (string * tree)).

Definition tree_member (t : tree) (key : string) : option tree :=
  match t with TObj l => snd <$> find (fun kv => String.eqb (fst kv) key) l | _ => None end.

Definition int_within (bits : Z) (t : tree) : option Z :=
  match t with
  | TNum z => if (- 2 ^ (bits - 1) <=? z) && (z <? 2 ^ (bits - 1)) then Some z else None
  | _ => None
  end.

Lemma int_within_range bits t z : int_within bits t = Some z -> - 2 ^ (bits - 1) <= z < 2 ^ (bits - 1).
Proof.
  destruct t as [| |z0| | |]; simpl; try done. destruct (_ && _) eqn:E; [|done]. intros [= <-]. zbool. lia.
Qed.

(** Parsing as a table from texts to documents. *)
Definition tree_json (parse : string -> option tree) : Json tree.
Proof.
  refine {|
    json_parse := parse;
    is_object t := match t with TObj _ => true | _ => false end;
    find_member := tree_member;
    members t := match t with TObj l => l | _ => [] end;
    as_array t := match t with TArr l => Some l | _ => None end;
    as_string t := match t with TStr s => Some s | _ => None end;
    as_int := int_within 32;
    as_int64 := int_within 64;
    as_bool t := match t with TBool b => Some b | _ => None end;
    as_int_range := int_within_range 32;
    as_int64_range := int_within_range 64;
  |}.
Defined.
