(* ===== verification/Config.v ===== *)
(** * Configuration files (rxserverconfig.cpp, rxstrategyconfig.cpp, [reload_mgr])

    The server configuration and its log path, the strategy configuration with
    the sample modules and the protocol table, and the pair of strategy objects
    that a reload swaps.  Files and documents are parameters: [read_file] gives
    the content of a file that opens, [mod_time] what [stat] reports. *)

From S2P Require Import Prelude CppString TaskTypes Messages ProcData Cleanup Json.

(** ** Server configuration *)

Record LogConfig := mkLogConfig { lc_path : string; lc_prefix : string; lc_size_mb : Z; lc_level : Z }.

Definition LOG_LEVEL_DEBUG : Z := 31.

Definition new_log_config : LogConfig := mkLogConfig "logs/rxtracenetcap.log" "rxtrace" 100 LOG_LEVEL_DEBUG.

Record CaptureConfig := mkCaptureConfig {
  ca_default_interface : string;
  ca_default_duration : Z;
  ca_default_category : string;
  ca_file_pattern : string;
  ca_max_file_size_mb : Z;
}.

Definition new_capture_config : CaptureConfig :=
  mkCaptureConfig "any" 60 "diag" "{day}/{date}-{iface}-{proc}-{port}.pcap" 200.

(** [StorageConfig]; the members the cleanup thread reads are [ss_temp]. *)
Record ServerStorage := mkServerStorage {
  ss_base_dir : string;
  ss_max_age_days : Z;
  ss_max_size_gb : Z;
  ss_temp : StorageConfig;
}.

Definition new_server_storage : ServerStorage :=
  mkServerStorage "/var/log/rxtrace/captures" 7 100 new_storage_config.

Record CRxServerConfig := mkServer {
  sv_log_config : LogConfig;
  sv_capture : CaptureConfig;
  sv_storage : ServerStorage;
  sv_cleanup : CleanupConfig;
  sv_max_concurrent_captures : Z;
  sv_log_path : string;
  sv_bind_addr : string;
  sv_port : Z;
  sv_workers : Z;
  sv_capture_threads : Z;
  sv_strategy_path : string;
  sv_loaded_path : string;
}.

Definition add_option (amp : string) (options text : string) : string :=
  options +:+ (if is_empty options then amp else "&") +:+ text.

Definition log_path_of (c : LogConfig) : string :=
  let config := if is_empty (lc_path c) then "logs/rxtracenetcap.log" else lc_path c in
  let amp := if has_char "?" config then "&" else "?" in
  let options := "" in
  let options := if is_empty (lc_prefix c) then options else add_option amp options ("prefix=" +:+ lc_prefix c) in
  let options :=
    if 0 <? lc_size_mb c then add_option amp options ("size_mb=" +:+ fmt_u (lc_size_mb c)) else options in
  let options := if 0 <? lc_level c then add_option amp options ("level=" +:+ fmt_d (lc_level c)) else options in
  if is_empty options then config else config +:+ options.

Definition update_log_path (c : CRxServerConfig) : CRxServerConfig :=
  c <| sv_log_path := log_path_of (sv_log_config c) |>.

(** The constructor without arguments. *)
Definition init_defaults : CRxServerConfig :=
  update_log_path
    (mkServer new_log_config new_capture_config new_server_storage new_cleanup_config 8 ""
       "0.0.0.0" 8080 2 4 "config/strategy.json" "").

Definition file_name (path : string) : string :=
  match rfind_char "/" path with Some i => str_drop (S i) path | None => path end.

Definition deduce_path_from_argv (argv0 : option string) : string :=
  let base := match argv0 with Some a => file_name a | None => "rxtracenetcap" end in
  let base_name := if is_empty base then "rxtracenetcap" else base in
  let base_name := match rfind_char "." base_name with Some dot => str_take dot base_name | None => base_name end in
  let base_name := if is_empty base_name then "rxtracenetcap" else base_name in
  "config/" +:+ base_name +:+ ".json".

Section Load.
Context {V : Type} `{Json V}.
Variable read_file : string -> option string.
Variable mod_time : string -> option Z.

(** The content of the file parsed as an object. *)
Definition load_object (path : string) : option V :=
  content ← read_file path; doc ← json_parse content; if is_object doc then Some doc else None.

(** [if (doc.HasMember(name) && doc[name].IsObject()) { ... }] *)
Definition in_section {A} (doc : V) (name : string) (f : V -> A -> A) (x : A) : A :=
  match section doc name with Some sub => f sub x | None => x end.

Definition load_server (v : V) (c : CRxServerConfig) : CRxServerConfig :=
  c <| sv_bind_addr := read as_string v "bind_addr" (sv_bind_addr c) |>
    <| sv_port := read as_int v "port" (sv_port c) |>
    <| sv_workers := read as_int v "workers" (sv_workers c) |>
    <| sv_capture_threads := read as_int v "capture_threads" (sv_capture_threads c) |>.

Definition load_logging (v : V) (l : LogConfig) : LogConfig :=
  mkLogConfig (read as_string v "log_path" (lc_path l)) (read as_string v "log_prefix" (lc_prefix l))
    (read as_uint v "log_size_mb" (lc_size_mb l)) (read as_int v "log_level" (lc_level l)).

Definition load_capture (v : V) (c : CaptureConfig) : CaptureConfig :=
  mkCaptureConfig (read as_string v "default_interface" (ca_default_interface c))
    (read as_int v "default_duration" (ca_default_duration c))
    (read as_string v "default_category" (ca_default_category c))
    (read as_string v "file_pattern" (ca_file_pattern c))
    (read as_int v "max_file_size_mb" (ca_max_file_size_mb c)).

Definition load_storage (v : V) (s : ServerStorage) : ServerStorage :=
  mkServerStorage (read as_string v "base_dir" (ss_base_dir s))
    (read as_int v "max_age_days" (ss_max_age_days s))
    (read as_int v "max_size_gb" (ss_max_size_gb s))
    (mkStorageConfig (read as_string v "temp_pdef_dir" (st_temp_pdef_dir (ss_temp s)))
       (read as_int v "temp_pdef_ttl_hours" (st_temp_pdef_ttl_hours (ss_temp s)))).

Definition load_cleanup (v : V) (c : CleanupConfig) : CleanupConfig :=
  mkCleanupConfig (read as_int v "compress_interval_sec" (cc_compress_interval_sec c))
    (read as_uint v "batch_compress_file_count" (cc_batch_compress_file_count c))
    (read as_ulong v "batch_compress_size_mb" (cc_batch_compress_size_mb c))
    (read as_string v "archive_dir" (cc_archive_dir c))
    (read as_int v "archive_keep_days" (cc_archive_keep_days c))
    (read as_ulong v "archive_max_total_size_mb" (cc_archive_max_total_size_mb c))
    (read as_bool v "archive_remove_source" (cc_archive_remove_source c)).

Definition load_from_path (path : string) (c : CRxServerConfig) : bool * CRxServerConfig :=
  match load_object path with
  | None => (false, c)
  | Some doc =>
      let c := in_section doc "server" load_server c in
      let c := c <| sv_log_config := in_section doc "logging" load_logging (sv_log_config c) |> in
      let c := c <| sv_capture := in_section doc "capture" load_capture (sv_capture c) |> in
      let c := c <| sv_storage := in_section doc "storage" load_storage (sv_storage c) |> in
      let c := c <| sv_cleanup := in_section doc "cleanup" load_cleanup (sv_cleanup c) |> in
      let c := c <| sv_max_concurrent_captures :=
        in_section doc "limits" (fun v => read as_int v "max_concurrent_captures") (sv_max_concurrent_captures c) |> in
      (true, update_log_path (c <| sv_loaded_path := path |>))
  end.

Definition load_from_process (argv0 : option string) (c : CRxServerConfig) : bool * CRxServerConfig :=
  match load_from_path (deduce_path_from_argv argv0) c with
  | (true, c) => (true, c)
  | (false, c) => load_from_path "config/rxtracenetcap.json" c
  end.

(** The constructor with [argv0]. *)
Definition new_server_config (argv0 : option string) : CRxServerConfig :=
  match argv0 with
  | Some a =>
      match load_from_path a init_defaults with
      | (true, c) => c
      | (false, c) => snd (load_from_process argv0 c)
      end
  | None => snd (load_from_process None init_defaults)
  end.

(** ** Strategy configuration *)

Record SRxThresholds := mkThresholds { th_cpu_pct_gt : Z; th_mem_pct_gt : Z; th_net_rx_kbps_gt : Z }.

Definition new_thresholds : SRxThresholds := mkThresholds 85 90 8000.

Record CRxSampleModule := mkModule {
  md_name : string;
  md_cpu_pct_gt : Z;
  md_mem_pct_gt : Z;
  md_net_rx_kbps_gt : Z;
  md_capture_hint : string;
  md_capture_duration_sec : Z;
  md_cooldown_sec : Z;
  md_capture_category : string;
}.

Definition has_thresholds (m : CRxSampleModule) : bool :=
  (0 <? md_cpu_pct_gt m) || (0 <? md_mem_pct_gt m) || (0 <? md_net_rx_kbps_gt m).

Record SRxLogging := mkLogging { lg_log_path : string; lg_prefix : string; lg_max_file_size_mb : Z; lg_log_level : Z }.

Definition new_logging : SRxLogging := mkLogging "logs" "rxtrace" 100 16.

(** The whole [CRxStrategyConfigManager]; the capture threads read [sy_base]. *)
Record strategy := mkStrategyObject {
  sy_base : CRxStrategyConfigManager;
  sy_thresholds : SRxThresholds;
  sy_sample_modules : list CRxSampleModule;
  sy_logging : SRxLogging;
  sy_protocol_pdefs : gmap string string;
  sy_config_path : string;
  sy_last_load_time : Z;
}.

Definition new_strategy_object : strategy :=
  mkStrategyObject new_strategy new_thresholds [] new_logging ∅ "" 0.

Definition strategy_init (path : string) (s : strategy) : strategy := s <| sy_config_path := path |>.

Definition query_mod_time (path : string) : Z := default (-1) (mod_time path).

(** The defaults the server configuration provides. *)
Definition server_defaults (conf : option CRxServerConfig) (d : SRxDefaults) : SRxDefaults :=
  match conf with
  | Some c =>
      let cap := sv_capture c in
      mkDefaults (ca_default_interface cap) (ca_default_duration cap) (ca_default_category cap)
        (ca_file_pattern cap) (ca_max_file_size_mb cap * 1024 * 1024)
  | None => d
  end.

Definition server_storage (conf : option CRxServerConfig) (s : SRxStorage) : SRxStorage :=
  match conf with
  | Some c =>
      let stor := sv_storage c in
      s <| so_base_dir := ss_base_dir stor |> <| so_max_age_days := ss_max_age_days stor |>
        <| so_max_size_gb := ss_max_size_gb stor |>
  | None => s
  end.

Definition load_module (d : SRxDefaults) (v : V) : CRxSampleModule :=
  let duration := read as_int v "capture_duration_sec" (df_duration_sec d) in
  mkModule (read as_string v "name" "") (read as_int v "cpu_pct_gt" 0) (read as_int v "mem_pct_gt" 0)
    (read as_int v "net_rx_kbps_gt" 0) (read as_string v "trigger_capture" "")
    (if duration <=? 0 then df_duration_sec d else duration) (read as_int v "cooldown_sec" 0)
    (read as_string v "capture_category" "").

Fixpoint load_triggers (d : SRxDefaults) (l : list V) : list CRxSampleModule :=
  match l with
  | [] => []
  | v :: l =>
      if negb (is_object v) then load_triggers d l
      else
        let m := load_module d v in
        if has_thresholds m then m :: load_triggers d l else load_triggers d l
  end.

(** A later member of the same name wins. *)
Fixpoint load_protocols (l : list (string * V)) (m : gmap string string) : gmap string string :=
  match l with
  | [] => m
  | (name, v) :: l =>
      match as_string v with
      | Some path => load_protocols l (if is_empty path then m else <[name := path]> m)
      | None => load_protocols l m
      end
  end.

Definition load_thresholds (v : V) (t : SRxThresholds) : SRxThresholds :=
  mkThresholds (read as_int v "cpu_pct_gt" (th_cpu_pct_gt t)) (read as_int v "mem_pct_gt" (th_mem_pct_gt t))
    (read as_int v "net_rx_kbps_gt" (th_net_rx_kbps_gt t)).

Definition load_internal (conf : option CRxServerConfig) (path : string) (s : strategy) : bool * strategy :=
  match load_object path with
  | None => (false, s)
  | Some doc =>
      let base := sy_base s in
      let defaults := server_defaults conf (sc_defaults base) in
      let sample := section doc "sample" in
      let limits :=
        match sample with
        | Some v => (sc_limits base) <| lm_queue_capacity := read as_int v "worker_queue_size" (lm_queue_capacity (sc_limits base)) |>
        | None => sc_limits base
        end in
      let thresholds := match sample with Some v => load_thresholds v (sy_thresholds s) | None => sy_thresholds s end in
      let triggers := v ← sample; t ← find_member v "triggers"; as_array t in
      let modules := load_triggers defaults (default [] triggers) in
      let storage := server_storage conf (sc_storage base) in
      let protocols := match section doc "protocols" with Some v => load_protocols (members v) ∅ | None => ∅ end in
      (true, mkStrategyObject (mkStrategy defaults limits storage) thresholds modules (sy_logging s) protocols
               (sy_config_path s) (query_mod_time path))
  end.

(** Everything but the path moves from the temporary object. *)
Definition take_over (temp s : strategy) : strategy := temp <| sy_config_path := sy_config_path s |>.

Definition strategy_load (conf : option CRxServerConfig) (s : strategy) : Z * strategy :=
  if is_empty (sy_config_path s) then (-1, s)
  else
    match load_internal conf (sy_config_path s) new_strategy_object with
    | (false, _) => (-1, s)
    | (true, temp) => (0, take_over temp s)
    end.

Definition strategy_reload (conf : option CRxServerConfig) (s : strategy) : Z * strategy :=
  if is_empty (sy_config_path s) then (-1, s)
  else
    match load_internal conf (sy_config_path s) new_strategy_object with
    | (false, _) => (-1, s)
    | (true, temp) => (0, take_over temp s)
    end.

Definition strategy_need_reload (s : strategy) : bool :=
  if is_empty (sy_config_path s) then false
  else
    let current := query_mod_time (sy_config_path s) in
    (0 <? current) && negb (current =? sy_last_load_time s).

Definition strategy_destroy (s : strategy) : strategy := new_strategy_object.

Definition get_protocol_pdef_path (s : strategy) (protocol_name : string) : string :=
  default "" (sy_protocol_pdefs s !! protocol_name).

(** ** The pair of strategy objects ([reload_mgr] and [CRxProcData]) *)

Record reload_mgr := mkReload { rl_objects : strategy * strategy; rl_curr : bool }.

Definition current (r : reload_mgr) : strategy := if rl_curr r then snd (rl_objects r) else fst (rl_objects r).
Definition idle (r : reload_mgr) : strategy := if rl_curr r then fst (rl_objects r) else snd (rl_objects r).

Definition set_current (s : strategy) (r : reload_mgr) : reload_mgr :=
  mkReload (if rl_curr r then (fst (rl_objects r), s) else (s, snd (rl_objects r))) (rl_curr r).
Definition set_idle (s : strategy) (r : reload_mgr) : reload_mgr :=
  mkReload (if rl_curr r then (s, snd (rl_objects r)) else (fst (rl_objects r), s)) (rl_curr r).

(** [CRxProcData::init] *)
Definition proc_init (conf : option CRxServerConfig) : reload_mgr :=
  let path := match conf with Some c => sv_strategy_path c | None => "" end in
  mkReload (strategy_init path new_strategy_object, strategy_init path new_strategy_object) false.

Definition mgr_load (conf : option CRxServerConfig) (r : reload_mgr) : Z * reload_mgr :=
  let '(rc, s) := strategy_load conf (current r) in
  (if rc =? 0 then 0 else -1, set_current s r).

Definition mgr_need_reload (r : reload_mgr) : bool := strategy_need_reload (current r).

Definition mgr_reload (conf : option CRxServerConfig) (r : reload_mgr) : Z * reload_mgr :=
  let '(rc, s) := strategy_reload conf (idle r) in
  let r := set_idle s r in
  if rc =? 0 then (0, mkReload (rl_objects r) (negb (rl_curr r))) else (-1, r).

(** [CRxProcData::reload], called by the reload thread's timer every second. *)
Definition proc_reload (conf : option CRxServerConfig) (r : reload_mgr) : Z * reload_mgr :=
  if mgr_need_reload r then (1, snd (mgr_reload conf r)) else (0, r).

Definition proc_destroy_idle (conf : option CRxServerConfig) (r : reload_mgr) : reload_mgr :=
  match conf with Some _ => set_idle (strategy_destroy (idle r)) r | None => r end.
End Load.

(** ** Ranges *)

Definition int_range (z : Z) : Prop := - 2 ^ 31 <= z < 2 ^ 31.

(** Every member is a value of its C type. *)
Record server_ok (c : CRxServerConfig) : Prop := {
  so_size : 0 <= lc_size_mb (sv_log_config c) < 2 ^ 32;
  so_level : int_range (lc_level (sv_log_config c));
  so_duration : int_range (ca_default_duration (sv_capture c));
  so_file_mb : int_range (ca_max_file_size_mb (sv_capture c));
  so_age : int_range (ss_max_age_days (sv_storage c));
  so_gb : int_range (ss_max_size_gb (sv_storage c));
  so_ttl : int_range (st_temp_pdef_ttl_hours (ss_temp (sv_storage c)));
  so_interval : int_range (cc_compress_interval_sec (sv_cleanup c));
  so_count : 0 <= cc_batch_compress_file_count (sv_cleanup c) < 2 ^ 32;
  so_batch : 0 <= cc_batch_compress_size_mb (sv_cleanup c) < 2 ^ 64;
  so_keep : int_range (cc_archive_keep_days (sv_cleanup c));
  so_total : 0 <= cc_archive_max_total_size_mb (sv_cleanup c) < 2 ^ 64;
  so_concurrent : int_range (sv_max_concurrent_captures c);
  so_port : int_range (sv_port c);
  so_workers : int_range (sv_workers c);
  so_threads : int_range (sv_capture_threads c);
}.

Lemma init_defaults_ok : server_ok init_defaults.
Proof. constructor; unfold int_range; simpl; unfold LOG_LEVEL_DEBUG; lia. Qed.

Section Ranges.
Context {V : Type} `{Json V}.

Lemma read_int_ok doc key x : int_range x -> int_range (read as_int doc key x).
Proof. intros Hx. by apply read_int_range. Qed.

Lemma read_uint_ok doc key x : 0 <= x < 2 ^ 32 -> 0 <= read as_uint doc key x < 2 ^ 32.
Proof.
  unfold read, as_uint. intros Hx. destruct (find_member doc key) as [v|]; simpl; [|done].
  destruct (as_int v); simpl; auto with cint.
Qed.

Lemma read_ulong_ok doc key x : 0 <= x < 2 ^ 64 -> 0 <= read as_ulong doc key x < 2 ^ 64.
Proof.
  unfold read, as_ulong. intros Hx. destruct (find_member doc key) as [v|]; simpl; [|done].
  destruct (as_int v); simpl; auto with cint.
Qed.

Lemma in_section_ok {A} (P : A -> Prop) doc name f x :
  P x -> (forall v, P x -> P (f v x)) -> P (in_section (H := H) doc name f x).
Proof. unfold in_section. destruct (section doc name); auto. Qed.

Lemma load_from_path_ok read_file path c b c' :
  server_ok c -> load_from_path (H := H) read_file path c = (b, c') -> server_ok c'.
Proof.
  intros Hc. unfold load_from_path. destruct (load_object read_file path) as [doc|]; intros [= <- <-]; [|done].
  destruct Hc. unfold in_section.
  destruct (section doc "server"), (section doc "logging"), (section doc "capture"), (section doc "storage"),
    (section doc "cleanup"), (section doc "limits"); constructor; simpl; unfold constant;
    auto using read_int_ok, read_uint_ok, read_ulong_ok.
Qed.
End Ranges.

(** ** Sample modules *)

Definition module_ok (d : SRxDefaults) (m : CRxSampleModule) : Prop :=
  has_thresholds m = true /\ (0 < md_capture_duration_sec m \/ md_capture_duration_sec m = df_duration_sec d).

Section Modules.
Context {V : Type} `{Json V}.

Lemma load_module_duration d (v : V) :
  0 < md_capture_duration_sec (load_module d v) \/ md_capture_duration_sec (load_module d v) = df_duration_sec d.
Proof.
  unfold load_module. simpl. destruct (Z.leb_spec (read as_int v "capture_duration_sec" (df_duration_sec d)) 0); auto.
Qed.

Lemma load_triggers_ok d (l : list V) : Forall (module_ok d) (load_triggers d l).
Proof.
  induction l as [|v l IH]; simpl; [constructor|]. destruct (is_object v); simpl; [|done].
  destruct (has_thresholds (load_module d v)) eqn:E; [|done].
  constructor; [|done]. split; [done|apply load_module_duration].
Qed.

(** The modules are the triggers that are objects with a threshold, in order. *)
Lemma load_triggers_filter d (l : list V) :
  load_triggers d l = filter (fun m => has_thresholds m = true) (load_module d <$> filter (fun v => is_object v = true) l).
Proof.
  induction l as [|v l IH]; [done|]. simpl. destruct (is_object v) eqn:E; simpl.
  - rewrite filter_cons_True by done. simpl. destruct (has_thresholds (load_module d v)) eqn:Em.
    + rewrite filter_cons_True by done. by rewrite IH.
    + rewrite filter_cons_False by congruence. done.
  - rewrite filter_cons_False by congruence. done.
Qed.
End Modules.

(** ** Reloading *)

Section Reload.
Context {V : Type} `{Json V}.
Variable read_file : string -> option string.
Variable mod_time : string -> option Z.
Variable conf : option CRxServerConfig.

(** Both objects were initialised with the path [p]. *)
Definition paths (p : string) (r : reload_mgr) : Prop :=
  sy_config_path (current r) = p /\ sy_config_path (idle r) = p.

(** The configuration a file gives: a function of the file and the server
    configuration only. *)
Definition loaded (p : string) : option strategy :=
  match load_internal read_file mod_time conf p new_strategy_object with
  | (true, s) => Some (s <| sy_config_path := p |>)
  | (false, _) => None
  end.

Lemma loaded_mod_time p s : loaded p = Some s -> sy_last_load_time s = query_mod_time mod_time p /\ sy_config_path s = p.
Proof.
  unfold loaded, load_internal. destruct (load_object read_file p) as [doc|]; [|done]. by intros [= <-].
Qed.

Lemma strategy_reload_loaded s :
  strategy_reload read_file mod_time conf s =
  match (if is_empty (sy_config_path s) then None else loaded (sy_config_path s)) with
  | Some s' => (0, s')
  | None => (-1, s)
  end.
Proof.
  unfold strategy_reload, loaded, take_over. destruct (is_empty (sy_config_path s)); [done|].
  by destruct (load_internal _ _ _ _ _) as [[] ?].
Qed.

Lemma idle_set_idle s r : idle (set_idle s r) = s.
Proof. by destruct r as [[? ?] []]. Qed.
Lemma current_set_idle s r : current (set_idle s r) = current r.
Proof. by destruct r as [[? ?] []]. Qed.
Lemma current_swap r : current (mkReload (rl_objects r) (negb (rl_curr r))) = idle r.
Proof. by destruct r as [[? ?] []]. Qed.
Lemma idle_swap r : idle (mkReload (rl_objects r) (negb (rl_curr r))) = current r.
Proof. by destruct r as [[? ?] []]. Qed.

Lemma mgr_reload_loaded p r :
  paths p r -> p <> "" ->
  match loaded p with
  | Some s => exists r', mgr_reload read_file mod_time conf r = (0, r') /\ current r' = s /\ idle r' = current r
  | None => mgr_reload read_file mod_time conf r = (-1, r)
  end.
Proof.
  intros [Hc Hi] Hp. unfold mgr_reload. rewrite strategy_reload_loaded, Hi.
  assert (is_empty p = false) as -> by (by destruct p).
  destruct (loaded p) as [s|]; simpl.
  - eexists. split; [done|].
    pose proof (current_swap (set_idle s r)) as Ec. pose proof (idle_swap (set_idle s r)) as Ei.
    rewrite idle_set_idle in Ec. rewrite current_set_idle in Ei. by split.
  - f_equal. by destruct r as [[? ?] []].
Qed.

Lemma need_reload_loaded p s : loaded p = Some s -> strategy_need_reload mod_time s = false.
Proof.
  intros E. apply loaded_mod_time in E as [Et Ep]. unfold strategy_need_reload. rewrite Et, Ep.
  destruct (is_empty p); [done|]. rewrite Z.eqb_refl. apply andb_false_r.
Qed.
End Reload.

(** ** A document for a configuration *)

Definition logging_tree (l : LogConfig) : tree :=
  TObj [("log_path", TStr (lc_path l)); ("log_prefix", TStr (lc_prefix l));
        ("log_size_mb", TNum (lc_size_mb l)); ("log_level", TNum (lc_level l))].

Definition capture_tree (c : CaptureConfig) : tree :=
  TObj [("default_interface", TStr (ca_default_interface c)); ("default_duration", TNum (ca_default_duration c));
        ("default_category", TStr (ca_default_category c)); ("file_pattern", TStr (ca_file_pattern c));
        ("max_file_size_mb", TNum (ca_max_file_size_mb c))].

Definition storage_tree (s : ServerStorage) : tree :=
  TObj [("base_dir", TStr (ss_base_dir s)); ("max_age_days", TNum (ss_max_age_days s));
        ("max_size_gb", TNum (ss_max_size_gb s)); ("temp_pdef_dir", TStr (st_temp_pdef_dir (ss_temp s)));
        ("temp_pdef_ttl_hours", TNum (st_temp_pdef_ttl_hours (ss_temp s)))].

Definition cleanup_tree (c : CleanupConfig) : tree :=
  TObj [("compress_interval_sec", TNum (cc_compress_interval_sec c));
        ("batch_compress_file_count", TNum (cc_batch_compress_file_count c));
        ("batch_compress_size_mb", TNum (cc_batch_compress_size_mb c)); ("archive_dir", TStr (cc_archive_dir c));
        ("archive_keep_days", TNum (cc_archive_keep_days c));
        ("archive_max_total_size_mb", TNum (cc_archive_max_total_size_mb c));
        ("archive_remove_source", TBool (cc_archive_remove_source c))].

Definition server_tree (c : CRxServerConfig) : tree :=
  TObj [("server", TObj [("bind_addr", TStr (sv_bind_addr c)); ("port", TNum (sv_port c));
                         ("workers", TNum (sv_workers c)); ("capture_threads", TNum (sv_capture_threads c))]);
        ("logging", logging_tree (sv_log_config c)); ("capture", capture_tree (sv_capture c));
        ("storage", storage_tree (sv_storage c)); ("cleanup", cleanup_tree (sv_cleanup c));
        ("limits", TObj [("max_concurrent_captures", TNum (sv_max_concurrent_captures c))])].

(** The unsigned members that a JSON [int] can hold. *)
Definition counts_fit (c : CRxServerConfig) : Prop :=
  lc_size_mb (sv_log_config c) < 2 ^ 31 /\ cc_batch_compress_file_count (sv_cleanup c) < 2 ^ 31 /\
  cc_batch_compress_size_mb (sv_cleanup c) < 2 ^ 31 /\ cc_archive_max_total_size_mb (sv_cleanup c) < 2 ^ 31.

Section Printed.
Variable parse : string -> option tree.
#[local] Instance printed_json : Json tree := tree_json parse.

Lemma int_within_int z : int_range z -> int_within 32 (TNum z) = Some z.
Proof.
  unfold int_range, int_within. intros Hz. change (32 - 1) with 31.
  destruct (Z.leb_spec (- 2 ^ 31) z), (Z.ltb_spec z (2 ^ 31)); try lia. done.
Qed.

Lemma member_num l key z x :
  find (fun kv => String.eqb (fst kv) key) l = Some (key, TNum z) -> int_range z ->
  read as_int (TObj l) key x = z.
Proof.
  intros E Hz. apply read_present with (TNum z); [simpl; by rewrite E|by apply int_within_int].
Qed.

Lemma member_uint l key z x :
  find (fun kv => String.eqb (fst kv) key) l = Some (key, TNum z) -> 0 <= z < 2 ^ 31 ->
  read as_uint (TObj l) key x = z.
Proof.
  intros E Hz. apply read_present with (TNum z); [simpl; by rewrite E|]. unfold as_uint.
  change (as_int (TNum z)) with (int_within 32 (TNum z)). rewrite int_within_int by (unfold int_range; lia).
  simpl. by rewrite u32_small by lia.
Qed.

Lemma member_ulong l key z x :
  find (fun kv => String.eqb (fst kv) key) l = Some (key, TNum z) -> 0 <= z < 2 ^ 31 ->
  read as_ulong (TObj l) key x = z.
Proof.
  intros E Hz. apply read_present with (TNum z); [simpl; by rewrite E|]. unfold as_ulong.
  change (as_int (TNum z)) with (int_within 32 (TNum z)). rewrite int_within_int by (unfold int_range; lia).
  simpl. by rewrite u64_small by lia.
Qed.

Lemma member_str l key s x :
  find (fun kv => String.eqb (fst kv) key) l = Some (key, TStr s) -> read as_string (TObj l) key x = s.
Proof. intros E. apply read_present with (TStr s); [simpl; by rewrite E|done]. Qed.

Lemma member_bool l key b x :
  find (fun kv => String.eqb (fst kv) key) l = Some (key, TBool b) -> read as_bool (TObj l) key x = b.
Proof. intros E. apply read_present with (TBool b); [simpl; by rewrite E|done]. Qed.

Ltac read_members :=
  repeat (erewrite member_str by reflexivity); repeat (erewrite member_bool by reflexivity);
  repeat (erewrite member_num by (reflexivity || done)); repeat (erewrite member_uint by (reflexivity || lia));
  repeat (erewrite member_ulong by (reflexivity || lia)).

Lemma logging_printed l x :
  0 <= lc_size_mb l < 2 ^ 31 -> int_range (lc_level l) -> load_logging (logging_tree l) x = l.
Proof. intros. unfold load_logging, logging_tree. read_members. by destruct l. Qed.

Lemma capture_printed c x :
  int_range (ca_default_duration c) -> int_range (ca_max_file_size_mb c) -> load_capture (capture_tree c) x = c.
Proof. intros. unfold load_capture, capture_tree. read_members. by destruct c. Qed.

Lemma storage_printed s x :
  int_range (ss_max_age_days s) -> int_range (ss_max_size_gb s) -> int_range (st_temp_pdef_ttl_hours (ss_temp s)) ->
  load_storage (storage_tree s) x = s.
Proof. intros. unfold load_storage, storage_tree. read_members. by destruct s as [? ? ? []]. Qed.

Lemma cleanup_printed c x :
  int_range (cc_compress_interval_sec c) -> 0 <= cc_batch_compress_file_count c < 2 ^ 31 ->
  0 <= cc_batch_compress_size_mb c < 2 ^ 31 -> int_range (cc_archive_keep_days c) ->
  0 <= cc_archive_max_total_size_mb c < 2 ^ 31 -> load_cleanup (cleanup_tree c) x = c.
Proof. intros. unfold load_cleanup, cleanup_tree. read_members. by destruct c. Qed.

Lemma load_printed read_file path c :
  server_ok c -> counts_fit c -> sv_strategy_path c = "config/strategy.json" ->
  read_file path ≫= parse = Some (server_tree c) ->
  load_from_path read_file path init_defaults = (true, update_log_path (c <| sv_loaded_path := path |>)).
Proof.
  intros [] (? & ? & ? & ?) Hp E. unfold load_from_path, load_object.
  destruct (read_file path) as [content|]; [|done]. cbn in E. cbn [mbind option_bind json_parse printed_json tree_json].
  rewrite E. cbn -[load_server load_logging load_capture load_storage load_cleanup read].
  unfold load_server, constant. read_members.
  rewrite logging_printed, capture_printed, storage_printed, cleanup_printed by (done || lia).
  destruct c. simpl in *. by subst.
Qed.
End Printed.

(** ** Properties *)

Definition demo_server : CRxServerConfig :=
  init_defaults <| sv_port := 9090 |> <| sv_log_config := mkLogConfig "logs/a.log" "cap" 50 16 |>.

Definition demo_parse (content : string) : option tree :=
  if String.eqb content "server" then Some (server_tree demo_server)
  else if String.eqb content "strategy" then
    Some (TObj [("sample", TObj [("triggers", TArr [
      TObj [("name", TStr "cpu"); ("cpu_pct_gt", TNum 85); ("trigger_capture", TStr "iface:any")];
      TObj [("name", TStr "none")]])]);
      ("protocols", TObj [("http", TStr "config/protocols/http.pdef")])])
  else None.

Definition demo_files (path : string) : option string :=
  if String.eqb path "server.json" then Some "server"
  else if String.eqb path "config/strategy.json" then Some "strategy" else None.

(** The file that lists every member of a configuration loads as that
    configuration: no member is lost, swapped or read from another section, and
    the log path is rebuilt from the loaded logging section. *)
Theorem server_config_roundtrip parse read_file path c :
  server_ok c -> counts_fit c -> sv_strategy_path c = "config/strategy.json" ->
  read_file path ≫= parse = Some (server_tree c) ->
  load_from_path (H := tree_json parse) read_file path init_defaults =
    (true, c <| sv_loaded_path := path |> <| sv_log_path := log_path_of (sv_log_config c) |>).
Proof. apply load_printed. Qed.

Lemma server_config_roundtrip_witness :
  load_from_path (H := tree_json demo_parse) demo_files "server.json" init_defaults =
    (true, demo_server <| sv_loaded_path := "server.json" |>
             <| sv_log_path := "logs/a.log?prefix=cap&size_mb=50&level=16" |>).
Proof.
  rewrite (server_config_roundtrip demo_parse demo_files "server.json" demo_server).
  - reflexivity.
  - constructor; unfold int_range; vm_compute; split; (discriminate || reflexivity).
  - unfold counts_fit. vm_compute. repeat split.
  - reflexivity.
  - reflexivity.
Defined.

(** Whatever the files contain, the configuration the server starts with
    has values of its members' C types, a failed load leaves the previous
    values, and the byte limit derived from [max_file_size_mb] does not
    overflow a 64-bit [long]. *)
Theorem server_config_in_range {V} `{Json V} read_file argv0 :
  let c := new_server_config read_file argv0 in
  server_ok c /\ - 2 ^ 63 <= df_max_bytes (server_defaults (Some c) new_defaults) < 2 ^ 63 /\
  forall path c0, load_object read_file path = None -> load_from_path read_file path c0 = (false, c0).
Proof.
  intros c. assert (server_ok c) as Hc.
  { subst c. unfold new_server_config. pose proof init_defaults_ok as Hd.
    assert (forall p c0, server_ok c0 -> server_ok (snd (load_from_path read_file p c0))) as Hl.
    { intros p c0 H0. destruct (load_from_path read_file p c0) as [b c1] eqn:E. by apply (load_from_path_ok _ _ _ _ _ H0 E). }
    assert (forall c0, server_ok c0 -> server_ok (snd (load_from_process read_file argv0 c0))) as Hp.
    { intros c0 H0. unfold load_from_process. pose proof (Hl (deduce_path_from_argv argv0) c0 H0) as H1.
      destruct (load_from_path _ _ c0) as [[] c1]; [done|by apply Hl]. }
    destruct argv0 as [a|]; [|by apply Hp]. pose proof (Hl a init_defaults Hd) as H1.
    destruct (load_from_path _ a _) as [[] c1]; [done|by apply Hp]. }
  clearbody c. split; [done|]. split.
  - pose proof (so_file_mb c Hc) as Hb. unfold int_range in Hb. simpl. lia.
  - intros path c0 E. unfold load_from_path. by rewrite E.
Qed.

(** The timer's reload.  With nothing new on disk it changes nothing; a
    changed file that does not load leaves the running configuration in place,
    to be tried again; a changed file that loads becomes the current
    configuration, which depends on the file and the server configuration only
    and not on what was loaded before, and is not loaded again until the file
    changes.  Both strategy objects keep the path, so the next reload works. *)
Theorem reload_follows_file {V} `{Json V} read_file mod_time conf p r :
  paths p r -> p <> "" ->
  let r' := snd (proc_reload read_file mod_time conf r) in
  paths p r' /\
  (mgr_need_reload mod_time r = false -> r' = r) /\
  (mgr_need_reload mod_time r = true ->
   match loaded read_file mod_time conf p with
   | Some s => current r' = s /\ idle r' = current r /\ mgr_need_reload mod_time r' = false
   | None => r' = r
   end).
Proof.
  intros Hpaths Hp. pose proof (mgr_reload_loaded read_file mod_time conf p r Hpaths Hp) as Hm.
  unfold proc_reload. destruct (mgr_need_reload mod_time r) eqn:En; [|done].
  destruct (loaded read_file mod_time conf p) as [s|] eqn:El.
  - destruct Hm as (r' & E & Hcur & Hidle). rewrite E. simpl.
    apply loaded_mod_time in El as Hs. destruct Hs as [_ Hs]. split_and!; [|done|].
    + split; [by rewrite Hcur|]. rewrite Hidle. apply Hpaths.
    + intros _. split_and!; [done|done|]. unfold mgr_need_reload. rewrite Hcur. by eapply need_reload_loaded.
  - rewrite Hm. by split_and!.
Qed.

Lemma reload_follows_file_witness :
  exists s, current (snd (proc_reload (H := tree_json demo_parse) demo_files (fun _ => Some 7) (Some demo_server)
                            (proc_init (Some demo_server)))) = s /\
    get_protocol_pdef_path s "http" = "config/protocols/http.pdef" /\ sy_last_load_time s = 7.
Proof.
  destruct (reload_follows_file (H := tree_json demo_parse) demo_files (fun _ => Some 7) (Some demo_server)
              "config/strategy.json" (proc_init (Some demo_server))) as (_ & _ & Hc).
  - split; reflexivity.
  - discriminate.
  - destruct (Hc eq_refl) as [Hs _]. eexists. split; [exact Hs|]. split; vm_compute; reflexivity.
Defined.

(** The sample modules a strategy file gives are its triggers that are
    objects and define a threshold, in the order of the file; each has a
    positive capture duration unless the default duration is not positive, in
    which case that default is used. *)
Theorem sample_modules_loaded {V} `{Json V} read_file mod_time conf path s s' doc v triggers :
  load_internal read_file mod_time conf path s = (true, s') ->
  load_object read_file path = Some doc ->
  section doc "sample" = Some v -> find_member v "triggers" ≫= as_array = Some triggers ->
  sy_sample_modules s' =
    filter (fun m => has_thresholds m = true)
      (load_module (sc_defaults (sy_base s')) <$> filter (fun v => is_object v = true) triggers) /\
  Forall (module_ok (sc_defaults (sy_base s'))) (sy_sample_modules s').
Proof.
  intros E Ed Ev Et. apply bind_Some in Et as (t & Ef & Et).
  unfold load_internal in E. rewrite Ed, Ev in E. cbn [mbind option_bind] in E. rewrite Ef in E.
  cbn [mbind option_bind] in E. rewrite Et in E. injection E as <-. simpl. split; [apply load_triggers_filter|apply load_triggers_ok].
Qed.

Lemma sample_modules_loaded_witness :
  exists s', load_internal (H := tree_json demo_parse) demo_files (fun _ => Some 7) None "config/strategy.json"
               new_strategy_object = (true, s') /\
    (md_name <$> sy_sample_modules s') = ["cpu"].
Proof.
  eexists. split; [reflexivity|].
  rewrite (proj1 (sample_modules_loaded (H := tree_json demo_parse) demo_files (fun _ => Some 7) None
    "config/strategy.json" new_strategy_object _ _ _ _ eq_refl eq_refl eq_refl eq_refl)).
  vm_compute. reflexivity.
Defined.
