(* ===== verification/UrlHandlers.v ===== *)
(** * HTTP handlers (rxurlhandlers.cpp)

    The handlers behind the HTTP interface: start, stop and status of captures,
    upload, listing and download of PDEF files.  A handler answers at once by
    filling the response, or posts one message to the capture manager and leaves
    the answer to it.  [CRxProcData::instance()] never returns NULL. *)

From S2P Require Import Prelude CppString TaskTypes TaskMgr Messages Parser CaptureUtil ProcData CaptureManager Cleanup Json Config.

(** ** Requests and responses *)

Record http_req_head_para := mkReqHead { hq_url_path : string; hq_method : string }.

(** [res_head] and [*send_body]. *)
Record http_response := mkResponse {
  hs_response_code : Z;
  hs_response_str : string;
  hs_headers : gmap string string;
  hs_body : string;
}.

(** The two output pointers: [None] when either is NULL. *)
Abbreviation response := (option http_response).

Definition set_json_response (status : Z) (reason body : string) (r : response) : response :=
  match r with
  | None => None
  | Some _ =>
      Some (mkResponse status reason
              (<["Content-Length" := fmt_u (Z.of_nat (String.length body))]>
                 (<["Connection" := "close"]> (<["Content-Type" := "application/json"]> ∅))) body)
  end.

(** [set_error_response] and [set_pdef_error]. *)
Definition set_error_response (code : Z) (message : string) (r : response) : response :=
  set_json_response code (if code =? 200 then "OK" else "Error")
    ("{" +:+ smember "error" (json_escape message) +:+ "}") r.

(** What a handler leaves: whether it has answered, the response, what it
    posted. *)
Definition handled : Type := outcome (bool * response * outbox).

Definition answer (r : response) : handled := Done (true, r, []).

Definition StaticJson_perform (code : Z) (reason body : string) (r : response) : response :=
  match r with
  | None => None
  | Some s =>
      Some (mkResponse code reason
              (<["Connection" := "close"]>
                 (<["Content-Length" := fmt_u (Z.of_nat (String.length body))]>
                    (<["Content-Type" := "application/json"]> (hs_headers s)))) body)
  end.

(** [body->c_str()] as a C string: the text before the first NUL. *)
Fixpoint c_str (s : string) : string :=
  match s with
  | EmptyString => EmptyString
  | String c s' => if Ascii.eqb c "000" then EmptyString else String c (c_str s')
  end.

(** ** Query parameters *)

Definition add_param (token : string) (params : gmap string string) : gmap string string :=
  let '(key, value) :=
    match str_index "=" token with
    | None => (token, "")
    | Some eq => (str_take eq token, str_drop (S eq) token)
    end in
  if is_empty key then params else <[key := value]> params.

(** The loop over the tokens between ampersands; an empty token is skipped.
    [fuel] bounds the length of the rest. *)
Fixpoint param_loop (fuel : nat) (rest : string) (params : gmap string string) : gmap string string :=
  match fuel with
  | O => params
  | S fuel =>
      if is_empty rest then params
      else
        let '(token, rest) :=
          match str_index "&" rest with
          | None => (rest, "")
          | Some amp => (str_take amp rest, str_drop (S amp) rest)
          end in
        param_loop fuel rest (if is_empty token then params else add_param token params)
  end.

Definition parse_query_params (url : string) : gmap string string :=
  match str_index "?" url with
  | None => ∅
  | Some qpos => param_loop (String.length url) (str_drop (S qpos) url) ∅
  end.

(** ** What the handlers read *)

Record http_env := mkHttpEnv {
  he_server : option CRxServerConfig;
  he_strategy : option strategy;
  he_manager : option Z;                       (* thread index of the capture manager *)
  he_processes : string -> list SProcessInfo;  (* CRxProcessResolver::FindProcessesByName *)
  he_tasks : TaskMgr;
  he_ms : Z;
  he_clock : Z * Z;                            (* gettimeofday *)
  he_rand : Z;
}.

(** ** The capture interface *)

Definition send_to_capture_manager (e : http_env) (msg : message) (r : response) (conn_id : ObjId) : handled :=
  if obj_thread_index conn_id =? 0 then answer (set_error_response 500 "Invalid connection id" r)
  else
    match he_manager e with
    | None => answer (set_error_response 500 "No owner thread" r)
    | Some index =>
        let msg :=
          match msg with
          | MsgStartCapture m => MsgStartCapture (m <| sm_enqueue_ts_ms := he_ms e |>)
          | _ => msg
          end in
        Done (false, r, [(mkObjId OBJ_ID_THREAD index, msg)])
    end.

Section Start.
Context {V : Type} `{Json V}.

(** [if (doc.HasMember(key) && doc[key].IsT()) { ... }] *)
Definition on_member {A} (as_ : V -> option A) (doc : V) (key : string)
    (f : A -> SRxStartCaptureMsg -> SRxStartCaptureMsg) (m : SRxStartCaptureMsg) : SRxStartCaptureMsg :=
  match find_member doc key ≫= as_ with Some x => f x m | None => m end.

Definition set_mode (mode : string) (m : SRxStartCaptureMsg) : SRxStartCaptureMsg :=
  if String.eqb mode "interface" then m <| sm_capture_mode := MODE_INTERFACE |>
  else if String.eqb mode "process" then m <| sm_capture_mode := MODE_PROCESS |>
  else if String.eqb mode "pid" then m <| sm_capture_mode := MODE_PID |>
  else if String.eqb mode "container" then m <| sm_capture_mode := MODE_CONTAINER |>
  else m.

Definition start_mode (doc : V) (m : SRxStartCaptureMsg) : SRxStartCaptureMsg :=
  match find_member doc "capture_mode" ≫= as_string with
  | Some mode => set_mode mode m
  | None => on_member as_string doc "mode" set_mode m
  end.

Definition is_interface (m : SRxStartCaptureMsg) : bool := bool_decide (sm_capture_mode m = MODE_INTERFACE).

Definition set_proc_name (name : string) (m : SRxStartCaptureMsg) : SRxStartCaptureMsg :=
  let m := m <| sm_proc_name := name |> in
  if is_interface m && negb (is_empty name) then m <| sm_capture_mode := MODE_PROCESS |> else m.

Definition set_pid (pid : Z) (m : SRxStartCaptureMsg) : SRxStartCaptureMsg :=
  let m := m <| sm_target_pid := pid |> in
  if is_interface m && (0 <? pid) then m <| sm_capture_mode := MODE_PID |> else m.

Definition start_target (doc : V) (m : SRxStartCaptureMsg) : SRxStartCaptureMsg :=
  let m := start_mode doc m in
  let m := on_member as_string doc "iface" (fun s m => m <| sm_iface := s |>) m in
  let m := on_member as_string doc "proc_name" set_proc_name m in
  let m := on_member as_int doc "pid" set_pid m in
  let m := on_member as_int doc "target_pid" (fun z m => m <| sm_target_pid := z |>) m in
  on_member as_string doc "container_id" (fun s m => m <| sm_container_id := s |>) m.

(** The PDEF file of a protocol name. *)
Definition protocol_path (strategy : option strategy) (protocol_name : string) : string :=
  let pdef_path := match strategy with Some cfg => get_protocol_pdef_path cfg protocol_name | None => "" end in
  if is_empty pdef_path then "config/protocols/" +:+ protocol_name +:+ ".pdef" else pdef_path.

Definition start_filters (strategy : option strategy) (doc : V) (m : SRxStartCaptureMsg) : SRxStartCaptureMsg :=
  let m := on_member as_string doc "filter" (fun s m => m <| sm_filter := s |>) m in
  let m := on_member as_string doc "protocol" (fun s m => m <| sm_protocol_filter := protocol_path strategy s |>) m in
  let m := on_member as_string doc "protocol_filter" (fun s m => m <| sm_protocol_filter := s |>) m in
  let m := on_member as_string doc "protocol_filter_inline" (fun s m => m <| sm_protocol_filter_inline := s |>) m in
  let m := on_member as_string doc "ip" (fun s m => m <| sm_ip_filter := s |>) m in
  let m := on_member as_string doc "ip_filter" (fun s m => m <| sm_ip_filter := s |>) m in
  let m := on_member as_int doc "port" (fun z m => m <| sm_port_filter := z |>) m in
  on_member as_int doc "port_filter" (fun z m => m <| sm_port_filter := z |>) m.

Definition start_limits (doc : V) (m : SRxStartCaptureMsg) : SRxStartCaptureMsg :=
  let m := on_member as_string doc "category" (fun s m => m <| sm_category := s |>) m in
  let m := on_member as_string doc "file" (fun s m => m <| sm_file_pattern := s |>) m in
  let m := on_member as_string doc "file_pattern" (fun s m => m <| sm_file_pattern := s |>) m in
  let m := on_member as_int doc "duration" (fun z m => m <| sm_duration_sec := z |>) m in
  let m := on_member as_int64 doc "max_bytes" (fun z m => m <| sm_max_bytes := z |>) m in
  let m := on_member as_int doc "max_packets" (fun z m => m <| sm_max_packets := z |>) m in
  let m := on_member as_string doc "client_ip" (fun s m => m <| sm_client_ip := s |>) m in
  let m := on_member as_string doc "user" (fun s m => m <| sm_request_user := s |>) m in
  on_member as_string doc "request_user" (fun s m => m <| sm_request_user := s |>) m.

(** The message a document asks for; any other document leaves the defaults. *)
Definition start_request (strategy : option strategy) (doc : option V) (conn_id : ObjId) : SRxStartCaptureMsg :=
  let m := new_start_msg in
  let m :=
    match doc with
    | Some doc => if is_object doc then start_limits doc (start_filters strategy doc (start_target doc m)) else m
    | None => m
    end in
  m <| sm_reply_target := conn_id |>.

(** The parsed body: no body leaves the null document. *)
Definition parse_body (recv_body : option string) : option (option V) :=
  match recv_body with
  | Some body => if is_empty body then Some None else Some <$> json_parse (c_str body)
  | None => Some None
  end.

Definition handle_start (e : http_env) (recv_body : option string) (r : response) (conn_id : ObjId) : handled :=
  match parse_body recv_body with
  | None => answer (set_error_response 400 "Invalid JSON" r)
  | Some doc =>
      let m := start_request (he_strategy e) doc conn_id in
      if bool_decide (sm_capture_mode m = MODE_PROCESS) && negb (is_empty (sm_proc_name m))
         && bool_decide (he_processes e (sm_proc_name m) = [])
      then answer (set_json_response 404 "Not Found"
             ("{" +:+ smember "error" "process not found" +:+ ","
                +:+ smember "proc_name" (json_escape (sm_proc_name m)) +:+ "}") r)
      else send_to_capture_manager e (MsgStartCapture m) r conn_id
  end.

Definition atoi_param (params : gmap string string) (key : string) (x : Z) : Z :=
  match params !! key with Some v => atoi v | None => x end.

Definition handle_stop (e : http_env) (req : http_req_head_para) (r : response) (conn_id : ObjId) : handled :=
  let params := parse_query_params (hq_url_path req) in
  let capture_id := atoi_param params "id" 0 in
  let sid := default "" (params !! "sid") in
  let missing := answer (set_error_response 400 "Missing capture identifier" r) in
  let stop (id : Z) :=
    if id =? 0 then missing
    else send_to_capture_manager e (MsgStopCapture (mkStopMsg id conn_id)) r conn_id in
  if (capture_id =? 0) && is_empty sid then missing
  else if capture_id =? 0 then
    snapshot ← query_task_by_sid (he_tasks e) sid;
    match snapshot with
    | None => answer (set_error_response 404 "capture_not_found" r)
    | Some s => stop (sn_capture_id s)
    end
  else stop capture_id.

(** *** Status *)

Definition opt_member (key value : string) : string :=
  if is_empty value then "" else "," +:+ smember key (json_escape value).
Definition opt_number (key : string) (z : Z) : string := if 0 <? z then "," +:+ member key (fmt_d z) else "".
Definition json_bool (b : bool) : string := if b then "true" else "false".

Definition file_json (f : CaptureFileInfo) : string :=
  "{" +:+ smember "path" (json_escape (cf_file_path f)) +:+ "," +:+ member "size" (fmt_u (cf_file_size f))
    +:+ "," +:+ member "segment" (fmt_d (cf_segment_index f)) +:+ "," +:+ member "segments" (fmt_d (cf_total_segments f))
    +:+ "," +:+ member "compressed" (json_bool (cf_compressed f)) +:+ opt_member "archive" (cf_archive_path f)
    +:+ opt_number "compressed_at" (cf_compress_finish_ts f) +:+ opt_member "record" (cf_record_path f) +:+ "}".

Fixpoint comma_separated (l : list string) : string :=
  match l with
  | [] => ""
  | [x] => x
  | x :: l => x +:+ "," +:+ comma_separated l
  end.

Definition json_list (key : string) (l : list string) : string :=
  match l with [] => "" | _ => "," +:+ member key ("[" +:+ comma_separated l +:+ "]") end.

Definition archive_json (a : CaptureArchiveInfo) : string :=
  "{" +:+ smember "path" (json_escape (ca_archive_path a)) +:+ "," +:+ member "size" (fmt_u (ca_archive_size a))
    +:+ opt_number "compressed_at" (ca_compress_finish_ts a)
    +:+ json_list "files" (map file_json (ca_files a)) +:+ "}".

Definition status_body (s : TaskSnapshot) : string :=
  "{" +:+ member "capture_id" (fmt_d (sn_capture_id s))
    +:+ "," +:+ smember "status" (capture_status_to_string (sn_status s))
    +:+ "," +:+ smember "mode" (capture_mode_to_string (sn_capture_mode s))
    +:+ "," +:+ smember "key" (json_escape (sn_key s)) +:+ opt_member "sid" (sn_sid s)
    +:+ opt_member "iface" (sn_iface s) +:+ opt_member "proc_name" (sn_proc_name s) +:+ opt_member "filter" (sn_filter s)
    +:+ opt_number "pid" (sn_target_pid s) +:+ opt_number "port" (sn_port_filter s)
    +:+ "," +:+ member "start_time" (fmt_d (sn_start_time s)) +:+ "," +:+ member "end_time" (fmt_d (sn_end_time s))
    +:+ "," +:+ member "packets" (fmt_u (sn_packet_count s)) +:+ "," +:+ member "bytes" (fmt_u (sn_bytes_captured s))
    +:+ "," +:+ member "worker" (fmt_u (sn_worker_thread_index s))
    +:+ "," +:+ member "stop_requested" (json_bool (sn_stop_requested s))
    +:+ "," +:+ smember "client_ip" (json_escape (sn_client_ip s))
    +:+ "," +:+ smember "request_user" (json_escape (sn_request_user s)) +:+ opt_member "error" (sn_error_message s)
    +:+ json_list "files" (map file_json (sn_captured_files s))
    +:+ json_list "archives" (map archive_json (sn_archives s)) +:+ "}".

(** [TaskSnapshot snapshot;] *)
Definition new_task_snapshot : TaskSnapshot :=
  mkSnapshot (-1) "" "" "" STATUS_PENDING MODE_INTERFACE "" "" (-1) 0 false false "" 0 0 0 0 0 0 "" "" "" [] [].

(** The identifiers of a status request: of the body of a POST, else of the
    query; [None] is a body that does not parse. *)
Definition status_ids (req : http_req_head_para) (recv_body : option string) : option (Z * string) :=
  let body := default "" recv_body in
  if String.eqb (hq_method req) "POST" && negb (is_empty body) then
    doc ← json_parse (c_str body);
    Some (if is_object doc
          then (match find_member doc "capture_id" ≫= as_int with
                | Some id => id
                | None => read as_int doc "id" 0
                end, read as_string doc "sid" "")
          else (0, ""))
  else
    let params := parse_query_params (hq_url_path req) in
    Some (atoi_param params "capture_id" (atoi_param params "id" 0), default "" (params !! "sid")).

Definition handle_status (e : http_env) (req : http_req_head_para) (recv_body : option string) (r : response) : handled :=
  match status_ids req recv_body with
  | None => answer (set_error_response 400 "Invalid JSON" r)
  | Some (capture_id, sid) =>
      if (capture_id =? 0) && is_empty sid then answer (set_error_response 400 "Missing capture identifier" r)
      else
        let reply (q : outcome (option TaskSnapshot)) : handled :=
          snapshot ← q;
          match snapshot with
          | None => answer (set_error_response 404 "capture_not_found" r)
          | Some s => answer (set_json_response 200 "OK" (status_body s) r)
          end in
        if 0 <? capture_id then reply (query_task (he_tasks e) capture_id)
        else if negb (is_empty sid) then reply (query_task_by_sid (he_tasks e) sid)
        else reply (Done (Some new_task_snapshot))
  end.

(** [path.find(prefix) == 0] *)
Definition starts_with (prefix path : string) : bool := is_prefix prefix path.

Definition CaptureApi_perform (e : http_env) (req : option http_req_head_para) (recv_body : option string)
    (r : response) (conn_id : ObjId) : handled :=
  match req with
  | None => answer (set_error_response 500 "Internal error" r)
  | Some h =>
      let path := hq_url_path h in
      let method := hq_method h in
      if starts_with "/api/capture/start" path && String.eqb method "POST" then handle_start e recv_body r conn_id
      else if starts_with "/api/capture/stop" path && String.eqb method "POST" then handle_stop e h r conn_id
      else if starts_with "/api/capture/status" path && (String.eqb method "GET" || String.eqb method "POST")
      then handle_status e h recv_body r
      else answer (set_error_response 404 "Not found" r)
  end.
End Start.

(** ** PDEF files *)

Inductive write_result := WriteNotOpened | WriteBad | WriteDone.

(** The file calls of the PDEF handlers.  [uf_write] is an [ofstream] opened
    with [trunc], [write] and [close]; [uf_read] an [ifstream] read to its end
    ([None] when it does not open) with [bad()]; [uf_list] the names [readdir]
    returns.  The laws: a successful write is what a read then sees, and
    replaces no other file. *)
Class PdefFiles (W : Type) := {
  uf_stat : string -> W -> option Stat;
  uf_mkdir : string -> W -> bool * W;
  uf_write : string -> string -> W -> write_result * W;
  uf_read : string -> W -> option (string * bool);
  uf_list : string -> W -> option (list string);

  uf_write_read p c w w' : uf_write p c w = (WriteDone, w') -> uf_read p w' = Some (c, false);
  uf_write_other p c w r w' q : uf_write p c w = (r, w') -> q <> p -> uf_read q w' = uf_read q w;
}.

Definition get_configured_pdef_dir (server : option CRxServerConfig) : string :=
  match server with
  | None => default_pdef_dir
  | Some c =>
      let cfg_dir := st_temp_pdef_dir (ss_temp (sv_storage c)) in
      if is_empty cfg_dir then default_pdef_dir else cfg_dir
  end.

(** [out] is empty at every call. *)
Definition append_pdef_dirs (server : option CRxServerConfig) : list string :=
  let builtin := "config/protocols" in
  let configured := get_configured_pdef_dir server in
  if negb (is_empty configured) && negb (String.eqb configured builtin) then [builtin; configured] else [builtin].

Definition is_safe_path (server : option CRxServerConfig) (path : string) : bool :=
  if is_empty path then false
  else if contains ".." path then false
  else
    existsb (fun prefix => negb (is_empty prefix) && is_prefix (with_slash prefix) path) (append_pdef_dirs server).

(** Lower-case hexadecimal without leading zeros, as [std::hex] prints. *)
Fixpoint strip_zeros (s : string) : string :=
  match s with
  | String c (String _ _ as s') => if Ascii.eqb c "0" then strip_zeros s' else s
  | _ => s
  end.

Definition fmt_hex (z : Z) : string := strip_zeros (hex_digits 16 z).

(** The FNV-1a offset basis of the checksum; that of the capture signature
    differs. *)
Definition fnv1a64 (data : string) : Z := fnv1a_64 14695981039346656037 data.

Definition kMaxPdefSize : Z := 2 * 1024 * 1024.

Definition temp_path (e : http_env) (base_dir : string) : string :=
  bounded 256 (base_dir +:+ "/rxtracenetcap_pdef_" +:+ fmt_u (fst (he_clock e)) +:+ "_"
                 +:+ fmt_0d 6 (snd (he_clock e)) +:+ "_" +:+ fmt_u (he_rand e) +:+ ".pdef").

Definition uploaded_body (path body : string) : string :=
  "{" +:+ smember "status" "ok" +:+ "," +:+ smember "path" (json_escape path)
    +:+ "," +:+ member "size" (fmt_u (Z.of_nat (String.length body)))
    +:+ "," +:+ smember "checksum" (fmt_hex (fnv1a64 body)) +:+ "," +:+ member "validated" "true" +:+ "}".

(** [gmtime_r]: the civil date of a day count. *)
Definition civil_of_days (z : Z) : Z * Z * Z :=
  let z := z + 719468 in
  let era := z / 146097 in
  let doe := z - era * 146097 in
  let yoe := (doe - doe / 1460 + doe / 36524 - doe / 146096) / 365 in
  let doy := doe - (365 * yoe + yoe / 4 - yoe / 100) in
  let mp := (5 * doy + 2) / 153 in
  let d := doy - (153 * mp + 2) / 5 + 1 in
  let m := if mp <? 10 then mp + 3 else mp - 9 in
  (yoe + era * 400 + (if m <=? 2 then 1 else 0), m, d).

Definition format_mtime (mtime : Z) : string :=
  let '(year, mon, mday) := civil_of_days (mtime / 86400) in
  let secs := mtime mod 86400 in
  fmt_d year +:+ "-" +:+ fmt_0d 2 mon +:+ "-" +:+ fmt_0d 2 mday +:+ "T" +:+ fmt_0d 2 (secs / 3600) +:+ ":"
    +:+ fmt_0d 2 (secs / 60 mod 60) +:+ ":" +:+ fmt_0d 2 (secs mod 60) +:+ "Z".

Section Pdef.
Context {W : Type} `{PdefFiles W}.

(** Make the directory unless it is there; the message of the 500 answer. *)
Definition prepare_dir (base_dir : string) (w : W) : option string * W :=
  match uf_stat base_dir w with
  | None =>
      let '(made, w) := uf_mkdir base_dir w in
      (if made then None else Some "Failed to create temp dir", w)
  | Some st => (if sf_dir st then None else Some "Temp path exists and is not a directory", w)
  end.

(** An upload answers at once: the response and the files. *)
Definition store_upload (e : http_env) (body : string) (r : response) (w : W) : response * W :=
  let base_dir := get_configured_pdef_dir (he_server e) in
  match prepare_dir base_dir w with
  | (Some message, w) => (set_error_response 500 message r, w)
  | (None, w) =>
      let path := temp_path e base_dir in
      match uf_write path body w with
      | (WriteNotOpened, w) => (set_error_response 500 "Failed to open temp file" r, w)
      | (WriteBad, w) => (set_error_response 500 "Failed to write temp file" r, w)
      | (WriteDone, w) => (set_json_response 200 "OK" (uploaded_body path body) r, w)
      end
  end.

Definition PdefUpload_perform (e : http_env) (req : option http_req_head_para) (recv_body : option string)
    (r : response) (w : W) : outcome (response * W) :=
  match req with
  | None => Done (r, w)
  | Some h =>
      let body := default "" recv_body in
      if negb (String.eqb (hq_method h) "POST") then Done (set_error_response 405 "Only POST allowed" r, w)
      else if is_empty body then Done (set_error_response 400 "Empty body" r, w)
      else if kMaxPdefSize <? Z.of_nat (String.length body)
      then Done (set_error_response 413 "PDEF too large" r, w)
      else
        let '(err, parsed) := pdef_parse_string (c_str body) 512 in
        proto ← parsed;
        match proto with
        | None => Done (set_error_response 400 ("Invalid PDEF: " +:+ default "" err) r, w)
        | Some _ => Done (store_upload e body r w)
        end
  end.

(** The position of the last occurrence is the end of the name. *)
Definition has_pdef_ext (name : string) : bool :=
  (5 <=? String.length name)%nat && String.eqb (str_drop (String.length name - 5) name) ".pdef".

Definition pdef_entry (name full_path : string) (st : Stat) : string :=
  "{" +:+ smember "name" (json_escape name) +:+ "," +:+ smember "path" (json_escape full_path)
    +:+ "," +:+ member "size" (fmt_d (sf_size st)) +:+ "," +:+ smember "mtime" (format_mtime (sf_mtime st)) +:+ "}".

Definition list_dir (w : W) (dir : string) : list string :=
  omap (fun name =>
    if String.eqb name "." || String.eqb name ".." then None
    else if negb (has_pdef_ext name) then None
    else
      st ← uf_stat (dir +:+ "/" +:+ name) w;
      if sf_reg st then Some (pdef_entry name (dir +:+ "/" +:+ name) st) else None)
    (default [] (uf_list dir w)).

Definition handle_list (e : http_env) (r : response) (w : W) : response :=
  set_json_response 200 "OK"
    ("{" +:+ smember "status" "ok" +:+ "," +:+ member "pdefs"
       ("[" +:+ comma_separated (concat (map (list_dir w) (append_pdef_dirs (he_server e)))) +:+ "]") +:+ "}") r.

(** The first directory that has a regular file of that name. *)
Fixpoint search_pdef (dirs : list string) (name : string) (w : W) : option string :=
  match dirs with
  | [] => None
  | dir :: dirs =>
      let candidate := dir +:+ "/" +:+ name in
      match uf_stat candidate w with
      | Some st => if sf_reg st then Some candidate else search_pdef dirs name w
      | None => search_pdef dirs name w
      end
  end.

Definition content_body (path content : string) (st : Stat) : string :=
  "{" +:+ smember "status" "ok" +:+ "," +:+ smember "path" (json_escape path)
    +:+ "," +:+ member "size" (fmt_u (Z.of_nat (String.length content)))
    +:+ "," +:+ smember "mtime" (format_mtime (sf_mtime st))
    +:+ "," +:+ smember "content" (json_escape content) +:+ "}".

(** The part after the choice of the path. *)
Definition send_pdef (e : http_env) (target_path : string) (r : response) (w : W) : response :=
  if negb (is_safe_path (he_server e) target_path) then set_error_response 403 "Invalid path" r
  else
    match uf_stat target_path w with
    | None => set_error_response 404 "File not found" r
    | Some st =>
        if negb (sf_reg st) then set_error_response 400 "Not a regular file" r
        else if kMaxPdefSize <? u64 (sf_size st) then set_error_response 413 "File too large" r
        else
          match uf_read target_path w with
          | None => set_error_response 500 "Failed to open file" r
          | Some (_, true) => set_error_response 500 "Failed to read file" r
          | Some (content, false) => set_json_response 200 "OK" (content_body target_path content st) r
          end
    end.

Definition handle_get (e : http_env) (req : http_req_head_para) (r : response) (w : W) : response :=
  let params := parse_query_params (hq_url_path req) in
  match params !! "path", params !! "name" with
  | Some path, _ => send_pdef e path r w
  | None, Some name =>
      match search_pdef (append_pdef_dirs (he_server e)) name w with
      | Some path => send_pdef e path r w
      | None => set_error_response 404 "PDEF not found" r
      end
  | None, None => set_error_response 400 "Missing 'name' or 'path' parameter" r
  end.

Definition PdefManagement_perform (e : http_env) (req : option http_req_head_para) (r : response) (w : W) : response :=
  match req with
  | None => set_error_response 500 "Internal error" r
  | Some h =>
      let path := hq_url_path h in
      let method := hq_method h in
      if starts_with "/api/pdef/list" path && String.eqb method "GET" then handle_list e r w
      else if starts_with "/api/pdef/get" path && String.eqb method "GET" then handle_get e h r w
      else set_error_response 404 "Not found" r
  end.
End Pdef.

(** ** Query parameters as printed *)

Fixpoint print_params (l : list (string * string)) : string :=
  match l with
  | [] => ""
  | [kv] => print_pair kv
  | kv :: l => print_pair kv +:+ "&" +:+ print_params l
  end.

(** A key that is not empty and has no separator; a value without an ampersand. *)
Definition param_ok (kv : string * string) : Prop :=
  fst kv <> "" /\ has_char "=" (fst kv) = false /\ has_char "&" (fst kv) = false /\ has_char "&" (snd kv) = false.

Lemma print_pair_no_amp kv : param_ok kv -> has_char "&" (print_pair kv) = false.
Proof.
  intros (_ & _ & Hk & Hv). unfold print_pair. rewrite has_char_app, Hk. simpl. exact Hv.
Qed.

Lemma add_param_print kv params : param_ok kv -> add_param (print_pair kv) params = <[fst kv := snd kv]> params.
Proof.
  intros (Hn & He & _ & _). unfold add_param, print_pair. rewrite str_app_cons, str_app_nil.
  rewrite str_index_here by done. rewrite str_take_app, str_drop_S_app.
  destruct (is_empty_spec (fst kv)); done.
Qed.

Lemma param_loop_print l params fuel :
  Forall param_ok l -> (String.length (print_params l) <= fuel)%nat ->
  param_loop fuel (print_params l) params = foldl (fun m kv => <[fst kv := snd kv]> m) params l.
Proof.
  intros Hl. revert params fuel. induction Hl as [|kv l Hkv Hl IH]; intros params fuel Hf; [by destruct fuel|].
  assert (Hne : print_pair kv <> "").
  { destruct Hkv as [Hk _]. unfold print_pair. destruct (fst kv); [done|]. by rewrite str_app_cons. }
  assert (He : is_empty (print_pair kv) = false) by (by destruct (print_pair kv)).
  destruct l as [|kv2 l].
  - simpl in *. destruct fuel as [|fuel]; [destruct (print_pair kv); simpl in Hf; [done|lia]|].
    simpl. rewrite He, str_index_absent by (by apply print_pair_no_amp).
    rewrite He, add_param_print by done. by destruct fuel.
  - change (print_params (kv :: kv2 :: l)) with (print_pair kv +:+ "&" +:+ print_params (kv2 :: l)) in *.
    rewrite str_app_cons, str_app_nil in *. rewrite str_length_app in Hf.
    change (String.length (String "&" (print_params (kv2 :: l)))) with (S (String.length (print_params (kv2 :: l)))) in Hf.
    destruct fuel as [|fuel]; [lia|]. cbn [param_loop].
    assert (is_empty (print_pair kv +:+ String "&" (print_params (kv2 :: l))) = false) as ->
      by (by destruct (print_pair kv)).
    rewrite str_index_here by (by apply print_pair_no_amp). rewrite str_take_app, str_drop_S_app, He.
    rewrite IH by lia. rewrite add_param_print by done. done.
Qed.

Lemma parse_printed path l :
  has_char "?" path = false -> Forall param_ok l ->
  parse_query_params (path +:+ "?" +:+ print_params l) = foldl (fun m kv => <[fst kv := snd kv]> m) ∅ l.
Proof.
  intros Hp Hl. unfold parse_query_params. rewrite str_app_cons, str_app_nil, str_index_here, str_drop_S_app by done.
  apply param_loop_print; [done|]. rewrite str_length_app. simpl. lia.
Qed.

(** ** Paths *)

Lemma is_safe_path_spec server path :
  is_safe_path server path = true ->
  contains ".." path = false /\
  exists dir rest, dir ∈ append_pdef_dirs server /\ path = with_slash dir +:+ rest.
Proof.
  unfold is_safe_path. destruct (is_empty path); [done|]. destruct (contains ".." path); [done|].
  rewrite existsb_exists. intros (dir & Hdir & Hd). split; [done|].
  apply andb_true_iff in Hd as [_ Hd]. apply is_prefix_spec in Hd. exists dir. eexists. split; [|exact Hd].
  by apply list_elem_of_In.
Qed.

Lemma pdef_dirs_spec server dir :
  dir ∈ append_pdef_dirs server -> dir = "config/protocols" \/ dir = get_configured_pdef_dir server.
Proof.
  unfold append_pdef_dirs. intros Hd. destruct (_ && _); repeat (apply elem_of_cons in Hd as [->|Hd]; [by auto|]);
    by apply not_elem_of_nil in Hd.
Qed.

Lemma error_not_200 code message r : code <> 200 -> hs_response_code <$> set_error_response code message r <> Some 200.
Proof. unfold set_error_response, set_json_response. destruct r; simpl; congruence. Qed.

Section Pdefs.
Context {W : Type} `{PdefFiles W}.

(** What a successful download went through. *)
Lemma send_pdef_200 e path r (w : W) :
  hs_response_code <$> send_pdef e path r w = Some 200 ->
  is_safe_path (he_server e) path = true /\
  exists st content, uf_stat path w = Some st /\ sf_reg st = true /\ u64 (sf_size st) <= kMaxPdefSize /\
    uf_read path w = Some (content, false) /\
    send_pdef e path r w = set_json_response 200 "OK" (content_body path content st) r.
Proof.
  unfold send_pdef. destruct (is_safe_path (he_server e) path); simpl; [|by intros ?%error_not_200].
  destruct (uf_stat path w) as [st|]; [|by intros ?%error_not_200].
  destruct (sf_reg st) eqn:Hreg; simpl; [|by intros ?%error_not_200].
  destruct (Z.ltb_spec kMaxPdefSize (u64 (sf_size st))); [by intros ?%error_not_200|].
  destruct (uf_read path w) as [[content []]|] eqn:Hr; [by intros ?%error_not_200| |by intros ?%error_not_200].
  intros _. split; [done|]. by exists st, content.
Qed.

Lemma search_pdef_spec dirs name (w : W) path :
  search_pdef dirs name w = Some path -> exists dir, dir ∈ dirs /\ path = dir +:+ "/" +:+ name.
Proof.
  induction dirs as [|dir dirs IH]; [done|]. cbn [search_pdef]. intros E.
  assert (search_pdef dirs name w = Some path -> exists d, d ∈ dir :: dirs /\ path = d +:+ "/" +:+ name) as Hrest.
  { intros Hs. destruct (IH Hs) as (d & Hd & ->). exists d. split; [by right|done]. }
  destruct (uf_stat (dir +:+ "/" +:+ name) w) as [st|]; [|by apply Hrest].
  destruct (sf_reg st); [|by apply Hrest]. injection E as <-. exists dir. split; [by left|done].
Qed.
End Pdefs.

(** ** Start requests as documents *)

Definition mode_name (mode : ECaptureMode) : string :=
  match mode with
  | MODE_INTERFACE => "interface" | MODE_PROCESS => "process" | MODE_PID => "pid" | MODE_CONTAINER => "container"
  end.

(** Every parameter of a request, under its first name. *)
Definition start_tree (m : SRxStartCaptureMsg) : tree :=
  TObj [("capture_mode", TStr (mode_name (sm_capture_mode m))); ("iface", TStr (sm_iface m));
        ("proc_name", TStr (sm_proc_name m)); ("target_pid", TNum (sm_target_pid m));
        ("container_id", TStr (sm_container_id m)); ("filter", TStr (sm_filter m));
        ("protocol_filter", TStr (sm_protocol_filter m));
        ("protocol_filter_inline", TStr (sm_protocol_filter_inline m)); ("ip", TStr (sm_ip_filter m));
        ("port", TNum (sm_port_filter m)); ("category", TStr (sm_category m));
        ("file_pattern", TStr (sm_file_pattern m)); ("duration", TNum (sm_duration_sec m));
        ("max_bytes", TNum (sm_max_bytes m)); ("max_packets", TNum (sm_max_packets m));
        ("client_ip", TStr (sm_client_ip m)); ("user", TStr (sm_request_user m))].

(** A request a client can make: numbers in range, and a process name only
    with a mode other than the interface mode, which it would replace. *)
Definition request_ok (m : SRxStartCaptureMsg) : Prop :=
  int_range (sm_target_pid m) /\ int_range (sm_port_filter m) /\ int_range (sm_duration_sec m) /\
  - 2 ^ 63 <= sm_max_bytes m < 2 ^ 63 /\ int_range (sm_max_packets m) /\
  (sm_capture_mode m = MODE_INTERFACE -> sm_proc_name m = "") /\
  sm_netns_path m = "" /\ sm_enqueue_ts_ms m = 0 /\ sm_sid m = "".

Section Printed.
Variable parse : string -> option tree.
#[local] Instance request_json : Json tree := tree_json parse.

Lemma on_str l key s f m :
  find (fun kv => String.eqb (fst kv) key) l = Some (key, TStr s) -> on_member as_string (TObj l) key f m = f s m.
Proof. intros E. unfold on_member. simpl. by rewrite E. Qed.

Lemma on_int l key z f m :
  find (fun kv => String.eqb (fst kv) key) l = Some (key, TNum z) -> int_range z ->
  on_member as_int (TObj l) key f m = f z m.
Proof.
  intros E Hz. unfold on_member. cbn [find_member request_json tree_json tree_member]. rewrite E.
  cbn [fmap option_fmap option_map snd mbind option_bind as_int request_json tree_json].
  by rewrite int_within_int.
Qed.

Lemma on_int64 l key z f m :
  find (fun kv => String.eqb (fst kv) key) l = Some (key, TNum z) -> - 2 ^ 63 <= z < 2 ^ 63 ->
  on_member as_int64 (TObj l) key f m = f z m.
Proof.
  intros E Hz. unfold on_member. cbn [find_member request_json tree_json tree_member]. rewrite E.
  cbn [fmap option_fmap option_map snd mbind option_bind as_int64 request_json tree_json].
  unfold int_within. change (64 - 1) with 63.
  destruct (Z.leb_spec (- 2 ^ 63) z), (Z.ltb_spec z (2 ^ 63)); try lia. done.
Qed.

Lemma on_absent {A} (as_ : tree -> option A) l key f m :
  find (fun kv => String.eqb (fst kv) key) l = None -> on_member as_ (TObj l) key f m = m.
Proof. intros E. unfold on_member. simpl. by rewrite E. Qed.

Ltac on_members :=
  repeat first
    [ erewrite on_str by reflexivity
    | erewrite on_int by (reflexivity || assumption)
    | erewrite on_int64 by (reflexivity || assumption)
    | rewrite on_absent by reflexivity ].

Lemma set_mode_name mode m : set_mode (mode_name mode) m = m <| sm_capture_mode := mode |>.
Proof. by destruct mode. Qed.

Lemma start_request_printed strategy m :
  request_ok m -> start_request strategy (Some (start_tree m)) (sm_reply_target m) = m.
Proof.
  intros (Hpid & Hport & Hdur & Hb & Hp & Hmode & Hn & He & Hs).
  unfold start_request. cbn [is_object request_json tree_json start_tree].
  unfold start_limits, start_filters, start_target, start_mode.
  change (find_member (start_tree m) "capture_mode" ≫= as_string) with (Some (mode_name (sm_capture_mode m))).
  unfold start_tree. on_members. rewrite set_mode_name. unfold set_proc_name, is_interface. simpl.
  destruct m as [mode iface proc pid cid netns filter pf pfi ip port cat fp dur mb mp rt cip user ts sid].
  simpl in *. subst. destruct mode; simpl; try done. by rewrite Hmode.
Qed.
End Printed.

(** ** Properties *)

(** Query parameters round trip: the parameters of a URL printed from a list
    of pairs are the pairs, a later one overriding an earlier one with the same
    key; in particular a value may contain equal signs. *)
Theorem query_params_roundtrip path l :
  has_char "?" path = false -> Forall param_ok l ->
  parse_query_params (path +:+ "?" +:+ print_params l) = foldl (fun m kv => <[fst kv := snd kv]> m) ∅ l.
Proof. apply parse_printed. Qed.

Lemma query_params_roundtrip_witness :
  parse_query_params "/api/capture/stop?id=1000&sid=a=b" =
    foldl (fun m kv => <[fst kv := snd kv]> m) ∅ [("id", "1000"); ("sid", "a=b")]%string.
Proof.
  apply (query_params_roundtrip "/api/capture/stop" [("id", "1000"); ("sid", "a=b")]%string); [reflexivity|].
  repeat constructor; discriminate.
Defined.

(** A download stays inside the PDEF directories.  Whenever
    [/api/pdef/get] answers 200, whatever the query, the file it sent is under
    [config/protocols/] or under the configured directory, by a path without
    [".."]; it is a regular file of at most 2 MiB, and the answer holds its
    content. *)
Theorem pdef_get_confined {W} `{PdefFiles W} e req r (w : W) :
  hs_response_code <$> handle_get e req r w = Some 200 ->
  exists dir rest st content,
    (dir = "config/protocols" \/ dir = get_configured_pdef_dir (he_server e)) /\
    let path := with_slash dir +:+ rest in
    contains ".." path = false /\ uf_stat path w = Some st /\ sf_reg st = true /\ u64 (sf_size st) <= kMaxPdefSize /\
    uf_read path w = Some (content, false) /\
    handle_get e req r w = set_json_response 200 "OK" (content_body path content st) r.
Proof.
  intros E. assert (exists path, handle_get e req r w = send_pdef e path r w) as [path Ep].
  { unfold handle_get in *. destruct (parse_query_params (hq_url_path req) !! "path") as [p|]; [by exists p|].
    destruct (parse_query_params (hq_url_path req) !! "name") as [name|]; [|by apply error_not_200 in E].
    destruct (search_pdef _ name w) as [p|]; [by exists p|]. by apply error_not_200 in E. }
  rewrite Ep in *. apply send_pdef_200 in E as (Hsafe & st & content & Hst & Hreg & Hsz & Hrd & Hs).
  apply is_safe_path_spec in Hsafe as (Hdots & dir & rest & Hdir & ->). apply pdef_dirs_spec in Hdir.
  by exists dir, rest, st, content.
Qed.

(** Files in memory: every stored path is a regular file. *)
#[export] Instance mem_pdef : PdefFiles (gmap string string).
Proof.
  refine {|
    uf_stat p w := match w !! p with
                   | Some c => Some (mkStat (Z.of_nat (String.length c)) 0 true false 0)
                   | None => if String.eqb p "/tmp/rxtracenetcap_pdef" then Some (mkStat 0 0 false true 1) else None
                   end;
    uf_mkdir p w := (false, w);
    uf_write p c w := (WriteDone, <[p := c]> w);
    uf_read p w := (fun c => (c, false)) <$> w !! p;
    uf_list p w := None;
  |}.
  - intros p c w w' [= <-]. by rewrite lookup_insert_eq.
  - intros p c w r w' q [= <- <-] Hne. by rewrite lookup_insert_ne.
Defined.

Definition demo_http_env : http_env := mkHttpEnv None None (Some 3) (fun _ => []) new_mgr 0 (1700000000, 42) 7.
Definition demo_response : response := Some (mkResponse 200 "OK" ∅ "").

Lemma pdef_get_confined_witness :
  exists dir rest st content,
    (dir = "config/protocols" \/ dir = get_configured_pdef_dir None) /\
    uf_read (with_slash dir +:+ rest) ({["config/protocols/a.pdef" := "A"]} : gmap string string) = Some (content, false) /\
    hs_body <$> handle_get demo_http_env (mkReqHead "/api/pdef/get?name=a.pdef" "GET") demo_response
      ({["config/protocols/a.pdef" := "A"]} : gmap string string) = Some (content_body (with_slash dir +:+ rest) content st).
Proof.
  assert (E : hs_response_code <$> handle_get demo_http_env (mkReqHead "/api/pdef/get?name=a.pdef" "GET") demo_response
                ({["config/protocols/a.pdef" := "A"]} : gmap string string) = Some 200) by (vm_compute; reflexivity).
  destruct (pdef_get_confined _ _ _ _ E) as (dir & rest & st & content & Hdir & _ & _ & _ & _ & Hread & Eg).
  exists dir, rest, st, content. split; [exact Hdir|]. split; [exact Hread|]. rewrite Eg. reflexivity.
Defined.

(** The answer is a 200. *)
Definition is_200 {W} (x : outcome (response * W)) : bool :=
  match x with Done (Some r, _) => hs_response_code r =? 200 | _ => false end.

Lemma answered_200 {W} (x : outcome (response * W)) :
  is_200 x = true -> exists r w, x = Done (Some r, w) /\ hs_response_code r = 200.
Proof.
  destruct x as [[[r|] w]| | |]; try done. simpl. intros E. exists r, w. split; [done|]. by apply Z.eqb_eq.
Qed.

(** An upload that is answered with 200 was a POST of at most 2 MiB whose
    text parses as a PDEF, and is then stored: reading the path named in the
    answer gives the uploaded bytes, and the answer has their number and
    checksum.  An upload that does not parse is undefined behaviour: the error
    exit of [pdef_parse_string] reads the protocol it has freed, so the 400
    answer is never reached. *)
Theorem upload_stores_valid_pdef {W} `{PdefFiles W} e h body r (w : W) :
  (forall r' w', PdefUpload_perform e (Some h) (Some body) (Some r) w = Done (Some r', w') ->
     hs_response_code r' = 200 ->
     exists d path, pdef_parse (c_str body) = Done d /\ hq_method h = "POST" /\
       0 < Z.of_nat (String.length body) <= kMaxPdefSize /\
       path = temp_path e (get_configured_pdef_dir (he_server e)) /\
       uf_read path w' = Some (body, false) /\ hs_body r' = uploaded_body path body) /\
  (forall msg, hq_method h = "POST" -> 0 < Z.of_nat (String.length body) <= kMaxPdefSize ->
     pdef_parse (c_str body) = Fails msg -> PdefUpload_perform e (Some h) (Some body) (Some r) w = Undef).
Proof.
  unfold PdefUpload_perform. cbn [default]. split.
  - intros r' w'. destruct (String.eqb_spec (hq_method h) "POST") as [Hpost|]; simpl; [|by intros [= <- <-]].
    destruct (is_empty_spec body) as [|Hne]; [by intros [= <- <-]|].
    destruct (Z.ltb_spec kMaxPdefSize (Z.of_nat (String.length body))); [by intros [= <- <-]|].
    unfold pdef_parse_string. destruct (pdef_parse (c_str body)) as [d|msg| |] eqn:Ep; simpl; try done.
    unfold store_upload. destruct (prepare_dir _ w) as [[m|] w1]; [by intros [= <- <-]|].
    destruct (uf_write _ body w1) as [[] w2] eqn:Ew; [by intros [= <- <-]..|]. intros [= <- <-] _.
    eexists d, _. split_and!; [done|done| |done|done|by eapply uf_write_read|done].
    destruct body; [done|simpl; lia].
  - intros msg -> Hlen Ep. simpl. destruct (is_empty_spec body) as [->|]; [simpl in Hlen; lia|].
    destruct (Z.ltb_spec kMaxPdefSize (Z.of_nat (String.length body))); [lia|].
    unfold pdef_parse_string. by rewrite Ep.
Qed.

Lemma upload_stores_valid_pdef_witness :
  PdefUpload_perform demo_http_env (Some (mkReqHead "/api/pdef/upload" "POST")) (Some "@const { A = # }")
    demo_response (∅ : gmap string string) = Undef /\
  exists path w, uf_read path (w : gmap string string) = Some ("Head { uint8 a; }", false).
Proof.
  split.
  - apply (upload_stores_valid_pdef demo_http_env (mkReqHead "/api/pdef/upload" "POST") "@const { A = # }"
             (mkResponse 200 "OK" ∅ "") ∅) with ""; [reflexivity|unfold kMaxPdefSize; simpl; lia|vm_compute; reflexivity].
  - assert (exists r' w', PdefUpload_perform demo_http_env (Some (mkReqHead "/api/pdef/upload" "POST"))
              (Some "Head { uint8 a; }") demo_response (∅ : gmap string string) = Done (Some r', w') /\
              hs_response_code r' = 200) as (r' & w' & E & Hr).
    { apply answered_200. vm_compute. reflexivity. }
    destruct (proj1 (upload_stores_valid_pdef _ _ _ _ _) r' w' E Hr) as (d & path & _ & _ & _ & _ & Hread & _).
    exists path, w'. exact Hread.
Defined.

(** Every parameter of a capture request reaches the manager: the document
    that names them all is turned into the request itself, with the connection
    as the reply target, whatever the strategy configuration. *)
Theorem start_request_roundtrip parse strategy m :
  request_ok m -> start_request (H := tree_json parse) strategy (Some (start_tree m)) (sm_reply_target m) = m.
Proof. apply start_request_printed. Qed.

Definition demo_start : SRxStartCaptureMsg :=
  new_start_msg <| sm_capture_mode := MODE_PROCESS |> <| sm_proc_name := "nginx" |> <| sm_filter := "tcp port 80" |>
    <| sm_max_bytes := 5000000000 |> <| sm_reply_target := mkObjId 9 2 |>.

Lemma start_request_roundtrip_witness :
  start_request (H := tree_json (fun _ => None)) None (Some (start_tree demo_start)) (mkObjId 9 2) = demo_start.
Proof.
  apply (start_request_roundtrip (fun _ => None) None demo_start).
  unfold request_ok, int_range. vm_compute. repeat split; discriminate.
Defined.
