(* ===== verification/HttpApi.v ===== *)
(** * From HTTP request to HTTP response (rxhttpresdataprocess.cpp, rxprocdata.cpp)

    The table of URL handlers, the data process of one connection, and the path
    of a start request through the connection, the capture manager and back.
    [HttpConnection] reads the request off the socket and writes the response. *)

From S2P Require Import Prelude CppString Lexer TaskTypes TaskMgr TaskMgrCorrect Messages CaptureUtil ProcData PdefWriteback CaptureManager CaptureManagerCorrect CaptureDecision Cleanup Json Config UrlHandlers.

(** ** Routing *)

Inductive url_handler :=
  | HStaticJson (code : Z) (reason body : string)
  | HCaptureApi
  | HPdefUpload
  | HPdefManagement.

Definition json_text (key value : string) : string := "{" +:+ smember key value +:+ "}".

Definition default_handler : url_handler := HStaticJson 404 "Not Found" (json_text "error" "no handler registered").

Definition root_handler : url_handler := HStaticJson 200 "OK" (json_text "message" "rxtracenetcap http service").

(** [reg_handler] *)
Definition url_handler_map : gmap string url_handler :=
  list_to_map
    [("/health", HStaticJson 200 "OK" (json_text "status" "ok")); ("/", root_handler); ("", root_handler);
     ("/api/capture/start", HCaptureApi); ("/api/capture/stop", HCaptureApi); ("/api/capture/status", HCaptureApi);
     ("/api/pdef/upload", HPdefUpload); ("/api/pdef/list", HPdefManagement); ("/api/pdef/get", HPdefManagement);
     ("/default", default_handler)].

Definition strip_query (key : string) : string :=
  match str_index "?" key with Some q => str_take q key | None => key end.

Definition get_url_handler (key : string) : option url_handler :=
  match url_handler_map !! strip_query key with
  | Some h => Some h
  | None => url_handler_map !! "/default"
  end.

Section Http.
Context {V W : Type} `{Json V} `{PdefFiles W}.

Definition perform (h : url_handler) (e : http_env) (req : http_req_head_para) (recv_body : string) (r : response)
    (conn_id : ObjId) (w : W) : outcome (bool * response * outbox * W) :=
  match h with
  | HStaticJson code reason body => Done (true, StaticJson_perform code reason body r, [], w)
  | HCaptureApi =>
      '(ready, r, out) ← CaptureApi_perform e (Some req) (Some recv_body) r conn_id; Done (ready, r, out, w)
  | HPdefUpload => '(r, w) ← PdefUpload_perform e (Some req) (Some recv_body) r w; Done (true, r, [], w)
  | HPdefManagement => Done (true, PdefManagement_perform e (Some req) r w, [], w)
  end.

(** ** The data process of a connection *)

(** [dp_res] is the response head of the connection's base process, with the
    body the handler fills; [dp_ready] counts the calls of
    [notify_send_ready]. *)
Record CRxHttpResDataProcess := mkDataProcess {
  dp_recv_body : string;
  dp_send_body : string;
  dp_res : http_response;
  dp_pending : bool;
  dp_ready : nat;
}.

Definition process_recv_body (buf : string) (p : CRxHttpResDataProcess) : CRxHttpResDataProcess :=
  p <| dp_recv_body := dp_recv_body p +:+ buf |>.

Definition notify_send_ready (p : CRxHttpResDataProcess) : CRxHttpResDataProcess := p <| dp_ready := S (dp_ready p) |>.

Definition get_send_body (p : CRxHttpResDataProcess) : string * CRxHttpResDataProcess :=
  (dp_send_body p, p <| dp_send_body := "" |>).

(** The head of the response, unless it waits for the manager. *)
Definition get_send_head (p : CRxHttpResDataProcess) : option http_response :=
  if dp_pending p then None else Some (dp_res p).

Definition msg_recv_finish (e : http_env) (req : http_req_head_para) (conn_id : ObjId) (p : CRxHttpResDataProcess) (w : W)
    : outcome (CRxHttpResDataProcess * outbox * W) :=
  let p := p <| dp_pending := false |> in
  match get_url_handler (hq_url_path req) with
  | None => Done (p, [], w)
  | Some h =>
      '(is_ready, r, out, w) ← perform h e req (dp_recv_body p) (Some ((dp_res p) <| hs_body := "" |>)) conn_id w;
      let p := p <| dp_res := default (dp_res p) r |> in
      Done (if is_ready : bool
            then notify_send_ready (p <| dp_send_body := hs_body (dp_res p) |>)
            else p <| dp_pending := true |>, out, w)
  end.

Definition send_async_response (m : SRxHttpReplyMsg) (p : CRxHttpResDataProcess) : CRxHttpResDataProcess :=
  let headers :=
    <["Connection" := "close"]>
      (<["Content-Length" := fmt_u (Z.of_nat (String.length (hr_body m)))]> (hr_headers m)) in
  notify_send_ready
    (p <| dp_send_body := hr_body m |>
       <| dp_res := mkResponse (hr_status m) (hr_reason m) headers (hs_body (dp_res p)) |> <| dp_pending := false |>).

Definition handle_msg (msg : message) (p : CRxHttpResDataProcess) : CRxHttpResDataProcess :=
  match msg with MsgHttpReply m => send_async_response m p | _ => p end.

(** The connection has its answer: a head with a status, and a body. *)
Definition answered (p p' : CRxHttpResDataProcess) (code : Z) : Prop :=
  dp_pending p' = false /\ dp_ready p' = S (dp_ready p) /\
  exists head, get_send_head p' = Some head /\ hs_response_code head = code /\
    hs_headers head !! "Content-Length" = Some (fmt_u (Z.of_nat (String.length (dp_send_body p')))).

(** ** Lemmas *)

Lemma fresh_response r : exists r', set_json_response 200 "" "" (Some r) = Some r'.
Proof. by eexists. Qed.

(** The headers of every answer with a JSON body. *)
Definition answer_headers (body : string) : gmap string string :=
  <["Content-Length" := fmt_u (Z.of_nat (String.length body))]>
    (<["Connection" := "close"]> (<["Content-Type" := "application/json"]> ∅)).

(** A handler that answers through [set_json_response]. *)
Definition answers (codes : list Z) (r : response) : Prop :=
  exists s, r = Some s /\ hs_response_code s ∈ codes /\ hs_headers s = answer_headers (hs_body s) /\ hs_body s <> "".

Lemma json_answers code reason body s codes :
  code ∈ codes -> body <> "" -> answers codes (set_json_response code reason body (Some s)).
Proof. intros Hc Hb. eexists. split; [done|]. by split. Qed.

Lemma error_answers code message s codes : code ∈ codes -> answers codes (set_error_response code message (Some s)).
Proof. intros Hc. by apply json_answers. Qed.

(** What the start handler does. *)
Lemma handle_start_cases e body s conn_id idx :
  he_manager e = Some idx -> 0 < obj_thread_index conn_id ->
  (exists r, handle_start e body (Some s) conn_id = Done (true, r, []) /\ answers [400; 404] r) \/
  exists m, handle_start e body (Some s) conn_id =
              Done (false, Some s, [(mkObjId OBJ_ID_THREAD idx, MsgStartCapture m)]) /\
            sm_reply_target m = conn_id /\ sm_enqueue_ts_ms m = he_ms e /\
            exists doc, parse_body body = Some doc /\
              m = (start_request (he_strategy e) doc conn_id) <| sm_enqueue_ts_ms := he_ms e |>.
Proof.
  intros Hm Hc. unfold handle_start. destruct (parse_body body) as [doc|].
  - destruct (_ && _).
    + left. eexists. split; [done|]. apply json_answers; [set_solver+|done].
    + right. unfold send_to_capture_manager. rewrite Hm. destruct (Z.eqb_spec (obj_thread_index conn_id) 0); [lia|].
      eexists. split; [done|]. split_and!; [done|done|]. by exists doc.
  - left. eexists. split; [done|]. apply error_answers. set_solver+.
Qed.

Lemma start_routed url : strip_query url = "/api/capture/start" ->
  get_url_handler url = Some HCaptureApi /\ is_prefix "/api/capture/start" url = true.
Proof.
  intros E. split; [unfold get_url_handler; by rewrite E|]. unfold strip_query in E.
  destruct (str_index "?" url) as [q|]; [|by rewrite E].
  rewrite <- (str_take_drop q url), E. apply is_prefix_app.
Qed.

(** The connection after a start request. *)
Lemma start_received e req conn_id p w idx :
  he_manager e = Some idx -> 0 < obj_thread_index conn_id ->
  hq_method req = "POST" -> strip_query (hq_url_path req) = "/api/capture/start" ->
  (exists p' code, msg_recv_finish e req conn_id p w = Done (p', [], w) /\ answered p p' code /\ code ∈ [400; 404] /\
     dp_send_body p' <> "" /\ hs_headers (dp_res p') = answer_headers (dp_send_body p')) \/
  exists p' m doc, msg_recv_finish e req conn_id p w =
      Done (p', [(mkObjId OBJ_ID_THREAD idx, MsgStartCapture m)], w) /\
    dp_pending p' = true /\ dp_ready p' = dp_ready p /\ get_send_head p' = None /\
    parse_body (Some (dp_recv_body p)) = Some doc /\
    m = (start_request (he_strategy e) doc conn_id) <| sm_enqueue_ts_ms := he_ms e |>.
Proof.
  intros Hm Hc Hpost Hurl. destruct (start_routed _ Hurl) as [Hr Hp].
  unfold msg_recv_finish. rewrite Hr. cbn [perform CaptureApi_perform]. unfold starts_with. rewrite Hp, Hpost.
  cbn [String.eqb andb]. change (String.eqb "POST" "POST") with true. cbn [andb].
  destruct (handle_start_cases e (Some (dp_recv_body p)) ((dp_res p) <| hs_body := "" |>) conn_id idx Hm Hc)
    as [(r & E & Ha)|(m & E & Ht & _ & doc & Hd & Em)].
  - left. change (dp_recv_body (p <| dp_pending := false |>)) with (dp_recv_body p).
    change (dp_res (p <| dp_pending := false |>)) with (dp_res p). rewrite E. cbn [mbind outcome_bind].
    destruct Ha as (s & -> & Hcode & Hlen & Hne). do 2 eexists. split; [done|]. split; [|by split; [exact Hcode|by split]].
    split; [done|]. split; [done|]. eexists. split; [done|]. split; [done|]. cbn. rewrite Hlen. apply lookup_insert_eq.
  - right. change (dp_recv_body (p <| dp_pending := false |>)) with (dp_recv_body p).
    change (dp_res (p <| dp_pending := false |>)) with (dp_res p). rewrite E. cbn [mbind outcome_bind].
    do 3 eexists. split; [done|]. split_and!; done.
Qed.

Lemma async_answered m p p' : handle_msg (MsgHttpReply m) p = p' -> answered p p' (hr_status m).
Proof.
  intros <-. split_and!; [done|done|]. eexists. split; [done|]. split; [done|]. cbn.
  rewrite lookup_insert_ne by done. by rewrite lookup_insert_eq.
Qed.
End Http.

(** The HTTP replies among the posted messages. *)
Definition http_replies (out : outbox) : list (ObjId * SRxHttpReplyMsg) :=
  omap (fun tm => match snd tm with MsgHttpReply m => Some (fst tm, m) | _ => None end) out.

Lemma http_replies_app a b : http_replies (a ++ b) = http_replies a ++ http_replies b.
Proof. apply omap_app. Qed.

Lemma dispatched_silent e r s : http_replies (dispatched e r s) = [].
Proof. unfold dispatched. by destruct (pick _ _). Qed.

Lemma stamp_status now m reply : hr_status (stamp_reply now m reply) = hr_status reply.
Proof. unfold stamp_reply. by destruct (0 <? _). Qed.

(** The headers of a reply: a manager that stamps it adds one. *)
Definition reply_headers (hs : gmap string string) : Prop :=
  hs = json_headers \/ exists z, 0 <= z < 2 ^ 64 /\ hs = <["X-Debug-QueueMs" := fmt_d z]> json_headers.

Lemma answer_replies e r reply :
  0 < obj_thread_index (sm_reply_target (rq_msg r)) ->
  exists m, http_replies (CaptureDecision.answer e r reply) = [(sm_reply_target (rq_msg r), m)] /\
    hr_status m = hr_status reply /\ hr_body m = hr_body reply /\
    (hr_headers reply = json_headers -> reply_headers (hr_headers m)).
Proof.
  intros Ht. unfold CaptureDecision.answer, send_reply_to_http. apply Z.ltb_lt in Ht as ->.
  eexists. split; [done|]. unfold stamp_reply. split; [by destruct (0 <? _)|]. split; [by destruct (0 <? _)|].
  intros Hj. destruct (0 <? _); [right|by left]. eexists. split; [apply u64_range|]. destruct reply. cbn in *. by subst.
Qed.

Lemma auto_filter_target ps m : sm_reply_target (auto_filter ps m) = sm_reply_target m.
Proof.
  unfold auto_filter. destruct (bool_decide _ && is_empty _ && negb _); [|done].
  destruct (listening_ports ps) as [|p [|]]; [done| |done]. cbn zeta.
  match goal with |- context [if ?b then _ else _] => destruct b end; done.
Qed.

Lemma default_iface_target st m d : sm_reply_target ((default_iface st m) <| sm_duration_sec := d |>) = sm_reply_target m.
Proof.
  change (sm_reply_target (default_iface st m) = sm_reply_target m). unfold default_iface.
  destruct (is_empty (sm_iface m)); [|done]. cbn zeta. by destr_goal.
Qed.

Lemma prepared_target e m ps r : prepare_request e m ps = Done r -> sm_reply_target (rq_msg r) = sm_reply_target m.
Proof.
  unfold prepare_request, infer_port. intros E. pose proof (auto_filter_target ps m) as Ha.
  set (a := auto_filter ps m) in *. clearbody a. rewrite <- Ha. destruct (_ && _).
  - destruct (infer_port_total (sm_filter a)) as [port Ep]. rewrite Ep, !outcome_bind_done in E. cbv zeta in E.
    destruct (build_capture_signature _ _ _); [rewrite outcome_bind_done in E|done..].
    apply (inj Done) in E as <-. cbn [rq_msg]. rewrite default_iface_target. by destruct (0 <? port).
  - rewrite outcome_bind_done in E. cbv zeta in E.
    destruct (build_capture_signature _ _ _); [rewrite outcome_bind_done in E|done..].
    apply (inj Done) in E as <-. cbn [rq_msg]. apply default_iface_target.
Qed.

(** The manager answers a start request with a filter once, whatever it
    decides. *)
Lemma start_replied e m s :
  manager_ok s -> mg_next_capture_id s < INT_MAX -> 0 < obj_thread_index (sm_reply_target m) ->
  request_filtered e m = true ->
  exists s' out reply, CaptureManager.handle_msg e (MsgStartCapture m) s = Done (s', out) /\
    http_replies out = [(sm_reply_target m, reply)] /\ hr_status reply ∈ [200; 404; 409; 429] /\ hr_body reply <> "" /\
    reply_headers (hr_headers reply).
Proof.
  intros Hs Hlt Ht Hf. cbn [CaptureManager.handle_msg]. unfold handle_start_capture, request_filtered in *.
  destruct (resolve_target_processes e m) as [ps|reply] eqn:Er.
  - destruct (prepare_total e m ps (proj1 (negb_true_iff _) Hf)) as [r E]. rewrite E, outcome_bind_done.
    destruct (decide_request_ok e r s Hs Hlt) as (s' & out & Ed & Hd). rewrite <- (prepared_target e m ps r E) in *.
    assert (exists reply, http_replies out = [(sm_reply_target (rq_msg r), reply)] /\
              hr_status reply ∈ [200; 404; 409; 429] /\ hr_body reply <> "" /\ reply_headers (hr_headers reply)) as (reply & H1 & H2).
    { destruct Hd as [id t Hd|Hn Hc|s' Hn Hc Ha].
      - edestruct answer_replies as (x & Hx & Hst & Hbody & Hhs); [exact Ht|].
        exists x. rewrite Hst, Hbody. split; [exact Hx|]. split; [simpl; set_solver+|split; [done|by apply Hhs]].
      - destruct (answer_replies e r (create_capacity_error_reply (reply_for (sm_reply_target (rq_msg r)))
          (get_max_concurrent_limit e)) Ht) as (x & Hx & Hst & Hbody & Hhs). exists x. rewrite Hx, Hst, Hbody.
        split; [done|]. split; [simpl; set_solver+|split; [done|by apply Hhs]].
      - rewrite http_replies_app, dispatched_silent. edestruct answer_replies as (x & Hx & Hst & Hbody & Hhs); [exact Ht|].
        exists x. rewrite Hst, Hbody. split; [exact Hx|]. split; [simpl; set_solver+|split; [done|by apply Hhs]]. }
    by exists s', out, reply.
  - unfold send_reply_to_http. apply Z.ltb_lt in Ht as ->. do 3 eexists. split; [done|]. split; [done|].
    revert Er. unfold resolve_target_processes. destruct (sm_capture_mode m); try done.
    + destruct (en_processes e (sm_proc_name m)); [|done]. intros [= <-]. split; [simpl; set_solver+|split; [done|by left]].
    + destruct (en_process e (sm_target_pid m)); [done|]. intros [= <-]. split; [simpl; set_solver+|split; [done|by left]].
Qed.

(** ** Stop and status *)

Lemma query_by_sid_total m sid : mgr_inv m -> exists r, query_task_by_sid m sid = Done r.
Proof.
  intros Hm. unfold query_task_by_sid, table_query_by. destruct (sid_to_id (curr_table m) !! sid) as [id|]; [|by eexists].
  fold (query_task m id). rewrite query_task_view by done. by eexists.
Qed.

Lemma handle_stop_cases e req s conn_id idx :
  mgr_inv (he_tasks e) -> he_manager e = Some idx -> 0 < obj_thread_index conn_id ->
  (exists r, handle_stop e req (Some s) conn_id = Done (true, r, []) /\ answers [400; 404] r) \/
  exists id, handle_stop e req (Some s) conn_id =
    Done (false, Some s, [(mkObjId OBJ_ID_THREAD idx, MsgStopCapture (mkStopMsg id conn_id))]).
Proof.
  intros Ht Hm Hc. unfold handle_stop.
  assert (forall id, send_to_capture_manager e (MsgStopCapture (mkStopMsg id conn_id)) (Some s) conn_id =
    Done (false, Some s, [(mkObjId OBJ_ID_THREAD idx, MsgStopCapture (mkStopMsg id conn_id))])) as Hsend.
  { intros id. unfold send_to_capture_manager. rewrite Hm. by destruct (Z.eqb_spec (obj_thread_index conn_id) 0); [lia|]. }
  assert (forall code text, code ∈ [400; 404] -> exists r,
    answer (set_error_response code text (Some s)) = Done (true, r, []) /\ answers [400; 404] r) as Herr.
  { intros code text Hcode. eexists. split; [done|]. by apply error_answers. }
  set (id := atoi_param _ _ _). set (sid := default "" _). clearbody id sid.
  destruct (Z.eqb_spec id 0) as [->|Hid]; cbn [andb].
  - destruct (is_empty sid); [left; apply Herr; set_solver+|].
    destruct (query_by_sid_total (he_tasks e) sid Ht) as [[sn|] ->]; cbn [mbind outcome_bind].
    + destruct (sn_capture_id sn =? 0); [left; apply Herr; set_solver+|]. right. by eexists.
    + left. apply Herr. set_solver+.
  - right. by eexists.
Qed.

Lemma digits_no_char c s : is_digit c = false -> str_all is_digit s = true -> has_char c s = false.
Proof.
  intros Hc. induction s as [|d s IH]; [done|]. simpl. rewrite andb_true_iff. intros [Hd Hs].
  rewrite IH by done. destruct (Ascii.eqb_spec d c) as [->|]; [congruence|done].
Qed.

Lemma fmt_d_no_char c z :
  - 2 ^ 63 <= z <= 2 ^ 63 -> is_digit c = false -> Ascii.eqb "-" c = false -> has_char c (fmt_d z) = false.
Proof.
  intros Hz Hc Hm. unfold fmt_d, fmt_u.
  assert (forall n, 0 <= n <= 2 ^ 63 -> has_char c (fmt_digits 20 n) = false) as Hd.
  { intros n Hn. apply digits_no_char; [done|].
    apply (fmt_digits_spec 20 n); [change (10 ^ Z.of_nat 20) with 100000000000000000000; lia|lia]. }
  destruct (Z.ltb_spec z 0); [|by apply Hd; lia]. rewrite str_app_cons, str_app_nil. cbn [has_char]. rewrite Hm. apply Hd. lia.
Qed.

Lemma atoi_fmt_d z : int_range z -> atoi (fmt_d z) = z.
Proof.
  unfold int_range. intros Hz. unfold atoi. rewrite strtol_fmt_d by (unfold LONG_MIN, LONG_MAX; lia).
  apply (signed_cast_small 32); lia.
Qed.

(** The parameters of a URL with one number. *)
Lemma number_param path key z :
  has_char "?" path = false -> key <> "" -> has_char "=" key = false -> has_char "&" key = false -> int_range z ->
  parse_query_params (path +:+ "?" +:+ key +:+ "=" +:+ fmt_d z) = {[key := fmt_d z]}.
Proof.
  unfold int_range. intros Hp Hk He Ha Hz.
  change (key +:+ "=" +:+ fmt_d z) with (print_params [(key, fmt_d z)]).
  rewrite parse_printed; [done|done|]. constructor; [|constructor]. split_and!; [done|done|done|].
  apply fmt_d_no_char; [lia|done|done].
Qed.

(** ** Properties *)

(** Every start request is answered exactly once.  A request that is not
    JSON, or names a process that does not run, is answered at once with 400 or
    404 and nothing is posted.  Any other is posted to the capture manager as
    the message its document asks for, and the connection waits: it has sent no
    head.  The manager, in any state it can be in, sends that connection one
    reply to a message whose filter is not blank, 200, 404, 409 or 429, and
    with it the data process has its response, whose Content-Length is the
    length of its body. *)
Theorem start_answered_once {V W} `{Json V} `{PdefFiles W} e req conn_id p (w : W) idx me s :
  he_manager e = Some idx -> 0 < obj_thread_index conn_id ->
  hq_method req = "POST" -> strip_query (hq_url_path req) = "/api/capture/start" ->
  manager_ok s -> mg_next_capture_id s < INT_MAX ->
  (exists p' code, msg_recv_finish e req conn_id p w = Done (p', [], w) /\ answered p p' code /\ code ∈ [400; 404]) \/
  exists p1 m doc,
    msg_recv_finish e req conn_id p w = Done (p1, [(mkObjId OBJ_ID_THREAD idx, MsgStartCapture m)], w) /\
    get_send_head p1 = None /\ dp_ready p1 = dp_ready p /\
    parse_body (Some (dp_recv_body p)) = Some doc /\
    m = (start_request (he_strategy e) doc conn_id) <| sm_enqueue_ts_ms := he_ms e |> /\
    (request_filtered me m = true -> exists s' out reply,
    CaptureManager.handle_msg me (MsgStartCapture m) s = Done (s', out) /\
    http_replies out = [(conn_id, reply)] /\
    answered p (handle_msg (MsgHttpReply reply) p1) (hr_status reply) /\ hr_status reply ∈ [200; 404; 409; 429]).
Proof.
  intros Hm Hc Hpost Hurl Hs Hlt.
  destruct (start_received e req conn_id p w idx Hm Hc Hpost Hurl)
    as [(p' & code & E & Ha & Hcode & _)|(p1 & m & doc & E & Hpend & Hready & Hhead & Hdoc & Em)]; [left; by exists p', code|right].
  assert (Ht : sm_reply_target m = conn_id) by (by subst m).
  exists p1, m, doc. split_and!; try done. intros Hf.
  destruct (start_replied me m s Hs Hlt) as (s' & out & reply & Eh & Hrep & Hst & _); [by rewrite Ht|done|].
  exists s', out, reply. rewrite Ht in Hrep. split_and!; try done.
  destruct (async_answered reply p1 _ eq_refl) as (A1 & A2 & A3). split_and!; [done|by rewrite A2, Hready|done].
Qed.

Definition demo_process0 : CRxHttpResDataProcess := mkDataProcess "{}" "" (mkResponse 200 "OK" ∅ "") false 0.
Definition demo_manager_env : env :=
  mkEnv 100 5 7 (2024, 1, 1, 0, 0, 0) (fun _ => []) (fun _ => None) None (Some 2) None [].

Lemma start_answered_once_witness :
  exists p1 out w, msg_recv_finish (H := tree_json (fun _ => Some (TObj []))) demo_http_env
      (mkReqHead "/api/capture/start" "POST") (mkObjId 7 2) demo_process0 (∅ : gmap string string) = Done (p1, out, w) /\
    length out = 1%nat /\ dp_pending p1 = true.
Proof.
  destruct (start_answered_once (H := tree_json (fun _ => Some (TObj []))) demo_http_env
    (mkReqHead "/api/capture/start" "POST") (mkObjId 7 2) demo_process0 (∅ : gmap string string) 3 demo_manager_env
    (new_manager 1 [5] [] no_files))
    as [(p' & code & E & _)|(p1 & m & doc & E & _)].
  - reflexivity.
  - reflexivity.
  - reflexivity.
  - reflexivity.
  - apply new_manager_ok.
  - reflexivity.
  - exfalso. vm_compute in E. discriminate.
  - do 3 eexists. split; [exact E|]. split; [reflexivity|]. vm_compute in E. injection E as <-. reflexivity.
Defined.

(** Nothing stops a capture.  A stop request is answered with 400 or 404, or
    posted to the manager, which replies 501 and changes nothing. *)
Theorem stop_never_stops {V W} `{Json V} `{PdefFiles W} e req s conn_id idx me ms :
  mgr_inv (he_tasks e) -> he_manager e = Some idx -> 0 < obj_thread_index conn_id ->
  hq_method req = "POST" -> strip_query (hq_url_path req) = "/api/capture/stop" ->
  get_url_handler (hq_url_path req) = Some HCaptureApi /\ forall body,
  ((exists r, CaptureApi_perform e (Some req) body (Some s) conn_id = Done (true, r, []) /\ answers [400; 404] r) \/
   exists m reply, CaptureApi_perform e (Some req) body (Some s) conn_id =
       Done (false, Some s, [(mkObjId OBJ_ID_THREAD idx, MsgStopCapture m)]) /\
     CaptureManager.handle_msg me (MsgStopCapture m) ms = Done (ms, [(conn_id, MsgHttpReply reply)]) /\
     hr_status reply = 501).
Proof.
  intros Ht Hm Hc Hpost Hurl. split; [unfold get_url_handler; by rewrite Hurl|]. intros body.
  assert (Hp : exists rest, hq_url_path req = "/api/capture/stop" +:+ rest).
  { unfold strip_query in Hurl. destruct (str_index "?" (hq_url_path req)) as [q|].
    - eexists. by rewrite <- Hurl, str_take_drop.
    - exists "". by rewrite str_app_nil_r. }
  destruct Hp as [rest Hp]. unfold CaptureApi_perform, starts_with. rewrite Hpost, Hp.
  change (is_prefix "/api/capture/start" ("/api/capture/stop" +:+ rest)) with false.
  change (is_prefix "/api/capture/stop" ("/api/capture/stop" +:+ rest)) with true.
  change (String.eqb "POST" "POST") with true. cbn [andb].
  destruct (handle_stop_cases e req s conn_id idx Ht Hm Hc) as [Hl|(id & E)]; [by left|right].
  do 2 eexists. split; [exact E|]. split; [|].
  - cbn [CaptureManager.handle_msg]. unfold handle_stop_capture, send_reply_to_http. cbn [sp_reply_target].
    apply Z.ltb_lt in Hc as ->. done.
  - done.
Qed.

Lemma stop_never_stops_witness :
  get_url_handler "/api/capture/stop?id=1000" = Some HCaptureApi /\
  exists m reply, CaptureManager.handle_msg demo_manager_env (MsgStopCapture m) (new_manager 1 [5] [] no_files) =
    Done (new_manager 1 [5] [] no_files, [(mkObjId 7 2, MsgHttpReply reply)]) /\ hr_status reply = 501.
Proof.
  destruct (stop_never_stops (H := tree_json (fun _ => None)) (W := gmap string string) demo_http_env
    (mkReqHead "/api/capture/stop?id=1000" "POST") (mkResponse 200 "OK" ∅ "") (mkObjId 7 2) 3 demo_manager_env
    (new_manager 1 [5] [] no_files)) as [Hr Hb].
  - apply new_mgr_inv.
  - reflexivity.
  - reflexivity.
  - reflexivity.
  - reflexivity.
  - split; [exact Hr|]. destruct (Hb None) as [(r & E & _)|(m & reply & _ & E & Hst)].
    + exfalso. vm_compute in E. discriminate.
    + exists m, reply. split; [exact E|exact Hst].
Defined.

(** The status of a capture is the task's.  For a request
    [/api/capture/status?id=n] with a positive [n] the answer is 200 with the
    fields of the task [n], or 404 when there is none; zero is 400.  A negative
    [n] names no task, yet it is answered with 200 and the fields of an empty
    snapshot. *)
Theorem status_reports_task {V} `{Json V} e n body s conn_id :
  mgr_inv (he_tasks e) -> int_range n ->
  CaptureApi_perform e (Some (mkReqHead ("/api/capture/status" +:+ "?" +:+ "id" +:+ "=" +:+ fmt_d n) "GET")) body
    (Some s) conn_id =
  answer
    (if n =? 0 then set_error_response 400 "Missing capture identifier" (Some s)
     else if 0 <? n then
       match tasks (he_tasks e) !! n with
       | Some t => set_json_response 200 "OK" (status_body (snapshot_of t)) (Some s)
       | None => set_error_response 404 "capture_not_found" (Some s)
       end
     else set_json_response 200 "OK" (status_body new_task_snapshot) (Some s)).
Proof.
  intros Ht Hn. unfold CaptureApi_perform, starts_with. cbn [hq_url_path hq_method].
  set (q := "?" +:+ "id" +:+ "=" +:+ fmt_d n).
  change (is_prefix "/api/capture/start" ("/api/capture/status" +:+ q)) with false.
  change (is_prefix "/api/capture/stop" ("/api/capture/status" +:+ q)) with false.
  change (is_prefix "/api/capture/status" ("/api/capture/status" +:+ q)) with true. cbn [andb orb String.eqb].
  unfold handle_status, status_ids. cbn [hq_method hq_url_path]. change (String.eqb "GET" "POST") with false.
  change (String.eqb "GET" "GET") with true. cbn [andb orb].
  subst q. rewrite (number_param "/api/capture/status" "id" n) by done.
  unfold atoi_param. rewrite lookup_singleton_ne, lookup_singleton_eq, lookup_singleton_ne by done.
  rewrite atoi_fmt_d by done. cbn [default is_empty]. destruct (Z.eqb_spec n 0) as [->|Hne]; cbn [andb]; [done|].
  destruct (Z.ltb_spec 0 n); [|done]. rewrite query_task_view by done. rewrite outcome_bind_done.
  by destruct (tasks (he_tasks e) !! n).
Qed.

Lemma status_reports_task_witness :
  CaptureApi_perform (H := tree_json (fun _ => None)) demo_http_env
    (Some (mkReqHead "/api/capture/status?id=-5" "GET")) None demo_response (mkObjId 7 2) =
  UrlHandlers.answer (set_json_response 200 "OK" (status_body new_task_snapshot) demo_response).
Proof.
  apply (status_reports_task (H := tree_json (fun _ => None)) demo_http_env (-5) None (mkResponse 200 "OK" ∅ "")
           (mkObjId 7 2)); [apply new_mgr_inv|unfold int_range; lia].
Defined.
