(* ===== verification/ProcessResolver.v ===== *)
(** * Finding processes (rxprocessresolver.cpp)

    What the manager asks about processes: which ones match a name, what a
    process listens on, whether it is alive.  The resolver reads [/proc]; the
    calls it makes there are parameters, and every text they give is parsed as
    the code parses it. *)

From Stdlib Require Import Sorted.
From S2P Require Import Prelude CppString Lexer TaskTypes Messages CaptureUtil.

(** [/proc] at the time of a call: [None] is a call that fails.  An entry of a
    directory comes with [d_type == DT_DIR]. *)
Record procfs := mkProcfs {
  pc_list : string -> option (list (string * bool));
  pc_readlink : string -> option string;
  pc_read : string -> option string;
  pc_is_dir : string -> bool;
}.

(** ** Numbers and lines *)

Fixpoint span_hex (s : string) : string :=
  match s with
  | String c s' => if is_hex_digit c then String c (span_hex s') else EmptyString
  | EmptyString => EmptyString
  end.

(** A sign, if there is one. *)
Definition split_sign (s : string) : bool * string :=
  match s with
  | String c s' => if Ascii.eqb c "-" then (true, s') else if Ascii.eqb c "+" then (false, s') else (false, s)
  | EmptyString => (false, s)
  end.

(** [0x] counts as a prefix when a digit follows it. *)
Definition skip_0x (s : string) : string :=
  match s with
  | String z (String x (String d _ as s')) =>
      if Ascii.eqb z "0" && (Ascii.eqb x "x" || Ascii.eqb x "X") && is_hex_digit d then s' else s
  | _ => s
  end.

(** [strtol(s, NULL, 16)] *)
Definition strtol16 (s : string) : Z :=
  let '(neg, s) := split_sign (skip_space s) in
  let v := digits_value 16 0 (span_hex (skip_0x s)) in
  clamp_long (if neg : bool then - v else v).

(** [strtoul(s, NULL, 10)]: a negative number wraps. *)
Definition strtoul (s : string) : Z :=
  let '(neg, s) := split_sign (skip_space s) in
  let v := digits_value 10 0 (fst (span_digits s)) in
  if UINT64_MAX <? v then UINT64_MAX else if neg : bool then u64 (- v) else v.

(** The lines [std::getline] reads one after the other. *)
Fixpoint split_lines (cur s : string) : list string :=
  match s with
  | EmptyString => if is_empty cur then [] else [cur]
  | String c s' => if Ascii.eqb c newline then cur :: split_lines "" s' else split_lines (push_back cur c) s'
  end.

(** The fields [iss >> field] reads. *)
Definition fields (line : string) : list string := tokens "" line.

(** ** Reading /proc *)

Section Resolver.
Variable fs : procfs.

Definition proc_path (pid : Z) (suffix : string) : string := "/proc/" +:+ fmt_d pid +:+ suffix.

Definition ReadFile (path : string) : string := default "" (pc_read fs path).

Definition GetCmdline (pid : Z) : string :=
  drop_end (fun c => Ascii.eqb c " ")
    (str_map (fun c => if Ascii.eqb c "000" then " "%char else c) (ReadFile (proc_path pid "/cmdline"))).

Definition GetComm (pid : Z) : string :=
  let content := ReadFile (proc_path pid "/comm") in
  if negb (is_empty content) && ends_with newline content
  then str_take (String.length content - 1) content else content.

(** [readlink] into 511 bytes and a NUL. *)
Definition read_link (path : string) : option string :=
  target ← pc_readlink fs path;
  let target := str_take 511 target in if is_empty target then None else Some target.

Definition GetNetNsPath (pid : Z) : string := default "" (read_link (proc_path pid "/ns/net")).

Definition socket_inode (target : string) : option Z :=
  if is_prefix "socket:[" target then
    let inode := strtoul (str_drop 8 target) in if 0 <? inode then Some inode else None
  else None.

Definition GetSocketInodes (pid : Z) : list Z :=
  let fd_path := proc_path pid "/fd" in
  omap (fun name =>
    if String.eqb name "." || String.eqb name ".." then None
    else read_link (str_take 511 (fd_path +:+ "/" +:+ name)) ≫= socket_inode)
    (map fst (default [] (pc_list fs fd_path))).

(** The port and inode of a line of a TCP table that a listening socket has. *)
Definition listen_entry (line : string) : option (Z * Z) :=
  match fields line with
  | _ :: local_address :: _ :: st :: _ :: _ :: _ :: _ :: _ :: inode_str :: _ =>
      match str_index ":" local_address with
      | None => None
      | Some colon =>
          if (String.length local_address <=? colon + 1)%nat then None
          else if negb (String.eqb st "0A") then None
          else
            let port := signed_cast 32 (strtol16 (str_drop (S colon) local_address)) in
            if port <=? 0 then None else Some (port, strtoul inode_str)
      end
  | _ => None
  end.

Definition ParseTcpFile (tcp_file : string) (inodes : list Z) : list Z :=
  match pc_read fs tcp_file with
  | None => []
  | Some content =>
      omap (fun line =>
        '(port, inode) ← listen_entry line;
        if (0 <? inode) && bool_decide (inode ∈ inodes) then Some port else None)
        (tail (split_lines "" content))
  end.

Definition GetListeningPorts (pid : Z) : list Z :=
  if pid <=? 0 then []
  else
    let inode_set := GetSocketInodes pid in
    sorted_unique (ParseTcpFile "/proc/net/tcp" inode_set ++ ParseTcpFile "/proc/net/tcp6" inode_set).

Definition contains_str (pattern s : string) : bool :=
  match find_str pattern s with Some _ => true | None => false end.

Definition MatchProcessName (cmdline comm pattern : string) : bool :=
  if is_empty pattern then false
  else if String.eqb comm pattern then true
  else if contains_str pattern comm then true
  else if contains_str pattern cmdline then true
  else
    match rfind_char "/" cmdline with
    | None => false
    | Some last_slash =>
        let exe_name := str_drop (S last_slash) cmdline in
        let exe_name := match str_index " " exe_name with Some space => str_take space exe_name | None => exe_name end in
        String.eqb exe_name pattern || contains_str pattern exe_name
    end.

Definition process_info (pid : Z) : SProcessInfo :=
  mkProcess pid (GetCmdline pid) (GetComm pid) (GetListeningPorts pid) (GetNetNsPath pid).

(** The process id a directory name is; [pid_t] has 32 bits. *)
Definition pid_of_name (name : string) : option Z :=
  match strtol name with
  | Some (v, EmptyString) => let pid := signed_cast 32 v in if pid <=? 0 then None else Some pid
  | _ => None
  end.

Definition FindProcessesByName (proc_name : string) : list SProcessInfo :=
  if is_empty proc_name then []
  else
    omap (fun '(name, is_dir) =>
      if negb is_dir then None
      else
        pid ← pid_of_name name;
        if MatchProcessName (GetCmdline pid) (GetComm pid) proc_name then Some (process_info pid) else None)
      (default [] (pc_list fs "/proc")).

(** [None] is the result [false]. *)
Definition GetProcessInfo (pid : Z) : option SProcessInfo :=
  if is_empty (GetComm pid) then None else Some (process_info pid).

Definition IsProcessAlive (pid : Z) : bool := if pid <=? 0 then false else pc_is_dir fs (proc_path pid "").
End Resolver.

(** ** Matching names *)

Lemma contains_str_spec p s : contains_str p s = true <-> exists a b, s = a +:+ p +:+ b.
Proof.
  unfold contains_str. split.
  - destruct (find_str p s) as [n|] eqn:E; [|done]. intros _. apply find_str_spec in E. eauto.
  - intros (a & b & ->). pose proof (find_str_none p a b) as Hn. by destruct (find_str p _).
Qed.

Lemma contains_part p a s b : contains_str p s = true -> contains_str p (a +:+ s +:+ b) = true.
Proof.
  rewrite !contains_str_spec. intros (x & y & ->). exists (a +:+ x), (y +:+ b). by rewrite !str_app_assoc.
Qed.

Lemma contains_self p : contains_str p p = true.
Proof. apply contains_str_spec. exists "", "". by rewrite str_app_nil, str_app_nil_r. Qed.

(** ** Lines and fields *)

Lemma split_lines_line line cur rest :
  has_char newline line = false ->
  split_lines cur (line +:+ String newline rest) = (cur +:+ line) :: split_lines "" rest.
Proof.
  revert cur. induction line as [|c line IH]; intros cur; [by rewrite str_app_nil, str_app_nil_r|].
  rewrite str_app_cons. cbn [has_char split_lines]. intros [Hc Hl]%orb_false_iff. rewrite Hc, IH by done.
  by rewrite push_back_app.
Qed.

(** Lines, each ended by a newline. *)
Fixpoint print_lines (l : list string) : string :=
  match l with [] => "" | line :: l => line +:+ String newline (print_lines l) end.

Lemma split_print_lines l : Forall (fun line => has_char newline line = false) l -> split_lines "" (print_lines l) = l.
Proof. induction 1 as [|line l Hline Hl IH]; [done|]. cbn [print_lines]. by rewrite split_lines_line, IH. Qed.

Definition word (w : string) : Prop := str_all (fun c => negb (isspace c)) w = true /\ w <> "".

Lemma tokens_first w rest : word w -> tokens "" (w +:+ String " " rest) = w :: tokens "" rest.
Proof.
  intros [Hw Hne]. rewrite tokens_word by done. rewrite str_app_nil. cbn [tokens].
  change (isspace " ") with true. cbn iota. by destruct (is_empty_spec w).
Qed.

(** ** Hexadecimal *)

Definition hex_upper (d : Z) : ascii := if d <? 10 then ascii_of_nat (48 + Z.to_nat d) else ascii_of_nat (55 + Z.to_nat d).

(** [%0nX]. *)
Fixpoint fmt_X (n : nat) (z : Z) : string :=
  match n with O => "" | S n => fmt_X n (z / 16) +:+ String (hex_upper (z mod 16)) "" end.

Lemma hex_upper_value d : 0 <= d < 16 -> is_hex_digit (hex_upper d) = true /\ digit_value (hex_upper d) = d.
Proof.
  intros Hd. assert (d = 0 \/ d = 1 \/ d = 2 \/ d = 3 \/ d = 4 \/ d = 5 \/ d = 6 \/ d = 7 \/ d = 8 \/ d = 9 \/
    d = 10 \/ d = 11 \/ d = 12 \/ d = 13 \/ d = 14 \/ d = 15) as Hcases by lia.
  repeat (destruct Hcases as [->|Hcases]; [split; reflexivity|]). subst d. split; reflexivity.
Qed.

Lemma fmt_X_spec n z :
  0 <= z < 16 ^ Z.of_nat n -> str_all is_hex_digit (fmt_X n z) = true /\ digits_value 16 0 (fmt_X n z) = z.
Proof.
  revert z. induction n as [|n IH]; intros z Hz; [simpl in *; split; [done|lia]|].
  rewrite Nat2Z.inj_succ, Z.pow_succ_r in Hz by lia. cbn [fmt_X].
  destruct (IH (z / 16)) as [H1 H2].
  { split; [apply Z.div_pos; lia|]. apply Z.div_lt_upper_bound; lia. }
  destruct (hex_upper_value (z mod 16)) as [H3 H4]; [apply Z.mod_pos_bound; lia|].
  rewrite str_all_app, digits_value_app, H1, H2. cbn [str_all digits_value]. rewrite H3, H4. split; [done|].
  pose proof (Z.div_mod z 16). lia.
Qed.

Lemma fmt_X_length n z : String.length (fmt_X n z) = n.
Proof. revert z. induction n as [|n IH]; intros z; [done|]. cbn [fmt_X]. rewrite str_length_app, IH. simpl. lia. Qed.

Lemma span_hex_all s : str_all is_hex_digit s = true -> span_hex s = s.
Proof. induction s as [|c s IH]; [done|]. simpl. intros [-> Hs]%andb_true_iff. by rewrite IH. Qed.

Lemma strtol16_fmt_X z : 0 <= z < 2 ^ 16 -> strtol16 (fmt_X 4 z) = z.
Proof.
  intros Hz. destruct (fmt_X_spec 4 z) as [Hall Hv]; [simpl Z.of_nat; lia|].
  assert (forall s, str_all is_hex_digit s = true -> (String.length s = 4)%nat ->
    split_sign (skip_space s) = (false, s) /\ skip_0x s = s) as Hs.
  { intros [|c s] Hs Hl; [done|]. simpl in Hs. apply andb_true_iff in Hs as [Hc Hs].
    by_class c (fun c => negb (is_hex_digit c) ||
      (negb (isspace c) && negb (Ascii.eqb c "-") && negb (Ascii.eqb c "+"))).
    rewrite Hc in Hclass. cbn [negb orb] in Hclass. zbool. destruct Hclass as [[H1 H2] H3]. split.
    - cbn [skip_space]. rewrite H1. cbn [split_sign]. by rewrite H2, H3.
    - destruct s as [|x [|d s]]; [done|done|]. simpl in Hs. apply andb_true_iff in Hs as [Hx _].
      by_class x (fun c => negb (is_hex_digit c) || (negb (Ascii.eqb c "x") && negb (Ascii.eqb c "X"))).
      rewrite Hx in Hclass. cbn [negb orb] in Hclass. zbool. destruct Hclass as [H4 H5].
      cbn [skip_0x]. by rewrite H4, H5, andb_false_r. }
  destruct (Hs _ Hall (fmt_X_length 4 z)) as [H1 H2]. unfold strtol16. rewrite H1, H2, span_hex_all, Hv by done.
  unfold clamp_long, LONG_MIN, LONG_MAX. lia.
Qed.

(** ** The tables of TCP sockets *)

(** [%ns]: padded with spaces on the left. *)
Fixpoint spaces (n : nat) : string := match n with O => "" | S n => String " " (spaces n) end.

Definition pad (n : nat) (s : string) : string := spaces (n - String.length s) +:+ s.

(** A socket as the kernel prints it in [/proc/net/tcp] and [/proc/net/tcp6]
    (Documentation/networking/proc_net_tcp.rst).  The remote address, the
    queues, the timer and the retransmissions are words whose content the code
    does not use; [tk_rest] is all that follows the inode, the spaces that
    fill the line up included. *)
Record tcp_socket := mkSocket {
  tk_slot : Z;
  tk_address : string;
  tk_port : Z;
  tk_remote : string;
  tk_state : string;
  tk_queues : string;
  tk_timer : string;
  tk_retransmits : string;
  tk_uid : Z;
  tk_timeout : Z;
  tk_inode : Z;
  tk_rest : string;
}.

(** [%4d: %08X:%04X %08X:%04X %02X %08X:%08X %02X:%08lX %08X %5u %8d %lu ...] *)
Definition print_socket (k : tcp_socket) : string :=
  pad 4 (fmt_u (tk_slot k)) +:+ ":" +:+ String " " (tk_address k +:+ ":" +:+ fmt_X 4 (tk_port k) +:+ String " " (tk_remote k
    +:+ String " " (tk_state k +:+ String " " (tk_queues k +:+ String " " (tk_timer k +:+ String " " (tk_retransmits k
    +:+ String " " (pad 5 (fmt_u (tk_uid k)) +:+ String " " (pad 8 (fmt_u (tk_timeout k)) +:+ String " " (fmt_u (tk_inode k)
    +:+ tk_rest k))))))))).

Record socket_ok (k : tcp_socket) : Prop := {
  sk_slot : 0 <= tk_slot k < 2 ^ 63;
  sk_address : word (tk_address k);
  sk_no_colon : has_char ":" (tk_address k) = false;
  sk_port : 0 <= tk_port k < 2 ^ 16;
  sk_remote : word (tk_remote k);
  sk_state : word (tk_state k);
  sk_queues : word (tk_queues k);
  sk_timer : word (tk_timer k);
  sk_retransmits : word (tk_retransmits k);
  sk_uid : 0 <= tk_uid k < 2 ^ 32;
  sk_timeout : 0 <= tk_timeout k < 2 ^ 31;
  sk_inode : 0 <= tk_inode k < 2 ^ 64;
  sk_rest : match tk_rest k with "" => True | String c _ => c = " "%char end;
  sk_one_line : has_char newline (print_socket k) = false;
}.

Definition listening (k : tcp_socket) : bool := String.eqb (tk_state k) "0A" && (0 <? tk_port k).

Lemma fmt_u_digits z : 0 <= z < 2 ^ 64 ->
  str_all is_digit (fmt_u z) = true /\ digits_value 10 0 (fmt_u z) = z /\ fmt_u z <> "".
Proof.
  intros Hz. destruct (fmt_digits_spec 20 z) as (H1 & H2 & H3);
    [change (10 ^ Z.of_nat 20) with 100000000000000000000; lia|lia|].
  split_and!; [done|done|]. unfold fmt_u. intros E. rewrite E in H3. simpl in H3. lia.
Qed.

Lemma digits_no_space s : str_all is_digit s = true -> str_all (fun c => negb (isspace c)) s = true.
Proof.
  apply str_all_weaken. intros c Hc. by_class c (fun c => negb (is_digit c) || negb (isspace c)).
  by rewrite Hc in Hclass.
Qed.

Lemma hex_no_space s : str_all is_hex_digit s = true -> str_all (fun c => negb (isspace c)) s = true.
Proof.
  apply str_all_weaken. intros c Hc. by_class c (fun c => negb (is_hex_digit c) || negb (isspace c)).
  by rewrite Hc in Hclass.
Qed.

Lemma strtoul_fmt_u z : 0 <= z < 2 ^ 64 -> forall rest, (match rest with String c _ => is_digit c = false | "" => True end) ->
  strtoul (fmt_u z +:+ rest) = z.
Proof.
  intros Hz rest Hrest. destruct (fmt_u_digits z Hz) as (H1 & H2 & H3). unfold strtoul.
  assert (split_sign (skip_space (fmt_u z +:+ rest)) = (false, fmt_u z +:+ rest)) as ->.
  { destruct (fmt_u z) as [|c s]; [done|]. simpl in H1. apply andb_true_iff in H1 as [Hc _]. rewrite str_app_cons.
    by_class c (fun c => negb (is_digit c) || (negb (isspace c) && negb (Ascii.eqb c "-") && negb (Ascii.eqb c "+"))).
    rewrite Hc in Hclass. cbn [negb orb] in Hclass. zbool. destruct Hclass as [[E1 E2] E3].
    cbn [skip_space]. rewrite E1. cbn [split_sign]. by rewrite E2, E3. }
  rewrite span_digits_app by done. cbn [fst]. rewrite H2. destruct (Z.ltb_spec UINT64_MAX z); [unfold UINT64_MAX in *; lia|done].
Qed.

Lemma tokens_spaces n s : tokens "" (spaces n +:+ s) = tokens "" s.
Proof. induction n as [|n IH]; [done|exact IH]. Qed.

Lemma tokens_pad n w rest : word w -> tokens "" (pad n w +:+ String " " rest) = w :: tokens "" rest.
Proof. intros Hw. unfold pad. by rewrite str_app_assoc, tokens_spaces, tokens_first. Qed.

Lemma word_fmt_u z : 0 <= z < 2 ^ 64 -> word (fmt_u z).
Proof. intros Hz. destruct (fmt_u_digits z Hz) as (H1 & _ & H2). split; [by apply digits_no_space|done]. Qed.

(** The last field the code reads ends at a space or at the end of the line. *)
Lemma tokens_last w rest : word w -> match rest with "" => True | String c _ => c = " "%char end ->
  exists more, tokens "" (w +:+ rest) = w :: more.
Proof.
  intros Hw Hr. destruct rest as [|c rest].
  - exists []. destruct Hw as [Hw Hne]. rewrite tokens_word by done. rewrite str_app_nil. cbn [tokens].
    by destruct (is_empty_spec w).
  - subst c. exists (tokens "" rest). by apply tokens_first.
Qed.

Lemma word_app_r a b : word a -> str_all (fun c => negb (isspace c)) b = true -> word (a +:+ b).
Proof. intros [H1 H2] Hb. split; [by rewrite str_all_app, H1, Hb|]. by destruct a. Qed.

Lemma print_socket_fields k : socket_ok k -> exists more,
  fields (print_socket k) =
    (fmt_u (tk_slot k) +:+ ":") :: (tk_address k +:+ ":" +:+ fmt_X 4 (tk_port k)) :: tk_remote k :: tk_state k ::
     tk_queues k :: tk_timer k :: tk_retransmits k :: fmt_u (tk_uid k) :: fmt_u (tk_timeout k) :: fmt_u (tk_inode k) :: more.
Proof.
  intros []. destruct (tokens_last (fmt_u (tk_inode k)) (tk_rest k)) as [more Hmore]; [by apply word_fmt_u|done|].
  exists more. unfold fields, print_socket. destruct (fmt_X_spec 4 (tk_port k)) as [X1 _]; [simpl Z.of_nat; lia|].
  assert (word (fmt_u (tk_slot k) +:+ ":")) as Hw by (apply word_app_r; [apply word_fmt_u; lia|done]).
  unfold pad at 1. rewrite str_app_assoc, tokens_spaces, <- (str_app_assoc (fmt_u _)), tokens_first by done. f_equal.
  rewrite <- (str_app_assoc ":"), <- (str_app_assoc (tk_address k)), tokens_first; [f_equal|].
  2: { apply word_app_r; [done|]. rewrite str_all_app, (hex_no_space (fmt_X _ _)) by done. done. }
  do 5 (rewrite tokens_first by done; f_equal).
  do 2 (rewrite tokens_pad by (apply word_fmt_u; lia); f_equal). exact Hmore.
Qed.

Lemma listen_entry_print k : socket_ok k ->
  listen_entry (print_socket k) = if listening k then Some (tk_port k, tk_inode k) else None.
Proof.
  intros Hk. unfold listen_entry. destruct (print_socket_fields k Hk) as [more ->]. destruct Hk as [].
  change (tk_address k +:+ ":" +:+ fmt_X 4 (tk_port k)) with (tk_address k +:+ String ":" (fmt_X 4 (tk_port k))).
  rewrite str_index_here, str_drop_S_app by done.
  assert (String.length (tk_address k +:+ String ":" (fmt_X 4 (tk_port k))) = String.length (tk_address k) + 5)%nat as ->
    by (rewrite str_length_app; f_equal; change (S (String.length (fmt_X 4 (tk_port k))) = 5%nat); by rewrite fmt_X_length).
  destruct (Nat.leb_spec (String.length (tk_address k) + 5) (String.length (tk_address k) + 1)); [lia|].
  unfold listening. destruct (String.eqb (tk_state k) "0A"); [|done]. cbn [negb andb].
  rewrite strtol16_fmt_X by done. rewrite (signed_cast_small 32) by lia.
  rewrite <- (str_app_nil_r (fmt_u (tk_inode k))), strtoul_fmt_u by (done || lia).
  destruct (Z.leb_spec (tk_port k) 0), (Z.ltb_spec 0 (tk_port k)); try lia; done.
Qed.

(** A table: the heading and a line per socket. *)
Definition print_table (heading : string) (l : list tcp_socket) : string := print_lines (heading :: map print_socket l).

(** ** The descriptors of a process *)

(** [/proc/<pid>/fd/<n>] of a socket (proc(5)). *)
Definition link_text (inode : Z) : string := "socket:[" +:+ fmt_u inode +:+ "]".

Lemma socket_inode_link inode : 0 < inode < 2 ^ 64 -> socket_inode (link_text inode) = Some inode.
Proof.
  intros Hi. unfold socket_inode, link_text. rewrite is_prefix_app.
  change 8%nat with (String.length "socket:["). rewrite str_drop_app, strtoul_fmt_u by (done || lia).
  by destruct (Z.ltb_spec 0 inode); [|lia].
Qed.

Lemma fmt_u_length z : 0 <= z < 2 ^ 64 -> (String.length (fmt_u z) <= 20)%nat.
Proof.
  intros Hi. destruct (fmt_digits_spec 20 z) as (_ & _ & H);
    [change (10 ^ Z.of_nat 20) with 100000000000000000000; lia|lia|]. unfold fmt_u. lia.
Qed.

Lemma link_text_short inode : 0 <= inode < 2 ^ 64 -> (String.length (link_text inode) <= 29)%nat.
Proof. intros Hi%fmt_u_length. unfold link_text. rewrite !str_length_app. cbn [String.length]. lia. Qed.

Definition fd_path (pid : Z) (name : string) : string := proc_path pid "/fd" +:+ "/" +:+ name.

(** What proc(5) says of the descriptors: a name has at most NAME_MAX bytes,
    and a link that starts with [socket:\[] is the link of a socket; files,
    pipes and the rest have links of another form. *)
Record fd_table (fs : procfs) (pid : Z) : Prop := {
  ft_names : forall names name d, pc_list fs (proc_path pid "/fd") = Some names -> (name, d) ∈ names ->
    (String.length name <= 255)%nat;
  ft_links : forall name target, pc_readlink fs (fd_path pid name) = Some target -> is_prefix "socket:[" target = true ->
    exists inode, 0 < inode < 2 ^ 64 /\ target = link_text inode;
}.

(** The socket is open in the process: a descriptor is a link to it. *)
Definition owns (fs : procfs) (pid inode : Z) : Prop :=
  exists names name d, pc_list fs (proc_path pid "/fd") = Some names /\ (name, d) ∈ names /\
    name <> "." /\ name <> ".." /\ pc_readlink fs (fd_path pid name) = Some (link_text inode).

Lemma fd_path_short pid name : 0 < pid < 2 ^ 31 -> (String.length name <= 255)%nat -> str_take 511 (fd_path pid name) = fd_path pid name.
Proof.
  intros Hp Hn. apply str_take_all. unfold fd_path, proc_path, fmt_d. destruct (Z.ltb_spec pid 0); [lia|].
  pose proof (fmt_u_length pid ltac:(lia)). rewrite !str_length_app. cbn [String.length]. lia.
Qed.

Lemma is_prefix_take p n s : is_prefix p (str_take n s) = true -> is_prefix p s = true.
Proof.
  revert p s. induction n as [|n IH]; intros [|c p] [|d s]; try done. cbn [str_take is_prefix].
  intros [-> H]%andb_true_iff. by apply IH.
Qed.

(** The inodes read are those of the sockets the process has open. *)
Lemma socket_inodes_owned fs pid inode :
  0 < pid < 2 ^ 31 -> fd_table fs pid -> 0 < inode < 2 ^ 64 -> inode ∈ GetSocketInodes fs pid <-> owns fs pid inode.
Proof.
  intros Hpid [Hnames Hlinks] Hi. unfold GetSocketInodes, owns.
  destruct (pc_list fs (proc_path pid "/fd")) as [names|] eqn:El; cbn [default].
  2: { split; [by intros ?%list_elem_of_In|]. by intros (? & ? & ? & [=] & _). }
  rewrite list_elem_of_omap. split.
  - intros (name & ((n & d) & -> & Hin)%list_elem_of_fmap & E). cbn [fst] in E.
    destruct (String.eqb_spec n "."), (String.eqb_spec n ".."); try done. cbn [orb] in E.
    change (proc_path pid "/fd" +:+ "/" +:+ n) with (fd_path pid n) in E.
    rewrite fd_path_short in E by eauto. unfold read_link in E.
    destruct (pc_readlink fs (fd_path pid n)) as [target|] eqn:Er; [|done]. cbn [mbind option_bind] in E.
    destruct (is_empty (str_take 511 target)); [done|]. cbn [mbind option_bind] in E.
    assert (is_prefix "socket:[" target = true) as Hpre.
    { apply (is_prefix_take _ 511). unfold socket_inode in E. by destruct (is_prefix _ _). }
    destruct (Hlinks _ _ Er Hpre) as (i & Hi' & ->).
    rewrite str_take_all, socket_inode_link in E by (done || (pose proof (link_text_short i); lia)).
    injection E as <-. by exists names, n, d.
  - intros (names' & name & d & [= <-] & Hin & H1 & H2 & Hr). exists name.
    split; [apply list_elem_of_fmap; by exists (name, d)|].
    apply String.eqb_neq in H1 as ->. apply String.eqb_neq in H2 as ->. cbn [orb].
    change (proc_path pid "/fd" +:+ "/" +:+ name) with (fd_path pid name). rewrite fd_path_short by eauto.
    unfold read_link. rewrite Hr. cbn [mbind option_bind].
    rewrite str_take_all by (pose proof (link_text_short inode); lia).
    change (is_empty (link_text inode)) with false. cbn [mbind option_bind]. by apply socket_inode_link.
Qed.

Lemma parse_table fs file heading l inodes p :
  pc_read fs file = Some (print_table heading l) -> has_char newline heading = false -> Forall socket_ok l ->
  p ∈ ParseTcpFile fs file inodes <->
  exists k, k ∈ l /\ listening k = true /\ tk_port k = p /\ 0 < tk_inode k /\ tk_inode k ∈ inodes.
Proof.
  intros Hr Hh Hl. unfold ParseTcpFile. rewrite Hr. unfold print_table. rewrite split_print_lines.
  2: { constructor; [done|]. apply Forall_map. eapply Forall_impl; [exact Hl|]. by intros k []. }
  cbn [tail]. rewrite list_elem_of_omap. rewrite Forall_forall in Hl. split.
  - intros (line & (k & -> & Hk)%list_elem_of_fmap & E).
    rewrite listen_entry_print in E by auto. exists k. destruct (listening k); [|done]. cbn [mbind option_bind] in E.
    destruct (Z.ltb_spec 0 (tk_inode k)); [|done]. cbn [andb] in E. case_bool_decide; [|done]. by injection E as ->.
  - intros (k & Hk & Hlis & <- & Hpos & Hin). exists (print_socket k).
    split; [apply list_elem_of_fmap; by exists k|]. rewrite listen_entry_print, Hlis by auto. cbn [mbind option_bind].
    destruct (Z.ltb_spec 0 (tk_inode k)); [|lia]. by rewrite bool_decide_true.
Qed.

(** ** Properties *)

(** A process matches a name exactly when the name is not empty and occurs in
    its [comm] or in its command line: the comparison of [comm] and the search
    in the name of the executable find nothing the two searches do not. *)
Theorem match_is_substring cmdline comm pattern :
  MatchProcessName cmdline comm pattern =
    negb (is_empty pattern) && (contains_str pattern comm || contains_str pattern cmdline).
Proof.
  unfold MatchProcessName. destruct (is_empty pattern); [done|]. cbn [negb andb].
  destruct (String.eqb_spec comm pattern) as [->|_]; [by rewrite contains_self|].
  destruct (contains_str pattern comm); [done|]. cbn [orb].
  destruct (contains_str pattern cmdline) eqn:Ec; [done|].
  destruct (rfind_char "/" cmdline) as [n|] eqn:Er; [|done].
  set (exe := match str_index " " _ with Some _ => _ | None => _ end).
  assert (exists a b, cmdline = a +:+ exe +:+ b) as (a & b & Hcmd).
  { subst exe. set (rest := str_drop (S n) cmdline).
    assert (cmdline = str_take (S n) cmdline +:+ rest) as Hsplit by (by rewrite str_take_drop).
    destruct (str_index " " rest) as [m|]; exists (str_take (S n) cmdline).
    - exists (str_drop m rest). by rewrite str_take_drop.
    - exists "". by rewrite str_app_nil_r. }
  destruct (contains_str pattern exe) eqn:Ee.
  - rewrite Hcmd, contains_part in Ec by done. done.
  - destruct (String.eqb_spec exe pattern) as [Heq|]; [|done]. by rewrite Heq, contains_self in Ee.
Qed.

(** C35: The listening ports of a process.  When the tables of TCP sockets and
    the links of the descriptors have the form the kernel gives them, the
    result is strictly ascending and holds exactly the local ports of the
    listening sockets that some descriptor of the process is a link to; the
    other links of the process and the sockets of other processes add nothing. *)
Theorem listening_ports_correct fs pid heading4 heading6 tcp4 tcp6 :
  0 < pid < 2 ^ 31 -> fd_table fs pid ->
  pc_read fs "/proc/net/tcp" = Some (print_table heading4 tcp4) -> has_char newline heading4 = false ->
  pc_read fs "/proc/net/tcp6" = Some (print_table heading6 tcp6) -> has_char newline heading6 = false ->
  Forall socket_ok (tcp4 ++ tcp6) ->
  StronglySorted Z.lt (GetListeningPorts fs pid) /\
  forall p, p ∈ GetListeningPorts fs pid <->
    exists k, k ∈ tcp4 ++ tcp6 /\ listening k = true /\ tk_port k = p /\ 0 < tk_inode k /\ owns fs pid (tk_inode k).
Proof.
  intros Hpid Hfd H4 Hh4 H6 Hh6 Hall. pose proof Hall as [Ha4 Ha6]%Forall_app.
  unfold GetListeningPorts. destruct (Z.leb_spec pid 0); [lia|]. split; [apply sorted_unique_spec|]. intros p.
  rewrite (proj2 (sorted_unique_spec _)), elem_of_app.
  rewrite (parse_table fs "/proc/net/tcp" heading4 tcp4), (parse_table fs "/proc/net/tcp6" heading6 tcp6) by done.
  rewrite Forall_forall in Hall. setoid_rewrite elem_of_app in Hall. setoid_rewrite elem_of_app. split.
  - intros [(k & Hk & Hlis & Hport & Hpos & Hin)|(k & Hk & Hlis & Hport & Hpos & Hin)]; exists k;
      (split_and!; [auto|done..|]); apply socket_inodes_owned in Hin; try done;
      (split; [done|apply sk_inode; auto]).
  - intros (k & Hk & Hlis & Hport & Hpos & Ho).
    assert (tk_inode k ∈ GetSocketInodes fs pid) as Hin.
    { apply socket_inodes_owned; try done. split; [done|]. by apply sk_inode, Hall. }
    destruct Hk as [Hk|Hk]; [left|right]; by exists k.
Qed.

Definition demo_socket (port inode : Z) : tcp_socket :=
  mkSocket 0 "0100007F" port "00000000:0000" "0A" "00000000:00000000" "00:00000000" "00000000" 33 0 inode
    " 1 0000000000000000 100 0 0 10 0                     ".

Example demo_socket_line : print_socket (demo_socket 8080 555) =
  "   0: 0100007F:1F90 00000000:0000 0A 00000000:00000000 00:00000000 00000000    33        0 555 1 0000000000000000 100 0 0 10 0                     ".
Proof. reflexivity. Qed.

(** The process 12 has a socket and a pipe open; the digits of the pipe's inode
    happen to contain the inode of the socket of another process. *)
Definition demo_proc : procfs :=
  mkProcfs (fun path => if String.eqb path "/proc/12/fd" then Some [(".", true); ("3", false); ("4", false)] else None)
    (fun path => if String.eqb path "/proc/12/fd/3" then Some "socket:[555]"
                 else if String.eqb path "/proc/12/fd/4" then Some "pipe:[12345]" else None)
    (fun path => if String.eqb path "/proc/net/tcp" then Some (print_table "sl" [demo_socket 8080 555; demo_socket 22 345])
                 else if String.eqb path "/proc/net/tcp6" then Some (print_table "sl" []) else None)
    (fun _ => true).

Lemma listening_ports_correct_witness : 8080 ∈ GetListeningPorts demo_proc 12 /\ ~ 22 ∈ GetListeningPorts demo_proc 12.
Proof.
  destruct (listening_ports_correct demo_proc 12 "sl" "sl" [demo_socket 8080 555; demo_socket 22 345] []) as (_ & H).
  - lia.
  - split.
    + intros names name d [= <-]. intros [[= <- _]|[[= <- _]|[[= <- _]|[]]]]%list_elem_of_In; simpl; lia.
    + intros name target. unfold demo_proc. cbn [pc_readlink].
      destruct (String.eqb _ _); [intros [= <-] _; exists 555; split; [lia|reflexivity]|].
      destruct (String.eqb _ _); [intros [= <-]; discriminate|discriminate].
  - reflexivity.
  - reflexivity.
  - reflexivity.
  - reflexivity.
  - constructor; [constructor; simpl; try done; lia|]. constructor; [constructor; simpl; try done; lia|constructor].
  - split.
    + apply H. exists (demo_socket 8080 555). split_and!; [left|reflexivity|reflexivity|simpl; lia|].
      exists [(".", true); ("3", false); ("4", false)], "3", false. split_and!; [reflexivity|right; left|discriminate..|reflexivity].
    + intros (k & Hk & _ & Hport & _ & names & name & d & _ & _ & _ & _ & Hr)%H. apply list_elem_of_In in Hk.
      destruct Hk as [<-|[<-|[]]]; [discriminate|]. unfold demo_proc in Hr. cbn [pc_readlink] in Hr.
      destruct (String.eqb _ _); [discriminate|]. destruct (String.eqb _ _); discriminate.
Defined.
