(* ===== verification/SampleThread.v ===== *)
(** * Sampling the system (rxsamplethread.cpp)

    The thread that compares a sample of the system's load with the thresholds
    of the strategy configuration and alerts the capture manager.  The sample is
    a parameter: [D] is the type of the [double] measurements, and [exceeds] the
    comparison of one with an [int]. *)

From S2P Require Import Prelude CppString TaskTypes Messages ProcData Config.

Record SRxSystemStats (D : Type) := mkStats {
  ss_cpu_percent : D;
  ss_memory_percent : D;
  ss_network_rx_kbps : D;
  ss_timestamp : Z;
}.
Arguments mkStats {D}.
Arguments ss_cpu_percent {D}.
Arguments ss_memory_percent {D}.
Arguments ss_network_rx_kbps {D}.
Arguments ss_timestamp {D}.

Record CRxSampleThread := mkSampler { sp_thr : SRxThresholds; sp_modules : list CRxSampleModule }.

Definition new_sampler : CRxSampleThread := mkSampler new_thresholds [].

(** [load_config], called by [start] only. *)
Definition load_config (cfg : option strategy) (t : CRxSampleThread) : CRxSampleThread :=
  match cfg with
  | Some s => mkSampler (sy_thresholds s) (sy_sample_modules s)
  | None => mkSampler (sp_thr t) []
  end.

Section Sample.
Context {D : Type} (exceeds : D -> Z -> bool).

(** [(threshold > 0 && value > threshold)] *)
Definition hit (threshold : Z) (value : D) : bool := (0 <? threshold) && exceeds value threshold.

(** The fields of the message but those of the module. *)
Definition alert_of (s : SRxSystemStats D) (cpu_hit mem_hit net_hit : bool) (name hint category : string)
    (duration cooldown cpu mem net : Z) : SRxSampleMsg :=
  mkSampleMsg (ss_timestamp s) cpu_hit mem_hit net_hit 0 name hint category duration cooldown cpu mem net.

Definition emit_alert (cfg : option strategy) (manager : option Z) (t : CRxSampleThread) (s : SRxSystemStats D)
    (module : option CRxSampleModule) (cpu_hit mem_hit net_hit : bool) : outbox :=
  let msg :=
    match module with
    | Some m =>
        alert_of s cpu_hit mem_hit net_hit (md_name m) (md_capture_hint m) (md_capture_category m)
          (md_capture_duration_sec m) (md_cooldown_sec m) (md_cpu_pct_gt m) (md_mem_pct_gt m) (md_net_rx_kbps_gt m)
    | None =>
        let '(duration, category) :=
          match cfg with
          | Some c => (df_duration_sec (sc_defaults (sy_base c)), df_category (sc_defaults (sy_base c)))
          | None => (0, "")
          end in
        alert_of s cpu_hit mem_hit net_hit "default" "" category duration 0
          (th_cpu_pct_gt (sp_thr t)) (th_mem_pct_gt (sp_thr t)) (th_net_rx_kbps_gt (sp_thr t))
    end in
  match manager with
  | Some index => [(mkObjId OBJ_ID_THREAD index, MsgSampleAlert msg)]
  | None => []
  end.

(** One module, or the thresholds: an alert when one of them is exceeded. *)
Definition check (cfg : option strategy) (manager : option Z) (t : CRxSampleThread) (s : SRxSystemStats D)
    (module : option CRxSampleModule) (cpu mem net : Z) : outbox :=
  let cpu_hit := hit cpu (ss_cpu_percent s) in
  let mem_hit := hit mem (ss_memory_percent s) in
  let net_hit := hit net (ss_network_rx_kbps s) in
  if cpu_hit || mem_hit || net_hit then emit_alert cfg manager t s module cpu_hit mem_hit net_hit else [].

Definition check_module cfg manager t s (m : CRxSampleModule) : outbox :=
  check cfg manager t s (Some m) (md_cpu_pct_gt m) (md_mem_pct_gt m) (md_net_rx_kbps_gt m).

Definition sample_and_check (cfg : option strategy) (manager : option Z) (t : CRxSampleThread) (s : SRxSystemStats D)
    : outbox :=
  match sp_modules t with
  | [] => check cfg manager t s None (th_cpu_pct_gt (sp_thr t)) (th_mem_pct_gt (sp_thr t)) (th_net_rx_kbps_gt (sp_thr t))
  | modules => concat (map (check_module cfg manager t s) modules)
  end.

(** The alert a module gives on a sample. *)
Definition module_alert (s : SRxSystemStats D) (m : CRxSampleModule) : option SRxSampleMsg :=
  let cpu := hit (md_cpu_pct_gt m) (ss_cpu_percent s) in
  let mem := hit (md_mem_pct_gt m) (ss_memory_percent s) in
  let net := hit (md_net_rx_kbps_gt m) (ss_network_rx_kbps s) in
  if cpu || mem || net then
    Some (alert_of s cpu mem net (md_name m) (md_capture_hint m) (md_capture_category m)
            (md_capture_duration_sec m) (md_cooldown_sec m) (md_cpu_pct_gt m) (md_mem_pct_gt m) (md_net_rx_kbps_gt m))
  else None.

Lemma check_module_alert cfg index t s m :
  check_module cfg (Some index) t s m =
  match module_alert s m with Some a => [(mkObjId OBJ_ID_THREAD index, MsgSampleAlert a)] | None => [] end.
Proof. unfold check_module, check, module_alert. by destruct (_ || _). Qed.

(** The alerts of a sample.  With modules, the capture manager gets one alert
    for each module a threshold of which the sample exceeds, in the order of the
    configuration, with the module's name, capture hint, duration and cooldown;
    the global thresholds play no part, and neither does the configuration
    current at the time: the modules are those loaded when the thread started,
    whatever has been reloaded since. *)
Theorem sample_alerts cfg0 cfg manager t0 s index :
  let t := load_config (Some cfg0) t0 in
  sy_sample_modules cfg0 <> [] -> manager = Some index ->
  sample_and_check cfg manager t s =
    map (fun a => (mkObjId OBJ_ID_THREAD index, MsgSampleAlert a)) (omap (module_alert s) (sy_sample_modules cfg0)) /\
  (forall m a, module_alert s m = Some a -> has_thresholds m = true).
Proof.
  intros t Hne ->. split.
  - unfold sample_and_check, t. cbn [load_config sp_modules]. destruct (sy_sample_modules cfg0) as [|m0 l0] eqn:E; [done|].
    clear E Hne. set (t1 := mkSampler _ _). clearbody t1. generalize (m0 :: l0). intros l. induction l as [|m l IH]; [done|]. cbn [map concat].
    rewrite IH, check_module_alert. cbn [omap list_omap]. by destruct (module_alert s m).
  - intros m a. unfold module_alert, hit, has_thresholds.
    destruct (0 <? md_cpu_pct_gt m), (0 <? md_mem_pct_gt m), (0 <? md_net_rx_kbps_gt m); done.
Qed.
End Sample.

Definition demo_module : CRxSampleModule := mkModule "cpu" 85 0 0 "iface:any" 60 300 "diag".

Definition demo_strategy : strategy :=
  mkStrategyObject new_strategy new_thresholds [demo_module] new_logging ∅ "" 0.

Lemma sample_alerts_witness :
  sample_and_check (fun value threshold => threshold <? value) None (Some 1)
    (load_config (Some demo_strategy) new_sampler)
    (mkStats 90 10 0 1700000000) =
  [(mkObjId OBJ_ID_THREAD 1,
    MsgSampleAlert (mkSampleMsg 1700000000 true false false 0 "cpu" "iface:any" "diag" 60 300 85 0 0))].
Proof.
  rewrite (proj1 (sample_alerts (fun value threshold => threshold <? value)
    demo_strategy None (Some 1) new_sampler
    (mkStats 90 10 0 1700000000) 1 ltac:(discriminate) eq_refl)).
  reflexivity.
Defined.
