(* ===== verification/HttpText.v ===== *)
(** * The text of HTTP heads (core/legacy_core_common.cpp, legacy_core.h, legacy_core_net.cpp)

    Splitting of C strings, the head of a request with its parser and its
    printer, and the printed head of a response.  A [const char*] argument is
    the text up to the first NUL ([c_str]); a [std::map] of headers is a [gmap]
    that is read in key order ([in_key_order]). *)

From stdpp Require Import sorting.
From S2P Require Import Prelude CppString Lexer TaskTypes CaptureUtil UrlHandlers ProcessResolver.

Definition CRLF : string := String "013" (String "010" EmptyString).
Definition CRLF2 : string := CRLF +:+ CRLF.

(** ** Text helpers *)

Definition strcasestr (s needle : string) : option nat := find_str (str_map tolower needle) (str_map tolower s).

Definition strcasecmp_eq (s t : string) : bool := String.eqb (str_map tolower s) (str_map tolower t).

Definition SPLIT_MODE_ONE : Z := 1.
Definition SPLIT_MODE_ALL : Z := 2.
Definition SPLIT_MODE_TRIM : Z := 4.

(** What is left after the loop is a piece when it is not empty and a delimiter
    was found before it. *)
Definition last_piece (moved : bool) (pstart : string) : list string :=
  if negb (is_empty pstart) && moved then [pstart] else [].

(** The loop of [SplitString]; an iteration shortens the text by the delimiter. *)
Fixpoint split_loop (fuel : nat) (delim : string) (s_mode : Z) (moved : bool) (pstart : string) : list string :=
  match fuel with
  | O => []
  | S fuel =>
      match find_str delim pstart with
      | Some n =>
          let str := str_take n pstart in
          let rest := str_drop (n + String.length delim) pstart in
          if negb (Z.land s_mode SPLIT_MODE_TRIM =? 0) && is_prefix delim str then split_loop fuel delim s_mode true rest
          else str :: (if negb (Z.land s_mode SPLIT_MODE_ONE =? 0) then last_piece true rest
                       else split_loop fuel delim s_mode true rest)
      | None => last_piece moved pstart
      end
  end.

Definition SplitString (srcStr delim : string) (s_mode : Z) : list string :=
  split_loop (S (String.length (c_str srcStr))) delim s_mode false (c_str srcStr).

(** The text between two labels, found without regard to case; an empty label
    is the start or the end.  Gives the position after it and the text. *)
Definition GetCaseStringByLabel (sSrc sLabel1 sLabel2 sOut : string) (nBeginPos : nat) (nIfRetPos : Z) : Z * string :=
  if (String.length sSrc <=? nBeginPos)%nat then (-1, sOut)
  else
    let pTmp := c_str (str_drop nBeginPos sSrc) in
    match (if is_empty sLabel1 then Some 0%nat else strcasestr pTmp sLabel1) with
    | None => (-1, sOut)
    | Some p0 =>
        let after := str_drop (p0 + String.length sLabel1) pTmp in
        if negb (is_empty sLabel2) then
          match strcasestr after sLabel2 with
          | None => (-1, sOut)
          | Some p1 =>
              let ret := (nBeginPos + p0 + String.length sLabel1 + p1 + String.length sLabel2)%nat in
              (if nIfRetPos =? 0 then 0 else Z.of_nat ret, str_take p1 after)
          end
        else (if nIfRetPos =? 0 then 0 else Z.of_nat (String.length sSrc), after)
    end.

(** ** Heads *)

Abbreviation headers := (gmap string string).

Definition key_le (a b : string * string) : Prop := String.le (fst a) (fst b).
#[export] Instance key_le_dec a b : Decision (key_le a b).
Proof. unfold key_le. apply _. Defined.

(** The entries of a [std::map<std::string, std::string>], in its order. *)
Definition in_key_order (m : headers) : list (string * string) := merge_sort key_le (map_to_list m).

(** [m.insert(make_pair(k, v))] *)
Definition insert_new (k v : string) (m : headers) : headers :=
  match m !! k with Some _ => m | None => <[k := v]> m end.

(** The first header, in key order, whose name contains [str] in any case. *)
Definition get_header (str : string) (m : headers) : option string :=
  snd <$> head (filter (fun kv => is_Some (strcasestr (fst kv) str)) (in_key_order m)).

(** [http_req_head_para] in full; [UrlHandlers.http_req_head_para] has the two
    members the handlers read. *)
Record http_head := mkHead {
  hh_method : string;
  hh_url_path : string;
  hh_version : string;
  hh_headers : headers;
  hh_cookie_list : headers;
}.

Definition new_head : http_head := mkHead "GET" "" "HTTP/1.1" ∅ ∅.

(** [init] *)
Definition init_head : http_head := mkHead "" "" "" ∅ ∅.

Definition handler_head (h : http_head) : http_req_head_para := mkReqHead (hh_url_path h) (hh_method h).

Definition header_line (kv : string * string) : string := fst kv +:+ ": " +:+ snd kv +:+ CRLF.

Definition cookie_text (l : list (string * string)) : string :=
  String.concat ";" (map (fun kv => fst kv +:+ "=" +:+ snd kv) l).

(** [http_req_head_para::to_head_str] *)
Definition request_to_head_str (h : http_head) : string :=
  hh_method h +:+ " " +:+ hh_url_path h +:+ " " +:+ hh_version h +:+ CRLF +:+
  (match in_key_order (hh_cookie_list h) with
   | [] => ""
   | l => "Cookie" +:+ ": " +:+ cookie_text l +:+ CRLF
   end) +:+
  String.concat "" (map header_line (in_key_order (hh_headers h))) +:+ CRLF.

(** ** Parsing a request *)

Definition parse_first_line (line : string) (h : http_head) : outcome http_head :=
  match SplitString line " " SPLIT_MODE_ALL with
  | [method; url_path; version] =>
      Done (h <| hh_method := method |> <| hh_version := version |> <| hh_url_path := url_path |>)
  | _ => Fails "http first line"
  end.

Definition parse_header_line (line : string) (h : http_head) : http_head :=
  match SplitString line ":" SPLIT_MODE_ONE with
  | [key; value] => h <| hh_headers ::= insert_new key value |>
  | _ => h
  end.

Definition parse_cookie (text : string) (h : http_head) : outcome http_head :=
  match SplitString text "=" SPLIT_MODE_ONE with
  | [name; value] => name ← trim name; value ← trim value; Done (h <| hh_cookie_list ::= insert_new name value |>)
  | _ => Done h
  end.

Fixpoint parse_cookies (l : list string) (h : http_head) : outcome http_head :=
  match l with
  | [] => Done h
  | text :: l => h ← parse_cookie text h; parse_cookies l h
  end.

(** The boundary of a multipart upload. *)
Definition find_boundary (h : http_head) (boundary_str : string) : string :=
  if String.eqb (hh_method h) "POST" || String.eqb (hh_method h) "PUT" then
    match get_header "Content-Type" (hh_headers h) with
    | Some content_type =>
        match strcasestr content_type "multipart/form-data" with
        | Some _ => snd (GetCaseStringByLabel content_type "boundary=" "" boundary_str 0 0)
        | None => boundary_str
        end
    | None => boundary_str
    end
  else boundary_str.

(** [http_res_process::parse_header]: the head and the boundary. *)
Definition parse_header (recv_head : string) (h : http_head) (boundary_str : string) : outcome (http_head * string) :=
  h ← match SplitString recv_head CRLF SPLIT_MODE_ALL with
      | [] => Done h
      | first :: lines => h ← parse_first_line first h; Done (foldl (flip parse_header_line) h lines)
      end;
  h ← match get_header "Cookie" (hh_headers h) with
      | Some cookie_str => parse_cookies (SplitString cookie_str ";" SPLIT_MODE_ALL) h
      | None => Done h
      end;
  Done (h, find_boundary h boundary_str).

(** ** The head of a response *)

(** [http_response_code] *)
Definition response_list : gmap Z string :=
  list_to_map
    [(200, "OK"); (206, "Partial Content"); (301, "Moved Temporarily"); (302, "the uri moved temporarily");
     (304, "page was not modified from las"); (400, "Bad Request"); (404, "Not Found"); (403, "Forbidden");
     (409, "Conflict"); (500, "Internal Server Error"); (501, "not implemented"); (503, "the server is not available")].

Definition get_response_str (status_code : Z) : string := default "" (response_list !! status_code).

(** [http_res_head_para::to_head_str]: a reason that is not empty is replaced by
    the one of the table, and the replacement stays in the head.  The program
    sets no cookies. *)
Definition response_to_head_str (version : string) (r : http_response) : string * http_response :=
  let r := if is_empty (hs_response_str r) then r else r <| hs_response_str := get_response_str (hs_response_code r) |> in
  (version +:+ " " +:+ fmt_d (hs_response_code r) +:+ " " +:+ hs_response_str r +:+ CRLF +:+
   String.concat "" (map header_line (in_key_order (hs_headers r))) +:+ CRLF, r).

(** ** Lemmas *)

Definition NUL_CHAR : ascii := "000".
Definition CR : ascii := "013".

Lemma c_str_app a b : has_char NUL_CHAR a = false -> c_str (a +:+ b) = a +:+ c_str b.
Proof.
  induction a as [|c a IH]; [by rewrite !str_app_nil|]. rewrite !str_app_cons. cbn [has_char c_str].
  rewrite orb_false_iff. intros [Hc Ha]. unfold NUL_CHAR in Hc. rewrite Hc. by rewrite IH.
Qed.

Lemma c_str_id a : has_char NUL_CHAR a = false -> c_str a = a.
Proof. intros H. rewrite <- (str_app_nil_r a) at 1. rewrite c_str_app by done. apply str_app_nil_r. Qed.

(** A text whose first character does not occur before it is found at once. *)
Lemma find_str_here c d a b : has_char c a = false -> find_str (String c d) (a +:+ String c d +:+ b) = Some (String.length a).
Proof.
  induction a as [|x a IH]; intros Ha.
  - rewrite str_app_nil, str_app_cons. cbn [find_str]. by rewrite <- str_app_cons, is_prefix_app.
  - cbn [has_char] in Ha. apply orb_false_iff in Ha as [Hx Ha]. rewrite str_app_cons. cbn [find_str is_prefix].
    rewrite Ascii.eqb_sym, Hx. cbn [andb]. by rewrite IH.
Qed.

Lemma find_str_absent c d a : has_char c a = false -> find_str (String c d) a = None.
Proof.
  induction a as [|x a IH]; intros Ha; [done|]. cbn [has_char] in Ha. apply orb_false_iff in Ha as [Hx Ha].
  cbn [find_str is_prefix]. rewrite Ascii.eqb_sym, Hx. cbn [andb]. by rewrite IH.
Qed.

Lemma split_rest a d b : str_drop (String.length a + String.length d) (a +:+ d +:+ b) = b.
Proof. rewrite <- str_length_app, <- str_app_assoc. apply str_drop_app. Qed.

Definition joined (delim : string) (l : list string) (rest : string) : string :=
  foldr (fun p r => p +:+ delim +:+ r) rest l.

(** Splitting what was joined. *)
Lemma split_loop_joined fuel c d l rest moved :
  Forall (fun p => has_char c p = false) l -> has_char c rest = false ->
  (String.length (joined (String c d) l rest) < fuel)%nat ->
  split_loop fuel (String c d) SPLIT_MODE_ALL moved (joined (String c d) l rest) =
    l ++ last_piece (match l with [] => moved | _ => true end) rest.
Proof.
  revert fuel moved. induction l as [|p l IH]; intros fuel moved Hl Hr Hf.
  - destruct fuel; [simpl in Hf; lia|]. cbn [joined foldr split_loop app]. by rewrite find_str_absent.
  - inversion_clear Hl as [|? ? Hp Hl']. destruct fuel; [lia|]. cbn [joined foldr split_loop]. fold (joined (String c d) l rest).
    rewrite find_str_here by done.
    change (negb (Z.land SPLIT_MODE_ALL SPLIT_MODE_TRIM =? 0)) with false.
    change (negb (Z.land SPLIT_MODE_ALL SPLIT_MODE_ONE =? 0)) with false. cbn [andb].
    rewrite str_take_app, split_rest. cbn [app]. f_equal.
    rewrite IH; [by destruct l|done|done|]. cbn [joined foldr] in Hf. fold (joined (String c d) l rest) in Hf.
    rewrite !str_length_app in Hf. simpl in Hf. lia.
Qed.

Lemma joined_no_nul delim l rest :
  has_char NUL_CHAR delim = false -> Forall (fun p => has_char NUL_CHAR p = false) l -> has_char NUL_CHAR rest = false ->
  has_char NUL_CHAR (joined delim l rest) = false.
Proof.
  intros Hd Hl Hr. induction Hl as [|p l Hp Hl IH]; [done|]. cbn [joined foldr]. fold (joined delim l rest).
  by rewrite !has_char_app, Hp, Hd, IH.
Qed.

Lemma SplitString_joined c d l rest :
  has_char NUL_CHAR (String c d) = false ->
  Forall (fun p => has_char c p = false /\ has_char NUL_CHAR p = false) l ->
  has_char c rest = false -> has_char NUL_CHAR rest = false -> l <> [] ->
  SplitString (joined (String c d) l rest) (String c d) SPLIT_MODE_ALL = l ++ last_piece true rest.
Proof.
  intros Hd Hl Hr Hn Hne. apply Forall_and in Hl as [Hc Hz]. unfold SplitString.
  rewrite c_str_id by by apply joined_no_nul. rewrite split_loop_joined; [by destruct l|done|done|lia].
Qed.

Lemma SplitString_one c key rest :
  has_char c key = false -> has_char NUL_CHAR (key +:+ String c rest) = false -> rest <> "" ->
  SplitString (key +:+ String c rest) (String c "") SPLIT_MODE_ONE = [key; rest].
Proof.
  intros Hc Hn Hr. unfold SplitString. rewrite c_str_id by done. cbn [split_loop].
  change (String c rest) with (String c "" +:+ rest). rewrite find_str_here by done.
  change (negb (Z.land SPLIT_MODE_ONE SPLIT_MODE_TRIM =? 0)) with false.
  change (negb (Z.land SPLIT_MODE_ONE SPLIT_MODE_ONE =? 0)) with true. cbn [andb].
  rewrite str_take_app, split_rest. unfold last_piece. by destruct rest.
Qed.

(** ** Reading back a printed head *)

Definition token_text_ok (s : string) : Prop :=
  has_char " " s = false /\ has_char CR s = false /\ has_char NUL_CHAR s = false.

Definition header_ok (kv : string * string) : Prop :=
  has_char ":" (fst kv) = false /\ has_char CR (fst kv) = false /\ has_char NUL_CHAR (fst kv) = false /\
  has_char CR (snd kv) = false /\ has_char NUL_CHAR (snd kv) = false /\ strcasestr (fst kv) "Cookie" = None.

Record head_ok (h : http_head) : Prop := {
  ok_method : token_text_ok (hh_method h);
  ok_path : token_text_ok (hh_url_path h);
  ok_version : token_text_ok (hh_version h);
  ok_version_text : hh_version h <> "";
  ok_headers : Forall header_ok (map_to_list (hh_headers h));
  ok_cookies : hh_cookie_list h = ∅;
}.

Definition first_line (h : http_head) : string := hh_method h +:+ " " +:+ hh_url_path h +:+ " " +:+ hh_version h.
Definition header_text (kv : string * string) : string := fst kv +:+ ": " +:+ snd kv.

(** A head as a client may send it, its headers in any order. *)
Definition head_text (h : http_head) (l : list (string * string)) : string :=
  joined CRLF (first_line h :: map header_text l) CRLF.

Record sent_head (h : http_head) (l : list (string * string)) : Prop := {
  sent_ok : head_ok h;
  sent_list : l ≡ₚ map_to_list (hh_headers h);
}.

Lemma concat_lines (l : list (string * string)) :
  String.concat "" (map header_line l) +:+ CRLF = joined CRLF (map header_text l) CRLF.
Proof.
  induction l as [|kv l IH]; [done|]. cbn [map joined foldr]. fold (joined CRLF (map header_text l) CRLF). rewrite <- IH.
  unfold header_line at 1, header_text at 1. destruct l as [|kv' l].
  - cbn [map String.concat]. by rewrite !str_app_assoc, str_app_nil.
  - cbn [map String.concat]. by rewrite !str_app_assoc, str_app_nil.
Qed.

Lemma request_lines h :
  hh_cookie_list h = ∅ ->
  request_to_head_str h = head_text h (in_key_order (hh_headers h)).
Proof.
  intros Hc. unfold request_to_head_str. rewrite Hc. change (in_key_order ∅) with (@nil (string * string)).
  unfold head_text. cbn [joined foldr]. rewrite str_app_nil. rewrite concat_lines. unfold first_line. by rewrite !str_app_assoc.
Qed.

Lemma in_key_order_perm m : in_key_order m ≡ₚ map_to_list m.
Proof. apply merge_sort_Permutation. Qed.

Lemma printed_head h : head_ok h -> sent_head h (in_key_order (hh_headers h)).
Proof. intros Hh. constructor; [done|apply in_key_order_perm]. Qed.

Lemma ordered_ok h l : sent_head h l -> Forall header_ok l.
Proof. intros [Hh ->]. apply Hh. Qed.

Lemma sent_keys h l : sent_head h l -> NoDup (fst <$> l) /\ list_to_map l = hh_headers h.
Proof.
  intros [_ Hl]. assert (NoDup (fst <$> l)) as Hd by (rewrite Hl; apply NoDup_fst_map_to_list). split; [done|].
  rewrite <- (list_to_map_to_list (hh_headers h)). by apply list_to_map_proper.
Qed.

Lemma header_text_ok kv : header_ok kv ->
  has_char CR (header_text kv) = false /\ has_char NUL_CHAR (header_text kv) = false /\
  parse_header_line (header_text kv) = fun h => h <| hh_headers ::= insert_new (fst kv) (" " +:+ snd kv) |>.
Proof.
  destruct kv as [k v]. intros (H1 & H2 & H3 & H4 & H5 & _). unfold header_text. cbn [fst snd] in *.
  assert (has_char NUL_CHAR (k +:+ ": " +:+ v) = false) as Hn.
  { by rewrite !has_char_app, H3, H5. }
  split; [by rewrite !has_char_app, H2, H4|]. split; [done|]. unfold parse_header_line.
  change (k +:+ ": " +:+ v) with (k +:+ String ":" (" " +:+ v)) in *. by rewrite SplitString_one.
Qed.

Lemma first_line_ok h : head_ok h ->
  has_char CR (first_line h) = false /\ has_char NUL_CHAR (first_line h) = false /\
  forall h0, parse_first_line (first_line h) h0 =
    Done (h0 <| hh_method := hh_method h |> <| hh_version := hh_version h |> <| hh_url_path := hh_url_path h |>).
Proof.
  intros [(M1 & M2 & M3) (P1 & P2 & P3) (V1 & V2 & V3) Hv _ _].
  assert (first_line h = joined " " [hh_method h; hh_url_path h] (hh_version h)) as E by done.
  split; [unfold first_line; by rewrite !has_char_app, M2, P2, V2|].
  split; [unfold first_line; by rewrite !has_char_app, M3, P3, V3|].
  intros h0. unfold parse_first_line. rewrite E, SplitString_joined; [|done|by repeat constructor|done|done|done].
  unfold last_piece. by destruct (hh_version h).
Qed.

Lemma joined_snoc delim l : joined delim l delim = joined delim (l ++ [""]) "".
Proof.
  induction l as [|p l IH]; [cbn [app joined foldr]; by rewrite str_app_nil, str_app_nil_r|].
  change (joined delim (p :: l) delim) with (p +:+ delim +:+ joined delim l delim). by rewrite IH.
Qed.

Lemma split_head h l : sent_head h l ->
  SplitString (head_text h l) CRLF SPLIT_MODE_ALL = first_line h :: map header_text l ++ [""].
Proof.
  intros Hh. unfold head_text. rewrite joined_snoc. destruct (first_line_ok h (sent_ok _ _ Hh)) as (F1 & F2 & _).
  unfold CRLF at 1. fold CR. change (String CR (String "010" "")) with CRLF.
  change CRLF with (String CR (String "010" "")). rewrite SplitString_joined; [|done| |done|done|done].
  - cbn [app last_piece is_empty negb andb]. by rewrite app_nil_r.
  - cbn [app]. constructor; [done|]. apply Forall_app. split; [|by repeat constructor].
    apply Forall_fmap. eapply Forall_impl; [by eapply ordered_ok|]. intros kv Hkv. by destruct (header_text_ok kv Hkv) as (? & ? & _).
Qed.

Lemma insert_new_lookup k v m i :
  insert_new k v m !! i = match m !! i with Some x => Some x | None => if decide (i = k) then Some v else None end.
Proof.
  unfold insert_new. destruct (decide (i = k)) as [->|Hne].
  - destruct (m !! k) eqn:E; [by rewrite E|]. by rewrite lookup_insert_eq.
  - destruct (m !! k); [by destruct (m !! i)|]. rewrite lookup_insert_ne by done. by destruct (m !! i).
Qed.

Definition shifted (m : headers) : headers := String.append " " <$> m.

Lemma parse_lines l h m :
  Forall header_ok l -> NoDup (fst <$> l) -> (forall k, k ∈ fst <$> l -> hh_headers h !! k = None) ->
  list_to_map l = m ->
  foldl (flip parse_header_line) h (map header_text l) = h <| hh_headers := shifted m ∪ hh_headers h |>.
Proof.
  intros Hl. revert h m. induction Hl as [|kv l Hkv Hl IH]; intros h m Hd Hf <-.
  - cbn. unfold shifted. rewrite fmap_empty, (left_id_L ∅ (∪)). by destruct h.
  - destruct (header_text_ok kv Hkv) as (_ & _ & E). cbn [map foldl]. change (flip parse_header_line h (header_text kv)) with (parse_header_line (header_text kv) h). rewrite E.
    rewrite fmap_cons in Hd. apply NoDup_cons in Hd as [Hk Hd].
    assert (hh_headers h !! fst kv = None) as Hn by (apply Hf; left).
    rewrite (IH _ (list_to_map l)); [|done| |done].
    + destruct h as [me p ve hs ck]. cbn in *. f_equal. unfold shifted. destruct kv as [k v]. cbn [fst snd] in *.
      cbn [list_to_map foldr uncurry]. unfold insert_new. rewrite Hn, fmap_insert.
      rewrite <- insert_union_r, insert_union_l; [done|].
      rewrite lookup_fmap, fmap_None. by apply not_elem_of_list_to_map_1.
    + intros k' Hk'. cbn. rewrite insert_new_lookup, Hf by by right. destruct (decide (k' = fst kv)) as [->|]; [done|done].
Qed.

Lemma get_header_none str m :
  Forall (fun kv => strcasestr (fst kv) str = None) (map_to_list m) -> get_header str m = None.
Proof.
  rewrite <- in_key_order_perm. unfold get_header. induction 1 as [|kv l E Hl IH]; [done|].
  rewrite filter_cons_False; [done|]. intros [x Hx]. congruence.
Qed.

(** A head that was sent is read: method, path and version as they were, and
    every header under its name, its value behind the blank after the colon. *)
Lemma sent_head_read h l h0 b :
  sent_head h l -> hh_headers h0 = ∅ -> hh_cookie_list h0 = ∅ ->
  let h' := h <| hh_headers := shifted (hh_headers h) |> in
  parse_header (head_text h l) h0 b = Done (h', find_boundary h' b).
Proof.
  intros Hl Hh0 Hc0 h'. destruct h0 as [me0 p0 ve0 hs0 ck0]. cbn in Hh0, Hc0. subst hs0 ck0. pose proof (sent_ok _ _ Hl) as Hh.
  destruct (sent_keys _ _ Hl) as [Hd Hm].
  unfold parse_header. rewrite split_head by done. destruct (first_line_ok h Hh) as (_ & _ & ->).
  rewrite outcome_bind_done, foldl_app. rewrite (parse_lines _ _ (hh_headers h)).
  - match goal with |- context [foldl ?f ?x [""]] => assert (h' = foldl f x [""]) as <- end.
    { subst h'. cbn. rewrite (right_id_L ∅ (∪)). pose proof (ok_cookies h Hh). destruct h. cbn in *. by subst. }
    rewrite outcome_bind_done. rewrite get_header_none; [done|]. change (hh_headers h') with (shifted (hh_headers h)).
    unfold shifted. rewrite map_to_list_fmap. apply Forall_fmap. eapply Forall_impl; [apply Hh|]. intros kv Hkv. apply Hkv.
  - by eapply ordered_ok.
  - done.
  - done.
  - done.
Qed.

(** A request that [to_head_str] prints is read back. *)
Theorem request_head_roundtrip h h0 b :
  head_ok h -> hh_headers h0 = ∅ -> hh_cookie_list h0 = ∅ ->
  let h' := h <| hh_headers := shifted (hh_headers h) |> in
  parse_header (request_to_head_str h) h0 b = Done (h', find_boundary h' b).
Proof. intros Hh Hh0 Hc0. rewrite request_lines by apply Hh. by apply sent_head_read; [apply printed_head|..]. Qed.

Definition demo_head : http_head :=
  mkHead "POST" "/api/capture/start" "HTTP/1.1"
    (list_to_map [("Host", "localhost:8080"); ("Content-Type", "application/json"); ("Content-Length", "2")]) ∅.

Lemma demo_head_ok : head_ok demo_head.
Proof. constructor; [by repeat split..|vm_compute; by repeat constructor|done]. Qed.

Lemma request_head_roundtrip_witness :
  parse_header (request_to_head_str demo_head) new_head "" =
    Done (demo_head <| hh_headers := shifted (hh_headers demo_head) |>, "").
Proof. apply (request_head_roundtrip demo_head new_head ""); [apply demo_head_ok|reflexivity|reflexivity]. Defined.

(** A single cookie is not read: [SplitString] gives nothing for a text without
    the delimiter. *)
Lemma single_cookie_lost cookie : has_char ";" cookie = false -> SplitString cookie ";" SPLIT_MODE_ALL = [].
Proof.
  intros H. unfold SplitString. cbn [split_loop]. rewrite find_str_absent; [unfold last_piece; by rewrite andb_false_r|].
  clear -H. induction cookie as [|c s IH]; [done|]. cbn [c_str]. destruct (Ascii.eqb c "000"); [done|].
  cbn [has_char] in *. apply orb_false_iff in H as [H1 H2]. by rewrite H1, IH.
Qed.

Lemma find_str_past c d a s : has_char c a = false ->
  find_str (String c d) (a +:+ s) = Nat.add (String.length a) <$> find_str (String c d) s.
Proof.
  induction a as [|x a IH]; intros Ha; [rewrite str_app_nil; by destruct (find_str _ s)|].
  cbn [has_char] in Ha. apply orb_false_iff in Ha as [Hx Ha]. rewrite str_app_cons. cbn [find_str is_prefix].
  rewrite Ascii.eqb_sym, Hx. cbn [andb]. rewrite IH by done. by destruct (find_str _ s).
Qed.

Lemma find_str_step needle c s : is_prefix needle (String c s) = false -> find_str needle (String c s) = S <$> find_str needle s.
Proof. intros E. cbn [find_str]. rewrite E. by destruct (find_str needle s). Qed.

Lemma skip_line_end x t : Ascii.eqb x CR = false ->
  find_str CRLF2 (CRLF +:+ String x t) = (fun n => S (S n)) <$> find_str CRLF2 (String x t).
Proof.
  intros Hx. change (CRLF +:+ String x t) with (String CR (String "010" (String x t))).
  rewrite find_str_step; [|change (Ascii.eqb CR x && is_prefix (String "010" "") t = false); by rewrite Ascii.eqb_sym, Hx]. rewrite find_str_step by done.
  by destruct (find_str CRLF2 (String x t)).
Qed.

Lemma find_blank_line p ls body :
  has_char CR p = false -> Forall (fun l => l <> "" /\ has_char CR l = false) ls ->
  exists front, joined CRLF (p :: ls) CRLF = front +:+ CRLF2 /\
    find_str CRLF2 (joined CRLF (p :: ls) CRLF +:+ body) = Some (String.length front).
Proof.
  intros Hp Hls. revert p Hp. induction Hls as [|l ls [Hl Hc] Hls IH]; intros p Hp.
  - exists p. cbn [joined foldr]. split; [done|]. rewrite !str_app_assoc.
    change (CRLF +:+ CRLF +:+ body) with (CRLF2 +:+ body). by apply find_str_here.
  - destruct (IH l Hc) as (front & E1 & E2).
    change (joined CRLF (p :: l :: ls) CRLF) with (p +:+ CRLF +:+ joined CRLF (l :: ls) CRLF).
    exists (p +:+ CRLF +:+ front). split; [by rewrite E1, !str_app_assoc|].
    rewrite !str_app_assoc. destruct l as [|x l]; [done|]. cbn [has_char] in Hc. apply orb_false_iff in Hc as [Hx _].
    assert (exists t, joined CRLF (String x l :: ls) CRLF +:+ body = String x t) as [t Ht] by (by eexists).
    rewrite Ht in *. unfold CRLF2. unfold CRLF at 1. change (String "013" (String "010" "") +:+ CRLF) with CRLF2.
    change CRLF2 with (String CR (String "010" CRLF)) at 1. rewrite find_str_past by done.
    change (String CR (String "010" CRLF)) with CRLF2. rewrite skip_line_end, E2 by done. cbn.
    by rewrite !str_length_app.
Qed.

(** The end of a head, found in what was received. *)
Lemma find_head_end h l body : sent_head h l ->
  exists front, head_text h l = front +:+ CRLF2 /\ find_str CRLF2 (head_text h l +:+ body) = Some (String.length front).
Proof.
  intros Hh. destruct (first_line_ok h (sent_ok _ _ Hh)) as (F1 & _ & _).
  apply find_blank_line; [done|]. apply Forall_fmap. eapply Forall_impl; [by eapply ordered_ok|]. intros kv Hkv.
  destruct (header_text_ok kv Hkv) as (Hc & _ & _). split; [|exact Hc]. by destruct kv as [[|] v].
Qed.

Lemma head_no_nul h l : sent_head h l -> has_char NUL_CHAR (head_text h l) = false.
Proof.
  intros Hh. destruct (first_line_ok h (sent_ok _ _ Hh)) as (_ & F1 & _).
  apply joined_no_nul; [done| |done]. constructor; [done|]. apply Forall_fmap.
  eapply Forall_impl; [by eapply ordered_ok|]. intros kv Hkv. by destruct (header_text_ok kv Hkv) as (_ & Hn & _).
Qed.
