(* ===== verification/HttpConnection.v ===== *)
(** * A connection of the HTTP server (core/legacy_core_net.cpp and .h, base_connect, http_res_process)

    Reading requests off the socket and writing responses to it: the buffers of
    [base_connect], the states of [http_base_process] and [http_res_process],
    and the data process of [HttpApi] behind them.  The kernel is a parameter:
    what [recv] gives, and how many bytes [send] takes before it would block.
    An exception ends the connection and is [Fails]; what its handler had done
    before is not recorded then. *)

From S2P Require Import Prelude CppString Lexer TaskTypes Messages CaptureUtil PdefWriteback CaptureManager CaptureManagerCorrect CaptureDecision Cleanup Json Config UrlHandlers HttpApi ProcessResolver HttpText.

Definition MAX_RECV_SIZE : nat := Z.to_nat 20480.
Definition SIZE_LEN_32768 : nat := Z.to_nat 32768.
Definition MAX_HTTP_HEAD_LEN : Z := 102400.
Definition BOUNDARY_EXTRA_LEN : Z := 8.

Inductive HTTP_STATUS := RECV_HEAD | RECV_BODY | SEND_HEAD | SEND_BODY.

Inductive BOUNDARY_STATUS := BOUNDARY_RECV_HEAD | BOUNDARY_RECV_BODY | BOUNDARY_RECV_TAIL.

(** The connection object with its [http_res_process] and data process.
    [_p_send_buf] is [cn_send_buf], NULL as [None]; the response head is
    [cn_version] with the [dp_res] of the data process; [cn_sent] is what the
    socket has taken so far. *)
Record connection := mkConn {
  cn_id : ObjId;
  cn_recv_buf : string;
  cn_send_buf : option string;
  cn_send_num : nat;
  cn_epollout : bool;
  cn_http_status : HTTP_STATUS;
  cn_req_head : http_head;
  cn_version : string;
  cn_data : CRxHttpResDataProcess;
  cn_boundary_str : string;
  cn_boundary_content_length : Z;
  cn_recv_boundary_head : string;
  cn_recv_boundary_status : BOUNDARY_STATUS;
  cn_recv_body_length : Z;
  cn_sent : string;
}.

(** [handle_connect] *)
Definition new_connection (id : ObjId) : connection :=
  mkConn id "" None 0 false RECV_HEAD new_head "HTTP/1.1"
    (mkDataProcess "" "" (mkResponse 200 "OK" ∅ "") false 0) "" UINT32_MAX "" BOUNDARY_RECV_HEAD 0 "".

(** [http_res_process::reset] *)
Definition reset (c : connection) : connection :=
  c <| cn_req_head := init_head |> <| cn_version := "" |>
    <| cn_data ::= (fun p => p <| dp_res ::= (fun r => mkResponse 200 "" ∅ (hs_body r)) |>) |>
    <| cn_http_status := RECV_HEAD |> <| cn_boundary_str := "" |> <| cn_boundary_content_length := UINT32_MAX |>
    <| cn_recv_body_length := 0 |> <| cn_recv_boundary_status := BOUNDARY_RECV_HEAD |>.

(** ** Sending *)

(** The socket on the way out: [Room n] takes [n] bytes before [send] would
    block; [Broken] makes it fail. *)
Inductive socket := Room (n : nat) | Broken.

(** [http_base_process::get_send_buf] *)
Definition get_send_buf (c : connection) : option string * connection :=
  match cn_http_status c with
  | RECV_HEAD | RECV_BODY => (None, c)
  | SEND_HEAD =>
      match get_send_head (cn_data c) with
      | None => (None, c)
      | Some res =>
          let '(head, res) := response_to_head_str (cn_version c) res in
          (Some head, c <| cn_data ::= (fun p => p <| dp_res := res |>) |> <| cn_http_status := SEND_BODY |>)
      end
  | SEND_BODY =>
      let '(body, p) := get_send_body (cn_data c) in
      (Some body, reset (c <| cn_data := p |>))
  end.

(** [base_connect::SEND]: how many bytes it took. *)
Definition SEND (len : nat) (s : socket) : outcome (nat * socket) :=
  match s with
  | Broken => Fails "send data error"
  | Room n => Done (Nat.min n len, Room (n - Nat.min n len))
  end.

(** The loop of [base_connect::real_send]. *)
Fixpoint send_loop (fuel : nat) (c : connection) (s : socket) : outcome (connection * socket) :=
  match fuel with
  | O => NoFuel
  | S fuel =>
      let '(p, c) :=
        match cn_send_buf c with
        | Some buf => (Some buf, c)
        | None =>
            match get_send_buf c with
            | (Some p, c) => (Some p, c <| cn_send_buf := Some p |> <| cn_send_num := 0%nat |>)
            | none => none
            end
        end in
      match p with
      | None => Done (c, s)
      | Some buf =>
          let to_send := (String.length buf - cn_send_num c)%nat in
          '(sent, s) ← if (0 <? to_send)%nat then SEND to_send s else Done (0%nat, s);
          if (sent =? 0)%nat then Done (c, s)
          else
            let c := c <| cn_sent ::= (fun t => t +:+ substr buf (cn_send_num c) sent) |> <| cn_send_num ::= Nat.add sent |> in
            send_loop fuel (if (String.length buf <=? cn_send_num c)%nat then c <| cn_send_buf := None |> else c) s
      end
  end.

(** Five rounds: the rest of a buffer, a head, a body, a short write, the end. *)
Definition send_fuel : nat := 6.

(** [real_send]: however the loop ends, [EPOLLOUT] is taken out of the events. *)
Definition real_send (c : connection) (s : socket) : outcome (connection * socket) :=
  '(c, s) ← send_loop send_fuel c s; Done (c <| cn_epollout := false |>, s).

(** [notice_send] *)
Definition notice_send (c : connection) (s : socket) : outcome (connection * socket) :=
  real_send (c <| cn_epollout := true |>) s.

(** [change_http_status(status)] with [if_change_send] set, as at every call. *)
Definition change_http_status (status : HTTP_STATUS) (c : connection) (s : socket) : outcome (connection * socket) :=
  let c := c <| cn_http_status := status |> in
  match status with SEND_HEAD => notice_send c s | _ => Done (c, s) end.

(** ** Receiving *)

Section Connection.
Context {V W : Type} `{Json V} `{PdefFiles W}.

(** A connection with what its handlers work on and what they posted. *)
Record io := mkIo { io_conn : connection; io_out : outbox; io_world : W; io_sock : socket }.

Definition set_conn (c : connection) (x : io) : io := mkIo c (io_out x) (io_world x) (io_sock x).

Definition on_send (f : connection -> socket -> outcome (connection * socket)) (x : io) : outcome io :=
  '(c, s) ← f (io_conn x) (io_sock x); Done (mkIo c (io_out x) (io_world x) s).

(** [http_res_process::recv_finish].  [notify_send_ready], the last thing
    [msg_recv_finish] does when the handler has answered, is the change of
    status. *)
Definition recv_finish (e : http_env) (x : io) : outcome io :=
  let c := io_conn x in
  '(p, out, w) ← msg_recv_finish e (handler_head (cn_req_head c)) (cn_id c) (cn_data c) (io_world x);
  let x := mkIo (c <| cn_data := p |>) (io_out x ++ out) w (io_sock x) in
  x ← if (dp_ready (cn_data c) <? dp_ready p)%nat then on_send (change_http_status SEND_HEAD) x else Done x;
  if dp_pending (cn_data (io_conn x)) then Done x else on_send (change_http_status SEND_HEAD) x.

(** [CRxHttpResDataProcess::process_recv_body] through the connection; it sets
    [result] to 1 whatever it gets. *)
Definition data_recv_body (buf : string) (c : connection) : connection :=
  c <| cn_data ::= process_recv_body buf |>.

Definition content_length (c : connection) : Z :=
  match get_header "Content-Length" (hh_headers (cn_req_head c)) with Some text => strtoul text | None => 0 end.

(** [get_boundary]: the bytes of one part of a multipart body; gives [result]. *)
Definition get_boundary (buf : string) (c : connection) : outcome (bool * connection) :=
  let content_length := content_length c in
  if content_length =? 0 then Fails "get boundary but content_len not found"
  else
    let len := Z.of_nat (String.length buf) in
    let c := c <| cn_recv_body_length ::= (fun n => n +32 len) |> in
    let received := cn_recv_body_length c in
    let tail := Z.of_nat (String.length (cn_boundary_str c)) +64 BOUNDARY_EXTRA_LEN in
    match cn_recv_boundary_status c with
    | BOUNDARY_RECV_HEAD =>
        let c := c <| cn_recv_boundary_head ::= (fun h => h +:+ buf) |> in
        match find_str CRLF2 (cn_recv_boundary_head c) with
        | Some pos =>
            let c := c <| cn_boundary_content_length := u32 (content_length - tail - (Z.of_nat pos + 4)) |> in
            let rest := str_drop (pos + 4) (cn_recv_boundary_head c) in
            let part := str_take (Z.to_nat (cn_boundary_content_length c)) rest in
            let '(left_str, c) :=
              if received =? content_length then (part, c)
              else if content_length -64 tail <=? received then (part, c <| cn_recv_boundary_status := BOUNDARY_RECV_TAIL |>)
              else (rest, c <| cn_recv_boundary_status := BOUNDARY_RECV_BODY |>) in
            Done (if is_empty left_str then (false, c) else (true, data_recv_body left_str c))
        | None =>
            if MAX_HTTP_HEAD_LEN <=? Z.of_nat (String.length (cn_recv_boundary_head c))
            then Fails "http boundary head too long" else Done (false, c)
        end
    | BOUNDARY_RECV_BODY =>
        let '(tmp_len, c) :=
          if received =? content_length then (signed_cast 32 (len - tail), c)
          else if content_length -64 tail <=? received then
            (signed_cast 32 (len - (received - (content_length -64 tail))), c <| cn_recv_boundary_status := BOUNDARY_RECV_TAIL |>)
          else (signed_cast 32 len, c) in
        if tmp_len <? 0 then Fails "basic_string::append"
        else if len <? tmp_len then Undef
        else Done (true, data_recv_body (str_take (Z.to_nat tmp_len) buf) c)
    | BOUNDARY_RECV_TAIL => Done (received =? content_length, c)
    end.

(** [http_res_process::process_recv_body]: it takes every byte; gives [result]. *)
Definition conn_recv_body (buf : string) (c : connection) : outcome (bool * connection) :=
  if strcasecmp_eq (hh_method (cn_req_head c)) "GET" || strcasecmp_eq (hh_method (cn_req_head c)) "HEAD" then Done (true, c)
  else if is_empty (cn_boundary_str c) then
    let c := data_recv_body buf c in
    Done (true, c <| cn_recv_body_length ::= (fun n => n +32 Z.of_nat (String.length buf)) |>)
  else get_boundary buf c.

Definition recv_body (e : http_env) (buf : string) (x : io) : outcome io :=
  '(result, c) ← conn_recv_body buf (io_conn x);
  let x := set_conn c x in
  if result : bool then recv_finish e x else Done x.

(** [check_head_finish]: what follows the head, and the connection with the
    head parsed. *)
Definition check_head_finish (recv_head : string) (c : connection) : outcome (string * connection) :=
  match find_str CRLF2 recv_head with
  | Some pos =>
      let left_str := str_drop (pos + 4) recv_head in
      '(h, boundary) ← parse_header (str_take (pos + 4) recv_head) (cn_req_head c) (cn_boundary_str c);
      Done (left_str, c <| cn_http_status := RECV_BODY |> <| cn_req_head := h |> <| cn_boundary_str := boundary |>)
  | None =>
      if MAX_HTTP_HEAD_LEN <? Z.of_nat (String.length recv_head) then Fails "http head too long" else Done ("", c)
  end.

(** [http_base_process::process_recv_buf]: how many bytes it used. *)
Definition process_recv_buf (e : http_env) (buf : string) (x : io) : outcome (nat * io) :=
  let c := io_conn x in
  match cn_http_status c with
  | SEND_HEAD | SEND_BODY => Fails "http recv status not correct"
  | RECV_BODY => x ← recv_body e buf x; Done (String.length buf, x)
  | RECV_HEAD =>
      match find_str CRLF2 (c_str buf) with
      | None => Done (0%nat, x)
      | Some _ =>
          '(left_str, c) ← check_head_finish buf c;
          match cn_http_status c with
          | RECV_BODY => x ← recv_body e left_str (set_conn c x); Done (String.length buf, x)
          | _ => Done (0%nat, set_conn c x)
          end
      end
  end.

(** What [recv] finds: bytes (none yet when empty), the end, or an error. *)
Inductive incoming := Data (bytes : string) | PeerClosed | RecvError.

(** [base_connect::real_recv], with the bytes left in the socket. *)
Definition real_recv (flag : bool) (e : http_env) (i : incoming) (x : io) : outcome (string * io) :=
  let c := io_conn x in
  let room := Nat.min (MAX_RECV_SIZE - String.length (cn_recv_buf c)) SIZE_LEN_32768 in
  '(got, rest) ← if (room =? 0)%nat then Done ("", match i with Data b => b | _ => "" end)
                 else match i with
                      | Data b => Done (str_take room b, str_drop room b)
                      | PeerClosed => Fails "the client close the socket"
                      | RecvError => Fails "this socket occur fatal error"
                      end;
  let c := c <| cn_recv_buf ::= (fun b => b +:+ got) |> in
  let x := set_conn c x in
  if negb (is_empty (cn_recv_buf c)) || flag then
    '(used, x) ← process_recv_buf e (cn_recv_buf c) x;
    Done (rest, set_conn ((io_conn x) <| cn_recv_buf ::= str_drop used |>) x)
  else Done (rest, x).

(** ** Events *)

Inductive conn_event :=
  | Readable (i : incoming)
  | Writable
  | Hangup
  | Message (m : message)
  | Timeout (timer_type : Z).

Definition DELAY_CLOSE_TIMER_TYPE : Z := 2.
Definition NONE_DATA_TIMER_TYPE : Z := 6.

(** [event_process], [handle_msg] and [handle_timeout] of [base_connect]. *)
Definition handle_event (e : http_env) (ev : conn_event) (x : io) : outcome io :=
  match ev with
  | Readable i => '(_, x) ← real_recv false e i x; Done x
  | Writable => on_send real_send x
  | Hangup => Fails "epoll error"
  | Message m =>
      let c := io_conn x in
      let p := HttpApi.handle_msg m (cn_data c) in
      let x := set_conn (c <| cn_data := p |>) x in
      if (dp_ready (cn_data c) <? dp_ready p)%nat then on_send (change_http_status SEND_HEAD) x else Done x
  | Timeout timer_type =>
      if timer_type =? DELAY_CLOSE_TIMER_TYPE then Fails "the connect obj delay close, delete it"
      else if timer_type =? NONE_DATA_TIMER_TYPE then Fails "the connect obj no data"
      else Done x
  end.

(** Events one after the other, each with the state of the program and of the
    socket at the time. *)
Fixpoint handle_events (l : list (http_env * socket * conn_event)) (x : io) : outcome io :=
  match l with
  | [] => Done x
  | (e, s, ev) :: l =>
      x ← handle_event e ev (mkIo (io_conn x) (io_out x) (io_world x) s); handle_events l x
  end.
End Connection.

(** ** Sending: lemmas *)

(** The buffers a send can still take up. *)
Definition status_weight (s : HTTP_STATUS) : nat := match s with SEND_HEAD => 2 | SEND_BODY => 1 | _ => 0 end.
Definition buffer_weight (b : option string) : nat := match b with Some _ => 1 | None => 0 end.
Definition send_weight (c : connection) : nat := (buffer_weight (cn_send_buf c) + status_weight (cn_http_status c))%nat.

Lemma send_blocked fuel c buf :
  cn_send_buf c = Some buf -> send_loop (S fuel) c (Room 0) = Done (c, Room 0).
Proof.
  intros E. cbn [send_loop]. rewrite E. by destruct (0 <? String.length buf - cn_send_num c)%nat.
Qed.

Lemma get_send_buf_weight c p c' :
  get_send_buf c = (Some p, c') -> cn_send_buf c = None ->
  (send_weight (c' <| cn_send_buf := Some p |> <| cn_send_num := 0%nat |>) <= send_weight c)%nat.
Proof.
  unfold get_send_buf, send_weight. intros E Hb. rewrite Hb. destruct (cn_http_status c) eqn:Es; [done|done| |].
  - destruct (get_send_head (cn_data c)); [|done]. cbn in E. injection E as <- <-. cbn. lia.
  - cbn in E. injection E as <- <-. cbn. lia.
Qed.

(** The loop ends within the fuel it gets. *)
Lemma send_loop_ends fuel c s : (send_weight c + 2 <= fuel)%nat -> send_loop fuel c s <> NoFuel.
Proof.
  revert c s. induction fuel as [|fuel IH]; intros c s Hf; [lia|]. cbn [send_loop].
  set (next := match cn_send_buf c with Some buf => _ | None => _ end).
  assert (match next with
          | (Some buf, c') => cn_send_buf c' = Some buf /\ (send_weight c' <= send_weight c)%nat
          | _ => True end) as Hn.
  { subst next. destruct (cn_send_buf c) as [buf|] eqn:Eb; [done|].
    destruct (get_send_buf c) as [[p|] c'] eqn:E; [|done]. split; [done|]. by apply get_send_buf_weight. }
  destruct next as [[buf|] c']; [|done]. destruct Hn as [Eb Hw].
  destruct (Nat.ltb_spec 0 (String.length buf - cn_send_num c')) as [Ht|]; [|done].
  destruct s as [n|]; [|done]. cbn [SEND]. rewrite outcome_bind_done.
  destruct (Nat.eqb_spec (Nat.min n (String.length buf - cn_send_num c')) 0) as [|Hs]; [done|].
  set (sent := Nat.min n (String.length buf - cn_send_num c')) in *.
  assert (sent = Nat.min n (String.length buf - cn_send_num c')) as Esent by done. clearbody sent.
  match goal with |- context [(String.length buf <=? ?k)%nat] => change k with (sent + cn_send_num c')%nat end.
  destruct (Nat.leb_spec (String.length buf) (sent + cn_send_num c')) as [Hl|Hl].
  - apply IH. unfold send_weight in *. rewrite Eb in Hw. cbn [buffer_weight] in Hw.
    match goal with |- (buffer_weight ?b + status_weight ?s + 2 <= fuel)%nat =>
      change (buffer_weight b) with 0%nat; change (status_weight s) with (status_weight (cn_http_status c')) end. lia.
  - destruct fuel as [|fuel]; [lia|].
    assert (n - sent = 0)%nat as -> by (destruct (Nat.min_spec n (String.length buf - cn_send_num c')) as [[]|[]]; lia). by erewrite send_blocked.
Qed.

Lemma send_weight_le c : (send_weight c <= 3)%nat.
Proof. unfold send_weight. destruct (cn_send_buf c), (cn_http_status c); simpl; lia. Qed.

Lemma real_send_ends c s : real_send c s <> NoFuel.
Proof.
  unfold real_send. pose proof (send_loop_ends send_fuel c s) as Hn. pose proof (send_weight_le c).
  destruct (send_loop send_fuel c s) as [[]| | |]; try done. by destruct Hn; [unfold send_fuel; lia|].
Qed.

(** One buffer that fits. *)
Lemma send_whole fuel c n buf :
  cn_send_buf c = Some buf -> cn_send_num c = 0%nat -> buf <> "" -> (String.length buf <= n)%nat ->
  send_loop (S fuel) c (Room n) =
    send_loop fuel (c <| cn_sent := cn_sent c +:+ buf |> <| cn_send_num := String.length buf |> <| cn_send_buf := None |>)
      (Room (n - String.length buf)).
Proof.
  intros Eb En Hne Hn. cbn [send_loop]. rewrite Eb, En, Nat.sub_0_r.
  assert (0 < String.length buf)%nat by (destruct buf; [done|simpl; lia]).
  rewrite (proj2 (Nat.ltb_lt _ _)) by done. cbn [SEND]. rewrite outcome_bind_done, Nat.min_r by done.
  rewrite (proj2 (Nat.eqb_neq _ _)) by lia. unfold substr.
  change (str_drop 0 buf) with buf. rewrite str_take_all by done.
  destruct c. cbn in *. subst. rewrite Nat.add_0_r, Nat.leb_refl. done.
Qed.

(** A fresh buffer is taken up like a pending one. *)
Lemma send_fresh fuel c s p c' :
  cn_send_buf c = None -> get_send_buf c = (Some p, c') ->
  send_loop (S fuel) c s = send_loop (S fuel) (c' <| cn_send_buf := Some p |> <| cn_send_num := 0%nat |>) s.
Proof. intros Eb E. cbn [send_loop]. rewrite Eb, E. done. Qed.

Lemma send_nothing fuel c s :
  cn_send_buf c = None -> cn_http_status c = RECV_HEAD -> send_loop (S fuel) c s = Done (c, s).
Proof. intros Eb E. cbn [send_loop]. rewrite Eb. unfold get_send_buf. by rewrite E. Qed.

Lemma send_empty fuel c s : cn_send_buf c = Some "" -> send_loop (S fuel) c s = Done (c, s).
Proof. intros E. cbn [send_loop]. by rewrite E. Qed.

(** The response on its way out: head and body. *)
Definition response_head (version : string) (r : http_response) : string := fst (response_to_head_str version r).

Definition response_text (c : connection) : string :=
  response_head (cn_version c) (dp_res (cn_data c)) +:+ dp_send_body (cn_data c).

(** The connection after its response. *)
Definition sent_conn (c : connection) : connection :=
  reset (c <| cn_data ::= (fun p => p <| dp_send_body := "" |>) |>)
    <| cn_sent := cn_sent c +:+ response_text c |> <| cn_send_num := String.length (dp_send_body (cn_data c)) |>
    <| cn_epollout := false |>.

Lemma response_head_text version r : response_head version r <> "" /\ hs_body (snd (response_to_head_str version r)) = hs_body r.
Proof.
  unfold response_head, response_to_head_str. cbn [fst snd]. split; [by destruct version|]. by destruct (is_empty _).
Qed.

Lemma sends_head c :
  cn_http_status c = SEND_HEAD -> dp_pending (cn_data c) = false ->
  get_send_buf c = (Some (response_head (cn_version c) (dp_res (cn_data c))),
    c <| cn_data ::= (fun p => p <| dp_res := snd (response_to_head_str (cn_version c) (dp_res (cn_data c))) |>) |>
      <| cn_http_status := SEND_BODY |>).
Proof. intros Es Ep. unfold get_send_buf, get_send_head, response_head. by rewrite Es, Ep. Qed.

Lemma answer_sent c n :
  cn_http_status c = SEND_HEAD -> cn_send_buf c = None -> dp_pending (cn_data c) = false ->
  dp_send_body (cn_data c) <> "" -> (String.length (response_text c) <= n)%nat ->
  real_send c (Room n) = Done (sent_conn c, Room (n - String.length (response_text c))).
Proof.
  intros Es Eb Ep Hne Hn. unfold response_text in Hn. rewrite str_length_app in Hn. unfold real_send, send_fuel.
  destruct (response_head_text (cn_version c) (dp_res (cn_data c))) as [Hh Hb].
  rewrite (send_fresh _ _ _ _ _ Eb (sends_head c Es Ep)).
  erewrite send_whole; [|reflexivity|reflexivity|exact Hh|lia].
  set (r := snd (response_to_head_str _ _)) in *. clearbody r. set (h := response_head _ _) in *.
  assert (response_text c = h +:+ dp_send_body (cn_data c)) as Et by done. clearbody h.
  erewrite send_fresh; [|done|reflexivity].
  erewrite send_whole; [|reflexivity|reflexivity|exact Hne|change (String.length (dp_send_body (cn_data c)) <= n - String.length h)%nat; lia].
  rewrite send_nothing by done. unfold sent_conn. rewrite Et. rewrite str_length_app.
  destruct c as [? ? ? ? ? ? ? ? [? ? ? ? ?] ? ? ? ? ? ?]. cbn in *. unfold constant in *. subst. rewrite Hb, str_app_assoc, Nat.sub_add_distr. done.
Qed.

(** What [recv_finish] sends after a response that has been sent. *)
Definition stray_head : string := " 200 " +:+ CRLF2.

Lemma stray_sent c n b :
  cn_http_status c = SEND_HEAD -> cn_send_buf c = None -> dp_pending (cn_data c) = false ->
  dp_send_body (cn_data c) = "" -> dp_res (cn_data c) = mkResponse 200 "" ∅ b -> cn_version c = "" ->
  (String.length stray_head <= n)%nat ->
  real_send c (Room n) =
    Done (reset c <| cn_sent := cn_sent c +:+ stray_head |> <| cn_send_buf := Some "" |> <| cn_send_num := 0%nat |>
            <| cn_epollout := false |>, Room (n - String.length stray_head)).
Proof.
  destruct c as [? ? ? ? ? ? ? ? [? ? ? ? ?] ? ? ? ? ? ?]. intros Es Eb Ep Hb Hr Hv Hn.
  cbn in Es, Eb, Ep, Hb, Hr, Hv. subst. unfold real_send, send_fuel.
  erewrite send_fresh; [|reflexivity|by apply sends_head].
  erewrite send_whole; [|reflexivity|done|done|done].
  erewrite send_fresh; [|done|reflexivity]. by rewrite send_empty.
Qed.

(** A buffer that is empty and never freed: nothing more is sent. *)
Definition muted (c : connection) : Prop := cn_send_buf c = Some "".

Lemma muted_send c s : muted c -> real_send c s = Done (c <| cn_epollout := false |>, s).
Proof. intros Hm. unfold real_send, send_fuel. by rewrite send_empty. Qed.

(** ** Receiving: lemmas *)

Lemma url_handler_found url : exists h, get_url_handler url = Some h.
Proof.
  unfold get_url_handler. destruct (url_handler_map !! strip_query url); [by eexists|]. by eexists.
Qed.

(** The data process answers, or waits for the manager. *)
Lemma handler_ran {V W} `{Json V} `{PdefFiles W} e req id p (w : W) p' out w' :
  msg_recv_finish e req id p w = Done (p', out, w') ->
  dp_recv_body p' = dp_recv_body p /\
  ((dp_pending p' = false /\ dp_ready p' = S (dp_ready p)) \/ (dp_pending p' = true /\ dp_ready p' = dp_ready p)).
Proof.
  unfold msg_recv_finish. destruct (url_handler_found (hq_url_path req)) as [h ->].
  destruct (perform _ _ _ _ _ _ _) as [[[[ready r] o] w1]| | |]; try done. cbn [mbind outcome_bind].
  intros E. apply (inj Done) in E. injection E as <- _ _. destruct p, ready; cbn; unfold constant; auto.
Qed.

(** Receiving leaves what is sent alone. *)
Definition silent (c c' : connection) : Prop := cn_send_buf c' = cn_send_buf c /\ cn_sent c' = cn_sent c.

Lemma silent_muted c c' : silent c c' -> muted c -> muted c' /\ cn_sent c' = cn_sent c.
Proof. unfold silent, muted. intros [-> ->]. done. Qed.

Lemma get_boundary_silent buf c r c' : get_boundary buf c = Done (r, c') -> silent c c'.
Proof.
  unfold get_boundary. destruct (content_length c =? 0); [done|]. destruct c. unfold silent. cbn. unfold constant.
  intros E. repeat (destr_in E; try done); simplify_eq; by cbn.
Qed.

Lemma conn_recv_body_silent buf c r c' : conn_recv_body buf c = Done (r, c') -> silent c c'.
Proof.
  unfold conn_recv_body. destruct (_ || _); [by intros [= <- <-]|]. destruct (is_empty _); [|apply get_boundary_silent].
  intros E. apply (inj Done) in E. injection E as <- <-. by destruct c.
Qed.

Lemma check_head_silent buf c left c' : check_head_finish buf c = Done (left, c') -> silent c c'.
Proof.
  unfold check_head_finish. destruct (find_str CRLF2 buf).
  - destruct (parse_header _ _ _) as [[h b]| | |]; try done. rewrite outcome_bind_done. intros E. apply (inj Done) in E.
    injection E as _ <-. by destruct c.
  - destruct (_ <? _); [done|]. by intros [= _ <-].
Qed.

Section Muted.
Context {V W : Type} `{Json V} `{PdefFiles W}.

Lemma muted_change st c s : muted c ->
  exists c', change_http_status st c s = Done (c', s) /\ muted c' /\ cn_sent c' = cn_sent c.
Proof.
  intros Hm. destruct c. destruct st; try by eexists. unfold change_http_status, notice_send.
  rewrite muted_send by done. by eexists.
Qed.

Lemma muted_on_send st (x x' : io (W := W)) : muted (io_conn x) -> on_send (change_http_status st) x = Done x' ->
  muted (io_conn x') /\ cn_sent (io_conn x') = cn_sent (io_conn x).
Proof.
  intros Hm. unfold on_send. destruct (muted_change st (io_conn x) (io_sock x) Hm) as (c' & -> & Hm' & Es).
  cbn. intros E. apply (inj Done) in E. by subst.
Qed.

Lemma muted_finish e (x x' : io (W := W)) : muted (io_conn x) -> recv_finish e x = Done x' ->
  muted (io_conn x') /\ cn_sent (io_conn x') = cn_sent (io_conn x).
Proof.
  intros Hm. unfold recv_finish. destruct (msg_recv_finish _ _ _ _ _) as [[[p o] w]| | |]; try done.
  cbn [mbind outcome_bind]. set (x1 := mkIo _ _ _ _).
  assert (muted (io_conn x1) /\ cn_sent (io_conn x1) = cn_sent (io_conn x)) as [Hm1 <-].
  { subst x1. destruct x as [[]]. by cbn. }
  clearbody x1. destruct (dp_ready _ <? dp_ready p)%nat.
  - destruct (on_send _ x1) as [x2| | |] eqn:E1; try done. destruct (muted_on_send _ _ _ Hm1 E1) as [Hm2 <-].
    rewrite outcome_bind_done. destruct (dp_pending _); [by intros [= <-]|]. by apply muted_on_send.
  - rewrite outcome_bind_done. destruct (dp_pending _); [by intros [= <-]|]. by apply muted_on_send.
Qed.

Lemma muted_body e buf (x x' : io (W := W)) : muted (io_conn x) -> recv_body e buf x = Done x' ->
  muted (io_conn x') /\ cn_sent (io_conn x') = cn_sent (io_conn x).
Proof.
  intros Hm. unfold recv_body. destruct (conn_recv_body buf (io_conn x)) as [[r c]| | |] eqn:E; try done.
  destruct (silent_muted _ _ (conn_recv_body_silent _ _ _ _ E) Hm) as [Hm' <-]. rewrite outcome_bind_done.
  destruct r; [by apply (muted_finish e (set_conn c x))|]. intros E'. apply (inj Done) in E'. by subst.
Qed.

Lemma muted_process e buf (x x' : io (W := W)) n : muted (io_conn x) -> process_recv_buf e buf x = Done (n, x') ->
  muted (io_conn x') /\ cn_sent (io_conn x') = cn_sent (io_conn x).
Proof.
  intros Hm. unfold process_recv_buf. destruct (cn_http_status (io_conn x)); try done.
  - destruct (find_str CRLF2 (c_str buf)); [|by intros [= _ <-]].
    destruct (check_head_finish buf (io_conn x)) as [[left c]| | |] eqn:Ec; try done. rewrite outcome_bind_done.
    destruct (silent_muted _ _ (check_head_silent _ _ _ _ Ec) Hm) as [Hm1 <-].
    destruct (cn_http_status c); try (intros [= _ <-]; done).
    destruct (recv_body e _ (set_conn c x)) as [x2| | |] eqn:E; try done. rewrite outcome_bind_done. intros [= _ <-].
    by apply (muted_body e left (set_conn c x) x2).
  - destruct (recv_body e _ x) as [x2| | |] eqn:E; try done. rewrite outcome_bind_done. intros [= _ <-]. by eapply muted_body.
Qed.

Lemma muted_event e ev (x x' : io (W := W)) : muted (io_conn x) -> handle_event e ev x = Done x' ->
  muted (io_conn x') /\ cn_sent (io_conn x') = cn_sent (io_conn x).
Proof.
  intros Hm. destruct ev as [i| | |m|t]; cbn [handle_event].
  - unfold real_recv. destruct (if _ : bool then _ else _) as [[got rest]| | |]; try done. cbn [mbind outcome_bind].
    set (x1 := set_conn _ x). assert (muted (io_conn x1) /\ cn_sent (io_conn x1) = cn_sent (io_conn x)) as [Hm1 <-].
    { subst x1. destruct x as [[]]. by cbn. }
    destruct (_ || _).
    + destruct (process_recv_buf e _ x1) as [[n x2]| | |] eqn:E; try done. rewrite outcome_bind_done. intros E'. apply (inj Done) in E' as <-.
      destruct (muted_process _ _ _ _ _ Hm1 E) as [Hm2 <-]. by destruct x2 as [[]].
    + intros E'. apply (inj Done) in E' as <-. done.
  - unfold on_send. rewrite muted_send by done. rewrite outcome_bind_done. intros E. apply (inj Done) in E as <-. by destruct x as [[]].
  - done.
  - set (x1 := set_conn _ x). assert (muted (io_conn x1) /\ cn_sent (io_conn x1) = cn_sent (io_conn x)) as [Hm1 <-].
    { subst x1. destruct x as [[]]. by cbn. }
    destruct (_ <? _)%nat; [by apply muted_on_send|]. intros E. apply (inj Done) in E as <-. done.
  - destruct (_ =? _); [done|]. destruct (_ =? _); [done|]. intros E. apply (inj Done) in E as <-. done.
Qed.
End Muted.

(** ** One request *)

Lemma on_change {W} c o (w : W) s :
  on_send (change_http_status SEND_HEAD) (mkIo c o w s) =
    ('(c, s) ← real_send (c <| cn_http_status := SEND_HEAD |> <| cn_epollout := true |>) s; Done (mkIo c o w s)).
Proof. done. Qed.

Section Serve.
Context {V W : Type} `{Json V} `{PdefFiles W}.

(** A connection that waits for a request. *)
Record idle (c : connection) : Prop := {
  idle_recv : cn_recv_buf c = "";
  idle_send : cn_send_buf c = None;
  idle_status : cn_http_status c = RECV_HEAD;
  idle_headers : hh_headers (cn_req_head c) = ∅;
  idle_cookies : hh_cookie_list (cn_req_head c) = ∅;
  idle_boundary : cn_boundary_str c = "";
}.

(** What the handler has got of a body. *)
Definition seen_body (h : http_head) (part : string) : string :=
  if strcasecmp_eq (hh_method h) "GET" || strcasecmp_eq (hh_method h) "HEAD" then "" else part.

(** The connection after the handler has left the data process as [p]. *)
Definition served (c : connection) (p : CRxHttpResDataProcess) (c' : connection) : Prop :=
  if dp_pending p then
    cn_sent c' = cn_sent c /\ cn_data c' = p /\ cn_version c' = cn_version c /\ cn_send_buf c' = None /\
    cn_http_status c' = RECV_BODY
  else
    cn_sent c' = cn_sent c +:+ response_head (cn_version c) (dp_res p) +:+ dp_send_body p +:+ stray_head /\ muted c' /\
    cn_http_status c' = RECV_HEAD.

Definition reply_fits (c : connection) (p : CRxHttpResDataProcess) (n : nat) : Prop :=
  dp_pending p = false -> dp_send_body p <> "" /\
    (String.length (response_head (cn_version c) (dp_res p) +:+ dp_send_body p +:+ stray_head) <= n)%nat.

Lemma finish_served e c out0 w n p out w' :
  cn_send_buf c = None -> cn_http_status c = RECV_BODY ->
  msg_recv_finish e (handler_head (cn_req_head c)) (cn_id c) (cn_data c) w = Done (p, out, w') ->
  reply_fits c p n ->
  exists c' s, recv_finish e (mkIo c out0 w (Room n)) = Done (mkIo c' (out0 ++ out) w' s) /\
    cn_recv_buf c' = cn_recv_buf c /\ served c p c'.
Proof.
  intros Hb Hst E Hfit. unfold recv_finish. cbn [io_conn io_world io_out io_sock]. rewrite E, outcome_bind_done.
  destruct (handler_ran _ _ _ _ _ _ _ _ E) as [_ [[Hp Hr]|[Hp Hr]]].
  - destruct (Hfit Hp) as [Hne Hn]. rewrite !str_length_app in Hn. unfold served. rewrite Hp.
    rewrite Hr, (proj2 (Nat.ltb_lt _ _)) by lia. rewrite on_change. match goal with |- context [real_send ?y _] => set (c1 := y) end.
    assert (response_text c1 = response_head (cn_version c) (dp_res p) +:+ dp_send_body p) as Et by (by destruct c).
    rewrite (answer_sent c1 n); [|by destruct c|by destruct c|by destruct c|by destruct c|rewrite Et, str_length_app; lia].
    rewrite !outcome_bind_done. cbn [io_conn io_out io_world io_sock].
    set (c2 := sent_conn c1). assert (dp_pending (cn_data c2) = false) as -> by (by destruct c, p).
    rewrite on_change.
    match goal with |- context [real_send ?y _] => set (c3 := y) end.
    rewrite (stray_sent c3 _ (hs_body (dp_res p))); [|by destruct c|by destruct c|by destruct c, p|by destruct c, p|by destruct c, p|by destruct c|].
    + rewrite outcome_bind_done. do 2 eexists. split; [reflexivity|].
      split; [by destruct c|]. split; [|by destruct c].
      assert (cn_sent c3 = cn_sent c +:+ response_text c1) as E3 by (by destruct c). 
      transitivity (cn_sent c3 +:+ stray_head); [by destruct c|]. by rewrite E3, Et, !str_app_assoc.
    + rewrite Et, str_length_app. lia.
  - rewrite Hr, Nat.ltb_irrefl, outcome_bind_done. cbn [io_conn].
    assert (dp_pending (cn_data (c <| cn_data := p |>)) = true) as -> by (by destruct c).
    do 2 eexists. split; [reflexivity|]. unfold served. rewrite Hp. by destruct c.
Qed.

Lemma is_prefix_longer needle a t :
  (String.length needle <= String.length a)%nat -> is_prefix needle (a +:+ t) = is_prefix needle a.
Proof.
  revert a. induction needle as [|c needle IH]; intros a Hl; [done|]. destruct a as [|d a]; [simpl in Hl; lia|].
  rewrite str_app_cons. cbn. f_equal. apply IH. simpl in Hl. lia.
Qed.

Lemma find_str_longer needle a t n : find_str needle a = Some n -> find_str needle (a +:+ t) = Some n.
Proof.
  revert n. induction a as [|c a IH]; intros n E.
  - cbn [find_str] in E. destruct (is_prefix needle "") eqn:Ep; [|done]. injection E as <-.
    destruct needle; [|done]. by destruct t.
  - pose proof (find_str_le _ _ _ E) as Hl. rewrite str_app_cons. cbn [find_str] in *.
    rewrite <- str_app_cons. rewrite is_prefix_longer by lia. destruct (is_prefix needle (String c a)); [done|].
    destruct (find_str needle a) as [m|]; [|done]. by rewrite (IH m).
Qed.

(** Less than the head is no head. *)
Lemma head_incomplete h l a t :
  sent_head h l -> a +:+ t = head_text h l -> t <> "" -> find_str CRLF2 (c_str a) = None.
Proof.
  intros Hh E Ht. pose proof (head_no_nul h l Hh) as Hn. rewrite <- E, has_char_app in Hn. apply orb_false_iff in Hn as [Hn _].
  rewrite c_str_id by done. destruct (find_str CRLF2 a) as [n|] eqn:Ef; [|done]. exfalso.
  destruct (find_head_end h l "" Hh) as (front & Ef1 & Ef2). rewrite str_app_nil_r, <- E in Ef2.
  rewrite (find_str_longer _ _ t _ Ef) in Ef2. injection Ef2 as ->.
  apply find_str_le in Ef. rewrite Ef1 in E. apply (f_equal String.length) in E. rewrite !str_length_app in E.
  destruct t; [done|]. simpl in E, Ef. lia.
Qed.

Lemma recv_room b got :
  (String.length (b +:+ got) <= MAX_RECV_SIZE)%nat ->
  (if (Nat.min (MAX_RECV_SIZE - String.length b) SIZE_LEN_32768 =? 0)%nat then Done ("", got)
   else Done (str_take (Nat.min (MAX_RECV_SIZE - String.length b) SIZE_LEN_32768) got,
              str_drop (Nat.min (MAX_RECV_SIZE - String.length b) SIZE_LEN_32768) got)) = Done (got, "").
Proof.
  rewrite str_length_app. intros Hl.
  assert (Nat.min (MAX_RECV_SIZE - String.length b) SIZE_LEN_32768 = (MAX_RECV_SIZE - String.length b)%nat) as ->.
  { apply Nat.min_l. unfold MAX_RECV_SIZE, SIZE_LEN_32768. lia. }
  destruct (Nat.eqb_spec (MAX_RECV_SIZE - String.length b) 0) as [E|E].
  - destruct got; [done|]. simpl in Hl. lia.
  - rewrite str_take_all by lia. assert (forall n s, (String.length s <= n)%nat -> str_drop n s = "") as Hd.
    { clear. induction n; intros [|c s] Hs; try done; simpl in *; [lia|]. apply IHn. lia. }
    by rewrite Hd by lia.
Qed.

(** A read that adds [got] to the buffer. *)
Lemma real_recv_data e got (x : io (W := W)) :
  (String.length (cn_recv_buf (io_conn x) +:+ got) <= MAX_RECV_SIZE)%nat ->
  real_recv false e (Data got) x =
    let c := (io_conn x) <| cn_recv_buf := cn_recv_buf (io_conn x) +:+ got |> in
    if is_empty (cn_recv_buf c) then Done ("", set_conn c x)
    else '(used, x) ← process_recv_buf e (cn_recv_buf c) (set_conn c x);
         Done ("", set_conn ((io_conn x) <| cn_recv_buf ::= str_drop used |>) x).
Proof.
  intros Hl. unfold real_recv. rewrite (recv_room _ _ Hl), outcome_bind_done, orb_false_r.
  destruct x as [[]]. cbn [io_conn cn_recv_buf] in *. cbn. unfold constant. by destruct (is_empty _).
Qed.

Lemma head_buffered h l e got t (x : io (W := W)) :
  sent_head h l -> cn_http_status (io_conn x) = RECV_HEAD ->
  cn_recv_buf (io_conn x) +:+ got +:+ t = head_text h l -> t <> "" ->
  (String.length (head_text h l) <= MAX_RECV_SIZE)%nat ->
  handle_event e (Readable (Data got)) x =
    Done (set_conn ((io_conn x) <| cn_recv_buf := cn_recv_buf (io_conn x) +:+ got |>) x).
Proof.
  intros Hh Hs E Ht Hl. cbn [handle_event]. rewrite <- str_app_assoc in E.
  rewrite real_recv_data by (rewrite <- E, str_length_app in Hl; lia). cbn zeta.
  set (c := _ <| cn_recv_buf := _ |>). assert (cn_recv_buf c = cn_recv_buf (io_conn x) +:+ got) as Ec by (by destruct x as [[]]).
  destruct (is_empty (cn_recv_buf c)); [done|]. unfold process_recv_buf. cbn [io_conn set_conn].
  assert (cn_http_status c = RECV_HEAD) as -> by (by destruct x as [[]]).
  rewrite Ec, (head_incomplete h l _ t) by done. rewrite !outcome_bind_done. subst c. by destruct x as [[]].
Qed.

Definition readable (ch : http_env * socket * string) : http_env * socket * conn_event :=
  let '(e, s, b) := ch in (e, s, Readable (Data b)).

Definition received (chunks : list (http_env * socket * string)) : string := String.concat "" (map snd chunks).

Lemma received_cons e s b l : received ((e, s, b) :: l) = b +:+ received l.
Proof. unfold received. cbn [map snd]. destruct (map snd l); [by rewrite str_app_nil_r|done]. Qed.

Lemma chunks_buffered h l chunks t rest (x : io (W := W)) :
  sent_head h l -> cn_http_status (io_conn x) = RECV_HEAD ->
  cn_recv_buf (io_conn x) +:+ received chunks +:+ t = head_text h l -> t <> "" ->
  (String.length (head_text h l) <= MAX_RECV_SIZE)%nat ->
  exists s, handle_events (map readable chunks ++ rest) x =
    handle_events rest (mkIo ((io_conn x) <| cn_recv_buf := cn_recv_buf (io_conn x) +:+ received chunks |>)
                          (io_out x) (io_world x) s).
Proof.
  intros Hh. revert x. induction chunks as [|[[e s] b] ls IH]; intros x Hs E Ht Hl.
  - exists (io_sock x). cbn [map app received String.concat]. destruct x as [[]]. cbn. unfold constant.
    by rewrite str_app_nil_r.
  - cbn [map readable app handle_events]. rewrite received_cons in E. rewrite str_app_assoc in E.
    rewrite (head_buffered h l e b (received ls +:+ t)); [|done|done|done|by destruct (received ls)|done].
    rewrite outcome_bind_done. cbn [set_conn io_conn io_out io_world io_sock].
    destruct (IH (mkIo ((io_conn x) <| cn_recv_buf := cn_recv_buf (io_conn x) +:+ b |>) (io_out x) (io_world x) s)) as (s' & E').
    + by destruct x as [[]].
    + rewrite <- E. destruct x as [[]]. cbn. unfold constant. by rewrite !str_app_assoc.
    + done.
    + done.
    + exists s'. change (set_conn ?c _) with (mkIo c (io_out x) (io_world x) s) in *. unfold set_conn in *. cbn [io_out io_world io_sock].
      rewrite E'. rewrite received_cons. destruct x as [[]]. cbn. unfold constant. by rewrite !str_app_assoc.
Qed.

Lemma shifted_handler h : handler_head (h <| hh_headers := shifted (hh_headers h) |>) = handler_head h.
Proof. by destruct h. Qed.

(** The read that completes the head. *)
Lemma head_completed e h l part c out0 w n p out w' got :
  cn_http_status c = RECV_HEAD -> cn_send_buf c = None -> hh_headers (cn_req_head c) = ∅ ->
  hh_cookie_list (cn_req_head c) = ∅ -> cn_boundary_str c = "" ->
  sent_head h l -> find_boundary (h <| hh_headers := shifted (hh_headers h) |>) "" = "" ->
  cn_recv_buf c +:+ got = head_text h l +:+ part ->
  (String.length (head_text h l +:+ part) <= MAX_RECV_SIZE)%nat ->
  msg_recv_finish e (handler_head h) (cn_id c) (process_recv_body (seen_body h part) (cn_data c)) w = Done (p, out, w') ->
  reply_fits c p n ->
  exists c' s, handle_event e (Readable (Data got)) (mkIo c out0 w (Room n)) = Done (mkIo c' (out0 ++ out) w' s) /\
    cn_recv_buf c' = "" /\ served c p c'.
Proof.
  intros Hs Hsb Hhs Hck Hbd Hh Hfb E Hl Em Hfit. cbn [handle_event]. rewrite real_recv_data by (cbn [io_conn]; by rewrite E).
  cbn zeta. cbn [io_conn set_conn io_out io_world io_sock]. set (c1 := c <| cn_recv_buf := _ |>).
  assert (cn_recv_buf c1 = head_text h l +:+ part) as -> by (rewrite <- E; by destruct c).
  destruct (find_head_end h l part Hh) as (front & Ef & Efind).
  destruct (is_empty_spec (head_text h l +:+ part)) as [E0|_]; [by rewrite E0 in Efind|].
  unfold process_recv_buf, set_conn. cbn [io_conn io_out io_world io_sock]. assert (cn_http_status c1 = RECV_HEAD) as -> by (by destruct c).
  rewrite c_str_app by by apply head_no_nul.
  destruct (find_head_end h l (c_str part) Hh) as (front' & Ef' & Efind'). rewrite Efind'. unfold check_head_finish. rewrite Efind. clear Efind' Ef' front'.
  assert (String.length front + 4 = String.length (head_text h l))%nat as El by (by rewrite Ef, str_length_app).
  rewrite El, str_drop_app, str_take_app.
  assert (cn_req_head c1 = cn_req_head c /\ cn_boundary_str c1 = "") as [-> ->] by (by destruct c).
  rewrite (sent_head_read h l) by done. rewrite Hfb, !outcome_bind_done.
  unfold recv_body. cbn [set_conn io_conn io_out io_world io_sock]. set (c2 := c1 <| cn_http_status := RECV_BODY |> <| cn_req_head := _ |> <| cn_boundary_str := _ |>).
  assert (exists c3, conn_recv_body part c2 = Done (true, c3) /\
    cn_data c3 = process_recv_body (seen_body h part) (cn_data c) /\ cn_id c3 = cn_id c /\ cn_send_buf c3 = None /\
    cn_http_status c3 = RECV_BODY /\ handler_head (cn_req_head c3) = handler_head h /\ cn_sent c3 = cn_sent c /\
    cn_version c3 = cn_version c /\ cn_recv_buf c3 = cn_recv_buf c1) as (c3 & Eb & Ed & Eid & Esb & Est & Eh & Ese & Ev & Er).
  { unfold conn_recv_body. assert (hh_method (cn_req_head c2) = hh_method h) as -> by (by destruct h).
    assert (is_empty (cn_boundary_str c2) = true) as -> by done. unfold seen_body.
    destruct (strcasecmp_eq (hh_method h) "GET" || strcasecmp_eq (hh_method h) "HEAD").
    - eexists. split; [reflexivity|]. destruct c as [? ? ? ? ? ? ? ? [? ? ? ? ?] ? ? ? ? ? ?], h. cbn in *. unfold constant. subst. unfold process_recv_body. cbn. by rewrite str_app_nil_r.
    - eexists. split; [reflexivity|]. destruct c as [? ? ? ? ? ? ? ? [? ? ? ? ?] ? ? ? ? ? ?], h. cbn in *. unfold constant. subst. done. }
  rewrite Eb, outcome_bind_done. cbn [set_conn io_out io_world io_sock].
  assert (reply_fits c3 p n) as Hfit' by (unfold reply_fits; by rewrite Ev).
  destruct (finish_served e c3 out0 w n p out w') as (c' & s & Efin & Erb & Hsv); [done|done|by rewrite Eh, Eid, Ed|done|].
  unfold set_conn. cbn [io_out io_world io_sock]. rewrite Efin, !outcome_bind_done. cbn [io_conn io_out io_world io_sock].
  do 2 eexists. split; [reflexivity|]. split.
  - assert (cn_recv_buf c' = head_text h l +:+ part) as Ec' by (rewrite Erb, Er, <- E; by destruct c).
    assert (forall k, cn_recv_buf (c' <| cn_recv_buf ::= str_drop k |>) = str_drop k (cn_recv_buf c')) as -> by (by destruct c').
    rewrite Ec'. by rewrite <- (str_app_nil_r (head_text h l +:+ part)) at 2; rewrite str_drop_app.
  - unfold served in *. rewrite Ev, Ese in Hsv. by destruct c'.
Qed.
End Serve.

Lemma send_part fuel c n buf :
  cn_send_buf c = Some buf -> cn_send_num c = 0%nat -> (n < String.length buf)%nat ->
  send_loop (S (S fuel)) c (Room n) =
    Done (c <| cn_sent := cn_sent c +:+ str_take n buf |> <| cn_send_num := n |>, Room 0).
Proof.
  intros Eb En Hn. remember (S fuel) as k eqn:Ek. cbn [send_loop]. rewrite Eb, En, Nat.sub_0_r, (proj2 (Nat.ltb_lt _ _)) by lia.
  cbn [SEND]. rewrite outcome_bind_done, Nat.min_l, Nat.sub_diag by lia. destruct (Nat.eqb_spec n 0) as [->|H0].
  - destruct c. cbn in *. unfold constant. subst. by rewrite str_app_nil_r.
  - unfold substr. change (str_drop 0 buf) with buf.
    match goal with |- context [(String.length buf <=? ?k)%nat] => change k with (n + cn_send_num c)%nat end.
    rewrite En, Nat.add_0_r, (proj2 (Nat.leb_gt _ _)) by lia.
    rewrite Ek. erewrite send_blocked by (destruct c; exact Eb). destruct c. cbn in *. unfold constant. subst. by rewrite Nat.add_0_r.
Qed.

Lemma str_take_beyond a b n : (String.length a <= n)%nat -> str_take n (a +:+ b) = a +:+ str_take (n - String.length a) b.
Proof.
  revert n. induction a as [|c a IH]; intros n Hn; [by rewrite !str_app_nil, Nat.sub_0_r|].
  destruct n; [simpl in Hn; lia|]. rewrite !str_app_cons. cbn. f_equal. apply IH. simpl in Hn. lia.
Qed.

Lemma str_take_within a b n : (n <= String.length a)%nat -> str_take n (a +:+ b) = str_take n a.
Proof.
  revert n. induction a as [|c a IH]; intros n Hn; [by destruct n; [destruct b|simpl in Hn; lia]|].
  destruct n; [done|]. rewrite str_app_cons. cbn. f_equal. apply IH. simpl in Hn. lia.
Qed.

(** A response that the socket does not take at once is cut off.  When
    [send] would block after [n] bytes, the rest stays in the buffer and
    [EPOLLOUT] is no longer among the events the connection waits for, so nothing
    tells it when there is room again. *)
Theorem blocked_response_stalls c n :
  cn_http_status c = SEND_HEAD -> cn_send_buf c = None -> dp_pending (cn_data c) = false ->
  (n < String.length (response_text c))%nat ->
  exists c', notice_send c (Room n) = Done (c', Room 0) /\
    cn_sent c' = cn_sent c +:+ str_take n (response_text c) /\
    cn_epollout c' = false /\ cn_send_buf c' <> None.
Proof.
  intros Es Eb Ep Hn. unfold notice_send, real_send, send_fuel. unfold response_text in *.
  set (h := response_head (cn_version c) (dp_res (cn_data c))) in *.
  set (c1 := c <| cn_epollout := true |>).
  assert (get_send_buf c1 = (Some h, c1 <| cn_data ::= (fun p => p <| dp_res := snd (response_to_head_str (cn_version c1) (dp_res (cn_data c1))) |>) |>
      <| cn_http_status := SEND_BODY |>)) as E1.
  { rewrite sends_head; by destruct c. }
  rewrite (send_fresh _ c1 _ _ _ ltac:(by destruct c) E1). set (r := snd _). clearbody r.
  assert (h <> "") as Hh by apply response_head_text.
  assert (cn_sent c1 = cn_sent c /\ dp_send_body (cn_data c1) = dp_send_body (cn_data c)) as [Hs1 Hb1] by (by destruct c).
  clearbody h. rewrite str_length_app in Hn. destruct (Nat.ltb_spec n (String.length h)) as [Hlt|Hge].
  - erewrite send_part; [|reflexivity|reflexivity|done]. rewrite outcome_bind_done. eexists. split; [reflexivity|].
    rewrite str_take_within by lia. rewrite <- Hs1. by destruct c.
  - erewrite send_whole; [|reflexivity|reflexivity|done|lia].
    erewrite send_fresh; [|reflexivity|reflexivity].
    erewrite send_part; [|reflexivity|reflexivity|rewrite <- Hb1 in Hn; destruct c as [? ? ? ? ? ? ? ? [] ? ? ? ? ? ?]; cbn in *; unfold constant in *; lia].
    rewrite outcome_bind_done. eexists. split; [reflexivity|].
    rewrite str_take_beyond by lia. rewrite <- Hs1, <- Hb1.
    destruct c as [? ? ? ? ? ? ? ? [] ? ? ? ? ? ?]. cbn. unfold constant. by rewrite !str_app_assoc.
Qed.

(** After an answer given at once the connection never sends again: the empty
    body that follows the stray head stays in the send buffer, is never sent and
    never freed.  Whatever arrives later, requests and replies of the manager
    included, leaves what was sent as it is. *)
Theorem answered_connection_mute {V W} `{Json V} `{PdefFiles W} l (x x' : io (W := W)) :
  muted (io_conn x) -> handle_events l x = Done x' ->
  muted (io_conn x') /\ cn_sent (io_conn x') = cn_sent (io_conn x).
Proof.
  revert x. induction l as [|[[e s] ev] l IH]; intros x Hm; cbn [handle_events]; [by intros [= <-]|].
  destruct (handle_event e ev _) as [x1| | |] eqn:E; try done. rewrite outcome_bind_done. intros El.
  destruct (muted_event e ev (mkIo (io_conn x) (io_out x) (io_world x) s) x1 Hm E) as [Hm1 E1]. destruct (IH _ Hm1 El) as [Hm2 E2]. split; [done|].
  rewrite E2, E1. done.
Qed.

(** The reads of one request. *)
Lemma request_served_step {V W} `{Json V} `{PdefFiles W} c h l part chunks last e n out0 (w : W) s p out w' :
  idle c -> sent_head h l -> find_boundary (h <| hh_headers := shifted (hh_headers h) |>) "" = "" ->
  received chunks +:+ last = head_text h l +:+ part ->
  (String.length (received chunks) < String.length (head_text h l))%nat ->
  (String.length (head_text h l +:+ part) <= MAX_RECV_SIZE)%nat ->
  msg_recv_finish e (handler_head h) (cn_id c) (process_recv_body (seen_body h part) (cn_data c)) w = Done (p, out, w') ->
  reply_fits c p n ->
  exists c' s', handle_events (map readable chunks ++ [(e, Room n, Readable (Data last))]) (mkIo c out0 w s) =
      Done (mkIo c' (out0 ++ out) w' s') /\
    cn_recv_buf c' = "" /\ served c p c'.
Proof.
  intros [I1 I2 I3 I4 I5 I6] Hh Hfb E Hlt Hl Em Hfit.
  set (t := str_drop (String.length (received chunks)) (head_text h l)).
  assert (received chunks +:+ t = head_text h l) as Et.
  { pose proof (str_take_app (received chunks) last) as Ht. rewrite E, str_take_within in Ht by lia.
    transitivity (str_take (String.length (received chunks)) (head_text h l) +:+ t); [by rewrite Ht|].
    apply str_take_drop. }
  assert (t <> "") as Hne. { intros E0. rewrite E0, str_app_nil_r in Et. rewrite Et in Hlt. lia. }
  destruct (chunks_buffered h l chunks t [(e, Room n, Readable (Data last))] (mkIo c out0 w s)) as (s1 & ->); try done.
  { cbn [io_conn]. by rewrite I1, str_app_nil. }
  { rewrite str_length_app in Hl. lia. }
  cbn [handle_events io_conn io_out io_world]. set (c1 := c <| cn_recv_buf := _ |>).
  destruct (head_completed e h l part c1 out0 w n p out w' last) as (c' & s' & -> & Hr & Hsv); try (by destruct c).
  - rewrite <- E. destruct c. cbn in *. unfold constant. by rewrite I1, str_app_nil.
  - rewrite outcome_bind_done. by exists c', s'.
Qed.

(** A reply of the manager. *)
Lemma reply_step {V W} `{Json V} `{PdefFiles W} e m c out (w : W) n :
  cn_send_buf c = None -> hr_body m <> "" ->
  let r := dp_res (HttpApi.handle_msg (MsgHttpReply m) (cn_data c)) in
  (String.length (response_head (cn_version c) r +:+ hr_body m) <= n)%nat ->
  exists c' s, handle_event e (Message (MsgHttpReply m)) (mkIo c out w (Room n)) = Done (mkIo c' out w s) /\
    cn_sent c' = cn_sent c +:+ response_head (cn_version c) r +:+ hr_body m /\
    cn_recv_buf c' = cn_recv_buf c /\ (cn_recv_buf c = "" -> idle c') /\
    cn_version c' = "" /\ dp_recv_body (cn_data c') = dp_recv_body (cn_data c).
Proof.
  intros Hb Hne r Hn. cbn [handle_event io_conn]. set (p := HttpApi.handle_msg _ _) in *.
  assert (dp_ready p = S (dp_ready (cn_data c))) as -> by (by destruct c as [? ? ? ? ? ? ? ? [] ? ? ? ? ? ?]).
  rewrite (proj2 (Nat.ltb_lt _ _)) by lia. unfold set_conn. cbn [io_conn io_out io_world io_sock]. rewrite on_change.
  set (c1 := c <| cn_data := p |> <| cn_http_status := SEND_HEAD |> <| cn_epollout := true |>).
  assert (response_text c1 = response_head (cn_version c) r +:+ hr_body m) as Et.
  { by destruct c as [? ? ? ? ? ? ? ? [] ? ? ? ? ? ?]. }
  rewrite (answer_sent c1 n); try (by destruct c as [? ? ? ? ? ? ? ? [] ? ? ? ? ? ?]); [].
  rewrite outcome_bind_done. do 2 eexists. split; [reflexivity|]. unfold sent_conn. rewrite Et. clear Et.
  destruct c as [? ? ? ? ? ? ? ? [] ? ? ? ? ? ?]. cbn in *. unfold constant. split_and!; try done.
Qed.

(** The head of a reply, as [fill_response_headers] leaves it. *)
Definition reply_response (m : SRxHttpReplyMsg) : http_response :=
  mkResponse (hr_status m) (hr_reason m)
    (<["Connection" := "close"]>
       (<["Content-Length" := fmt_u (Z.of_nat (String.length (hr_body m)))]> (hr_headers m))) "".

Lemma reply_head version m p :
  response_head version (dp_res (HttpApi.handle_msg (MsgHttpReply m) p)) = response_head version (reply_response m).
Proof. destruct p. unfold response_head, response_to_head_str. cbn. unfold constant. by destruct (is_empty (hr_reason m)). Qed.

Lemma new_idle id : idle (new_connection id).
Proof. done. Qed.

Lemma start_served {V W} `{Json V} `{PdefFiles W} e id h l body chunks last (w : W) s0 idx me s :
  he_manager e = Some idx -> 0 < obj_thread_index id ->
  sent_head h l -> find_boundary (h <| hh_headers := shifted (hh_headers h) |>) "" = "" ->
  hh_method h = "POST" -> strip_query (hh_url_path h) = "/api/capture/start" ->
  received chunks +:+ last = head_text h l +:+ body ->
  (String.length (received chunks) < String.length (head_text h l))%nat ->
  (String.length (head_text h l +:+ body) <= MAX_RECV_SIZE)%nat ->
  manager_ok s -> mg_next_capture_id s < INT_MAX ->
  let run n := handle_events (map readable chunks ++ [(e, Room n, Readable (Data last))])
                 (mkIo (new_connection id) [] w s0) in
  (exists r text, hs_response_code r ∈ [400; 404] /\ hs_headers r = answer_headers text /\
     let wire := response_head "HTTP/1.1" r +:+ text +:+ stray_head in
     forall n, (String.length wire <= n)%nat ->
     exists c s', run n = Done (mkIo c [] w s') /\ cn_sent c = wire) \/
  exists m doc,
    parse_body (Some body) = Some doc /\
    m = (start_request (he_strategy e) doc id) <| sm_enqueue_ts_ms := he_ms e |> /\
    (forall n, exists c s1, run n = Done (mkIo c [(mkObjId OBJ_ID_THREAD idx, MsgStartCapture m)] w s1) /\ cn_sent c = "") /\
    (request_filtered me m = true -> exists s' out reply,
    CaptureManager.handle_msg me (MsgStartCapture m) s = Done (s', out) /\
    http_replies out = [(id, reply)] /\ hr_status reply ∈ [200; 404; 409; 429] /\ reply_headers (hr_headers reply) /\
    let wire := response_head "HTTP/1.1" (reply_response reply) +:+ hr_body reply in
    forall n k, (String.length wire <= k)%nat ->
    exists c c' s1 s2,
      run n = Done (mkIo c [(mkObjId OBJ_ID_THREAD idx, MsgStartCapture m)] w s1) /\ cn_sent c = "" /\
      handle_event e (Message (MsgHttpReply reply)) (mkIo c [] w (Room k)) = Done (mkIo c' [] w s2) /\ cn_sent c' = wire).
Proof.
  intros Hm Hid Hh Hfb Hpost Hurl E Hlt Hl Hs Hnext run.
  set (p0 := process_recv_body body (cn_data (new_connection id))).
  assert (seen_body h body = body) as Hseen by (unfold seen_body; by rewrite Hpost).
  pose proof (fun n p out w' => request_served_step (new_connection id) h l body chunks last e n [] w s0 p out w'
    (new_idle id) Hh Hfb E Hlt Hl) as Hserve. rewrite Hseen in Hserve. fold p0 in Hserve. change (cn_id (new_connection id)) with id in Hserve.
  destruct (start_received e (handler_head h) id p0 w idx Hm Hid Hpost Hurl)
    as [(p & code & Er & (Hpend & _ & head & Hhead & Hcode & _) & Hc & Hne & Hhs)|(p & m & doc & Er & Hpend & _ & _ & Hdoc & Em)].
  - left. exists (dp_res p), (dp_send_body p). unfold get_send_head in Hhead. rewrite Hpend in Hhead. injection Hhead as <-.
    split; [by rewrite Hcode|]. split; [exact Hhs|]. intros wire n Hn.
    destruct (Hserve n p [] w Er) as (c & s' & Erun & _ & Hsv); [by split|].
    exists c, s'. split; [exact Erun|]. unfold served in Hsv. rewrite Hpend in Hsv. by destruct Hsv as [-> _].
  - right. assert (Ht : sm_reply_target m = id) by (by subst m).
    exists m, doc. split; [exact Hdoc|]. split; [exact Em|]. split.
    { intros n. destruct (Hserve n p _ w Er) as (c & s1 & Erun & _ & Hsv); [by intros Hf; congruence|].
      unfold served in Hsv. rewrite Hpend in Hsv. exists c, s1. split; [exact Erun|apply Hsv]. }
    intros Hfilter.
    destruct (start_replied me m s Hs Hnext) as (s' & out & reply & Eh & Hrep & Hst & Hne & Hhs); [by rewrite Ht|done|].
    exists s', out, reply. rewrite Ht in Hrep. split; [exact Eh|].
    split; [exact Hrep|]. split; [exact Hst|]. split; [exact Hhs|]. intros wire n k Hk.
    destruct (Hserve n p _ w Er) as (c & s1 & Erun & Hrb & Hsv); [by intros Hf; congruence|].
    unfold served in Hsv. rewrite Hpend in Hsv. destruct Hsv as (Hsent & _ & Hv & Hsb & _).
    destruct (reply_step e reply c [] w k Hsb Hne) as (c' & s2 & Ereply & Hsent' & _).
    { rewrite reply_head, Hv. exact Hk. }
    exists c, c', s1, s2. split; [exact Erun|]. split; [exact Hsent|]. split; [exact Ereply|].
    rewrite Hsent', Hsent, reply_head, Hv. by rewrite str_app_nil.
Qed.

(** C26: From the bytes of a start request to the bytes of its one answer.  A start
    request arrives on a new connection, its head, the headers in any order, in any
    number of reads and its body with the last of them.  Either it is refused at once, and 400 or 404 goes
    out (with the empty head behind it), or the message it asks for is posted to
    the manager and nothing goes out; then the manager, in any state it can be in,
    sends this connection one reply if the filter of the message is not blank,
    200, 404, 409 or 429, and exactly its head and body go out. *)
Theorem start_answered_on_wire {V W} `{Json V} `{PdefFiles W} e id h l body chunks last (w : W) s0 idx me s :
  he_manager e = Some idx -> 0 < obj_thread_index id ->
  sent_head h l -> find_boundary (h <| hh_headers := shifted (hh_headers h) |>) "" = "" ->
  hh_method h = "POST" -> strip_query (hh_url_path h) = "/api/capture/start" ->
  received chunks +:+ last = head_text h l +:+ body ->
  (String.length (received chunks) < String.length (head_text h l))%nat ->
  (String.length (head_text h l +:+ body) <= MAX_RECV_SIZE)%nat ->
  manager_ok s -> mg_next_capture_id s < INT_MAX ->
  let run n := handle_events (map readable chunks ++ [(e, Room n, Readable (Data last))])
                 (mkIo (new_connection id) [] w s0) in
  (exists r text, hs_response_code r ∈ [400; 404] /\
     let wire := response_head "HTTP/1.1" r +:+ text +:+ stray_head in
     forall n, (String.length wire <= n)%nat ->
     exists c s', run n = Done (mkIo c [] w s') /\ cn_sent c = wire) \/
  exists m doc,
    parse_body (Some body) = Some doc /\
    m = (start_request (he_strategy e) doc id) <| sm_enqueue_ts_ms := he_ms e |> /\
    (forall n, exists c s1, run n = Done (mkIo c [(mkObjId OBJ_ID_THREAD idx, MsgStartCapture m)] w s1) /\ cn_sent c = "") /\
    (request_filtered me m = true -> exists s' out reply,
    CaptureManager.handle_msg me (MsgStartCapture m) s = Done (s', out) /\
    http_replies out = [(id, reply)] /\ hr_status reply ∈ [200; 404; 409; 429] /\
    let wire := response_head "HTTP/1.1" (reply_response reply) +:+ hr_body reply in
    forall n k, (String.length wire <= k)%nat ->
    exists c c' s1 s2,
      run n = Done (mkIo c [(mkObjId OBJ_ID_THREAD idx, MsgStartCapture m)] w s1) /\ cn_sent c = "" /\
      handle_event e (Message (MsgHttpReply reply)) (mkIo c [] w (Room k)) = Done (mkIo c' [] w s2) /\ cn_sent c' = wire).
Proof.
  intros Hm Hid Hh Hfb Hpost Hurl E Hlt Hl Hs Hnext run.
  destruct (start_served e id h l body chunks last w s0 idx me s Hm Hid Hh Hfb Hpost Hurl E Hlt Hl Hs Hnext)
    as [(r & text & Hc & _ & Hr)|(m & doc & H1 & H2 & H3 & Hf)].
  - left. by exists r, text.
  - right. exists m, doc. split_and!; [done..|]. intros Hfilter.
    destruct (Hf Hfilter) as (s' & out & reply & H4 & H5 & H6 & _ & Hr). by exists s', out, reply.
Qed.

Definition demo_chunks : list (http_env * socket * string) :=
  [(demo_http_env, Broken, "POST /api/capture/"); (demo_http_env, Room 0, "start HTTP/1.1" +:+ CRLF)].

Definition demo_last : string :=
  str_drop (String.length (received demo_chunks)) (request_to_head_str demo_head) +:+ "{}".

Lemma start_answered_on_wire_witness :
  exists c c' reply k s2,
    handle_event (W := gmap string string) (H := tree_json (fun _ => Some (TObj [("filter", TStr "tcp")]))) demo_http_env
      (Message (MsgHttpReply reply)) (mkIo c [] ∅ (Room k)) = Done (mkIo c' [] ∅ s2) /\
    cn_sent c' = response_head "HTTP/1.1" (reply_response reply) +:+ hr_body reply.
Proof.
  destruct (start_answered_on_wire (H := tree_json (fun _ => Some (TObj [("filter", TStr "tcp")]))) demo_http_env (mkObjId 7 2) demo_head (in_key_order (hh_headers demo_head)) "{}"
    demo_chunks demo_last (∅ : gmap string string) Broken 3 demo_manager_env (new_manager 1 [5] [] no_files))
    as [(r & text & _ & Hl)|(m & doc & Hdoc & Em & _ & Hf)].
  - reflexivity.
  - reflexivity.
  - apply printed_head, demo_head_ok.
  - reflexivity.
  - reflexivity.
  - reflexivity.
  - reflexivity.
  - apply Nat.ltb_lt. vm_compute. reflexivity.
  - apply Nat.leb_le. vm_compute. reflexivity.
  - apply new_manager_ok.
  - reflexivity.
  - exfalso. destruct (Hl _ (le_n _)) as (c & s' & E & _). set (n := String.length _) in E. clearbody n.
    vm_compute in E. discriminate.
  - destruct Hf as (s' & out & reply & _ & _ & _ & Hl).
    { subst m. vm_compute in Hdoc. injection Hdoc as <-. vm_compute. reflexivity. }
    destruct (Hl 0%nat _ (le_n _)) as (c & c' & s1 & s2 & _ & _ & E & Hw). eexists c, c', reply, _, s2. split; [exact E|exact Hw].
Defined.

Lemma handle_events_app {V W} `{Json V} `{PdefFiles W} l l' (x : io (W := W)) :
  handle_events (l ++ l') x = handle_events l x ≫= handle_events l'.
Proof.
  revert x. induction l as [|[[e s] ev] l IH]; intros x; [done|]. cbn [app handle_events].
  destruct (handle_event e ev _) as [x1| | |]; try done. rewrite !outcome_bind_done. apply IH.
Qed.

Lemma rest_buffered {V W} `{Json V} `{PdefFiles W} e s rest c out (w : W) s0 :
  cn_recv_buf c = "" -> cn_http_status c = RECV_HEAD -> find_str CRLF2 (c_str rest) = None ->
  (String.length rest <= MAX_RECV_SIZE)%nat ->
  handle_events [(e, s, Readable (Data rest))] (mkIo c out w s0) = Done (mkIo (c <| cn_recv_buf := rest |>) out w s).
Proof.
  intros Hb Hst Hn Hl. cbn [handle_events handle_event io_conn io_out io_world].
  rewrite real_recv_data by (cbn [io_conn]; by rewrite Hb). cbn [io_conn]. rewrite Hb, str_app_nil.
  unfold set_conn. cbn zeta. cbn [io_conn io_out io_world io_sock]. set (c2 := c <| cn_recv_buf := rest |>).
  assert (cn_recv_buf c2 = rest) as -> by (by destruct c).
  destruct (is_empty rest); [done|]. unfold process_recv_buf. cbn [io_conn].
  assert (cn_http_status c2 = RECV_HEAD) as -> by (by destruct c). rewrite Hn, !outcome_bind_done.
  subst c2. by destruct c.
Qed.

Lemma head_nonempty h l : sent_head h l -> (0 < String.length (head_text h l))%nat.
Proof. intros Hh. destruct (find_head_end h l "" Hh) as (f & -> & _). rewrite str_length_app. simpl. lia. Qed.

(** A request gets no more of its body than what arrives with the end of its
    head.  The handler of a request with a body runs on that part, whatever
    Content-Length says; the rest, when it arrives, stays in the receive buffer as
    the beginning of the next request. *)
Theorem body_not_awaited {V W} `{Json V} `{PdefFiles W} c h l part rest e e' n s s' out0 (w : W) p out w' :
  idle c -> sent_head h l -> find_boundary (h <| hh_headers := shifted (hh_headers h) |>) "" = "" ->
  seen_body h part = part ->
  (String.length (head_text h l +:+ part) <= MAX_RECV_SIZE)%nat ->
  msg_recv_finish e (handler_head h) (cn_id c) (process_recv_body part (cn_data c)) w = Done (p, out, w') ->
  dp_pending p = false -> reply_fits c p n ->
  find_str CRLF2 (c_str rest) = None -> (String.length rest <= MAX_RECV_SIZE)%nat ->
  exists c' s2,
    handle_events [(e, Room n, Readable (Data (head_text h l +:+ part))); (e', s', Readable (Data rest))]
      (mkIo c out0 w s) = Done (mkIo c' (out0 ++ out) w' s2) /\
    cn_sent c' = cn_sent c +:+ response_head (cn_version c) (dp_res p) +:+ dp_send_body p +:+ stray_head /\
    cn_recv_buf c' = rest.
Proof.
  intros Hi Hh Hfb Hseen Hl Em Hpend Hfit Hrest Hlr.
  destruct (request_served_step c h l part [] (head_text h l +:+ part) e n out0 w s p out w')
    as (c1 & s1 & E & Hrb & Hsv); try done; [by apply head_nonempty|by rewrite Hseen|].
  unfold served in Hsv. rewrite Hpend in Hsv. destruct Hsv as (Hsent & _ & Hst).
  match goal with |- context [handle_events [?a; ?b] _] => change [a; b] with ([a] ++ [b]) end.
  rewrite handle_events_app. cbn [map app] in E. rewrite E, outcome_bind_done.
  rewrite (rest_buffered e' s' rest c1) by done. do 2 eexists. split; [reflexivity|]. rewrite <- Hsent. by destruct c1.
Qed.

Definition demo_upload : http_head := mkHead "POST" "/health" "HTTP/1.1" {["Content-Length" := "10"]} ∅.

Lemma demo_upload_ok : head_ok demo_upload.
Proof. constructor; [by repeat split..|vm_compute; by repeat constructor|done]. Qed.

Definition is_done {A} (r : outcome A) : bool := match r with Done _ => true | _ => false end.

(** An answer at once that fits in the socket. *)
Definition answers_within {W} (n : nat) (r : outcome (CRxHttpResDataProcess * outbox * W)) : bool :=
  match r with
  | Done (p, _, _) =>
      negb (dp_pending p) && negb (is_empty (dp_send_body p)) &&
      (String.length (response_head "HTTP/1.1" (dp_res p) +:+ dp_send_body p +:+ stray_head) <=? n)%nat
  | _ => false
  end.

Lemma body_not_awaited_witness :
  exists c' s2 out w',
    handle_events (W := gmap string string) (H := tree_json (fun _ => None))
      [(demo_http_env, Room 1000, Readable (Data (request_to_head_str demo_upload +:+ "01234")));
       (demo_http_env, Broken, Readable (Data "56789"))]
      (mkIo (new_connection (mkObjId 7 2)) [] ∅ Broken) = Done (mkIo c' out w' s2) /\
    cn_recv_buf c' = "56789".
Proof.
  set (r := msg_recv_finish (H := tree_json (fun _ => None)) demo_http_env (handler_head demo_upload) (mkObjId 7 2)
    (process_recv_body "01234" (cn_data (new_connection (mkObjId 7 2)))) (∅ : gmap string string)).
  assert (answers_within 1000 r = true) as Hr by (vm_compute; reflexivity).
  destruct r as [[[p out] w]| | |] eqn:E; [|discriminate Hr..]. cbn [answers_within] in Hr.
  apply andb_true_iff in Hr as [Hr Hl]. apply andb_true_iff in Hr as [Hp Hne].
  destruct (body_not_awaited (H := tree_json (fun _ => None)) (new_connection (mkObjId 7 2)) demo_upload (in_key_order (hh_headers demo_upload)) "01234" "56789"
    demo_http_env demo_http_env 1000 Broken Broken [] (∅ : gmap string string) p out w) as (c' & s2 & Er & _ & Hb).
  - apply new_idle.
  - apply printed_head, demo_upload_ok.
  - reflexivity.
  - reflexivity.
  - apply Nat.leb_le. vm_compute. reflexivity.
  - exact E.
  - by apply negb_true_iff.
  - intros _. split; [|by apply Nat.leb_le]. by destruct (dp_send_body p).
  - reflexivity.
  - apply Nat.leb_le. vm_compute. reflexivity.
  - exists c', s2, out, w. split; [exact Er|exact Hb].
Defined.

Lemma answered_connection_mute_witness :
  exists x', handle_events (W := gmap string string) (H := tree_json (fun _ => None))
      [(demo_http_env, Room 1000, Readable (Data (request_to_head_str demo_upload)));
       (demo_http_env, Room 1000, Message (MsgHttpReply (new_reply <| hr_body := "{}" |>)))]
      (mkIo ((new_connection (mkObjId 7 2)) <| cn_send_buf := Some "" |>) [] ∅ Broken) = Done x' /\
    cn_sent (io_conn x') = "".
Proof.
  set (x := mkIo _ _ _ _). set (l := [_; _]).
  assert (is_done (handle_events (H := tree_json (fun _ => None)) l x) = true) as Hd by (vm_compute; reflexivity).
  destruct (handle_events l x) as [x'| | |] eqn:E; [|discriminate Hd..].
  exists x'. split; [reflexivity|]. destruct (answered_connection_mute (H := tree_json (fun _ => None)) l x x') as [_ Es]; [reflexivity|exact E|].
  rewrite Es. reflexivity.
Defined.

Lemma blocked_response_stalls_witness :
  let c := (new_connection (mkObjId 7 2)) <| cn_http_status := SEND_HEAD |>
             <| cn_data ::= (fun p => p <| dp_send_body := "{}" |>) |> in
  exists c', notice_send c (Room 8) = Done (c', Room 0) /\ cn_sent c' = "HTTP/1.1" /\ cn_epollout c' = false.
Proof.
  intros c. destruct (blocked_response_stalls c 8) as (c' & E & Es & Ee & _); try reflexivity.
  - apply Nat.ltb_lt. vm_compute. reflexivity.
  - exists c'. split; [exact E|]. split; [rewrite Es; reflexivity|exact Ee].
Defined.
