(* ===== verification/Client.v ===== *)
(** * The command-line client (tools/rxcli_main.cpp)

    The client reads tasks from a JSON file, turns each into the body of a
    request, posts it to the server and reads the answer.  The file system and
    the network are arguments: the content of a file, and what a connection
    gives for the text of a request.  [false] with a message is [Fails]. *)

From S2P Require Import Prelude CppString Lexer TaskTypes Messages CaptureUtil PdefWriteback CaptureManager CaptureManagerCorrect CaptureDecision Cleanup Json Config UrlHandlers HttpApi ProcessResolver HttpText HttpConnection.

(** A value the client writes. *)
Inductive payload_value := PStr (s : string) | PInt (z : Z).

Abbreviation payload := (list (string * payload_value)).

Fixpoint first_member (key : string) (l : payload) : option payload_value :=
  match l with
  | [] => None
  | (k, v) :: l => if String.eqb k key then Some v else first_member key l
  end.

Definition value_ok (v : payload_value) : Prop :=
  match v with PStr s => has_char NUL_CHAR s = false | PInt z => - 2 ^ 63 <= z < 2 ^ 63 end.

(** What the client uses of RapidJSON beyond [Json]: the other number types,
    the position of a parse error, and [Writer], whose texts parse to what was
    written. *)
Class ClientJson (V : Type) := {
  client_json :: Json V;
  as_uint64 : V -> option Z;
  (* a double, cut to a [long long] when it has one *)
  as_double : V -> option (option Z);
  json_error_offset : string -> Z;
  json_write : payload -> string;

  as_double_range v z : as_double v = Some (Some z) -> - 2 ^ 63 <= z < 2 ^ 63;
  as_string_c v s : as_string v = Some s -> has_char NUL_CHAR s = false;
  as_uint64_range v z : as_uint64 v = Some z -> 0 <= z < 2 ^ 64;
  json_write_text l : has_char NUL_CHAR (json_write l) = false /\ json_write l <> "";
  json_write_reads l : Forall (fun kv => has_char NUL_CHAR (fst kv) = false /\ value_ok (snd kv)) l ->
    exists v, json_parse (json_write l) = Some v /\ is_object v = true /\
      forall key,
        match first_member key l with
        | None => find_member v key = None
        | Some (PStr s) => exists u, find_member v key = Some u /\ as_string u = Some s /\ as_int u = None
        | Some (PInt z) => exists u, find_member v key = Some u /\ as_string u = None /\
            as_int u = (if bool_decide (int_range z) then Some z else None)
        end;
}.

(** ** Tasks *)

Section Client.
Context {V : Type} `{ClientJson V}.

(** [TaskRequest] while it is built. *)
Record draft := mkDraft { td_payload : payload; td_summary : string }.

(** [AddMember] *)
Definition add_member (key : string) (v : payload_value) (d : draft) : draft := d <| td_payload ::= fun l => l ++ [(key, v)] |>.

(** [summary += text], behind a blank when [sep] and something is there. *)
Definition note (sep : bool) (text : string) (d : draft) : draft :=
  d <| td_summary ::= fun s => s +:+ (if sep && negb (is_empty s) then " " else "") +:+ text |>.

(** [IsInt64] or [IsInt] *)
Definition integer_of (v : V) : option Z := match as_int64 v with Some z => Some z | None => as_int v end.

(** Any of the integer types. *)
Definition number_of (v : V) : option Z :=
  match integer_of v with Some z => Some z | None => signed_cast 64 <$> as_uint64 v end.

(** [parse_duration_value]; a double out of the range of [long long] is
    undefined behaviour. *)
Definition parse_duration_value (v : V) : outcome (option Z) :=
  match number_of v with
  | Some z => Done (Some z)
  | None =>
      match as_double v with
      | Some (Some z) => Done (Some z)
      | Some None => Undef
      | None => Done (s ← as_string v; if is_empty s then None else parse_long_value s)
      end
  end.

(** [parse_duration] *)
Definition parse_duration (obj : V) : outcome (option Z) :=
  match find_member obj "duration" with
  | Some v => parse_duration_value v
  | None => match find_member obj "duration_sec" with Some v => parse_duration_value v | None => Done None end
  end.

(** One [if (item.HasMember(key))] for a text that goes into the payload under
    [name]; [None] when there is no such member. *)
Definition text_member (item : V) (key name : string) (notes : string -> draft -> draft) (d : draft) : option (outcome draft) :=
  v ← find_member item key;
  Some (match as_string v with
        | None => Fails (key +:+ " must be a string")
        | Some s => Done (notes s (add_member name (PStr s) d))
        end).

Definition text_field (item : V) (key : string) (notes : string -> draft -> draft) (d : draft) : outcome draft :=
  default (Done d) (text_member item key key notes d).

Definition labelled (label : string) (s : string) : draft -> draft := note true (label +:+ "=" +:+ s).
Definition silent_note (s : string) (d : draft) : draft := d.

Definition id_field (item : V) (key : string) (sep : bool) (d : draft) : outcome draft :=
  match find_member item key with
  | None => Done d
  | Some v =>
      match integer_of v with
      | None => Fails (key +:+ " must be an integer")
      | Some z => Done (note sep (key +:+ "=" +:+ fmt_d z) (add_member key (PInt z) d))
      end
  end.

Definition duration_field (item : V) (d : draft) : outcome draft :=
  r ← parse_duration item;
  Done (match r with
        | Some z => note true ("duration=" +:+ fmt_d z) (add_member "duration" (PInt z) d)
        | None => d
        end).

Definition filter_field (item : V) (d : draft) : outcome draft :=
  match text_member item "filter" "filter" (labelled "filter") d with
  | Some r => r
  | None => default (Done d) (text_member item "bpf" "filter" (labelled "filter") d)
  end.

(** [add_pid_field] *)
Definition add_pid_field (v : V) (field_name : string) (d : draft) : outcome draft :=
  match number_of v with
  | None => Fails (field_name +:+ " must be an integer")
  | Some z => Done (labelled field_name (fmt_d z) (add_member field_name (PInt z) d))
  end.

Definition pid_field (item : V) (d : draft) : outcome draft :=
  match find_member item "pid" with
  | Some v => add_pid_field v "pid" d
  | None => match find_member item "target_pid" with Some v => add_pid_field v "target_pid" d | None => Done d end
  end.

Definition has_member (item : V) (key : string) : bool := match find_member item key with Some _ => true | None => false end.

Definition output_note (item : V) (d : draft) : draft :=
  if has_member item "file" || has_member item "file_pattern" then d else note true "file=<default>" d.

(** [build_task_payload] up to the [Writer]. *)
Definition task_draft (item : V) : outcome draft :=
  if is_object item then
    d ← id_field item "capture_id" false (mkDraft [] "");
    d ← id_field item "id" true d;
    d ← text_field item "sid" (labelled "sid") d;
    d ← text_field item "iface" (fun s => note false ("iface=" +:+ s)) d;
    d ← duration_field item d;
    d ← filter_field item d;
    d ← text_field item "file" (labelled "file") d;
    d ← text_field item "file_pattern" (labelled "file_pattern") d;
    d ← text_field item "category" silent_note (output_note item d);
    d ← text_field item "priority" silent_note d;
    d ← text_field item "proc_name" (labelled "proc") d;
    d ← pid_field item d;
    d ← text_field item "protocol" silent_note d;
    d ← text_field item "protocol_filter" silent_note d;
    text_field item "protocol_filter_inline" silent_note d
  else Fails "task entry must be a JSON object".

Record TaskRequest := mkTaskRequest { tr_payload : string; tr_summary : string }.

Definition build_task_payload (item : V) : outcome TaskRequest :=
  d ← task_draft item; Done (mkTaskRequest (json_write (td_payload d)) (td_summary d)).

(** The loop of [parse_tasks]; the message is cut by [snprintf]. *)
Fixpoint build_tasks (i : Z) (items : list V) : outcome (list TaskRequest) :=
  match items with
  | [] => Done []
  | item :: items =>
      match build_task_payload item with
      | Fails err => Fails (bounded 64 ("task index " +:+ fmt_u i +:+ ": " +:+ err))
      | r => task ← r; tasks ← build_tasks (i + 1) items; Done (task :: tasks)
      end
  end.

Definition parse_tasks (json : string) : outcome (list TaskRequest) :=
  match json_parse (c_str json) with
  | None => Fails ("failed to parse tasks JSON (offset " +:+ fmt_d (json_error_offset (c_str json)) +:+ ")")
  | Some doc =>
      match as_array doc with
      | None => Fails "tasks JSON must be an array"
      | Some items => build_tasks 0 items
      end
  end.
End Client.

(** ** HTTP *)

(** What a connection gives the client: how [recv] goes, bytes in pieces and
    then the end or an error, or why there is none. *)
Inductive answer :=
  | Unresolved (why : string)
  | NotConnected
  | NotSent
  | Answer (pieces : list string) (at_end : bool).

(** The variables of [recv_all]. *)
Record receiving := mkReceiving { rv_out : string; rv_header_end : option nat; rv_expected : option nat }.

Fixpoint skip_blanks (s : string) : nat := match s with String " " s' => S (skip_blanks s') | _ => O end.

Definition strtoll (s : string) : Z := match strtol s with Some (v, _) => v | None => 0 end.

(** The size of the answer, once its head is there. *)
Definition expected_total (out : string) (header_end : nat) : option nat :=
  match find_str "Content-Length:" out with
  | None => None
  | Some cl_pos =>
      if (cl_pos <? header_end)%nat then
        match find_str CRLF (str_drop cl_pos out) with
        | None => None
        | Some n =>
            let cl_end_line := (cl_pos + n)%nat in
            let value_start := (cl_pos + 15)%nat in
            let value_start := (value_start + skip_blanks (str_drop value_start out))%nat in
            if (cl_end_line <=? header_end)%nat then
              let content_length := strtoll (substr out value_start (cl_end_line - value_start)) in
              if 0 <=? content_length then Some (header_end + Z.to_nat content_length)%nat else None
            else None
        end
      else None
  end.

(** A piece received; whether the answer is complete. *)
Definition receive (piece : string) (v : receiving) : bool * receiving :=
  let out := rv_out v +:+ piece in
  let v :=
    match rv_header_end v with
    | Some _ => mkReceiving out (rv_header_end v) (rv_expected v)
    | None =>
        match find_str CRLF2 out with
        | None => mkReceiving out None (rv_expected v)
        | Some pos => mkReceiving out (Some (pos + 4)%nat) (expected_total out (pos + 4))
        end
    end in
  (match rv_expected v with Some n => (n <=? String.length out)%nat | None => false end, v).

(** [recv_all]: [None] for an error. *)
Fixpoint recv_loop (pieces : list string) (at_end : bool) (v : receiving) : option string :=
  match pieces with
  | [] => if at_end then Some (rv_out v) else None
  | piece :: pieces =>
      let '(complete, v) := receive piece v in
      if complete : bool then Some (rv_out v) else recv_loop pieces at_end v
  end.

Definition recv_all (pieces : list string) (at_end : bool) : option string :=
  recv_loop pieces at_end (mkReceiving "" None None).

Record HttpResponse := mkHttpResponse { rs_status_code : Z; rs_body : string }.

Definition normalized_path (path : string) : string :=
  match path with
  | "" => "/"
  | String c _ => if Ascii.eqb c "/" then path else "/" +:+ path
  end%string.

(** The text of a request. *)
Definition post_head (host port_str path : string) (length : nat) : string :=
  "POST " +:+ normalized_path path +:+ " HTTP/1.1" +:+ CRLF +:+ "Host: " +:+ host +:+ ":" +:+ port_str +:+ CRLF +:+
  "Content-Type: application/json" +:+ CRLF +:+ "Connection: close" +:+ CRLF +:+
  "Content-Length: " +:+ fmt_u (Z.of_nat length) +:+ CRLF2.

Definition post_text (host : string) (port : Z) (path payload : string) : string :=
  post_head host (fmt_d port) path (String.length payload) +:+ payload.

(** The end of [send_http_post]: what is in the text received. *)
Definition parse_response (response : string) : outcome HttpResponse :=
  match find_str CRLF response with
  | None => Fails "malformed HTTP response"
  | Some status_end =>
      let status_line := str_take status_end response in
      if negb (is_prefix "HTTP/" status_line) then Fails "unexpected HTTP status line"
      else
        match str_index " " status_line with
        | None => Fails "unexpected HTTP status line"
        | Some first_space =>
            let rest := str_drop (S first_space) status_line in
            let code_str := match str_index " " rest with Some n => str_take n rest | None => rest end in
            match find_str CRLF2 response with
            | None => Fails "malformed HTTP headers"
            | Some header_end => Done (mkHttpResponse (atoi code_str) (str_drop (header_end + 4) response))
            end
        end
  end.

(** [send_http_post]: [net] is the network, for the text of the request. *)
Definition send_http_post (host : string) (port : Z) (path payload : string) (net : string -> answer) : outcome HttpResponse :=
  match net (post_text host port path payload) with
  | Unresolved why => Fails ("getaddrinfo failed: " +:+ why)
  | NotConnected => Fails "failed to connect to host"
  | NotSent => Fails "failed to send HTTP request"
  | Answer pieces at_end =>
      match recv_all pieces at_end with
      | None => Fails "failed to read HTTP response"
      | Some response => parse_response response
      end
  end.

(** ** The program *)

Record options := mkOptions { op_host : string; op_port : Z; op_path : string; op_tasks : string }.

Definition default_options : options := mkOptions "127.0.0.1" 8080 "/api/capture/start" "".

Inductive parsed_args := Run (o : options) | Help | Unknown (arg : string).

(** The loop over [argv]. *)
Fixpoint parse_args (args : list string) (o : options) : parsed_args :=
  match args with
  | [] => Run o
  | arg :: rest =>
      let other :=
        if String.eqb arg "--help" || String.eqb arg "-h" then Help
        else if is_empty (op_tasks o) then parse_args rest (o <| op_tasks := arg |>)
        else Unknown arg in
      match rest with
      | [] => other
      | value :: rest =>
          if String.eqb arg "--host" then parse_args rest (o <| op_host := value |>)
          else if String.eqb arg "--port" then parse_args rest (o <| op_port := atoi value |>)
          else if String.eqb arg "--path" then parse_args rest (o <| op_path := value |>)
          else other
      end
  end.

Section Main.
Context {V : Type} `{ClientJson V}.

Definition opt_line (doc : V) (key : string) : string :=
  match find_member doc key ≫= as_string with
  | Some s => "    " +:+ key +:+ ": " +:+ s +:+ String "010" ""
  | None => ""
  end.

(** [summarize_response]: what it prints. *)
Definition summarize_response (resp : HttpResponse) : string :=
  let response := "    response: " +:+ c_str (rs_body resp) +:+ String "010" "" in
  match json_parse (c_str (rs_body resp)) with
  | Some doc =>
      if is_object doc then
        match find_member doc "capture_id" ≫= as_int with
        | Some id =>
            "    capture_id: " +:+ fmt_d id +:+ String "010" "" +:+ opt_line doc "key" +:+ opt_line doc "sid"
              +:+ opt_line doc "status" +:+ opt_line doc "path"
              +:+ match find_member doc "duplicate" ≫= as_bool with
                  | Some b => "    duplicate: " +:+ (if b : bool then "true" else "false") +:+ String "010" ""
                  | None => ""
                  end
        | None =>
            match find_member doc "id" ≫= as_int with
            | Some id => "    id: " +:+ fmt_d id +:+ String "010" ""
            | None => response
            end
        end
      else if is_empty (rs_body resp) then "" else response
  | None => if is_empty (rs_body resp) then "" else response
  end.

(** The loop of [main] over the tasks: what is printed, and [success]. *)
Fixpoint submit (o : options) (net : nat -> string -> answer) (i : nat) (tasks : list TaskRequest) : string * bool :=
  match tasks with
  | [] => ("", true)
  | task :: tasks =>
      let summary := if is_empty (tr_summary task) then "(no summary)" else c_str (tr_summary task) in
      let line := "Task " +:+ fmt_u (Z.of_nat i + 1) +:+ ": " +:+ summary +:+ String "010" "" in
      let '(text, ok) :=
        match send_http_post (op_host o) (op_port o) (op_path o) (tr_payload task) (net i) with
        | Done resp =>
            ("    HTTP " +:+ fmt_d (rs_status_code resp) +:+ String "010" "" +:+ summarize_response resp, rs_status_code resp <? 400)
        | Fails err => ("    error: " +:+ err +:+ String "010" "", false)
        | _ => ("", false)
        end in
      let '(out, success) := submit o net (S i) tasks in
      (line +:+ text +:+ out, ok && success)
  end.

(** [main]: the exit code and what goes to standard output; [argv] without the
    name of the program. *)
Definition main (argv : list string) (read_file : string -> option string) (net : nat -> string -> answer) : outcome (Z * string) :=
  match argv with
  | [] => Done (1, "")
  | _ =>
      match parse_args argv default_options with
      | Help => Done (0, "")
      | Unknown _ => Done (1, "")
      | Run o =>
          if is_empty (op_tasks o) then Done (1, "")
          else
            match read_file (op_tasks o) with
            | None => Done (1, "")
            | Some json =>
                match parse_tasks json with
                | Done [] => Done (1, "")
                | Done tasks =>
                    let '(out, success) := submit o net 0 tasks in
                    Done (if success then 0 else 1,
                          "Submitting " +:+ fmt_u (Z.of_nat (length tasks)) +:+ " capture task(s) to " +:+ op_host o +:+ ":"
                            +:+ fmt_d (op_port o) +:+ op_path o +:+ String "010" "" +:+ out)
                | Fails _ => Done (1, "")
                | Undef => Undef
                | NoFuel => NoFuel
                end
            end
      end
  end.
End Main.

(** ** The payload of a task *)

#[local] Arguments add_member : simpl never.
#[local] Arguments note : simpl never.

Section Payload.
Context {V : Type} `{ClientJson V}.

Definition slot (key : string) (v : option payload_value) : payload := match v with Some x => [(key, x)] | None => [] end.

Lemma first_member_slot key k v l :
  first_member key (slot k v ++ l) =
    if String.eqb k key then match v with Some x => Some x | None => first_member key l end else first_member key l.
Proof. destruct v; cbn; by destruct (String.eqb k key). Qed.

(** A text member, the number a member holds, as they go into the payload. *)
Definition text_of (item : V) (key : string) : option string := find_member item key ≫= as_string.

Definition text_slot (item : V) (key : string) : option payload_value := PStr <$> text_of item key.
Definition int_slot (as_ : V -> option Z) (item : V) (key : string) : option payload_value :=
  PInt <$> (find_member item key ≫= as_).

(** The text of [filter], [bpf] when there is none. *)
Definition filter_of (item : V) : option string :=
  match find_member item "filter" with Some v => as_string v | None => text_of item "bpf" end.

(** [target_pid] counts when there is no [pid]. *)
Definition target_of (item : V) : option Z :=
  match find_member item "pid" with Some _ => None | None => find_member item "target_pid" ≫= number_of end.

(** Everything that is sent for a task. *)
Definition task_members (item : V) (dur : option Z) : payload :=
  slot "capture_id" (int_slot integer_of item "capture_id") ++ slot "id" (int_slot integer_of item "id") ++
  slot "sid" (text_slot item "sid") ++ slot "iface" (text_slot item "iface") ++ slot "duration" (PInt <$> dur) ++
  slot "filter" (PStr <$> filter_of item) ++ slot "file" (text_slot item "file") ++
  slot "file_pattern" (text_slot item "file_pattern") ++ slot "category" (text_slot item "category") ++
  slot "priority" (text_slot item "priority") ++ slot "proc_name" (text_slot item "proc_name") ++
  slot "pid" (int_slot number_of item "pid") ++ slot "target_pid" (PInt <$> target_of item) ++
  slot "protocol" (text_slot item "protocol") ++ slot "protocol_filter" (text_slot item "protocol_filter") ++
  slot "protocol_filter_inline" (text_slot item "protocol_filter_inline") ++ [].

Lemma note_payload sep text d : td_payload (note sep text d) = td_payload d.
Proof. by destruct d. Qed.

Lemma add_member_payload key v d : td_payload (add_member key v d) = td_payload d ++ slot key (Some v).
Proof. by destruct d. Qed.

Definition keeps (notes : string -> draft -> draft) : Prop := forall s d, td_payload (notes s d) = td_payload d.

Lemma text_member_some item key name notes d r d' : keeps notes ->
  text_member item key name notes d = Some r -> r = Done d' ->
  td_payload d' = td_payload d ++ slot name (text_slot item key).
Proof.
  intros Hk. unfold text_member, text_slot, text_of. destruct (find_member item key) as [v|]; [|done]. cbn.
  destruct (as_string v); intros <-%(inj Some); [|done]. intros <-%(inj Done). by rewrite Hk, add_member_payload.
Qed.

Lemma text_field_done item key notes d d' : keeps notes ->
  text_field item key notes d = Done d' -> td_payload d' = td_payload d ++ slot key (text_slot item key).
Proof.
  unfold text_field. intros Hk. destruct (text_member item key key notes d) as [r|] eqn:E; cbn.
  - intros Hr. by eapply text_member_some.
  - intros [= <-]. unfold text_member in E. unfold text_slot, text_of. destruct (find_member item key); [done|]. cbn.
    by rewrite app_nil_r.
Qed.

Lemma filter_field_done item d d' :
  filter_field item d = Done d' -> td_payload d' = td_payload d ++ slot "filter" (PStr <$> filter_of item).
Proof.
  unfold filter_field, filter_of. destruct (text_member item "filter" "filter" _ d) as [r|] eqn:E.
  - intros Hr. unfold text_member in E. pose proof (fun Hk => text_member_some item "filter" "filter" (labelled "filter") d r d' Hk E Hr) as ->.
    + unfold text_slot, text_of. by destruct (find_member item "filter").
    + intros s d0. apply note_payload.
  - unfold text_member in E. destruct (find_member item "filter"); [done|]. clear E.
    destruct (text_member item "bpf" "filter" _ d) as [r|] eqn:E; cbn.
    + intros Hr. eapply text_member_some in E; [exact E| |done]. intros s d0. apply note_payload.
    + intros [= <-]. unfold text_member in E. unfold text_of. destruct (find_member item "bpf"); [done|]. by rewrite app_nil_r.
Qed.

Lemma id_field_done item key sep d d' :
  id_field item key sep d = Done d' -> td_payload d' = td_payload d ++ slot key (int_slot integer_of item key).
Proof.
  unfold id_field, int_slot. destruct (find_member item key) as [v|]; cbn.
  - destruct (integer_of v); [|done]. intros <-%(inj Done). by rewrite note_payload, add_member_payload.
  - intros [= <-]. by rewrite app_nil_r.
Qed.

Lemma pid_field_done item d d' :
  pid_field item d = Done d' ->
  td_payload d' = td_payload d ++ slot "pid" (int_slot number_of item "pid") ++ slot "target_pid" (PInt <$> target_of item).
Proof.
  unfold pid_field, add_pid_field, int_slot, target_of.
  destruct (find_member item "pid") as [v|]; [|destruct (find_member item "target_pid") as [v|]]; cbn.
  - destruct (number_of v); [|done]. intros <-%(inj Done). unfold labelled. by rewrite note_payload, add_member_payload, app_nil_r.
  - destruct (number_of v); [|done]. intros <-%(inj Done). unfold labelled. by rewrite note_payload, add_member_payload.
  - intros [= <-]. by rewrite app_nil_r.
Qed.

Lemma duration_field_done item d d' :
  duration_field item d = Done d' ->
  exists dur, parse_duration item = Done dur /\ td_payload d' = td_payload d ++ slot "duration" (PInt <$> dur).
Proof.
  unfold duration_field. intros E. apply outcome_bind_Done_inv in E as (dur & E & Ed). exists dur. split; [done|].
  apply (inj Done) in Ed as <-. destruct dur; [by rewrite note_payload, add_member_payload|by rewrite app_nil_r].
Qed.

Lemma output_note_payload item d : td_payload (output_note item d) = td_payload d.
Proof. unfold output_note. destruct (_ || _); [done|apply note_payload]. Qed.

(** What [build_task_payload] writes. *)
Lemma task_draft_members item d :
  task_draft item = Done d ->
  is_object item = true /\ exists dur, parse_duration item = Done dur /\ td_payload d = task_members item dur.
Proof.
  unfold task_draft. destruct (is_object item); [|done]. intros E. split; [done|].
  assert (K : forall label, keeps (labelled label)) by (intros label s x; apply note_payload).
  assert (K' : keeps silent_note) by done.
  assert (K'' : keeps (fun s => note false ("iface=" +:+ s))) by (intros s x; apply note_payload).
  apply outcome_bind_Done_inv in E as (d1 & E1%id_field_done & E). apply outcome_bind_Done_inv in E as (d2 & E2%id_field_done & E).
  apply outcome_bind_Done_inv in E as (d3 & E3%text_field_done & E); [|done].
  apply outcome_bind_Done_inv in E as (d4 & E4%text_field_done & E); [|done].
  apply outcome_bind_Done_inv in E as (d5 & (dur & Ed & E5)%duration_field_done & E).
  apply outcome_bind_Done_inv in E as (d6 & E6%filter_field_done & E).
  apply outcome_bind_Done_inv in E as (d7 & E7%text_field_done & E); [|done].
  apply outcome_bind_Done_inv in E as (d8 & E8%text_field_done & E); [|done].
  apply outcome_bind_Done_inv in E as (d9 & E9%text_field_done & E); [|done]. rewrite output_note_payload in E9.
  apply outcome_bind_Done_inv in E as (d10 & E10%text_field_done & E); [|done].
  apply outcome_bind_Done_inv in E as (d11 & E11%text_field_done & E); [|done].
  apply outcome_bind_Done_inv in E as (d12 & E12%pid_field_done & E).
  apply outcome_bind_Done_inv in E as (d13 & E13%text_field_done & E); [|done].
  apply outcome_bind_Done_inv in E as (d14 & E14%text_field_done & E15%text_field_done); [|done|done].
  exists dur. split; [done|]. rewrite E15, E14, E13, E12, E11, E10, E9, E8, E7, E6, E5, E4, E3, E2, E1.
  unfold task_members. rewrite <- !app_assoc, app_nil_r. done.
Qed.
End Payload.

(** ** What the server makes of it *)

Section Asked.
Context {V : Type} `{ClientJson V}.

(** A number the server reads with [GetInt]. *)
Definition as_sent (z : option Z) : option Z := z ≫= fun z => if bool_decide (int_range z) then Some z else None.

(** The message a task stands for. *)
Definition asked (strategy : option strategy) (item : V) (dur : option Z) (conn_id : ObjId) : SRxStartCaptureMsg :=
  let text key := default "" (text_of item key) in
  let pid := as_sent (find_member item "pid" ≫= number_of) in
  mkStartMsg
    (if negb (is_empty (text "proc_name")) then MODE_PROCESS
     else if 0 <? default (-1) pid then MODE_PID else MODE_INTERFACE)
    (text "iface") (text "proc_name") (default (default (-1) pid) (as_sent (target_of item))) "" ""
    (default "" (filter_of item))
    (match text_of item "protocol_filter" with
     | Some file => file
     | None => match text_of item "protocol" with Some name => protocol_path strategy name | None => "" end
     end)
    (text "protocol_filter_inline") "" 0 (text "category")
    (match text_of item "file_pattern" with Some pattern => pattern | None => text "file" end)
    (default 60 (as_sent dur)) 0 0 conn_id "" "" 0 "".

Definition string_of (v : option payload_value) : option string :=
  match v with Some (PStr s) => Some s | _ => None end.
Definition int_of (v : option payload_value) : option Z := match v with Some (PInt z) => Some z | _ => None end.

Lemma string_of_text o : string_of (PStr <$> o) = o. Proof. by destruct o. Qed.
Lemma int_of_int o : int_of (PInt <$> o) = o. Proof. by destruct o. Qed.
Lemma int_of_text o : int_of (PStr <$> o) = None. Proof. by destruct o. Qed.

(** A document with the members of a payload. *)
Definition written (l : payload) (doc : V) : Prop :=
  is_object doc = true /\
  (forall key, find_member doc key ≫= as_string = string_of (first_member key l)) /\
  (forall key, find_member doc key ≫= as_int = as_sent (int_of (first_member key l))) /\
  (forall key, first_member key l = None -> find_member doc key = None).

Lemma signed_cast_64 z : - 2 ^ 63 <= signed_cast 64 z < 2 ^ 63.
Proof.
  unfold signed_cast. pose proof (Z.mod_pos_bound z (2 ^ 64) ltac:(done)).
  change (2 ^ (64 - 1)) with (2 ^ 63). destruct (Z.ltb_spec (z mod 2 ^ 64) (2 ^ 63)); lia.
Qed.

Lemma parse_long_range s z : parse_long_value s = Some z -> - 2 ^ 63 <= z < 2 ^ 63.
Proof.
  unfold parse_long_value, strtol. intros E. repeat case_match; simplify_eq; unfold clamp_long, LONG_MIN, LONG_MAX; lia.
Qed.

Lemma integer_of_range v z : integer_of v = Some z -> - 2 ^ 63 <= z < 2 ^ 63.
Proof.
  unfold integer_of. destruct (as_int64 v) as [z'|] eqn:E; intros E'.
  - apply (inj Some) in E' as <-. by eapply as_int64_range.
  - apply as_int_range in E'. lia.
Qed.

Lemma number_of_range v z : number_of v = Some z -> - 2 ^ 63 <= z < 2 ^ 63.
Proof.
  unfold number_of. destruct (integer_of v) as [z'|] eqn:E; intros E'.
  - apply (inj Some) in E' as <-. by eapply integer_of_range.
  - destruct (as_uint64 v); [|done]. apply (inj Some) in E' as <-. by apply signed_cast_64.
Qed.

Lemma duration_value_range v z : parse_duration_value v = Done (Some z) -> - 2 ^ 63 <= z < 2 ^ 63.
Proof.
  unfold parse_duration_value. destruct (number_of v) as [z'|] eqn:E; [|destruct (as_double v) as [[z'|]|] eqn:Ed].
  - intros E'%(inj Done). apply (inj Some) in E' as <-. by eapply number_of_range.
  - intros E'%(inj Done). apply (inj Some) in E' as <-. by eapply as_double_range.
  - done.
  - intros E'%(inj Done). destruct (as_string v) as [s|]; [|done]. cbn in E'. destruct (is_empty s); [done|].
    by eapply parse_long_range.
Qed.

Lemma duration_range item z : parse_duration item = Done (Some z) -> - 2 ^ 63 <= z < 2 ^ 63.
Proof.
  unfold parse_duration. destruct (find_member item "duration"); [apply duration_value_range|].
  destruct (find_member item "duration_sec"); [apply duration_value_range|done].
Qed.

Definition slot_ok (v : option payload_value) : Prop := match v with Some x => value_ok x | None => True end.

Lemma slots_ok key v l :
  has_char NUL_CHAR key = false -> slot_ok v -> Forall (fun kv => has_char NUL_CHAR (fst kv) = false /\ value_ok (snd kv)) l ->
  Forall (fun kv => has_char NUL_CHAR (fst kv) = false /\ value_ok (snd kv)) (slot key v ++ l).
Proof. destruct v; [|done]. intros. by constructor. Qed.

Lemma text_ok o : (forall s, o = Some s -> exists v, as_string v = Some s) -> slot_ok (PStr <$> o).
Proof. intros Ho. destruct o as [s|]; [|done]. destruct (Ho s eq_refl) as [v E]. by eapply as_string_c. Qed.

Lemma text_of_string item key s : text_of item key = Some s -> exists v, as_string v = Some s.
Proof. unfold text_of. intros (v & _ & E)%bind_Some. by exists v. Qed.

Lemma filter_of_string item s : filter_of item = Some s -> exists v, as_string v = Some s.
Proof. unfold filter_of. destruct (find_member item "filter") as [v|]; [by exists v|apply text_of_string]. Qed.

Lemma int_ok o : (forall z, o = Some z -> - 2 ^ 63 <= z < 2 ^ 63) -> slot_ok (PInt <$> o).
Proof. intros Ho. destruct o as [z|]; [|done]. by apply Ho. Qed.

Lemma int_slot_ok as_ item key : (forall v z, as_ v = Some z -> - 2 ^ 63 <= z < 2 ^ 63) -> slot_ok (int_slot as_ item key).
Proof. intros Ha. apply int_ok. intros z (v & _ & E)%bind_Some. by eapply Ha. Qed.

Lemma target_range item z : target_of item = Some z -> - 2 ^ 63 <= z < 2 ^ 63.
Proof. unfold target_of. destruct (find_member item "pid"); [done|]. intros (v & _ & E)%bind_Some. by eapply number_of_range. Qed.

Lemma task_members_ok item dur : parse_duration item = Done dur ->
  Forall (fun kv => has_char NUL_CHAR (fst kv) = false /\ value_ok (snd kv)) (task_members item dur).
Proof.
  intros Hd.
  assert (T : forall key, slot_ok (text_slot item key)) by (intros key; apply text_ok, text_of_string).
  unfold task_members. repeat (apply slots_ok; [done|first [apply T|apply int_slot_ok|idtac]|]); try apply integer_of_range;
    try apply number_of_range; [| | |constructor].
  - apply int_ok. intros z ->. by eapply duration_range.
  - apply text_ok, filter_of_string.
  - apply int_ok, target_range.
Qed.

(** The payload of a task parses to a document with its members. *)
Lemma payload_written item t : build_task_payload item = Done t ->
  exists dur doc, parse_duration item = Done dur /\
    parse_body (Some (tr_payload t)) = Some (Some doc) /\ written (task_members item dur) doc.
Proof.
  unfold build_task_payload. intros (d & E & Et%(inj Done))%outcome_bind_Done_inv. subst t. cbn [tr_payload].
  destruct (task_draft_members item d E) as (_ & dur & Ed & El). rewrite El.
  destruct (json_write_text (task_members item dur)) as [Hn Hne].
  destruct (json_write_reads (task_members item dur) (task_members_ok item dur Ed)) as (doc & Hp & Ho & Hm).
  exists dur, doc. split; [done|]. split.
  - unfold parse_body. rewrite c_str_id by done. destruct (json_write _); [done|]. cbn [is_empty]. by rewrite Hp.
  - split; [done|]. split_and!; intros key; specialize (Hm key); destruct (first_member key _) as [[s|z]|];
      try (by rewrite Hm); destruct Hm as (u & -> & Hu); cbn; try done.
    all: by destruct Hu.
Qed.

(** A field that is filled from a member. *)
Lemma on_member_value {A} (as_ : V -> option A) doc key f m o :
  find_member doc key ≫= as_ = o -> on_member as_ doc key f m = match o with Some x => f x m | None => m end.
Proof. unfold on_member. by intros ->. Qed.

Ltac first_slot :=
  repeat (rewrite first_member_slot;
    match goal with |- context [String.eqb ?a ?b] => let v := eval compute in (String.eqb a b) in change (String.eqb a b) with v end;
    cbv iota).

Lemma else_none {A} (o : option A) : match o with Some x => Some x | None => None end = o.
Proof. by destruct o. Qed.

Definition task_keys : list string :=
  ["capture_id"; "id"; "sid"; "iface"; "duration"; "filter"; "file"; "file_pattern"; "category"; "priority"; "proc_name";
   "pid"; "target_pid"; "protocol"; "protocol_filter"; "protocol_filter_inline"].

Lemma members_none item dur key :
  Forall (fun k => String.eqb k key = false) task_keys ->
  first_member key (task_members item dur) = None.
Proof.
  intros Hk. unfold task_keys in Hk. unfold task_members. repeat (apply Forall_cons in Hk as [E Hk]; rewrite first_member_slot, E; clear E). done.
Qed.

Lemma on_unset {A} (as_ : V -> option A) item dur doc key f m : written (task_members item dur) doc ->
  Forall (fun k => String.eqb k key = false) task_keys ->
  on_member as_ doc key f m = m.
Proof.
  intros (_ & _ & _ & Hn) Hk. unfold on_member. by rewrite Hn by (by apply members_none).
Qed.

Ltac member_of Hw := let E := fresh in
  match goal with
  | |- find_member ?doc ?key ≫= as_string = _ =>
      destruct Hw as (_ & E & _); rewrite E; unfold task_members; first_slot; cbn [first_member]; rewrite else_none; apply string_of_text
  | |- find_member ?doc ?key ≫= as_int = _ =>
      destruct Hw as (_ & _ & E & _); rewrite E; unfold task_members; first_slot; cbn [first_member]; rewrite else_none; unfold int_slot; rewrite int_of_int; reflexivity
  end.

(** The parts of [start_request] on such a document. *)
Lemma target_read item dur doc : written (task_members item dur) doc ->
  start_target doc new_start_msg =
    let m := asked None item dur (mkObjId 0 0) in
    new_start_msg <| sm_capture_mode := sm_capture_mode m |> <| sm_iface := sm_iface m |>
      <| sm_proc_name := sm_proc_name m |> <| sm_target_pid := sm_target_pid m |>.
Proof.
  intros Hw. unfold start_target, start_mode.
  assert (find_member doc "capture_mode" = None) as -> by (apply Hw, members_none; by repeat constructor). cbn [mbind option_bind].
  rewrite (on_unset as_string item dur doc "mode"), (on_unset as_string item dur doc "container_id") by first [exact Hw|by repeat constructor].
  rewrite (on_member_value as_string doc "iface" _ _ (text_of item "iface")) by member_of Hw.
  rewrite (on_member_value as_string doc "proc_name" _ _ (text_of item "proc_name")) by member_of Hw.
  rewrite (on_member_value as_int doc "pid" _ _ (as_sent (find_member item "pid" ≫= number_of))) by member_of Hw.
  rewrite (on_member_value as_int doc "target_pid" _ _ (as_sent (target_of item))) by member_of Hw.
  unfold asked. generalize (as_sent (target_of item)), (as_sent (find_member item "pid" ≫= number_of)). intros o1 o2.
  generalize (text_of item "iface"), (text_of item "proc_name"). intros o3 o4.
  unfold set_proc_name, set_pid, is_interface.
  assert (forall p, is_empty p = true \/ is_empty p = false) as Ep by (intros p; destruct (is_empty p); auto).
  assert (forall z, (0 <? z) = true \/ (0 <? z) = false) as Ez by (intros z; destruct (0 <? z); auto).
  destruct o1 as [z1|], o2 as [z2|], o3 as [i|], o4 as [p|]; try destruct (Ep p) as [Hp|Hp]; try destruct (Ez z2) as [Hz|Hz]; cbn;
    rewrite ?Hp, ?Hz; done.
Qed.

Lemma filters_read strategy item dur doc m : written (task_members item dur) doc ->
  let a := asked strategy item dur (mkObjId 0 0) in
  sm_filter m = "" -> sm_protocol_filter m = "" -> sm_protocol_filter_inline m = "" ->
  start_filters strategy doc m =
    m <| sm_filter := sm_filter a |> <| sm_protocol_filter := sm_protocol_filter a |>
      <| sm_protocol_filter_inline := sm_protocol_filter_inline a |>.
Proof.
  intros Hw a Hf Hp Hi. unfold start_filters.
  rewrite (on_unset as_string item dur doc "ip"), (on_unset as_string item dur doc "ip_filter"), (on_unset as_int item dur doc "port"),
    (on_unset as_int item dur doc "port_filter") by first [exact Hw|by repeat constructor].
  rewrite (on_member_value as_string doc "filter" _ _ (filter_of item)) by member_of Hw.
  rewrite (on_member_value as_string doc "protocol" _ _ (text_of item "protocol")) by member_of Hw.
  rewrite (on_member_value as_string doc "protocol_filter" _ _ (text_of item "protocol_filter")) by member_of Hw.
  rewrite (on_member_value as_string doc "protocol_filter_inline" _ _ (text_of item "protocol_filter_inline")) by member_of Hw.
  subst a. unfold asked. destruct m. cbn in Hf, Hp, Hi. subst.
  destruct (filter_of item), (text_of item "protocol"), (text_of item "protocol_filter"), (text_of item "protocol_filter_inline"); done.
Qed.

Lemma limits_read item dur doc m : written (task_members item dur) doc ->
  let a := asked None item dur (mkObjId 0 0) in
  sm_category m = "" -> sm_file_pattern m = "" -> sm_duration_sec m = 60 ->
  start_limits doc m =
    m <| sm_category := sm_category a |> <| sm_file_pattern := sm_file_pattern a |> <| sm_duration_sec := sm_duration_sec a |>.
Proof.
  intros Hw a Hc Hf Hd. unfold start_limits.
  rewrite (on_unset as_int64 item dur doc "max_bytes"), (on_unset as_int item dur doc "max_packets"), (on_unset as_string item dur doc "client_ip"),
    (on_unset as_string item dur doc "user"), (on_unset as_string item dur doc "request_user") by first [exact Hw|by repeat constructor].
  rewrite (on_member_value as_string doc "category" _ _ (text_of item "category")) by member_of Hw.
  rewrite (on_member_value as_string doc "file" _ _ (text_of item "file")) by member_of Hw.
  rewrite (on_member_value as_string doc "file_pattern" _ _ (text_of item "file_pattern")) by member_of Hw.
  rewrite (on_member_value as_int doc "duration" _ _ (as_sent dur)) by member_of Hw.
  subst a. unfold asked. destruct m. cbn in Hc, Hf, Hd. subst.
  destruct (text_of item "category"), (text_of item "file"), (text_of item "file_pattern"), (as_sent dur); done.
Qed.

Lemma request_asked strategy item dur doc conn_id : written (task_members item dur) doc ->
  start_request strategy (Some doc) conn_id = asked strategy item dur conn_id.
Proof.
  intros Hw. unfold start_request. assert (is_object doc = true) as -> by apply Hw.
  rewrite (target_read item dur) by done. rewrite (filters_read strategy item dur) by done.
  rewrite (limits_read item dur) by done. done.
Qed.
End Asked.

(** ** Reading an answer *)

Lemma find_str_lacks c needle s : has_char c needle = true -> has_char c s = false -> find_str needle s = None.
Proof.
  intros Hn Hs. destruct (find_str needle s) as [n|] eqn:E; [|done]. apply find_str_spec in E. rewrite E in Hs.
  by rewrite !has_char_app, Hn, orb_true_r in Hs.
Qed.

Lemma is_prefix_over needle x a rest : has_char x needle = false ->
  is_prefix needle (a +:+ String x rest) = is_prefix needle a.
Proof.
  revert a. induction needle as [|c n IH]; intros a Hx; [by destruct (a +:+ _), a|].
  cbn [has_char] in Hx. apply orb_false_iff in Hx as [Hc Hx]. destruct a as [|d a].
  - rewrite str_app_nil. cbn [is_prefix]. by rewrite Hc.
  - rewrite str_app_cons. cbn [is_prefix]. by rewrite IH.
Qed.

(** A text that is not in a line is looked for behind it. *)
Lemma find_str_over needle x a rest : needle <> "" -> has_char x needle = false -> find_str needle a = None ->
  find_str needle (a +:+ String x rest) = (fun n => S (String.length a + n)) <$> find_str needle rest.
Proof.
  intros Hne Hx. induction a as [|c a IH]; intros E.
  - rewrite str_app_nil. cbn [find_str]. pose proof (is_prefix_over needle x "" rest Hx) as Hp. rewrite str_app_nil in Hp.
    rewrite Hp. destruct needle; [done|]. cbn [is_prefix]. by destruct (find_str _ rest).
  - rewrite str_app_cons. cbn [find_str] in *. rewrite <- (str_app_cons c a (String x rest)), is_prefix_over by done.
    destruct (is_prefix needle (String c a)); [done|]. destruct (find_str needle a); [done|].
    rewrite IH by done. by destruct (find_str needle rest).
Qed.

Lemma find_str_line needle l rest :
  needle <> "" -> has_char CR needle = false -> has_char "010" needle = false -> find_str needle l = None ->
  find_str needle (l +:+ CRLF +:+ rest) = (fun n => (String.length (l +:+ CRLF) + n)%nat) <$> find_str needle rest.
Proof.
  intros Hne Hc Hn E. change (CRLF +:+ rest) with (String CR ("" +:+ String "010" rest)).
  rewrite find_str_over by done. rewrite find_str_over; [|done|done|by destruct needle].
  destruct (find_str needle rest) as [n|]; [|done]. cbn. f_equal. rewrite str_length_app. cbn. lia.
Qed.

(** The first line with a text, in a head. *)
Lemma find_str_lines needle ls l rest :
  needle <> "" -> has_char CR needle = false -> has_char "010" needle = false ->
  Forall (fun l => find_str needle l = None) ls ->
  find_str needle (joined CRLF ls "" +:+ needle +:+ l +:+ rest) = Some (String.length (joined CRLF ls "")).
Proof.
  intros Hne Hc Hn. induction 1 as [|p ls Hp Hls IH].
  - cbn [joined foldr]. rewrite str_app_nil. destruct needle as [|c n]; [done|].
    rewrite str_app_cons. cbn [find_str]. by rewrite <- str_app_cons, is_prefix_app.
  - change (joined CRLF (p :: ls) "") with (p +:+ CRLF +:+ joined CRLF ls ""). rewrite !str_app_assoc.
    rewrite find_str_line by done. rewrite IH. cbn. rewrite !str_length_app. f_equal. lia.
Qed.

Lemma joined_app delim a b rest : joined delim (a ++ b) rest = joined delim a "" +:+ joined delim b rest.
Proof.
  induction a as [|p a IH]; [by rewrite str_app_nil|]. cbn [app joined foldr].
  fold (joined delim (a ++ b) rest) (joined delim a ""). by rewrite IH, !str_app_assoc.
Qed.

Lemma joined_extra delim a rest extra : joined delim a (rest +:+ extra) = joined delim a rest +:+ extra.
Proof.
  induction a as [|p a IH]; [done|]. cbn [joined foldr]. fold (joined delim a (rest +:+ extra)) (joined delim a rest).
  by rewrite IH, !str_app_assoc.
Qed.

(** An answer: a status line, header lines with the length of the body among
    them, and no other line that looks like it. *)
Record answer_lines (status : string) (before after : list string) : Prop := {
  al_status : has_char CR status = false;
  al_lines : Forall (fun l => l <> "" /\ has_char CR l = false) (before ++ after);
  al_before : Forall (fun l => find_str "Content-Length:" l = None) (status :: before);
}.

Definition length_line (n : nat) : string := "Content-Length: " +:+ fmt_u (Z.of_nat n).

Definition answer_head (status : string) (before after : list string) (n : nat) : string :=
  joined CRLF (status :: before ++ length_line n :: after) CRLF.

Lemma skip_blank_digits s : str_all is_digit s = true -> forall rest, skip_blanks (String " " (s +:+ String CR rest)) = 1%nat.
Proof.
  intros Hs rest. destruct s as [|c s]; [done|]. rewrite str_app_cons. simpl in Hs. apply andb_true_iff in Hs as [Hc _].
  destruct (Ascii.eqb_spec c " ") as [->|Hne]; [done|]. cbn [skip_blanks].
  by_class c (fun c => negb (is_digit c) || Nat.eqb (skip_blanks (String c "")) 0).
  rewrite Hc in Hclass. cbn [negb orb] in Hclass. destruct c as [[] [] [] [] [] [] [] []]; done.
Qed.

Lemma fmt_u_facts n : 0 <= n <= LONG_MAX ->
  str_all is_digit (fmt_u n) = true /\ fmt_u n = fmt_d n /\ has_char CR (fmt_u n) = false.
Proof.
  unfold LONG_MAX. intros Hn. destruct (fmt_u_digits n) as (H1 & _); [lia|]. split; [done|].
  split; [unfold fmt_d; by destruct (Z.ltb_spec n 0); [lia|]|]. by apply digits_no_char.
Qed.

Lemma content_length_read status before after n rest : answer_lines status before after -> Z.of_nat n <= LONG_MAX ->
  expected_total (answer_head status before after n +:+ rest) (String.length (answer_head status before after n)) =
    Some (String.length (answer_head status before after n) + n)%nat.
Proof.
  intros Ha Hn. set (head := answer_head status before after n).
  assert (exists tail, head = joined CRLF (status :: before) "" +:+ "Content-Length:" +:+ String " " (fmt_u (Z.of_nat n)) +:+ CRLF +:+ tail)
    as [tail Eh].
  { exists (joined CRLF after CRLF). subst head. unfold answer_head.
    change (status :: before ++ ?l) with ((status :: before) ++ l). rewrite joined_app. f_equal. }
  unfold expected_total. set (pre := joined CRLF (status :: before) "") in *.
  set (line := "Content-Length:" +:+ String " " (fmt_u (Z.of_nat n))) in *.
  destruct (fmt_u_facts (Z.of_nat n)) as (Hd & Ed & Hcr); [lia|].
  assert (head +:+ rest = pre +:+ "Content-Length:" +:+ String " " (fmt_u (Z.of_nat n)) +:+ CRLF +:+ tail +:+ rest) as E
    by (rewrite Eh, !str_app_assoc; done).
  rewrite E, (find_str_lines "Content-Length:" (status :: before)) by (try done; apply Ha). fold pre.
  assert (String.length head = (String.length pre + (16 + String.length (fmt_u (Z.of_nat n))) + (2 + String.length tail))%nat) as El.
  { rewrite Eh, !str_length_app. cbn. lia. }
  destruct (Nat.ltb_spec (String.length pre) (String.length head)); [|lia].
  rewrite str_drop_app.
  change (find_str CRLF ("Content-Length:" +:+ String " " (fmt_u (Z.of_nat n)) +:+ CRLF +:+ tail +:+ rest))
    with (find_str CRLF (line +:+ CRLF +:+ tail +:+ rest)).
  assert (has_char CR line = false) as Hl by (subst line; change (has_char CR (String " " (fmt_u (Z.of_nat n))) = false); exact Hcr).
  assert (find_str CRLF (line +:+ CRLF +:+ tail +:+ rest) = Some (String.length line)) as -> by (by apply find_str_here).
  cbv zeta. set (k := fmt_u (Z.of_nat n)) in *.
  assert (str_drop (String.length pre + 15) (pre +:+ "Content-Length:" +:+ String " " k +:+ CRLF +:+ tail +:+ rest) =
            String " " (k +:+ CRLF +:+ tail +:+ rest)) as ->.
  { rewrite <- str_drop_drop, str_drop_app. done. }
  rewrite (skip_blank_digits k Hd (String "010" (tail +:+ rest)) : skip_blanks (String " " (k +:+ CRLF +:+ tail +:+ rest)) = 1%nat).
  assert (String.length line = (16 + String.length k)%nat) as Ell by done.
  destruct (Nat.leb_spec (String.length pre + String.length line) (String.length head)); [|lia].
  assert (substr (pre +:+ "Content-Length:" +:+ String " " k +:+ CRLF +:+ tail +:+ rest) (String.length pre + 15 + 1)
            (String.length pre + String.length line - (String.length pre + 15 + 1)) = k) as ->.
  { unfold substr. replace (String.length pre + 15 + 1)%nat with (String.length pre + 16)%nat by lia.
    rewrite <- str_drop_drop, str_drop_app. rewrite Ell.
    replace (String.length pre + (16 + String.length k) - (String.length pre + 16))%nat with (String.length k) by lia.
    change (str_drop 16 ("Content-Length:" +:+ String " " k +:+ CRLF +:+ tail +:+ rest)) with (k +:+ CRLF +:+ tail +:+ rest).
    apply str_take_app. }
  subst k. unfold strtoll. rewrite Ed, strtol_fmt_d by (unfold LONG_MIN; lia).
  destruct (Z.leb_spec 0 (Z.of_nat n)); [|lia]. by rewrite Nat2Z.id.
Qed.

Lemma longer_of a b c d : a +:+ b = c +:+ d -> (String.length c <= String.length a)%nat -> exists r, a = c +:+ r.
Proof.
  revert a. induction c as [|x c IH]; intros a E Hl; [by exists a|]. destruct a as [|y a]; [simpl in Hl; lia|].
  rewrite !str_app_cons in E. injection E as -> E. destruct (IH a E) as [r ->]; [simpl in Hl; lia|]. by exists r.
Qed.

(** The end of the head is found as soon as it is there. *)
Lemma answer_head_end status before after n : answer_lines status before after -> Z.of_nat n <= LONG_MAX ->
  exists front, answer_head status before after n = front +:+ CRLF2 /\
    forall rest, find_str CRLF2 (answer_head status before after n +:+ rest) = Some (String.length front).
Proof.
  intros Ha Hn.
  assert (forall rest, exists front, answer_head status before after n = front +:+ CRLF2 /\
    find_str CRLF2 (answer_head status before after n +:+ rest) = Some (String.length front)) as Hf.
  { intros rest. apply find_blank_line; [apply Ha|].
    pose proof (al_lines _ _ _ Ha) as Hl. apply Forall_app in Hl as [Hb Haf]. apply Forall_app. split; [done|]. constructor; [|done].
    split; [done|]. by destruct (fmt_u_facts (Z.of_nat n)) as (_ & _ & ?); [lia|]. }
  destruct (Hf "") as (front & E & _). exists front. split; [done|]. intros rest. destruct (Hf rest) as (front' & E' & ->).
  do 1 f_equal. apply (f_equal String.length) in E, E'. rewrite !str_length_app in *. lia.
Qed.

(** The state of [recv_all] with a part of the answer. *)
Definition receiving_ok (head whole : string) (total : nat) (v : receiving) : Prop :=
  match rv_header_end v with
  | None => find_str CRLF2 (rv_out v) = None /\ rv_expected v = None
  | Some n => rv_expected v = Some total
  end.

Lemma receive_ok status before after n rest v piece more :
  answer_lines status before after -> Z.of_nat n <= LONG_MAX ->
  let head := answer_head status before after n in
  let total := (String.length head + n)%nat in
  receiving_ok head (head +:+ rest) total v -> (rv_out v +:+ piece) +:+ more = head +:+ rest ->
  let '(complete, v') := receive piece v in
  receiving_ok head (head +:+ rest) total v' /\ rv_out v' = rv_out v +:+ piece /\
  (complete = true <-> (total <= String.length (rv_out v'))%nat).
Proof.
  intros Ha Hn head total Hv E. unfold receive. set (out := rv_out v +:+ piece) in *.
  destruct (answer_head_end status before after n Ha Hn) as (front & Ef & Hfind). fold head in Ef, Hfind.
  assert (String.length head = String.length front + 4)%nat as Elen by (rewrite Ef, str_length_app; done).
  pose proof (fun r => content_length_read status before after n r Ha Hn) as Hcl. fold head total in Hcl.
  assert (String.length head <= total)%nat as Hle by (subst total; lia). clearbody total head.
  unfold receiving_ok in Hv. destruct (rv_header_end v) as [e|].
  - rewrite Hv. cbn. by rewrite Nat.leb_le.
  - destruct Hv as [_ Hx]. destruct (find_str CRLF2 out) as [pos|] eqn:Ep.
    + assert (pos = String.length front) as ->.
      { apply (inj Some). rewrite <- (find_str_longer _ _ more _ Ep), E. apply Hfind. }
      destruct (longer_of _ _ _ _ E) as [r Er].
      { apply find_str_le in Ep. change (String.length CRLF2) with 4%nat in Ep. lia. }
      rewrite Er. replace (String.length front + 4)%nat with (String.length head) by lia.
      rewrite Hcl. cbn. by rewrite Nat.leb_le.
    + rewrite Hx. cbn. split; [done|]. split; [done|]. split; [done|]. intros Hl. exfalso.
      destruct (longer_of _ _ _ _ E) as [r Er]; [lia|]. by rewrite Er, Hfind in Ep.
Qed.

(** An answer that arrives in any pieces is taken, and what is taken is the head
    and the body, with a part of what came behind. *)
Lemma recv_loop_ok status before after n rest pieces at_end v :
  answer_lines status before after -> Z.of_nat n <= LONG_MAX ->
  let head := answer_head status before after n in
  let total := (String.length head + n)%nat in
  receiving_ok head (head +:+ rest) total v -> (String.length (rv_out v) < total <= String.length (head +:+ rest))%nat ->
  rv_out v +:+ String.concat "" pieces = head +:+ rest ->
  exists out, recv_loop pieces at_end v = Some out /\ (total <= String.length out)%nat /\ exists more, out +:+ more = head +:+ rest.
Proof.
  intros Ha Hn head total. revert v. induction pieces as [|piece pieces IH]; intros v Hv Hl E.
  - exfalso. apply (f_equal String.length) in E. cbn [String.concat] in E. rewrite str_app_nil_r in E. lia.
  - assert (exists more, String.concat "" (piece :: pieces) = piece +:+ more /\ more = String.concat "" pieces) as (more & Em & Emore).
    { eexists. split; [|done]. destruct pieces; [cbn; by rewrite str_app_nil_r|done]. }
    rewrite Em, <- str_app_assoc in E. cbn [recv_loop].
    pose proof (receive_ok status before after n rest v piece more Ha Hn Hv E) as Hr. fold head total in Hr.
    destruct (receive piece v) as [complete v']. destruct Hr as (Hv' & Eo & Hc). destruct complete.
    + exists (rv_out v'). split; [done|]. split; [by apply Hc|]. exists more. by rewrite Eo.
    + apply IH; [done| |by rewrite Eo, <- Emore]. split; [|apply Hl].
      apply Nat.nle_gt. intros Hle. apply Hc in Hle. done.
Qed.

(** What the client makes of an answer. *)
Lemma client_reads status_code reason before after body extra pieces at_end net host port path payload :
  let status := "HTTP/1.1 " +:+ fmt_d status_code +:+ " " +:+ reason in
  let n := String.length body in
  answer_lines status before after -> Z.of_nat n <= LONG_MAX -> int_range status_code ->
  net (post_text host port path payload) = Answer pieces at_end ->
  String.concat "" pieces = answer_head status before after n +:+ body +:+ extra ->
  exists e, send_http_post host port path payload net = Done (mkHttpResponse status_code (body +:+ e)) /\ is_prefix e extra = true.
Proof.
  intros status n Ha Hn Hc Hnet E. unfold send_http_post. rewrite Hnet.
  set (head := answer_head status before after n) in *.
  destruct (answer_head_end status before after n Ha Hn) as (front & Ef & Hfind). fold head in Ef, Hfind.
  assert (String.length head = String.length front + 4)%nat as Elen by (rewrite Ef, str_length_app; done).
  destruct (recv_loop_ok status before after n (body +:+ extra) pieces at_end (mkReceiving "" None None) Ha Hn)
    as (out & Eo & Hlen & more & Em); fold head.
  - done.
  - rewrite !str_length_app. cbn [rv_out String.length]. subst n. lia.
  - by rewrite str_app_nil.
  - fold head in Em, Hlen. unfold recv_all. rewrite Eo.
    destruct (longer_of out more head (body +:+ extra) Em) as [r Er]; [lia|]. subst out.
    rewrite str_app_assoc in Em. apply str_app_cancel in Em.
    destruct (longer_of r more body extra Em) as [e Ee]; [rewrite str_length_app in Hlen; subst n; lia|]. subst r.
    rewrite str_app_assoc in Em. apply str_app_cancel in Em. exists e. split; [|rewrite <- Em; apply is_prefix_app].
    unfold parse_response. rewrite Hfind.
    assert (find_str CRLF (head +:+ body +:+ e) = Some (String.length status)) as ->.
    { subst head. unfold answer_head. cbn [joined foldr]. rewrite !str_app_assoc. by apply (find_str_here CR), Ha. }
    assert (str_take (String.length status) (head +:+ body +:+ e) = status) as ->.
    { subst head. unfold answer_head. cbn [joined foldr]. rewrite str_app_assoc. apply str_take_app. }
    change (is_prefix "HTTP/" status) with true. cbn [negb].
    change (str_index " " status) with (Some 8%nat). cbv iota.
    change (str_drop 9 status) with (fmt_d status_code +:+ String " " reason).
    assert (has_char " " (fmt_d status_code) = false) as Hb by (apply fmt_d_no_char; [unfold int_range in Hc; lia|done|done]).
    rewrite str_index_here, str_take_app, atoi_fmt_d by done. rewrite Ef.
    replace (String.length front + 4)%nat with (String.length (front +:+ CRLF2)) by (by rewrite str_length_app).
    by rewrite str_drop_app.
Qed.

(** The status line and the header lines of a response. *)
Definition status_line (r : http_response) : string :=
  "HTTP/1.1 " +:+ fmt_d (hs_response_code r) +:+ " "
    +:+ (if is_empty (hs_response_str r) then "" else get_response_str (hs_response_code r)).

Lemma response_lines r :
  response_head "HTTP/1.1" r = joined CRLF (status_line r :: map header_text (in_key_order (hs_headers r))) CRLF.
Proof.
  unfold response_head, response_to_head_str, status_line. cbn [joined foldr].
  fold (joined CRLF (map header_text (in_key_order (hs_headers r))) CRLF). rewrite <- concat_lines.
  destruct (hs_response_str r) as [|c s] eqn:E; cbn [is_empty fst]; rewrite ?E; by rewrite !str_app_assoc.
Qed.

Lemma reason_plain code : has_char CR (get_response_str code) = false /\ has_char ":" (get_response_str code) = false.
Proof.
  unfold get_response_str. destruct (response_list !! code) as [s|] eqn:E; [|done]. unfold response_list in E.
  apply elem_of_list_to_map_2 in E. repeat (apply elem_of_cons in E as [[= _ ->]|E]; [done|]). by apply elem_of_nil in E.
Qed.

(** A response whose head gives the length of a body. *)
Record response_ok (r : http_response) (n : nat) : Prop := {
  ro_code : int_range (hs_response_code r);
  ro_length : hs_headers r !! "Content-Length" = Some (fmt_u (Z.of_nat n));
  ro_headers : map_Forall (fun k v => k <> "" /\ has_char CR (header_text (k, v)) = false /\
    (k <> "Content-Length" -> find_str "Content-Length:" (header_text (k, v)) = None)) (hs_headers r);
}.

Lemma status_line_ok r : int_range (hs_response_code r) ->
  has_char CR (status_line r) = false /\ find_str "Content-Length:" (status_line r) = None.
Proof.
  intros Hc. unfold int_range in Hc. destruct (reason_plain (hs_response_code r)) as [R1 R2]. unfold status_line. split.
  - rewrite !has_char_app, fmt_d_no_char by (try done; lia). by destruct (is_empty _).
  - apply (find_str_lacks ":"); [done|]. rewrite !has_char_app, fmt_d_no_char by (try done; lia). by destruct (is_empty _).
Qed.

Lemma response_answer r n : response_ok r n ->
  exists before after, answer_lines (status_line r) before after /\ response_head "HTTP/1.1" r = answer_head (status_line r) before after n.
Proof.
  intros [Hc Hl Hh]. rewrite response_lines. destruct (status_line_ok r Hc) as [Hs1 Hs2].
  assert (("Content-Length", fmt_u (Z.of_nat n)) ∈ in_key_order (hs_headers r)) as Hin
    by (rewrite in_key_order_perm; by apply elem_of_map_to_list).
  assert (NoDup (fst <$> in_key_order (hs_headers r))) as Hd by (rewrite in_key_order_perm; apply NoDup_fst_map_to_list).
  assert (forall kv, kv ∈ in_key_order (hs_headers r) -> hs_headers r !! fst kv = Some (snd kv)) as Hlook.
  { intros [k v] Hkv. rewrite in_key_order_perm in Hkv. by apply elem_of_map_to_list. }
  apply list_elem_of_split in Hin as (a & b & E). rewrite E in *. clear E.
  rewrite fmap_app, fmap_cons in Hd. apply NoDup_app in Hd as (_ & Hd1 & [Hd2 _]%NoDup_cons).
  exists (map header_text a), (map header_text b). split; [|unfold answer_head; by rewrite map_app].
  assert (forall kv, kv ∈ a ++ ("Content-Length", fmt_u (Z.of_nat n)) :: b -> header_text kv <> "" /\ has_char CR (header_text kv) = false) as Hall.
  { intros kv Hkv. destruct (Hh _ _ (Hlook kv Hkv)) as (H1 & H2 & _). destruct kv as [k v]. split; [by destruct k|done]. }
  constructor; [done| |].
  - rewrite <- map_app. apply Forall_fmap, Forall_forall. intros kv Hkv. apply Hall. rewrite elem_of_app in *. rewrite elem_of_cons. tauto.
  - constructor; [done|]. apply Forall_fmap, Forall_forall. intros kv Hkv.
    assert (kv ∈ a ++ ("Content-Length", fmt_u (Z.of_nat n)) :: b) as Hin by (apply elem_of_app; by left).
    destruct (Hh _ _ (Hlook kv Hin)) as (_ & _ & H3). destruct kv as [k v]. apply H3. cbn [fst].
    intros ->. apply (Hd1 "Content-Length"); [apply list_elem_of_fmap; by exists ("Content-Length", v)|left].
Qed.

(** The client takes the whole answer to its request, however it is cut on
    the way, and does not need the connection to end: from a response with the
    length of its body, the status code and the body, followed by a part of
    what comes behind the body when there is something. *)
Lemma client_reads_answer r body extra pieces at_end net host port path payload :
  response_ok r (String.length body) -> Z.of_nat (String.length body) <= LONG_MAX ->
  net (post_text host port path payload) = Answer pieces at_end ->
  String.concat "" pieces = response_head "HTTP/1.1" r +:+ body +:+ extra ->
  exists e, send_http_post host port path payload net = Done (mkHttpResponse (hs_response_code r) (body +:+ e)) /\
    is_prefix e extra = true.
Proof.
  intros Hr Hn Hnet E. destruct (response_answer r _ Hr) as (before & after & Ha & Eh). rewrite Eh in E.
  eapply client_reads; [exact Ha|done|apply Hr|done..].
Qed.

(** ** From a task to its answer *)

Definition post_headers (host port_str : string) (length : nat) : list (string * string) :=
  [("Host", host +:+ ":" +:+ port_str); ("Content-Type", "application/json"); ("Connection", "close");
   ("Content-Length", fmt_u (Z.of_nat length))].

Definition post_request (host port_str path : string) (length : nat) : http_head :=
  mkHead "POST" (normalized_path path) "HTTP/1.1" (list_to_map (post_headers host port_str length)) ∅.

Lemma post_head_text host port_str path length :
  post_head host port_str path length = head_text (post_request host port_str path length) (post_headers host port_str length).
Proof.
  unfold head_text, first_line, post_head, post_request, post_headers. cbn [map hh_method hh_url_path hh_version joined foldr header_text fst snd].
  unfold header_text. cbn [fst snd]. rewrite !str_app_assoc. done.
Qed.

Lemma post_keys host port_str length : NoDup (fst <$> post_headers host port_str length).
Proof. change (NoDup ["Host"; "Content-Type"; "Connection"; "Content-Length"]). apply (bool_decide_unpack _). reflexivity. Qed.

Definition host_ok (host path : string) : Prop :=
  has_char CR host = false /\ has_char NUL_CHAR host = false /\ token_text_ok (normalized_path path).

Lemma post_sent host port path length : host_ok host path -> int_range port -> Z.of_nat length <= LONG_MAX ->
  sent_head (post_request host (fmt_d port) path length) (post_headers host (fmt_d port) length).
Proof.
  intros (Hh1 & Hh2 & Hp) Hport Hl. unfold int_range in Hport. unfold LONG_MAX in Hl.
  assert (post_headers host (fmt_d port) length ≡ₚ map_to_list (hh_headers (post_request host (fmt_d port) path length))) as E.
  { symmetry. apply map_to_list_to_map, post_keys. }
  destruct (fmt_u_facts (Z.of_nat length)) as (_ & Ed & Hcr); [unfold LONG_MAX; lia|].
  constructor; [|exact E]. constructor; try done.
  rewrite <- E. repeat constructor; try done; cbn [fst snd].
  - rewrite !has_char_app, Hh1, fmt_d_no_char; [done|lia|done|done].
  - rewrite !has_char_app, Hh2, fmt_d_no_char; [done|lia|done|done].
  - rewrite Ed, fmt_d_no_char; [done|lia|done|done].
Qed.

Lemma post_no_boundary host port_str path length :
  let h := post_request host port_str path length in
  find_boundary (h <| hh_headers := shifted (hh_headers h) |>) "" = "".
Proof.
  intros h. unfold find_boundary. change (hh_method (h <| hh_headers := shifted (hh_headers h) |>)) with "POST". 
  change (hh_headers (h <| hh_headers := shifted (hh_headers h) |>)) with (shifted (hh_headers h)). cbn [String.eqb orb].
  assert (get_header "Content-Type" (shifted (hh_headers h)) = Some " application/json") as ->; [|done].
  unfold get_header. set (P := fun kv : string * string => is_Some (strcasestr (fst kv) "Content-Type")).
  assert (filter P (in_key_order (shifted (hh_headers h))) = [("Content-Type", " application/json")]) as ->; [|done].
  apply Permutation_singleton_r. rewrite in_key_order_perm. unfold shifted. rewrite map_to_list_fmap.
  subst h. cbn [hh_headers post_request]. rewrite map_to_list_to_map by apply post_keys.
  done.
Qed.

Lemma answer_response_ok r text : int_range (hs_response_code r) -> hs_headers r = answer_headers text ->
  Z.of_nat (String.length text) <= LONG_MAX -> response_ok r (String.length text).
Proof.
  intros Hc Hh Hl. destruct (fmt_u_facts (Z.of_nat (String.length text))) as (Hd & _ & Hcr); [lia|].
  constructor; [done|by rewrite Hh; unfold answer_headers; rewrite lookup_insert_eq|]. rewrite Hh. unfold answer_headers.
  repeat apply map_Forall_insert_2; [| | |apply map_Forall_empty]; (split; [done|split; [|done]]); [|done..].
  unfold header_text. cbn [fst snd]. by rewrite !has_char_app, Hcr.
Qed.

Lemma fmt_d_digits z : 0 <= z < 2 ^ 64 -> str_all is_digit (fmt_d z) = true.
Proof.
  intros Hz. unfold fmt_d. destruct (Z.ltb_spec z 0); [lia|]. by apply fmt_u_digits.
Qed.

Lemma reply_response_ok reply : int_range (hr_status reply) -> reply_headers (hr_headers reply) ->
  Z.of_nat (String.length (hr_body reply)) <= LONG_MAX -> response_ok (reply_response reply) (String.length (hr_body reply)).
Proof.
  intros Hc Hh Hl. destruct (fmt_u_facts (Z.of_nat (String.length (hr_body reply)))) as (Hd & _ & Hcr); [lia|].
  constructor; [done|cbn; by rewrite lookup_insert_ne, lookup_insert_eq|].
  cbn [hs_headers reply_response].
  assert (map_Forall (fun k v => k <> "" /\ has_char CR (header_text (k, v)) = false /\
    (k <> "Content-Length" -> find_str "Content-Length:" (header_text (k, v)) = None)) (hr_headers reply)) as Hr.
  { unfold json_headers in *. destruct Hh as [->|(z & Hz & ->)]; [by apply map_Forall_singleton|].
    apply map_Forall_insert_2; [|by apply map_Forall_singleton]. split; [done|]. unfold header_text. cbn [fst snd]. split.
    - rewrite !has_char_app, (digits_no_char CR (fmt_d z)) by (try done; by apply fmt_d_digits). done.
    - intros _. apply (find_str_lacks "C"); [done|]. rewrite !has_char_app, (digits_no_char "C" (fmt_d z)) by (try done; by apply fmt_d_digits). done. }
  apply map_Forall_insert_2; [done|]. apply map_Forall_insert_2; [|done]. split; [done|split; [|done]].
  unfold header_text. cbn [fst snd]. by rewrite !has_char_app, Hcr.
Qed.

(** What the client takes from the wire: the status code and the body, with a
    part of what is behind it. *)
Definition client_gets (host : string) (port : Z) (path payload wire : string) (code : Z) (body extra : string) : Prop :=
  forall net pieces at_end,
  net (post_text host port path payload) = Answer pieces at_end -> String.concat "" pieces = wire ->
  Z.of_nat (String.length body) <= LONG_MAX ->
  exists e, send_http_post host port path payload net = Done (mkHttpResponse code (body +:+ e)) /\ is_prefix e extra = true.

Lemma gets_response host port path payload r code body extra :
  (Z.of_nat (String.length body) <= LONG_MAX -> response_ok r (String.length body)) -> hs_response_code r = code ->
  client_gets host port path payload (response_head "HTTP/1.1" r +:+ body +:+ extra) code body extra.
Proof. intros Hr <- net pieces at_end Hnet E Hl. eapply client_reads_answer; [by apply Hr|done..]. Qed.

(** C27: From a task of the client's file to the answer the client shows, through
    the server.  The request [send_http_post] makes of a task, read by a new
    connection in any pieces with its body in the last of them, is refused at
    once with 400 or 404, or posted to the capture manager as the message the
    task stands for.  If the filter of the message is not blank, the client
    gets the status and the body of the manager's one reply; from a refusal it gets, behind the body, a part of the empty
    head the server sends then. *)
Theorem client_capture_answered {V W} `{ClientJson V} `{PdefFiles W} e id (item : V) t host port path chunks last (w : W) s0 idx me s :
  build_task_payload item = Done t ->
  host_ok host path -> int_range port -> strip_query (normalized_path path) = "/api/capture/start" ->
  received chunks +:+ last = post_text host port path (tr_payload t) ->
  (String.length (received chunks) < String.length (post_head host (fmt_d port) path (String.length (tr_payload t))))%nat ->
  (String.length (post_text host port path (tr_payload t)) <= MAX_RECV_SIZE)%nat ->
  he_manager e = Some idx -> 0 < obj_thread_index id -> manager_ok s -> mg_next_capture_id s < INT_MAX ->
  let run n := handle_events (map readable chunks ++ [(e, Room n, Readable (Data last))])
                 (mkIo (new_connection id) [] w s0) in
  (exists code body wire, code ∈ [400; 404] /\
     (forall n, (String.length wire <= n)%nat -> exists c s', run n = Done (mkIo c [] w s') /\ cn_sent c = wire) /\
     client_gets host port path (tr_payload t) wire code body stray_head) \/
  exists dur m,
    parse_duration item = Done dur /\
    m = (asked (he_strategy e) item dur id) <| sm_enqueue_ts_ms := he_ms e |> /\
    (forall n, exists c s1, run n = Done (mkIo c [(mkObjId OBJ_ID_THREAD idx, MsgStartCapture m)] w s1) /\ cn_sent c = "") /\
    (request_filtered me m = true -> exists s' out reply wire,
    CaptureManager.handle_msg me (MsgStartCapture m) s = Done (s', out) /\
    http_replies out = [(id, reply)] /\ hr_status reply ∈ [200; 404; 409; 429] /\
    (forall n k, (String.length wire <= k)%nat -> exists c c' s1 s2,
       run n = Done (mkIo c [(mkObjId OBJ_ID_THREAD idx, MsgStartCapture m)] w s1) /\ cn_sent c = "" /\
       handle_event e (Message (MsgHttpReply reply)) (mkIo c [] w (Room k)) = Done (mkIo c' [] w s2) /\ cn_sent c' = wire) /\
    client_gets host port path (tr_payload t) wire (hr_status reply) (hr_body reply) "").
Proof.
  intros Et Hhost Hport Hurl E Hlt Hl Hm Hid Hs Hnext run.
  unfold post_text in E, Hl. rewrite post_head_text in E, Hlt, Hl. set (size := String.length (tr_payload t)) in *.
  assert (Z.of_nat size <= LONG_MAX) as Hsize by (rewrite str_length_app in Hl; fold size in Hl; unfold MAX_RECV_SIZE, LONG_MAX in *; lia).
  destruct (payload_written item t Et) as (dur & doc & Hdur & Hdoc & Hw).
  destruct (start_served e id (post_request host (fmt_d port) path size) (post_headers host (fmt_d port) size) (tr_payload t) chunks last
    w s0 idx me s Hm Hid (post_sent _ _ _ _ Hhost Hport Hsize) (post_no_boundary _ _ _ _) eq_refl Hurl E Hlt Hl Hs Hnext)
    as [(r & text & Hc & Hhs & Hr)|(m & doc' & Hdoc' & Em & Hrun & Hf)].
  - left. exists (hs_response_code r), text, (response_head "HTTP/1.1" r +:+ text +:+ stray_head). split; [done|]. split; [exact Hr|].
    apply gets_response; [|done]. apply answer_response_ok; [|done]. unfold int_range.
    repeat (apply elem_of_cons in Hc as [->|Hc]; [lia|]). by apply elem_of_nil in Hc.
  - right. exists dur, m. rewrite Hdoc in Hdoc'. injection Hdoc' as <-. rewrite (request_asked _ _ _ _ _ Hw) in Em.
    split_and!; [done..|]. intros Hfilter. destruct (Hf Hfilter) as (s' & out & reply & Hmsg & Hrep & Hst & Hhs & Hr).
    exists s', out, reply, (response_head "HTTP/1.1" (reply_response reply) +:+ hr_body reply). split_and!; try done.
    rewrite <- (str_app_nil_r (hr_body reply)) at 1. apply gets_response; [|done]. apply reply_response_ok; [|done].
    unfold int_range. repeat (apply elem_of_cons in Hst as [->|Hst]; [lia|]). by apply elem_of_nil in Hst.
Qed.

(** The exit code: every task was answered with a status below 400. *)
Lemma submit_ok {V} `{ClientJson V} o net i tasks :
  snd (submit (V := V) o net i tasks) = true <->
  forall j t, tasks !! j = Some t ->
    exists resp, send_http_post (op_host o) (op_port o) (op_path o) (tr_payload t) (net (i + j)%nat) = Done resp /\ rs_status_code resp < 400.
Proof.
  revert i. induction tasks as [|t tasks IH]; intros i; [done|]. cbn [submit]. specialize (IH (S i)).
  destruct (submit (V := V) o net (S i) tasks) as [out success]. cbn [snd] in IH.
  destruct (send_http_post _ _ _ (tr_payload t) (net i)) as [resp|err| |] eqn:E; cbn [snd].
  - rewrite andb_true_iff, IH, Z.ltb_lt. split.
    + intros [Hr Hs] [|j] t' Ht; [injection Ht as <-; rewrite Nat.add_0_r; by exists resp|].
      destruct (Hs j t' Ht) as (r & Hj). exists r. by rewrite Nat.add_succ_r.
    + intros Ha. split.
      * destruct (Ha O t eq_refl) as (r & Er & Hr). rewrite Nat.add_0_r, E in Er. by injection Er as <-.
      * intros j t' Ht. destruct (Ha (S j) t' Ht) as (r & Hj). exists r. by rewrite Nat.add_succ_r in Hj.
  - split; [done|]. intros Ha. destruct (Ha O t eq_refl) as (r & Er & _). by rewrite Nat.add_0_r, E in Er.
  - split; [done|]. intros Ha. destruct (Ha O t eq_refl) as (r & Er & _). by rewrite Nat.add_0_r, E in Er.
  - split; [done|]. intros Ha. destruct (Ha O t eq_refl) as (r & Er & _). by rewrite Nat.add_0_r, E in Er.
Qed.

(** ** A concrete writer *)

#[export] Instance payload_value_eq : EqDecision payload_value.
Proof. solve_decision. Defined.

#[export] Instance payload_value_countable : Countable payload_value.
Proof.
  refine (inj_countable' (fun v => match v with PStr s => inl s | PInt z => inr z end)
            (fun v => match v with inl s => PStr s | inr z => PInt z end) _).
  by intros [].
Defined.

Fixpoint bits_text (p : BinNums.positive) : string :=
  match p with xH => "" | xO p => String "0" (bits_text p) | xI p => String "1" (bits_text p) end.

Fixpoint text_bits (s : string) : BinNums.positive :=
  match s with
  | EmptyString => xH
  | String c s => if Ascii.eqb c "1" then xI (text_bits s) else xO (text_bits s)
  end.

Lemma text_bits_text p : text_bits (bits_text p) = p.
Proof. induction p as [p IH|p IH|]; [..|done]; cbn; by rewrite IH. Qed.

Lemma bits_text_plain p : has_char NUL_CHAR (bits_text p) = false.
Proof. by induction p. Qed.

Definition value_tree (v : payload_value) : tree := match v with PStr s => TStr s | PInt z => TNum z end.

(** Texts that [Writer] may make: the bits of the members behind a mark. *)
Definition demo_write (l : payload) : string := String "{" (bits_text (encode l)).

Definition demo_parse (s : string) : option tree :=
  match s with
  | String "{" s => l ← (decode (text_bits s) : option payload); Some (TObj (map (prod_map id value_tree) l))
  | _ => None
  end.

Definition demo_json : Json tree.
Proof.
  refine {|
    json_parse := demo_parse;
    is_object t := match t with TObj _ => true | _ => false end;
    find_member := tree_member;
    members t := match t with TObj l => l | _ => [] end;
    as_array t := match t with TArr l => Some l | _ => None end;
    as_string t := match t with TStr s => Some (c_str s) | _ => None end;
    as_int := int_within 32;
    as_int64 := int_within 64;
    as_bool t := match t with TBool b => Some b | _ => None end;
    as_int_range := int_within_range 32;
    as_int64_range := int_within_range 64;
  |}.
Defined.

Lemma c_str_plain s : has_char NUL_CHAR (c_str s) = false.
Proof.
  induction s as [|c s IH]; [done|]. cbn [c_str]. destruct (Ascii.eqb c "000") eqn:E; [done|]. cbn [has_char]. unfold NUL_CHAR at 1.
  by rewrite E, IH.
Qed.

Lemma tree_first_member key l :
  tree_member (TObj (map (prod_map id value_tree) l)) key = value_tree <$> first_member key l.
Proof.
  induction l as [|[k v] l IH]; [done|]. cbn [map tree_member find prod_map fst snd first_member id] in *.
  by destruct (String.eqb k key).
Qed.

#[export] Instance demo_client_json : ClientJson tree.
Proof.
  refine {|
    client_json := demo_json;
    as_uint64 t := match t with TNum z => if (0 <=? z) && (z <? 2 ^ 64) then Some z else None | _ => None end;
    as_double _ := None;
    json_error_offset _ := 0;
    json_write := demo_write;
  |}.
  - done.
  - intros [| | |s| |]; try done. intros s' [= <-]. apply c_str_plain.
  - intros [| |z| | |] z'; try done. destruct (_ && _) eqn:E; [|done]. intros [= <-]. zbool. lia.
  - intros l. split; [|done]. apply bits_text_plain.
  - intros l Hl. exists (TObj (map (prod_map id value_tree) l)). split.
    { cbn. rewrite text_bits_text, decode_encode. done. }
    split; [done|]. intros key. change (@find_member tree demo_json) with tree_member. rewrite tree_first_member.
    assert (forall v, first_member key l = Some v -> value_ok v) as Hv.
    { clear -Hl. induction Hl as [|[k v] l [_ Hv] _ IH]; [done|]. cbn [first_member]. destruct (String.eqb k key); [|done].
      by intros v' [= <-]. }
    destruct (first_member key l) as [[s|z]|]; [| |done]; eexists; (split; [done|]).
    + split; [|done]. cbn. f_equal. apply c_str_id. by apply (Hv _ eq_refl).
    + split; [done|]. cbn. unfold int_range. case_bool_decide as Hz; destruct (_ && _) eqn:Eb; zbool; try done; lia.
Defined.

Definition demo_item : tree := TObj [("iface", TStr "eth0"); ("duration", TStr "30"); ("filter", TStr "tcp port 80")].

Definition demo_task : TaskRequest :=
  mkTaskRequest (demo_write [("iface", PStr "eth0"); ("duration", PInt 30); ("filter", PStr "tcp port 80")])
    "iface=eth0 duration=30 filter=tcp port 80 file=<default>".

Example demo_built : build_task_payload demo_item = Done demo_task.
Proof. reflexivity. Qed.

(** C28: The server understands the client: the body of a request made of a task
    is a document, and the start request it gives is the one the task stands
    for, whatever the server's configuration and the connection: the texts as
    they are, [bpf] for a missing [filter], [file_pattern] over [file],
    [protocol_filter] over the file of [protocol], the number of seconds however
    it was written, 60 when there is none or none that fits an [int], the
    process mode for a process name and the mode of a process id only for
    [pid]. *)
Theorem client_request_understood {V} `{ClientJson V} (item : V) t :
  build_task_payload item = Done t ->
  exists dur doc, parse_duration item = Done dur /\ parse_body (Some (tr_payload t)) = Some (Some doc) /\
    forall strategy conn_id, start_request strategy (Some doc) conn_id = asked strategy item dur conn_id.
Proof.
  intros Et. destruct (payload_written item t Et) as (dur & doc & Hdur & Hdoc & Hw). exists dur, doc. split_and!; [done..|].
  intros strategy conn_id. by apply request_asked.
Qed.

Lemma client_request_understood_witness :
  exists doc, parse_body (Some (tr_payload demo_task)) = Some (Some doc) /\
    start_request None (Some doc) (mkObjId 7 2) =
      new_start_msg <| sm_iface := "eth0" |> <| sm_filter := "tcp port 80" |> <| sm_duration_sec := 30 |>
        <| sm_reply_target := mkObjId 7 2 |>.
Proof.
  destruct (client_request_understood demo_item demo_task) as (dur & doc & Hd & Hdoc & Ha); [reflexivity|].
  exists doc. split; [exact Hdoc|]. rewrite Ha. vm_compute in Hd. injection Hd as <-. reflexivity.
Defined.

Definition demo_post : string := post_text "127.0.0.1" 8080 "/api/capture/start" (tr_payload demo_task).

Lemma client_capture_answered_witness :
  exists reply wire, client_gets "127.0.0.1" 8080 "/api/capture/start" (tr_payload demo_task) wire (hr_status reply) (hr_body reply) "" /\
    hr_status reply = 200.
Proof.
  destruct (client_capture_answered (W := gmap string string) demo_http_env (mkObjId 7 2) demo_item demo_task "127.0.0.1" 8080
    "/api/capture/start" [(demo_http_env, Broken, str_take 20 demo_post)] (str_drop 20 demo_post) ∅ Broken 3 demo_manager_env
    (new_manager 1 [5] [] no_files))
    as [(code & body & wire & _ & Hr & _)|(dur & m & Hd & Em & _ & Hf)].
  - reflexivity.
  - repeat split.
  - done.
  - reflexivity.
  - apply str_take_drop.
  - apply Nat.ltb_lt. vm_compute. reflexivity.
  - apply Nat.leb_le. vm_compute. reflexivity.
  - reflexivity.
  - reflexivity.
  - apply new_manager_ok.
  - reflexivity.
  - exfalso. destruct (Hr _ (le_n _)) as (c & s' & E & _). set (n := String.length _) in E. clearbody n.
    vm_compute in E. discriminate.
  - vm_compute in Hd. injection Hd as <-. destruct Hf as (s' & out & reply & wire & Hmsg & Hrep & _ & _ & Hg).
    { subst m. vm_compute. reflexivity. }
    exists reply, wire. split; [exact Hg|]. subst m. vm_compute in Hmsg.
    injection Hmsg as <- <-. vm_compute in Hrep. injection Hrep as <-. reflexivity.
Defined.
