(* ===== verification/Logger.v ===== *)
(** * The log (Logger, legacy_core_common.cpp; start-up in main.cpp)

    The configuration text of the log, the levels, the files of the levels.  The
    file system is a map from paths to contents with the directories that
    exist; what [fopen], [fstat] and [mkdir] report at a call is part of the
    call's environment.  The mutex makes a call atomic. *)

From S2P Require Import Prelude CppString Lexer TaskTypes CaptureUtil CaptureManager Cleanup Config UrlHandlers HttpApi ProcessResolver HttpText.

(** ** Levels *)

Definition LOG_FATAL : Z := 1.
Definition LOG_WARNING : Z := 2.
Definition LOG_NOTICE : Z := 4.
Definition LOG_TRACE : Z := 8.
Definition LOG_DEBUG : Z := 16.

Definition getLevelName (level : Z) : string :=
  if level =? LOG_FATAL then "[FATAL] "
  else if level =? LOG_WARNING then "[WARNING] "
  else if level =? LOG_NOTICE then "[NOTICE] "
  else if level =? LOG_TRACE then "[TRACE] "
  else if level =? LOG_DEBUG then "[DEBUG] "
  else "[UNKNOWN]".

(** The texts [std::getline] reads up to [delim], one after the other. *)
Fixpoint getlines (delim : ascii) (cur s : string) : list string :=
  match s with
  | EmptyString => if is_empty cur then [] else [cur]
  | String c s => if Ascii.eqb c delim then cur :: getlines delim "" s else getlines delim (push_back cur c) s
  end.

(** One of the characters of [find_first_not_of] and [find_last_not_of]. *)
Definition blank (c : ascii) : bool :=
  Ascii.eqb c " " || Ascii.eqb c "009" || Ascii.eqb c "013" || Ascii.eqb c "010".

Fixpoint drop_start (p : ascii -> bool) (s : string) : string :=
  match s with String c s' => if p c then drop_start p s' else s | EmptyString => EmptyString end.

Definition trim_blanks (s : string) : string := drop_end blank (drop_start blank s).

Definition level_char (c : ascii) : ascii :=
  let ch := tolower c in if Ascii.eqb ch "|" || Ascii.eqb ch "+" then ","%char else ch.

Definition level_bits (item : string) : Z :=
  if String.eqb item "fatal" then LOG_FATAL
  else if String.eqb item "warning" || String.eqb item "warn" then LOG_WARNING
  else if String.eqb item "notice" || String.eqb item "info" then LOG_NOTICE
  else if String.eqb item "trace" then LOG_TRACE
  else if String.eqb item "debug" then LOG_DEBUG
  else let value := atoi item in if 0 <? value then value else 0.

Definition ParseLogLevelMask (level_text : string) (fallback : Z) : Z :=
  if is_empty level_text then fallback
  else
    let mask := foldl (fun mask token => let item := trim_blanks token in
                         if is_empty item then mask else Z.lor mask (level_bits item))
                      0 (getlines "," "" (str_map level_char level_text)) in
    if mask =? 0 then fallback else mask.

(** ** The state *)

(** [log_files_]: the path a stream was opened with, by level. *)
Record Logger := mkLogger {
  lg_log_path : string;
  lg_prefix : string;
  lg_max_file_size : Z;
  lg_log_level : Z;
  lg_initialized : bool;
  lg_files : gmap Z string;
}.

Definition new_logger : Logger := mkLogger "" "" (100 * 1024 * 1024) LOG_DEBUG false ∅.

Record log_fs := mkLogFs { lf_files : gmap string string; lf_dirs : gset string }.

(** [le_exe] is what [readlink] gives for /proc/self/exe. *)
Record log_env := mkLogEnv {
  le_exe : option string;
  le_time : string;
  le_stat : bool;
  le_open : bool;
  le_mkdir : bool;
}.

Definition createDirectory (e : log_env) (path : string) (w : log_fs) : bool * log_fs :=
  if is_empty path then (false, w)
  else if bool_decide (path ∈ lf_dirs w) then (true, w)
  else match lf_files w !! path with
       | Some _ => (false, w)
       | None => if le_mkdir e then (true, w <| lf_dirs := ({[path]} ∪ lf_dirs w) |>) else (false, w)
       end.

(** ** Configuration *)

Definition own_prefix (e : log_env) : string := match le_exe e with Some exe => basename exe | None => "app" end.

Definition init (e : log_env) (log_path prefix : option string) (max_file_size log_level : Z) (lw : Logger * log_fs)
    : Logger * log_fs :=
  let '(lg, w) := lw in
  let path := default "logs" log_path in
  (mkLogger path (default (own_prefix e) prefix) max_file_size log_level true (lg_files lg), snd (createDirectory e path w)).

Record log_options := mkLogOptions { lo_prefix : string; lo_size : Z; lo_level : Z }.

Definition kDefaultMaxSize : Z := 100 * 1024 * 1024.
Definition kDefaultLevel : Z := LOG_LEVEL_DEBUG.

(** [atol] *)
Definition atol (s : string) : Z := match strtol s with Some (v, _) => v | None => 0 end.

Definition log_option (kv : string) (o : log_options) : log_options :=
  match str_index "=" kv with
  | None => o
  | Some eq =>
      let key := trim_blanks (str_take eq kv) in
      let value := trim_blanks (str_drop (S eq) kv) in
      if is_empty key then o
      else if String.eqb key "prefix" then o <| lo_prefix := value |>
      else if String.eqb key "size" || String.eqb key "size_mb" then
        let size_mb := atol value in
        if 0 <? size_mb then o <| lo_size := u32 (u32 (u32 size_mb * 1024) * 1024) |> else o
      else if String.eqb key "level" then o <| lo_level := ParseLogLevelMask value kDefaultLevel |>
      else o
  end.

(** What [init_from_path] hands to [init]. *)
Definition resolve (config : string) : string * log_options :=
  if is_empty config then ("logs", mkLogOptions "" kDefaultMaxSize kDefaultLevel)
  else
    let '(input, options) :=
      match str_index "?" config with
      | Some qpos => (str_take qpos config, str_drop (S qpos) config)
      | None => (config, "")
      end in
    let '(directory, filename) :=
      match rfind_char "/" input with
      | Some slash => (str_take slash input, str_drop (S slash) input)
      | None => (input, "")
      end in
    let '(dir, prefix) :=
      match rfind_char "." filename with
      | Some dot => (if is_empty directory then "." else directory, str_take dot filename)
      | None => (if is_empty input then "logs" else input, "")
      end in
    (dir, foldl (flip log_option) (mkLogOptions prefix kDefaultMaxSize kDefaultLevel) (getlines "&" "" options)).

Definition init_from_path (e : log_env) (config : option string) (lw : Logger * log_fs) : Logger * log_fs :=
  let '(dir, o) := resolve (c_str (default "" config)) in
  init e (Some dir) (if is_empty (lo_prefix o) then None else Some (lo_prefix o)) (lo_size o) (lo_level o) lw.

Definition setLogLevel (level : Z) (lg : Logger) : Logger := lg <| lg_log_level := level |>.

(** ** Writing *)

Definition getLogFilePath (level : Z) (lg : Logger) : string :=
  lg_log_path lg +:+ "/" +:+ lg_prefix lg +:+ "_" +:+ getLevelName level +:+ ".log".

Definition file_size (path : string) (w : log_fs) : Z := Z.of_nat (String.length (default "" (lf_files w !! path))).

(** [fopen(path, "a")] when it succeeds *)
Definition open_append (path : string) (w : log_fs) : log_fs :=
  w <| lf_files := <[path := default "" (lf_files w !! path)]> (lf_files w) |>.

Definition append (path text : string) (w : log_fs) : log_fs :=
  w <| lf_files := <[path := default "" (lf_files w !! path) +:+ text]> (lf_files w) |>.

Definition checkRotateFile (e : log_env) (level : Z) (lw : Logger * log_fs) : Logger * log_fs :=
  let '(lg, w) := lw in
  let reopen :=
    let path := getLogFilePath level lg in
    if le_open e then (lg <| lg_files := <[level := path]> (lg_files lg) |>, open_append path w)
    else (lg <| lg_files := delete level (lg_files lg) |>, w) in
  match lg_files lg !! level with
  | Some path => if le_stat e && (file_size path w <? lg_max_file_size lg) then (lg, w) else reopen
  | None => reopen
  end.

Record log_call := mkLogCall {
  ll_env : log_env;
  ll_level : Z;
  ll_file : string;
  ll_line : Z;
  ll_func : string;
  ll_text : string;       (* the format with its arguments *)
}.

Definition log_line (c : log_call) : string :=
  le_time (ll_env c) +:+ getLevelName (ll_level c) +:+ " " +:+ ll_file c +:+ ":" +:+ fmt_d (ll_line c) +:+ " [" +:+ ll_func c +:+ "] "
    +:+ bounded (64 * 1024) (ll_text c) +:+ String "010" "".

Definition writeLog (c : log_call) (lw : Logger * log_fs) : Logger * log_fs :=
  let '(lg, w) := if lg_initialized (fst lw) then lw else init (ll_env c) (Some "logs") None kDefaultMaxSize LOG_DEBUG lw in
  if Z.land (lg_log_level lg) (ll_level c) =? 0 then (lg, w)
  else
    let '(lg, w) := checkRotateFile (ll_env c) (ll_level c) (lg, w) in
    (lg, match lg_files lg !! ll_level c with Some path => append path (log_line c) w | None => w end).

Definition write_all (calls : list log_call) (lw : Logger * log_fs) : Logger * log_fs := foldl (flip writeLog) lw calls.

(** ** Lemmas on texts *)

Lemma getlines_app delim cur t rest : has_char delim t = false ->
  getlines delim cur (t +:+ rest) = getlines delim (cur +:+ t) rest.
Proof.
  revert cur. induction t as [|c t IH]; intros cur Ht; [by rewrite str_app_nil, str_app_nil_r|].
  cbn [has_char] in Ht. apply orb_false_iff in Ht as [Hc Ht]. rewrite str_app_cons. cbn [getlines]. rewrite Hc, IH by done.
  by rewrite push_back_app.
Qed.

Lemma getlines_one delim t : has_char delim t = false -> t <> "" -> getlines delim "" t = [t].
Proof. intros Ht Hne. rewrite <- (str_app_nil_r t) at 1. rewrite getlines_app by done. cbn. by destruct t. Qed.

Lemma getlines_cons delim t rest : has_char delim t = false ->
  getlines delim "" (t +:+ String delim rest) = t :: getlines delim "" rest.
Proof. intros Ht. rewrite getlines_app by done. cbn [getlines]. by rewrite Ascii.eqb_refl, str_app_nil. Qed.

Lemma drop_start_all p s t : str_all p s = true -> drop_start p (s +:+ t) = drop_start p t.
Proof. induction s as [|c s IH]; [done|]. rewrite str_app_cons. simpl. rewrite andb_true_iff. intros [Hc Hs]. by rewrite Hc, IH. Qed.

Lemma drop_start_id p c s : p c = false -> drop_start p (String c s) = String c s.
Proof. cbn. by intros ->. Qed.

Lemma drop_end_all p s : str_all p s = true -> drop_end p s = "".
Proof. induction s as [|c s IH]; [done|]. simpl. rewrite andb_true_iff. intros [Hc Hs]. by rewrite IH, Hc. Qed.

Lemma drop_end_app p s t : str_all p t = true -> drop_end p (s +:+ t) = drop_end p s.
Proof.
  intros Ht. induction s as [|c s IH]; [rewrite str_app_nil; by rewrite drop_end_all|]. rewrite str_app_cons. cbn [drop_end]. by rewrite IH.
Qed.

(** A text without a blank at either end. *)
Definition trimmed (s : string) : Prop := trim_blanks s = s.

Lemma trim_padded a s b : str_all blank a = true -> str_all blank b = true -> trimmed s -> trim_blanks (a +:+ s +:+ b) = s.
Proof.
  intros Ha Hb Hs. unfold trimmed, trim_blanks in *. rewrite drop_start_all by done.
  destruct s as [|c s].
  - rewrite str_app_nil. rewrite <- (str_app_nil_r b), drop_start_all by done. done.
  - assert (blank c = false) as Hc.
    { destruct (blank c) eqn:E; [|done]. exfalso. cbn [drop_start] in Hs. rewrite E in Hs.
      assert (String.length (drop_end blank (drop_start blank s)) <= String.length s)%nat as Hl.
      { assert (forall p t, (String.length (drop_end p t) <= String.length t)%nat) as H1.
        { intros p t. induction t as [|x t IH]; [done|]. cbn [drop_end]. destruct (drop_end p t); [destruct (p x)|]; simpl in *; lia. }
        assert (forall p t, (String.length (drop_start p t) <= String.length t)%nat) as H2.
        { intros p t. induction t as [|x t IH]; [done|]. cbn [drop_start]. destruct (p x); simpl in *; lia. }
        etransitivity; [apply H1|apply H2]. }
      rewrite Hs in Hl. simpl in Hl. lia. }
    rewrite str_app_cons, drop_start_id by done. rewrite <- str_app_cons, drop_end_app by done. by rewrite drop_start_id in Hs.
Qed.

(** ** Levels *)

Definition level_names : list (string * Z) :=
  [("fatal", LOG_FATAL); ("warning", LOG_WARNING); ("warn", LOG_WARNING); ("notice", LOG_NOTICE); ("info", LOG_NOTICE);
   ("trace", LOG_TRACE); ("debug", LOG_DEBUG)].

(** A name in any case, with blanks around it. *)
Definition names_level (t : string) (bit : Z) : Prop :=
  exists a w b, t = a +:+ w +:+ b /\ str_all blank a = true /\ str_all blank b = true /\ (str_map tolower w, bit) ∈ level_names.

(** Names with separators between them. *)
Fixpoint level_list (t : string) (l : list (ascii * string)) : string :=
  match l with [] => t | (s, t') :: l => t +:+ String s (level_list t' l) end.

Lemma level_char_lower s : str_map level_char s = str_map (fun c => if Ascii.eqb c "|" || Ascii.eqb c "+" then ","%char else c) (str_map tolower s).
Proof. induction s as [|c s IH]; [done|]. cbn. by rewrite IH. Qed.

Lemma blank_level_char s : str_all blank s = true -> str_map level_char s = s /\ has_char "," s = false.
Proof.
  induction s as [|c s IH]; [done|]. simpl. rewrite andb_true_iff. intros [Hc Hs]. destruct (IH Hs) as [-> ->].
  unfold blank in Hc. repeat (apply orb_true_iff in Hc as [Hc|Hc]); apply Ascii.eqb_eq in Hc; by subst c.
Qed.

Lemma level_token t bit : names_level t bit ->
  exists item, trim_blanks (str_map level_char t) = item /\ item <> "" /\ level_bits item = bit /\
    has_char "," (str_map level_char t) = false /\ str_map level_char t <> "" /\ 0 < bit.
Proof.
  intros (a & w & b & -> & Ha & Hb & Hw). rewrite !str_map_app. destruct (blank_level_char a Ha) as [-> Hca].
  destruct (blank_level_char b Hb) as [-> Hcb]. rewrite level_char_lower.
  assert (forall lw, lw <> "" -> has_char "," lw = false -> trimmed lw -> level_bits lw = bit -> 0 < bit ->
    exists item, trim_blanks (a +:+ lw +:+ b) = item /\ item <> "" /\ level_bits item = bit /\
      has_char "," (a +:+ lw +:+ b) = false /\ a +:+ lw +:+ b <> "" /\ 0 < bit) as Hall.
  { intros lw Hne Hc Ht Hb' Hbit. exists lw. split; [by apply trim_padded|]. split_and!; try done.
    - by rewrite !has_char_app, Hca, Hcb, Hc.
    - destruct a; [|done]. by destruct lw. }
  unfold level_names in Hw. repeat (apply elem_of_cons in Hw as [[= -> ->]|Hw]; [by apply Hall|]). by apply elem_of_nil in Hw.
Qed.

(** The names of levels, level_list by commas, bars or plus signs, give the
    union of their bits, whatever the default. *)
Theorem level_names_read t bit l fallback :
  names_level t bit -> Forall (fun x => fst (fst x) ∈ [","%char; "|"%char; "+"%char] /\ names_level (snd (fst x)) (snd x)) l ->
  ParseLogLevelMask (level_list t (map fst l)) fallback = foldl Z.lor bit (map snd l).
Proof.
  intros Ht Hl. unfold ParseLogLevelMask.
  set (f := fun mask token => let item := trim_blanks token in if is_empty item then mask else Z.lor mask (level_bits item)).
  assert (forall t bit, names_level t bit -> forall acc, 0 <= acc ->
    foldl f acc (getlines "," "" (str_map level_char (level_list t (map fst l)))) = foldl Z.lor (Z.lor acc bit) (map snd l)) as Hf.
  { clear t bit Ht. induction Hl as [|[[s t'] bit'] l [Hs Ht'] Hl IH]; intros t bit Ht acc Hacc;
      destruct (level_token t bit Ht) as (item & Ei & Hne & Hbits & Hc & Hne' & Hpos); cbn [map level_list fst snd].
    - rewrite getlines_one by done. cbn [foldl]. unfold f. cbv zeta. rewrite Ei, Hbits. by destruct item.
    - rewrite str_map_app. cbn [str_map].
      assert (level_char s = ","%char) as ->.
      { cbn [fst] in Hs. repeat (apply elem_of_cons in Hs as [->|Hs]; [done|]). by apply elem_of_nil in Hs. }
      rewrite getlines_cons by done. cbn [foldl]. rewrite (IH t' bit' Ht').
      + f_equal. f_equal. unfold f. cbv zeta. rewrite Ei, Hbits. by destruct item.
      + unfold f. cbv zeta. rewrite Ei, Hbits. destruct item; [done|]. cbn [is_empty]. apply Z.lor_nonneg. lia. }
  assert (is_empty (level_list t (map fst l)) = false) as ->.
  { destruct (level_token t bit Ht) as (_ & _ & _ & _ & _ & Hne & _). destruct t; [done|]. by destruct l as [|[[??]?]]. }
  rewrite (Hf t bit Ht 0) by done. rewrite Z.lor_0_l.
  destruct (level_token t bit Ht) as (_ & _ & _ & _ & _ & _ & Hpos).
  assert (forall m, 0 < m -> 0 < foldl Z.lor m (map snd l)) as Hp.
  { clear -Hl. induction Hl as [|[[s t'] bit'] l [_ Ht'] Hl IH]; intros m Hm; [done|]. cbn [map foldl snd]. apply IH.
    destruct (level_token t' bit' Ht') as (_ & _ & _ & _ & _ & _ & Hpos). cbn in *.
    assert (0 <= Z.lor m bit') by (apply Z.lor_nonneg; lia). assert (Z.lor m bit' <> 0) by (rewrite Z.lor_eq_0_iff; lia). lia. }
  destruct (Z.eqb_spec (foldl Z.lor bit (map snd l)) 0) as [E|]; [|done]. specialize (Hp bit Hpos). lia.
Qed.

(** ** The configured log *)

Lemma digits_plain s : str_all is_digit s = true -> str_map level_char s = s /\ has_char "," s = false /\ trimmed s.
Proof.
  intros Hs. assert (forall c, is_digit c = true -> level_char c = c /\ Ascii.eqb c "," = false /\ blank c = false) as Hc.
  { intros c Hd. by_class c (fun c => negb (is_digit c) || (Ascii.eqb (level_char c) c && negb (Ascii.eqb c ",") && negb (blank c))).
    rewrite Hd in Hclass. cbn [negb orb] in Hclass. rewrite !andb_true_iff, !negb_true_iff in Hclass.
    destruct Hclass as [[E%Ascii.eqb_eq ?] ?]. done. }
  assert (str_map level_char s = s /\ has_char "," s = false /\ str_all (fun c => negb (blank c)) s = true) as (H1 & H2 & H3).
  { induction s as [|c s IH]; [done|]. simpl in Hs. apply andb_true_iff in Hs as [Hd Hs]. destruct (IH Hs) as (E1 & E2 & E3).
    destruct (Hc c Hd) as (F1 & F2 & F3). cbn. rewrite E1, E2, E3, F1, F2, F3. done. }
  split; [done|]. split; [done|]. unfold trimmed, trim_blanks.
  assert (drop_start blank s = s) as ->; [|by apply drop_end_id].
  destruct s as [|c s]; [done|]. simpl in H3. apply andb_true_iff in H3 as [H3 _]. apply negb_true_iff in H3. by apply drop_start_id.
Qed.

Lemma level_bits_number z : 0 < z < 2 ^ 31 -> level_bits (fmt_d z) = z.
Proof.
  intros Hz. destruct (fmt_u_digits z ltac:(lia)) as (Hd & _ & Hne).
  assert (fmt_d z = fmt_u z) as E by (unfold fmt_d; destruct (Z.ltb_spec z 0); [lia|done]).
  unfold level_bits. rewrite atoi_fmt_d by (unfold int_range; lia). rewrite E.
  destruct (fmt_u z) as [|c s]; [done|]. simpl in Hd. apply andb_true_iff in Hd as [Hc _].
  assert (forall w, match w with String d _ => is_digit d = false | _ => True end -> String.eqb (String c s) w = false) as Hw.
  { intros [|d w] Hdw; [done|]. cbn. destruct (Ascii.eqb_spec c d) as [->|]; [congruence|done]. }
  rewrite !Hw by done. cbn [orb]. destruct (Z.ltb_spec 0 z); [done|lia].
Qed.

Lemma level_number z fallback : 0 < z < 2 ^ 31 -> ParseLogLevelMask (fmt_d z) fallback = z.
Proof.
  intros Hz. destruct (fmt_u_digits z ltac:(lia)) as (Hd & _ & Hne).
  assert (fmt_d z = fmt_u z) as E by (unfold fmt_d; destruct (Z.ltb_spec z 0); [lia|done]).
  unfold ParseLogLevelMask. rewrite E. destruct (digits_plain _ Hd) as (-> & Hc & Ht).
  assert (is_empty (fmt_u z) = false) as -> by (by destruct (fmt_u z)).
  rewrite getlines_one by done. cbn [foldl]. rewrite Ht. assert (is_empty (fmt_u z) = false) as -> by (by destruct (fmt_u z)).
  rewrite <- E, level_bits_number, Z.lor_0_l by done. by destruct (Z.eqb_spec z 0); [lia|].
Qed.

Lemma log_option_key key value o : has_char "=" key = false -> key <> "" -> trimmed key -> trimmed value ->
  log_option (key +:+ String "=" value) o =
    if String.eqb key "prefix" then o <| lo_prefix := value |>
    else if String.eqb key "size" || String.eqb key "size_mb" then
      if 0 <? atol value then o <| lo_size := u32 (u32 (u32 (atol value) * 1024) * 1024) |> else o
    else if String.eqb key "level" then o <| lo_level := ParseLogLevelMask value kDefaultLevel |>
    else o.
Proof.
  intros He Hne Hk Hv. unfold log_option. rewrite str_index_here by done. rewrite str_take_app, str_drop_S_app, Hk, Hv.
  by destruct key.
Qed.

(** A configured path: a directory, a name, a suffix. *)
Record log_path_ok (dir base ext prefix : string) : Prop := {
  lp_query : has_char "?" (dir +:+ "/" +:+ base +:+ "." +:+ ext) = false;
  lp_nul : has_char "000" (dir +:+ "/" +:+ base +:+ "." +:+ ext) = false;
  lp_slash : has_char "/" (base +:+ "." +:+ ext) = false;
  lp_dot : has_char "." ext = false;
  lp_prefix : prefix <> "" /\ has_char "&" prefix = false /\ has_char "000" prefix = false /\ trimmed prefix;
}.

(** The log is written where the configuration says: from the text the server
    configuration hands over, the directory of the path, the prefix, the size in
    megabytes and the mask; the file name of the path is not used. *)
Theorem configured_log_read dir base ext prefix size level :
  log_path_ok dir base ext prefix -> 0 < size < 2 ^ 32 -> 0 < level < 2 ^ 31 ->
  resolve (c_str (log_path_of (mkLogConfig (dir +:+ "/" +:+ base +:+ "." +:+ ext) prefix size level))) =
    (if is_empty dir then "." else dir, mkLogOptions prefix (u32 (u32 (u32 size * 1024) * 1024)) level).
Proof.
  intros [Hq Hn Hs Hd (Hp & Hpa & Hpn & Hpt)] Hsize Hlevel. set (path := dir +:+ "/" +:+ base +:+ "." +:+ ext) in *.
  assert (is_empty path = false) as Hpe by (subst path; by destruct dir).
  destruct (fmt_u_digits size ltac:(lia)) as (Hsd & _ & _).
  assert (fmt_d level = fmt_u level) as El by (unfold fmt_d; destruct (Z.ltb_spec level 0); [lia|done]).
  assert (fmt_d size = fmt_u size) as Esz by (unfold fmt_d; destruct (Z.ltb_spec size 0); [lia|done]).
  destruct (fmt_u_digits level ltac:(lia)) as (Hld & _ & _).
  assert (log_path_of (mkLogConfig path prefix size level) =
    path +:+ String "?" (("prefix" +:+ String "=" prefix) +:+ String "&" (("size_mb" +:+ String "=" (fmt_u size)) +:+ String "&" ("level" +:+ String "=" (fmt_d level))))) as E.
  { unfold log_path_of. cbn [lc_path lc_prefix lc_size_mb lc_level]. rewrite Hpe, Hq. destruct (is_empty_spec prefix); [done|].
    destruct (Z.ltb_spec 0 size); [|lia]. destruct (Z.ltb_spec 0 level); [|lia]. unfold add_option. cbn [is_empty].
    rewrite !str_app_assoc. done. }
  rewrite E. set (opts := ("prefix" +:+ String "=" prefix) +:+ _).
  assert (has_char "000" (path +:+ String "?" opts) = false) as Hnul.
  { subst opts. rewrite !has_char_app. cbn [has_char]. rewrite !has_char_app. cbn [has_char]. rewrite !has_char_app. cbn [has_char].
    rewrite !has_char_app. cbn [has_char]. rewrite Hn, Hpn, El, !digits_no_char by done. done. }
  rewrite c_str_id by exact Hnul. unfold resolve.
  assert (is_empty (path +:+ String "?" opts) = false) as -> by (by destruct path).
  rewrite str_index_here, str_take_app, str_drop_S_app by done.
  assert (rfind_char "/" path = Some (String.length dir)) as ->.
  { subst path. change ("/" +:+ ?x) with (String "/" x). by apply rfind_char_app. }
  assert (str_take (String.length dir) path = dir) as -> by (subst path; apply str_take_app).
  assert (str_drop (S (String.length dir)) path = base +:+ String "." ext) as -> by (subst path; apply str_drop_S_app).
  rewrite rfind_char_app by done. rewrite str_take_app. f_equal.
  subst opts. rewrite getlines_cons by (by rewrite !has_char_app; cbn [has_char]).
  rewrite getlines_cons by (rewrite !has_char_app; cbn [has_char]; by rewrite digits_no_char).
  rewrite getlines_one by (try done; rewrite !has_char_app; cbn [has_char]; by rewrite El, digits_no_char).
  cbn [foldl flip]. unfold flip. rewrite El.
  destruct (digits_plain _ Hsd) as (_ & _ & Hst). destruct (digits_plain _ Hld) as (_ & _ & Hlt).
  rewrite !log_option_key by done.
  change (String.eqb "prefix" "prefix") with true. change (String.eqb "size_mb" "prefix") with false.
  change (String.eqb "size_mb" "size" || String.eqb "size_mb" "size_mb") with true. change (String.eqb "level" "prefix") with false.
  change (String.eqb "level" "size" || String.eqb "level" "size_mb") with false. change (String.eqb "level" "level") with true.
  cbv iota. rewrite <- El, level_number by done.
  assert (atol (fmt_u size) = size) as ->.
  { unfold atol. rewrite <- Esz, strtol_fmt_d by (unfold LONG_MIN, LONG_MAX; lia). done. }
  destruct (Z.ltb_spec 0 size); [|lia]. done.
Qed.

(** ** What is written *)

Definition LEVELS : list Z := [LOG_FATAL; LOG_WARNING; LOG_NOTICE; LOG_TRACE; LOG_DEBUG].

(** The calls a logger writes, and to which file. *)
Definition enabled (lg : Logger) (c : log_call) : bool := negb (Z.land (lg_log_level lg) (ll_level c) =? 0).

(** Where the lines of a level go: to the stream that is open, else to a file
    that is opened. *)
Definition log_target (lg : Logger) (level : Z) : string := default (getLogFilePath level lg) (lg_files lg !! level).

Definition content (path : string) (w : log_fs) : string := default "" (lf_files w !! path).

(** Every stream is open on the file the configuration names for its level. *)
Definition streams_current (lg : Logger) : Prop :=
  forall level path, lg_files lg !! level = Some path -> path = getLogFilePath level lg.

Lemma level_file_inj lg l l' : l ∈ LEVELS -> l' ∈ LEVELS -> getLogFilePath l lg = getLogFilePath l' lg -> l = l'.
Proof.
  unfold getLogFilePath. intros Hl Hl' E.
  assert (getLevelName l +:+ ".log" = getLevelName l' +:+ ".log") as E'.
  { by do 4 apply str_app_cancel in E. }
  clear E. unfold LEVELS in *.
  repeat (apply elem_of_cons in Hl as [->|Hl]; [repeat (apply elem_of_cons in Hl' as [->|Hl']; [done|]); by apply elem_of_nil in Hl'|]).
  by apply elem_of_nil in Hl.
Qed.

Lemma concat_cons x l : String.concat "" (x :: l) = x +:+ String.concat "" l.
Proof. destruct l; [by rewrite str_app_nil_r|done]. Qed.

Lemma set_files (w : log_fs) m : lf_files (w <| lf_files := m |>) = m.
Proof. by destruct w. Qed.

Lemma set_streams (lg : Logger) m : lg_files (lg <| lg_files := m |>) = m.
Proof. by destruct lg. Qed.

Lemma content_append path text w p :
  content p (append path text w) = if decide (p = path) then content p w +:+ text else content p w.
Proof.
  unfold content, append. rewrite set_files. destruct (decide (p = path)) as [->|Hne]; [by rewrite lookup_insert_eq|by rewrite lookup_insert_ne].
Qed.

Lemma content_open path w p : content p (open_append path w) = content p w.
Proof.
  unfold content, open_append. rewrite set_files. destruct (decide (p = path)) as [->|Hne]; [by rewrite lookup_insert_eq|by rewrite lookup_insert_ne].
Qed.

(** The same configuration, other streams. *)
Definition same_log (lg lg' : Logger) : Prop :=
  lg_log_path lg' = lg_log_path lg /\ lg_prefix lg' = lg_prefix lg /\ lg_log_level lg' = lg_log_level lg /\
  lg_initialized lg' = lg_initialized lg.

Lemma same_path lg lg' level : same_log lg lg' -> getLogFilePath level lg' = getLogFilePath level lg.
Proof. unfold getLogFilePath. by intros (-> & -> & _). Qed.

Lemma check_rotate e level lg w lg' w' :
  streams_current lg -> le_open e = true -> checkRotateFile e level (lg, w) = (lg', w') ->
  same_log lg lg' /\ streams_current lg' /\ lg_files lg' !! level = Some (getLogFilePath level lg) /\
  forall p, content p w' = content p w.
Proof.
  intros Hs Ho. unfold checkRotateFile. rewrite Ho.
  assert (forall lg1 w1, (lg <| lg_files := <[level := getLogFilePath level lg]> (lg_files lg) |>, open_append (getLogFilePath level lg) w) = (lg1, w1) ->
    same_log lg lg1 /\ streams_current lg1 /\ lg_files lg1 !! level = Some (getLogFilePath level lg) /\ forall p, content p w1 = content p w) as Hopen.
  { intros lg1 w1 E. apply pair_eq in E as [<- <-]. split; [done|]. split; [|split; [by rewrite set_streams, lookup_insert_eq|intros p; apply content_open]].
    intros l p. rewrite set_streams. destruct (decide (l = level)) as [->|Hne]; [rewrite lookup_insert_eq; by intros [= <-]|].
    rewrite lookup_insert_ne by done. apply Hs. }
  destruct (lg_files lg !! level) as [path|] eqn:E; [|apply Hopen].
  destruct (_ && _); [|apply Hopen]. intros [= <- <-]. split; [done|]. split; [done|]. split; [|done]. by rewrite E, (Hs _ _ E).
Qed.

Lemma write_line c lg w lg' w' :
  lg_initialized lg = true -> streams_current lg -> le_open (ll_env c) = true -> writeLog c (lg, w) = (lg', w') ->
  same_log lg lg' /\ streams_current lg' /\
  forall p, content p w' =
    if enabled lg c && bool_decide (p = getLogFilePath (ll_level c) lg) then content p w +:+ log_line c else content p w.
Proof.
  intros Hi Hs Ho. unfold writeLog, enabled. cbn [fst]. rewrite Hi. destruct (Z.land _ _ =? 0); cbn [negb andb].
  - intros [= <- <-]. by split.
  - destruct (checkRotateFile (ll_env c) (ll_level c) (lg, w)) as [lg1 w1] eqn:E.
    destruct (check_rotate _ _ _ _ _ _ Hs Ho E) as (H1 & H2 & H3 & H4). rewrite H3. intros [= <- <-]. split; [done|]. split; [done|].
    intros p. rewrite content_append, H4. case_decide as Hd; case_bool_decide; done.
Qed.

(** Nothing that is logged is lost, and nothing is ever removed: after any
    calls, as long as files open, each file has grown by the lines of the calls
    of its level that the mask lets through, in their order, and no other file
    has changed.  The limit on the size of a file has no part in it. *)
Theorem log_lines_appended calls lg w lg' w' :
  lg_initialized lg = true -> streams_current lg ->
  Forall (fun c => ll_level c ∈ LEVELS /\ le_open (ll_env c) = true) calls ->
  write_all calls (lg, w) = (lg', w') ->
  (forall level, level ∈ LEVELS ->
     content (getLogFilePath level lg) w' =
       content (getLogFilePath level lg) w +:+
         String.concat "" (map log_line (filter (fun c => enabled lg c = true /\ ll_level c = level) calls))) /\
  (forall p, (forall level, level ∈ LEVELS -> p <> getLogFilePath level lg) -> content p w' = content p w).
Proof.
  intros Hi Hs Hc. revert lg w Hi Hs. induction Hc as [|c calls [Hl Ho] Hc IH]; intros lg w Hi Hs E.
  - cbn in E. injection E as <- <-. split; [|done]. intros level _. by rewrite str_app_nil_r.
  - cbn [write_all foldl] in E. unfold flip at 2 in E. destruct (writeLog c (lg, w)) as [lg1 w1] eqn:E1.
    destruct (write_line c lg w lg1 w1 Hi Hs Ho E1) as (Hsame & Hs1 & Hw).
    destruct (IH lg1 w1) as [H1 H2]; [by destruct Hsame as (_ & _ & _ & ->)|done|exact E|].
    assert (forall c', enabled lg1 c' = enabled lg c') as He by (intros c'; unfold enabled; by destruct Hsame as (_ & _ & -> & _)).
    split.
    + intros level Hlevel. specialize (H1 level Hlevel). rewrite (same_path _ _ _ Hsame) in H1. rewrite H1, Hw.
      rewrite (list_filter_iff _ (fun c => enabled lg c = true /\ ll_level c = level)) by (intros c'; by rewrite He).
      rewrite filter_cons. destruct (enabled lg c) eqn:Ec; cbn [andb].
      * case_bool_decide as Hp.
        -- apply level_file_inj in Hp; [|done..]. subst level. rewrite decide_True by done. cbn [map].
           by rewrite concat_cons, str_app_assoc.
        -- rewrite decide_False; [done|]. intros [_ <-]. by apply Hp.
      * rewrite decide_False; [done|]. by intros [??].
    + intros p Hp. rewrite H2; [|intros level Hlevel; rewrite (same_path _ _ _ Hsame); by apply Hp]. rewrite Hw.
      rewrite (bool_decide_false (p = _)) by (by apply Hp). by rewrite andb_false_r.
Qed.

Definition demo_log_env : log_env := mkLogEnv (Some "/opt/rx/rxtracenetcap") "2024-01-01 00:00:00" true true true.
Definition demo_call (level : Z) (text : string) : log_call := mkLogCall demo_log_env level "a.cpp" 7 "f" text.

Definition demo_log : Logger := mkLogger "logs" "rx" 10 (LOG_NOTICE + LOG_FATAL) true ∅.
Definition demo_log_fs : log_fs := mkLogFs ∅ {["logs"]}.

Definition demo_calls : list log_call :=
  [demo_call LOG_NOTICE "one"; demo_call LOG_DEBUG "two"; demo_call LOG_NOTICE "three"].

Lemma log_lines_appended_witness :
  content "logs/rx_[NOTICE] .log" (snd (write_all demo_calls (demo_log, demo_log_fs))) =
  log_line (demo_call LOG_NOTICE "one") +:+ log_line (demo_call LOG_NOTICE "three").
Proof.
  destruct (write_all demo_calls (demo_log, demo_log_fs)) as [lg' w'] eqn:E. cbn [snd].
  destruct (log_lines_appended demo_calls demo_log demo_log_fs lg' w') as [H1 _].
  - reflexivity.
  - intros level path Hl. exfalso. vm_compute in Hl. discriminate.
  - repeat constructor.
  - exact E.
  - change (content "logs/rx_[NOTICE] .log" w') with (content (getLogFilePath LOG_NOTICE demo_log) w').
    rewrite (H1 LOG_NOTICE) by (right; right; left). reflexivity.
Defined.

(** Before the log is configured only debugging messages are written: the
    default mask is one bit. *)
Lemma early_messages_lost c lg w :
  lg_initialized lg = false -> ll_level c ∈ [LOG_FATAL; LOG_WARNING; LOG_NOTICE; LOG_TRACE] ->
  lf_files (snd (writeLog c (lg, w))) = lf_files w.
Proof.
  intros Hi Hl. unfold writeLog. cbn [fst]. rewrite Hi. unfold init. cbn [lg_log_level].
  assert (lf_files (snd (createDirectory (ll_env c) "logs" w)) = lf_files w) as Hf.
  { unfold createDirectory. cbn [is_empty]. destruct (bool_decide _); [done|]. destruct (lf_files w !! "logs"); [done|].
    destruct (le_mkdir _); [by destruct w|done]. }
  repeat (apply elem_of_cons in Hl as [->|Hl]; [exact Hf|]). by apply elem_of_nil in Hl.
Qed.

(** A stream that is open stays on its file when the log is configured anew. *)
Lemma stream_kept e config lg w level : lg_files (fst (init_from_path e config (lg, w))) !! level = lg_files lg !! level.
Proof. unfold init_from_path. by destruct (resolve _). Qed.

Lemma level_names_read_witness :
  ParseLogLevelMask " Warn|FATAL + info" 31 = 7.
Proof.
  refine (level_names_read " Warn" LOG_WARNING [("|"%char, "FATAL ", LOG_FATAL); ("+"%char, " info", LOG_NOTICE)] 31 _ _).
  - exists " ", "Warn", "". split_and!; [reflexivity..|apply (bool_decide_unpack _); reflexivity].
  - repeat constructor; cbn [fst snd]; try (apply (bool_decide_unpack _); reflexivity).
    + exists "", "FATAL", " ". split_and!; [reflexivity..|apply (bool_decide_unpack _); reflexivity].
    + exists " ", "info", "". split_and!; [reflexivity..|apply (bool_decide_unpack _); reflexivity].
Defined.

Lemma configured_log_read_witness :
  resolve (c_str (log_path_of new_log_config)) = ("logs", mkLogOptions "rxtrace" (100 * 1024 * 1024) 31).
Proof.
  refine (configured_log_read "logs" "rxtracenetcap" "log" "rxtrace" 100 31 _ _ _); [|lia|lia].
  constructor; [reflexivity..|]. split_and!; [discriminate|reflexivity..].
Defined.
