(* ===== verification/Channel.v ===== *)
(** * The message queue of a thread (core/legacy_core_net.cpp, [channel_data_process])

    Every thread has a socket pair and two queues.  A sender appends its message
    to one queue under a lock and writes a tag into the socket; the thread, woken
    by the socket, swaps a queue out under the lock and handles the messages.
    The program is a system of one such reader and any number of senders: a step
    is a call of [put_msg] (atomic, it holds the lock), or one piece of the
    reader's [real_recv].  The content of the socket is a number of bytes, since
    the reader only counts them. *)

From S2P Require Import Prelude TaskTypes Messages.

(** [sizeof(CHANNEL_MSG_TAG)]: a letter and its NUL. *)
Definition TAG_SIZE : nat := 2.
(** [MAX_RECV_SIZE] *)
Definition RECV_SIZE : nat := Z.to_nat 20480.

Section Channel.
Context {M : Type}.

(** [normal_obj_msg]: the object a message is for, and the message. *)
Definition obj_msg : Type := Z * M.

(** [_queue], [_current], the socket's unread bytes and [_recv_buf]. *)
Record channel := mkChannel {
  ch_queue0 : list obj_msg;
  ch_queue1 : list obj_msg;
  ch_current : bool;
  ch_socket : nat;
  ch_recv_buf : nat;
}.

Definition new_channel : channel := mkChannel [] [] false 0 0.

Definition queue_at (i : bool) (c : channel) : list obj_msg := if i then ch_queue1 c else ch_queue0 c.

Definition set_queue (i : bool) (l : list obj_msg) (c : channel) : channel :=
  if i then c <| ch_queue1 := l |> else c <| ch_queue0 := l |>.

(** [put_msg]; [taken] is what the socket takes of the tag, none when it is
    full: the result of [send] is not looked at. *)
Definition put_msg (obj_id : Z) (p_msg : M) (taken : nat) (c : channel) : channel :=
  let idle := negb (ch_current c) in
  set_queue idle (queue_at idle c ++ [(obj_id, p_msg)]) c <| ch_socket ::= fun n => (n + taken)%nat |>.

(** The read of [real_recv]: as much as the buffer has room for. *)
Definition recv_tags (c : channel) : channel :=
  let got := Nat.min (ch_socket c) (RECV_SIZE - ch_recv_buf c) in
  c <| ch_socket ::= (fun n => n - got)%nat |> <| ch_recv_buf ::= Nat.add got |>.

(** The locked part of [process_recv_buf]: switch to the other queue when this
    one is empty, and take it. *)
Definition take_queue (c : channel) : list obj_msg * channel :=
  let c := match queue_at (ch_current c) c with [] => c <| ch_current := negb (ch_current c) |> | _ => c end in
  (queue_at (ch_current c) c, set_queue (ch_current c) [] c).

(** The end of [real_recv], after [process_recv_buf] returned the size of the
    tags of [handled] messages. *)
Definition erase_tags (handled : nat) (c : channel) : channel :=
  c <| ch_recv_buf := (ch_recv_buf c - handled * TAG_SIZE)%nat |>.

(** ** The reader and the senders *)

Inductive reader :=
  | Waiting                                       (* in epoll_wait *)
  | Received                                      (* has read the socket *)
  | Handling (todo : list obj_msg) (handled : nat).

Record system := mkSystem { sy_channel : channel; sy_reader : reader }.

Inductive event :=
  | Put (m : obj_msg)
  | Handled (m : obj_msg)
  | Threw (m : obj_msg)     (* the handler of this message threw *)
  | Lost (m : obj_msg).     (* behind it in the batch *)

(** A socket with nothing in it takes at least one byte. *)
Definition tag_taken (c : channel) (taken : nat) : Prop :=
  (taken <= TAG_SIZE)%nat /\ (ch_socket c = 0 -> 0 < taken)%nat.

Inductive step : system -> list event -> system -> Prop :=
  | step_put c r id m taken :
      tag_taken c taken -> step (mkSystem c r) [Put (id, m)] (mkSystem (put_msg id m taken c) r)
  | step_recv c :
      (0 < ch_socket c)%nat -> step (mkSystem c Waiting) [] (mkSystem (recv_tags c) Received)
  | step_take c :
      step (mkSystem c Received) [] (mkSystem (snd (take_queue c)) (Handling (fst (take_queue c)) 0))
  | step_handle c m todo n :
      step (mkSystem c (Handling (m :: todo) n)) [Handled m] (mkSystem c (Handling todo (S n)))
  | step_throw c m todo n :
      step (mkSystem c (Handling (m :: todo) n)) (Threw m :: map Lost todo) (mkSystem c Waiting)
  | step_done c n :
      step (mkSystem c (Handling [] n)) [] (mkSystem (erase_tags n c) Waiting).

Inductive steps : system -> list event -> system -> Prop :=
  | steps_nil s : steps s [] s
  | steps_snoc s tr s1 ev s2 : steps s tr s1 -> step s1 ev s2 -> steps s (tr ++ ev) s2.

Definition puts (tr : list event) : list obj_msg := omap (fun e => match e with Put m => Some m | _ => None end) tr.

(** What became of the messages, in order. *)
Definition outcomes (tr : list event) : list obj_msg :=
  omap (fun e => match e with Handled m | Threw m | Lost m => Some m | Put _ => None end) tr.

Definition threw (tr : list event) : Prop := exists m, Threw m ∈ tr.

Definition lost (tr : list event) : list obj_msg := omap (fun e => match e with Lost m => Some m | _ => None end) tr.

(** The messages on their way. *)
Definition pending (s : system) : list obj_msg :=
  match sy_reader s with Handling todo _ => todo | _ => [] end ++
  queue_at (negb (ch_current (sy_channel s))) (sy_channel s).

(** ** The invariant *)

Record channel_inv (s : system) : Prop := {
  (* the queue a reader would take first is empty *)
  inv_current : queue_at (ch_current (sy_channel s)) (sy_channel s) = [];
  (* a waiting message has the reader's attention *)
  inv_woken : queue_at (negb (ch_current (sy_channel s))) (sy_channel s) <> [] ->
    (0 < ch_socket (sy_channel s))%nat \/ sy_reader s = Received;
}.

Lemma queue_set_same i l c : queue_at i (set_queue i l c) = l.
Proof. by destruct i, c. Qed.

Lemma queue_set_other i l c : queue_at (negb i) (set_queue i l c) = queue_at (negb i) c.
Proof. by destruct i, c. Qed.

Lemma put_queues id m taken c :
  let c' := put_msg id m taken c in
  ch_current c' = ch_current c /\ queue_at (ch_current c') c' = queue_at (ch_current c) c /\
  queue_at (negb (ch_current c')) c' = queue_at (negb (ch_current c)) c ++ [(id, m)] /\
  ch_socket c' = (ch_socket c + taken)%nat.
Proof. destruct c as [? ? [] ? ?]; by cbn. Qed.

Lemma take_queues c :
  queue_at (ch_current c) c = [] ->
  fst (take_queue c) = queue_at (negb (ch_current c)) c /\
  let c' := snd (take_queue c) in queue_at (ch_current c') c' = [] /\ queue_at (negb (ch_current c')) c' = [].
Proof. destruct c as [q0 q1 [] so rb]; cbn; intros ->; by cbn. Qed.

Lemma step_inv s ev s' : channel_inv s -> step s ev s' -> channel_inv s'.
Proof.
  intros [Hc Hw] Hs. destruct Hs as [c r id m taken [_ Ht]|c Hso|c|c m todo n|c m todo n|c n]; cbn [sy_channel sy_reader] in *.
  - destruct (put_queues id m taken c) as (E1 & E2 & E3 & E4). constructor; cbn [sy_channel sy_reader]; [by rewrite E2|].
    intros _. left. rewrite E4. lia.
  - constructor; cbn [sy_channel sy_reader]; [by destruct c as [? ? [] ? ?]|]. auto.
  - destruct (take_queues c Hc) as (_ & E1 & E2). constructor; cbn [sy_channel sy_reader]; [done|]. by rewrite E2.
  - constructor; cbn [sy_channel sy_reader]; [done|]. intros Hq. by destruct (Hw Hq); [left|].
  - constructor; cbn [sy_channel sy_reader]; [done|]. intros Hq. by destruct (Hw Hq); [left|].
  - assert (forall i, queue_at i (erase_tags n c) = queue_at i c) as Eq by (by intros []; destruct c).
    assert (ch_current (erase_tags n c) = ch_current c /\ ch_socket (erase_tags n c) = ch_socket c) as [E1 E2] by (by destruct c).
    constructor; cbn [sy_channel sy_reader]; rewrite ?E2, E1, Eq; [done|]. intros Hq. by destruct (Hw Hq); [left|].
Qed.

Lemma puts_app a b : puts (a ++ b) = puts a ++ puts b.
Proof. apply omap_app. Qed.
Lemma outcomes_app a b : outcomes (a ++ b) = outcomes a ++ outcomes b.
Proof. apply omap_app. Qed.

Lemma outcomes_lost l : outcomes (map Lost l) = l.
Proof. induction l as [|m l IH]; [done|]. cbn. by f_equal. Qed.
Lemma puts_lost l : puts (map Lost l) = [].
Proof. by induction l. Qed.

(** A step passes messages on. *)
Lemma step_pending s ev s' : channel_inv s -> step s ev s' -> pending s ++ puts ev = outcomes ev ++ pending s'.
Proof.
  intros [Hc _] Hs. unfold pending. destruct Hs as [c r id m taken _|c _|c|c m todo n|c m todo n|c n]; cbn [sy_channel sy_reader] in *.
  - destruct (put_queues id m taken c) as (_ & _ & E & _). rewrite E. cbn. by rewrite (assoc_L (++)).
  - cbn. rewrite app_nil_r. by destruct c as [? ? [] ? ?].
  - destruct (take_queues c Hc) as (E & _ & E2). rewrite E, E2.
    change (puts []) with (@nil obj_msg). change (outcomes []) with (@nil obj_msg). by rewrite !app_nil_r.
  - cbn. by rewrite app_nil_r.
  - change (puts (Threw m :: map Lost todo)) with (puts (map Lost todo)).
    change (outcomes (Threw m :: map Lost todo)) with (m :: outcomes (map Lost todo)).
    rewrite puts_lost, outcomes_lost, app_nil_r. done.
  - cbn. rewrite app_nil_r. by destruct c as [? ? [] ? ?].
Qed.

Definition idle_system : system := mkSystem new_channel Waiting.

Lemma steps_inv s tr s' : channel_inv s -> steps s tr s' -> channel_inv s' /\ pending s ++ puts tr = outcomes tr ++ pending s'.
Proof.
  intros Hi Hs. induction Hs as [s|s tr s1 ev s2 Hs IH Hst]; [by rewrite app_nil_r|].
  destruct (IH Hi) as [Hi1 E1]. split; [by eapply step_inv|].
  rewrite puts_app, outcomes_app, (assoc_L (++)), E1, <- !(assoc_L (++)). f_equal. by apply step_pending.
Qed.

Lemma idle_inv : channel_inv idle_system.
Proof. by constructor. Qed.

Lemma steps_trans s1 tr1 s2 tr2 s3 : steps s1 tr1 s2 -> steps s2 tr2 s3 -> steps s1 (tr1 ++ tr2) s3.
Proof.
  intros H1 H2. induction H2 as [s|s tr s' ev s'' H2 IH Hst]; [by rewrite app_nil_r|].
  rewrite (assoc_L (++)). by econstructor; [apply IH|].
Qed.

Lemma one_step s ev s' : step s ev s' -> steps s ev s'.
Proof. intros H. change ev with ([] ++ ev). econstructor; [constructor|done]. Qed.

Lemma handle_batch c todo n :
  steps (mkSystem c (Handling todo n)) (map Handled todo) (mkSystem (erase_tags (n + length todo) c) Waiting).
Proof.
  revert n. induction todo as [|m todo IH]; intros n.
  - cbn [map length]. rewrite Nat.add_0_r. apply one_step. constructor.
  - change (map Handled (m :: todo)) with ([Handled m] ++ map Handled todo). eapply steps_trans.
    + apply one_step. constructor.
    + cbn [length]. rewrite <- Nat.add_succ_comm. apply IH.
Qed.

Definition quiet (tr : list event) : Prop := puts tr = [] /\ lost tr = [].

Lemma quiet_handled l : quiet (map Handled l) /\ outcomes (map Handled l) = l.
Proof.
  unfold quiet. induction l as [|m l [[IH1 IH2] IH3]]; [done|].
  change (map Handled (m :: l)) with ([Handled m] ++ map Handled l). unfold lost in *.
  by rewrite puts_app, outcomes_app, omap_app, IH1, IH2, IH3.
Qed.

Lemma quiet_app a b : quiet a -> quiet b -> quiet (a ++ b).
Proof.
  intros [A1 A2] [B1 B2]. unfold quiet. rewrite puts_app. unfold lost in *. by rewrite omap_app, A1, A2, B1, B2.
Qed.

(** What the reader does with what waits. *)
Lemma reader_drains s :
  channel_inv s -> exists tr s', steps s tr s' /\ quiet tr /\ outcomes tr = pending s /\ pending s' = [] /\ sy_reader s' = Waiting.
Proof.
  assert (forall c, channel_inv (mkSystem c Received) -> exists tr s', steps (mkSystem c Received) tr s' /\ quiet tr /\
    outcomes tr = pending (mkSystem c Received) /\ pending s' = [] /\ sy_reader s' = Waiting) as Hrec.
  { intros c [Hc _]. cbn [sy_channel] in Hc. destruct (take_queues c Hc) as (E1 & E2 & E3).
    destruct (quiet_handled (fst (take_queue c))) as [Hq Ho].
    eexists _, _. split.
    { eapply steps_trans; [apply one_step, step_take|apply handle_batch]. }
    cbn [app]. split; [done|]. rewrite Ho. unfold pending. cbn [sy_reader sy_channel].
    split; [by rewrite E1|]. split; [|done].
    transitivity (queue_at (negb (ch_current (snd (take_queue c)))) (snd (take_queue c))); [|done].
    by destruct (snd (take_queue c)). }
  assert (forall c, channel_inv (mkSystem c Waiting) -> exists tr s', steps (mkSystem c Waiting) tr s' /\ quiet tr /\
    outcomes tr = pending (mkSystem c Waiting) /\ pending s' = [] /\ sy_reader s' = Waiting) as Hwait.
  { intros c Hi. destruct (queue_at (negb (ch_current c)) c) as [|m q] eqn:Eq.
    - exists [], (mkSystem c Waiting). split; [constructor|]. unfold pending. cbn. by rewrite Eq.
    - destruct (inv_woken _ Hi) as [Hso|]; [cbn; by rewrite Eq| |done]. cbn in Hso.
      pose proof (step_recv c Hso) as Hst. destruct (Hrec (recv_tags c)) as (tr & s' & Hs & Hq & Ho & Hp & Hr).
      { by eapply step_inv. }
      exists ([] ++ tr), s'. split; [eapply steps_trans; [by apply one_step|done]|]. split; [done|]. split; [|done].
      cbn [app]. rewrite Ho. unfold pending. by destruct c as [? ? [] ? ?]. }
  intros Hi. destruct s as [c [| |todo n]]; [by apply Hwait|by apply Hrec|].
  pose proof (handle_batch c todo n) as Hb. destruct (quiet_handled todo) as [Hq Ho].
  destruct (steps_inv _ _ _ Hi Hb) as [Hi1 _]. destruct (Hwait _ Hi1) as (tr & s' & Hs & Hq' & Ho' & Hp & Hr).
  exists (map Handled todo ++ tr), s'. split; [by eapply steps_trans|]. split; [by apply quiet_app|].
  rewrite outcomes_app, Ho, Ho'. split; [|done]. unfold pending. cbn [sy_reader sy_channel app]. by destruct c as [? ? [] ? ?].
Qed.
End Channel.

Lemma lost_without_throw {M} (s s' : system (M := M)) tr : steps s tr s' -> ~ threw tr -> lost tr = [].
Proof.
  intros Hs. induction Hs as [s|s tr s1 ev s2 Hs IH Hst]; intros Ht; [done|]. unfold lost in *.
  rewrite omap_app, IH.
  - destruct Hst; try done. exfalso. apply Ht. exists m. apply elem_of_app. right. by left.
  - intros [m Hm]. apply Ht. exists m. apply elem_of_app. by left.
Qed.

(** C31: Messages between threads arrive in the order they were sent, each once.
    Under every interleaving of senders with the reader, what the reader has
    handled, what it is handling and what waits are together what was sent, in
    order.  No message is lost unless a handler throws; then the messages behind
    it in its batch are lost. *)
Theorem channel_is_fifo {M} tr (s : system (M := M)) :
  steps idle_system tr s ->
  puts tr = outcomes tr ++ pending s /\ (~ threw tr -> lost tr = []).
Proof.
  intros Hs. split; [|by eapply lost_without_throw]. destruct (steps_inv _ _ _ idle_inv Hs) as [_ E]. exact E.
Qed.

(** C32: No wake-up is lost.  Whatever the senders did, full sockets included,
    the reader left alone handles every message that waits, in order, and goes
    back to waiting: it never sleeps on a message. *)
Theorem channel_wakes_reader {M} tr (s : system (M := M)) :
  steps idle_system tr s ->
  exists tr' s', steps s tr' s' /\ puts tr' = [] /\ lost tr' = [] /\ outcomes tr' = pending s /\
    pending s' = [] /\ sy_reader s' = Waiting.
Proof.
  intros Hs. destruct (steps_inv _ _ _ idle_inv Hs) as [Hi _].
  destruct (reader_drains s Hi) as (tr' & s' & H1 & [H2 H3] & H4). by exists tr', s'.
Qed.

(** One message put, read, and handled while another comes and throws. *)
Definition demo_trace : list (event (M := nat)) :=
  [Put (1000, 1%nat); Put (1000, 2%nat); Put (1001, 3%nat); Handled (1000, 1%nat); Threw (1000, 2%nat); Lost (1001, 3%nat)].

Lemma demo_run : exists s, steps idle_system demo_trace s /\ pending s = [].
Proof.
  eexists. split; [|shelve].
  change demo_trace with (((((([] ++ [Put (1000, 1%nat)]) ++ [Put (1000, 2%nat)]) ++ [Put (1001, 3%nat)]) ++ []) ++ []) ++
    [Handled (1000, 1%nat)] ++ (Threw (1000, 2%nat) :: map Lost [(1001, 3%nat)])).
  eapply steps_trans.
  - eapply steps_snoc; [eapply steps_snoc; [eapply steps_snoc; [eapply steps_snoc; [eapply steps_snoc; [constructor|]|]|]|]|].
    + apply (step_put _ _ 1000 1%nat 2). by split; [unfold TAG_SIZE; lia|intros _; lia].
    + apply (step_put _ _ 1000 2%nat 0). by split; [unfold TAG_SIZE; lia|].
    + apply (step_put _ _ 1001 3%nat 0). by split; [unfold TAG_SIZE; lia|].
    + apply step_recv. cbn. lia.
    + apply step_take.
  - eapply steps_trans; apply one_step; [apply step_handle|apply step_throw].
  Unshelve. reflexivity.
Qed.

Lemma channel_is_fifo_witness :
  exists s : system (M := nat), steps idle_system demo_trace s /\ puts demo_trace = outcomes demo_trace ++ pending s.
Proof. destruct demo_run as (s & Hs & _). exists s. split; [exact Hs|]. destruct (channel_is_fifo _ s Hs) as [E _]. exact E. Defined.

Lemma channel_wakes_reader_witness :
  exists tr' s', steps (M := nat) (mkSystem (put_msg 1000 7%nat 2 new_channel) Waiting) tr' s' /\
    outcomes tr' = [(1000, 7%nat)] /\ pending s' = [].
Proof.
  assert (steps (M := nat) idle_system [Put (1000, 7%nat)] (mkSystem (put_msg 1000 7%nat 2 new_channel) Waiting)) as Hs.
  { apply one_step. apply step_put. split; [unfold TAG_SIZE; lia|intros _; lia]. }
  destruct (channel_wakes_reader _ _ Hs) as (tr' & s' & H1 & _ & _ & H2 & H3 & _). exists tr', s'. split; [exact H1|]. split; [exact H2|exact H3].
Defined.
