(* ===== verification/Timers.v ===== *)
(** * Timers of a thread (core/legacy_core_net.cpp, [base_timer])

    Timers wait in two multimaps from the time they are due.  [add_timer] puts
    into the current one; [check_timer] first makes the other one current, then
    fires what is due in the one it leaves, and erases it.  So a handler that
    arms a timer never changes the map that is being walked.  A multimap is a
    list sorted by its keys, equal keys in the order of insertion. *)

From Stdlib Require Import Sorting.Sorted.
From S2P Require Import Prelude TaskTypes Messages.

Definition TIMER_ID_BEGIN : Z := 1000.

(** [struct timer_msg] *)
Record timer_msg := mkTimer {
  tm_obj_id : Z;
  tm_timer_type : Z;
  tm_timer_id : Z;
  tm_time_length : Z;
}.

Abbreviation timer_list := (list (Z * timer_msg)).

(** [base_timer] *)
Record base_timer := mkTimers {
  bt_list0 : timer_list;
  bt_list1 : timer_list;
  bt_ids : gset Z;
  bt_timerid : Z;
  bt_current : bool;
}.

Definition new_base_timer : base_timer := mkTimers [] [] ∅ TIMER_ID_BEGIN false.

Definition list_at (i : bool) (t : base_timer) : timer_list := if i then bt_list1 t else bt_list0 t.

Definition set_list (i : bool) (l : timer_list) (t : base_timer) : base_timer :=
  if i then t <| bt_list1 := l |> else t <| bt_list0 := l |>.

(** [std::multimap::insert] *)
Fixpoint multimap_insert {A} (k : Z) (a : A) (l : list (Z * A)) : list (Z * A) :=
  match l with
  | [] => [(k, a)]
  | (k', a') :: l' => if k <? k' then (k, a) :: l else (k', a') :: multimap_insert k a l'
  end.

(** The counter of [gen_timerid], one turn on. *)
Definition next_timerid (id : Z) : Z :=
  let id := id +32 1 in if id <? TIMER_ID_BEGIN then TIMER_ID_BEGIN else id.

(** The loop of [gen_timerid]. *)
Fixpoint free_timerid (fuel : nat) (ids : gset Z) (id : Z) : option Z :=
  match fuel with
  | O => None
  | S fuel => let id := next_timerid id in if decide (id ∈ ids) then free_timerid fuel ids id else Some id
  end.

(** [gen_timerid]: as many turns as there are ids in use, and one. *)
Definition gen_timerid (t : base_timer) : option (Z * base_timer) :=
  id ← free_timerid (S (size (bt_ids t))) (bt_ids t) (bt_timerid t);
  Some (id, t <| bt_timerid := id |> <| bt_ids ::= union {[id]} |>).

(** When a timer added at [now] is due. *)
Definition reach_time (now : Z) (t_msg : timer_msg) : Z := now +64 tm_time_length t_msg.

(** [add_timer]: the message with its id, none when it was refused. *)
Definition add_timer (now : Z) (t_msg : timer_msg) (t : base_timer) : option (option timer_msg * base_timer) :=
  if (tm_time_length t_msg =? 0) || (tm_obj_id t_msg =? 0) then Some (None, t)
  else
    '(id, t) ← gen_timerid t;
    let t_msg' := t_msg <| tm_timer_id := id |> in
    Some (Some t_msg', set_list (bt_current t) (multimap_insert (reach_time now t_msg) t_msg' (list_at (bt_current t) t)) t).

(** The end of [check_timer] for one key of [tmp_vec]. *)
Definition erase_key (i : bool) (k : Z) (t : base_timer) : base_timer :=
  let range := filter (fun e => fst e = k) (list_at i t) in
  set_list i (filter (fun e => fst e <> k) (list_at i t))
    (t <| bt_ids ::= fun ids => foldl (fun ids e => ids ∖ {[tm_timer_id (snd e)]}) ids range |>).

Section Check.
(** What [common_obj_container::handle_timeout] does to the rest of the program:
    the timers it adds, each with the time of the call, and whether it threw. *)
Context {W : Type} (handle_timeout : timer_msg -> W -> W * list (Z * timer_msg) * bool).

(** A call of [check_timer] on its way; [fi_fired] keeps the whole entries of
    [tmp_vec], [fi_added] records what was armed. *)
Record firing := mkFiring {
  fi_world : W;
  fi_timers : base_timer;
  fi_fired : timer_list;
  fi_added : timer_list;
  fi_expect : list Z;
}.

(** The calls of [add_timer] of one handler. *)
Fixpoint add_timers (l : list (Z * timer_msg)) (t : base_timer) : option (timer_list * base_timer) :=
  match l with
  | [] => Some ([], t)
  | (now, m) :: l =>
      '(r, t) ← add_timer now m t;
      '(added, t) ← add_timers l t;
      Some (match r with Some m' => (reach_time now m, m') :: added | None => added end, t)
  end.

(** The loop over the timers that are due. *)
Fixpoint fire_due (now : Z) (l : timer_list) (f : firing) : option firing :=
  match l with
  | [] => Some f
  | (k, m) :: l =>
      if now <? k then Some f
      else
        let '(w, adds, threw) := handle_timeout m (fi_world f) in
        '(added, t) ← add_timers adds (fi_timers f);
        fire_due now l (mkFiring w t (fi_fired f ++ [(k, m)]) (fi_added f ++ added)
                                 (fi_expect f ++ (if threw : bool then [tm_obj_id m] else [])))
  end.

Definition check_timer (now : Z) (w : W) (t : base_timer) : option firing :=
  let i := bt_current t in
  f ← fire_due now (list_at i t) (mkFiring w (t <| bt_current := negb i |>) [] [] []);
  Some (mkFiring (fi_world f) (foldl (fun t e => erase_key i (fst e) t) (fi_timers f) (fi_fired f))
                 (fi_fired f) (fi_added f) (fi_expect f)).

(** [is_empty] *)
Definition is_empty_timers (t : base_timer) : bool := match list_at (bt_current t) t with [] => true | _ => false end.

(** ** Runs *)

Inductive timer_op := Add (now : Z) (m : timer_msg) | Check (now : Z).

(** The timers after a sequence of calls, with what was armed and what fired,
    and when. *)
Fixpoint run_timers (ops : list timer_op) (w : W) (t : base_timer) : option (W * base_timer * timer_list * list (Z * (Z * timer_msg))) :=
  match ops with
  | [] => Some (w, t, [], [])
  | Add now m :: ops =>
      '(added, t) ← add_timers [(now, m)] t;
      '(w, t, added', fired) ← run_timers ops w t;
      Some (w, t, added ++ added', fired)
  | Check now :: ops =>
      f ← check_timer now w t;
      '(w, t, added, fired) ← run_timers ops (fi_world f) (fi_timers f);
      Some (w, t, fi_added f ++ added, map (pair now) (fi_fired f) ++ fired)
  end.
End Check.

(** ** The invariant *)

Definition pending (t : base_timer) : timer_list := bt_list0 t ++ bt_list1 t.

Definition id_of (e : Z * timer_msg) : Z := tm_timer_id (snd e).

Definition by_time : relation (Z * timer_msg) := fun a b => fst a <= fst b.

Record timers_ok (t : base_timer) : Prop := {
  ok_sorted i : StronglySorted by_time (list_at i t);
  ok_ids : bt_ids t = list_to_set (map id_of (pending t));
  ok_unique : NoDup (map id_of (pending t));
  ok_timerid : TIMER_ID_BEGIN <= bt_timerid t < 2 ^ 32;
}.

(** How many ids there are. *)
Definition TIMER_IDS : nat := Z.to_nat (2 ^ 32 - TIMER_ID_BEGIN).

(** ** Ids *)

Lemma next_timerid_cycle id k :
  TIMER_ID_BEGIN <= id < 2 ^ 32 ->
  Nat.iter k next_timerid id = TIMER_ID_BEGIN + (id - TIMER_ID_BEGIN + Z.of_nat k) mod (2 ^ 32 - TIMER_ID_BEGIN).
Proof.
  intros Hid. unfold TIMER_ID_BEGIN in *. induction k as [|k IH].
  - change (Nat.iter 0 next_timerid id) with id. rewrite Z.mod_small; lia.
  - change (Nat.iter (S k) next_timerid id) with (next_timerid (Nat.iter k next_timerid id)). rewrite IH. clear IH. unfold next_timerid, u32, TIMER_ID_BEGIN.
    replace (id - 1000 + Z.of_nat (S k)) with ((id - 1000 + Z.of_nat k) + 1) by lia.
    generalize (id - 1000 + Z.of_nat k). intros n.
    rewrite (Z.add_mod n 1) by lia. pose proof (Z.mod_pos_bound n (2 ^ 32 - 1000) ltac:(lia)) as Hb.
    generalize dependent (n mod (2 ^ 32 - 1000)). intros r Hb.
    rewrite (Z.mod_small 1) by lia. destruct (Z.eq_dec (r + 1) (2 ^ 32 - 1000)) as [E|].
    + rewrite E, Z.mod_same by lia. replace (1000 + r + 1) with (2 ^ 32) by lia. by rewrite Z.mod_same by lia.
    + rewrite (Z.mod_small (r + 1)) by lia. rewrite Z.mod_small by lia. destruct (Z.ltb_spec (1000 + r + 1) 1000); lia.
Qed.

Lemma next_timerid_range id : TIMER_ID_BEGIN <= id < 2 ^ 32 -> TIMER_ID_BEGIN <= next_timerid id < 2 ^ 32.
Proof.
  intros Hid. unfold next_timerid, TIMER_ID_BEGIN in *. pose proof (u32_range (id + 1)).
  destruct (Z.ltb_spec (id +32 1) 1000); lia.
Qed.

Lemma free_timerid_none fuel ids id k :
  free_timerid fuel ids id = None -> (0 < k <= fuel)%nat -> Nat.iter k next_timerid id ∈ ids.
Proof.
  revert id k. induction fuel as [|fuel IH]; intros id k E Hk; [lia|]. cbn [free_timerid] in E.
  destruct (decide (next_timerid id ∈ ids)) as [Hin|]; [|done].
  destruct k as [|[|k]]; [lia|done|]. rewrite Nat.iter_succ_r. apply IH; [done|lia].
Qed.

Lemma free_timerid_some fuel ids id id' :
  free_timerid fuel ids id = Some id' -> TIMER_ID_BEGIN <= id < 2 ^ 32 ->
  (id' ∉ ids) /\ TIMER_ID_BEGIN <= id' < 2 ^ 32.
Proof.
  revert id. induction fuel as [|fuel IH]; intros id E Hid; [done|]. cbn [free_timerid] in E.
  destruct (decide (next_timerid id ∈ ids)) as [|Hn].
  - apply (IH _ E). by apply next_timerid_range.
  - injection E as <-. split; [done|]. by apply next_timerid_range.
Qed.

(** The search ends: there is a free id within its turns. *)
Lemma free_timerid_ends ids id :
  TIMER_ID_BEGIN <= id < 2 ^ 32 -> (size ids < TIMER_IDS)%nat -> exists id', free_timerid (S (size ids)) ids id = Some id'.
Proof.
  intros Hid Hs. destruct (free_timerid (S (size ids)) ids id) as [id'|] eqn:E; [by exists id'|]. exfalso.
  set (l := map (fun k => Nat.iter k next_timerid id) (seq 1 (S (size ids)))).
  assert (NoDup l) as Hl.
  { apply NoDup_fmap_2_strong; [|apply NoDup_seq]. intros a b Ha Hb. rewrite elem_of_seq in Ha, Hb.
    rewrite !next_timerid_cycle by done. intros Ee. unfold TIMER_IDS, TIMER_ID_BEGIN in *.
    assert ((id - 1000 + Z.of_nat a) mod (2 ^ 32 - 1000) = (id - 1000 + Z.of_nat b) mod (2 ^ 32 - 1000)) as Em by lia.
    apply (f_equal (fun x => x)) in Em. rewrite (Z.mod_eq (id - 1000 + Z.of_nat a)), (Z.mod_eq (id - 1000 + Z.of_nat b)) in Em by lia.
    nia. }
  assert (list_to_set (C := gset Z) l ⊆ ids) as Hsub.
  { intros x Hx. apply elem_of_list_to_set in Hx. apply list_elem_of_fmap in Hx as (k & -> & Hk). rewrite elem_of_seq in Hk.
    eapply free_timerid_none; [exact E|lia]. }
  apply subseteq_size in Hsub. rewrite size_list_to_set in Hsub by done. subst l. rewrite length_map, length_seq in Hsub. lia.
Qed.

(** ** Adding *)

Lemma multimap_insert_perm {A} k (a : A) l : multimap_insert k a l ≡ₚ (k, a) :: l.
Proof.
  induction l as [|[k' a'] l IH]; [done|]. cbn [multimap_insert]. destruct (k <? k'); [done|].
  rewrite IH. constructor.
Qed.

Lemma multimap_insert_sorted k a l : StronglySorted by_time l -> StronglySorted by_time (multimap_insert k a l).
Proof.
  induction 1 as [|[k' a'] l Hs IH Hf]; [by constructor; [constructor|]|]. cbn [multimap_insert].
  destruct (Z.ltb_spec k k') as [Hk|Hk].
  - constructor; [by constructor|]. constructor; [unfold by_time; cbn; lia|].
    eapply Forall_impl; [exact Hf|]. unfold by_time. cbn. lia.
  - constructor; [done|]. rewrite multimap_insert_perm. by constructor.
Qed.

Lemma list_set_same i l t : list_at i (set_list i l t) = l.
Proof. by destruct i, t. Qed.
Lemma list_set_other i l t : list_at (negb i) (set_list i l t) = list_at (negb i) t.
Proof. by destruct i, t. Qed.

Lemma pending_lists i t : pending t ≡ₚ list_at i t ++ list_at (negb i) t.
Proof. unfold pending. destruct i; cbn; [apply Permutation_app_comm|done]. Qed.

Lemma pending_size t : timers_ok t -> size (bt_ids t) = length (pending t).
Proof. intros Ht. rewrite (ok_ids t Ht), size_list_to_set by apply (ok_unique t Ht). apply length_map. Qed.

Lemma both_sorted (R : timer_list -> Prop) i t : R (list_at i t) -> R (list_at (negb i) t) -> forall j, R (list_at j t).
Proof. intros H1 H2 j. by destruct i, j. Qed.

Lemma gen_timerid_ok t id t1 :
  timers_ok t -> gen_timerid t = Some (id, t1) ->
  (id ∉ bt_ids t) /\ bt_ids t1 = {[id]} ∪ bt_ids t /\ TIMER_ID_BEGIN <= bt_timerid t1 < 2 ^ 32 /\
  (forall i, list_at i t1 = list_at i t) /\ bt_current t1 = bt_current t.
Proof.
  intros Ht. unfold gen_timerid. destruct (free_timerid _ _ _) as [id'|] eqn:Ef; [|done].
  intros [= -> <-]. apply free_timerid_some in Ef as [Hn Hr]; [|apply Ht]. split; [done|].
  destruct t as [l0 l1 ids n cur]. cbn. unfold constant. split; [done|]. split; [done|]. split; [by intros []|done].
Qed.

Lemma set_list_rest i l t :
  bt_ids (set_list i l t) = bt_ids t /\ bt_timerid (set_list i l t) = bt_timerid t /\ bt_current (set_list i l t) = bt_current t.
Proof. by destruct i, t. Qed.

Lemma add_timer_ok now m t r t' :
  timers_ok t -> add_timer now m t = Some (r, t') ->
  timers_ok t' /\ bt_current t' = bt_current t /\ list_at (negb (bt_current t)) t' = list_at (negb (bt_current t)) t /\
  match r with
  | Some m' => pending t' ≡ₚ (reach_time now m, m') :: pending t /\ (reach_time now m, m') ∈ list_at (bt_current t) t'
  | None => t' = t
  end.
Proof.
  intros Ht. unfold add_timer. destruct (_ || _); [by intros [= <- <-]|].
  destruct (gen_timerid t) as [[id t1]|] eqn:Eg; [|done]. intros E. apply (inj Some), pair_eq in E as [<- <-].
  destruct (gen_timerid_ok _ _ _ Ht Eg) as (Hn & Ei & Hr & El & Ec). rewrite Ec, El. clear Eg.
  remember (m <| tm_timer_id := id |>) as m' eqn:Em. remember (reach_time now m) as k eqn:Ek. remember (bt_current t) as i eqn:Ecur.
  assert (id_of (k, m') = id) as Eid by (by subst m'; destruct m).
  destruct (set_list_rest i (multimap_insert k m' (list_at i t)) t1) as (R1 & R2 & R3).
  assert (pending (set_list i (multimap_insert k m' (list_at i t)) t1) ≡ₚ (k, m') :: pending t) as Hp.
  { rewrite (pending_lists i (set_list _ _ _)), (pending_lists i t), list_set_same, list_set_other, El. by rewrite multimap_insert_perm. }
  split; [|split; [by rewrite R3|split; [by rewrite list_set_other, El|split; [exact Hp|]]]].
  - constructor.
    + apply (both_sorted (StronglySorted by_time) i); [rewrite list_set_same; apply multimap_insert_sorted|rewrite list_set_other, El]; apply Ht.
    + rewrite R1, Ei, (ok_ids t Ht). apply set_eq. intros x. rewrite elem_of_union, !elem_of_list_to_set, Hp. cbn [map]. rewrite Eid, elem_of_singleton, elem_of_cons. tauto.
    + rewrite Hp. cbn [map]. rewrite Eid. constructor; [|apply Ht]. intros Hin. apply Hn. rewrite (ok_ids t Ht). by apply elem_of_list_to_set.
    + by rewrite R2.
  - rewrite list_set_same, multimap_insert_perm. by left.
Qed.

Lemma kept_lists t t' added i e :
  list_at (negb (bt_current t)) t' = list_at (negb (bt_current t)) t -> pending t' ≡ₚ added ++ pending t ->
  e ∈ list_at i t -> e ∈ list_at i t'.
Proof.
  intros L P He. destruct (decide (i = bt_current t)) as [->|Hi].
  - rewrite (pending_lists (bt_current t) t), (pending_lists (bt_current t) t'), L, (assoc_L (++)) in P.
    apply Permutation_app_inv_r in P. rewrite P. apply elem_of_app. by right.
  - replace i with (negb (bt_current t)) in * by (by destruct i, (bt_current t)). by rewrite L.
Qed.

(** What is in the message that waits. *)
Lemma add_timer_armed now m t r t' :
  add_timer now m t = Some (r, t') ->
  match r with
  | Some m' => tm_obj_id m' = tm_obj_id m /\ tm_timer_type m' = tm_timer_type m
  | None => tm_time_length m = 0 \/ tm_obj_id m = 0
  end.
Proof.
  unfold add_timer. destruct (tm_time_length m =? 0) eqn:El; [intros [= <- <-]; lia|].
  destruct (tm_obj_id m =? 0) eqn:Eo; [intros [= <- <-]; lia|]. cbn [orb].
  destruct (gen_timerid t) as [[id t1]|]; [|done]. intros E. apply (inj Some), pair_eq in E as [<- _]. by destruct m.
Qed.

Lemma add_timer_total now m t :
  timers_ok t -> (length (pending t) < TIMER_IDS)%nat -> exists r, add_timer now m t = Some r.
Proof.
  intros Ht Hl. unfold add_timer. destruct (_ || _); [by eexists|]. unfold gen_timerid.
  destruct (free_timerid_ends (bt_ids t) (bt_timerid t)) as [id ->]; [apply Ht|by rewrite pending_size|]. by eexists.
Qed.

Lemma add_timers_ok l t added t' :
  timers_ok t -> add_timers l t = Some (added, t') ->
  timers_ok t' /\ bt_current t' = bt_current t /\ list_at (negb (bt_current t)) t' = list_at (negb (bt_current t)) t /\
  pending t' ≡ₚ added ++ pending t /\ (length added <= length l)%nat.
Proof.
  revert t added t'. induction l as [|[now m] l IH]; intros t added t' Ht E; cbn [add_timers] in E; [by injection E as <- <-|].
  destruct (add_timer now m t) as [[r t1]|] eqn:E1; [|done]. change (Some ?x ≫= ?f) with (f x) in E; cbv beta iota in E.
  destruct (add_timers l t1) as [[added1 t2]|] eqn:E2; [|done]. change (Some ?x ≫= ?f) with (f x) in E; cbv beta iota in E. injection E as <- <-.
  destruct (add_timer_ok _ _ _ _ _ Ht E1) as (H1 & C1 & L1 & P1). destruct (IH _ _ _ H1 E2) as (H2 & C2 & L2 & P2 & N2).
  rewrite C1 in L2, C2. split; [done|]. split; [done|]. split; [by rewrite L2|]. destruct r as [m'|].
  - destruct P1 as [P1 _]. split; [|cbn [length]; lia]. rewrite P2, P1. cbn [app]. symmetry. apply Permutation_middle.
  - subst t1. split; [done|]. cbn [length]; lia.
Qed.

Lemma add_timers_total l t :
  timers_ok t -> (length (pending t) + length l <= TIMER_IDS)%nat -> exists r, add_timers l t = Some r.
Proof.
  revert t. induction l as [|[now m] l IH]; intros t Ht Hl; cbn [add_timers]; [by eexists|]. cbn [length] in Hl.
  destruct (add_timer_total now m t Ht ltac:(lia)) as [[r t1] E1]. rewrite E1. cbn [mbind option_bind].
  destruct (add_timer_ok _ _ _ _ _ Ht E1) as (H1 & _ & _ & P1).
  destruct (IH t1 H1) as [[added t2] E2].
  { destruct r as [m'|]; [destruct P1 as [-> _]; cbn [length]; lia|subst t1; lia]. }
  rewrite E2. by eexists.
Qed.

(** ** Erasing *)

Lemma foldl_erase_ids l ids :
  foldl (fun ids (e : Z * timer_msg) => ids ∖ {[tm_timer_id (snd e)]}) ids l = ids ∖ list_to_set (C := gset Z) (map id_of l).
Proof.
  revert ids. induction l as [|e l IH]; intros ids; cbn [foldl map list_to_set]; [by rewrite difference_empty_L|].
  by rewrite IH, difference_difference_l_L.
Qed.

Lemma sorted_filter (P : Z * timer_msg -> Prop) `{!forall e, Decision (P e)} l :
  StronglySorted by_time l -> StronglySorted by_time (filter P l).
Proof.
  induction 1 as [|e l Hs IH Hf]; [constructor|]. rewrite filter_cons. destruct (decide (P e)); [|done].
  constructor; [done|]. rewrite Forall_forall in *. intros x Hx. apply Hf. by apply list_elem_of_filter in Hx as [_ Hx].
Qed.

Lemma filter_keep {A} (P : A -> Prop) `{!forall x, Decision (P x)} (l : list A) : (forall x, x ∈ l -> P x) -> filter P l = l.
Proof.
  induction l as [|x l IH]; intros Hl; [done|]. rewrite filter_cons_True by (apply Hl; by left).
  f_equal. apply IH. intros y Hy. apply Hl. by right.
Qed.

Lemma filter_ext_in {A} (P Q : A -> Prop) `{!forall x, Decision (P x)} `{!forall x, Decision (Q x)} (l : list A) :
  (forall x, x ∈ l -> P x <-> Q x) -> filter P l = filter Q l.
Proof.
  induction l as [|x l IH]; intros Hl; [done|]. rewrite !filter_cons.
  rewrite IH by (intros y Hy; apply Hl; by right). destruct (Hl x ltac:(by left)) as [H1 H2].
  destruct (decide (P x)), (decide (Q x)); tauto.
Qed.

Lemma filter_split {A} (P : A -> Prop) `{!forall x, Decision (P x)} (l : list A) : l ≡ₚ filter P l ++ filter (fun x => ~ P x) l.
Proof.
  induction l as [|x l IH]; [done|]. rewrite !filter_cons. destruct (decide (P x)), (decide (~ P x)); try done; cbn.
  - by f_equiv.
  - rewrite <- Permutation_middle. by f_equiv.
Qed.

Lemma erase_key_lists i k t :
  list_at i (erase_key i k t) = filter (fun e => fst e <> k) (list_at i t) /\
  list_at (negb i) (erase_key i k t) = list_at (negb i) t /\ bt_current (erase_key i k t) = bt_current t.
Proof. unfold erase_key. rewrite list_set_same, list_set_other. destruct i; by destruct t. Qed.

Lemma erase_key_ok i k t : timers_ok t -> timers_ok (erase_key i k t).
Proof.
  intros Ht. destruct (erase_key_lists i k t) as (E1 & E2 & _).
  assert (map id_of (pending t) ≡ₚ map id_of (filter (fun e => fst e = k) (list_at i t)) ++ map id_of (pending (erase_key i k t))) as Hp.
  { rewrite <- map_app. apply Permutation_map. rewrite (pending_lists i t), (pending_lists i (erase_key i k t)), E1, E2.
    rewrite (filter_split (fun e => fst e = k) (list_at i t)) at 1. by rewrite <- (assoc_L (++)). }
  pose proof (ok_unique t Ht) as Hu. rewrite Hp in Hu. apply NoDup_app in Hu as (_ & Hd & Hu).
  constructor.
  - apply (both_sorted (StronglySorted by_time) i); [rewrite E1; apply sorted_filter|rewrite E2]; apply Ht.
  - assert (bt_ids (erase_key i k t) = bt_ids t ∖ list_to_set (map id_of (filter (fun e => fst e = k) (list_at i t)))) as ->.
    { rewrite <- foldl_erase_ids. unfold erase_key. destruct i; by destruct t. }
    rewrite (ok_ids t Ht). apply set_eq. intros x. rewrite elem_of_difference, !elem_of_list_to_set, Hp, elem_of_app.
    split; [tauto|]. intros Hx. split; [by right|]. intros Hy. by apply (Hd x).
  - done.
  - unfold erase_key. pose proof (ok_timerid t Ht). destruct i; by destruct t.
Qed.

Lemma erase_keys_ok i l t :
  timers_ok t ->
  let t' := foldl (fun t e => erase_key i (fst e) t) t l in
  timers_ok t' /\ list_at i t' = filter (fun e => fst e ∉ map fst (l : timer_list)) (list_at i t) /\
  list_at (negb i) t' = list_at (negb i) t /\ bt_current t' = bt_current t.
Proof.
  revert t. induction l as [|e l IH]; intros t Ht; cbn [foldl].
  - repeat split; try done; try apply Ht. symmetry. apply filter_keep. intros x _. apply not_elem_of_nil.
  - destruct (IH (erase_key i (fst e) t)) as (H1 & H2 & H3 & H4); [by apply erase_key_ok|].
    destruct (erase_key_lists i (fst e) t) as (E1 & E2 & E3). split; [done|]. rewrite H2, H3, H4, E1, E2, E3.
    split; [|done]. rewrite list_filter_filter. apply list_filter_iff. intros x. cbn [map]. rewrite not_elem_of_cons. tauto.
Qed.

(** ** Firing *)

Definition due (now : Z) : Z * timer_msg -> Prop := fun e => fst e <= now.

#[export] Instance due_dec now e : Decision (due now e) := Z_le_dec (fst e) now.

Section Firing.
Context {W : Type} (handle_timeout : timer_msg -> W -> W * list (Z * timer_msg) * bool).

(** A handler arms at most one timer. *)
Definition arms_one : Prop := forall m w, (length (snd (fst (handle_timeout m w))) <= 1)%nat.

Lemma none_due now k m l : now < k -> StronglySorted by_time ((k, m) :: l) -> filter (due now) ((k, m) :: l) = [].
Proof.
  intros Hk Hs. apply StronglySorted_inv in Hs as [_ Hf]. rewrite filter_cons_False by (unfold due; cbn; lia).
  induction Hf as [|e l He Hf IH]; [done|]. rewrite filter_cons_False; [done|]. unfold by_time, due in *. cbn in He. lia.
Qed.

Lemma fire_due_ok now l f f' :
  StronglySorted by_time l -> timers_ok (fi_timers f) -> fire_due handle_timeout now l f = Some f' ->
  let i := bt_current (fi_timers f) in
  timers_ok (fi_timers f') /\ bt_current (fi_timers f') = i /\
  list_at (negb i) (fi_timers f') = list_at (negb i) (fi_timers f) /\
  fi_fired f' = fi_fired f ++ filter (due now) l /\
  exists new, fi_added f' = fi_added f ++ new /\ pending (fi_timers f') ≡ₚ new ++ pending (fi_timers f) /\
    (arms_one -> (length new <= length (filter (due now) l))%nat).
Proof.
  intros Hs. revert f. induction l as [|[k m] l IH]; intros f Ht E; cbn [fire_due] in E.
  - injection E as <-. repeat split; try done; try apply Ht. { by rewrite app_nil_r. } exists []. by rewrite app_nil_r.
  - destruct (Z.ltb_spec now k) as [Hk|Hk].
    + injection E as <-. rewrite none_due by done. repeat split; try done; try apply Ht. { by rewrite app_nil_r. }
      exists []. by rewrite app_nil_r.
    + destruct (handle_timeout m (fi_world f)) as [[w adds] threw] eqn:Eh.
      destruct (add_timers adds (fi_timers f)) as [[added t]|] eqn:Ea; [|done].
      change (Some ?x ≫= ?f) with (f x) in E; cbv beta iota in E.
      destruct (add_timers_ok _ _ _ _ Ht Ea) as (H1 & C1 & L1 & P1 & N1).
      apply StronglySorted_inv in Hs as [Hs _]. destruct (IH Hs (mkFiring _ _ _ _ _) H1 E) as (H2 & C2 & L2 & F2 & new & A2 & P2 & N2).
      cbn [fi_timers fi_fired fi_added] in *. rewrite C1 in *. rewrite filter_cons_True by done.
      split; [done|]. split; [done|]. split; [by rewrite L2|]. split; [by rewrite F2, <- (assoc_L (++))|].
      exists (added ++ new). split; [by rewrite A2, (assoc_L (++))|]. split.
      * rewrite P2, P1, !(assoc_L (++)). f_equiv. apply Permutation_app_comm.
      * intros Ho. pose proof (Ho m (fi_world f)) as Ho1. rewrite Eh in Ho1. cbn in Ho1. specialize (N2 Ho).
        rewrite length_app. cbn [length]. lia.
Qed.

Lemma fire_due_total now l f :
  arms_one -> timers_ok (fi_timers f) -> (length (pending (fi_timers f)) + length l <= TIMER_IDS)%nat ->
  exists f', fire_due handle_timeout now l f = Some f'.
Proof.
  intros Ho. revert f. induction l as [|[k m] l IH]; intros f Ht Hl; cbn [fire_due]; [by eexists|].
  destruct (now <? k); [by eexists|]. pose proof (Ho m (fi_world f)) as Ho1.
  destruct (handle_timeout m (fi_world f)) as [[w adds] threw]. cbn in Ho1. cbn [length] in Hl.
  destruct (add_timers_total adds (fi_timers f) Ht ltac:(lia)) as [[added t] Ea]. rewrite Ea.
  destruct (add_timers_ok _ _ _ _ Ht Ea) as (H1 & _ & _ & P1 & N1).
  change (Some ?x ≫= ?f) with (f x); cbv beta iota. apply IH; [done|]. cbn [fi_timers]. rewrite P1, length_app. lia.
Qed.

Lemma switched_ok i t : timers_ok t -> timers_ok (t <| bt_current := i |>) /\ (forall j, list_at j (t <| bt_current := i |>) = list_at j t).
Proof. intros [H1 H2 H3 H4]. destruct t as [l0 l1 ids n c]. by split; [constructor|intros []]. Qed.

(** What one [check_timer] does. *)
Lemma check_timer_ok now w t f :
  timers_ok t -> check_timer handle_timeout now w t = Some f ->
  let i := bt_current t in
  timers_ok (fi_timers f) /\ bt_current (fi_timers f) = negb i /\ fi_fired f = filter (due now) (list_at i t) /\
  list_at i (fi_timers f) = filter (fun e => ~ due now e) (list_at i t) /\
  list_at (negb i) (fi_timers f) ≡ₚ fi_added f ++ list_at (negb i) t /\
  (arms_one -> (length (fi_added f) <= length (fi_fired f))%nat).
Proof.
  intros Ht. unfold check_timer. destruct (switched_ok (negb (bt_current t)) t Ht) as [Hsw Hl].
  destruct (fire_due _ _ _ _) as [f1|] eqn:E; [|done]. intros [= <-]. cbn [fi_timers fi_fired fi_added].
  destruct (fire_due_ok now _ (mkFiring w (t <| bt_current := negb (bt_current t) |>) [] [] []) f1 (ok_sorted t Ht _) Hsw E) as (H1 & C1 & L1 & F1 & new & A1 & P1 & N1).
  cbn [fi_timers fi_fired fi_added app] in *.
  assert (bt_current (t <| bt_current := negb (bt_current t) |>) = negb (bt_current t)) as Ec by (by destruct t).
  rewrite Ec, negb_involutive in *. rewrite Hl in L1. set (i := bt_current t) in *.
  destruct (erase_keys_ok i (fi_fired f1) (fi_timers f1) H1) as (H2 & L2 & L3 & C2).
  split; [done|]. split; [by rewrite C2|]. split; [done|]. split; [|split].
  - rewrite L2, L1, F1. apply filter_ext_in. intros e He. split; intros Hn; contradict Hn.
    + apply list_elem_of_fmap. exists e. split; [done|]. by apply list_elem_of_filter.
    + apply list_elem_of_fmap in Hn as (e' & Ee & He'). apply list_elem_of_filter in He' as [Hd _]. unfold due in *. by rewrite Ee.
  - rewrite L3, A1. rewrite (pending_lists i (fi_timers f1)), (pending_lists i (t <| bt_current := _ |>)), L1, !Hl in P1.
    rewrite (Permutation_app_comm new), <- (assoc_L (++)) in P1. apply Permutation_app_inv_l in P1. rewrite P1. apply Permutation_app_comm.
  - rewrite A1, F1. done.
Qed.

(** Nothing appears or vanishes. *)
Lemma check_conserves now w t f :
  timers_ok t -> check_timer handle_timeout now w t = Some f -> fi_fired f ++ pending (fi_timers f) ≡ₚ fi_added f ++ pending t.
Proof.
  intros Ht E. destruct (check_timer_ok _ _ _ _ Ht E) as (_ & _ & F & L1 & L2 & _).
  rewrite (pending_lists (bt_current t) t), (pending_lists (bt_current t) (fi_timers f)), F, L1, L2.
  rewrite (filter_split (due now) (list_at (bt_current t) t)) at 3. rewrite <- !(assoc_L (++)), (Permutation_app_swap_app (fi_added f)).
  f_equiv. rewrite (Permutation_app_swap_app (fi_added f)). done.
Qed.

Lemma check_timer_total now w t :
  arms_one -> timers_ok t -> (2 * length (pending t) <= TIMER_IDS)%nat -> exists f, check_timer handle_timeout now w t = Some f.
Proof.
  intros Ho Ht Hl. unfold check_timer. destruct (switched_ok (negb (bt_current t)) t Ht) as [Hsw Hls].
  destruct (fire_due_total now (list_at (bt_current t) t) (mkFiring w (t <| bt_current := negb (bt_current t) |>) [] [] []) Ho) as [f ->].
  - done.
  - cbn [fi_timers]. rewrite (pending_lists (bt_current t) (t <| bt_current := _ |>)), !Hls, <- pending_lists.
    pose proof (f_equal (fun l => l) (Permutation_length (pending_lists (bt_current t) t))) as El. rewrite length_app in El. lia.
  - by eexists.
Qed.
End Firing.

(** ** Runs *)

Section Runs.
Context {W : Type} (handle_timeout : timer_msg -> W -> W * list (Z * timer_msg) * bool).

Lemma new_timers_ok : timers_ok new_base_timer.
Proof. constructor; [intros []; constructor|done|constructor|]. unfold TIMER_ID_BEGIN. cbn. unfold TIMER_ID_BEGIN. lia. Qed.

Lemma run_timers_ok ops w t w' t' added fired :
  timers_ok t -> run_timers handle_timeout ops w t = Some (w', t', added, fired) ->
  timers_ok t' /\ added ++ pending t ≡ₚ map snd fired ++ pending t' /\ Forall (fun e => due (fst e) (snd e)) fired.
Proof.
  revert w t w' t' added fired. induction ops as [|[now m|now] ops IH]; intros w t w' t' added fired Ht E; cbn [run_timers] in E.
  - injection E as <- <- <- <-. by split; [|split; [|constructor]].
  - destruct (add_timers [(now, m)] t) as [[a1 t1]|] eqn:E1; [|done].
    change (Some ?x ≫= ?f) with (f x) in E; cbv beta iota in E.
    destruct (run_timers _ ops w t1) as [[[[w2 t2] a2] f2]|] eqn:E2; [|done]. injection E as <- <- <- <-.
    destruct (add_timers_ok _ _ _ _ Ht E1) as (H1 & _ & _ & P1 & _). destruct (IH _ _ _ _ _ _ H1 E2) as (H2 & P2 & F2).
    split; [done|]. split; [|done]. by rewrite (Permutation_app_comm a1), <- (assoc_L (++)), <- P1.
  - destruct (check_timer _ now w t) as [f|] eqn:E1; [|done].
    change (Some ?x ≫= ?f) with (f x) in E; cbv beta iota in E.
    destruct (run_timers _ ops _ _) as [[[[w2 t2] a2] f2]|] eqn:E2; [|done]. injection E as <- <- <- <-.
    pose proof (check_conserves _ _ _ _ _ Ht E1) as P1.
    destruct (check_timer_ok _ _ _ _ _ Ht E1) as (H1 & _ & F1 & _). destruct (IH _ _ _ _ _ _ H1 E2) as (H2 & P2 & F2).
    split; [done|]. split.
    + rewrite map_app, map_map, (map_ext _ (fun e => e)), map_id by done.
      rewrite <- !(assoc_L (++)), <- P2, (Permutation_app_swap_app (fi_added f) a2), (Permutation_app_swap_app (fi_fired f) a2). by rewrite P1.
    + apply Forall_app. split; [|done]. apply Forall_map. rewrite F1. apply Forall_forall. intros e He. by apply list_elem_of_filter in He as [He _].
Qed.

Definition is_check (op : timer_op) : bool := match op with Check _ => true | Add _ _ => false end.

Definition checks_after (k : Z) (op : timer_op) : Prop := match op with Check now => k <= now | Add _ _ => True end.

Lemma run_add now m ops w t :
  timers_ok t -> (length (pending t) < TIMER_IDS)%nat ->
  exists t1, timers_ok t1 /\ (length (pending t1) <= S (length (pending t)))%nat /\ bt_current t1 = bt_current t /\
    (forall i e, e ∈ list_at i t -> e ∈ list_at i t1) /\
    forall w' t' a f, run_timers handle_timeout ops w t1 = Some (w', t', a, f) ->
      exists a', run_timers handle_timeout (Add now m :: ops) w t = Some (w', t', a', f).
Proof.
  intros Ht Hl. destruct (add_timers_total [(now, m)] t Ht ltac:(cbn; lia)) as [[a1 t1] E1].
  destruct (add_timers_ok _ _ _ _ Ht E1) as (H1 & C1 & L1 & P1 & N1). exists t1.
  split; [done|]. split; [rewrite P1, length_app; cbn in N1; lia|]. split; [done|]. split.
  - intros i e. by eapply kept_lists.
  - intros w' t' a f E2. exists (a1 ++ a). cbn [run_timers]. rewrite E1.
    change (Some ?x ≫= ?f) with (f x); cbv beta iota. by rewrite E2.
Qed.

Lemma run_check now ops w t :
  arms_one handle_timeout -> timers_ok t -> (2 * length (pending t) <= TIMER_IDS)%nat ->
  exists w1 t1 fired, timers_ok t1 /\ (length (pending t1) <= length (pending t))%nat /\ bt_current t1 = negb (bt_current t) /\
    fired = filter (due now) (list_at (bt_current t) t) /\ (forall e, e ∈ list_at (negb (bt_current t)) t -> e ∈ list_at (bt_current t1) t1) /\
    forall w' t' a f, run_timers handle_timeout ops w1 t1 = Some (w', t', a, f) ->
      exists a', run_timers handle_timeout (Check now :: ops) w t = Some (w', t', a', map (pair now) fired ++ f).
Proof.
  intros Ho Ht Hl. destruct (check_timer_total _ now w t Ho Ht Hl) as [f E1].
  pose proof (check_conserves _ _ _ _ _ Ht E1) as P1. destruct (check_timer_ok _ _ _ _ _ Ht E1) as (H1 & C1 & F1 & _ & L2 & N1).
  exists (fi_world f), (fi_timers f), (fi_fired f). split; [done|]. specialize (N1 Ho). split.
  { apply Permutation_length in P1. rewrite !length_app in P1. lia. }
  split; [done|]. split; [done|]. split.
  - intros e He. rewrite C1, L2. apply elem_of_app. by right.
  - intros w' t' a fr E2. exists (fi_added f ++ a). cbn [run_timers]. rewrite E1.
    change (Some ?x ≫= ?f) with (f x); cbv beta iota. by rewrite E2.
Qed.

Lemma run_total ops w t :
  arms_one handle_timeout -> timers_ok t -> (2 * (length (pending t) + length ops) <= TIMER_IDS)%nat ->
  exists r, run_timers handle_timeout ops w t = Some r.
Proof.
  intros Ho. revert w t. induction ops as [|[now m|now] ops IH]; intros w t Ht Hl; [by eexists| |]; cbn [length] in Hl.
  - destruct (run_add now m ops w t Ht ltac:(lia)) as (t1 & H1 & N1 & _ & _ & Hr).
    destruct (IH w t1 H1 ltac:(lia)) as [[[[w' t'] a] f] E]. destruct (Hr _ _ _ _ E) as [a' E']. by eexists.
  - destruct (run_check now ops w t Ho Ht ltac:(lia)) as (w1 & t1 & fired & H1 & N1 & _ & _ & _ & Hr).
    destruct (IH w1 t1 H1 ltac:(lia)) as [[[[w' t'] a] f] E]. destruct (Hr _ _ _ _ E) as [a' E']. by eexists.
Qed.

(** A due timer in the list [i] fires in one check when that is the current one, in two otherwise. *)
Lemma run_fires ops w t i e :
  arms_one handle_timeout -> timers_ok t -> e ∈ list_at i t -> Forall (checks_after (fst e)) ops ->
  ((if Bool.eqb i (bt_current t) then 1 else 2) <= length (filter is_check ops))%nat ->
  (2 * (length (pending t) + length ops) <= TIMER_IDS)%nat ->
  exists w' t' added fired, run_timers handle_timeout ops w t = Some (w', t', added, fired) /\ exists now, (now, e) ∈ fired.
Proof.
  intros Ho. revert w t i. induction ops as [|[now m|now] ops IH]; intros w t i Ht He Hf Hc Hl; [cbn in Hc; by destruct (Bool.eqb _ _); lia| |];
    apply Forall_cons in Hf as [Hnow Hf]; cbn [length] in Hl.
  - destruct (run_add now m ops w t Ht ltac:(lia)) as (t1 & H1 & N1 & C1 & L1 & Hr).
    destruct (IH w t1 i H1 (L1 _ _ He) Hf) as (w' & t' & a & f & E & Hin); [by rewrite C1|lia|].
    destruct (Hr _ _ _ _ E) as [a' E']. by exists w', t', a', f.
  - destruct (run_check now ops w t Ho Ht ltac:(lia)) as (w1 & t1 & fired & H1 & N1 & C1 & F1 & L1 & Hr).
    destruct (Bool.eqb_spec i (bt_current t)) as [->|Hi].
    + destruct (run_total ops w1 t1 Ho H1 ltac:(lia)) as [[[[w' t'] a] f] E]. destruct (Hr _ _ _ _ E) as [a' E'].
      exists w', t', a', (map (pair now) fired ++ f). split; [done|]. exists now. apply elem_of_app. left.
      apply list_elem_of_fmap. exists e. split; [done|]. rewrite F1. by apply list_elem_of_filter.
    + replace i with (negb (bt_current t)) in He by (by destruct i, (bt_current t)).
      destruct (IH w1 t1 (bt_current t1) H1 (L1 _ He) Hf) as (w' & t' & a & f & E & now' & Hin).
      { rewrite Bool.eqb_reflx. rewrite filter_cons_True in Hc by done. cbn [length] in Hc. lia. }
      { lia. }
      destruct (Hr _ _ _ _ E) as [a' E']. exists w', t', a', (map (pair now) fired ++ f). split; [done|].
      exists now'. apply elem_of_app. by right.
Qed.
End Runs.

(** Every timer fires once, and never early.  Over any sequence of
    [add_timer] and [check_timer], whatever the handlers arm: the timers that
    were armed are the ones that have fired and the ones that wait, each once;
    none fired before its time; and no two that wait have the same id. *)
Theorem timers_fire_once {W} (handle_timeout : timer_msg -> W -> W * list (Z * timer_msg) * bool) ops w w' t added fired :
  run_timers handle_timeout ops w new_base_timer = Some (w', t, added, fired) ->
  added ≡ₚ map snd fired ++ pending t /\ Forall (fun e => due (fst e) (snd e)) fired /\ NoDup (map id_of (pending t)).
Proof.
  intros E. destruct (run_timers_ok _ _ _ _ _ _ _ _ new_timers_ok E) as (Ht & P & F).
  split; [|split; [done|apply Ht]]. rewrite <- P. by rewrite app_nil_r.
Qed.

(** A timer that is due fires within two checks.  With handlers that arm at
    most one timer each, and fewer timers than half the ids, every call returns
    (a free id is found), and a waiting timer has fired after two checks at or
    after its time. *)
Theorem timer_fires_in_two_checks {W} (handle_timeout : timer_msg -> W -> W * list (Z * timer_msg) * bool) ops w t e :
  arms_one handle_timeout -> timers_ok t -> e ∈ pending t ->
  Forall (checks_after (fst e)) ops -> (2 <= length (filter is_check ops))%nat ->
  (2 * (length (pending t) + length ops) <= TIMER_IDS)%nat ->
  exists w' t' added fired, run_timers handle_timeout ops w t = Some (w', t', added, fired) /\ exists now, (now, e) ∈ fired.
Proof.
  intros Ho Ht He Hf Hc Hl. rewrite (pending_lists false t) in He. apply elem_of_app in He as [He|He].
  - eapply run_fires; [done|done|exact He|done| |done]. destruct (Bool.eqb _ _); lia.
  - eapply run_fires; [done|done|exact He|done| |done]. destruct (Bool.eqb _ _); lia.
Qed.

(** A handler that arms its timer again, 500 ms later, twice. *)
Definition demo_handler (m : timer_msg) (n : nat) : nat * list (Z * timer_msg) * bool :=
  match n with O => (O, [], true) | S n => (n, [(2000, m <| tm_time_length := 500 |>)], false) end.

Definition demo_timer : timer_msg := mkTimer 1001 6 0 1000.

Definition demo_ops : list timer_op := [Add 1000 demo_timer; Add 1000 demo_timer; Check 1500; Check 2000; Check 2010; Check 2600; Check 2700].

Lemma timers_fire_once_witness :
  exists w t added fired, run_timers demo_handler demo_ops 1%nat new_base_timer = Some (w, t, added, fired) /\
    added ≡ₚ map snd fired ++ pending t /\ map (fun e => (fst e, fst (snd e))) fired = [(2010, 2000); (2010, 2000); (2600, 2500)].
Proof.
  assert (exists w t added fired, run_timers demo_handler demo_ops 1%nat new_base_timer = Some (w, t, added, fired) /\
    map (fun e => (fst e, fst (snd e))) fired = [(2010, 2000); (2010, 2000); (2600, 2500)]) as (w & t & added & fired & E & Ef).
  { do 4 eexists. split; [vm_compute; reflexivity|reflexivity]. }
  exists w, t, added, fired. split; [exact E|]. destruct (timers_fire_once _ _ _ _ _ _ _ E) as [P _]. split; [exact P|exact Ef].
Defined.

Lemma demo_arms_one : arms_one demo_handler.
Proof. intros m [|n]; cbn; lia. Qed.

Lemma armed_waits {W} (handle_timeout : timer_msg -> W -> W * list (Z * timer_msg) * bool) ops w w' t added fired :
  run_timers handle_timeout ops w new_base_timer = Some (w', t, added, fired) -> timers_ok t.
Proof. intros E. apply (run_timers_ok _ _ _ _ _ _ _ _ new_timers_ok E). Qed.

Lemma enough_ids : (8 <= TIMER_IDS)%nat.
Proof. unfold TIMER_IDS, TIMER_ID_BEGIN. change 8%nat with (Z.to_nat 8). apply Z2Nat.inj_le; lia. Qed.

Lemma timer_fires_in_two_checks_witness :
  exists t e w' t' added fired, e ∈ pending t /\
    run_timers demo_handler [Check 5000; Add 1000 demo_timer; Check 5001] 1%nat t = Some (w', t', added, fired) /\
    exists now, (now, e) ∈ fired.
Proof.
  assert (exists t added, run_timers demo_handler [Add 1000 demo_timer; Check 1500] 1%nat new_base_timer = Some (1%nat, t, added, []) /\
    pending t = [(2000, mkTimer 1001 6 1001 1000)]) as (t & armed & E & Ep).
  { do 2 eexists. split; [vm_compute; reflexivity|reflexivity]. }
  exists t, (2000, mkTimer 1001 6 1001 1000).
  destruct (timer_fires_in_two_checks demo_handler [Check 5000; Add 1000 demo_timer; Check 5001] 1%nat t (2000, mkTimer 1001 6 1001 1000))
    as (w' & t' & added & fired & Er & Hin).
  - exact demo_arms_one.
  - exact (armed_waits _ _ _ _ _ _ _ E).
  - rewrite Ep. by left.
  - repeat constructor; cbn; lia.
  - change (2 <= 2)%nat. lia.
  - rewrite Ep. exact enough_ids.
  - exists w', t', added, fired. split; [rewrite Ep; by left|]. split; [exact Er|exact Hin].
Defined.
