(* ===== verification/HttpThread.v ===== *)
(** * The HTTP server thread (rxhttpthread.cpp, core/legacy_core_net.cpp, [common_obj_container])

    One thread with its objects: the channel its messages come through
    ([Channel]), the connections ([HttpConnection]) and the timers ([Timers]).
    [obj_process], the body of the thread's loop, is cut into steps: the kernel
    reports any sequence of events of the sockets, other threads send messages
    in between, and the end of a round closes what failed and checks the timers.
    [_obj_net_map] is left out, nothing ever enters it: [set_real_net(true)] is
    called by the handler of a timer whose object id, 2, no object has. *)

From S2P Require Import Prelude CppString Lexer TaskTypes Messages CaptureUtil PdefWriteback CaptureManager Cleanup Json Config UrlHandlers HttpApi ProcessResolver HttpText HttpConnection Channel Timers.

Definition OBJ_ID_DOMAIN : Z := 2.
Definition OBJ_ID_BEGIN : Z := 1000.
Definition NONE_CHANNEL_EVENT_TIMER_TYPE : Z := 7.
Definition MAX_CHANNEL_EVENT_TIMEOUT : Z := 1000.
(** [_time_length] of the timer of [handle_connect]. *)
Definition CONNECT_TIMEOUT : Z := 30000.

(** What the thread can get: a new socket ([content_msg]), or a message. *)
Inductive thread_msg := Connect (fd : Z) | Msg (m : message).

Inductive net_obj := ChannelObj | Conn (c : connection).

Section HttpThread.
Context {V W : Type} `{Json V} `{PdefFiles W}.

(** [CRxHttpResThread] with its container; [th_objs] is [_obj_map], [th_id] is
    [_id_str._id], [th_timing] whether [_last_time] of the channel is set, and
    [th_expect] the objects that failed in this round. *)
Record http_thread := mkThread {
  th_index : Z;
  th_objs : gmap Z net_obj;
  th_id : Z;
  th_timers : base_timer;
  th_channel : Channel.system (M := thread_msg);
  th_timing : bool;
  th_expect : gset Z;
  th_out : outbox;
  th_world : W;
}.

(** The counter of [gen_id_str], one turn on. *)
Definition next_id (id : Z) : Z := (if id <=? OBJ_ID_BEGIN then OBJ_ID_BEGIN else id) +32 1.

(** [gen_id_str] *)
Fixpoint gen_id_str {A} (fuel : nat) (objs : gmap Z A) (id : Z) : option Z :=
  match fuel with
  | O => None
  | S fuel => let id := next_id id in match objs !! id with Some _ => gen_id_str fuel objs id | None => Some id end
  end.

(** [common_obj_container::insert] *)
Definition insert_obj (o : Z -> net_obj) (t : http_thread) : option (Z * http_thread) :=
  id ← gen_id_str (S (size (th_objs t))) (th_objs t) (th_id t);
  Some (id, t <| th_id := id |> <| th_objs ::= <[id := o id]> |>).

(** [net_thread_init]: the channel is the first object. *)
Definition CHANNEL_ID : Z := 1001.

Definition new_thread (index : Z) (w : W) : http_thread :=
  mkThread index {[CHANNEL_ID := ChannelObj]} CHANNEL_ID new_base_timer idle_system false ∅ [] w.

(** What a step is seen to do. *)
Inductive label :=
  | Accepted (id : Z) (due : Z)
  | Delivered (id : Z) (m : message)
  | Stray (id : Z) (m : thread_msg)
  | Closed (id : Z)
  | Round (now : Z).

Definition arm (now : Z) (m : timer_msg) (t : http_thread) : option http_thread :=
  '(_, timers) ← add_timer now m (th_timers t); Some (t <| th_timers := timers |>).

(** [handle_connect]; [epoll_ok] is whether the kernel takes the socket.  When
    it does not, the connection is not inserted, its id stays 0, the timer is
    refused, and the connection is gone with the end of the function. *)
Definition handle_connect (now fd : Z) (epoll_ok : bool) (t : http_thread) : option (list label * http_thread) :=
  if (0 <? fd) && negb epoll_ok then
    t ← arm now (mkTimer 0 NONE_DATA_TIMER_TYPE 0 CONNECT_TIMEOUT) t; Some ([], t)
  else
    '(id, t) ← insert_obj (fun id => Conn (new_connection (mkObjId id (th_index t)))) t;
    t ← arm now (mkTimer id NONE_DATA_TIMER_TYPE 0 CONNECT_TIMEOUT) t;
    Some ([Accepted id (now +64 CONNECT_TIMEOUT)], t).

(** The state of the program around a connection. *)
Definition io_of (c : connection) (s : socket) (t : http_thread) : io (W := W) := mkIo c (th_out t) (th_world t) s.

Definition put_io (id : Z) (x : io (W := W)) (t : http_thread) : http_thread :=
  t <| th_objs ::= <[id := Conn (io_conn x)]> |> <| th_out := io_out x |> <| th_world := io_world x |>.

Definition no_fuel {A} (r : option A) : outcome A := match r with Some a => Done a | None => NoFuel end.

(** [common_obj_container::handle_msg], with [CRxHttpResThread::handle_msg]: of
    the messages to the thread only a new socket does something.  The objects
    for which nothing is done: the channel, and none with that id. *)
Definition handle_msg (e : http_env) (s : socket) (now : Z) (epoll_ok : bool) (id : Z) (m : thread_msg) (t : http_thread)
    : outcome (list label * http_thread) :=
  if id =? OBJ_ID_THREAD then
    match m with Connect fd => no_fuel (handle_connect now fd epoll_ok t) | Msg _ => Done ([], t) end
  else
    match th_objs t !! id, m with
    | Some (Conn c), Msg m => x ← handle_event e (Message m) (io_of c s t); Done ([Delivered id m], put_io id x t)
    | Some _, _ => Done ([], t)
    | None, m => Done ([Stray id m], t)
    end.

(** [base_connect::handle_timeout] throws. *)
Definition timeout_throws (objs : gmap Z net_obj) (m : timer_msg) : bool :=
  match objs !! tm_obj_id m with
  | Some (Conn _) => (tm_timer_type m =? DELAY_CLOSE_TIMER_TYPE) || (tm_timer_type m =? NONE_DATA_TIMER_TYPE)
  | _ => false
  end.

(** [common_obj_container::handle_timeout]: no object adds a timer. *)
Definition handle_timeout (objs : gmap Z net_obj) (m : timer_msg) (u : unit) : unit * list (Z * timer_msg) * bool :=
  (u, [], timeout_throws objs m).

Definition erase_objs (ids : gset Z) (t : http_thread) : http_thread :=
  t <| th_objs ::= filter (fun o => fst o ∉ ids) |>.

Definition closed (ids : gset Z) (t : http_thread) : list label :=
  map Closed (filter (fun id => th_objs t !! id <> None) (elements ids)).

(** The rest of [obj_process] after the events. *)
Definition end_round (now : Z) (t : http_thread) : option (list label * http_thread) :=
  let l1 := closed (th_expect t) t in
  let t := (erase_objs (th_expect t) t) <| th_expect := ∅ |> in
  f ← check_timer (handle_timeout (th_objs t)) now tt (th_timers t);
  let t := t <| th_timers := fi_timers f |> in
  let l2 := closed (list_to_set (fi_expect f)) t in
  Some (Round now :: l1 ++ l2, erase_objs (list_to_set (fi_expect f)) t).

Definition socket_event (ev : conn_event) : bool := match ev with Readable _ | Writable | Hangup => true | _ => false end.

(** The end of [process_recv_buf] of the channel: its timer, the first time. *)
Definition batch_done (now : Z) (t : http_thread) : option http_thread :=
  if th_timing t then Some t
  else
    t ← arm now (mkTimer OBJ_ID_DOMAIN NONE_CHANNEL_EVENT_TIMER_TYPE 0 MAX_CHANNEL_EVENT_TIMEOUT) t;
    Some (t <| th_timing := true |>).

(** What is left of a connection whose handler threw: it, what was posted and
    the files are whatever the handler had made of them. *)
Definition after_throw (id : Z) (c : connection) (posted : outbox) (w : W) (t : http_thread) : http_thread :=
  t <| th_objs ::= <[id := Conn c]> |> <| th_out ::= (fun o => o ++ posted) |> <| th_world := w |>.

Inductive step : http_thread -> list label -> http_thread -> Prop :=
  (* another thread sends a message *)
  | step_put t id m ch :
      Channel.step (th_channel t) [Put (id, m)] ch -> step t [] (t <| th_channel := ch |>)
  (* an event of a connection's socket *)
  | step_event t id c e s ev x :
      sy_reader (th_channel t) = Waiting -> th_objs t !! id = Some (Conn c) -> socket_event ev = true ->
      handle_event e ev (io_of c s t) = Done x ->
      step t [] (put_io id x t)
  | step_event_throws t id c e s ev reason c' posted w :
      sy_reader (th_channel t) = Waiting -> th_objs t !! id = Some (Conn c) -> socket_event ev = true ->
      handle_event e ev (io_of c s t) = Fails reason ->
      step t [] ((after_throw id c' posted w t) <| th_expect ::= union {[id]} |>)
  (* the channel is readable, its messages are taken and handled *)
  | step_recv t ch :
      Channel.step (th_channel t) [] ch -> sy_reader (th_channel t) = Waiting \/ sy_reader (th_channel t) = Received ->
      step t [] (t <| th_channel := ch |>)
  | step_message t id m ch e s now epoll_ok ls t' :
      Channel.step (th_channel t) [Handled (id, m)] ch ->
      handle_msg e s now epoll_ok id m t = Done (ls, t') ->
      step t ls (t' <| th_channel := ch |>)
  (* an exception is the channel's, not the connection's *)
  | step_message_throws t id m todo ch e s now epoll_ok reason c' posted w :
      Channel.step (th_channel t) (Threw (id, m) :: map Lost todo) ch ->
      handle_msg e s now epoll_ok id m t = Fails reason ->
      step t [] ((after_throw id c' posted w t) <| th_channel := ch |> <| th_expect ::= union {[CHANNEL_ID]} |>)
  | step_done t ch n now t' :
      Channel.step (th_channel t) [] ch -> sy_reader (th_channel t) = Handling [] n ->
      batch_done now t = Some t' ->
      step t [] (t' <| th_channel := ch |>)
  | step_round t now ls t' :
      sy_reader (th_channel t) = Waiting -> end_round now t = Some (ls, t') ->
      step t ls t'.

Inductive steps : http_thread -> list label -> http_thread -> Prop :=
  | steps_nil t : steps t [] t
  | steps_snoc t tr t1 ls t2 : steps t tr t1 -> step t1 ls t2 -> steps t (tr ++ ls) t2.
End HttpThread.

(** ** The invariant *)

Definition is_conn (o : net_obj) : bool := match o with Conn _ => true | ChannelObj => false end.

Definition accepted (tr : list label) : list Z := omap (fun l => match l with Accepted id _ => Some id | _ => None end) tr.

Definition rounds (tr : list label) : list Z := omap (fun l => match l with Round now => Some now | _ => None end) tr.

(** As many connections as ids and timers surely last for. *)
Definition MAX_ACCEPTED : Z := 2 ^ 31 - 2000.

(** What may happen after [seen]: a message reaches the connection that was
    accepted under its id and is still open, or there is none. *)
Definition routed_label (seen : list label) (l : label) : Prop :=
  match l with
  | Delivered id _ => id ∈ accepted seen /\ Closed id ∉ seen
  | Stray id _ => id ∈ accepted seen -> Closed id ∈ seen
  | _ => True
  end.

Fixpoint routed_from (seen tr : list label) : Prop :=
  match tr with [] => True | l :: tr => routed_label seen l /\ routed_from (seen ++ [l]) tr end.

Lemma routed_app seen a b : routed_from seen (a ++ b) <-> routed_from seen a /\ routed_from (seen ++ a) b.
Proof.
  revert seen. induction a as [|l a IH]; intros seen; cbn [app routed_from]; [rewrite app_nil_r; tauto|].
  rewrite IH, <- (assoc_L (++)). tauto.
Qed.

Definition plain (l : label) : Prop := match l with Delivered _ _ | Stray _ _ => False | _ => True end.

Lemma routed_plain seen tr : Forall plain tr -> routed_from seen tr.
Proof. intros Hf. revert seen. induction Hf as [|l tr Hl Hf IH]; intros seen; [done|]. by destruct l. Qed.

Lemma accepted_app a b : accepted (a ++ b) = accepted a ++ accepted b.
Proof. apply omap_app. Qed.

Lemma closed_of (ids : list Z) id : Closed id ∈ map Closed ids <-> id ∈ ids.
Proof.
  split; [|intros Hin; apply list_elem_of_fmap; by exists id].
  intros Hin. apply list_elem_of_fmap in Hin as (id' & [= ->] & Hin). done.
Qed.

Lemma accepted_closed ids : accepted (map Closed ids) = [].
Proof. by induction ids. Qed.

Section Invariant.
Context {V W : Type} `{Json V} `{PdefFiles W}.

(** Whether there is an object, and whether it is a connection. *)
Definition kind (t : http_thread (W := W)) (id : Z) : option bool := is_conn <$> th_objs t !! id.

(** The timer that closes a connection. *)
Definition closing_timer (id due : Z) (e : Z * timer_msg) : Prop :=
  fst e = due /\ tm_obj_id (snd e) = id /\ tm_timer_type (snd e) = NONE_DATA_TIMER_TYPE.

Record thread_inv (tr : list label) (t : http_thread) : Prop := {
  ti_timers : timers_ok (th_timers t);
  ti_count : (length (Timers.pending (th_timers t)) <= length (accepted tr) + if th_timing t then 1 else 0)%nat;
  ti_id : th_id t = CHANNEL_ID + Z.of_nat (length (accepted tr));
  ti_objs id k : kind t id = Some k -> CHANNEL_ID <= id <= th_id t;
  ti_conns id : kind t id = Some true -> exists due, Accepted id due ∈ tr;
  ti_armed id due : Accepted id due ∈ tr -> kind t id = Some true ->
    exists e, e ∈ Timers.pending (th_timers t) /\ closing_timer id due e;
  ti_ids : Forall (fun id => CHANNEL_ID < id <= th_id t) (accepted tr);
  ti_unique : NoDup (accepted tr);
  ti_open id : id ∈ accepted tr -> kind t id = Some true \/ kind t id = None /\ Closed id ∈ tr;
  ti_closed id : id ∈ accepted tr -> Closed id ∈ tr -> kind t id = None;
  ti_old id : Closed id ∈ tr -> id <= th_id t;
  ti_routed : routed_from [] tr;
}.

Lemma elem_accepted id tr : id ∈ accepted tr <-> exists due, Accepted id due ∈ tr.
Proof.
  unfold accepted. rewrite list_elem_of_omap. split.
  - intros (l & Hl & E). destruct l; try done. injection E as ->. by eexists.
  - intros [due Hd]. by exists (Accepted id due).
Qed.

(** Steps that leave the objects, up to their content, and the timers alone. *)
Definition quiet (t t' : http_thread) : Prop :=
  (forall id, kind t' id = kind t id) /\ th_id t' = th_id t /\ th_timers t' = th_timers t /\ th_timing t' = th_timing t.

Lemma inv_quiet tr t t' : thread_inv tr t -> quiet t t' -> thread_inv tr t'.
Proof.
  intros [] (Hk & Hi & Ht & Hg). constructor; rewrite ?Hi, ?Ht, ?Hg; try done; intros id; rewrite ?Hk; eauto.
Qed.

(** Labels that say nothing of objects. *)
Lemma inv_label tr l t : thread_inv tr t -> routed_label tr l -> accepted [l] = [] -> (forall id, l <> Closed id) -> thread_inv (tr ++ [l]) t.
Proof.
  intros [] Hr Ha Hc. assert (accepted (tr ++ [l]) = accepted tr) as Ea by (by rewrite accepted_app, Ha, app_nil_r).
  assert (forall id, Closed id ∈ tr ++ [l] <-> Closed id ∈ tr) as Ec.
  { intros id. rewrite elem_of_app, list_elem_of_singleton. split; [|by left]. intros [|E]; [done|]. by destruct (Hc id). }
  assert (forall id due, Accepted id due ∈ tr ++ [l] <-> Accepted id due ∈ tr) as Eacc.
  { intros id due. rewrite elem_of_app, list_elem_of_singleton. split; [|by left]. intros [|E]; [done|]. by subst l. }
  constructor; rewrite ?Ea; try done.
  - intros id Hk. destruct (ti_conns0 id Hk) as [due Hd]. exists due. by apply Eacc.
  - intros id due Hd. apply Eacc in Hd. eauto.
  - intros id Hid. rewrite Ec. auto.
  - intros id Hid. rewrite Ec. auto.
  - intros id. rewrite Ec. auto.
  - apply routed_app. split; [done|]. by split.
Qed.

Lemma quiet_objs t id c : kind t id = Some true -> quiet t (t <| th_objs ::= <[id := Conn c]> |>).
Proof.
  intros Hk. split; [|by destruct t]. intros i. unfold kind in *. destruct t as [a objs b d ch g x o w]. cbn in *.
  destruct (decide (id = i)) as [->|Hi]; [by rewrite lookup_insert_eq|by rewrite lookup_insert_ne].
Qed.

Lemma thread_quiet_trans t1 t2 t3 : quiet t1 t2 -> quiet t2 t3 -> quiet t1 t3.
Proof. intros (A & B & C & D) (A' & B' & C' & D'). split; [intros i; by rewrite A', A|]. by rewrite B', C', D', B, C, D. Qed.

Lemma quiet_channel t ch : quiet t (t <| th_channel := ch |>).
Proof. by destruct t. Qed.

Lemma quiet_expect t s : quiet t (t <| th_expect ::= union s |>).
Proof. by destruct t. Qed.

Lemma kind_conn (t : http_thread (W := W)) id c : th_objs t !! id = Some (Conn c) -> kind t id = Some true.
Proof. unfold kind. by intros ->. Qed.

Lemma quiet_put t id c x : th_objs t !! id = Some (Conn c) -> quiet t (put_io id x t).
Proof.
  intros Hc. apply kind_conn in Hc. eapply thread_quiet_trans; [apply (quiet_objs t id (io_conn x) Hc)|].
  unfold put_io. by destruct t.
Qed.

Lemma quiet_throw t id c c' posted w : th_objs t !! id = Some (Conn c) -> quiet t (after_throw id c' posted w t).
Proof.
  intros Hc. apply kind_conn in Hc. eapply thread_quiet_trans; [apply (quiet_objs t id c' Hc)|].
  unfold after_throw. by destruct t.
Qed.

Lemma pending_in t e : e ∈ Timers.pending t <-> exists i, e ∈ list_at i t.
Proof.
  rewrite (pending_lists false t), elem_of_app. split; [intros [He|He]; by eexists|]. intros [[] He]; [by right|by left].
Qed.

Lemma arm_ok now m t t' :
  timers_ok (th_timers t) -> arm now m t = Some t' ->
  timers_ok (th_timers t') /\ (forall id, kind t' id = kind t id) /\ th_id t' = th_id t /\ th_timing t' = th_timing t /\
  bt_current (th_timers t') = bt_current (th_timers t) /\
  (forall i e, e ∈ list_at i (th_timers t) -> e ∈ list_at i (th_timers t')) /\
  (length (Timers.pending (th_timers t')) <= S (length (Timers.pending (th_timers t))))%nat /\
  (tm_obj_id m = 0 -> th_timers t' = th_timers t) /\
  (tm_time_length m <> 0 -> tm_obj_id m <> 0 ->
   exists e, e ∈ Timers.pending (th_timers t') /\ fst e = reach_time now m /\ tm_obj_id (snd e) = tm_obj_id m /\
     tm_timer_type (snd e) = tm_timer_type m).
Proof.
  intros Ht. unfold arm. destruct (add_timer now m (th_timers t)) as [[r t1]|] eqn:E; [|done].
  change (Some ?x ≫= ?f) with (f x); cbv beta iota. intros [= <-].
  destruct (add_timer_ok _ _ _ _ _ Ht E) as (H1 & C1 & L1 & P1). apply add_timer_armed in E as Er.
  assert (th_timers (t <| th_timers := t1 |>) = t1) as Et by (by destruct t).
  assert (exists added, Timers.pending t1 ≡ₚ added ++ Timers.pending (th_timers t) /\ (length added <= 1)%nat) as (added & Pa & Na).
  { destruct r as [m'|]; [exists [(reach_time now m, m')]; by destruct P1|exists []; subst t1; split; [done|cbn; lia]]. }
  split; [by destruct t|]. split; [by destruct t|]. split; [by destruct t|]. split; [by destruct t|].
  split; [by destruct t|]. split; [intros i e He; destruct t; by eapply kept_lists|].
  split; [destruct t; cbn in *; rewrite Pa, length_app; lia|]. split.
  - intros Ho. destruct r as [m'|]; [|subst t1; by destruct t].
    unfold add_timer in E. rewrite Ho, Z.eqb_refl, orb_true_r in E. discriminate.
  - intros Hl Ho. destruct r as [m'|]; [|destruct Er; lia]. destruct P1 as [P1 _], Er as [Eo Ety].
    exists (reach_time now m, m'). split; [|done]. destruct t; cbn in *. rewrite P1. by left.
Qed.

Lemma enough_timer_ids (n : nat) : Z.of_nat n <= MAX_ACCEPTED + 1 -> (2 * n <= TIMER_IDS)%nat.
Proof. unfold MAX_ACCEPTED, TIMER_IDS, TIMER_ID_BEGIN. intros Hn. apply Nat2Z.inj_le. rewrite Z2Nat.id by lia. lia. Qed.

Lemma inv_room tr t : thread_inv tr t -> Z.of_nat (length (accepted tr)) <= MAX_ACCEPTED ->
  Z.of_nat (length (Timers.pending (th_timers t))) <= MAX_ACCEPTED + 1.
Proof. intros Hi Hb. pose proof (ti_count _ _ Hi). destruct (th_timing t); lia. Qed.

Lemma arm_total tr t now m : thread_inv tr t -> Z.of_nat (length (accepted tr)) <= MAX_ACCEPTED -> exists t', arm now m t = Some t'.
Proof.
  intros Hi Hb. pose proof (inv_room _ _ Hi Hb) as Hr. apply enough_timer_ids in Hr.
  destruct (add_timer_total now m (th_timers t) (ti_timers _ _ Hi)) as [[r t1] E].
  { assert (0 < TIMER_IDS)%nat by (apply (Nat.lt_le_trans _ 8); [lia|apply enough_ids]). lia. }
  unfold arm. rewrite E. by eexists.
Qed.

(** The next id is free. *)
Lemma fresh_id tr t o : thread_inv tr t -> Z.of_nat (length (accepted tr)) < MAX_ACCEPTED ->
  insert_obj o t = Some (th_id t + 1, t <| th_id := th_id t + 1 |> <| th_objs ::= <[th_id t + 1 := o (th_id t + 1)]> |>) /\
  kind t (th_id t + 1) = None.
Proof.
  intros Hi Hb. assert (next_id (th_id t) = th_id t + 1) as En.
  { unfold next_id. rewrite (ti_id _ _ Hi). unfold OBJ_ID_BEGIN, CHANNEL_ID, MAX_ACCEPTED in *.
    destruct (Z.leb_spec (1001 + Z.of_nat (length (accepted tr))) 1000); [lia|]. apply u32_small. lia. }
  assert (kind t (th_id t + 1) = None) as Hk.
  { destruct (kind t (th_id t + 1)) as [k|] eqn:E; [|done]. apply (ti_objs _ _ Hi) in E. lia. }
  split; [|done]. unfold insert_obj. cbn [gen_id_str]. rewrite En. unfold kind in Hk. by destruct (th_objs t !! (th_id t + 1)).
Qed.

Lemma kind_insert t id c i :
  kind (t <| th_id := id |> <| th_objs ::= <[id := Conn c]> |>) i = if decide (i = id) then Some true else kind t i.
Proof.
  unfold kind. destruct t as [a objs b d ch g x o w]. cbn. destruct (decide (i = id)) as [->|Hi];
    [by rewrite lookup_insert_eq|by rewrite lookup_insert_ne].
Qed.

(** A connection is taken in under a new id, with a timer to close it. *)
Lemma inv_accept tr now fd epoll_ok t :
  thread_inv tr t -> Z.of_nat (length (accepted tr)) < MAX_ACCEPTED ->
  exists ls t', handle_connect now fd epoll_ok t = Some (ls, t') /\ thread_inv (tr ++ ls) t' /\
    (forall i e, e ∈ list_at i (th_timers t) -> e ∈ list_at i (th_timers t')) /\ bt_current (th_timers t') = bt_current (th_timers t) /\
    rounds ls = [].
Proof.
  intros Hi Hb. unfold handle_connect. destruct ((0 <? fd) && negb epoll_ok).
  { destruct (arm_total tr t now (mkTimer 0 NONE_DATA_TIMER_TYPE 0 CONNECT_TIMEOUT) Hi ltac:(lia)) as [t1 E]. rewrite E.
    destruct (arm_ok _ _ _ _ (ti_timers _ _ Hi) E) as (_ & Hk & Hid & Hg & Hc & Hl & _ & Ht & _). specialize (Ht eq_refl).
    exists [], t1. rewrite app_nil_r. split; [done|]. split; [|done]. by apply (inv_quiet _ t). }
  destruct (fresh_id tr t (fun id => Conn (new_connection (mkObjId id (th_index t)))) Hi Hb) as [-> Hfree].
  change (Some ?x ≫= ?f) with (f x); cbv beta iota.
  set (id := th_id t + 1) in *. set (c := new_connection _).
  remember (t <| th_id := id |> <| th_objs ::= <[id := Conn c]> |>) as t1 eqn:E1.
  assert (th_timers t1 = th_timers t /\ th_timing t1 = th_timing t /\ th_id t1 = id) as (T1 & G1 & I1) by (subst t1; by destruct t).
  assert (forall i, kind t1 i = if decide (i = id) then Some true else kind t i) as K1 by (intros i; subst t1; apply kind_insert).
  set (m := mkTimer id NONE_DATA_TIMER_TYPE 0 CONNECT_TIMEOUT).
  destruct (add_timer_total now m (th_timers t1)) as [[r timers] Ea].
  { rewrite T1. apply Hi. }
  { rewrite T1. pose proof (inv_room _ _ Hi ltac:(lia)) as Hr. apply enough_timer_ids in Hr.
    assert (0 < TIMER_IDS)%nat by (apply (Nat.lt_le_trans _ 8); [lia|apply enough_ids]). lia. }
  assert (arm now m t1 = Some (t1 <| th_timers := timers |>)) as E by (unfold arm; by rewrite Ea).
  rewrite E. change (Some ?x ≫= ?f) with (f x); cbv beta iota. clear E1 Ea. generalize dependent (t1 <| th_timers := timers |>). intros t2 E.
  destruct (arm_ok _ _ t1 _ ltac:(rewrite T1; apply Hi) E) as (H2 & Hk & Hid & Hg & Hc & Hl & Hn & _ & He).
  rewrite T1 in Hc, Hn. rewrite G1 in Hg. rewrite I1 in Hid.
  eexists _, t2. split; [done|]. split; [|split; [intros i e; rewrite <- T1; apply Hl|by split]].
  assert (forall i, kind t2 i = if decide (i = id) then Some true else kind t i) as K2 by (intros i; by rewrite Hk, K1).
  pose proof (ti_id _ _ Hi) as Eid. assert (CHANNEL_ID < id) as Hpos by lia.
  assert (id ∉ accepted tr) as Hnew.
  { intros Hin. pose proof (ti_ids _ _ Hi) as Hf. rewrite Forall_forall in Hf. apply Hf in Hin. lia. }
  assert (accepted (tr ++ [Accepted id (now +64 CONNECT_TIMEOUT)]) = accepted tr ++ [id]) as Eacc by apply accepted_app.
  assert (forall i, Closed i ∈ tr ++ [Accepted id (now +64 CONNECT_TIMEOUT)] <-> Closed i ∈ tr) as Ec.
  { intros i. rewrite elem_of_app, list_elem_of_singleton. split; [intros [|]; done|by left]. }
  constructor; rewrite ?Eacc.
  - done.
  - rewrite length_app, Hg. cbn [length]. pose proof (ti_count _ _ Hi). lia.
  - rewrite Hid, length_app. cbn [length]. lia.
  - intros i k. rewrite K2, Hid. destruct (decide (i = id)) as [->|]; [lia|]. intros Hx. apply (ti_objs _ _ Hi) in Hx. lia.
  - intros i. rewrite K2. destruct (decide (i = id)) as [->|].
    + intros _. eexists. apply elem_of_app. right. by left.
    + intros Hx. destruct (ti_conns _ _ Hi i Hx) as [due Hd]. exists due. apply elem_of_app. by left.
  - intros i due Hd Hx. apply elem_of_app in Hd as [Hd|Hd].
    + rewrite K2, decide_False in Hx by (intros ->; apply Hnew; apply elem_accepted; by eexists).
      destruct (ti_armed _ _ Hi i due Hd Hx) as (e & Hin & Hcl). exists e. split; [|done].
      apply pending_in in Hin as [j Hin]. apply pending_in. exists j. apply Hl. by rewrite T1.
    + apply list_elem_of_singleton in Hd. injection Hd as -> ->.
      destruct He as (e & Hin & Ef & Eo & Ety); [done|subst m; cbn; unfold CHANNEL_ID in Hpos; lia|]. exists e. split; [done|]. by split.
  - apply Forall_app. split; [|constructor; [lia|done]]. eapply Forall_impl; [apply (ti_ids _ _ Hi)|]. intros i. cbn. lia.
  - rewrite (Permutation_app_comm (accepted tr)). constructor; [done|apply Hi].
  - intros i Hin. rewrite Ec, K2. destruct (decide (i = id)) as [->|]; [by left|].
    apply (ti_open _ _ Hi). apply elem_of_app in Hin as [|Hin]; [done|]. by apply list_elem_of_singleton in Hin.
  - intros i Hin. rewrite Ec, K2. intros Hcl. destruct (decide (i = id)) as [->|].
    + apply (ti_old _ _ Hi) in Hcl. lia.
    + apply (ti_closed _ _ Hi); [|done]. apply elem_of_app in Hin as [|Hin]; [done|]. by apply list_elem_of_singleton in Hin.
  - intros i. rewrite Ec, Hid. intros Hcl. apply (ti_old _ _ Hi) in Hcl. lia.
  - apply routed_app. split; [apply Hi|]. by split.
Qed.

(** ** Rounds *)

Lemma kind_erase ids t i : kind (erase_objs ids t) i = if decide (i ∈ ids) then None else kind t i.
Proof.
  unfold kind, erase_objs. destruct t as [a objs b d ch g x o w]. cbn. destruct (decide (i ∈ ids)) as [Hi|Hi].
  - rewrite map_lookup_filter_None_2; [done|]. right. intros y _ Hy. by apply Hy.
  - destruct (objs !! i) as [y|] eqn:E; [|by rewrite map_lookup_filter_None_2 by (by left)].
    by erewrite (proj2 (map_lookup_filter_Some _ _ _ _)) by done.
Qed.

Lemma erase_rest ids (t : http_thread (W := W)) :
  th_id (erase_objs ids t) = th_id t /\ th_timers (erase_objs ids t) = th_timers t /\ th_timing (erase_objs ids t) = th_timing t.
Proof. by destruct t. Qed.

Lemma closed_iff ids t id : Closed id ∈ closed ids t <-> id ∈ ids /\ kind t id <> None.
Proof.
  unfold closed, kind. rewrite closed_of, list_elem_of_filter, elem_of_elements, fmap_None. tauto.
Qed.

Lemma closed_plain ids (t : http_thread (W := W)) : Forall plain (closed ids t) /\ accepted (closed ids t) = [] /\ rounds (closed ids t) = [].
Proof.
  unfold closed. split; [apply Forall_map; by apply Forall_true|]. split; [apply accepted_closed|].
  by induction (filter _ _).
Qed.

Lemma inv_erase tr ids t : thread_inv tr t -> thread_inv (tr ++ closed ids t) (erase_objs ids t).
Proof.
  intros Hi. destruct (erase_rest ids t) as (E1 & E2 & E3), (closed_plain ids t) as (Hpl & Ha & _).
  assert (accepted (tr ++ closed ids t) = accepted tr) as Eacc by (by rewrite accepted_app, Ha, app_nil_r).
  assert (forall id k, kind (erase_objs ids t) id = Some k -> kind t id = Some k /\ id ∉ ids) as Hk.
  { intros id k. rewrite kind_erase. by destruct (decide (id ∈ ids)). }
  assert (forall id due, Accepted id due ∈ tr ++ closed ids t -> Accepted id due ∈ tr) as Hacc.
  { intros id due Hd. apply elem_of_app in Hd as [|Hd]; [done|]. exfalso. unfold closed in Hd. apply list_elem_of_fmap in Hd as (? & ? & _). done. }
  constructor; rewrite ?E1, ?E2, ?E3, ?Eacc; try apply Hi.
  - intros id k Hx. apply Hk in Hx as [Hx _]. by apply (ti_objs _ _ Hi) in Hx.
  - intros id Hx. apply Hk in Hx as [Hx _]. destruct (ti_conns _ _ Hi _ Hx) as [due Hd]. exists due. apply elem_of_app. by left.
  - intros id due Hd Hx. apply Hk in Hx as [Hx _]. apply (ti_armed _ _ Hi _ _ (Hacc _ _ Hd) Hx).
  - intros id Hin. rewrite elem_of_app, closed_iff, kind_erase.
    destruct (ti_open _ _ Hi id Hin) as [Hx|[Hx Hc]], (decide (id ∈ ids)) as [Hin'|]; rewrite ?Hx; auto.
  - intros id Hin. rewrite elem_of_app, closed_iff, kind_erase. destruct (decide (id ∈ ids)); [done|].
    intros [Hc|[]]; [|done]. by apply (ti_closed _ _ Hi).
  - intros id. rewrite elem_of_app, closed_iff. intros [Hc|[_ Hx]]; [by apply (ti_old _ _ Hi)|].
    destruct (kind t id) as [k|] eqn:Ek; [|done]. apply (ti_objs _ _ Hi) in Ek. lia.
  - apply routed_app. split; [apply Hi|]. by apply routed_plain.
Qed.

(** What fires and throws is expected. *)
Lemma expect_fired objs now l f f' :
  fire_due (handle_timeout objs) now l f = Some f' ->
  (forall e, e ∈ fi_fired f -> timeout_throws objs (snd e) = true -> tm_obj_id (snd e) ∈ fi_expect f) ->
  forall e, e ∈ fi_fired f' -> timeout_throws objs (snd e) = true -> tm_obj_id (snd e) ∈ fi_expect f'.
Proof.
  revert f. induction l as [|[k m] l IH]; intros f E Hf; cbn [fire_due] in E; [by injection E as <-|].
  destruct (now <? k); [by injection E as <-|]. cbn [handle_timeout add_timers] in E.
  change (Some ?x ≫= ?f) with (f x) in E; cbv beta iota in E. apply (IH _ E). cbn [fi_fired fi_expect].
  intros e He Ht. apply elem_of_app in He as [He|He]; apply elem_of_app; [left; by apply Hf|right].
  apply list_elem_of_singleton in He. subst e. cbn [snd] in Ht |- *. rewrite Ht. by left.
Qed.

Lemma never_arms objs : arms_one (handle_timeout objs).
Proof. intros m w. cbn. lia. Qed.

Lemma round_checks objs now t f :
  check_timer (handle_timeout objs) now tt t = Some f ->
  forall e, e ∈ fi_fired f -> timeout_throws objs (snd e) = true -> tm_obj_id (snd e) ∈ fi_expect f.
Proof.
  unfold check_timer. destruct (fire_due _ _ _ _) as [f1|] eqn:E; [|done]. intros [= <-]. cbn [fi_fired fi_expect].
  apply (expect_fired _ _ _ _ _ E). cbn. intros e He. by apply elem_of_nil in He.
Qed.

Lemma inv_timers tr t timers :
  thread_inv tr t -> timers_ok timers -> (length (Timers.pending timers) <= length (Timers.pending (th_timers t)))%nat ->
  (forall id due e, kind t id = Some true -> e ∈ Timers.pending (th_timers t) -> closing_timer id due e -> e ∈ Timers.pending timers) ->
  thread_inv tr (t <| th_timers := timers |>).
Proof.
  intros Hi Ht Hn He. assert (forall id, kind (t <| th_timers := timers |>) id = kind t id) as Hk by (by destruct t).
  assert (th_id (t <| th_timers := timers |>) = th_id t /\ th_timing (t <| th_timers := timers |>) = th_timing t /\
          th_timers (t <| th_timers := timers |>) = timers) as (E1 & E2 & E3) by (by destruct t).
  destruct Hi. constructor; rewrite ?E1, ?E2, ?E3; try done; try (intros id; rewrite ?Hk; eauto; fail); [lia|].
  intros id due Hd. rewrite Hk. intros Hx. destruct (ti_armed0 id due Hd Hx) as (e & Hin & Hcl). exists e. eauto.
Qed.

Lemma quiet_erased t : quiet t (t <| th_expect := ∅ |>).
Proof. by destruct t. Qed.

(** The end of a round: what failed is closed, then what is overdue. *)
Lemma inv_round tr now t :
  thread_inv tr t -> Z.of_nat (length (accepted tr)) <= MAX_ACCEPTED ->
  exists ls t' f, end_round now t = Some (ls, t') /\ thread_inv (tr ++ ls) t' /\ rounds ls = [now] /\
    check_timer (handle_timeout (th_objs (erase_objs (th_expect t) t))) now tt (th_timers t) = Some f /\ th_timers t' = fi_timers f /\
    (forall id, kind t' id = Some true -> kind t id = Some true /\
      (forall due e, e ∈ fi_fired f -> ~ closing_timer id due e)).
Proof.
  intros Hi Hb. unfold end_round.
  apply (inv_label _ (Round now)) in Hi; [|done..]. apply (inv_erase _ (th_expect t)) in Hi as H1.
  assert (accepted (tr ++ [Round now]) = accepted tr) as Ea by (by rewrite accepted_app, app_nil_r).
  assert (quiet (erase_objs (th_expect t) t) ((erase_objs (th_expect t) t) <| th_expect := ∅ |>)) as Hq by apply quiet_erased.
  apply (inv_quiet _ _ _ H1) in Hq.
  assert (th_objs ((erase_objs (th_expect t) t) <| th_expect := ∅ |>) = th_objs (erase_objs (th_expect t) t) /\
          th_timers ((erase_objs (th_expect t) t) <| th_expect := ∅ |>) = th_timers t) as [-> ->] by (by destruct t).
  destruct (check_timer_total (handle_timeout (th_objs (erase_objs (th_expect t) t))) now tt (th_timers t) (never_arms _)) as [f E].
  { apply Hi. }
  { apply enough_timer_ids, (inv_room _ _ Hi). by rewrite Ea. }
  rewrite E. change (Some ?x ≫= ?f) with (f x); cbv beta iota.
  pose proof (round_checks _ _ _ _ E) as Hexp. pose proof (check_conserves _ _ _ _ _ (ti_timers _ _ Hi) E) as Hp.
  destruct (check_timer_ok _ _ _ _ _ (ti_timers _ _ Hi) E) as (Hok & _ & _ & _ & _ & Hlen). specialize (Hlen (never_arms _)).
  set (ids := list_to_set (C := gset Z) (fi_expect f)).
  set (u := (erase_objs (th_expect t) t) <| th_expect := ∅ |>) in *.
  assert (th_timers u = th_timers t) as Eu by (subst u; by destruct t).
  assert (forall id due e, kind u id = Some true -> e ∈ fi_fired f -> closing_timer id due e -> id ∈ ids) as Hfired.
  { intros id due e Hk He (_ & Eo & Ety). subst ids. apply elem_of_list_to_set. rewrite <- Eo. apply Hexp; [done|].
    unfold timeout_throws. rewrite Eo, Ety. subst u. unfold kind in Hk.
    assert (th_objs ((erase_objs (th_expect t) t) <| th_expect := ∅ |>) = th_objs (erase_objs (th_expect t) t)) as Er by (by destruct t).
    rewrite Er in Hk. destruct (_ !! id) as [[|c]|]; [done|by rewrite Z.eqb_refl, orb_true_r|done]. }
  apply (inv_erase _ ids) in Hq as H2.
  assert (thread_inv (((tr ++ [Round now]) ++ closed (th_expect t) t) ++ closed ids u) ((erase_objs ids u) <| th_timers := fi_timers f |>)) as H3.
  { apply inv_timers; [done|done| |].
    - destruct (erase_rest ids u) as (_ & -> & _). rewrite Eu. apply Permutation_length in Hp. rewrite !length_app in Hp. lia.
    - intros id due e Hk. rewrite kind_erase in Hk. destruct (decide (id ∈ ids)) as [|Hn]; [done|].
      destruct (erase_rest ids u) as (_ & -> & _). rewrite Eu. intros He Hcl.
      assert (e ∈ fi_fired f ++ Timers.pending (fi_timers f)) as Hin by (rewrite Hp; apply elem_of_app; by right).
      apply elem_of_app in Hin as [Hin|]; [|done]. by destruct Hn; eapply Hfired. }
  eexists _, (erase_objs ids (u <| th_timers := fi_timers f |>)), f. split; [reflexivity|].
  assert (erase_objs ids (u <| th_timers := fi_timers f |>) = (erase_objs ids u) <| th_timers := fi_timers f |>) as -> by (by destruct u).
  assert (closed ids (u <| th_timers := fi_timers f |>) = closed ids u) as -> by (by destruct u).
  split; [|split; [|split; [done|split; [by destruct u|]]]].
  - by rewrite <- !(assoc_L (++)) in H3.
  - destruct (closed_plain (th_expect t) t) as (_ & _ & R1), (closed_plain ids u) as (_ & _ & R2).
    unfold rounds in *. change (Round now :: ?x) with ([Round now] ++ x). by rewrite !omap_app, R1, R2.
  - intros id Hk. assert (kind (erase_objs ids u) id = Some true) as Hk' by (rewrite <- Hk; by destruct u).
    rewrite kind_erase in Hk'. destruct (decide (id ∈ ids)) as [|Hn]; [done|]. split.
    + assert (kind u id = kind (erase_objs (th_expect t) t) id) as Eku by (subst u; by destruct t).
      rewrite Eku, kind_erase in Hk'. by destruct (decide _).
    + intros due e He Hcl. by apply Hn, (Hfired id due e).
Qed.

(** ** Steps *)

(** Timers are only added. *)
Definition keeps (t t' : http_thread (W := W)) : Prop :=
  bt_current (th_timers t') = bt_current (th_timers t) /\ forall i e, e ∈ list_at i (th_timers t) -> e ∈ list_at i (th_timers t').

Lemma quiet_keeps t t' : quiet t t' -> keeps t t'.
Proof. intros (_ & _ & E & _). unfold keeps. by rewrite E. Qed.

Lemma keeps_trans t1 t2 t3 : keeps t1 t2 -> keeps t2 t3 -> keeps t1 t3.
Proof. intros [C1 L1] [C2 L2]. split; [by rewrite C2|auto]. Qed.

Lemma inv_batch_done tr now t t' :
  thread_inv tr t -> batch_done now t = Some t' -> thread_inv tr t' /\ keeps t t'.
Proof.
  intros Hi. unfold batch_done. destruct (th_timing t) eqn:Eg; [by intros [= <-]|].
  destruct (arm _ _ _) as [t1|] eqn:E; [|done]. change (Some ?x ≫= ?f) with (f x); cbv beta iota. intros Es. apply (inj Some) in Es. subst t'.
  destruct (arm_ok _ _ _ _ (ti_timers _ _ Hi) E) as (H1 & Hk & Hid & Hg & Hc & Hl & Hn & _).
  assert (forall id, kind (t1 <| th_timing := true |>) id = kind t id) as Hk' by (intros i; rewrite <- Hk; by destruct t1).
  assert (th_id (t1 <| th_timing := true |>) = th_id t /\ th_timing (t1 <| th_timing := true |>) = true /\
          th_timers (t1 <| th_timing := true |>) = th_timers t1) as (E1 & E2 & E3) by (rewrite <- Hid; by destruct t1).
  split; [|unfold keeps; by rewrite E3]. pose proof (ti_count _ _ Hi) as Hcount. rewrite Eg in Hcount.
  destruct Hi. constructor; rewrite ?E1, ?E2, ?E3; try done; try (intros id; rewrite ?Hk'; eauto; fail); [lia|].
  intros id due Hd. rewrite Hk'. intros Hx. destruct (ti_armed0 id due Hd Hx) as (e & Hin & Hcl). exists e. split; [|done].
  apply pending_in in Hin as [j Hin]. apply pending_in. exists j. auto.
Qed.

Definition bounded (tr : list label) : Prop := Z.of_nat (length (accepted tr)) < MAX_ACCEPTED.

Lemma bounded_prefix a b : bounded (a ++ b) -> bounded a.
Proof. unfold bounded. rewrite accepted_app, length_app. lia. Qed.

(** A message finds its connection or none. *)
Lemma inv_message tr e s now epoll_ok id m t ls t' :
  thread_inv tr t -> bounded (tr ++ ls) -> handle_msg e s now epoll_ok id m t = Done (ls, t') ->
  thread_inv (tr ++ ls) t' /\ keeps t t' /\ rounds ls = [].
Proof.
  intros Hi Hb. unfold handle_msg. destruct (id =? OBJ_ID_THREAD).
  - destruct m as [fd|m]; [|intros [= <- <-]; by rewrite app_nil_r].
    destruct (inv_accept tr now fd epoll_ok t Hi) as (ls' & t1 & E & H1 & Hl & Hc & Hr); [by apply bounded_prefix in Hb|].
    rewrite E. cbn [no_fuel]. intros Ed. apply (inj Done), pair_eq in Ed as [<- <-]. split; [done|]. by split.
  - destruct (th_objs t !! id) as [[|c]|] eqn:Eo.
    + intros Ed. apply (inj Done), pair_eq in Ed as [<- <-]. by rewrite app_nil_r.
    + destruct m as [fd|m].
      { intros Ed. apply (inj Done), pair_eq in Ed as [<- <-]. by rewrite app_nil_r. }
      intros Ed. apply outcome_bind_Done_inv in Ed as (x & Ex & Ed). apply (inj Done), pair_eq in Ed as [<- <-].
      pose proof (quiet_put t id c x Eo) as Hq. split; [|split; [by apply quiet_keeps|done]].
      apply inv_label; [by apply (inv_quiet _ t)| |done|done]. apply kind_conn in Eo.
      destruct (ti_conns _ _ Hi _ Eo) as [due Hd]. assert (id ∈ accepted tr) as Hin by (apply elem_accepted; by eexists).
      split; [done|]. intros Hcl. apply (ti_closed _ _ Hi _ Hin) in Hcl. by rewrite Eo in Hcl.
    + intros Ed. apply (inj Done), pair_eq in Ed as [<- <-]. split; [|by split]. apply inv_label; [done| |done|done].
      intros Hin. destruct (ti_open _ _ Hi _ Hin) as [Hk|[_ Hk]]; [|done]. unfold kind in Hk. by rewrite Eo in Hk.
Qed.

Lemma throws_conn e s now epoll_ok id m t reason :
  handle_msg e s now epoll_ok id m t = Fails reason -> exists c, th_objs t !! id = Some (Conn c).
Proof.
  unfold handle_msg. destruct (id =? OBJ_ID_THREAD); [destruct m; [by destruct (handle_connect _ _ _ _)|done]|].
  destruct (th_objs t !! id) as [[|c]|]; [done|by exists c|done].
Qed.

(** What a step does to the timers: none but the end of a round takes one away. *)
Definition timers_step (t : http_thread (W := W)) (ls : list label) (t' : http_thread (W := W)) : Prop :=
  rounds ls = [] /\ keeps t t' \/
  exists now objs f, rounds ls = [now] /\ check_timer (handle_timeout objs) now tt (th_timers t) = Some f /\
    th_timers t' = fi_timers f /\
    forall id due e, kind t' id = Some true -> e ∈ fi_fired f -> ~ closing_timer id due e.

Lemma step_quiet tr t t' : thread_inv tr t -> quiet t t' -> thread_inv (tr ++ []) t' /\ timers_step t [] t'.
Proof. intros Hi Hq. rewrite app_nil_r. split; [by apply (inv_quiet _ t)|]. left. split; [done|]. by apply quiet_keeps. Qed.

Lemma thread_step_inv tr t ls t' :
  thread_inv tr t -> bounded (tr ++ ls) -> step t ls t' -> thread_inv (tr ++ ls) t' /\ timers_step t ls t'.
Proof.
  intros Hi Hb Hs.
  destruct Hs as [t id m ch _|t id c e s ev x _ Ho _ _|t id c e s ev reason c' posted w _ Ho _ _|t ch _ _|t id m ch e s now epoll_ok ls t' _ E|
    t id m todo ch e s now epoll_ok reason c' posted w _ E|t ch n now t' _ _ E|t now ls t' _ E].
  - apply step_quiet; [done|]. apply quiet_channel.
  - apply step_quiet; [done|]. by eapply quiet_put.
  - apply step_quiet; [done|]. eapply thread_quiet_trans; [by eapply quiet_throw|apply quiet_expect].
  - apply step_quiet; [done|]. apply quiet_channel.
  - destruct (inv_message _ _ _ _ _ _ _ _ _ _ Hi Hb E) as (H1 & Hk & Hr).
    split; [by eapply inv_quiet; [|apply quiet_channel]|]. left. split; [done|].
    eapply keeps_trans; [done|]. apply quiet_keeps, quiet_channel.
  - apply throws_conn in E as [c Ho]. apply step_quiet; [done|].
    eapply thread_quiet_trans; [by eapply quiet_throw|]. eapply thread_quiet_trans; [apply quiet_channel|apply quiet_expect].
  - destruct (inv_batch_done _ _ _ _ Hi E) as [H1 Hk]. rewrite app_nil_r. split; [by eapply inv_quiet; [|apply quiet_channel]|].
    left. split; [done|]. eapply keeps_trans; [done|]. apply quiet_keeps, quiet_channel.
  - assert (Z.of_nat (length (accepted tr)) <= MAX_ACCEPTED) as Hb' by (apply bounded_prefix in Hb; unfold bounded in Hb; lia).
    destruct (inv_round tr now t Hi Hb') as (ls' & t1 & f & E' & H1 & Hr & Hf & Et & Hcl).
    rewrite E' in E. apply (inj Some), pair_eq in E as [<- <-]. split; [done|]. right.
    eexists now, _, f. split; [done|]. split; [exact Hf|]. split; [done|]. intros id due e Hk. by apply (Hcl id Hk).
Qed.

Lemma new_thread_inv index (w : W) : thread_inv [] (new_thread index w).
Proof.
  assert (forall id, kind (new_thread index w) id = if decide (id = CHANNEL_ID) then Some false else None) as Hk.
  { intros id. unfold kind, new_thread. cbn [th_objs]. destruct (decide (id = CHANNEL_ID)) as [->|];
      [by rewrite lookup_singleton_eq|by rewrite lookup_singleton_ne]. }
  constructor; try done.
  - apply new_timers_ok.
  - intros id k. rewrite Hk. destruct (decide (id = CHANNEL_ID)) as [->|]; [|done]. cbn. lia.
  - intros id. rewrite Hk. by destruct (decide (id = CHANNEL_ID)).
  - intros id due Hd. by apply elem_of_nil in Hd.
  - apply NoDup_nil_2.
  - intros id Hin. by apply elem_of_nil in Hin.
  - intros id Hin. by apply elem_of_nil in Hin.
  - intros id Hin. by apply elem_of_nil in Hin.
Qed.

Lemma thread_steps_inv tr0 t tr t' :
  thread_inv tr0 t -> bounded (tr0 ++ tr) -> steps t tr t' -> thread_inv (tr0 ++ tr) t'.
Proof.
  intros Hi Hb Hs. revert Hb. induction Hs as [t|t tr t1 ls t2 Hs IH Hst]; intros Hb; [by rewrite app_nil_r|].
  rewrite (assoc_L (++)) in Hb |- *. eapply thread_step_inv; [|done|done]. apply IH; [done|]. by eapply bounded_prefix.
Qed.

(** How near a connection is to its end, after [n] checks past its time. *)
Definition near_end (id due : Z) (n : nat) (tr : list label) (t : http_thread (W := W)) : Prop :=
  Closed id ∈ tr \/
  exists e, closing_timer id due e /\
    match n with
    | O => e ∈ Timers.pending (th_timers t)
    | S O => e ∈ list_at (bt_current (th_timers t)) (th_timers t)
    | _ => False
    end.

Lemma near_end_step id due n tr t ls t' :
  thread_inv tr t -> thread_inv (tr ++ ls) t' -> timers_step t ls t' -> id ∈ accepted tr ->
  Forall (Z.le due) (rounds ls) -> near_end id due n tr t -> near_end id due (n + length (rounds ls)) (tr ++ ls) t'.
Proof.
  intros Hi Hi' Hs Hacc Hdue [Hcl|(e & Hce & He)]; [left; apply elem_of_app; by left|].
  destruct Hs as [[-> [Hc Hl]]|(now & objs & f & Er & E & Et & Hf)].
  - right. exists e. split; [done|]. cbn [length]. rewrite Nat.add_0_r. destruct n as [|[|n]]; [|by rewrite Hc; apply Hl|done].
    apply pending_in in He as [i He]. apply pending_in. exists i. by apply Hl.
  - rewrite Er in *. apply Forall_inv in Hdue. cbn [length]. rewrite Nat.add_1_r.
    destruct (check_timer_ok _ _ _ _ _ (ti_timers _ _ Hi) E) as (_ & Hc & Hfired & _ & Hother & _).
    assert (e ∈ list_at (bt_current (th_timers t)) (th_timers t) -> Closed id ∈ tr ++ ls) as Hcur.
    { intros Hin. assert (e ∈ fi_fired f) as Hfi.
      { rewrite Hfired. apply list_elem_of_filter. split; [|done]. destruct Hce as (Ee & _). change (fst e <= now). rewrite Ee. exact Hdue. }
      assert (id ∈ accepted (tr ++ ls)) as Hacc' by (rewrite accepted_app; apply elem_of_app; by left).
      destruct (ti_open _ _ Hi' id Hacc') as [Hk|[_ Hcl]]; [|done]. by destruct (Hf id due e Hk Hfi). }
    destruct n as [|[|n]]; [|left; by apply Hcur|done].
    rewrite (pending_lists (bt_current (th_timers t))) in He.
    apply elem_of_app in He as [He|He]; [left; by apply Hcur|]. right. exists e. split; [done|].
    rewrite Et, Hc, Hother. apply elem_of_app. by right.
Qed.

Lemma near_end_steps id due tr0 t tr t' :
  thread_inv tr0 t -> bounded (tr0 ++ tr) -> steps t tr t' -> Accepted id due ∈ tr0 -> Forall (Z.le due) (rounds tr) ->
  near_end id due (length (rounds tr)) (tr0 ++ tr) t'.
Proof.
  intros Hi Hb Hs Hacc. assert (id ∈ accepted tr0) as Hin by (apply elem_accepted; by eexists). revert Hb.
  induction Hs as [t|t tr t1 ls t2 Hs IH Hst]; intros Hb Hf.
  - rewrite app_nil_r. destruct (ti_open _ _ Hi id Hin) as [Hk|[_ Hcl]]; [|by left]. right.
    destruct (ti_armed _ _ Hi id due Hacc Hk) as (e & He & Hce). by exists e.
  - rewrite (assoc_L (++)) in Hb |- *. pose proof (bounded_prefix _ _ Hb) as Hb1.
    unfold rounds in *. rewrite omap_app in Hf |- *. apply Forall_app in Hf as [Hf1 Hf2]. rewrite length_app.
    pose proof (thread_steps_inv _ _ _ _ Hi Hb1 Hs) as Hi1. destruct (thread_step_inv _ _ _ _ Hi1 Hb Hst) as [Hi2 Hts].
    eapply near_end_step; [done|done|done| |done|by apply IH]. rewrite accepted_app. apply elem_of_app. by left.
Qed.
End Invariant.

(** C29: A message reaches the connection it is for.  In any run of the thread
    with fewer than two thousand million connections, every connection gets an
    id of its own, an id is never used again, a message delivered under an id
    goes to the connection accepted under it while that is open, and a message
    is dropped only when there is none: a late reply never reaches another
    client's connection. *)
Theorem replies_never_cross {V W} `{Json V} `{PdefFiles W} index (w : W) tr t :
  steps (new_thread index w) tr t -> bounded tr ->
  NoDup (accepted tr) /\
  (forall tr1 id m tr2, tr = tr1 ++ Delivered id m :: tr2 -> id ∈ accepted tr1 /\ Closed id ∉ tr1) /\
  (forall tr1 id m tr2, tr = tr1 ++ Stray id m :: tr2 -> id ∈ accepted tr1 -> Closed id ∈ tr1).
Proof.
  intros Hs Hb. pose proof (thread_steps_inv [] _ tr t (new_thread_inv index w) Hb Hs) as Hi. cbn [app] in Hi.
  split; [apply Hi|]. pose proof (ti_routed _ _ Hi) as Hr.
  split; intros tr1 id m tr2 ->; apply routed_app in Hr as [_ Hr]; cbn [routed_from] in Hr; apply Hr.
Qed.

(** C30: No connection outlives its timer.  A connection is armed with a timer of
    30 seconds when it is accepted, and nothing ever arms another: whatever it
    does, after two rounds of the loop past that time it is closed and its
    object is gone; and every round ends (ids for timers are found, the timers
    walked). *)
Theorem connection_deadline {V W} `{Json V} `{PdefFiles W} index (w : W) tr t id due tr' t' :
  steps (new_thread index w) tr t -> Accepted id due ∈ tr -> steps t tr' t' -> bounded (tr ++ tr') ->
  Forall (Z.le due) (rounds tr') -> (2 <= length (rounds tr'))%nat ->
  th_objs t' !! id = None /\ Closed id ∈ tr ++ tr' /\ forall now, exists r, end_round now t' = Some r.
Proof.
  intros Hs Hacc Hs' Hb Hdue Hn. pose proof (bounded_prefix _ _ Hb) as Hb0.
  pose proof (thread_steps_inv [] _ tr t (new_thread_inv index w) Hb0 Hs) as Hi. cbn [app] in Hi.
  pose proof (thread_steps_inv _ _ _ _ Hi Hb Hs') as Hi'.
  assert (id ∈ accepted (tr ++ tr')) as Hin by (apply elem_accepted; exists due; apply elem_of_app; by left).
  assert (Closed id ∈ tr ++ tr') as Hcl.
  { destruct (near_end_steps id due _ _ _ _ Hi Hb Hs' Hacc Hdue) as [Hcl|(e & _ & He)]; [done|].
    by destruct (length (rounds tr')) as [|[|n]]; [lia|lia|]. }
  split; [|split; [done|]].
  - pose proof (ti_closed _ _ Hi' id Hin Hcl) as Hk. unfold kind in Hk. by destruct (th_objs t' !! id).
  - intros now. destruct (inv_round (tr ++ tr') now t' Hi') as (ls & t2 & f & E & _); [unfold bounded in Hb; lia|]. by eexists.
Qed.

(** A client connects, a message for it comes, its time is over, another message comes. *)
Definition demo_message : message := MsgStopCapture (mkStopMsg 5 (mkObjId 1002 7)).

Definition demo_thread : http_thread (W := gmap string string) := new_thread 7 ∅.

Abbreviation dsteps := (steps (H := tree_json (fun _ => None)) (W := gmap string string)).

Lemma tag_fits {M} (c : channel (M := M)) : tag_taken c 2.
Proof. split; [unfold TAG_SIZE; lia|intros _; lia]. Qed.

(** One more step of a computed run. *)
Ltac computed R := match type of R with dsteps ?a ?tr ?t =>
  let t' := eval vm_compute in t in let tr' := eval cbn [app] in tr in change (dsteps a tr' t') in R end.

Tactic Notation "extend" hyp(R) uconstr(s) := match type of R with dsteps ?a ?tr ?t =>
  let N := fresh in epose proof (steps_snoc a tr t _ _ R s) as N; clear R; rename N into R; computed R end.

Ltac demo_put R id m := match type of R with dsteps _ _ ?t =>
  extend R (step_put (H := tree_json (fun _ => None)) t id m _ (Channel.step_put _ _ id m 2 (tag_fits _))) end.

Ltac demo_read R :=
  match type of R with dsteps _ _ ?t =>
    extend R (step_recv (H := tree_json (fun _ => None)) t _ (Channel.step_recv (sy_channel (th_channel t))
      (proj1 (Nat.ltb_lt 0 (ch_socket (sy_channel (th_channel t)))) eq_refl)) (or_introl eq_refl)) end;
  match type of R with dsteps _ _ ?t =>
    extend R (step_recv (H := tree_json (fun _ => None)) t _ (Channel.step_take _) (or_intror eq_refl)) end.

Ltac demo_handle R id m now := match type of R with dsteps _ _ ?t =>
  let r := eval vm_compute in (handle_msg (H := tree_json (fun _ => None)) demo_http_env (Room 0) now true id m t) in
  match r with Done (?ls, ?t1) =>
    extend R (step_message (H := tree_json (fun _ => None)) t id m _ demo_http_env (Room 0) now true ls t1 (Channel.step_handle _ _ _ _) eq_refl)
  end end.

Ltac demo_done R now := match type of R with dsteps _ _ ?t =>
  let r := eval vm_compute in (batch_done now t) in
  match r with Some ?t1 =>
    extend R (step_done (H := tree_json (fun _ => None)) t _ _ now t1 (Channel.step_done _ _) eq_refl eq_refl)
  end end.

Ltac demo_round R now := match type of R with dsteps _ _ ?t =>
  let r := eval vm_compute in (end_round now t) in
  match r with Some (?ls, ?t1) => extend R (step_round (H := tree_json (fun _ => None)) t now ls t1 eq_refl eq_refl) end end.

Lemma demo_accept :
  exists t, dsteps demo_thread [Accepted 1002 31000; Delivered 1002 demo_message] t /\
    exists t', dsteps t [Round 31000; Closed 1002; Round 31005; Stray 1002 (Msg demo_message)] t'.
Proof.
  pose proof (steps_nil (H := tree_json (fun _ => None)) demo_thread) as R.
  demo_put R 1 (Connect 5). demo_put R 1002 (Msg demo_message). demo_read R.
  demo_handle R 1 (Connect 5) 1000. demo_handle R 1002 (Msg demo_message) 1001. demo_done R 1002.
  eexists. split; [exact R|]. match type of R with dsteps _ _ ?t => clear R; pose proof (steps_nil (H := tree_json (fun _ => None)) t) as R end.
  demo_round R 31000. demo_round R 31005. demo_put R 1002 (Msg demo_message). demo_read R.
  demo_handle R 1002 (Msg demo_message) 31006. eexists. exact R.
Qed.

Lemma thread_steps_app {V W} `{Json V} `{PdefFiles W} (t1 t2 t3 : http_thread (W := W)) a b :
  steps t1 a t2 -> steps t2 b t3 -> steps t1 (a ++ b) t3.
Proof.
  intros Ha Hb. revert Ha. induction Hb as [t|t tr t' ls t'' Hs IH Hst]; intros Ha; [by rewrite app_nil_r|].
  rewrite (assoc_L (++)). by eapply steps_snoc; [apply IH|].
Qed.

Lemma demo_bounded (tr : list label) : (length (accepted tr) <= 1)%nat -> bounded tr.
Proof. unfold bounded, MAX_ACCEPTED. lia. Qed.

Lemma replies_never_cross_witness :
  exists tr t, dsteps demo_thread tr t /\ NoDup (accepted tr) /\ exists tr1 m, tr = tr1 ++ [Stray 1002 m] /\ Closed 1002 ∈ tr1.
Proof.
  destruct demo_accept as (t & R1 & t' & R2). pose proof (thread_steps_app _ _ _ _ _ R1 R2) as R. eexists _, t'. split; [exact R|].
  destruct (replies_never_cross _ _ _ _ R) as (Hu & _ & Hs); [apply demo_bounded; cbn; lia|].
  split; [exact Hu|]. eexists [_; _; _; _; _], (Msg demo_message). split; [reflexivity|].
  eapply (Hs _ 1002 (Msg demo_message) []); [reflexivity|]. apply elem_accepted. exists 31000. by left.
Defined.

Lemma connection_deadline_witness :
  exists t t', dsteps t [Round 31000; Closed 1002; Round 31005; Stray 1002 (Msg demo_message)] t' /\ th_objs t' !! 1002 = None.
Proof.
  destruct demo_accept as (t & R1 & t' & R2). exists t, t'. split; [exact R2|].
  refine (proj1 (connection_deadline _ _ _ _ 1002 31000 _ _ R1 _ R2 _ _ _)).
  - by left.
  - apply demo_bounded. cbn. lia.
  - apply Forall_forall. intros r Hr. apply list_elem_of_omap in Hr as (l & Hl & E).
    repeat (apply elem_of_cons in Hl as [->|Hl]; [try done; injection E as <-; lia|]). by apply elem_of_nil in Hl.
  - cbn. lia.
Defined.
