(* ===== verification/Startup.v ===== *)
(** * Start-up of the threads (main.cpp, rxhttpserver.cpp, rxprocdata.cpp, core/legacy_core_net)

    The registry of threads of [base_net_thread], [CRxProcData::init_threads],
    the start of the capture manager with its workers, the HTTP server, and the
    listener that hands new sockets to the HTTP threads.  What [new(nothrow)],
    [pthread_create] and the socket calls report is an argument. *)

From Stdlib Require Import Sorting.Sorted.
From S2P Require Import Prelude CppString Json TaskTypes Messages CaptureManager CaptureManagerCorrect CaptureDecision PdefWriteback Cleanup Config.

(** ** Threads *)

Inductive thread_kind := KManager | KSample | KCleanup | KReload | KCaptureWorker | KFilter | KListen | KHttp.

#[export] Instance thread_kind_eq : EqDecision thread_kind.
Proof. solve_decision. Defined.

(** The static members of [base_net_thread]: [_thread_index_start],
    [_base_net_thread_map] and the threads of [_thread_vec].  A thread that was
    deleted stays in the map. *)
Record threads := mkThreads {
  ts_index_start : Z;
  ts_map : gmap Z thread_kind;
  ts_vec : list Z;
}.

Definition no_threads : threads := mkThreads 0 ∅ [].

(** [new(nothrow)] of the [i]-th thread of a kind, [socketpair] for the channel
    of a thread, [pthread_create] for it, the socket calls of the listener. *)
Record boot_env := mkBootEnv {
  be_alloc : thread_kind -> Z -> bool;
  be_pair : Z -> bool;
  be_create : Z -> bool;
  be_listen : bool;
}.

(** The constructor with [net_thread_init], which gives up before the thread is
    in the map when it gets no channel. *)
Definition construct (e : boot_env) (kind : thread_kind) (t : threads) : Z * threads :=
  let index := ts_index_start t +32 1 in
  (index, mkThreads index (if be_pair e index then <[index := kind]> (ts_map t) else ts_map t) (ts_vec t)).

(** [base_net_thread::start]; [_thread_id] is 0 until then. *)
Definition base_start (e : boot_env) (index : Z) (t : threads) : bool * threads :=
  if bool_decide (index ∈ ts_vec t) then (false, t)
  else if be_create e index then (true, mkThreads (ts_index_start t) (ts_map t) (ts_vec t ++ [index]))
  else (false, t).

Definition get_base_net_thread_obj (index : Z) (t : threads) : option thread_kind := ts_map t !! index.

(** [delete] of a thread that was not started: undefined once the thread has
    its channel (EpollCorrect, [delete_thread_undefined]). *)
Definition delete_unstarted (e : boot_env) (index : Z) : outcome unit := if be_pair e index then Undef else Done tt.

(** A loop that makes and starts [n] threads of a kind, from the [i]-th on; a
    thread that cannot be started is deleted. *)
Fixpoint start_each (e : boot_env) (kind : thread_kind) (n : nat) (i : Z) (t : threads) : outcome (list Z * threads) :=
  match n with
  | O => Done ([], t)
  | S n =>
      if be_alloc e kind i then
        let '(index, t) := construct e kind t in
        let '(ok, t) := base_start e index t in
        _ ← (if ok : bool then Done tt else delete_unstarted e index);
        '(l, t) ← start_each e kind n (i + 1) t;
        Done (if ok : bool then index :: l else l, t)
      else start_each e kind n (i + 1) t
  end.

(** ** The process *)

Record proc_data := mkProcData {
  pd_conf : option CRxServerConfig;
  pd_capture_manager : option Z;
  pd_sample : option Z;
  pd_cleanup : option Z;
  pd_reload : option Z;
  pd_names : gmap string (list Z);
  pd_initialized : bool;
  pd_manager_workers : list Z;       (* _worker_thd_vec of the manager *)
  pd_manager_filters : list Z;       (* _filter_threads *)
}.

Definition new_proc_data (conf : option CRxServerConfig) : proc_data :=
  mkProcData conf None None None None ∅ false [] [].

Record boot := mkBoot { bo_threads : threads; bo_proc : proc_data }.

(** A step of the start-up: [None] is its early return. *)
Definition step (A : Type) : Type := boot -> outcome (option A * boot).

#[export] Instance step_ret : MRet step := fun _ a b => Done (Some a, b).
#[export] Instance step_bind : MBind step := fun _ _ f m b =>
  '(x, b) ← m b; match x with Some a => f a b | None => Done (None, b) end.

Definition make (e : boot_env) (kind : thread_kind) (set : option Z -> proc_data -> proc_data) : step Z := fun b =>
  if be_alloc e kind 0 then
    let '(index, t) := construct e kind (bo_threads b) in Done (Some index, mkBoot t (set (Some index) (bo_proc b)))
  else Done (None, b <| bo_proc ::= set None |>).

Definition run (e : boot_env) (index : Z) : step unit := fun b =>
  let '(ok, t) := base_start e index (bo_threads b) in
  Done (if ok : bool then Some tt else None, b <| bo_threads := t |>).

Definition modify (f : proc_data -> proc_data) : step unit := fun b => Done (Some tt, b <| bo_proc ::= f |>).

(** [add_name_thread] *)
Definition add_name_thread (name : string) (index : Z) (p : proc_data) : proc_data :=
  p <| pd_names ::= fun m => <[name := default [] (m !! name) ++ [index]]> m |>.

Definition get_thread (name : string) (p : proc_data) : option (list Z) := pd_names p !! name.

(** The threads of the manager. *)
Definition manager_threads (e : boot_env) : step unit := fun b =>
  match pd_conf (bo_proc b) with
  | None => Done (None, b)
  | Some cfg =>
      let capture_threads_count := if sv_capture_threads cfg <=? 0 then 2 else sv_capture_threads cfg in
      '(workers, t) ← start_each e KCaptureWorker (Z.to_nat capture_threads_count) 0 (bo_threads b);
      '(filters, t) ← start_each e KFilter 1 0 t;
      Done (Some tt, mkBoot t ((bo_proc b) <| pd_manager_workers := workers |> <| pd_manager_filters := filters |>))
  end.

(** [CRxCaptureManagerThread::start] *)
Definition manager_start (e : boot_env) (index : Z) : step unit := _ ← run e index; manager_threads e.

(** [CRxProcData::init_threads] *)
Definition init_threads (e : boot_env) : step unit := fun b =>
  if pd_initialized (bo_proc b) then Done (Some tt, b)
  else
    (manager ← make e KManager (fun i p => p <| pd_capture_manager := i |>);
     sample ← make e KSample (fun i p => p <| pd_sample := i |>);
     cleanup ← make e KCleanup (fun i p => p <| pd_cleanup := i |>);
     reload ← make e KReload (fun i p => p <| pd_reload := i |>);
     _ ← manager_start e manager;
     _ ← run e sample;
     _ ← run e cleanup;
     _ ← run e reload;
     _ ← modify (add_name_thread "capture_manager" manager);
     _ ← modify (add_name_thread "sample" sample);
     _ ← modify (add_name_thread "cleanup" cleanup);
     _ ← modify (add_name_thread "reload" reload);
     modify (fun p => p <| pd_initialized := true |>)) b.

(** ** The listener *)

(** [listen_process]; [lp_thread] is the index of the listening thread. *)
Record listen_process := mkListen { lp_thread : Z; lp_workers : list Z }.

Definition add_worker_thread (index : Z) (l : listen_process) : listen_process := l <| lp_workers ::= fun v => v ++ [index] |>.

(** [process]: [addr] is the address of the message object. *)
Definition process (addr : Z) (l : listen_process) : Z :=
  match lp_workers l with
  | [] => lp_thread l
  | _ => default 0 (lp_workers l !! Z.to_nat (addr mod Z.of_nat (length (lp_workers l))))
  end.

(** [listen_connect::event_process]: [accept] gives sockets until it fails; each
    goes with its message object's address.  The result is what is posted. *)
Definition event_process (accepted : list (Z * Z)) (l : listen_process) : list (ObjId * Z) :=
  map (fun x => (mkObjId OBJ_ID_THREAD (process (snd x) l), fst x)) accepted.

(** ** The HTTP server *)

Inductive server_result := Serving (l : listen_process) | Returned | Threw.

(** The loop over the workers; the result of their [start] is not looked at. *)
Fixpoint start_http (e : boot_env) (n : nat) (i : Z) (l : listen_process) (b : boot) : listen_process * boot :=
  match n with
  | O => (l, b)
  | S n =>
      if be_alloc e KHttp i then
        let '(index, t) := construct e KHttp (bo_threads b) in
        let p := add_name_thread "http_res" index (bo_proc b) in
        let '(_, t) := base_start e index t in
        start_http e n (i + 1) (add_worker_thread index l) (mkBoot t p)
      else start_http e n (i + 1) l b
  end.

(** [CRxHttpServer::start]: a listener that could not be allocated is used. *)
Definition server_start (e : boot_env) (conf : option CRxServerConfig) (b : boot) : outcome (server_result * boot) :=
  match conf with
  | None => Done (Returned, b)
  | Some cfg =>
      '(initialized, b) ← init_threads e b;
      match initialized with
      | None => Done (Returned, b)
      | Some _ =>
          if be_alloc e KListen 0 then
            let '(index, t) := construct e KListen (bo_threads b) in
            let b := b <| bo_threads := t |> in
            if be_listen e then
              let b := b <| bo_proc ::= add_name_thread "listen_thread" index |> in
              let works := if sv_workers cfg =? 0 then 1 else sv_workers cfg in
              let '(l, b) := start_http e (Z.to_nat works) 0 (mkListen index []) b in
              let '(_, t) := base_start e index (bo_threads b) in
              Done (Serving l, b <| bo_threads := t |>)
            else Done (Threw, b)
          else Undef
      end
  end.

(** [do_init], from the loaded configuration on. *)
Definition do_init (e : boot_env) (conf : CRxServerConfig) : outcome (server_result * boot) :=
  server_start e (Some conf) (mkBoot no_threads (new_proc_data (Some conf))).

(** The state of the manager when it starts. *)
Definition manager_of (p : proc_data) (fs : text_fs) : manager :=
  new_manager (default 0 (pd_capture_manager p)) (pd_manager_workers p) (pd_manager_filters p) fs.

(** ** Lemmas *)

Record threads_ok (t : threads) : Prop := {
  to_start : 0 <= ts_index_start t < 2 ^ 32;
  to_map i k : ts_map t !! i = Some k -> 0 < i <= ts_index_start t;
  to_vec i : i ∈ ts_vec t -> is_Some (ts_map t !! i);
}.

(** More threads, the old ones as they were. *)
Record grows (t t' : threads) : Prop := {
  gr_ok : threads_ok t';
  gr_map i k : ts_map t !! i = Some k -> ts_map t' !! i = Some k;
  gr_vec i : i ∈ ts_vec t -> i ∈ ts_vec t';
  gr_start : ts_index_start t <= ts_index_start t';
}.

Lemma grows_refl t : threads_ok t -> grows t t.
Proof. intros Ht. by constructor. Qed.

Lemma grows_trans t1 t2 t3 : grows t1 t2 -> grows t2 t3 -> grows t1 t3.
Proof. intros [? A1 B1 C1] [? A2 B2 C2]. constructor; [done| | |lia]; intros; [apply A2, A1|apply B2, B1]; done. Qed.

(** A thread of a kind that runs. *)
Definition started (t : threads) (k : thread_kind) (i : Z) : Prop := ts_map t !! i = Some k /\ i ∈ ts_vec t.

Lemma started_grows t t' k i : grows t t' -> started t k i -> started t' k i.
Proof. intros [_ A B _] [H1 H2]. split; [by apply A|by apply B]. Qed.

Section boot.
Context (e : boot_env) (Hpair : forall i, be_pair e i = true).

Lemma construct_ok k t i t' : threads_ok t -> ts_index_start t + 1 < 2 ^ 32 -> construct e k t = (i, t') ->
  grows t t' /\ i = ts_index_start t' /\ ts_index_start t' = ts_index_start t + 1 /\ ts_map t' !! i = Some k /\ (i ∉ ts_vec t').
Proof.
  intros [Hs Hm Hv] Hl. unfold construct. rewrite Hpair, u32_small by lia. intros [= <- <-]. cbn [ts_index_start ts_map ts_vec].
  assert (forall i k, ts_map t !! i = Some k -> i <> ts_index_start t + 1) as Hne by (intros i k' E; apply Hm in E; lia).
  split; [constructor; cbn; [constructor; cbn|..]| ].
  - lia.
  - intros i k'. destruct (decide (i = ts_index_start t + 1)) as [->|Hi]; [lia|]. rewrite lookup_insert_ne by done. intros E. apply Hm in E. lia.
  - intros i Hi. destruct (Hv i Hi) as [k' E]. rewrite lookup_insert_ne by (intros <-; by eapply Hne). by exists k'.
  - intros i k' E. rewrite lookup_insert_ne; [done|]. intros <-. by eapply Hne.
  - done.
  - lia.
  - split; [done|]. split; [done|]. split; [by rewrite lookup_insert_eq|]. intros Hin. destruct (Hv _ Hin) as [k' E]. by eapply Hne.
Qed.

Lemma base_start_ok i t ok t' k : threads_ok t -> ts_map t !! i = Some k -> base_start e i t = (ok, t') ->
  grows t t' /\ ts_index_start t' = ts_index_start t /\ (ok = true -> started t' k i).
Proof.
  intros Ht Hk. unfold base_start. case_bool_decide; [intros [= <- <-]; split; [by apply grows_refl|done]|].
  destruct (be_create e i); intros [= <- <-]; [|split; [by apply grows_refl|done]]. destruct Ht as [Hs Hm Hv].
  split; [constructor; cbn; [constructor; cbn; try done|done| |lia]|split; [done|]].
  - intros j Hj. apply elem_of_app in Hj as [Hj|Hj]; [by apply Hv|]. apply list_elem_of_singleton in Hj as ->. by exists k.
  - intros j Hj. apply elem_of_app. by left.
  - intros _. split; [done|]. apply elem_of_app. right. by left.
Qed.

Lemma start_each_ok k n i t l t' : threads_ok t -> ts_index_start t + Z.of_nat n < 2 ^ 32 -> start_each e k n i t = Done (l, t') ->
  grows t t' /\ ts_index_start t' <= ts_index_start t + Z.of_nat n /\ (length l <= n)%nat /\
  StronglySorted Z.lt l /\ Forall (fun j => ts_index_start t < j /\ started t' k j) l.
Proof.
  revert i t l t'. induction n as [|n IH]; intros i t l t' Ht Hl; cbn [start_each].
  - intros E. apply (inj Done) in E as [= <- <-]. split; [by apply grows_refl|]. split; [lia|]. split; [done|]. split; constructor.
  - destruct (be_alloc e k i).
    + destruct (construct e k t) as [j t1] eqn:E1. destruct (base_start e j t1) as [ok t2] eqn:E2.
      intros E. apply outcome_bind_Done_inv in E as ([] & Hdel & E). apply outcome_bind_Done_inv in E as ([l' t3] & E3 & E).
      destruct (construct_ok k t j t1 Ht ltac:(lia) E1) as (G1 & Ej & S1 & K1 & V1).
      destruct (base_start_ok j t1 ok t2 k (gr_ok _ _ G1) K1 E2) as (G2 & S2 & St2).
      destruct (IH (i + 1) t2 l' t3 (gr_ok _ _ G2) ltac:(lia) E3) as (G3 & S3 & N3 & So3 & F3).
      pose proof (grows_trans _ _ _ (grows_trans _ _ _ G1 G2) G3) as G.
      assert (Forall (fun j => ts_index_start t < j /\ started t3 k j) l') as F.
      { eapply Forall_impl; [exact F3|]. intros x [Hx1 Hx2]. split; [lia|done]. }
      destruct ok; apply (inj Done) in E as [= <- <-].
      * split; [done|]. split; [lia|]. split; [cbn; lia|]. split.
        -- constructor; [done|]. eapply Forall_impl; [exact F3|]. intros x [Hx1 _]. lia.
        -- constructor; [|done]. split; [lia|]. eapply started_grows; [exact G3|]. by apply St2.
      * split; [done|]. split; [lia|]. split; [lia|]. by split.
    + intros E. destruct (IH (i + 1) t l t' Ht ltac:(lia) E) as (G & S & N & So & F). split; [done|]. split; [lia|]. split; [lia|]. by split.
Qed.

Lemma step_bind_inv {A B} (m : step A) (f : A -> step B) b x b' :
  (m ≫= f) b = Done (Some x, b') -> exists a b1, m b = Done (Some a, b1) /\ f a b1 = Done (Some x, b').
Proof.
  unfold mbind at 1, step_bind. destruct (m b) as [[[a|] b1]| | |]; try done. rewrite outcome_bind_done. intros E. by exists a, b1.
Qed.

Lemma make_inv k set b i b' : make e k set b = Done (Some i, b') -> threads_ok (bo_threads b) -> ts_index_start (bo_threads b) + 1 < 2 ^ 32 ->
  grows (bo_threads b) (bo_threads b') /\ ts_index_start (bo_threads b') = ts_index_start (bo_threads b) + 1 /\
  ts_map (bo_threads b') !! i = Some k /\ bo_proc b' = set (Some i) (bo_proc b).
Proof.
  unfold make. destruct (be_alloc e k 0); [|done]. destruct (construct e k (bo_threads b)) as [j t] eqn:E. intros [= <- <-] Ht Hl.
  destruct (construct_ok _ _ _ _ Ht Hl E) as (G & _ & S & K & _). done.
Qed.

Lemma run_inv i b b' u k : run e i b = Done (Some u, b') -> threads_ok (bo_threads b) -> ts_map (bo_threads b) !! i = Some k ->
  grows (bo_threads b) (bo_threads b') /\ ts_index_start (bo_threads b') = ts_index_start (bo_threads b) /\
  started (bo_threads b') k i /\ bo_proc b' = bo_proc b.
Proof.
  unfold run. destruct (base_start e i (bo_threads b)) as [ok t] eqn:E. intros Er Ht Hk.
  destruct (base_start_ok _ _ _ _ _ Ht Hk E) as (G & S & St). destruct ok; [|done]. apply (inj Done), pair_eq in Er as [_ <-].
  destruct b. split_and!; [done|done|by apply St|done].
Qed.

Lemma manager_threads_inv b b' u cfg : manager_threads e b = Done (Some u, b') -> pd_conf (bo_proc b) = Some cfg ->
  threads_ok (bo_threads b) -> ts_index_start (bo_threads b) + Z.max 2 (sv_capture_threads cfg) + 1 < 2 ^ 32 ->
  grows (bo_threads b) (bo_threads b') /\ ts_index_start (bo_threads b') <= ts_index_start (bo_threads b) + Z.max 2 (sv_capture_threads cfg) + 1 /\
  exists workers filters,
    bo_proc b' = (bo_proc b) <| pd_manager_workers := workers |> <| pd_manager_filters := filters |> /\
    StronglySorted Z.lt workers /\ Forall (started (bo_threads b') KCaptureWorker) workers /\
    StronglySorted Z.lt filters /\ Forall (started (bo_threads b') KFilter) filters.
Proof.
  unfold manager_threads. intros E Hc Ht Hl. rewrite Hc in E.
  set (n := if sv_capture_threads cfg <=? 0 then 2 else sv_capture_threads cfg) in *.
  assert (0 < n <= Z.max 2 (sv_capture_threads cfg)) as Hn by (subst n; destruct (Z.leb_spec (sv_capture_threads cfg) 0); lia).
  apply outcome_bind_Done_inv in E as ([workers t1] & E1 & E). apply outcome_bind_Done_inv in E as ([filters t2] & E2 & E).
  apply (inj Done), pair_eq in E as [_ <-].
  destruct (start_each_ok KCaptureWorker (Z.to_nat n) 0 (bo_threads b) workers t1 Ht ltac:(lia) E1) as (G1 & S1 & _ & So1 & F1).
  destruct (start_each_ok KFilter 1 0 t1 filters t2 (gr_ok _ _ G1) ltac:(lia) E2) as (G2 & S2 & _ & So2 & F2). cbn [bo_threads bo_proc].
  split; [by eapply grows_trans|]. split; [lia|]. exists workers, filters. split; [done|]. split; [done|]. split.
  - eapply Forall_impl; [exact F1|]. intros x [_ Hx]. by eapply started_grows.
  - split; [done|]. eapply Forall_impl; [exact F2|]. by intros x [_ Hx].
Qed.

Lemma start_http_ok n i l b l' b' :
  threads_ok (bo_threads b) -> ts_index_start (bo_threads b) + Z.of_nat n < 2 ^ 32 -> start_http e n i l b = (l', b') ->
  grows (bo_threads b) (bo_threads b') /\ ts_index_start (bo_threads b') <= ts_index_start (bo_threads b) + Z.of_nat n /\
  exists new, l' = mkListen (lp_thread l) (lp_workers l ++ new) /\
    bo_proc b' = foldl (fun p i => add_name_thread "http_res" i p) (bo_proc b) new /\
    StronglySorted Z.lt new /\ Forall (fun j => ts_index_start (bo_threads b) < j /\ ts_map (bo_threads b') !! j = Some KHttp) new.
Proof.
  revert i l b. induction n as [|n IH]; intros i l b Ht Hl; cbn [start_http].
  - intros [= <- <-]. split; [by apply grows_refl|]. split; [lia|]. exists []. rewrite app_nil_r. destruct l. split_and!; [done|done|constructor|constructor].
  - destruct (be_alloc e KHttp i).
    + destruct (construct e KHttp (bo_threads b)) as [j t1] eqn:E1. destruct (base_start e j t1) as [ok t2] eqn:E2. intros E.
      destruct (construct_ok KHttp (bo_threads b) j t1 Ht ltac:(lia) E1) as (G1 & Ej & S1 & K1 & V1).
      destruct (base_start_ok j t1 ok t2 KHttp (gr_ok _ _ G1) K1 E2) as (G2 & S2 & _).
      destruct (IH (i + 1) (add_worker_thread j l) (mkBoot t2 (add_name_thread "http_res" j (bo_proc b))) (gr_ok _ _ G2) ltac:(cbn [bo_threads]; lia) E) as (G3 & S3 & new & E3 & P3 & So3 & F3).
      cbn [bo_threads bo_proc] in *. split; [by eapply grows_trans; [|exact G3]; eapply grows_trans|]. split; [lia|]. exists (j :: new).
      split; [rewrite E3; destruct l; cbn; by rewrite <- app_assoc|]. split; [exact P3|]. split.
      * constructor; [done|]. eapply Forall_impl; [exact F3|]. intros x [Hx _]. lia.
      * constructor; [split; [lia|by apply (gr_map _ _ G3), (gr_map _ _ G2)]|]. eapply Forall_impl; [exact F3|]. intros x [Hx Hk]. split; [lia|done].
    + intros E. destruct (IH (i + 1) l b Ht ltac:(lia) E) as (G & S & new & E3 & P3 & So3 & F3). split; [done|]. split; [lia|]. by exists new.
Qed.

Lemma names_other name i p key : key <> name -> pd_names (add_name_thread name i p) !! key = pd_names p !! key.
Proof. intros Hk. unfold add_name_thread. destruct p. cbn. unfold constant. by rewrite lookup_insert_ne. Qed.

Lemma names_new name i p : pd_names (add_name_thread name i p) !! name = Some (default [] (pd_names p !! name) ++ [i]).
Proof. unfold add_name_thread. destruct p. cbn. unfold constant. by rewrite lookup_insert_eq. Qed.

(** Everything of the process but the names. *)
Definition same_process (p p' : proc_data) : Prop :=
  pd_capture_manager p' = pd_capture_manager p /\ pd_manager_workers p' = pd_manager_workers p /\
  pd_manager_filters p' = pd_manager_filters p.

Lemma names_many name l p :
  same_process p (foldl (fun p i => add_name_thread name i p) p l) /\
  (forall key, key <> name -> pd_names (foldl (fun p i => add_name_thread name i p) p l) !! key = pd_names p !! key) /\
  default [] (pd_names (foldl (fun p i => add_name_thread name i p) p l) !! name) = default [] (pd_names p !! name) ++ l.
Proof.
  revert p. induction l as [|i l IH]; intros p; cbn [foldl]; [by rewrite app_nil_r|].
  destruct (IH (add_name_thread name i p)) as ((A1 & A2 & A3) & B & C). split; [split_and!|split].
  - by rewrite A1; destruct p.
  - by rewrite A2; destruct p.
  - by rewrite A3; destruct p.
  - intros key Hk. by rewrite B, names_other.
  - rewrite C, names_new. cbn [default from_option]. unfold id. by rewrite <- app_assoc.
Qed.

(** The state of the process after [init_threads]. *)
Record initialised (cfg : CRxServerConfig) (mgr sample cleanup reload : Z) (b : boot) : Prop := {
  in_ok : threads_ok (bo_threads b);
  in_start : ts_index_start (bo_threads b) <= 5 + Z.max 2 (sv_capture_threads cfg);
  in_services : started (bo_threads b) KManager mgr /\ started (bo_threads b) KSample sample /\
    started (bo_threads b) KCleanup cleanup /\ started (bo_threads b) KReload reload;
  in_manager : pd_capture_manager (bo_proc b) = Some mgr;
  in_workers : Forall (started (bo_threads b) KCaptureWorker) (pd_manager_workers (bo_proc b));
  in_workers_sorted : StronglySorted Z.lt (pd_manager_workers (bo_proc b));
  in_filters : Forall (started (bo_threads b) KFilter) (pd_manager_filters (bo_proc b));
  in_filters_sorted : StronglySorted Z.lt (pd_manager_filters (bo_proc b));
  in_names : get_thread "capture_manager" (bo_proc b) = Some [mgr] /\ get_thread "sample" (bo_proc b) = Some [sample] /\
    get_thread "cleanup" (bo_proc b) = Some [cleanup] /\ get_thread "reload" (bo_proc b) = Some [reload] /\
    get_thread "http_res" (bo_proc b) = None /\ get_thread "listen_thread" (bo_proc b) = None;
}.

Lemma no_threads_ok : threads_ok no_threads.
Proof. constructor; cbn; [lia|done|]. intros i Hi. by apply elem_of_nil in Hi. Qed.

Lemma init_threads_ok conf b :
  Z.max 2 (sv_capture_threads conf) + 6 < 2 ^ 32 ->
  init_threads e (mkBoot no_threads (new_proc_data (Some conf))) = Done (Some tt, b) ->
  exists mgr sample cleanup reload, initialised conf mgr sample cleanup reload b.
Proof.
  intros Hl E. unfold init_threads in E. cbn [bo_proc pd_initialized new_proc_data] in E.
  apply step_bind_inv in E as (mgr & b1 & E1 & E). apply step_bind_inv in E as (sample & b2 & E2 & E).
  apply step_bind_inv in E as (cleanup & b3 & E3 & E). apply step_bind_inv in E as (reload & b4 & E4 & E).
  apply step_bind_inv in E as (u5 & b6 & E5 & E). unfold manager_start in E5. apply step_bind_inv in E5 as (u5' & b5 & E5 & E6).
  apply step_bind_inv in E as (u7 & b7 & E7 & E). apply step_bind_inv in E as (u8 & b8 & E8 & E). apply step_bind_inv in E as (u9 & b9 & E9 & E).
  destruct (make_inv _ _ _ _ _ E1) as (G1 & S1 & K1 & P1); [apply no_threads_ok|cbn; lia|]. cbn [bo_threads no_threads ts_index_start] in *.
  destruct (make_inv _ _ _ _ _ E2) as (G2 & S2 & K2 & P2); [apply G1|lia|].
  destruct (make_inv _ _ _ _ _ E3) as (G3 & S3 & K3 & P3); [apply G2|lia|].
  destruct (make_inv _ _ _ _ _ E4) as (G4 & S4 & K4 & P4); [apply G3|lia|].
  pose proof (grows_trans _ _ _ (grows_trans _ _ _ G2 G3) G4) as G24. pose proof (grows_trans _ _ _ G3 G4) as G34.
  destruct (run_inv _ _ _ _ KManager E5) as (G5 & S5 & R5 & P5); [apply G4|by apply G24|].
  destruct (manager_threads_inv b5 b6 u5 conf E6) as (G6 & S6 & workers & filters & P6 & W1 & W2 & F1 & F2).
  { by rewrite P5, P4, P3, P2, P1. }
  { apply G5. }
  { lia. }
  pose proof (grows_trans _ _ _ G5 G6) as G56.
  destruct (run_inv _ _ _ _ KSample E7) as (G7 & S7 & R7 & P7); [apply G6|by apply G56, G34|].
  pose proof (grows_trans _ _ _ G56 G7) as G57.
  destruct (run_inv _ _ _ _ KCleanup E8) as (G8 & S8 & R8 & P8); [apply G7|by apply G57, G4|].
  pose proof (grows_trans _ _ _ G57 G8) as G58.
  destruct (run_inv _ _ _ _ KReload E9) as (G9 & S9 & R9 & P9); [apply G8|by apply G58|].
  pose proof (grows_trans _ _ _ G8 G9) as G89. pose proof (grows_trans _ _ _ G7 G89) as G79. pose proof (grows_trans _ _ _ G6 G79) as G69.
  exists mgr, sample, cleanup, reload.
  assert (bo_threads b = bo_threads b9 /\ bo_proc b =
    (add_name_thread "reload" reload (add_name_thread "cleanup" cleanup (add_name_thread "sample" sample
      (add_name_thread "capture_manager" mgr (bo_proc b9))))) <| pd_initialized := true |>) as [Et Eb].
  { apply (inj Done) in E. injection E as <-. by destruct b9. }
  set (q := add_name_thread "reload" reload _) in Eb.
  assert (same_process (bo_proc b9) q) as (Q1 & Q2 & Q3) by (subst q; by destruct (bo_proc b9)).
  assert (bo_proc b9 = ((new_proc_data (Some conf)) <| pd_capture_manager := Some mgr |> <| pd_sample := Some sample |>
    <| pd_cleanup := Some cleanup |> <| pd_reload := Some reload |> <| pd_manager_workers := workers |>
    <| pd_manager_filters := filters |>)) as Ep by (by rewrite P9, P8, P7, P6, P5, P4, P3, P2, P1).
  rewrite Ep in Q1, Q2, Q3. assert (pd_names (bo_proc b9) = ∅) as Hn by (by rewrite Ep).
  assert (forall key, get_thread key (bo_proc b) = pd_names q !! key) as Hg by (intros key; rewrite Eb; by destruct q).
  assert (pd_capture_manager (bo_proc b) = Some mgr /\ pd_manager_workers (bo_proc b) = workers /\ pd_manager_filters (bo_proc b) = filters) as (Hm & Hw & Hf).
  { rewrite Eb. destruct q. cbn in *. by rewrite Q1, Q2, Q3. }
  constructor; rewrite ?Hm, ?Hw, ?Hf, ?Et; try done.
  - apply G9.
  - lia.
  - exact (conj (started_grows _ _ _ _ G69 R5) (conj (started_grows _ _ _ _ G89 R7) (conj (started_grows _ _ _ _ G9 R8) R9))).
  - eapply Forall_impl; [exact W2|]. intros x. apply started_grows, G79.
  - eapply Forall_impl; [exact F2|]. intros x. apply started_grows, G79.
  - rewrite !Hg. subst q. split_and!.
    + by rewrite !names_other, names_new, Hn by done.
    + by rewrite !names_other, names_new, names_other, Hn by done.
    + by rewrite names_other, names_new, !names_other, Hn by done.
    + by rewrite names_new, !names_other, Hn by done.
    + by rewrite !names_other, Hn by done.
    + by rewrite !names_other, Hn by done.
Qed.

End boot.

Lemma kinds_disjoint t k k' l l' : k <> k' ->
  Forall (fun i => ts_map t !! i = Some k) l -> Forall (fun i => ts_map t !! i = Some k') l' -> forall i, i ∈ l -> i ∉ l'.
Proof. intros Hk H1 H2 i Hi Hi'. rewrite Forall_forall in H1, H2. specialize (H1 i Hi). specialize (H2 i Hi'). congruence. Qed.

Lemma sorted_NoDup l : StronglySorted Z.lt l -> NoDup l.
Proof.
  induction 1 as [|x l Hs IH Hf]; [constructor|]. constructor; [|done]. intros Hin. rewrite Forall_forall in Hf. specialize (Hf x Hin). lia.
Qed.

(** Threads of different kinds, sorted by kind. *)
Definition kinds_ok (t : threads) (c : thread_kind * list Z) : Prop :=
  NoDup (snd c) /\ Forall (fun i => ts_map t !! i = Some (fst c)) (snd c).

Lemma kinds_NoDup t classes : NoDup (map fst classes) -> Forall (kinds_ok t) classes -> NoDup (concat (map snd classes)).
Proof.
  intros Hn Hc. induction Hc as [|[k l] classes [Hl Hk] Hc IH]; cbn in *; [constructor|]. apply NoDup_cons in Hn as [Hk' Hn].
  apply NoDup_app. split; [done|]. split; [|by apply IH]. intros i Hi Hin. apply list_elem_of_In, in_concat in Hin as (l' & Hl' & Hin).
  apply in_map_iff in Hl' as ([k' l''] & <- & Hc'). cbn in Hin. apply list_elem_of_In in Hin, Hc'.
  assert (k <> k') as Hne by (intros ->; apply Hk', list_elem_of_fmap; by exists (k', l'')).
  rewrite Forall_forall in Hc. destruct (Hc _ Hc') as [_ Hk2]. by eapply (kinds_disjoint t k k' l l'').
Qed.

Lemma kinds_positive t classes i : threads_ok t -> Forall (kinds_ok t) classes -> i ∈ concat (map snd classes) -> 0 < i.
Proof.
  intros Ht Hc Hi. apply list_elem_of_In, in_concat in Hi as (l & Hl & Hi). apply in_map_iff in Hl as ([k l'] & <- & Hc').
  apply list_elem_of_In in Hi, Hc'. rewrite Forall_forall in Hc. destruct (Hc _ Hc') as [_ Hk]. rewrite Forall_forall in Hk.
  by apply (to_map _ Ht i k), Hk.
Qed.

Lemma kind_one t k i : ts_map t !! i = Some k -> kinds_ok t (k, [i]).
Proof. intros Hi. split; [apply NoDup_singleton|by repeat constructor]. Qed.

(** If threads start, none is deleted, and the start-up is defined. *)
Section defined.
Context (e : boot_env) (conf : CRxServerConfig).
Hypothesis Hpair : forall i, be_pair e i = true.
Hypothesis Hcreate : forall i, be_create e i = true.

Lemma start_each_defined k n i t :
  threads_ok t -> ts_index_start t + Z.of_nat n < 2 ^ 32 -> exists l t', start_each e k n i t = Done (l, t').
Proof.
  revert i t. induction n as [|n IH]; intros i t Ht Hl; cbn [start_each]; [by eexists _, _|].
  destruct (be_alloc e k i); [|apply IH; [done|lia]].
  destruct (construct e k t) as [j t1] eqn:E1.
  destruct (construct_ok e Hpair k t j t1 Ht ltac:(lia) E1) as (G1 & _ & S1 & K1 & V1).
  destruct (base_start e j t1) as [ok t2] eqn:E2.
  destruct (base_start_ok e j t1 ok t2 k (gr_ok _ _ G1) K1 E2) as (G2 & S2 & _).
  assert (ok = true) as ->.
  { unfold base_start in E2. rewrite bool_decide_false, Hcreate in E2 by done. by injection E2. }
  rewrite outcome_bind_done. destruct (IH (i + 1) t2) as (l & t' & ->); [apply G2|lia|]. by eexists _, _.
Qed.

(** A state on the way: the threads in [ks] were made, [n] at most in all. *)
Record on_the_way (n : Z) (ks : list Z) (b : boot) : Prop := {
  ow_ok : threads_ok (bo_threads b);
  ow_start : ts_index_start (bo_threads b) <= n;
  ow_made : Forall (fun i => is_Some (ts_map (bo_threads b) !! i)) ks;
  ow_conf : pd_conf (bo_proc b) = Some conf;
}.

Lemma on_the_way_grows n n' ks b b' :
  on_the_way n ks b -> grows (bo_threads b) (bo_threads b') -> ts_index_start (bo_threads b') <= n' ->
  pd_conf (bo_proc b') = pd_conf (bo_proc b) -> on_the_way n' ks b'.
Proof.
  intros [H1 H2 H3 H4] G Hn Hc. constructor; [apply G|done| |congruence].
  eapply Forall_impl; [exact H3|]. intros i [k Hk]. exists k. by apply G.
Qed.

(** A step that is defined and, when it does not return early, leads to [Q]. *)
Definition defined {A} (m : step A) (b : boot) (Q : A -> boot -> Prop) : Prop :=
  exists x b', m b = Done (x, b') /\ forall a, x = Some a -> Q a b'.

Lemma defined_bind {A B} (m : step A) (f : A -> step B) b P Q :
  defined m b P -> (forall a b', P a b' -> defined (f a) b' Q) -> defined (m ≫= f) b Q.
Proof.
  intros (x & b1 & E & Hx) Hf. unfold defined, mbind at 1, step_bind. rewrite E, outcome_bind_done.
  destruct x as [a|]; [by apply Hf, Hx|]. by exists None, b1.
Qed.

Lemma make_defined n ks k set b :
  on_the_way n ks b -> n + 1 < 2 ^ 32 -> (forall i p, pd_conf (set i p) = pd_conf p) ->
  defined (make e k set) b (fun i b' => on_the_way (n + 1) (i :: ks) b').
Proof.
  intros H Hn Hset. unfold defined. destruct (make e k set b) as [[[i|] b']| | |] eqn:E;
    [|by eexists _, _|by unfold make in E; destruct (be_alloc e k 0)..].
  eexists _, _. split; [done|]. intros a [= <-]. pose proof (ow_start _ _ _ H) as Hs.
  destruct (make_inv e Hpair k set b i b' E) as (G & S & K & P); [apply H|lia|].
  destruct (on_the_way_grows n (n + 1) ks b b' H G) as [H1 H2 H3 H4]; [lia|by rewrite P|].
  constructor; [done|done| |done]. constructor; [by exists k|done].
Qed.

Lemma run_defined n ks i b : on_the_way n ks b -> i ∈ ks -> defined (run e i) b (fun _ b' => on_the_way n ks b').
Proof.
  intros H Hi. pose proof (ow_made _ _ _ H) as Hm. rewrite Forall_forall in Hm. destruct (Hm i Hi) as [k Hk].
  unfold defined. destruct (run e i b) as [[[[]|] b']| | |] eqn:E;
    [|by eexists _, _|by unfold run in E; destruct (base_start e i (bo_threads b))..].
  eexists _, _. split; [done|]. intros a _.
  destruct (run_inv e i b b' tt k E) as (G & S & _ & P); [apply H|done|].
  eapply on_the_way_grows; [done|done|rewrite S; apply H|by rewrite P].
Qed.

Lemma manager_defined n ks b :
  on_the_way n ks b -> n + Z.max 2 (sv_capture_threads conf) + 1 < 2 ^ 32 ->
  defined (manager_threads e) b (fun _ b' => on_the_way (n + Z.max 2 (sv_capture_threads conf) + 1) ks b').
Proof.
  intros H Hn. pose proof (ow_start _ _ _ H) as Hs. unfold defined.
  assert (exists b', manager_threads e b = Done (Some tt, b')) as [b' E].
  { unfold manager_threads. rewrite (ow_conf _ _ _ H).
    set (c := if sv_capture_threads conf <=? 0 then 2 else sv_capture_threads conf).
    assert (0 < c <= Z.max 2 (sv_capture_threads conf)) as Hc by (subst c; destruct (Z.leb_spec (sv_capture_threads conf) 0); lia).
    destruct (start_each_defined KCaptureWorker (Z.to_nat c) 0 (bo_threads b)) as (ws & t1 & E1); [apply H|lia|].
    destruct (start_each_ok e Hpair KCaptureWorker (Z.to_nat c) 0 (bo_threads b) ws t1 (ow_ok _ _ _ H) ltac:(lia) E1) as (G1 & S1 & _).
    rewrite E1, outcome_bind_done.
    destruct (start_each_defined KFilter 1 0 t1) as (fs & t2 & ->); [apply G1|lia|]. rewrite outcome_bind_done. by eexists. }
  eexists _, _. split; [exact E|]. intros a _.
  destruct (manager_threads_inv e Hpair b b' tt conf E) as (G & S & ws & fs & P & _); [apply H|apply H|lia|].
  eapply on_the_way_grows; [done|done|lia|rewrite P; by destruct (bo_proc b)].
Qed.

Lemma init_threads_defined :
  Z.max 2 (sv_capture_threads conf) + 6 < 2 ^ 32 ->
  defined (init_threads e) (mkBoot no_threads (new_proc_data (Some conf))) (fun _ _ => True).
Proof.
  intros Hl. unfold init_threads, defined. cbn [bo_proc pd_initialized new_proc_data].
  match goal with |- exists x b', ?m ?b = _ /\ _ => change (defined m b (fun _ _ => True)) end.
  assert (H0 : on_the_way 0 [] (mkBoot no_threads (new_proc_data (Some conf)))).
  { constructor; [apply no_threads_ok|cbn; lia|constructor|done]. }
  eapply defined_bind; [apply (make_defined 0 []); [exact H0|lia|done]|]. intros i1 b1 H1.
  eapply defined_bind; [eapply make_defined; [exact H1|lia|done]|]. intros i2 b2 H2.
  eapply defined_bind; [eapply make_defined; [exact H2|lia|done]|]. intros i3 b3 H3.
  eapply defined_bind; [eapply make_defined; [exact H3|lia|done]|]. intros i4 b4 H4.
  eapply defined_bind.
  { eapply defined_bind; [eapply run_defined; [exact H4|set_solver+]|]. intros u5 b5 H5.
    eapply manager_defined; [exact H5|lia]. }
  intros u6 b6 H6.
  eapply defined_bind; [eapply run_defined; [exact H6|set_solver+]|]. intros u7 b7 H7.
  eapply defined_bind; [eapply run_defined; [exact H7|set_solver+]|]. intros u8 b8 H8.
  eapply defined_bind; [eapply run_defined; [exact H8|set_solver+]|]. intros u9 b9 H9.
  by eexists _, _.
Qed.

Lemma startup_defined :
  Z.max 2 (sv_capture_threads conf) + 6 < 2 ^ 32 -> be_alloc e KListen 0 = true -> exists r, do_init e conf = Done r.
Proof.
  intros Hl Ha. unfold do_init, server_start.
  destruct (init_threads_defined Hl) as ([u|] & b & -> & _); rewrite outcome_bind_done; [|by eexists].
  rewrite Ha. destruct (construct e KListen (bo_threads b)) as [index t]. destruct (be_listen e); [|by eexists].
  destruct (start_http _ _ _ _ _) as [l b2]. destruct (base_start _ _ _). by eexists.
Qed.
End defined.

(** ** Properties *)


(** New sockets do not spread: the address of an allocated object is a multiple
    of 16, and so for 2, 4, 8 or 16 threads every socket goes to the first. *)
Theorem sockets_to_first_worker l w ws accepted :
  lp_workers l = w :: ws -> (Z.of_nat (length (lp_workers l)) | 16) -> Forall (fun x => (16 | snd x)) accepted ->
  event_process accepted l = map (fun x => (mkObjId OBJ_ID_THREAD w, fst x)) accepted.
Proof.
  intros Hw Hn Ha. unfold event_process. apply map_ext_Forall. eapply Forall_impl; [exact Ha|]. intros x Hx. f_equal. f_equal.
  unfold process. rewrite Hw in *. assert (snd x mod Z.of_nat (length (w :: ws)) = 0) as ->; [|done].
  apply Z.mod_divide; [cbn; lia|]. by etransitivity.
Qed.

(** Every new socket is posted to a thread that the listener was given, and to
    the listening thread itself when it was given none. *)
Lemma process_target addr l : lp_workers l <> [] -> process addr l ∈ lp_workers l.
Proof.
  intros Hne. unfold process. destruct (lp_workers l) as [|w ws] eqn:E; [done|].
  destruct (lookup_lt_is_Some_2 (w :: ws) (Z.to_nat (addr mod Z.of_nat (length (w :: ws))))) as [x Hx].
  - pose proof (Z.mod_pos_bound addr (Z.of_nat (length (w :: ws))) ltac:(cbn; lia)). lia.
  - rewrite Hx. cbn. by eapply list_elem_of_lookup_2.
Qed.

(** The threads of a server that serves. *)
Definition served (r : outcome (server_result * boot)) : option (list Z * list Z * list Z) :=
  match r with
  | Done (Serving l, b) => Some (lp_workers l, pd_manager_workers (bo_proc b), pd_manager_filters (bo_proc b))
  | _ => None
  end.

Definition demo_server_config : CRxServerConfig := init_defaults.

(** The second capture worker and one HTTP thread are not allocated, the other
    HTTP thread and the listener are not started. *)
Definition refused_boot_env : boot_env :=
  mkBootEnv (fun k i => negb (bool_decide (k = KHttp) && (i =? 0)) && negb (bool_decide (k = KCaptureWorker) && (i =? 1)))
    (fun _ => true) (fun i => i <=? 8) true.

(** A worker that cannot be started is deleted. *)
Example refused_worker_undefined :
  do_init (mkBootEnv (fun _ _ => true) (fun _ => true) (fun i => negb (i =? 6)) true) init_defaults = Undef.
Proof. vm_compute. reflexivity. Qed.


Definition demo_boot_env : boot_env := mkBootEnv (fun _ _ => true) (fun _ => true) (fun _ => true) true.

(** With the default configuration two HTTP threads run, and the second gets nothing. *)
Lemma sockets_to_first_worker_witness :
  exists l b, do_init demo_boot_env demo_server_config = Done (Serving l, b) /\ lp_workers l = [11; 12] /\
    event_process [(21, 0x7f0010); (22, 0x7f0450); (23, 0x7f0890)] l =
      [(mkObjId OBJ_ID_THREAD 11, 21); (mkObjId OBJ_ID_THREAD 11, 22); (mkObjId OBJ_ID_THREAD 11, 23)].
Proof.
  destruct (do_init demo_boot_env demo_server_config) as [[[l| |] b]| | |] eqn:E; try (exfalso; vm_compute in E; discriminate).
  exists l, b. split; [done|].
  assert (served (Done (Serving l, b)) = Some ([11; 12], [5; 6; 7; 8], [9])) as Hs by (rewrite <- E; vm_compute; reflexivity).
  clear E. injection Hs as Hl _ _.
  split; [exact Hl|]. rewrite (sockets_to_first_worker l 11 [12]); [reflexivity|exact Hl|rewrite Hl; by exists 8|].
  repeat constructor; cbn [snd]; [by exists 0x7f001|by exists 0x7f045|by exists 0x7f089].
Defined.

(** ** The configuration file *)

Definition SIZE_LEN_128 : nat := 128.
Definition SIZE_LEN_1024 : nat := Z.to_nat 1024.

(** [get_proc_name]: [link] is what [readlink] gives for the program, at most
    [SIZE_LEN_1024] bytes; the terminator of a link of that length is written
    behind the array. *)
Definition get_proc_name (link : option string) (buf_len : nat) : outcome string :=
  match link with
  | None => Done ""
  | Some exec =>
      let proc_name := str_take SIZE_LEN_1024 exec in
      if (SIZE_LEN_1024 <=? String.length proc_name)%nat then Undef
      else Done (match rfind_char "/" proc_name with Some i => bounded buf_len (str_drop (S i) proc_name) | None => "" end)
  end.

Section Conf.
Context {V : Type} `{Json V}.
Variable read_file : string -> option string.

(** [do_init] up to the configuration. *)
Definition load_conf (link : option string) : outcome CRxServerConfig :=
  proc_name ← get_proc_name link SIZE_LEN_128;
  Done (new_server_config read_file (Some ("./conf/" +:+ proc_name +:+ ".ini"))).

(** The file the guide names is read when there is no [.ini] file that is a JSON
    document: the one under config/ with the name of the program, else the one
    with the default name. *)
Theorem conf_of_guide dir name :
  has_char "/" name = false -> has_char "." name = false -> name <> "" -> (String.length name < SIZE_LEN_128)%nat ->
  (String.length (dir +:+ String "/" name) < SIZE_LEN_1024)%nat ->
  load_object read_file ("./conf/" +:+ name +:+ ".ini") = None ->
  load_conf (Some (dir +:+ String "/" name)) =
    Done (match load_from_path read_file ("config/" +:+ name +:+ ".json") init_defaults with
          | (true, c) => c
          | (false, c) => snd (load_from_path read_file "config/rxtracenetcap.json" c)
          end).
Proof.
  intros Hs Hd Hne Hn Hl Hini. unfold load_conf, get_proc_name. rewrite str_take_all by lia.
  destruct (Nat.leb_spec SIZE_LEN_1024 (String.length (dir +:+ String "/" name))); [lia|].
  rewrite rfind_char_app, str_drop_S_app by done. unfold bounded. rewrite str_take_all by lia. rewrite outcome_bind_done.
  unfold new_server_config, load_from_path at 1. rewrite Hini. unfold load_from_process, deduce_path_from_argv, file_name.
  change ("./conf/" +:+ name +:+ ".ini") with ("./conf" +:+ String "/" (name +:+ String "." "ini")).
  rewrite rfind_char_app, str_drop_S_app by (by rewrite has_char_app, Hs).
  assert (is_empty (name +:+ String "." "ini") = false) as -> by (by destruct name).
  rewrite rfind_char_app, str_take_app by done. assert (is_empty name = false) as -> by (by destruct name).
  by destruct (load_from_path read_file ("config/" +:+ name +:+ ".json") init_defaults) as [[] c].
Qed.

End Conf.
