(* ===== verification/Services.v ===== *)
(** * The periodic work of the service threads (rx*thread.cpp over core/legacy_core_net.cpp)

    The capture manager, the cleanup, the sample and the reload thread do work on
    timers that they arm again when they fire.  What such a thread is to the loop
    of [base_net_thread::run] is an interface; one pass of the loop, over the
    timers of [Timers], is defined against it, and what keeps the timers going is
    proved against its laws.  The four threads are instances. *)

From stdpp Require Import list.
From S2P Require Import Prelude CppString TaskTypes Messages ProcData TaskMgr TaskMgrCorrect PdefWriteback CaptureManager CaptureManagerCorrect CaptureDecision Cleanup CleanupCorrect Config SampleThread Timers.

(** ** The interface *)

(** A thread as [base_net_thread::run] sees it: what [start] arms, and the
    virtual functions.  [sv_timeout] gets what it reads of the rest of the
    program; the messages that [run_process] and [sv_timeout] arm are in order. *)
Class Service (In Msg W : Type) := {
  sv_start : W -> list timer_msg;
  sv_run_process : W -> outcome (W * list timer_msg);
  sv_message : Msg -> W -> outcome W;
  sv_timeout : In -> timer_msg -> W -> outcome (W * list timer_msg);
  sv_run_flag : W -> bool;
}.

(** A timer for the thread itself. *)
Definition thread_timer (timer_type time_length : Z) : timer_msg := mkTimer OBJ_ID_THREAD timer_type 0 time_length.

Definition tick (x : Z * Z) : timer_msg := thread_timer (fst x) (snd x).

(** The laws: [sl_ticks] are the types and lengths of the periodic timers,
    [sl_armed] says that they were armed, [sl_initial] that the thread was not
    started yet. *)
Class ServiceLaws {In Msg W} (S : Service In Msg W) := {
  sl_inv : W -> Prop;
  sl_initial : W -> Prop;
  sl_armed : W -> bool;
  sl_ticks : W -> list (Z * Z);
  sl_orderly : Msg -> W -> Prop;
  sl_types w : NoDup (map fst (sl_ticks w));
  sl_lengths w : Forall (fun x => 0 < snd x < 2 ^ 32) (sl_ticks w);
  sl_start w : sl_initial w -> sv_start w = if sl_armed w then map tick (sl_ticks w) else [];
  sl_run_process w : sl_inv w -> exists w',
    sv_run_process w = Done (w', if sl_armed w then [] else map tick (sl_ticks w)) /\ sl_inv w' /\ sl_armed w' = true /\
    sl_ticks w' = sl_ticks w /\ sv_run_flag w' = sv_run_flag w;
  sl_message m w : sl_inv w -> sl_orderly m w -> exists w', sv_message m w = Done w' /\ sl_inv w' /\
    sl_armed w' = sl_armed w /\ sl_ticks w' = sl_ticks w /\ (sv_run_flag w' = true -> sv_run_flag w = true);
  sl_timeout i id x w : sl_inv w -> x ∈ sl_ticks w -> exists w',
    sv_timeout i (mkTimer OBJ_ID_THREAD (fst x) id (snd x)) w = Done (w', if sv_run_flag w then [tick x] else []) /\
    sl_inv w' /\ sl_armed w' = sl_armed w /\ sl_ticks w' = sl_ticks w /\ sv_run_flag w' = sv_run_flag w;
  sl_timeout_one i m w w' l : sv_timeout i m w = Done (w', l) -> (length l <= 1)%nat;
}.

(** ** The loop *)

Section Loop.
Context {In Msg W : Type} `{S : Service In Msg W}.

Record service := mkService { se_world : W; se_timers : base_timer }.

(** A pass of the loop: the messages that [obj_process] finds, the timers it
    arms for other objects (the channel), the clock at [check_timer] and at each
    [add_timer], and what the handlers read. *)
Record pass := mkPass {
  pa_messages : list Msg;
  pa_others : list (Z * timer_msg);
  pa_now : Z;
  pa_clock : timer_msg -> Z;
  pa_input : In;
}.

(** [common_obj_container::handle_timeout]: a timer of the thread goes to the
    thread; no other object of a service thread has a handler that arms one. *)
Definition dispatch (p : pass) (m : timer_msg) (w : outcome W) : outcome W * list (Z * timer_msg) * bool :=
  if tm_obj_id m =? OBJ_ID_THREAD then
    match (w ← w; sv_timeout (pa_input p) m w) with
    | Done (w, l) => (Done w, map (fun m => (pa_clock p m, m)) l, false)
    | Fails msg => (Fails msg, [], false)
    | Undef => (Undef, [], false)
    | NoFuel => (NoFuel, [], false)
    end
  else (w, [], false).

Definition arm_all (clock : timer_msg -> Z) (l : list timer_msg) (t : base_timer) : outcome base_timer :=
  match add_timers (map (fun m => (clock m, m)) l) t with Some (_, t) => Done t | None => NoFuel end.

Fixpoint messages (l : list Msg) (w : W) : outcome W :=
  match l with [] => Done w | m :: l => w ← sv_message m w; messages l w end.

(** One turn of [while (get_run_flag()) { run_process(); obj_process(); }], with
    the timers that fired. *)
Definition turn (p : pass) (s : service) : outcome (service * list timer_msg) :=
  if sv_run_flag (se_world s) then
    '(w, l) ← sv_run_process (se_world s);
    t ← arm_all (pa_clock p) l (se_timers s);
    w ← messages (pa_messages p) w;
    match add_timers (pa_others p) t with
    | None => NoFuel
    | Some (_, t) =>
        match check_timer (dispatch p) (pa_now p) (Done w) t with
        | None => NoFuel
        | Some f => w ← fi_world f; Done (mkService w (fi_timers f), map snd (fi_fired f))
        end
    end
  else Done (s, []).

Fixpoint turns (l : list pass) (s : service) : outcome (service * list (list timer_msg)) :=
  match l with
  | [] => Done (s, [])
  | p :: l => '(s, fired) ← turn p s; '(s, rest) ← turns l s; Done (s, fired :: rest)
  end.

(** The thread after [start]. *)
Definition launch (clock : timer_msg -> Z) (w : W) : outcome service :=
  t ← arm_all clock (sv_start w) new_base_timer; Done (mkService w t).

End Loop.
Arguments service : clear implicits.
Arguments pass : clear implicits.

(** ** What keeps the timers going *)

Definition own (e : Z * timer_msg) : Prop := tm_obj_id (snd e) = OBJ_ID_THREAD.

#[export] Instance own_dec e : Decision (own e) := Z.eq_dec _ _.

Definition kind_of (e : Z * timer_msg) : Z * Z := (tm_timer_type (snd e), tm_time_length (snd e)).

(** The periodic timers of the thread in a list. *)
Definition own_ticks (l : timer_list) : list (Z * Z) := map kind_of (filter own l).

(** Due at the latest its length after the time [T]. *)
Definition due_by (T : Z) (e : Z * timer_msg) : Prop := own e -> fst e <= T + tm_time_length (snd e).

Lemma own_ticks_app a b : own_ticks (a ++ b) = own_ticks a ++ own_ticks b.
Proof. unfold own_ticks. by rewrite filter_app, map_app. Qed.

#[export] Instance own_ticks_perm : Proper (Permutation ==> Permutation) own_ticks.
Proof. intros a b H. unfold own_ticks. by rewrite H. Qed.

Lemma own_ticks_others l : Forall (fun e => ~ own e) l -> own_ticks l = [].
Proof. intros H. unfold own_ticks. induction H as [|e l He _ IH]; [done|]. by rewrite filter_cons_False. Qed.

Lemma own_shape e : own e -> snd e = mkTimer OBJ_ID_THREAD (fst (kind_of e)) (tm_timer_id (snd e)) (snd (kind_of e)).
Proof. destruct e as [k [o ty id len]]. unfold own. cbn. by intros ->. Qed.

Lemma reach_time_le now m : 0 <= now -> 0 <= tm_time_length m -> reach_time now m <= now + tm_time_length m.
Proof. intros H1 H2. unfold reach_time. apply Z.mod_le; lia. Qed.

(** Arming periodic timers. *)
Lemma arm_ticks clock T l t added t' :
  Forall (fun x => 0 < snd x < 2 ^ 32) l -> (forall m, 0 <= clock m <= T) ->
  add_timers (map (fun m => (clock m, m)) (map tick l)) t = Some (added, t') ->
  own_ticks added = l /\ Forall (due_by T) added /\ Forall own added.
Proof.
  intros Hl Hc. revert t added t'. induction Hl as [|x l Hx Hl IH]; intros t added t' E; cbn [map add_timers] in E.
  - by injection E as <- <-.
  - destruct (add_timer (clock (tick x)) (tick x) t) as [[r t1]|] eqn:E1; [|done].
    change (Some ?x ≫= ?f) with (f x) in E; cbv beta iota in E.
    destruct (add_timers _ t1) as [[added1 t2]|] eqn:E2; [|done]. change (Some ?x ≫= ?f) with (f x) in E; cbv beta iota in E. injection E as <- <-.
    destruct (IH _ _ _ E2) as (I1 & I2 & I3). unfold add_timer in E1. cbn [tick thread_timer tm_time_length tm_obj_id] in E1.
    destruct (Z.eqb_spec (snd x) 0); [lia|]. change (OBJ_ID_THREAD =? 0) with false in E1. cbn [orb] in E1.
    destruct (gen_timerid t) as [[id t3]|]; [|done]. apply (inj Some), pair_eq in E1 as [<- _].
    set (e := (reach_time (clock (tick x)) (tick x), (tick x) <| tm_timer_id := id |>)).
    assert (own e) as Ho by done. assert (kind_of e = x) as Hk by (by destruct x).
    split; [|split; [constructor; [|done]|by constructor]].
    + unfold own_ticks in *. rewrite filter_cons_True by done. cbn [map]. by rewrite Hk, I1.
    + intros _. change (tm_time_length (snd e)) with (snd x). subst e. cbn [fst].
      etransitivity; [apply reach_time_le; [apply Hc|cbn; lia]|]. cbn. specialize (Hc (tick x)). lia.
Qed.

Lemma add_others l t added t' : Forall (fun x => ~ own x) l -> add_timers l t = Some (added, t') -> Forall (fun e => ~ own e) added.
Proof.
  intros Hl. revert t added t'. induction Hl as [|[now m] l Hx Hl IH]; intros t added t' E; cbn [add_timers] in E; [by injection E as <- _|].
  destruct (add_timer now m t) as [[r t1]|] eqn:E1; [|done]. change (Some ?x ≫= ?f) with (f x) in E; cbv beta iota in E.
  destruct (add_timers _ t1) as [[added1 t2]|] eqn:E2; [|done]. change (Some ?x ≫= ?f) with (f x) in E; cbv beta iota in E. injection E as <- <-.
  apply add_timer_armed in E1. destruct r as [m'|]; [|by eapply IH]. constructor; [|by eapply IH].
  unfold own in *. cbn in *. by destruct E1 as [-> _].
Qed.

Section Keeping.
Context {In Msg W : Type} {S : Service In Msg W} `{L : !ServiceLaws S}.

(** Nothing of the thread but its work has changed. *)
Definition same_service (w w' : W) : Prop :=
  sl_inv w' /\ sl_armed w' = sl_armed w /\ sl_ticks w' = sl_ticks w /\ sv_run_flag w' = sv_run_flag w.

Lemma same_service_trans w1 w2 w3 : same_service w1 w2 -> same_service w2 w3 -> same_service w1 w3.
Proof. unfold same_service. intros (_ & A1 & A2 & A3) (B & B1 & B2 & B3). split; [done|]. by rewrite B1, B2, B3, A1, A2, A3. Qed.

Lemma dispatch_one (p : pass In Msg) : arms_one (dispatch p).
Proof.
  intros m w. unfold dispatch. destruct (_ =? _); [|cbn; lia]. destruct w as [w|msg| |]; cbn; try lia.
  destruct (sv_timeout (pa_input p) m w) as [[w' l]|msg| |] eqn:E; cbn; try lia. rewrite length_map. by eapply sl_timeout_one.
Qed.

(** The timers that are due, of a thread in order. *)
Lemma fire_service (p : pass In Msg) T l f f' w :
  (forall m, 0 <= pa_clock p m <= T) -> fi_world f = Done w -> sl_inv w ->
  Forall (fun e => own e -> kind_of e ∈ sl_ticks w) l -> fire_due (dispatch p) (pa_now p) l f = Some f' ->
  exists w' fired new, fi_world f' = Done w' /\ same_service w w' /\ fi_fired f' = fi_fired f ++ fired /\ fi_added f' = fi_added f ++ new /\
    own_ticks new = (if sv_run_flag w then own_ticks fired else []) /\ Forall (due_by T) new.
Proof.
  intros Hc. revert f w. induction l as [|[k m] l IH]; intros f w Hw Hi Hl E; cbn [fire_due] in E.
  - injection E as <-. exists w, [], []. rewrite !app_nil_r. split; [done|]. split; [done|]. split; [done|]. split; [done|].
    by destruct (sv_run_flag w).
  - apply Forall_cons in Hl as [He Hl]. destruct (pa_now p <? k).
    { injection E as <-. exists w, [], []. rewrite !app_nil_r. split; [done|]. split; [done|]. split; [done|]. split; [done|].
      by destruct (sv_run_flag w). }
    unfold dispatch at 1 in E. destruct (Z.eqb_spec (tm_obj_id m) OBJ_ID_THREAD) as [Ho|Ho].
    + specialize (He Ho). rewrite Hw, outcome_bind_done in E.
      destruct (sl_timeout (pa_input p) (tm_timer_id (snd (k, m))) (kind_of (k, m)) w Hi He) as (w1 & E1 & Hsame).
      rewrite <- (own_shape (k, m) Ho) in E1. cbn [snd] in E1. rewrite E1 in E. cbv beta iota zeta in E.
      destruct (add_timers _ (fi_timers f)) as [[added t]|] eqn:Ea; [|done]. change (Some ?x ≫= ?f) with (f x) in E; cbv beta iota in E.
      destruct (arm_ticks (pa_clock p) T (if sv_run_flag w then [kind_of (k, m)] else []) (fi_timers f) added t) as (A1 & A2 & _).
      { pose proof (sl_lengths w) as Hn. rewrite Forall_forall in Hn. destruct (sv_run_flag w); repeat constructor; by apply Hn. }
      { done. }
      { by destruct (sv_run_flag w). }
      destruct (IH (mkFiring (Done w1) t (fi_fired f ++ [(k, m)]) (fi_added f ++ added) (fi_expect f ++ [])) w1 eq_refl) as (w2 & fired & new & W2 & S2 & F2 & N2 & O2 & D2); [apply Hsame| |exact E|].
      { destruct Hsame as (_ & _ & -> & _). done. }
      cbn [fi_fired fi_added fi_world] in *. exists w2, ((k, m) :: fired), (added ++ new).
      split; [done|]. split; [by eapply same_service_trans|]. split; [by rewrite F2, <- (assoc_L (++))|].
      split; [by rewrite N2, (assoc_L (++))|]. split; [|by apply Forall_app].
      destruct Hsame as (_ & _ & _ & Hr). rewrite own_ticks_app, A1, O2, Hr. unfold own_ticks. rewrite filter_cons_True by done. by destruct (sv_run_flag w).
    + cbn [add_timers] in E. change (Some ?x ≫= ?f) with (f x) in E; cbv beta iota in E. rewrite !app_nil_r in E.
      destruct (IH (mkFiring (fi_world f) (fi_timers f) (fi_fired f ++ [(k, m)]) (fi_added f) (fi_expect f)) w Hw Hi Hl E) as (w2 & fired & new & W2 & S2 & F2 & N2 & O2 & D2).
      cbn [fi_fired fi_added fi_world] in *. exists w2, ((k, m) :: fired), new.
      split; [done|]. split; [done|]. split; [by rewrite F2, <- (assoc_L (++))|]. split; [done|]. split; [|done].
      unfold own_ticks in *. by rewrite filter_cons_False.
Qed.

(** The thread between two passes; no timer of it was armed after [T]. *)
Record service_ok (T : Z) (s : service W) : Prop := {
  sk_world : sl_inv (se_world s);
  sk_timers : timers_ok (se_timers s);
  sk_ticks : sv_run_flag (se_world s) = true ->
    own_ticks (pending (se_timers s)) ≡ₚ (if sl_armed (se_world s) then sl_ticks (se_world s) else []);
  sk_due : Forall (due_by T) (pending (se_timers s));
}.

(** Messages that come in order, and none but timers of other objects. *)
Fixpoint orderly_messages (l : list Msg) (w : W) : Prop :=
  match l with [] => True | m :: l => sl_orderly m w /\ forall w', sv_message m w = Done w' -> orderly_messages l w' end.

Record orderly_pass (T : Z) (p : pass In Msg) (s : service W) : Prop := {
  op_messages w l : sv_run_process (se_world s) = Done (w, l) -> orderly_messages (pa_messages p) w;
  op_others : Forall (fun x => ~ own x) (pa_others p);
  op_clock m : 0 <= pa_clock p m <= T;
}.

Lemma messages_ok l w : sl_inv w -> orderly_messages l w -> exists w', messages l w = Done w' /\ sl_inv w' /\
  sl_armed w' = sl_armed w /\ sl_ticks w' = sl_ticks w /\ (sv_run_flag w' = true -> sv_run_flag w = true).
Proof.
  revert w. induction l as [|m l IH]; intros w Hi Ho; cbn [messages]; [by exists w|]. destruct Ho as [Hm Ho].
  destruct (sl_message m w Hi Hm) as (w1 & E1 & I1 & A1 & T1 & R1). rewrite E1, outcome_bind_done.
  destruct (IH w1 I1 (Ho w1 E1)) as (w2 & E2 & I2 & A2 & T2 & R2). exists w2. rewrite A2, T2. split_and!; auto.
Qed.

Lemma own_ticks_in l e x : e ∈ l -> own e -> own_ticks l ≡ₚ x -> kind_of e ∈ x.
Proof. intros He Ho Hx. rewrite <- Hx. apply list_elem_of_fmap. exists e. split; [done|]. by apply list_elem_of_filter. Qed.

Lemma due_by_later T T' l : T <= T' -> Forall (due_by T) l -> Forall (due_by T') l.
Proof. intros HT H. eapply Forall_impl; [exact H|]. intros e He Ho. specialize (He Ho). lia. Qed.

Lemma not_own_due_by T l : Forall (fun e => ~ own e) l -> Forall (due_by T) l.
Proof. intros H. eapply Forall_impl; [exact H|]. intros e He Ho. by contradict He. Qed.

(** How many timers there can be while the passes [l] are made. *)
Definition room (l : list (pass In Msg)) (s : service W) : nat :=
  length (pending (se_timers s)) + (if sl_armed (se_world s) then 0 else length (sl_ticks (se_world s))) + sum_list_with (fun p => length (pa_others p)) l.

(** One pass.  The work it does is that of the timers that fired; one that waits
    in the list that is checked fires when it is due, one in the other list is in
    the list that the next pass checks. *)
Lemma turn_ok T T' p l s : T <= T' -> service_ok T s -> sv_run_flag (se_world s) = true -> orderly_pass T' p s ->
  (2 * room (p :: l) s <= TIMER_IDS)%nat ->
  exists s' fired, turn p s = Done (s', fired) /\ service_ok T' s' /\ (room l s' <= room (p :: l) s)%nat /\
    sl_armed (se_world s') = true /\ sl_ticks (se_world s') = sl_ticks (se_world s) /\
    forall i e, e ∈ list_at i (se_timers s) ->
      if Bool.eqb i (bt_current (se_timers s)) then due (pa_now p) e -> snd e ∈ fired
      else i = bt_current (se_timers s') /\ e ∈ list_at i (se_timers s').
Proof.
  intros HT [Hi Ht Hk Hd] Hrun [Hmsg Hoth Hclock] Hroom. specialize (Hk Hrun). unfold turn, room in *. rewrite Hrun. cbn [sum_list_with foldr] in Hroom.
  destruct (sl_run_process (se_world s) Hi) as (w1 & E1 & I1 & A1 & T1 & R1). specialize (Hmsg _ _ E1). rewrite E1, outcome_bind_done.
  set (ticks := if sl_armed (se_world s) then [] else sl_ticks (se_world s)).
  assert ((if sl_armed (se_world s) then [] else map tick (sl_ticks (se_world s))) = map tick ticks) as Harm by (subst ticks; by destruct (sl_armed _)).
  rewrite Harm. clear Harm. unfold arm_all.
  assert (length ticks = if sl_armed (se_world s) then 0%nat else length (sl_ticks (se_world s))) as Hlen by (subst ticks; by destruct (sl_armed _)).
  destruct (add_timers_total (map (fun m => (pa_clock p m, m)) (map tick ticks)) (se_timers s) Ht) as [[added1 t1] Ea1].
  { rewrite !length_map. lia. }
  rewrite Ea1, outcome_bind_done. destruct (add_timers_ok _ _ _ _ Ht Ea1) as (H1 & C1 & L1 & P1 & N1). rewrite !length_map in N1.
  destruct (arm_ticks _ T' ticks _ _ _ ltac:(subst ticks; destruct (sl_armed _); [constructor|apply sl_lengths]) Hclock Ea1) as (O1 & D1 & _).
  destruct (messages_ok (pa_messages p) w1 I1 Hmsg) as (w2 & E2 & I2 & A2 & T2 & R2). rewrite E2, outcome_bind_done.
  destruct (add_timers_total (pa_others p) t1 H1) as [[added2 t2] Ea2]; [rewrite P1, length_app; lia|].
  rewrite Ea2. destruct (add_timers_ok _ _ _ _ H1 Ea2) as (H2 & C2 & L2 & P2 & N2). pose proof (add_others _ _ _ _ Hoth Ea2) as O2.
  assert (length (pending t2) <= room (p :: l) s - sum_list_with (fun p => length (pa_others p)) l)%nat as Hsize.
  { unfold room. cbn [sum_list_with foldr]. rewrite P2, P1, !length_app. lia. }
  destruct (check_timer_total (dispatch p) (pa_now p) (Done w2) t2 (dispatch_one p) H2) as [f Ef].
  { unfold room in Hsize. cbn [sum_list_with foldr] in Hsize. lia. }
  rewrite Ef. pose proof (check_conserves _ _ _ _ _ H2 Ef) as Pc. destruct (check_timer_ok _ _ _ _ _ H2 Ef) as (H3 & C3 & F3 & K3 & K4 & N3).
  specialize (N3 (dispatch_one p)).
  assert (own_ticks (pending t2) ≡ₚ sl_ticks w2) as Hown.
  { rewrite P2, P1, !own_ticks_app, (own_ticks_others _ O2), O1, T2, T1, Hk. subst ticks. destruct (sl_armed (se_world s)); cbn [app]; by rewrite ?app_nil_r. }
  assert (Forall (due_by T') (pending t2)) as Hdue.
  { rewrite P2, P1. apply Forall_app. split; [by apply not_own_due_by|]. apply Forall_app. split; [done|]. by eapply due_by_later. }
  unfold check_timer in Ef. destruct (fire_due _ _ _ _) as [f1|] eqn:Efire; [|done]. apply (inj Some) in Ef.
  destruct (fire_service p T' (list_at (bt_current t2) t2) (mkFiring (Done w2) (t2 <| bt_current := negb (bt_current t2) |>) [] [] []) f1 w2 Hclock eq_refl I2) as (w3 & fired & new & W3 & (I3 & A3 & T3 & R3) & F4 & N4 & O4 & D4); [|exact Efire|].
  { apply Forall_forall. intros e He Ho. eapply own_ticks_in; [|exact Ho|exact Hown]. rewrite (pending_lists (bt_current t2) t2). apply elem_of_app. by left. }
  cbn [fi_fired fi_added app] in F4, N4.
  assert (fi_world f = Done w3 /\ fi_fired f = fired /\ fi_added f = new) as (Ew & Efi & Ead) by (rewrite <- Ef; cbn; by rewrite W3, F4, N4).
  rewrite Ew, outcome_bind_done. eexists _, _. split; [done|]. rewrite Efi, Ead in *. cbn [se_world se_timers].
  split; [|split; [|split; [congruence|split; [congruence|]]]].
  - constructor; cbn [se_world se_timers]; [done|done| |].
    + intros Hr. rewrite R3 in Hr. rewrite Hr in O4. rewrite A3, A2, A1, T3, <- Hown.
      apply (Permutation_app_inv_l (own_ticks fired)). rewrite <- own_ticks_app, Pc, own_ticks_app. by rewrite O4.
    + assert (Forall (due_by T') (fired ++ pending (fi_timers f))) as Hall by (rewrite Pc; by apply Forall_app).
      by apply Forall_app in Hall as [_ Hall].
  - rewrite A3, A2, A1. apply Permutation_length in Pc. rewrite !length_app in Pc. unfold room in Hsize. cbn [sum_list_with foldr] in *. lia.
  - intros i e He. assert (bt_current t2 = bt_current (se_timers s)) as Hc by (by rewrite C2, C1). rewrite <- Hc.
    assert (e ∈ list_at i t2) as He2.
    { eapply kept_lists; [exact L2|exact P2|]. eapply kept_lists; [exact L1|exact P1|exact He]. }
    destruct (Bool.eqb_spec i (bt_current t2)) as [->|Hne].
    + intros Hdue'. apply list_elem_of_fmap. exists e. split; [done|]. rewrite F3. by apply list_elem_of_filter.
    + rewrite C3. assert (i = negb (bt_current t2)) as -> by (by destruct i, (bt_current t2)). split; [done|]. rewrite K4. apply elem_of_app. by right.
Qed.

Fixpoint orderly_passes (T : Z) (l : list (pass In Msg)) (s : service W) : Prop :=
  match l with
  | [] => True
  | p :: l => orderly_pass T p s /\ forall s' fired, turn p s = Done (s', fired) -> orderly_passes T l s'
  end.

Lemma stopped_turns l s : sv_run_flag (se_world s) = false -> turns l s = Done (s, map (fun _ => []) l).
Proof.
  intros Hr. induction l as [|p l IH]; [done|]. cbn [turns]. unfold turn. rewrite Hr, outcome_bind_done. cbv beta iota. by rewrite IH.
Qed.

Lemma turns_ok T T' l s : T <= T' -> service_ok T s -> orderly_passes T' l s -> (2 * room l s <= TIMER_IDS)%nat ->
  exists s' fired, turns l s = Done (s', fired) /\ service_ok T' s' /\ (room [] s' <= room l s)%nat /\
    sl_ticks (se_world s') = sl_ticks (se_world s) /\
    (sv_run_flag (se_world s') = true -> (l = [] \/ sl_armed (se_world s') = true) /\ sv_run_flag (se_world s) = true).
Proof.
  intros HT Hs Ho Hr.
  assert (service_ok T' s) as Hs'.
  { destruct Hs as [H1 H2 H3 H4]. constructor; [done..|]. by eapply due_by_later. }
  clear HT Hs T. revert s Hs' Ho Hr. induction l as [|p l IH]; intros s Hs Ho Hr.
  - exists s, []. split; [done|]. split; [done|]. split; [done|]. split; [done|]. auto.
  - destruct (sv_run_flag (se_world s)) eqn:Hrun.
    + destruct Ho as [Hp Ho]. destruct (turn_ok T' T' p l s (Z.le_refl _) Hs Hrun Hp Hr) as (s1 & f1 & E1 & H1 & R1 & A1 & K1 & _).
      destruct (IH s1 H1 (Ho _ _ E1) ltac:(lia)) as (s2 & f2 & E2 & H2 & R2 & K2 & F2). cbn [turns]. rewrite E1, outcome_bind_done. cbv beta iota.
      rewrite E2, outcome_bind_done. exists s2, (f1 :: f2). split; [done|]. split; [done|]. split; [lia|]. split; [congruence|].
      intros Hf. destruct (F2 Hf) as [[->|Ha] _]; [|by auto]. cbn [turns] in E2. injection E2 as -> _. auto.
    + rewrite (stopped_turns (p :: l) s Hrun). exists s, (map (fun _ => []) (p :: l)). split; [done|]. split; [done|]. split; [unfold room; cbn; lia|].
      split; [done|]. congruence.
Qed.

Lemma pending_at t e : e ∈ pending t -> exists i, e ∈ list_at i t.
Proof. intros He. rewrite (pending_lists false t) in He. apply elem_of_app in He as [He|He]; by eexists. Qed.

(** A timer that waits fires in one of two passes at or after its time. *)
Lemma turns_fire T T' l s e : T <= T' -> service_ok T s -> orderly_passes T' l s -> (2 * room l s <= TIMER_IDS)%nat ->
  e ∈ pending (se_timers s) -> (2 <= length l)%nat -> Forall (fun p => fst e <= pa_now p) l ->
  exists s' fired, turns l s = Done (s', fired) /\ (sv_run_flag (se_world s') = true -> snd e ∈ concat fired).
Proof.
  intros HT Hs Ho Hr He Hl Hn. destruct l as [|p1 [|p2 l]]; cbn in Hl; try lia.
  destruct (turns_ok T T' (p1 :: p2 :: l) s HT Hs Ho Hr) as (s' & fired & E & _ & _ & _ & Hf). exists s', fired. split; [done|].
  intros Hf'. destruct (Hf Hf') as [_ Hrun]. apply Forall_cons in Hn as [Hn1 Hn]. apply Forall_cons in Hn as [Hn2 _].
  destruct Ho as [Hp1 Ho]. destruct (turn_ok T T' p1 (p2 :: l) s HT Hs Hrun Hp1 Hr) as (s1 & f1 & E1 & H1 & R1 & _ & _ & F1).
  cbn [turns] in E. rewrite E1, outcome_bind_done in E. cbv beta iota in E. destruct (Ho _ _ E1) as [Hp2 _].
  destruct (turns_ok T' T' (p2 :: l) s1 (Z.le_refl _) H1 (Ho _ _ E1) ltac:(lia)) as (s2 & f2 & E2 & _ & _ & _ & Hf2).
  change (turns (p2 :: l) s1 ≫= (fun '(s, rest) => Done (s, f1 :: rest)) = Done (s', fired)) in E.
  rewrite E2, outcome_bind_done in E. injection E as <- <-. destruct (Hf2 Hf') as [_ Hrun1]. cbn [concat]. apply elem_of_app.
  apply (pending_at (se_timers s)) in He as [i He]. specialize (F1 i e He).
  destruct (Bool.eqb i (bt_current (se_timers s))); [left; by apply F1|]. right. destruct F1 as [-> He1].
  destruct (turn_ok T' T' p2 l s1 (Z.le_refl _) H1 Hrun1 Hp2 ltac:(lia)) as (s3 & f3 & E3 & _ & _ & _ & _ & F3). specialize (F3 _ e He1).
  rewrite Bool.eqb_reflx in F3. cbn [turns] in E2. rewrite E3, outcome_bind_done in E2. cbv beta iota in E2.
  destruct (turns l s3) as [[s4 f4]| | |]; try done. rewrite outcome_bind_done in E2. injection E2 as _ <-. cbn [concat]. apply elem_of_app. left. by apply F3.
Qed.

Lemma launch_ok T clock w : sl_inv w -> sl_initial w -> (forall m, 0 <= clock m <= T) -> (length (sl_ticks w) < TIMER_IDS)%nat ->
  exists t, launch clock w = Done (mkService w t) /\ service_ok T (mkService w t) /\
    length (pending t) = if sl_armed w then length (sl_ticks w) else 0%nat.
Proof.
  intros Hi H0 Hc Hl. unfold launch, arm_all. rewrite sl_start by done. set (ticks := if sl_armed w then sl_ticks w else []).
  assert ((if sl_armed w then map tick (sl_ticks w) else []) = map tick ticks) as -> by (subst ticks; by destruct (sl_armed w)).
  assert (length ticks <= length (sl_ticks w))%nat as Hlen by (subst ticks; destruct (sl_armed w); cbn; lia).
  destruct (add_timers_total (map (fun m => (clock m, m)) (map tick ticks)) new_base_timer new_timers_ok) as [[added t] E].
  { rewrite !length_map. cbn. lia. }
  destruct (add_timers_ok _ _ _ _ new_timers_ok E) as (H1 & _ & _ & P1 & _). rewrite app_nil_r in P1.
  destruct (arm_ticks clock T ticks _ _ _ ltac:(subst ticks; destruct (sl_armed w); [apply sl_lengths|constructor]) Hc E) as (O1 & D1 & Own).
  rewrite E, outcome_bind_done. exists t. split; [done|]. split.
  - constructor; cbn [se_world se_timers]; [done|done| |by rewrite P1]. intros _. by rewrite P1, O1.
  - rewrite P1. assert (length (own_ticks added) = length added) as <-.
    { unfold own_ticks. rewrite length_map. f_equal. apply filter_keep. by apply Forall_forall. }
    rewrite O1. subst ticks. by destruct (sl_armed w).
Qed.

(** What the interface promises: from its start the thread makes every pass, at
    each moment one timer of every kind waits, and each fires when the thread
    makes two passes after its length has gone by. *)
Definition alive (ticks : list (Z * Z)) (w : W) : Prop :=
  forall T T' clock l1 l2,
    (forall m, 0 <= clock m <= T) -> T <= T' ->
    (2 * (length ticks + sum_list_with (fun p : pass In Msg => length (pa_others p)) (l1 ++ l2)) <= TIMER_IDS)%nat ->
    exists s0, launch clock w = Done s0 /\
    (orderly_passes T l1 s0 -> exists s1 fired1, turns l1 s0 = Done (s1, fired1) /\
      (l1 <> [] -> sv_run_flag (se_world s1) = true -> own_ticks (pending (se_timers s1)) ≡ₚ ticks) /\
      (orderly_passes T' l2 s1 -> exists s2 fired2, turns l2 s1 = Done (s2, fired2) /\
        (l1 <> [] -> sv_run_flag (se_world s2) = true -> (2 <= length l2)%nat ->
         forall x, x ∈ ticks -> Forall (fun p => T + snd x <= pa_now p) l2 ->
         exists id, mkTimer OBJ_ID_THREAD (fst x) id (snd x) ∈ concat fired2))).

Lemma service_alive w : sl_inv w -> sl_initial w -> alive (sl_ticks w) w.
Proof.
  intros Hi Hini T T' clock l1 l2 Hc HT Hroom. rewrite sum_list_with_app in Hroom. unfold TIMER_IDS in *.
  destruct (launch_ok T clock w Hi Hini Hc) as (t & E0 & H0 & N0); [unfold TIMER_IDS; pose proof enough_ids; unfold TIMER_IDS in *; lia|].
  exists (mkService w t). split; [done|]. intros Ho1.
  assert (forall l, room l (mkService w t) = (length (sl_ticks w) + sum_list_with (fun p : pass In Msg => length (pa_others p)) l)%nat) as Hr0.
  { intros l. unfold room. cbn [se_world se_timers]. rewrite N0. destruct (sl_armed w); lia. }
  destruct (turns_ok T T l1 _ (Z.le_refl _) H0 Ho1) as (s1 & fired1 & E1 & H1 & R1 & K1 & F1); [rewrite Hr0; unfold TIMER_IDS; lia|].
  exists s1, fired1. split; [done|]. cbn [se_world] in K1. rewrite Hr0 in R1. split.
  - intros Hne Hf. destruct (F1 Hf) as [[->|Ha] _]; [done|]. rewrite (sk_ticks T s1 H1 Hf), Ha. by rewrite K1.
  - intros Ho2. assert (2 * room l2 s1 <= TIMER_IDS)%nat as Hr1 by (unfold room, TIMER_IDS in *; cbn [sum_list_with foldr] in *; lia).
    destruct (turns_ok T T' l2 s1 HT H1 Ho2 Hr1) as (s2 & fired2 & E2 & H2 & _ & K2 & F2). exists s2, fired2. split; [done|].
    intros Hne Hf Hl x Hx Hn. destruct (F2 Hf) as [_ Hf1]. destruct (F1 Hf1) as [[->|Ha] _]; [done|].
    pose proof (sk_ticks T s1 H1 Hf1) as Hk. rewrite Ha, K1 in Hk. rewrite <- Hk in Hx.
    apply list_elem_of_fmap in Hx as (e & -> & He). apply list_elem_of_filter in He as [Hown He].
    assert (fst e <= T + snd (kind_of e)) as Hdue.
    { pose proof (sk_due T s1 H1) as Hd. rewrite Forall_forall in Hd. by apply Hd. }
    destruct (turns_fire T T' l2 s1 e HT H1 Ho2 Hr1 He Hl) as (s2' & fired2' & E2' & Hin).
    { eapply Forall_impl; [exact Hn|]. intros p Hp. cbv beta in Hp. lia. }
    rewrite E2 in E2'. injection E2' as <- <-. exists (tm_timer_id (snd e)). rewrite <- (own_shape e Hown). by apply Hin.
Qed.

(** *** What the work of a timer brings about *)

Lemma fire_done (p : pass In Msg) l f f' w' : fire_due (dispatch p) (pa_now p) l f = Some f' -> fi_world f' = Done w' ->
  exists w, fi_world f = Done w.
Proof.
  revert f. induction l as [|[k m] l IH]; intros f E Hw; cbn [fire_due] in E; [injection E as <-; by exists w'|].
  destruct (pa_now p <? k); [injection E as <-; by exists w'|].
  destruct (dispatch p m (fi_world f)) as [[w1 adds] threw] eqn:Ed. destruct (add_timers adds (fi_timers f)) as [[added t]|]; [|done].
  change (Some ?x ≫= ?f) with (f x) in E; cbv beta iota in E. destruct (IH _ E Hw) as [w1' Hw1]. cbn [fi_world] in Hw1. subst w1.
  unfold dispatch in Ed. destruct (fi_world f) as [w| | |]; [by exists w| | |]; by destruct (_ =? _).
Qed.

Section Progress.
(** [P] is kept by all the thread does, [R] as well, and the work of the timers
    [x] leads from [P] to [R], when the thread reads what [Q] allows. *)
Context (P R : W -> Prop) (Q : In -> Prop) (x : Z * Z).
Context (Hrun : forall w w' l, sv_run_process w = Done (w', l) -> (P w -> P w') /\ (R w -> R w')).
Context (Hmsg : forall m w w', sv_message m w = Done w' -> (P w -> P w') /\ (R w -> R w')).
Context (Htimer : forall i m w w' l, Q i -> sv_timeout i m w = Done (w', l) -> (P w -> P w') /\ (R w -> R w')).
Context (Hwork : forall i id w w' l, Q i -> P w -> sv_timeout i (mkTimer OBJ_ID_THREAD (fst x) id (snd x)) w = Done (w', l) -> R w').

Definition reached (fired : list timer_msg) (w w' : W) : Prop :=
  (P w -> P w') /\ (R w -> R w') /\ (P w -> forall id, mkTimer OBJ_ID_THREAD (fst x) id (snd x) ∈ fired -> R w').

Lemma reached_trans f1 f2 w1 w2 w3 : reached f1 w1 w2 -> reached f2 w2 w3 -> reached (f1 ++ f2) w1 w3.
Proof.
  intros (A1 & A2 & A3) (B1 & B2 & B3). split; [auto|]. split; [auto|]. intros HP id Hin. apply elem_of_app in Hin as [Hin|Hin]; [|by eapply B3; auto].
  apply B2. by eapply A3.
Qed.

Lemma reached_quiet w w' : ((P w -> P w') /\ (R w -> R w')) -> reached [] w w'.
Proof. intros [A B]. split; [done|]. split; [done|]. intros _ id Hin. by apply elem_of_nil in Hin. Qed.

Lemma fire_reached (p : pass In Msg) l f f' w w' :
  Q (pa_input p) -> fi_world f = Done w -> fire_due (dispatch p) (pa_now p) l f = Some f' -> fi_world f' = Done w' ->
  exists fired, map snd (fi_fired f') = map snd (fi_fired f) ++ fired /\ reached fired w w'.
Proof.
  intros HQ. revert f w. induction l as [|[k m] l IH]; intros f w Hw E Hw'; cbn [fire_due] in E.
  - injection E as <-. exists []. rewrite app_nil_r. split; [done|]. rewrite Hw in Hw'. injection Hw' as <-. by apply reached_quiet.
  - destruct (pa_now p <? k).
    { injection E as <-. exists []. rewrite app_nil_r. split; [done|]. rewrite Hw in Hw'. injection Hw' as <-. by apply reached_quiet. }
    destruct (dispatch p m (fi_world f)) as [[w1 adds] threw] eqn:Ed. destruct (add_timers adds (fi_timers f)) as [[added t]|]; [|done].
    change (Some ?x ≫= ?f) with (f x) in E; cbv beta iota in E.
    assert (exists w1', w1 = Done w1' /\ reached [m] w w1') as (w1' & -> & Hm).
    { unfold dispatch in Ed. destruct (Z.eqb_spec (tm_obj_id m) OBJ_ID_THREAD) as [Ho|Ho].
      - rewrite Hw, outcome_bind_done in Ed. destruct (sv_timeout (pa_input p) m w) as [[w2 l2]|msg| |] eqn:Et.
        + injection Ed as <- _ _. exists w2. split; [done|]. destruct (Htimer _ _ _ _ _ HQ Et) as [A B]. split; [done|]. split; [done|].
          intros HP id Hin. apply list_elem_of_singleton in Hin as <-. by eapply Hwork.
        + exfalso. injection Ed as <- _ _. by destruct (fire_done p l _ f' w' E Hw').
        + exfalso. injection Ed as <- _ _. by destruct (fire_done p l _ f' w' E Hw').
        + exfalso. injection Ed as <- _ _. by destruct (fire_done p l _ f' w' E Hw').
      - injection Ed as <- _ _. exists w. split; [done|]. split; [done|]. split; [done|]. intros _ id Hin.
        apply list_elem_of_singleton in Hin as <-. by contradict Ho. }
    destruct (IH (mkFiring (Done w1') t (fi_fired f ++ [(k, m)]) (fi_added f ++ added) (fi_expect f ++ (if threw then [tm_obj_id m] else []))) w1' eq_refl E Hw') as (fired & Ef & Hr).
    exists (m :: fired). split; [|by apply (reached_trans [m] fired w w1' w')]. cbn [fi_fired] in Ef. rewrite Ef, map_app. cbn [map snd]. by rewrite <- (assoc_L (++)).
Qed.

Lemma messages_reached l w w' : messages l w = Done w' -> reached [] w w'.
Proof.
  revert w. induction l as [|m l IH]; intros w E; cbn [messages] in E; [injection E as <-; by apply reached_quiet|].
  apply outcome_bind_Done_inv in E as (w1 & E1 & E). apply (reached_trans [] [] w w1 w'); [|by apply IH].
  by apply reached_quiet, (Hmsg m).
Qed.

Lemma turn_reached (p : pass In Msg) s s' fired : Q (pa_input p) -> turn p s = Done (s', fired) -> reached fired (se_world s) (se_world s').
Proof.
  intros HQ. unfold turn. destruct (sv_run_flag (se_world s)); [|intros [= <- <-]; by apply reached_quiet].
  intros E. apply outcome_bind_Done_inv in E as ([w1 l1] & E1 & E). apply outcome_bind_Done_inv in E as (t1 & _ & E).
  apply outcome_bind_Done_inv in E as (w2 & E2 & E). destruct (add_timers (pa_others p) t1) as [[added t2]|]; [|done].
  destruct (check_timer (dispatch p) (pa_now p) (Done w2) t2) as [f|] eqn:Ef; [|done].
  apply outcome_bind_Done_inv in E as (w3 & E3 & E). injection E as <- <-. cbn [se_world].
  unfold check_timer in Ef. destruct (fire_due _ _ _ _) as [f1|] eqn:Efire; [|done]. apply (inj Some) in Ef. subst f. cbn [fi_world fi_fired] in *.
  destruct (fire_reached p (list_at (bt_current t2) t2) (mkFiring (Done w2) (t2 <| bt_current := negb (bt_current t2) |>) [] [] []) f1 w2 w3 HQ eq_refl Efire E3) as (fired & Ef & Hf).
  cbn [fi_fired map app] in Ef. rewrite Ef. apply (reached_trans [] fired (se_world s) w1); [by apply reached_quiet, (Hrun _ _ l1)|].
  apply (reached_trans [] fired w1 w2 w3); [by eapply messages_reached|done].
Qed.

Lemma turns_reached l s s' fired : Forall (fun p => Q (pa_input p)) l -> turns l s = Done (s', fired) -> reached (concat fired) (se_world s) (se_world s').
Proof.
  intros HQ. revert s fired. induction HQ as [|p l Hp HQ IH]; intros s fired E; cbn [turns] in E; [injection E as <- <-; by apply reached_quiet|].
  apply outcome_bind_Done_inv in E as ([s1 f1] & E1 & E). apply outcome_bind_Done_inv in E as ([s2 f2] & E2 & E). injection E as <- <-.
  cbn [concat]. eapply reached_trans; [by eapply turn_reached|by apply IH].
Qed.

End Progress.

End Keeping.

(** ** The threads *)

(** *** Capture manager *)

Definition TIMER_TYPE_QUEUE_CHECK : Z := 1.
Definition TIMER_TYPE_EXPIRE_CLEAN : Z := 2.
Definition QUEUE_TIMER_INTERVAL_MS : Z := 1000.

(** The manager, [_is_first], and what it has posted. *)
Record manager_world := mkManagerWorld { mw_manager : manager; mw_is_first : bool; mw_posted : outbox }.

Definition start_queue_timer : list timer_msg := [thread_timer TIMER_TYPE_QUEUE_CHECK QUEUE_TIMER_INTERVAL_MS].

(** [dict] is whether the process has its pair of strategy objects. *)
Definition start_clean_timer (dict : bool) : list timer_msg :=
  if dict then [thread_timer TIMER_TYPE_EXPIRE_CLEAN 3600000] else [].

(** Deferred deletions; what it compares then only goes into the log. *)
Definition check_queue (s : manager) : outcome manager :=
  m ← cleanup_pending_deletes (mg_tasks s); Done (set_tasks s m).

(** Only writes the log. *)
Definition clean_expired_files (s : manager) : manager := s.

Definition manager_run_process (dict : bool) (w : manager_world) : outcome (manager_world * list timer_msg) :=
  s ← run_process (mw_manager w);
  Done (mkManagerWorld s true (mw_posted w), if mw_is_first w then [] else start_queue_timer ++ start_clean_timer dict).

(** The files that the cleanup thread has appended to tasks of the shared task
    manager (rxcleanupthread.cpp, [enqueue_files]) since the last step. *)
Definition appended : Type := list (Z * list CaptureFileInfo).

Fixpoint append_all (l : appended) (m : TaskMgr) : outcome TaskMgr :=
  match l with
  | [] => Done m
  | (id, files) :: l => '(_, m) ← append_capture_files m id files; append_all l m
  end.

Definition others_append (l : appended) (s : manager) : outcome manager :=
  m ← append_all l (mg_tasks s); Done (set_tasks s m).
#[global] Arguments others_append : simpl never.

(** A message, with what [handle_msg] reads and what was appended before it. *)
Definition manager_message (x : env * appended * message) (w : manager_world) : outcome manager_world :=
  s ← others_append (snd (fst x)) (mw_manager w);
  '(s, out) ← CaptureManager.handle_msg (fst (fst x)) (snd x) s;
  Done (mkManagerWorld s (mw_is_first w) (mw_posted w ++ out)).

Definition manager_timeout (dict : bool) (l : appended) (t_msg : timer_msg) (w : manager_world)
    : outcome (manager_world * list timer_msg) :=
  s ← others_append l (mw_manager w);
  let w := mkManagerWorld s (mw_is_first w) (mw_posted w) in
  if tm_timer_type t_msg =? TIMER_TYPE_QUEUE_CHECK then
    s ← check_queue (mw_manager w);
    Done (mkManagerWorld s (mw_is_first w) (mw_posted w), start_queue_timer)
  else if tm_timer_type t_msg =? TIMER_TYPE_EXPIRE_CLEAN then
    Done (mkManagerWorld (clean_expired_files (mw_manager w)) (mw_is_first w) (mw_posted w), start_clean_timer dict)
  else Done (w, []).

#[export] Instance manager_service (dict : bool) : Service appended (env * appended * message) manager_world := {|
  sv_start _ := [];
  sv_run_process := manager_run_process dict;
  sv_message := manager_message;
  sv_timeout := manager_timeout dict;
  sv_run_flag _ := true;
|}.

(** *** Cleanup *)

Definition CLEANUP_TIMER_TYPE : Z := 1.
Definition CLEANUP_INTERVAL_SEC : Z := 60.
Definition RX_MSG_CLEAN_SHUTDOWN : Z := 40002.

(** The thread, the shared task manager as the last message of the thread left
    it, the file system, what it has posted and its run flag. *)
Record cleanup_world (F : Type) := mkCleanupWorld {
  cw_thread : CRxCleanupThread;
  cw_tasks : TaskMgr;
  cw_files : F;
  cw_posted : outbox;
  cw_run_flag : bool;
}.
Arguments mkCleanupWorld {F} _ _ _ _ _.
Arguments cw_thread {F} _.
Arguments cw_tasks {F} _.
Arguments cw_files {F} _.
Arguments cw_posted {F} _.
Arguments cw_run_flag {F} _.

Section CleanupService.
Context {F : Type} `{Files F} (sort_entries : list (string * Stat) -> list (string * Stat)).

Definition schedule_cleanup_timer : list timer_msg := [thread_timer CLEANUP_TIMER_TYPE (u32 (CLEANUP_INTERVAL_SEC * 1000))].

(** [start], once the thread runs: the directories. *)
Definition cleanup_start (e : cleanup_env) (w : cleanup_world F) : cleanup_world F :=
  let c := cw_thread w in
  let '(_, fs) := ensure_directory (get_record_base_dir e) (cw_files w) in
  let '(_, fs) := ensure_directory (cc_archive_dir (cu_config c)) fs in
  let '(_, fs) := if is_empty (cu_pdef_dir c) then (true, fs) else ensure_directory (cu_pdef_dir c) fs in
  mkCleanupWorld c (cw_tasks w) fs (cw_posted w) (cw_run_flag w).

(** A message, with what its handler reads and the shared task manager as the
    other threads have left it by then. *)
Definition cleanup_message (x : cleanup_env * TaskMgr * message) (w : cleanup_world F) : outcome (cleanup_world F) :=
  let flag := match snd x with MsgOther op => if op =? RX_MSG_CLEAN_SHUTDOWN then false else cw_run_flag w | _ => cw_run_flag w end in
  '(c, tm, fs) ← Cleanup.handle_msg sort_entries (fst (fst x)) (snd x) (cw_thread w, snd (fst x), cw_files w);
  Done (mkCleanupWorld c tm fs (cw_posted w) flag).

Definition cleanup_timeout (e : cleanup_env) (t_msg : timer_msg) (w : cleanup_world F) : outcome (cleanup_world F * list timer_msg) :=
  if negb (tm_timer_type t_msg =? CLEANUP_TIMER_TYPE) then Done (w, [])
  else
    let '(c, out, fs) := do_cleanup sort_entries e (cw_thread w) (cw_files w) in
    Done (mkCleanupWorld c (cw_tasks w) fs (cw_posted w ++ out) (cw_run_flag w), if cw_run_flag w then schedule_cleanup_timer else []).

#[export] Instance cleanup_service : Service cleanup_env (cleanup_env * TaskMgr * message) (cleanup_world F) := {|
  sv_start _ := schedule_cleanup_timer;
  sv_run_process w := Done (w, []);
  sv_message := cleanup_message;
  sv_timeout := cleanup_timeout;
  sv_run_flag := cw_run_flag;
|}.
End CleanupService.

(** *** Samples *)

Definition SAMPLE_TIMER_TYPE : Z := 1.
Definition SAMPLE_INTERVAL_SEC : Z := 15.

Record sample_world := mkSampleWorld { sw_thread : CRxSampleThread; sw_posted : outbox; sw_run_flag : bool }.

Section SampleService.
(** The floating-point numbers of a sample. *)
Context {D : Type} (exceeds : D -> Z -> bool).

Definition schedule_timer : list timer_msg := [thread_timer SAMPLE_TIMER_TYPE (u32 (SAMPLE_INTERVAL_SEC * 1000))].

(** Reads the strategy, the thread of the manager, and the load. *)
Definition sample_timeout (e : option strategy * option Z * SRxSystemStats D) (t_msg : timer_msg) (w : sample_world)
    : outcome (sample_world * list timer_msg) :=
  if negb (tm_timer_type t_msg =? SAMPLE_TIMER_TYPE) then Done (w, [])
  else
    let '(cfg, manager, stats) := e in
    Done (mkSampleWorld (sw_thread w) (sw_posted w ++ sample_and_check exceeds cfg manager (sw_thread w) stats) (sw_run_flag w),
          if sw_run_flag w then schedule_timer else []).

#[export] Instance sample_service : Service (option strategy * option Z * SRxSystemStats D) message sample_world := {|
  sv_start _ := schedule_timer;
  sv_run_process w := Done (w, []);
  sv_message _ w := Done w;
  sv_timeout := sample_timeout;
  sv_run_flag := sw_run_flag;
|}.
End SampleService.

(** *** Reload *)

Definition TIMER_TYPE_RELOAD_CONF : Z := 100.

(** The pair of strategy objects, the definitions, [_is_first]. *)
Record reload_world := mkReloadWorld { rw_reload : reload_mgr; rw_files : text_fs; rw_is_first : bool }.

Section ReloadService.
Context {V : Type} `{Json.Json V} (conf : option CRxServerConfig).

Definition reload_timer_start : list timer_msg := [thread_timer TIMER_TYPE_RELOAD_CONF 1000].

Definition reload_run_process (w : reload_world) : outcome (reload_world * list timer_msg) :=
  Done (mkReloadWorld (rw_reload w) (rw_files w) true, if rw_is_first w then [] else reload_timer_start).

(** A message with the formatted local time. *)
Definition reload_message (x : string * message) (w : reload_world) : outcome reload_world :=
  match snd x with
  | MsgPdefEndian m =>
      Done (mkReloadWorld (rw_reload w)
              (Reload.writeback_pdef_endian (em_pdef_file_path m) (em_detected_endian m) (fst x) (rw_files w)) (rw_is_first w))
  | _ => Done w
  end.

(** Reads the files and their times. *)
Definition reload_timeout (e : (string -> option string) * (string -> option Z)) (t_msg : timer_msg) (w : reload_world)
    : outcome (reload_world * list timer_msg) :=
  if tm_timer_type t_msg =? TIMER_TYPE_RELOAD_CONF then
    Done (mkReloadWorld (snd (proc_reload (fst e) (snd e) conf (rw_reload w))) (rw_files w) (rw_is_first w), reload_timer_start)
  else Done (w, []).

#[export] Instance reload_service : Service ((string -> option string) * (string -> option Z)) (string * message) reload_world := {|
  sv_start _ := [];
  sv_run_process := reload_run_process;
  sv_message := reload_message;
  sv_timeout := reload_timeout;
  sv_run_flag _ := true;
|}.
End ReloadService.

(** ** The laws hold *)

Lemma others_append_ok l s : manager_ok s -> exists s', others_append l s = Done s' /\ quiet_step s s'.
Proof.
  intros Hs. unfold others_append.
  assert (exists m, append_all l (mg_tasks s) = Done m /\ mgr_inv m /\ calmer (mg_view s) (tasks m)) as (m & -> & Hm & Hc).
  { unfold mg_view. pose proof (mo_tasks s Hs) as Hm. generalize (mg_tasks s) Hm. clear s Hs Hm.
    induction l as [|[id files] l IH]; intros m Hm; cbn [append_all].
    - exists m. split; [done|]. split; [done|apply calmer_refl].
    - destruct (append_keeps m id files Hm) as (ok & m1 & -> & H1 & C1 & _). rewrite outcome_bind_done.
      destruct (IH m1 H1) as (m2 & -> & H2 & C2). exists m2. split; [done|]. split; [done|]. by eapply calmer_trans. }
  rewrite outcome_bind_done. eexists. split; [done|]. by apply quiet_tasks.
Qed.

#[refine, export] Instance manager_laws dict : ServiceLaws (manager_service dict) := {|
  sl_inv w := manager_ok (mw_manager w);
  sl_initial w := mw_is_first w = false;
  sl_armed w := mw_is_first w;
  sl_ticks _ := (TIMER_TYPE_QUEUE_CHECK, QUEUE_TIMER_INTERVAL_MS) :: if dict then [(TIMER_TYPE_EXPIRE_CLEAN, 3600000)] else [];
  sl_orderly x w := forall s, others_append (snd (fst x)) (mw_manager w) = Done s ->
    orderly s (snd x) /\ mg_next_capture_id s < INT_MAX /\ filter_given (fst (fst x)) (snd x) = true;
|}.
Proof.
  - intros _. destruct dict; apply (bool_decide_unpack _); reflexivity.
  - intros _. destruct dict; repeat constructor; cbn; lia.
  - intros w. cbn. by intros ->.
  - intros w Hw. destruct (run_process_quiet (mw_manager w) Hw) as (s & E & Hs & _). cbn. unfold manager_run_process.
    rewrite E, outcome_bind_done. eexists. split; [by destruct (mw_is_first w), dict|done].
  - intros [[e l] msg] w Hw Ho. cbn in *. unfold manager_message. cbn [fst snd].
    destruct (others_append_ok l (mw_manager w) Hw) as (s0 & E0 & H0 & _). rewrite E0, outcome_bind_done.
    destruct (Ho s0 E0) as (Ho1 & Hlt & Hf).
    destruct (message_respects (get_max_concurrent_limit e) e msg s0 H0 Ho1 Hlt (Z.le_refl _) Hf) as (s & out & E & Hs & _).
    rewrite E, outcome_bind_done. by eexists.
  - intros i id x w Hw Hx. cbn in *. unfold manager_timeout.
    destruct (others_append_ok i (mw_manager w) Hw) as (s0 & -> & H0 & _). rewrite outcome_bind_done. cbv zeta. cbn [mw_manager mw_is_first mw_posted].
    assert (x = (TIMER_TYPE_QUEUE_CHECK, QUEUE_TIMER_INTERVAL_MS) \/ dict = true /\ x = (TIMER_TYPE_EXPIRE_CLEAN, 3600000)) as [->|[-> ->]].
    { apply elem_of_cons in Hx as [->|Hx]; [by left|]. destruct dict; [|by apply elem_of_nil in Hx]. apply list_elem_of_singleton in Hx. by right. }
    + cbn. destruct (run_process_quiet s0 H0) as (s & E & Hs & _). unfold run_process in E. unfold check_queue. rewrite E, outcome_bind_done. by eexists.
    + cbn. by eexists.
  - intros i m w w' l. cbn. unfold manager_timeout. destruct (others_append i _); try done. rewrite outcome_bind_done. destruct (_ =? _).
    + destruct (check_queue _); try done. rewrite outcome_bind_done. by intros [= _ <-].
    + destruct (_ =? _); intros [= _ <-]; [destruct dict; cbn; lia|cbn; lia].
Defined.

Lemma enqueue_all_ok {F} `{Files F} sort e n m fs (x : CRxCleanupThread * TaskMgr * F) : mgr_inv (snd (fst x)) ->
  exists x', enqueue_all sort e n m fs x = Done x' /\ mgr_inv (snd (fst x')).
Proof.
  revert n x. induction fs as [|f fs IH]; intros n [[c tm] w] Hx; cbn [enqueue_all]; [by eexists|]. unfold enqueue_file.
  destruct (record_file_metadata _ _ _ _ _ _ _) as [[path c1] w1]. cbn [fst snd] in Hx.
  destruct (append_keeps tm (mb_capture_id (fe_base m)) [if is_empty path then f else f <| cf_record_path := path |>] Hx) as (ok & tm1 & E & H1 & _).
  cbv zeta. rewrite E, !outcome_bind_done. by apply IH.
Qed.

#[refine, export] Instance cleanup_laws {F} `{Files F} sort : ServiceLaws (cleanup_service (F := F) sort) := {|
  sl_inv w := mgr_inv (cw_tasks w);
  sl_initial _ := True;
  sl_armed _ := true;
  sl_ticks _ := [(CLEANUP_TIMER_TYPE, CLEANUP_INTERVAL_SEC * 1000)];
  sl_orderly x _ := mgr_inv (snd (fst x));
|}.
Proof.
  - intros _. apply NoDup_singleton.
  - intros _. repeat constructor; cbn; lia.
  - done.
  - intros w Hw. by exists w.
  - intros [[e tm0] msg] w Hw Htm. cbn in *. unfold cleanup_message. cbn [fst snd].
    assert (exists x', Cleanup.handle_msg sort e msg (cw_thread w, tm0, cw_files w) = Done x' /\ mgr_inv (snd (fst x'))) as ([[c tm] fs] & E & Hm).
    { destruct msg; try by eexists. by apply enqueue_all_ok. }
    rewrite E, outcome_bind_done. eexists. split; [done|]. split; [done|]. split; [done|]. split; [done|]. cbn.
    destruct msg; try done. by destruct (_ =? _).
  - intros e id x w Hw Hx. apply list_elem_of_singleton in Hx as ->. cbn in *. unfold cleanup_timeout. cbn.
    destruct (do_cleanup _ _ _ _) as [[c out] fs]. by eexists.
  - intros e m w w' l. cbn. unfold cleanup_timeout. destruct (negb _); [intros [= _ <-]; cbn; lia|].
    destruct (do_cleanup _ _ _ _) as [[c out] fs]. intros [= _ <-]. destruct (cw_run_flag w); cbn; lia.
Defined.

#[refine, export] Instance sample_laws {D} (exceeds : D -> Z -> bool) : ServiceLaws (sample_service exceeds) := {|
  sl_inv _ := True;
  sl_initial _ := True;
  sl_armed _ := true;
  sl_ticks _ := [(SAMPLE_TIMER_TYPE, SAMPLE_INTERVAL_SEC * 1000)];
  sl_orderly _ _ := True;
|}.
Proof.
  - intros _. apply NoDup_singleton.
  - intros _. repeat constructor; cbn; lia.
  - done.
  - intros w _. by exists w.
  - intros m w _ _. by exists w.
  - intros [[cfg mgr] stats] id x w _ Hx. apply list_elem_of_singleton in Hx as ->. cbn. by eexists.
  - intros [[cfg mgr] stats] m w w' l. cbn. unfold sample_timeout. destruct (negb _); intros [= _ <-]; [cbn; lia|].
    destruct (sw_run_flag w); cbn; lia.
Defined.

#[refine, export] Instance reload_laws {V} `{Json.Json V} conf : ServiceLaws (reload_service (V := V) conf) := {|
  sl_inv _ := True;
  sl_initial w := rw_is_first w = false;
  sl_armed w := rw_is_first w;
  sl_ticks _ := [(TIMER_TYPE_RELOAD_CONF, 1000)];
  sl_orderly _ _ := True;
|}.
Proof.
  - intros _. apply NoDup_singleton.
  - intros _. repeat constructor; cbn; lia.
  - intros w. cbn. by intros ->.
  - intros w _. cbn. unfold reload_run_process. eexists. split; [by destruct (rw_is_first w)|done].
  - intros [ts msg] w _ _. cbn. unfold reload_message. cbn. destruct msg; by eexists.
  - intros e id x w _ Hx. apply list_elem_of_singleton in Hx as ->. cbn. by eexists.
  - intros e m w w' l. cbn. unfold reload_timeout. destruct (_ =? _); intros [= _ <-]; cbn; lia.
Defined.

(** ** Properties *)

(** C37: The service threads keep working.  In orderly passes (the reports to the
    manager put no idle task in progress, its ids are below INT_MAX and its
    requests have a filter; the shared task manager, which the manager and the
    cleanup thread change in turn, each operation as a whole, is one the other
    threads left intact), whatever the calls of the system give and however long
    a pass takes, the capture manager, the cleanup, the sample and the reload
    thread make every pass of their loop without undefined behaviour;
    while the thread runs, exactly one timer of each kind waits; and each kind
    fires within two passes after its interval: the queue check after 1 second,
    the expiry check after an hour, the cleanup after 60 seconds, the sample after
    15 seconds, the reload after 1 second. *)
Theorem services_keep_working {F V D} `{Files F} `{Json.Json V} sort conf (exceeds : D -> Z -> bool) dict index workers filters fs c tm files e t r :
  mgr_inv tm ->
  alive (S := manager_service dict) ((TIMER_TYPE_QUEUE_CHECK, 1000) :: if dict then [(TIMER_TYPE_EXPIRE_CLEAN, 3600000)] else [])
    (mkManagerWorld (new_manager index workers filters fs) false []) /\
  alive (S := cleanup_service sort) [(CLEANUP_TIMER_TYPE, 60000)] (cleanup_start e (mkCleanupWorld c tm files [] true)) /\
  alive (S := sample_service exceeds) [(SAMPLE_TIMER_TYPE, 15000)] (mkSampleWorld t [] true) /\
  alive (S := reload_service (V := V) conf) [(TIMER_TYPE_RELOAD_CONF, 1000)] (mkReloadWorld r fs false).
Proof.
  intros Htm. split; [|split; [|split]].
  - exact (service_alive (S := manager_service dict) (mkManagerWorld (new_manager index workers filters fs) false []) (new_manager_ok index workers filters fs) eq_refl).
  - refine (service_alive (S := cleanup_service sort) _ _ I). cbn. unfold cleanup_start. cbn.
    destruct (ensure_directory _ _) as [? fs1]. destruct (ensure_directory _ fs1) as [? fs2].
    by destruct (if is_empty (cu_pdef_dir c) then (true, fs2) else ensure_directory (cu_pdef_dir c) fs2).
  - exact (service_alive (S := sample_service exceeds) (mkSampleWorld t [] true) I I).
  - exact (service_alive (S := reload_service (V := V) conf) (mkReloadWorld r fs false) I eq_refl).
Qed.

(** What the passes of the reload thread do to the strategy, while the file is as
    [read_file] and [mod_time] say: once the edit is taken over it stays. *)
Section Edited.
Context {V : Type} `{Json.Json V} (conf : option CRxServerConfig) (p : string) (Hp : p <> "").

Lemma reload_reached (Q : (string -> option string) * (string -> option Z) -> Prop) (P R : reload_mgr -> Prop) l (s1 s2 : service reload_world) fired :
  (forall i r, Q i -> (P r -> P (snd (proc_reload (fst i) (snd i) conf r)) /\ R (snd (proc_reload (fst i) (snd i) conf r))) /\
    (R r -> R (snd (proc_reload (fst i) (snd i) conf r)))) ->
  Forall (fun p => Q (pa_input p)) l -> turns (S := reload_service (V := V) conf) l s1 = Done (s2, fired) ->
  reached (fun w => P (rw_reload w)) (fun w => R (rw_reload w)) (TIMER_TYPE_RELOAD_CONF, 1000) (concat fired) (se_world s1) (se_world s2).
Proof.
  intros Hstep HQ E. eapply (turns_reached (S := reload_service (V := V) conf)) with (Q := Q); [| | | |exact HQ|exact E].
  - intros w w' l' E1. cbn in E1. unfold reload_run_process in E1. injection E1 as <- _. done.
  - intros [ts msg] w w' E1. cbn in E1. unfold reload_message in E1. cbn in E1. destruct msg; injection E1 as <-; done.
  - intros i m w w' l' HQi E1. cbn in E1. unfold reload_timeout in E1. destruct (_ =? _); injection E1 as <- _; [|done]. cbn.
    destruct (Hstep i (rw_reload w) HQi) as [A B]. split; [intros HP; by apply A|done].
  - intros i id w w' l' HQi HP E1. cbn in E1. injection E1 as <- _. cbn. destruct (Hstep i (rw_reload w) HQi) as [A _]. by apply A.
Qed.

Lemma paths_kept i r : paths p r -> paths p (snd (proc_reload (fst i) (snd i) conf r)).
Proof. intros Hr. by apply (reload_follows_file (fst i) (snd i) conf p r Hr Hp). Qed.

End Edited.

(** C38: An edit of the strategy takes effect.  When the strategy file has been
    edited into one that loads, and stays as it is, the new strategy is in force
    after two passes of the reload thread that come a second after the edit, and
    stays in force; whatever the thread did before and whatever messages come. *)
Theorem edited_strategy_in_force {V} `{Json.Json V} conf read_file mod_time p s clock T T' l1 l2 r fs :
  paths p r -> p <> "" -> loaded (V := V) read_file mod_time conf p = Some s ->
  (forall m, 0 <= clock m <= T) -> T <= T' -> l1 <> [] -> (2 <= length l2)%nat ->
  (2 * (1 + sum_list_with (fun p => length (pa_others p)) (l1 ++ l2)) <= TIMER_IDS)%nat ->
  Forall (fun p => T + 1000 <= pa_now p /\ pa_input p = (read_file, mod_time)) l2 ->
  forall s0 s1 fired1,
    launch (S := reload_service (V := V) conf) clock (mkReloadWorld r fs false) = Done s0 ->
    orderly_passes (S := reload_service (V := V) conf) T l1 s0 -> turns (S := reload_service (V := V) conf) l1 s0 = Done (s1, fired1) -> orderly_passes (S := reload_service (V := V) conf) T' l2 s1 ->
    mgr_need_reload mod_time (rw_reload (se_world s1)) = true ->
    exists s2 fired2, turns (S := reload_service (V := V) conf) l2 s1 = Done (s2, fired2) /\ current (rw_reload (se_world s2)) = s.
Proof.
  intros Hp Hne Hl Hc HT Hl1 Hl2 Hroom Hin s0 s1 fired1 E0 Ho1 E1 Ho2 Hneed.
  destruct (service_alive (S := reload_service (V := V) conf) (L := reload_laws (V := V) conf) (mkReloadWorld r fs false) I eq_refl T T' clock l1 l2 Hc HT Hroom) as (s0' & E0' & Ha).
  rewrite E0 in E0'. injection E0' as <-. destruct (Ha Ho1) as (s1' & fired1' & E1' & _ & Hb). rewrite E1 in E1'. injection E1' as <- <-.
  destruct (Hb Ho2) as (s2 & fired2 & E2 & Hfire). exists s2, fired2. split; [done|].
  destruct (Hfire Hl1 eq_refl Hl2 (TIMER_TYPE_RELOAD_CONF, 1000)) as [id Hid]; [by left|by eapply Forall_impl; [exact Hin|]; intros ? [??]|].
  destruct (reload_reached (V := V) conf (fun _ => True) (paths p) (paths p) l1 s0 s1 fired1) as (Hpaths & _); [|by apply Forall_forall|exact E1|].
  { intros i q _. split; [intros Hq; split|intros Hq]; by apply (paths_kept (V := V)). }
  destruct (reload_reached (V := V) conf (fun i => i = (read_file, mod_time))
    (fun q => paths p q /\ (mgr_need_reload mod_time q = true \/ current q = s /\ mgr_need_reload mod_time q = false))
    (fun q => paths p q /\ current q = s /\ mgr_need_reload mod_time q = false) l2 s1 s2 fired2) as (_ & _ & Hreached); [| |exact E2|].
  - intros i q ->. cbn [fst snd]. pose proof (reload_follows_file (V := V) read_file mod_time conf p q) as Hq. cbv zeta in Hq. rewrite Hl in Hq. split.
    + intros [Hpq Hor]. destruct (Hq Hpq Hne) as (Hp' & Hno & Hyes). destruct Hor as [Hyes'|[Hcur Hno']].
      * destruct (Hyes Hyes') as (A & _ & B). auto.
      * rewrite (Hno Hno'). auto.
    + intros (Hpq & Hcur & Hno'). destruct (Hq Hpq Hne) as (Hp' & Hno & _). by rewrite (Hno Hno').
  - eapply Forall_impl; [exact Hin|]. by intros ? [_ ?].
  - destruct (Hreached) with (id := id) as (_ & Hcur & _); [|exact Hid|exact Hcur]. split; [|by left]. apply Hpaths.
    unfold launch in E0. cbn in E0. injection E0 as <-. done.
Qed.

(** Passes without messages. *)
Definition demo_pass {In Msg} (now : Z) (i : In) : pass In Msg := mkPass [] [] now (fun _ => now) i.

Lemma demo_passes_orderly {In Msg W} {S : Service In Msg W} `{L : !ServiceLaws S} T (l : list (Z * In)) s :
  Forall (fun x => 0 <= fst x <= T) l -> orderly_passes T (map (fun x => demo_pass (fst x) (snd x)) l) s.
Proof.
  intros Hl. revert s. induction Hl as [|[now i] l Hx Hl IH]; intros s; cbn [map orderly_passes]; [done|].
  split; [constructor; [done|constructor|done]|]. intros s' fired _. apply IH.
Qed.

(** The queue check runs in two passes after a second. *)
Lemma services_keep_working_witness :
  exists s0 s1 s2 fired1 fired2,
    launch (S := manager_service true) (fun _ => 0) (mkManagerWorld (new_manager 1 [5; 6] [] (mkTextFs ∅ ∅)) false []) = Done s0 /\
    turns (S := manager_service true) [demo_pass 0 []] s0 = Done (s1, fired1) /\
    turns (S := manager_service true) [demo_pass 1000 []; demo_pass 1010 []] s1 = Done (s2, fired2) /\
    exists id, mkTimer OBJ_ID_THREAD TIMER_TYPE_QUEUE_CHECK id 1000 ∈ concat fired2.
Proof.
  destruct (services_keep_working (H0 := Json.tree_json demo_parse) sort_older None (fun d z => z <? d) true 1 [5; 6] [] (mkTextFs ∅ ∅) demo_cleanup new_mgr demo_archives
    demo_cleanup_env new_sampler (proc_init None) new_mgr_inv) as (Hm & _).
  destruct (Hm 0 2000 (fun _ => 0) [demo_pass 0 []] [demo_pass 1000 []; demo_pass 1010 []]) as (s0 & E0 & H1).
  - intros m. lia.
  - lia.
  - pose proof enough_ids. cbn. lia.
  - destruct H1 as (s1 & fired1 & E1 & _ & H2).
    { apply (demo_passes_orderly 0 [(0, [])]). repeat constructor; cbn; lia. }
    destruct H2 as (s2 & fired2 & E2 & H3).
    { apply (demo_passes_orderly 2000 [(1000, []); (1010, [])]). repeat constructor; cbn; lia. }
    exists s0, s1, s2, fired1, fired2. split; [exact E0|]. split; [exact E1|]. split; [exact E2|].
    refine (H3 _ eq_refl _ (TIMER_TYPE_QUEUE_CHECK, 1000) _ _); [done|cbn; lia|by left|]. repeat constructor; cbn; lia.
Defined.

(** Whether the strategy is out of date, and when it was loaded. *)
Definition strategy_seen (r : outcome (service reload_world * list (list timer_msg))) : option (bool * Z) :=
  match r with
  | Done (s, _) =>
      Some (mgr_need_reload (fun _ => Some 7) (rw_reload (se_world s)), sy_last_load_time (current (rw_reload (se_world s))))
  | _ => None
  end.

(** A reload thread that found no file at first, then the demonstration file. *)
Lemma edited_strategy_in_force_witness :
  exists s0 s1 s2 fired1 fired2,
    launch (S := reload_service (H := Json.tree_json demo_parse) (Some demo_server)) (fun _ => 0)
      (mkReloadWorld (proc_init (Some demo_server)) (mkTextFs ∅ ∅) false) = Done s0 /\
    turns (S := reload_service (H := Json.tree_json demo_parse) (Some demo_server)) [demo_pass 0 (fun _ => None, fun _ => None)] s0 = Done (s1, fired1) /\
    turns (S := reload_service (H := Json.tree_json demo_parse) (Some demo_server))
      [demo_pass 1000 (demo_files, fun _ => Some 7); demo_pass 1010 (demo_files, fun _ => Some 7)] s1 = Done (s2, fired2) /\
    sy_last_load_time (current (rw_reload (se_world s1))) = 0 /\
    sy_last_load_time (current (rw_reload (se_world s2))) = 7.
Proof.
  assert (exists s, loaded (H := Json.tree_json demo_parse) demo_files (fun _ => Some 7) (Some demo_server) "config/strategy.json" = Some s /\ sy_last_load_time s = 7)
    as (s & El & Es) by (eexists; split; [reflexivity|vm_compute; reflexivity]).
  set (S := reload_service (H := Json.tree_json demo_parse) (Some demo_server)).
  destruct (launch (S := S) (fun _ => 0) (mkReloadWorld (proc_init (Some demo_server)) (mkTextFs ∅ ∅) false)) as [s0| | |] eqn:E0; [|discriminate..].
  assert (strategy_seen (turns (S := S) [demo_pass 0 (fun _ => None, fun _ => None)] s0) = Some (true, 0)) as Hseen.
  { injection E0 as <-. vm_compute. reflexivity. }
  destruct (turns (S := S) [demo_pass 0 (fun _ => None, fun _ => None)] s0) as [[s1 fired1]| | |] eqn:E1; [|discriminate..].
  injection Hseen as Hn H0.
  destruct (edited_strategy_in_force (H := Json.tree_json demo_parse) (Some demo_server) demo_files (fun _ => Some 7) "config/strategy.json" s (fun _ => 0) 0 2000
    [demo_pass 0 (fun _ => None, fun _ => None)] [demo_pass 1000 (demo_files, fun _ => Some 7); demo_pass 1010 (demo_files, fun _ => Some 7)]
    (proc_init (Some demo_server)) (mkTextFs ∅ ∅)) with (s0 := s0) (s1 := s1) (fired1 := fired1) as (s2 & fired2 & E2 & Hc).
  - split; reflexivity.
  - discriminate.
  - exact El.
  - intros m. lia.
  - lia.
  - discriminate.
  - cbn. lia.
  - pose proof enough_ids. cbn. lia.
  - repeat constructor; cbn; lia.
  - exact E0.
  - apply (demo_passes_orderly 0 [(0, (fun _ => None, fun _ => None))]). repeat constructor; cbn; lia.
  - exact E1.
  - apply (demo_passes_orderly 2000 [(1000, (demo_files, fun _ => Some 7)); (1010, (demo_files, fun _ => Some 7))]). repeat constructor; cbn; lia.
  - exact Hn.
  - exists s0, s1, s2, fired1, fired2. split; [reflexivity|]. split; [exact E1|]. split; [exact E2|]. split; [exact H0|]. rewrite Hc. exact Es.
Defined.
