(* ===== verification/SystemLoad.v ===== *)
(** * Reading the load of the system (rxsamplethread.cpp, [sample_system_stats])

    The texts of /proc/stat, /proc/meminfo and /proc/net/dev, read with [fscanf],
    [fgets] and [sscanf], and the measurements as IEEE doubles, in the Standard
    Library's [SpecFloat].  A text is [None] when [fopen] fails.  The rate that
    is sent, which nothing reads, is left out. *)

From Stdlib Require Import Floats.SpecFloat.
From S2P Require Import Prelude CppString Lexer TaskTypes Messages ProcData CaptureUtil Config UrlHandlers ProcessResolver HttpText SampleThread.

(** ** Doubles *)

Definition double : Type := spec_float.

(** The conversion of an integer, to nearest, ties to even. *)
Definition to_double (z : Z) : double := binary_normalize 53 1024 z 0 false.
Definition fmul (a b : double) : double := SFmul 53 1024 a b.
Definition fdiv (a b : double) : double := SFdiv 53 1024 a b.

(** [value > threshold] *)
Definition exceeds_double (value : double) (threshold : Z) : bool := SFltb (to_double threshold) value.

(** ** Scanning *)

(** [%lu] *)
Definition scan_lu (s : string) : option (Z * string) :=
  let '(neg, s1) := split_sign (skip_space s) in
  let '(d, rest) := span_digits s1 in
  if is_empty d then None else Some (strtoul s, rest).

(** The numbers that [n] of [%lu] one after the other read, until one fails. *)
Fixpoint scan_lus (n : nat) (s : string) : list Z :=
  match n with
  | O => []
  | S n => match scan_lu s with Some (v, rest) => v :: scan_lus n rest | None => [] end
  end.

(** The pieces that [fgets] with a buffer of 256 bytes reads, each as a C string. *)
Fixpoint fgets_all (room : nat) (cur s : string) : list string :=
  match s with
  | EmptyString => if is_empty cur then [] else [c_str cur]
  | String c s =>
      let cur := push_back cur c in
      if Ascii.eqb c newline || (room =? 1)%nat then c_str cur :: fgets_all 255 "" s else fgets_all (room - 1) cur s
  end.

Definition fgets_lines (s : string) : list string := fgets_all 255 "" s.

(** ** The three files *)

Definition SAMPLE_SEC : Z := 15.

Definition percent (part total : Z) : double := fmul (fdiv (to_double part) (to_double total)) (to_double 100).

(** The share of processor time that was not idle, when the first line reads. *)
Definition cpu_of (text : string) : option double :=
  if is_prefix "cpu" text then
    match scan_lus 4 (str_drop 3 text) with
    | [user; nice; system; idle] =>
        let total := u64 (user + nice + system + idle) in
        if 0 <? total then Some (percent (u64 (total - idle)) total) else None
    | _ => None
    end
  else None.

(** The loop over the lines, which ends at MemAvailable. *)
Fixpoint mem_loop (lines : list string) (mem_total mem_available : Z) : Z * Z :=
  match lines with
  | [] => (mem_total, mem_available)
  | line :: rest =>
      if is_prefix "MemTotal:" line then
        mem_loop rest (match scan_lu (str_drop 9 line) with Some (v, _) => v | None => mem_total end) mem_available
      else if is_prefix "MemAvailable:" line then
        (mem_total, match scan_lu (str_drop 13 line) with Some (v, _) => v | None => mem_available end)
      else mem_loop rest mem_total mem_available
  end.

Definition memory_of (text : string) : option double :=
  let '(mem_total, mem_available) := mem_loop (fgets_lines text) 0 0 in
  if 0 <? mem_total then Some (percent (u64 (mem_total - mem_available)) mem_total) else None.

(** [%63[^:]] *)
Fixpoint span_name (n : nat) (s : string) : string * string :=
  match n, s with
  | S n, String c s' => if Ascii.eqb c ":" then (EmptyString, s) else let '(a, r) := span_name n s' in (String c a, r)
  | _, _ => (EmptyString, s)
  end.

(** The interface of a line and the bytes it has received. *)
Definition net_entry (line : string) : option (string * Z) :=
  let '(iface, rest) := span_name 63 line in
  if is_empty iface then None
  else match rest with
       | String c rest =>
           if Ascii.eqb c ":" then
             match scan_lus 10 rest with
             | r_bytes :: numbers => if (8 <=? length numbers)%nat then Some (iface, r_bytes) else None
             | [] => None
             end
           else None
       | EmptyString => None
       end.

Definition rx_loop (lines : list string) : Z :=
  foldl (fun rx_bytes line =>
    match net_entry line with
    | Some (iface, r_bytes) => if String.eqb iface "lo" then rx_bytes else rx_bytes +64 r_bytes
    | None => rx_bytes
    end) 0 lines.

Definition network_of (text : string) : option double :=
  match fgets_lines text with
  | _ :: _ :: lines => Some (fdiv (fdiv (to_double (rx_loop lines)) (to_double 1024)) (to_double SAMPLE_SEC))
  | _ => None
  end.

(** What the three files and the clock give. *)
Record load_files := mkLoadFiles { lf_stat : option string; lf_meminfo : option string; lf_netdev : option string; lf_time : Z }.

Definition sample_system_stats (e : load_files) : SRxSystemStats double :=
  let zero := S754_zero false in
  mkStats (default zero (lf_stat e ≫= cpu_of)) (default zero (lf_meminfo e ≫= memory_of)) (default zero (lf_netdev e ≫= network_of)) (lf_time e).

(** ** The texts of the kernel *)

Fixpoint blanks (n : nat) : string := match n with O => "" | S n => String " " (blanks n) end.

(** Numbers, each with the blanks before it. *)
Fixpoint numbers (l : list (nat * Z)) : string :=
  match l with [] => "" | (n, v) :: l => String " " (blanks n) +:+ fmt_u v +:+ numbers l end.

Definition no_digit (s : string) : Prop := match s with String c _ => is_digit c = false | "" => True end.

Definition ulong (v : Z) : Prop := 0 <= v < 2 ^ 64.

Definition is_line (s : string) : Prop := has_char newline s = false /\ has_char "000" s = false /\ (String.length s < 255)%nat.

Definition lines (l : list string) : string := String.concat "" (map (fun s => s +:+ String newline "") l).

Definition stat_line (user nice system idle : Z) (rest : string) : string :=
  "cpu" +:+ numbers [(1%nat, user); (0%nat, nice); (0%nat, system); (0%nat, idle)] +:+ rest.

Definition mem_line (name : string) (n : nat) (v : Z) : string := name +:+ String ":" (numbers [(n, v)] +:+ " kB").

(** An interface: how the name is aligned, the numbers behind it. *)
Record net_if := mkNetIf { ni_pad : nat; ni_name : string; ni_numbers : list (nat * Z) }.

Definition net_line (i : net_if) : string := blanks (ni_pad i) +:+ ni_name i +:+ String ":" (numbers (ni_numbers i)).

Definition received (i : net_if) : Z := match ni_numbers i with (_, v) :: _ => v | [] => 0 end.

Record net_if_ok (i : net_if) : Prop := {
  nf_name : ni_name i <> "" /\ has_char ":" (ni_name i) = false;
  nf_length : (ni_pad i + String.length (ni_name i) <= 63)%nat;
  nf_numbers : length (ni_numbers i) = 16%nat /\ Forall (fun x => ulong (snd x)) (ni_numbers i);
  nf_line : is_line (net_line i);
}.

(** What the interfaces but one that is called [lo] and not indented received. *)
Definition total_received (l : list net_if) : Z :=
  foldl (fun acc i => if (ni_pad i =? 0)%nat && String.eqb (ni_name i) "lo" then acc else acc +64 received i) 0 l.

(** ** Lemmas *)

Lemma skip_blanks n s : skip_space (blanks n +:+ s) = skip_space s.
Proof. induction n as [|n IH]; [done|]. cbn [blanks]. rewrite str_app_cons. cbn [skip_space]. exact IH. Qed.

Lemma fmt_u_head v : ulong v -> exists c s, fmt_u v = String c s /\ is_digit c = true.
Proof.
  intros Hv. destruct (fmt_u_digits v Hv) as (Hd & _ & Hne). destruct (fmt_u v) as [|c s]; [done|]. simpl in Hd.
  apply andb_true_iff in Hd as [Hc _]. by exists c, s.
Qed.

Lemma skip_digits v s : ulong v -> skip_space (fmt_u v +:+ s) = fmt_u v +:+ s.
Proof.
  intros Hv. destruct (fmt_u_head v Hv) as (c & t & -> & Hc). rewrite str_app_cons. cbn [skip_space].
  by_class c (fun c => negb (is_digit c) || negb (isspace c)). rewrite Hc in Hclass. cbn [negb orb] in Hclass.
  apply negb_true_iff in Hclass. by rewrite Hclass.
Qed.

Lemma split_sign_digits v s : ulong v -> split_sign (fmt_u v +:+ s) = (false, fmt_u v +:+ s).
Proof.
  intros Hv. destruct (fmt_u_head v Hv) as (c & t & -> & Hc). rewrite str_app_cons. cbn [split_sign].
  by_class c (fun c => negb (is_digit c) || (negb (Ascii.eqb c "-") && negb (Ascii.eqb c "+"))). rewrite Hc in Hclass. cbn [negb orb] in Hclass.
  apply andb_true_iff in Hclass as [H1%negb_true_iff H2%negb_true_iff]. by rewrite H1, H2.
Qed.

Lemma strtoul_skip s : strtoul s = strtoul (skip_space s).
Proof.
  unfold strtoul. assert (skip_space (skip_space s) = skip_space s) as ->; [|done].
  induction s as [|c s IH]; [done|]. cbn [skip_space]. destruct (isspace c) eqn:E; [done|]. cbn [skip_space]. by rewrite E.
Qed.

Lemma scan_number n v rest : ulong v -> no_digit rest -> scan_lu (String " " (blanks n) +:+ fmt_u v +:+ rest) = Some (v, rest).
Proof.
  intros Hv Hr. unfold scan_lu. rewrite strtoul_skip. change (String " " (blanks n)) with (blanks (S n)). rewrite skip_blanks, skip_digits by done.
  rewrite split_sign_digits by done. destruct (fmt_u_digits v Hv) as (Hd & _ & Hne). rewrite span_digits_app by done.
  assert (is_empty (fmt_u v) = false) as -> by (by destruct (fmt_u v)). by rewrite strtoul_fmt_u.
Qed.

Lemma numbers_no_digit l rest : no_digit rest -> no_digit (numbers l +:+ rest).
Proof. intros Hr. destruct l as [|[n v] l]; [done|]. cbn [numbers]. by rewrite !str_app_cons. Qed.

Lemma scan_numbers k l rest : (k <= length l)%nat -> Forall (fun x => ulong (snd x)) l -> no_digit rest ->
  scan_lus k (numbers l +:+ rest) = take k (map snd l).
Proof.
  intros Hk Hl Hr. revert k Hk. induction Hl as [|[n v] l Hv Hl IH]; intros k Hk.
  - cbn in Hk. by replace k with 0%nat by lia.
  - destruct k as [|k]; [done|]. cbn [length] in Hk. cbn [scan_lus numbers map snd take]. rewrite !str_app_assoc.
    rewrite scan_number by (try done; by apply numbers_no_digit). f_equal. apply IH. lia.
Qed.

Lemma fgets_line room cur s rest : has_char newline s = false -> (String.length s < room)%nat ->
  fgets_all room cur (s +:+ String newline rest) = c_str (cur +:+ s +:+ String newline "") :: fgets_all 255 "" rest.
Proof.
  revert room cur. induction s as [|c s IH]; intros room cur Hn Hl; cbn [String.length] in Hl.
  - rewrite !str_app_nil. cbn [fgets_all]. change (Ascii.eqb newline newline) with true. done.
  - cbn [has_char] in Hn. apply orb_false_iff in Hn as [Hc Hn]. rewrite str_app_cons. cbn [fgets_all]. rewrite Hc.
    destruct (Nat.eqb_spec room 1); [lia|]. cbn [orb]. rewrite IH by (done || lia). by rewrite push_back_app.
Qed.

Lemma fgets_of_lines l : Forall is_line l -> fgets_lines (lines l) = map (fun s => s +:+ String newline "") l.
Proof.
  unfold fgets_lines. induction 1 as [|s l (Hn & Hz & Hl) _ IH]; [done|]. unfold lines in *. cbn [map].
  assert (forall x y, String.concat "" (x :: y) = x +:+ String.concat "" y) as -> by (intros x [|??]; [by rewrite str_app_nil_r|done]).
  rewrite str_app_assoc. change (String newline "" +:+ ?x) with (String newline x). rewrite fgets_line, str_app_nil, IH by done.
  f_equal. apply c_str_id. unfold NUL_CHAR. by rewrite has_char_app, Hz.
Qed.

Lemma cpu_of_line user nice system idle rest :
  ulong user -> ulong nice -> ulong system -> ulong idle -> user + nice + system + idle < 2 ^ 64 -> 0 < user + nice + system + idle -> no_digit rest ->
  cpu_of (stat_line user nice system idle rest) = Some (percent (user + nice + system) (user + nice + system + idle)).
Proof.
  intros H1 H2 H3 H4 Hs Hp Hr. unfold cpu_of, stat_line. rewrite is_prefix_app. change (str_drop 3 ("cpu" +:+ ?x)) with x.
  rewrite (scan_numbers 4); [|cbn; lia|repeat (apply Forall_cons; split; [done|]); constructor|done]. cbn [take map snd]. unfold ulong in *.
  rewrite !u64_small by lia. destruct (Z.ltb_spec 0 (user + nice + system + idle)); [|lia].
  do 3 f_equal. lia.
Qed.

(** The lines of /proc/meminfo that the loop passes over. *)
Definition other_mem_line (s : string) : Prop := is_prefix "MemTotal:" s = false /\ is_prefix "MemAvailable:" s = false.

Lemma mem_loop_skip l rest t a : Forall other_mem_line l -> mem_loop (l ++ rest) t a = mem_loop rest t a.
Proof. induction 1 as [|s l [H1 H2] _ IH]; [done|]. cbn [app mem_loop]. by rewrite H1, H2. Qed.

Lemma memory_of_lines n1 total l n2 available rest :
  ulong total -> 0 < total -> ulong available -> available <= total ->
  Forall is_line (mem_line "MemTotal" n1 total :: l ++ mem_line "MemAvailable" n2 available :: rest) ->
  Forall other_mem_line (map (fun s => s +:+ String newline "") l) ->
  memory_of (lines (mem_line "MemTotal" n1 total :: l ++ mem_line "MemAvailable" n2 available :: rest)) = Some (percent (total - available) total).
Proof.
  intros Ht Hp Ha Hle Hl Ho. unfold memory_of. rewrite fgets_of_lines by done. rewrite map_cons, map_app, map_cons.
  assert (forall name n v, ulong v -> exists r, scan_lu (str_drop (S (String.length name)) (mem_line name n v +:+ String newline "")) = Some (v, r)) as Hscan.
  { intros name n v Hv. unfold mem_line. rewrite str_app_assoc, str_app_cons. rewrite str_drop_S_app. cbn [numbers].
    rewrite str_app_nil_r, !str_app_assoc. eexists. by apply scan_number. }
  cbn [mem_loop]. replace (is_prefix "MemTotal:" (mem_line "MemTotal" n1 total +:+ String newline "")) with true by done.
  destruct (Hscan "MemTotal" n1 total Ht) as [r1 E1]. cbn [String.length] in E1. rewrite E1.
  rewrite mem_loop_skip by done. cbn [mem_loop]. replace (is_prefix "MemTotal:" (mem_line "MemAvailable" n2 available +:+ String newline "")) with false by done.
  replace (is_prefix "MemAvailable:" (mem_line "MemAvailable" n2 available +:+ String newline "")) with true by done.
  destruct (Hscan "MemAvailable" n2 available Ha) as [r2 E2]. cbn [String.length] in E2. rewrite E2.
  destruct (Z.ltb_spec 0 total); [|lia]. unfold ulong in *. by rewrite u64_small by lia.
Qed.

Lemma span_name_app n s rest : has_char ":" s = false -> (String.length s <= n)%nat -> span_name n (s +:+ String ":" rest) = (s, String ":" rest).
Proof.
  revert n. induction s as [|c s IH]; intros n Hc Hl; cbn [String.length] in Hl.
  - rewrite str_app_nil. by destruct n.
  - cbn [has_char] in Hc. apply orb_false_iff in Hc as [Hc Hs]. destruct n as [|n]; [lia|]. rewrite str_app_cons. cbn [span_name]. rewrite Hc.
    by rewrite IH by (done || lia).
Qed.

Lemma blanks_length n : String.length (blanks n) = n.
Proof. induction n; [done|]. cbn. by f_equal. Qed.

Lemma net_entry_line i : net_if_ok i -> net_entry (net_line i +:+ String newline "") = Some (blanks (ni_pad i) +:+ ni_name i, received i).
Proof.
  intros [[Hne Hc] Hl [Hn Hv] _]. unfold net_entry, net_line. rewrite str_app_assoc, str_app_assoc, str_app_cons, <- (str_app_assoc (blanks _)).
  assert (forall n, has_char ":" (blanks n) = false) as Hb by (induction n; done).
  rewrite span_name_app; [|by rewrite has_char_app, Hb|rewrite str_length_app, blanks_length; lia].
  assert (is_empty (blanks (ni_pad i) +:+ ni_name i) = false) as ->.
  { destruct (ni_pad i); [by destruct (ni_name i)|done]. }
  cbn [Ascii.eqb]. change (Ascii.eqb ":" ":") with true. cbv iota. rewrite scan_numbers by (try done; lia).
  unfold received. destruct (ni_numbers i) as [|[n v] l]; [done|]. cbn [map snd take]. rewrite length_take, length_map. cbn [length] in Hn.
  destruct (Nat.leb_spec 8 (Nat.min 9 (length l))); [done|lia].
Qed.

Lemma lo_name i : net_if_ok i -> String.eqb (blanks (ni_pad i) +:+ ni_name i) "lo" = (ni_pad i =? 0)%nat && String.eqb (ni_name i) "lo".
Proof. intros _. destruct (ni_pad i) as [|n]; [by rewrite str_app_nil|]. reflexivity. Qed.

Lemma rx_loop_lines l : Forall net_if_ok l -> rx_loop (map (fun s => s +:+ String newline "") (map net_line l)) = total_received l.
Proof.
  unfold rx_loop, total_received. generalize 0 as acc. intros acc Hl. revert acc.
  induction Hl as [|i l Hi Hl IH]; intros acc; [done|]. cbn [map foldl]. rewrite net_entry_line, lo_name by done. apply IH.
Qed.

(** The load the sample thread sees.  From texts in the kernel's form, with
    counters that fit and lines shorter than its buffer, it takes as processor
    load the share of the time that was not idle since the machine started, as
    memory load the share that is not available, and as receive rate what all
    interfaces received since the machine started over 15 seconds; only an
    interface [lo] that is not indented would not count. *)
Theorem sample_reads_proc user nice system idle rest n1 total l n2 available mrest h1 h2 ifs now :
  ulong user -> ulong nice -> ulong system -> ulong idle -> 0 < user + nice + system + idle < 2 ^ 64 -> no_digit rest ->
  ulong total -> 0 < total -> ulong available -> available <= total ->
  Forall is_line (mem_line "MemTotal" n1 total :: l ++ mem_line "MemAvailable" n2 available :: mrest) ->
  Forall other_mem_line (map (fun s => s +:+ String newline "") l) ->
  is_line h1 -> is_line h2 -> Forall net_if_ok ifs ->
  sample_system_stats (mkLoadFiles (Some (stat_line user nice system idle rest))
      (Some (lines (mem_line "MemTotal" n1 total :: l ++ mem_line "MemAvailable" n2 available :: mrest)))
      (Some (lines (h1 :: h2 :: map net_line ifs))) now) =
    mkStats (percent (user + nice + system) (user + nice + system + idle)) (percent (total - available) total)
      (fdiv (fdiv (to_double (total_received ifs)) (to_double 1024)) (to_double SAMPLE_SEC)) now.
Proof.
  intros H1 H2 H3 H4 Hs Hr Ht Hp Ha Hle Hl Ho Hh1 Hh2 Hifs. unfold sample_system_stats. cbn [lf_stat lf_meminfo lf_netdev lf_time mbind option_bind].
  rewrite cpu_of_line by (done || lia). rewrite memory_of_lines by done. unfold network_of. rewrite fgets_of_lines.
  - cbn [map]. by rewrite rx_loop_lines.
  - constructor; [done|]. constructor; [done|]. apply Forall_map. eapply Forall_impl; [exact Hifs|]. by intros i [].
Qed.

(** A machine that is busy 95 % of the time, with 600 KiB over the loopback
    interface, which the kernel indents, and 300 KiB over the network. *)
Definition demo_netif (pad : nat) (name : string) (bytes : Z) : net_if := mkNetIf pad name ((0%nat, bytes) :: repeat (0%nat, 0) 15).

Definition demo_ifs : list net_if := [demo_netif 4 "lo" (600 * 1024); demo_netif 2 "eth0" (300 * 1024)].

Lemma sample_reads_proc_witness :
  exists cpu mem, sample_system_stats (mkLoadFiles (Some (stat_line 900 10 40 50 " 0 0"))
      (Some (lines [mem_line "MemTotal" 7 16000; "MemFree:         900 kB"; mem_line "MemAvailable" 3 4000]))
      (Some (lines ("Inter-|   Receive" :: " face |bytes" :: map net_line demo_ifs))) 1700000000) =
    mkStats cpu mem (to_double 60) 1700000000 /\
  exceeds_double cpu 85 = true /\ exceeds_double mem 75 = false /\ exceeds_double (to_double 60) 20 = true /\
  map snd (sample_and_check exceeds_double None (Some 1) (load_config (Some demo_strategy) new_sampler) (mkStats cpu mem (to_double 60) 1700000000)) =
    [MsgSampleAlert (mkSampleMsg 1700000000 true false false 0 "cpu" "iface:any" "diag" 60 300 85 0 0)].
Proof.
  exists (percent (900 + 10 + 40) (900 + 10 + 40 + 50)), (percent (16000 - 4000) 16000). split.
  - refine (eq_trans (sample_reads_proc 900 10 40 50 " 0 0" 7 16000 ["MemFree:         900 kB"] 3 4000 [] "Inter-|   Receive" " face |bytes" demo_ifs 1700000000
      _ _ _ _ _ _ _ _ _ _ _ _ _ _ _) _); cycle 15.
    + f_equal; vm_compute; reflexivity.
    + unfold ulong. lia.
    + unfold ulong. lia.
    + unfold ulong. lia.
    + unfold ulong. lia.
    + lia.
    + reflexivity.
    + unfold ulong. lia.
    + lia.
    + unfold ulong. lia.
    + lia.
    + repeat constructor; cbn; lia.
    + repeat constructor.
    + repeat constructor; cbn; lia.
    + repeat constructor; cbn; lia.
    + repeat (apply Forall_cons; split; [constructor; [split; [discriminate|reflexivity]|cbn; lia|split; [reflexivity|]|repeat constructor; cbn; lia]|]); [| |constructor].
      * repeat constructor; unfold ulong; cbn; lia.
      * repeat constructor; unfold ulong; cbn; lia.
  - vm_compute. auto.
Defined.
