(* ===== verification/Epoll.v ===== *)
(** * Sockets and epoll (core/legacy_core_net.cpp, [base_net_obj], [common_epoll], [common_obj_container])

    A thread gives the kernel the address of an object as the [data.ptr] of its
    socket, and the kernel hands it back when something happens: nothing but the
    order of the calls keeps that address from being one of a destroyed object.
    The program is modelled with its memory: the objects at their addresses, the
    [shared_ptr]s that hold them, and a destructor that runs when the last of
    them is gone.  What the objects do when they are called is a parameter, as a
    list of the calls they make.  The identities, timers and messages of the
    connections themselves are in [HttpThread]. *)

From stdpp Require Import sorting.
From S2P Require Import Prelude TaskTypes Messages HttpConnection Timers HttpThread.

Definition ENOENT : Z := 2.
Definition EINTR : Z := 4.
Definition EBADF : Z := 9.
Definition EEXIST : Z := 17.

Definition EPOLLIN : Z := 1.
Definition EPOLLOUT : Z := 4.
Definition EPOLLERR : Z := 8.
Definition EPOLLHUP : Z := 16.

Definition DAFAULT_EPOLL_SIZE : Z := 1000.

(** The address of an object. *)
Abbreviation ptr := BinNums.positive.

(** ** The kernel

    An epoll instance with the descriptors of the process, as the manual pages
    epoll_ctl(2), epoll_wait(2) and close(2) describe them; [None] is the result
    0, [Some e] the result -1 with [errno].  [interest] is what is registered. *)
Class EpollKernel (K : Type) := {
  interest : K -> gmap Z (Z * ptr);
  ctl_add : Z -> Z -> ptr -> K -> option Z * K;
  ctl_mod : Z -> Z -> ptr -> K -> option Z * K;
  ctl_del : Z -> K -> option Z * K;
  close_fd : Z -> K -> K;
  wait : Z -> K -> (Z + list (Z * ptr)) * K;
  ctl_add_spec fd ev p k :
    match ctl_add fd ev p k with
    | (None, k') => interest k !! fd = None /\ interest k' = <[fd := (ev, p)]> (interest k)
    | (Some e, k') => (e = EEXIST -> is_Some (interest k !! fd)) /\ interest k' = interest k
    end;
  ctl_mod_spec fd ev p k :
    match ctl_mod fd ev p k with
    | (None, k') => is_Some (interest k !! fd) /\ interest k' = <[fd := (ev, p)]> (interest k)
    | (Some e, k') => (e = ENOENT -> interest k !! fd = None) /\ interest k' = interest k
    end;
  ctl_del_spec fd k :
    match ctl_del fd k with
    | (None, k') => is_Some (interest k !! fd) /\ interest k' = delete fd (interest k)
    | (Some e, k') => (e = ENOENT \/ e = EBADF -> interest k !! fd = None) /\ interest k' = interest k
    end;
  close_fd_spec fd k : interest (close_fd fd k) = delete fd (interest k);
  wait_spec n k :
    interest (snd (wait n k)) = interest k /\
    match fst (wait n k) with
    | inl _ => True
    | inr l => Z.of_nat (length l) <= n /\ forall ev p, (ev, p) ∈ l -> exists fd ev', interest k !! fd = Some (ev', p)
    end;
}.

(** ** Objects *)

(** [base_net_obj]; [ob_container] is whether [_p_net_container] is set. *)
Record net_object := mkNetObj {
  ob_fd : Z;
  ob_event : Z;
  ob_id : ObjId;
  ob_container : bool;
  ob_real_net : bool;
  ob_timers : list timer_msg;
}.

(** [base_connect(sock)] *)
Definition new_net_object (sock : Z) : net_object :=
  mkNetObj sock (Z.lor (Z.lor EPOLLIN EPOLLERR) EPOLLHUP) (mkObjId 0 0) false false [].

(** Timers that reach [base_timer::add_timer], each with the time. *)
Abbreviation armed := (list (Z * timer_msg)).

(** A [std::map] of objects, as the pairs in it: [expect_list] and [remove_list]. *)
Abbreviation pairs := (list (Z * ptr)).

Section Epoll.
Context {K : Type} `{EpollKernel K}.

(** ** [common_epoll] *)

(** [add_to_epoll]: whether it throws. *)
Definition add_to_epoll (p_obj : ptr) (o : net_object) (k : K) : bool * K :=
  match ctl_add (ob_fd o) (ob_event o) p_obj k with
  | (None, k) => (false, k)
  | (Some e, k) =>
      if e =? EEXIST then
        match ctl_mod (ob_fd o) (ob_event o) p_obj k with
        | (None, k) => (false, k)
        | (Some _, k) => (true, k)
        end
      else (true, k)
  end.

Definition del_from_epoll (o : net_object) (k : K) : bool * K :=
  match ctl_del (ob_fd o) k with
  | (None, k) => (false, k)
  | (Some err, k) => (negb ((err =? EBADF) || (err =? ENOENT)), k)
  end.

Definition mod_from_epoll (p_obj : ptr) (o : net_object) (k : K) : bool * K :=
  match ctl_mod (ob_fd o) (ob_event o) p_obj k with
  | (None, k) => (false, k)
  | (Some e, k) =>
      if e =? ENOENT then
        match ctl_add (ob_fd o) (ob_event o) p_obj k with
        | (None, k) => (false, k)
        | (Some _, k) => (true, k)
        end
      else (true, k)
  end.

(** ** The container and the memory around it *)

(** A [common_obj_container] with its [common_epoll], the live objects of the
    thread, and in [n_held] every [shared_ptr] outside the two maps: members of
    the thread and variables of the functions on the stack.  [n_epoll] and
    [n_container] are whether the [common_epoll] and the container still are. *)
Record net := mkNet {
  n_kernel : K;
  n_epoll_size : Z;
  n_objs : gmap ptr net_object;
  n_obj_map : gmap Z ptr;
  n_obj_net_map : gmap Z ptr;
  n_id_str : ObjId;
  n_held : list ptr;
  n_epoll : bool;
  n_container : bool;
}.

(** [common_epoll::init], over what [epoll_create] gave: an instance or [errno]. *)
Definition epoll_init (epoll_size : Z) (created : Z + K) : outcome (Z * K) :=
  match created with
  | inl _ => Fails "epoll_create fail"
  | inr k => Done (if epoll_size =? 0 then DAFAULT_EPOLL_SIZE else epoll_size, k)
  end.

(** [common_obj_container::common_obj_container] *)
Definition empty_container (thread_index epoll_size : Z) (k : K) : net :=
  mkNet k epoll_size ∅ ∅ ∅ (mkObjId OBJ_ID_BEGIN thread_index) [] true true.

Definition new_container (thread_index epoll_size : Z) (created : Z + K) : outcome net :=
  '(size, k) ← epoll_init epoll_size created; Done (empty_container thread_index size k).

(** Reading an object; one that is gone is undefined behaviour. *)
Definition deref_obj (p : ptr) (s : net) : outcome net_object :=
  match n_objs s !! p with Some o => Done o | None => Undef end.

Definition store (p : ptr) (o : net_object) (s : net) : net := s <| n_objs ::= <[p := o]> |>.

(** [_p_net_container->get_epoll()], and the access to the [common_epoll]. *)
Definition get_epoll (s : net) : outcome K :=
  if n_container s && n_epoll s then Done (n_kernel s) else Undef.

(** [base_net_obj::~base_net_obj]; an exception that leaves it ends the process. *)
Definition destruct_obj (p : ptr) (s : net) : outcome net :=
  o ← deref_obj p s;
  if ob_container o then
    k ← get_epoll s;
    let '(threw, k) := del_from_epoll o k in
    if threw then Fails "terminate"
    else
      let k := if ob_fd o =? 0 then k else close_fd (ob_fd o) k in
      Done (s <| n_kernel := k |> <| n_objs ::= delete p |>)
  else Undef.

(** What holds an object alive. *)
Definition referenced (p : ptr) (s : net) : Prop :=
  p ∈ n_held s \/ map_Exists (fun _ q => q = p) (n_obj_map s) \/ map_Exists (fun _ q => q = p) (n_obj_net_map s).

#[export] Instance referenced_dec p s : Decision (referenced p s).
Proof. unfold referenced. apply _. Defined.

(** A [shared_ptr] to [p] has gone. *)
Definition release (p : ptr) (s : net) : outcome net := if decide (referenced p s) then Done s else destruct_obj p s.

Fixpoint remove_one (p : ptr) (l : list ptr) : list ptr :=
  match l with [] => [] | q :: l => if decide (q = p) then l else q :: remove_one p l end.

(** A variable of type [shared_ptr] is set, and goes out of scope. *)
Definition hold (p : ptr) (s : net) : net := s <| n_held ::= cons p |>.
Definition drop (p : ptr) (s : net) : outcome net := release p (s <| n_held ::= remove_one p |>).

Fixpoint drops (l : list ptr) (s : net) : outcome net :=
  match l with [] => Done s | p :: l => s ← drop p s; drops l s end.

(** [common_obj_container::erase], [remove_real_net], [push_real_net] *)
Definition erase_from_net (id : Z) (s : net) : outcome net :=
  match n_obj_net_map s !! id with Some p => release p (s <| n_obj_net_map ::= delete id |>) | None => Done s end.

Definition erase_from_obj (id : Z) (s : net) : outcome net :=
  match n_obj_map s !! id with Some p => release p (s <| n_obj_map ::= delete id |>) | None => Done s end.

Definition erase (id : Z) (s : net) : outcome net := s ← erase_from_net id s; erase_from_obj id s.

Definition remove_real_net (p_obj : ptr) (s : net) : outcome net :=
  o ← deref_obj p_obj s; erase_from_net (obj_id (ob_id o)) s.

Definition push_real_net (p_obj : ptr) (s : net) : outcome net :=
  o ← deref_obj p_obj s;
  match n_obj_net_map s !! obj_id (ob_id o) with
  | Some _ => Done s
  | None => Done (s <| n_obj_net_map ::= <[obj_id (ob_id o) := p_obj]> |>)
  end.

Definition find (id : Z) (s : net) : option ptr := n_obj_map s !! id.

(** [common_obj_container::insert] *)
Definition insert (p_obj : ptr) (s : net) : outcome net :=
  o ← deref_obj p_obj s;
  id ← no_fuel (gen_id_str (S (size (n_obj_map s))) (n_obj_map s) (obj_id (n_id_str s)));
  let id_str := mkObjId id (obj_thread_index (n_id_str s)) in
  Done (store p_obj (o <| ob_id := id_str |>) s <| n_id_str := id_str |> <| n_obj_map ::= <[id := p_obj]> |>).

(** ** The operations of an object *)

(** [base_net_obj::update_event]: whether it throws. *)
Definition update_event (p : ptr) (event : Z) (s : net) : outcome (bool * net) :=
  o ← deref_obj p s;
  if ob_container o then
    k ← get_epoll s;
    if ob_event o =? event then Done (false, s)
    else
      let o := o <| ob_event := event |> in
      let '(threw, k) := mod_from_epoll p o k in
      Done (threw, store p o s <| n_kernel := k |>)
  else Done (false, s).

(** The private [base_net_obj::add_timer()] hands over what waited. *)
Definition add_waiting_timers (now : Z) (p : ptr) (s : net) : outcome (armed * net) :=
  o ← deref_obj p s;
  if ob_container o then Done (map (pair now) (ob_timers o), store p (o <| ob_timers := [] |>) s) else Done ([], s).

(** [base_net_obj::add_timer(t_msg)] *)
Definition obj_add_timer (now : Z) (t_msg : timer_msg) (p : ptr) (s : net) : outcome (armed * net) :=
  o ← deref_obj p s;
  if ob_container o then '(l, s) ← add_waiting_timers now p s; Done ((now, t_msg) :: l, s)
  else Done ([], store p (o <| ob_timers ::= (fun l => l ++ [t_msg]) |>) s).

(** [set_net_container]: what is thrown in it is caught in it. *)
Definition set_net_container (now : Z) (p : ptr) (s : net) : outcome (armed * net) :=
  o ← deref_obj p s;
  let o := o <| ob_container := true |> in
  let s := store p o s in
  k ← get_epoll s;
  let '(threw, k) := if 0 <? ob_fd o then add_to_epoll p o k else (false, k) in
  let s := s <| n_kernel := k |> in
  if threw then Done ([], s) else s ← insert p s; add_waiting_timers now p s.

Definition set_real_net (p : ptr) (real_net : bool) (s : net) : outcome net :=
  o ← deref_obj p s;
  let s := store p (o <| ob_real_net := real_net |>) s in
  if real_net then push_real_net p s else Done s.

(** [new base_connect<...>(fd)], held by a variable. *)
Definition new_connect (fd : Z) (s : net) : ptr * net :=
  let p := fresh (dom (n_objs s)) in
  (p, hold p (store p (new_net_object fd) s)).

(** [CRxHttpResThread::handle_connect] *)
Definition connect_socket (now fd : Z) (s : net) : outcome (armed * net) :=
  let '(connect, s) := new_connect fd s in
  '(l1, s) ← set_net_container now connect s;
  o ← deref_obj connect s;
  '(l2, s) ← obj_add_timer now (mkTimer (obj_id (ob_id o)) NONE_DATA_TIMER_TYPE 0 CONNECT_TIMEOUT) connect s;
  s ← drop connect s;
  Done (l1 ++ l2, s).

(** A channel of [net_thread_init], and the listener of [listen_thread::init]:
    the thread keeps the [shared_ptr]. *)
Definition open_member (now fd : Z) (s : net) : outcome (ptr * armed * net) :=
  let '(p, s) := new_connect fd s in
  '(l, s) ← set_net_container now p s;
  Done (p, l, s).

(** ** What handlers do *)

Inductive target := Self | Obj (id : Z).

(** The calls a handler makes into this part of the program: a message with a
    new socket is handled, an object [Self], or one that was looked up, asks
    to be told when it can send ([notice_send]), or has sent all ([real_send]),
    or adds a timer. *)
Inductive action :=
  | Connected (now fd : Z)
  | NoticeSend (x : target)
  | SentAll (x : target)
  | AddTimer (now : Z) (t_msg : timer_msg) (x : target).

Definition resolve_target (self : option ptr) (x : target) (s : net) : option ptr :=
  match x with Self => self | Obj id => find id s end.

Definition on_target {A} (self : option ptr) (x : target) (s : net) (a : A) (f : ptr -> outcome A) : outcome A :=
  match resolve_target self x s with Some p => f p | None => Done a end.

(** One call: whether it threw, the timers, what is left. *)
Definition run_action (self : option ptr) (a : action) (s : net) : outcome (bool * armed * net) :=
  match a with
  | Connected now fd => '(l, s) ← connect_socket now fd s; Done (false, l, s)
  | NoticeSend x =>
      on_target self x s (false, [], s) (fun p =>
        o ← deref_obj p s; '(threw, s) ← update_event p (Z.lor (ob_event o) EPOLLOUT) s; Done (threw, [], s))
  | SentAll x =>
      on_target self x s (false, [], s) (fun p =>
        o ← deref_obj p s; '(threw, s) ← update_event p (Z.land (ob_event o) (Z.lnot EPOLLOUT)) s; Done (threw, [], s))
  | AddTimer now t_msg x =>
      on_target self x s (false, [], s) (fun p => '(l, s) ← obj_add_timer now t_msg p s; Done (false, l, s))
  end.

(** The calls in order, up to the one that throws. *)
Fixpoint run_actions (self : option ptr) (l : list action) (s : net) : outcome (bool * armed * net) :=
  match l with
  | [] => Done (false, [], s)
  | a :: l =>
      '(threw, t1, s) ← run_action self a s;
      if threw : bool then Done (true, t1, s)
      else '(threw, t2, s) ← run_actions self l s; Done (threw, t1 ++ t2, s)
  end.

(** The virtual functions: the calls they make, and whether they throw behind
    them.  [on_timeout] is [handle_timeout] of the object, or without one of
    the thread; its first result is whether it calls [set_real_net(true)] on
    the object first, which nothing else does. *)
Record handlers := mkHandlers {
  event_process : net -> ptr -> Z -> list action * bool;
  real_net_process : net -> ptr -> list action * bool;
  on_timeout : net -> option ptr -> timer_msg -> bool * list action * bool;
}.

Definition run_handler (self : option ptr) (h : list action * bool) (s : net) : outcome (bool * armed * net) :=
  '(threw, l, s) ← run_actions self (fst h) s; Done (threw || snd h, l, s).

(** ** The rescue timer of a channel *)

(** The time of [add_event_timer], between 20 and 100000 milliseconds. *)
Definition event_timeout (time_out : Z) : Z :=
  let time_out := if 100 * MAX_CHANNEL_EVENT_TIMEOUT <? time_out then 100 * MAX_CHANNEL_EVENT_TIMEOUT else time_out in
  if time_out <? 20 then 20 else time_out.

(** [channel_data_process::add_event_timer] *)
Definition add_event_timer (now time_out : Z) : action :=
  AddTimer now (mkTimer OBJ_ID_DOMAIN NONE_CHANNEL_EVENT_TIMER_TYPE 0 (event_timeout time_out)) Self.

(** [channel_data_process::handle_timeout], as [on_timeout] of a channel with
    [len] messages whose last batch was at [last_time]. *)
Definition channel_timeout (now last_time len : Z) (t_msg : timer_msg) : bool * list action * bool :=
  if tm_timer_type t_msg =? NONE_CHANNEL_EVENT_TIMER_TYPE then
    if (tm_time_length t_msg <? Z.abs (signed_cast 64 (now - last_time))) && negb (len =? 0)
    then (true, [add_event_timer now (tm_time_length t_msg / 2)], false)
    else (false, [add_event_timer now (u32 (tm_time_length t_msg * 2))], false)
  else (false, [], false).

(** ** [obj_process] *)

Context (h : handlers).

(** The net with the timers of its container. *)
Definition state : Type := net * base_timer.

Definition arm_timers (l : armed) (t : base_timer) : outcome base_timer :=
  '(_, t) ← no_fuel (add_timers l t); Done t.

(** [std::map::insert] of a pair, and whether it was. *)
Fixpoint map_insert (id : Z) (p : ptr) (l : list (Z * ptr)) : bool * list (Z * ptr) :=
  match l with
  | [] => (true, [(id, p)])
  | (id', p') :: l' =>
      if id <? id' then (true, (id, p) :: l)
      else if id =? id' then (false, l)
      else let '(b, l') := map_insert id p l' in (b, (id', p') :: l')
  end.

Definition note_obj (id : Z) (p : ptr) (l : pairs) (s : net) : pairs * net :=
  let '(b, l) := map_insert id p l in (l, if b : bool then hold p s else s).

(** One event of the batch: [data.ptr] becomes a [shared_ptr], the object
    handles the event, and what that means for it is noted. *)
Definition epoll_event (e : Z * ptr) (expect_list remove_list : pairs) (st : state) : outcome (pairs * pairs * state) :=
  let '(s, t) := st in
  let p := snd e in
  _ ← deref_obj p s;
  let s := hold p s in
  '(threw, l, s) ← run_handler (Some p) (event_process h s p (fst e)) s;
  t ← arm_timers l t;
  o ← deref_obj p s;
  let id := obj_id (ob_id o) in
  let '(expect_list, remove_list, s) :=
    if threw : bool then let '(l, s) := note_obj id p expect_list s in (l, remove_list, s)
    else if ob_real_net o then let '(l, s) := note_obj id p remove_list s in (expect_list, l, s)
    else (expect_list, remove_list, s) in
  s ← drop p s;
  Done (expect_list, remove_list, (s, t)).

Fixpoint epoll_events (l : list (Z * ptr)) (expect_list remove_list : pairs) (st : state) : outcome (pairs * pairs * state) :=
  match l with
  | [] => Done (expect_list, remove_list, st)
  | e :: l => '(expect_list, remove_list, st) ← epoll_event e expect_list remove_list st; epoll_events l expect_list remove_list st
  end.

(** [common_epoll::epoll_wait]; the kernel writes into [_epoll_events], an
    array of [_epoll_size]. *)
Definition epoll_wait (st : state) : outcome (pairs * pairs * state) :=
  let '(s, t) := st in
  k ← get_epoll s;
  let '(r, k) := wait (n_epoll_size s) k in
  let s := s <| n_kernel := k |> in
  match r with
  | inl e => if e =? EINTR then Done ([], [], (s, t)) else Fails "epoll_wait fail"
  | inr l => if n_epoll_size s <? Z.of_nat (length l) then Undef else epoll_events l [] [] (s, t)
  end.

(** A [std::map] of objects in the order of its keys. *)
Definition by_id : relation (Z * ptr) := fun a b => fst a <= fst b.
#[export] Instance by_id_dec a b : Decision (by_id a b).
Proof. unfold by_id. apply _. Defined.
Definition in_order (m : gmap Z ptr) : pairs := merge_sort by_id (map_to_list m).

(** The first loop, over [_obj_net_map]: the vectors [exception_vec] and
    [real_net_vec], which hold what is put into them. *)
Fixpoint real_net_loop (l : pairs) (exception_vec real_net_vec : list ptr) (st : state) : outcome (list ptr * list ptr * state) :=
  match l with
  | [] => Done (exception_vec, real_net_vec, st)
  | (_, p) :: l =>
      let '(s, t) := st in
      _ ← deref_obj p s;
      '(threw, a, s) ← run_handler (Some p) (real_net_process h s p) s;
      t ← arm_timers a t;
      o ← deref_obj p s;
      if threw : bool then real_net_loop l (exception_vec ++ [p]) real_net_vec (hold p s, t)
      else if ob_real_net o then real_net_loop l exception_vec real_net_vec (s, t)
      else real_net_loop l exception_vec (real_net_vec ++ [p]) (hold p s, t)
  end.

Fixpoint remove_real_nets (l : list ptr) (s : net) : outcome net :=
  match l with [] => Done s | p :: l => s ← remove_real_net p s; remove_real_nets l s end.

(** [destroy(); erase(get_id()._id)] *)
Fixpoint erase_exceptions (l : list ptr) (s : net) : outcome net :=
  match l with [] => Done s | p :: l => o ← deref_obj p s; s ← erase (obj_id (ob_id o)) s; erase_exceptions l s end.

Fixpoint erase_expected (l : pairs) (s : net) : outcome net :=
  match l with [] => Done s | (id, p) :: l => _ ← deref_obj p s; s ← erase id s; erase_expected l s end.

Fixpoint leave_real_net (l : pairs) (s : net) : outcome net :=
  match l with [] => Done s | (_, p) :: l => s ← set_real_net p false s; s ← remove_real_net p s; leave_real_net l s end.

(** [common_obj_container::handle_timeout]; the object that was found is held
    while it handles the timer. *)
Definition container_timeout (m : timer_msg) (s : net) : outcome (net * armed * bool) :=
  if tm_obj_id m =? OBJ_ID_THREAD then
    let '(_, l, threw) := on_timeout h s None m in
    '(threw, a, s) ← run_handler None (l, threw) s; Done (s, a, threw)
  else
    match find (tm_obj_id m) s with
    | None => Done (s, [], false)
    | Some p =>
        let '(real, l, threw) := on_timeout h s (Some p) m in
        let s := hold p s in
        s ← (if real : bool then set_real_net p true s else Done s);
        '(threw, a, s) ← run_handler (Some p) (l, threw) s;
        s ← drop p s;
        Done (s, a, threw)
    end.

(** It, as [check_timer] calls it. *)
Definition timeout_step (m : timer_msg) (w : outcome net) : outcome net * armed * bool :=
  match s ← w; container_timeout m s with
  | Done (s, a, threw) => (Done s, a, threw)
  | Fails e => (Fails e, [], false)
  | Undef => (Undef, [], false)
  | NoFuel => (NoFuel, [], false)
  end.

Fixpoint erase_timed_out (l : list Z) (s : net) : outcome net :=
  match l with
  | [] => Done s
  | id :: l =>
      s ← (match find id s with Some p => s ← erase id (hold p s); drop p s | None => Done s end);
      erase_timed_out l s
  end.

(** [common_obj_container::obj_process], with the variables it has at its end. *)
Definition obj_process (now : Z) (st : state) : outcome state :=
  '(exception_vec, real_net_vec, (s, t)) ← real_net_loop (in_order (n_obj_net_map (fst st))) [] [] st;
  s ← remove_real_nets real_net_vec s;
  s ← erase_exceptions exception_vec s;
  '(exp_list, remove_list, (s, t)) ← epoll_wait (s, t);
  s ← erase_expected exp_list s;
  s ← leave_real_net remove_list s;
  f ← no_fuel (check_timer timeout_step now (Done s) t);
  s ← fi_world f;
  s ← erase_timed_out (fi_expect f) s;
  s ← drops (map snd remove_list ++ map snd exp_list ++ real_net_vec ++ exception_vec) s;
  Done (s, fi_timers f).

(** The loop of [base_net_thread::run], a time for each turn; the virtual
    [run_process] is a call of the thread's own. *)
Fixpoint run_loop (turns : list (list action * Z)) (st : state) : outcome state :=
  match turns with
  | [] => Done st
  | (own, now) :: turns =>
      '(threw, a, s) ← run_actions None own (fst st);
      if threw : bool then Fails "terminate"
      else t ← arm_timers a (snd st); st ← obj_process now (s, t); run_loop turns st
  end.

(** The members a thread opens before it starts, and the [shared_ptr]s it keeps. *)
Fixpoint open_members (l : list (Z * Z)) (st : state) : outcome (list ptr * state) :=
  match l with
  | [] => Done ([], st)
  | (now, fd) :: l =>
      '(p, a, s) ← open_member now fd (fst st);
      t ← arm_timers a (snd st);
      '(ps, st) ← open_members l (s, t); Done (p :: ps, st)
  end.

(** [new base_net_thread], [start], [run]. *)
Definition net_thread (thread_index : Z) (members : list (Z * Z)) (turns : list (list action * Z)) (created : Z + K) : outcome (list ptr * state) :=
  s ← new_container thread_index DAFAULT_EPOLL_SIZE created;
  '(ps, st) ← open_members members (s, new_base_timer);
  st ← run_loop turns st; Done (ps, st).

(** ** The end of a thread *)

Fixpoint clear_net_map (l : pairs) (s : net) : outcome net :=
  match l with [] => Done s | (id, _) :: l => s ← erase_from_net id s; clear_net_map l s end.

Fixpoint clear_obj_map (l : pairs) (s : net) : outcome net :=
  match l with [] => Done s | (id, _) :: l => s ← erase_from_obj id s; clear_obj_map l s end.

(** [common_obj_container::~common_obj_container]: the [common_epoll] goes
    first, the maps when the body is done. *)
Definition delete_container (s : net) : outcome net :=
  let s := s <| n_epoll := false |> in
  s ← clear_net_map (in_order (n_obj_net_map s)) s;
  s ← clear_obj_map (in_order (n_obj_map s)) s;
  Done (s <| n_container := false |>).

(** [base_net_thread::~base_net_thread], then its member [_channel_msg_vec]. *)
Definition delete_thread (channel_msg_vec : list ptr) (s : net) : outcome net :=
  s ← delete_container s; drops channel_msg_vec s.
End Epoll.

Arguments net K : clear implicits.
Arguments state K : clear implicits.
Arguments handlers K : clear implicits.
