(* ===== verification/EpollCorrect.v ===== *)
(** * Correctness of the objects on epoll

    The memory of [Epoll] under any kernel that does what its manual says and
    any objects: a postcondition for outcomes ([safe]), the invariant of the
    memory ([net_inv]) with the [shared_ptr]s outside the maps ([holds]), one
    lemma per operation, the turns of the loop.  Then a new socket step by step,
    the link to [HttpThread], and what deleting a thread does. *)

From stdpp Require Import sorting.
From S2P Require Import Prelude TaskTypes Messages HttpConnection Timers HttpThread Epoll.

(** ** Postconditions *)

(** The run meets no undefined behaviour, and a result satisfies [Q]. *)
Definition safe {A} (m : outcome A) (Q : A -> Prop) : Prop :=
  match m with Done a => Q a | Undef => False | Fails _ | NoFuel => True end.

Lemma safe_bind {A B} (m : outcome A) (f : A -> outcome B) Q R :
  safe m Q -> (forall a, Q a -> safe (f a) R) -> safe (m ≫= f) R.
Proof. destruct m; simpl; auto. Qed.

Lemma safe_mono {A} (m : outcome A) (Q R : A -> Prop) : safe m Q -> (forall a, Q a -> R a) -> safe m R.
Proof. destruct m; simpl; auto. Qed.

Lemma safe_no_fuel {A} (r : option A) (Q : A -> Prop) : (forall a, r = Some a -> Q a) -> safe (no_fuel r) Q.
Proof. destruct r; simpl; auto. Qed.

(** Runs the first call of a function with what is known of it. *)
Tactic Notation "call" uconstr(H) := eapply safe_bind; [eapply H|cbv beta].

Section Memory.
Context {K : Type} `{EpollKernel K}.
Implicit Types (s : net K) (p q : ptr).

(** ** The kernel *)

(** Every registration is an old one, or of [o] at [p]. *)
Definition registers p (o : net_object) (k k' : K) : Prop :=
  forall fd ev q, interest k' !! fd = Some (ev, q) -> interest k !! fd = Some (ev, q) \/ (q = p /\ fd = ob_fd o).

Lemma registers_same p o (k k' : K) : interest k' = interest k -> registers p o k k'.
Proof. intros E fd ev q Hq. left. by rewrite <- E. Qed.

Lemma registers_insert p o ev (k k' k0 : K) :
  interest k' = <[ob_fd o := (ev, p)]> (interest k0) -> interest k0 = interest k -> registers p o k k'.
Proof.
  intros E E0 fd ev' q Hq. rewrite E, E0 in Hq. apply lookup_insert_Some in Hq as [[<- [= _ <-]]|[_ Hq]]; auto.
Qed.

#[local] Hint Resolve registers_same registers_insert : core.

Lemma add_to_epoll_ok p o (k : K) :
  registers p o k (snd (add_to_epoll p o k)) /\ (fst (add_to_epoll p o k) = true -> interest (snd (add_to_epoll p o k)) = interest k).
Proof.
  unfold add_to_epoll. pose proof (ctl_add_spec (ob_fd o) (ob_event o) p k) as Ha.
  destruct (ctl_add _ _ _ k) as [[e|] k1]; [|destruct Ha; cbn; split; [eauto|done]].
  destruct Ha as [_ Ha]. destruct (e =? EEXIST); [|cbn; eauto].
  pose proof (ctl_mod_spec (ob_fd o) (ob_event o) p k1) as Hm.
  destruct (ctl_mod _ _ _ k1) as [[e'|] k2]; destruct Hm as [_ Hm]; cbn; split; [|congruence|eauto|done].
  apply registers_same. congruence.
Qed.

Lemma mod_from_epoll_ok p o (k : K) : registers p o k (snd (mod_from_epoll p o k)).
Proof.
  unfold mod_from_epoll. pose proof (ctl_mod_spec (ob_fd o) (ob_event o) p k) as Hm.
  destruct (ctl_mod _ _ _ k) as [[e|] k1]; destruct Hm as [_ Hm]; [|cbn; eauto].
  destruct (e =? ENOENT); [|cbn; eauto].
  pose proof (ctl_add_spec (ob_fd o) (ob_event o) p k1) as Ha.
  destruct (ctl_add _ _ _ k1) as [[e'|] k2]; destruct Ha as [_ Ha]; cbn; [|eauto].
  apply registers_same. congruence.
Qed.

(** Unless it throws, it leaves nothing of the descriptor. *)
Lemma del_from_epoll_ok o (k : K) :
  fst (del_from_epoll o k) = false -> interest (snd (del_from_epoll o k)) = delete (ob_fd o) (interest k).
Proof.
  unfold del_from_epoll. pose proof (ctl_del_spec (ob_fd o) k) as Hd.
  destruct (ctl_del _ k) as [[e|] k1]; destruct Hd as [Hn Hd]; cbn; [|done].
  intros Hb. rewrite Hd, delete_id; [done|]. apply Hn.
  destruct (Z.eqb_spec e EBADF), (Z.eqb_spec e ENOENT); auto; done.
Qed.

(** ** The memory *)

(** Nothing dangles: what the kernel would hand out, what is held and what the
    maps find are live objects, and nothing else is live. *)
Record net_inv s : Prop := {
  inv_alive : n_container s = true /\ n_epoll s = true;
  inv_interest fd ev p :
    interest (n_kernel s) !! fd = Some (ev, p) -> exists o, n_objs s !! p = Some o /\ ob_fd o = fd;
  inv_refs p : referenced p s <-> is_Some (n_objs s !! p);
  inv_container p o : n_objs s !! p = Some o -> ob_container o = true;
  inv_ids id p : n_obj_map s !! id = Some p -> exists o, n_objs s !! p = Some o /\ obj_id (ob_id o) = id;
}.

(** ... and [l] are the [shared_ptr]s outside the maps. *)
Definition holds (l : list ptr) s : Prop := net_inv s /\ n_held s ≡ₚ l.

(** Objects are only added. *)
Record grows s s' : Prop := {
  gr_objs q : is_Some (n_objs s !! q) -> is_Some (n_objs s' !! q);
  gr_map : n_obj_map s ⊆ n_obj_map s';
  gr_net : n_obj_net_map s' = n_obj_net_map s;
}.

#[export] Instance grows_preorder : PreOrder grows.
Proof.
  split; [by split|]. intros s1 s2 s3 [Ho Hm Hn] [Ho' Hm' Hn']. split; [auto|by etrans|congruence].
Qed.

Lemma holds_perm l l' s : l ≡ₚ l' -> holds l s -> holds l' s.
Proof. intros E [Hi Hh]. split; [done|by rewrite Hh]. Qed.

Lemma holds_live l s p : holds l s -> p ∈ l -> is_Some (n_objs s !! p).
Proof. intros [Hi Hh] Hp. apply (inv_refs _ Hi). left. by rewrite Hh. Qed.

Lemma deref_live p s : is_Some (n_objs s !! p) -> safe (deref_obj p s) (fun o => n_objs s !! p = Some o).
Proof. unfold deref_obj. by intros [o ->]. Qed.

Lemma get_epoll_live s : net_inv s -> safe (get_epoll s) (fun k => k = n_kernel s).
Proof. intros Hi. unfold get_epoll. by destruct (inv_alive _ Hi) as [-> ->]. Qed.

(** An object changes, not its descriptor nor its id. *)
Lemma inv_store p o o' s :
  net_inv s -> n_objs s !! p = Some o -> ob_fd o' = ob_fd o -> ob_container o' = true ->
  obj_id (ob_id o') = obj_id (ob_id o) -> net_inv (store p o' s).
Proof.
  intros [Ha Hk Hr Hc Hd] Ho Hfd Hc' Hid.
  assert (Hl : forall q oq, n_objs s !! q = Some oq ->
    exists oq', <[p := o']> (n_objs s) !! q = Some oq' /\ ob_fd oq' = ob_fd oq /\ obj_id (ob_id oq') = obj_id (ob_id oq)).
  { intros q oq Hq. destruct (decide (q = p)) as [->|].
    - rewrite lookup_insert_eq. exists o'. simplify_eq. auto.
    - rewrite lookup_insert_ne by done. eauto. }
  split; cbn.
  - done.
  - intros fd ev q Hq. destruct (Hk _ _ _ Hq) as (oq & E & <-). destruct (Hl _ _ E) as (? & ? & ? & ?). eauto.
  - intros q. etrans; [apply Hr|]. destruct (decide (q = p)) as [->|].
    + rewrite lookup_insert_eq, Ho. split; eauto.
    + by rewrite lookup_insert_ne.
  - intros q oq. destruct (decide (q = p)) as [->|]; [rewrite lookup_insert_eq; by intros [= <-]|].
    rewrite lookup_insert_ne by done. apply Hc.
  - intros id q Hq. destruct (Hd _ _ Hq) as (oq & E & <-). destruct (Hl _ _ E) as (? & ? & ? & ?). eauto.
Qed.

Lemma inv_kernel p o k' s :
  net_inv s -> n_objs s !! p = Some o -> registers p o (n_kernel s) k' -> net_inv (s <| n_kernel := k' |>).
Proof.
  intros [Ha Hk Hr Hc Hd] Ho Hreg. split; cbn; try done.
  intros fd ev q Hq. destruct (Hreg _ _ _ Hq) as [|[-> ->]]; eauto.
Qed.

Lemma grows_store p o s : grows s (store p o s).
Proof.
  split; cbn; [|done|done]. intros q Hq. destruct (decide (q = p)) as [->|]; [rewrite lookup_insert_eq; eauto|by rewrite lookup_insert_ne].
Qed.

(** ** Giving up references *)

(** No object but [p] is lost. *)
Record loses p s s' : Prop := {
  lo_objs q : q <> p -> is_Some (n_objs s !! q) -> is_Some (n_objs s' !! q);
  lo_map : n_obj_map s' = n_obj_map s;
  lo_net : n_obj_net_map s' = n_obj_net_map s;
}.

Lemma destruct_obj_ok p s s0 :
  net_inv s0 -> n_kernel s = n_kernel s0 -> n_objs s = n_objs s0 ->
  n_container s = n_container s0 -> n_epoll s = n_epoll s0 -> n_obj_map s ⊆ n_obj_map s0 ->
  (forall q, referenced q s -> referenced q s0) -> (forall q, q <> p -> referenced q s0 -> referenced q s) ->
  is_Some (n_objs s !! p) -> ~ referenced p s ->
  safe (destruct_obj p s) (fun s' => net_inv s' /\ n_held s' = n_held s /\ loses p s s').
Proof.
  intros [Ha Hk Hr Hc Hd] Ek Eo Ec Ee Em Href Hoth Hp Hn. unfold destruct_obj.
  call (deref_live p s Hp). intros o Ho.
  rewrite Eo in Ho. rewrite (Hc _ _ Ho). unfold get_epoll. rewrite Ec, Ee. destruct Ha as [Ha1 Ha2].
  rewrite Ha1, Ha2, Ek. cbn. pose proof (del_from_epoll_ok o (n_kernel s0)) as Hdel.
  destruct (del_from_epoll o (n_kernel s0)) as [[|] k1]; cbn in *; [done|].
  specialize (Hdel eq_refl).
  set (k2 := if ob_fd o =? 0 then k1 else close_fd (ob_fd o) k1).
  assert (Hk2 : interest k2 = delete (ob_fd o) (interest (n_kernel s0))).
  { subst k2. destruct (ob_fd o =? 0); [done|]. by rewrite close_fd_spec, Hdel, delete_delete_eq. }
  match goal with |- net_inv ?x /\ _ => set (s' := x) end.
  assert (Eo' : n_objs s' = delete p (n_objs s0)) by (by rewrite <- Eo).
  split; [|split; [done|split; [|done|done]; intros q Hne Hq; rewrite Eo', lookup_delete_ne; [by rewrite <- Eo|done]]].
  assert (Hlive : forall q oq, q <> p -> n_objs s0 !! q = Some oq -> n_objs s' !! q = Some oq)
    by (intros q oq Hq; by rewrite Eo', lookup_delete_ne).
  split.
  - split; [exact (eq_trans Ec Ha1)|exact (eq_trans Ee Ha2)].
  - intros fd ev q Hq. change (interest k2 !! fd = Some (ev, q)) in Hq. rewrite Hk2 in Hq.
    apply lookup_delete_Some in Hq as [Hne Hq]. destruct (Hk _ _ _ Hq) as (oq & Eq & Ef).
    exists oq. split; [|done]. apply Hlive; [|done]. intros ->. rewrite Ho in Eq. naive_solver.
  - intros q. change (referenced q s <-> is_Some (n_objs s' !! q)). rewrite Eo'. destruct (decide (q = p)) as [->|Hne].
    + rewrite lookup_delete_eq. split; [by intros []%Hn|by intros []].
    + rewrite lookup_delete_ne by done. rewrite <- Hr. split; [apply Href|by apply Hoth].
  - intros q oq. rewrite Eo'. intros [_ Hq]%lookup_delete_Some. eauto.
  - intros id q Hq. change (n_obj_map s !! id = Some q) in Hq. assert (Hq0 := lookup_weaken _ _ _ _ Hq Em).
    destruct (Hd _ _ Hq0) as (oq & Eq & Ei). exists oq. split; [|done]. apply Hlive; [|done].
    intros ->. apply Hn. right. left. by exists id, p.
Qed.

Lemma release_ok l p s s0 :
  net_inv s0 -> n_kernel s = n_kernel s0 -> n_objs s = n_objs s0 ->
  n_container s = n_container s0 -> n_epoll s = n_epoll s0 -> n_obj_map s ⊆ n_obj_map s0 ->
  (forall q, referenced q s -> referenced q s0) -> (forall q, q <> p -> referenced q s0 -> referenced q s) ->
  is_Some (n_objs s !! p) -> n_held s ≡ₚ l ->
  safe (release p s) (fun s' => holds l s' /\ loses p s s' /\ (referenced p s -> s' = s)).
Proof.
  intros Hi Ek Eo Ec Ee Em Href Hoth Hp Hl. unfold release. destruct (decide (referenced p s)) as [Hp'|Hp'].
  - split; [|by repeat split]. split; [|done]. destruct Hi as [Ha Hk Hr Hc Hd]. split.
    + rewrite Ec, Ee. done.
    + rewrite Ek, Eo. done.
    + intros q. rewrite Eo, <- Hr. destruct (decide (q = p)) as [->|]; [|split; auto].
      split; [auto|done].
    + rewrite Eo. done.
    + intros id q Hq. rewrite Eo. eapply Hd, lookup_weaken; eauto.
  - eapply safe_mono; [by eapply destruct_obj_ok|]. intros s' (Hs' & Eh & Hlo). split; [|done]. split; [done|by rewrite Eh].
Qed.

Lemma elem_of_remove_one p q (l : list ptr) : q <> p -> q ∈ remove_one p l <-> q ∈ l.
Proof. intros Hne. induction l as [|r l IH]; [done|]. cbn. destruct (decide (r = p)) as [->|]; set_solver. Qed.

Lemma elem_of_remove_one_weak p q (l : list ptr) : q ∈ remove_one p l -> q ∈ l.
Proof. induction l as [|r l IH]; [done|]. cbn. destruct (decide (r = p)) as [->|]; set_solver. Qed.

Lemma remove_one_perm p (l l' : list ptr) : l ≡ₚ p :: l' -> remove_one p l ≡ₚ l'.
Proof.
  intros E. apply (Permutation_cons_inv (a := p)). rewrite <- E. assert (Hp : p ∈ l) by (rewrite E; set_solver).
  clear E. induction l as [|q l IH]; [set_solver|]. cbn. destruct (decide (q = p)) as [->|]; [done|].
  rewrite Permutation_swap. f_equiv. apply IH. set_solver.
Qed.

Lemma drop_ok l p s :
  holds (p :: l) s -> safe (drop p s) (fun s' => holds l s' /\ loses p s s' /\ (referenced p (s <| n_held := l |>) -> grows s s')).
Proof.
  intros [Hi Hh]. assert (Hp : is_Some (n_objs s !! p)) by (eapply holds_live; [by split|left]).
  unfold drop. eapply safe_mono.
  - eapply (release_ok l p _ s); cbn; try done; unfold referenced; cbn.
    + intros q [Hq%elem_of_remove_one_weak|]; auto.
    + intros q Hne [Hq|]; [left; by apply elem_of_remove_one|auto].
    + by apply remove_one_perm.
  - intros s' (Hs' & Hlo & E). split; [done|]. split; [by destruct Hlo|]. intros Href. rewrite E; [by split|].
    destruct Href as [Hq|]; [left; cbn in *|by right]. by rewrite (remove_one_perm _ _ _ Hh).
Qed.

Lemma hold_ok l p s : holds l s -> is_Some (n_objs s !! p) -> holds (p :: l) (hold p s) /\ grows s (hold p s).
Proof.
  intros [[Ha Hk Hr Hc Hd] Hh] Hp. split; [|by split]. split; [|by constructor]. split; cbn; try done.
  intros q. unfold referenced. cbn. rewrite elem_of_cons. specialize (Hr q). unfold referenced in Hr. naive_solver.
Qed.

Lemma drops_ok ps l s : holds (ps ++ l) s -> safe (drops ps s) (holds l).
Proof.
  revert s. induction ps as [|p ps IH]; intros s Hs; cbn; [done|].
  call (drop_ok (ps ++ l) p s Hs). intros s' [Hs' _]. auto.
Qed.

Lemma map_Exists_delete (m : gmap Z ptr) id q :
  map_Exists (fun _ r => r = q) (delete id m) -> map_Exists (fun _ r => r = q) m.
Proof. intros (i & r & [_ Hi]%lookup_delete_Some & <-). by exists i, r. Qed.

Lemma map_Exists_delete_ne (m : gmap Z ptr) id p q :
  m !! id = Some p -> q <> p -> map_Exists (fun _ r => r = q) m -> map_Exists (fun _ r => r = q) (delete id m).
Proof.
  intros Hp Hne (i & r & Hi & <-). exists i, r. split; [|done]. rewrite lookup_delete_ne; [done|]. intros ->. congruence.
Qed.

Lemma map_live s id p : net_inv s -> n_obj_map s !! id = Some p -> is_Some (n_objs s !! p).
Proof. intros Hi Hp. apply (inv_refs _ Hi). right. left. by exists id, p. Qed.

Lemma net_map_live s id p : net_inv s -> n_obj_net_map s !! id = Some p -> is_Some (n_objs s !! p).
Proof. intros Hi Hp. apply (inv_refs _ Hi). right. right. by exists id, p. Qed.

Lemma erase_from_net_ok l id s : holds l s -> safe (erase_from_net id s) (holds l).
Proof.
  intros [Hi Hh]. unfold erase_from_net. destruct (n_obj_net_map s !! id) as [p|] eqn:E; [|done].
  eapply safe_mono.
  { eapply (release_ok l p _ s); cbn; try done; [| |by eapply net_map_live]; unfold referenced; cbn;
      intuition eauto using map_Exists_delete, map_Exists_delete_ne. }
  by intros s' [].
Qed.

Lemma erase_from_obj_ok l id s : holds l s -> safe (erase_from_obj id s) (holds l).
Proof.
  intros [Hi Hh]. unfold erase_from_obj. destruct (n_obj_map s !! id) as [p|] eqn:E; [|done].
  eapply safe_mono.
  { eapply (release_ok l p _ s); cbn; try done; [apply delete_subseteq| | |by eapply map_live]; unfold referenced; cbn;
      intuition eauto using map_Exists_delete, map_Exists_delete_ne. }
  by intros s' [].
Qed.

Lemma erase_ok l id s : holds l s -> safe (erase id s) (holds l).
Proof. intros Hs. call (erase_from_net_ok l id s Hs). intros s' Hs'. by apply erase_from_obj_ok. Qed.

(** ** The operations of objects *)

Lemma gen_id_free {A} fuel (m : gmap Z A) id id' : gen_id_str fuel m id = Some id' -> m !! id' = None.
Proof.
  revert id. induction fuel as [|fuel IH]; intros id E; [done|]. cbn in E.
  destruct (m !! next_id id) eqn:En; [by eapply IH|]. by injection E as <-.
Qed.

(** What an operation keeps that gives up nothing. *)
Definition kept (l : list ptr) s s' : Prop := holds l s' /\ grows s s'.

Lemma kept_trans l l' s1 s2 s3 : kept l s1 s2 -> kept l' s2 s3 -> kept l' s1 s3.
Proof. intros [_ G] [Hs G']. split; [done|by etrans]. Qed.

Lemma store_kept l p o o' s :
  holds l s -> n_objs s !! p = Some o -> ob_fd o' = ob_fd o -> ob_container o' = true ->
  obj_id (ob_id o') = obj_id (ob_id o) -> kept l s (store p o' s).
Proof. intros [Hi Hh] ????. split; [split; [by eapply inv_store|done]|apply grows_store]. Qed.

Lemma kernel_kept l p o k' s :
  holds l s -> n_objs s !! p = Some o -> registers p o (n_kernel s) k' -> kept l s (s <| n_kernel := k' |>).
Proof. intros [Hi Hh] ??. split; [split; [by eapply inv_kernel|done]|by split]. Qed.

Lemma insert_ok l p s :
  holds l s -> is_Some (n_objs s !! p) -> (forall id, n_obj_map s !! id <> Some p) ->
  safe (insert p s) (kept l s).
Proof.
  intros [Hi Hh] Hp Hnew. unfold insert. call (deref_live p s Hp). intros o Ho.
  eapply safe_bind; [apply safe_no_fuel; intros id Hid; exact Hid|]. intros id Hid%gen_id_free. cbn.
  destruct Hi as [Ha Hk Hr Hc Hd].
  set (o' := o <| ob_id := mkObjId id (obj_thread_index (n_id_str s)) |>).
  assert (Hl : forall q oq, n_objs s !! q = Some oq -> q <> p -> <[p := o']> (n_objs s) !! q = Some oq)
    by (intros; by rewrite lookup_insert_ne).
  match goal with |- kept l s ?x => set (s' := x) end.
  split; [split; [|done]|].
  - split.
    + done.
    + intros fd ev q Hq. destruct (Hk _ _ _ Hq) as (oq & E & <-).
      change (n_objs s') with (<[p := o']> (n_objs s)). destruct (decide (q = p)) as [->|]; [|eauto].
      exists o'. rewrite lookup_insert_eq. by simplify_eq.
    + intros q. assert (Er : referenced q s' <-> q = p \/ referenced q s).
      { unfold referenced. change (n_obj_map s') with (<[id := p]> (n_obj_map s)).
        rewrite map_Exists_insert by done. change (n_held s') with (n_held s).
        change (n_obj_net_map s') with (n_obj_net_map s). naive_solver. }
      rewrite Er, Hr. change (n_objs s') with (<[p := o']> (n_objs s)).
      destruct (decide (q = p)) as [->|]; [rewrite lookup_insert_eq; naive_solver|].
      rewrite lookup_insert_ne by done. naive_solver.
    + intros q oq. change (n_objs s') with (<[p := o']> (n_objs s)). destruct (decide (q = p)) as [->|].
      * rewrite lookup_insert_eq. intros [= <-]. exact (Hc p o Ho).
      * rewrite lookup_insert_ne by done. apply Hc.
    + intros i q Hq. change (<[id := p]> (n_obj_map s) !! i = Some q) in Hq.
      change (n_objs s') with (<[p := o']> (n_objs s)).
      apply lookup_insert_Some in Hq as [[<- <-]|[Hne Hq]]; [exists o'; by rewrite lookup_insert_eq|].
      destruct (Hd _ _ Hq) as (oq & E & Ei). exists oq. split; [|done]. apply Hl; [done|]. by intros ->; apply Hnew in Hq.
  - split; [|by apply insert_subseteq|done]. intros q Hq. by apply (grows_store p o' s).
Qed.

Lemma add_waiting_ok l now p s :
  holds l s -> is_Some (n_objs s !! p) -> safe (add_waiting_timers now p s) (fun r => kept l s (snd r)).
Proof.
  intros Hs Hp. unfold add_waiting_timers. call (deref_live p s Hp). intros o Ho.
  rewrite (inv_container _ (proj1 Hs) _ _ Ho). cbn.
  eapply store_kept; try done. exact (inv_container _ (proj1 Hs) _ _ Ho).
Qed.

Lemma obj_add_timer_ok l now m p s :
  holds l s -> is_Some (n_objs s !! p) -> safe (obj_add_timer now m p s) (fun r => kept l s (snd r)).
Proof.
  intros Hs Hp. unfold obj_add_timer. call (deref_live p s Hp). intros o Ho.
  rewrite (inv_container _ (proj1 Hs) _ _ Ho). call (add_waiting_ok l now p s Hs Hp). by intros [a s'].
Qed.

Lemma update_event_ok l p ev s :
  holds l s -> is_Some (n_objs s !! p) -> safe (update_event p ev s) (fun r => kept l s (snd r)).
Proof.
  intros Hs Hp. unfold update_event. call (deref_live p s Hp). intros o Ho.
  assert (Hc := inv_container _ (proj1 Hs) _ _ Ho). rewrite Hc.
  call (get_epoll_live s (proj1 Hs)). intros k ->. destruct (ob_event o =? ev); [by split|].
  set (o' := o <| ob_event := ev |>). pose proof (mod_from_epoll_ok p o' (n_kernel s)) as Hm.
  destruct (mod_from_epoll p o' (n_kernel s)) as [b k'].
  change (registers p o' (n_kernel s) k') in Hm. change (kept l s (store p o' s <| n_kernel := k' |>)).
  assert (K1 : kept l s (store p o' s)) by (by eapply store_kept).
  eapply kept_trans; [exact K1|]. exact (kernel_kept l p o' k' (store p o' s) (proj1 K1) (lookup_insert_eq _ _ _) Hm).
Qed.

(** A new object and its registration, for any answer of the kernel. *)
Lemma open_ok l now fd s :
  holds l s ->
  safe (set_net_container now (fst (new_connect fd s)) (snd (new_connect fd s)))
       (fun r => kept (fst (new_connect fd s) :: l) s (snd r) /\ is_Some (n_objs (snd r) !! fst (new_connect fd s))).
Proof.
  intros Hs. assert (Hf : n_objs s !! fresh (dom (n_objs s)) = None) by (apply not_elem_of_dom, is_fresh).
  unfold new_connect. cbn [fst snd]. revert Hf. generalize (fresh (dom (n_objs s))). intros p Hf.
  set (o0 := new_net_object fd). set (s1 := hold p (store p o0 s)).
  assert (H1 : n_objs s1 !! p = Some o0) by apply lookup_insert_eq.
  unfold set_net_container, deref_obj. rewrite H1. cbn [outcome_bind mbind].
  set (o1 := o0 <| ob_container := true |>). set (s2 := store p o1 s1).
  assert (E2 : n_objs s2 = <[p := o1]> (n_objs s)) by apply insert_insert_eq.
  assert (Hn : ~ referenced p s) by (rewrite (inv_refs _ (proj1 Hs)), Hf; by intros []).
  assert (K2 : kept (p :: l) s s2).
  { destruct Hs as [[Ha Hk Hr Hc Hd] Hh]. split; [split; [|by apply (Permutation_cons_app [])]|].
    - split.
      + done.
      + intros fd' ev q Hq. destruct (Hk _ _ _ Hq) as (oq & E & Ef). exists oq. split; [|done].
        rewrite E2, lookup_insert_ne by congruence. done.
      + intros q. rewrite E2. unfold referenced. change (n_held s2) with (p :: n_held s). rewrite elem_of_cons.
        destruct (decide (q = p)) as [->|]; [rewrite lookup_insert_eq; naive_solver|].
        rewrite lookup_insert_ne, <- Hr by done. unfold referenced. naive_solver.
      + intros q oq. rewrite E2. intros [[<- <-]|[_ Hq]]%lookup_insert_Some; eauto.
      + intros id q Hq. destruct (Hd _ _ Hq) as (oq & E & Ei). exists oq. split; [|done].
        rewrite E2, lookup_insert_ne by congruence. done.
    - split; [|done|done]. intros q [oq Hq]. rewrite E2, lookup_insert_ne by congruence. eauto. }
  assert (H2 : n_objs s2 !! p = Some o1) by (rewrite E2; apply lookup_insert_eq).
  call (get_epoll_live s2 (proj1 (proj1 K2))). intros k ->.
  set (r := if 0 <? ob_fd o1 then add_to_epoll p o1 (n_kernel s2) else (false, n_kernel s2)).
  assert (Hreg : registers p o1 (n_kernel s2) (snd r)).
  { subst r. destruct (0 <? ob_fd o1); [apply add_to_epoll_ok|by apply registers_same]. }
  destruct r as [threw k]. cbn in Hreg. set (s3 := s2 <| n_kernel := k |>).
  assert (K3 : kept (p :: l) s2 s3) by by exact (kernel_kept _ p o1 k s2 (proj1 K2) H2 Hreg).
  destruct threw; [split; [by eapply kept_trans|by exists o1]|].
  assert (H3 : is_Some (n_objs s3 !! p)) by by exists o1.
  eapply safe_bind; [apply (insert_ok (p :: l) p s3); [apply K3|done|]|].
  { intros id Hid. apply Hn. right. left. by exists id, p. }
  intros s4 K4. eapply safe_mono; [apply (add_waiting_ok (p :: l)); [apply K4|by apply K4]|].
  intros [a s5] K5. split; [|by apply K5, K4].
  eapply kept_trans; [exact K2|]. eapply kept_trans; [exact K3|]. eapply kept_trans; [exact K4|exact K5].
Qed.

(** A socket is taken or refused: no other object changes. *)
Lemma connect_socket_ok l now fd s : holds l s -> safe (connect_socket now fd s) (fun r => kept l s (snd r)).
Proof.
  intros Hs. unfold connect_socket. pose proof (open_ok l now fd s Hs) as Ho.
  assert (Hf : ~ is_Some (n_objs s !! fst (new_connect fd s)))
    by (cbn; rewrite <- elem_of_dom; apply is_fresh).
  destruct (new_connect fd s) as [p s1]. cbn [fst snd] in Ho, Hf.
  call Ho. intros [l1 s2] [K2 Hp]. call (deref_live p s2 Hp). intros o _.
  call (obj_add_timer_ok (p :: l)); [apply K2|done|]. intros [l2 s3] K3. cbn in K3.
  call (drop_ok l p s3 (proj1 K3)). intros s4 (Hs4 & Hlo & _). split; [done|].
  change (grows s s4). assert (K23 := kept_trans _ _ _ _ _ K2 K3). destruct K23 as [_ [Go Gm Gn]]. split.
  - intros q Hq. apply (lo_objs _ _ _ Hlo); [by intros ->|by apply Go].
  - by rewrite (lo_map _ _ _ Hlo).
  - by rewrite (lo_net _ _ _ Hlo).
Qed.

(** [Self] is a live object. *)
Definition self_ok s (self : option ptr) : Prop := match self with Some p => is_Some (n_objs s !! p) | None => True end.

Lemma on_target_ok {A} l self x s (a : A) (f : ptr -> outcome A) Q :
  holds l s -> self_ok s self -> Q a -> (forall p, is_Some (n_objs s !! p) -> safe (f p) Q) ->
  safe (on_target self x s a f) Q.
Proof.
  intros Hs Hself Ha Hf. unfold on_target. destruct (resolve_target self x s) as [p|] eqn:E; [|done]. apply Hf.
  destruct x as [|id]; cbn in E; [by subst self|]. eapply map_live; [apply Hs|exact E].
Qed.

Lemma run_action_ok l self a s :
  holds l s -> self_ok s self -> safe (run_action self a s) (fun r => kept l s (snd r)).
Proof.
  intros Hs Hself. assert (K0 : kept l s s) by by split.
  destruct a as [now fd|x|x|now m x]; cbn [run_action].
  - call (connect_socket_ok l now fd s Hs). by intros [].
  - eapply on_target_ok; [done..|]. intros p Hp. call (deref_live p s Hp). intros o _.
    call (update_event_ok l p _ s Hs Hp). by intros [].
  - eapply on_target_ok; [done..|]. intros p Hp. call (deref_live p s Hp). intros o _.
    call (update_event_ok l p _ s Hs Hp). by intros [].
  - eapply on_target_ok; [done..|]. intros p Hp. call (obj_add_timer_ok l now m p s Hs Hp). by intros [].
Qed.

Lemma run_actions_ok l self acts s :
  holds l s -> self_ok s self -> safe (run_actions self acts s) (fun r => kept l s (snd r)).
Proof.
  revert s. induction acts as [|a acts IH]; intros s Hs Hself; cbn [run_actions]; [by split|].
  call (run_action_ok l self a s Hs Hself). intros [[threw t1] s1] K1. cbn in K1. destruct threw; [done|].
  call (IH s1 (proj1 K1)); [destruct self; [by apply K1|done]|]. intros [[threw t2] s2] K2. by eapply kept_trans.
Qed.

Lemma run_handler_ok l self x s :
  holds l s -> self_ok s self -> safe (run_handler self x s) (fun r => kept l s (snd r)).
Proof. intros Hs Hself. call (run_actions_ok l self (fst x) s Hs Hself). by intros [[threw t1] s1]. Qed.

(** ** The turns of the loop *)

Context (h : handlers K).

Lemma arm_timers_ok l t (Q : base_timer -> Prop) : (forall t', Q t') -> safe (arm_timers l t) Q.
Proof. intros HQ. unfold arm_timers. eapply safe_bind; [by apply (safe_no_fuel _ (fun _ => True))|]. intros [added t'] _. apply HQ. Qed.

Lemma map_insert_perm id p (l : list (Z * ptr)) :
  map snd (snd (map_insert id p l)) ≡ₚ (if fst (map_insert id p l) then [p] else []) ++ map snd l.
Proof.
  induction l as [|[id' p'] l IH]; [done|]. cbn. destruct (id <? id'); [done|]. destruct (id =? id'); [done|].
  destruct (map_insert id p l) as [b l']. cbn in *. rewrite IH. destruct b; cbn; [apply Permutation_swap|done].
Qed.

Lemma note_ok l id p e s :
  holds (l ++ map snd e) s -> is_Some (n_objs s !! p) ->
  kept (l ++ map snd (fst (note_obj id p e s))) s (snd (note_obj id p e s)) /\
  (forall q, q ∈ map snd e -> q ∈ map snd (fst (note_obj id p e s))).
Proof.
  intros Hs Hp. unfold note_obj. pose proof (map_insert_perm id p e) as E. destruct (map_insert id p e) as [b e'].
  cbn [fst snd] in *. split; [|intros q Hq; rewrite E, elem_of_app; auto].
  destruct b; cbn [app] in E.
  - destruct (hold_ok _ p s Hs Hp) as [Hh G]. split; [|done]. eapply holds_perm; [|exact Hh].
    rewrite E. apply Permutation_middle.
  - split; [|done]. eapply holds_perm; [|exact Hs]. by rewrite E.
Qed.

(** The variables of [obj_process] that hold objects. *)
Definition held_by (expect_list remove_list : list (Z * ptr)) (l : list ptr) : list ptr :=
  map snd remove_list ++ map snd expect_list ++ l.

(** An event of a live object is handled, and no object goes with it. *)
Lemma epoll_event_ok l e exp rem s t :
  holds (held_by exp rem l) s -> is_Some (n_objs s !! snd e) ->
  safe (epoll_event h e exp rem (s, t)) (fun '(exp', rem', (s', _)) => kept (held_by exp' rem' l) s s').
Proof.
  intros Hs Hp. unfold epoll_event. destruct e as [ev p]. cbn [fst snd] in *.
  call (deref_live p s Hp). intros _ _. destruct (hold_ok _ p s Hs Hp) as [Hh Gh].
  call (run_handler_ok _ (Some p) (event_process h (hold p s) p ev) _ Hh); [by apply Gh|].
  intros [[threw a] s2] [Hs2 G2]. cbn in Hs2, G2.
  call (arm_timers_ok a t (fun _ => True)); [done|]. intros t' _.
  assert (Hp2 : is_Some (n_objs s2 !! p)) by by apply G2, Gh.
  call (deref_live p s2 Hp2). intros o Ho.
  assert (Hend : forall exp' rem' s3, holds (p :: held_by exp' rem' l) s3 -> grows s2 s3 ->
    (forall q, q ∈ held_by exp rem l -> q ∈ held_by exp' rem' l) ->
    safe (s4 ← drop p s3; Done (exp', rem', (s4, t'))) (fun '(exp', rem', (s', _)) => kept (held_by exp' rem' l) s s')).
  { intros exp' rem' s3 Hs3 G3 Hsub. call (drop_ok _ p s3 Hs3). intros s4 (Hs4 & _ & G4). split; [done|].
    assert (G : grows s s3) by (etrans; [exact Gh|]; by etrans). etrans; [exact G|]. apply G4.
    apply (inv_refs _ (proj1 Hs)) in Hp. destruct Hp as [Hq|[Hq|Hq]].
    - left. cbn. apply Hsub. by rewrite <- (proj2 Hs).
    - right. left. destruct Hq as (id & r & Hq & <-). exists id, r. split; [|done]. by eapply lookup_weaken; [|apply G].
    - right. right. change (map_Exists (fun _ r => r = p) (n_obj_net_map s3)). by rewrite (gr_net _ _ G). }
  destruct threw; [|destruct (ob_real_net o)].
  - destruct (note_ok (p :: map snd rem ++ l) (obj_id (ob_id o)) p exp s2) as [[Hs3 G3] Hsub]; [|done|].
    { eapply holds_perm; [|exact Hs2]. unfold held_by. solve_Permutation. }
    destruct (note_obj _ p exp s2) as [exp' s3]. cbn [fst snd] in *.
    apply Hend; [|done|intros q; unfold held_by; rewrite !elem_of_app; naive_solver].
    eapply holds_perm; [|exact Hs3]. unfold held_by. cbn. solve_Permutation.
  - destruct (note_ok (p :: map snd exp ++ l) (obj_id (ob_id o)) p rem s2) as [[Hs3 G3] Hsub]; [|done|].
    { eapply holds_perm; [|exact Hs2]. unfold held_by. solve_Permutation. }
    destruct (note_obj _ p rem s2) as [rem' s3]. cbn [fst snd] in *.
    apply Hend; [|done|intros q; unfold held_by; rewrite !elem_of_app; naive_solver].
    eapply holds_perm; [|exact Hs3]. unfold held_by. cbn. solve_Permutation.
  - by apply Hend.
Qed.

Lemma epoll_events_ok l es exp rem s t :
  holds (held_by exp rem l) s -> (forall e, e ∈ es -> is_Some (n_objs s !! snd e)) ->
  safe (epoll_events h es exp rem (s, t)) (fun '(exp', rem', (s', _)) => kept (held_by exp' rem' l) s s').
Proof.
  revert exp rem s t. induction es as [|e es IH]; intros exp rem s t Hs Hes; cbn [epoll_events]; [by split|].
  eapply safe_bind; [apply (epoll_event_ok l e exp rem s t Hs), Hes; left|].
  intros [[exp' rem'] [s' t']] [Hs' G]. eapply safe_mono; [apply (IH exp' rem' s' t' Hs')|].
  - intros e' He'. apply G, Hes. by right.
  - intros [[exp2 rem2] [s2 t2]] K2. by eapply kept_trans.
Qed.

(** Every address of the batch is of a live object, and stays one to its end. *)
Lemma epoll_wait_ok l s t :
  holds l s -> safe (epoll_wait h (s, t)) (fun '(exp, rem, (s', _)) => kept (held_by exp rem l) s s').
Proof.
  intros Hs. unfold epoll_wait. call (get_epoll_live s (proj1 Hs)). intros k ->.
  pose proof (wait_spec (n_epoll_size s) (n_kernel s)) as [Ei Hw].
  destruct (wait (n_epoll_size s) (n_kernel s)) as [r k]. cbn [fst snd] in Ei, Hw.
  set (s1 := s <| n_kernel := k |>).
  assert (K1 : kept l s s1).
  { split; [|by split]. split; [|apply Hs]. destruct (proj1 Hs) as [Ha Hk Hr Hc Hd]. split; try done.
    intros fd ev p Hp. change (interest k !! fd = Some (ev, p)) in Hp. rewrite Ei in Hp. eauto. }
  destruct r as [e|es]; [destruct (e =? EINTR); [exact K1|done]|].
  destruct Hw as [Hlen Hes]. change (n_epoll_size s1) with (n_epoll_size s). destruct (Z.ltb_spec (n_epoll_size s) (Z.of_nat (length es))); [lia|].
  eapply safe_mono; [apply (epoll_events_ok l es [] [] s1 t (proj1 K1))|].
  - intros [ev p] He. destruct (Hes ev p He) as (fd & ev' & Hfd).
    destruct (inv_interest _ (proj1 Hs) _ _ _ Hfd) as (o & Ho & _). by exists o.
  - intros [[exp rem] [s2 t2]] K2. by eapply kept_trans.
Qed.

Lemma real_net_loop_ok l es ev rv s t :
  holds (rv ++ ev ++ l) s -> (forall e, e ∈ es -> is_Some (n_objs s !! snd e)) ->
  safe (real_net_loop h es ev rv (s, t)) (fun '(ev', rv', (s', _)) => holds (rv' ++ ev' ++ l) s').
Proof.
  revert ev rv s t. induction es as [|[id p] es IH]; intros ev rv s t Hs Hes; cbn [real_net_loop]; [done|].
  assert (Hp : is_Some (n_objs s !! p)) by (apply (Hes (id, p)); left).
  call (deref_live p s Hp). intros _ _.
  call (run_handler_ok _ (Some p) (real_net_process h s p) s Hs Hp). intros [[threw a] s1] [Hs1 G1]. cbn in Hs1, G1.
  call (arm_timers_ok a t (fun _ => True)); [done|]. intros t1 _.
  assert (Hp1 : is_Some (n_objs s1 !! p)) by by apply G1. call (deref_live p s1 Hp1). intros o _.
  destruct (hold_ok _ p s1 Hs1 Hp1) as [Hh Gh].
  assert (Hes1 : forall e, e ∈ es -> is_Some (n_objs s1 !! snd e)) by (intros e He; apply G1, Hes; by right).
  assert (Hes2 : forall e, e ∈ es -> is_Some (n_objs (hold p s1) !! snd e)) by auto.
  destruct threw; [|destruct (ob_real_net o)]; apply IH; try done.
  - eapply holds_perm; [|exact Hh]. solve_Permutation.
  - eapply holds_perm; [|exact Hh]. solve_Permutation.
Qed.

Lemma set_real_net_ok l p b s : holds l s -> p ∈ l -> safe (set_real_net p b s) (holds l).
Proof.
  intros Hs Hp. unfold set_real_net. call (deref_live p s); [by eapply holds_live|]. intros o Ho.
  assert (Hc := inv_container _ (proj1 Hs) _ _ Ho).
  assert (K1 : kept l s (store p (o <| ob_real_net := b |>) s)) by by eapply store_kept.
  destruct b; [|apply K1]. revert K1. set (s1 := store p _ s). intros [Hs1 _]. unfold push_real_net.
  assert (Hl := holds_live _ _ _ Hs1 Hp). call (deref_live p s1 Hl). intros o1 _.
  destruct (n_obj_net_map s1 !! obj_id (ob_id o1)) eqn:E; [done|]. split; [|apply Hs1].
  destruct (proj1 Hs1) as [Ha Hk Hr Hc1 Hd]. split; try done. intros q. change (n_objs (_ <| n_obj_net_map ::= _ |>)) with (n_objs s1).
  rewrite <- Hr. unfold referenced. match goal with |- context [map_Exists _ (n_obj_net_map ?x)] =>
    change (n_obj_net_map x) with (<[obj_id (ob_id o1) := p]> (n_obj_net_map s1));
    change (n_held x) with (n_held s1); change (n_obj_map x) with (n_obj_map s1) end.
  rewrite map_Exists_insert by done. assert (p ∈ n_held s1) by by rewrite (proj2 Hs1). naive_solver.
Qed.

Lemma remove_real_net_ok l p s : holds l s -> p ∈ l -> safe (remove_real_net p s) (holds l).
Proof.
  intros Hs Hp. unfold remove_real_net. call (deref_live p s); [by eapply holds_live|]. intros o _.
  by apply erase_from_net_ok.
Qed.

Lemma remove_real_nets_ok l ps s : holds l s -> (forall p, p ∈ ps -> p ∈ l) -> safe (remove_real_nets ps s) (holds l).
Proof.
  revert s. induction ps as [|p ps IH]; intros s Hs Hps; cbn [remove_real_nets]; [done|].
  call (remove_real_net_ok l p s Hs); [set_solver|]. intros s1 Hs1. apply IH; [done|set_solver].
Qed.

Lemma erase_exceptions_ok l ps s : holds l s -> (forall p, p ∈ ps -> p ∈ l) -> safe (erase_exceptions ps s) (holds l).
Proof.
  revert s. induction ps as [|p ps IH]; intros s Hs Hps; cbn [erase_exceptions]; [done|].
  call (deref_live p s); [eapply holds_live; [done|set_solver]|]. intros o _.
  call (erase_ok l (obj_id (ob_id o)) s Hs). intros s1 Hs1. apply IH; [done|set_solver].
Qed.

Lemma erase_expected_ok l es s :
  holds l s -> (forall p, p ∈ map snd es -> p ∈ l) -> safe (erase_expected es s) (holds l).
Proof.
  revert s. induction es as [|[id p] es IH]; intros s Hs Hes; cbn [erase_expected]; [done|].
  call (deref_live p s); [eapply holds_live; [done|set_solver]|]. intros _ _.
  call (erase_ok l id s Hs). intros s1 Hs1. apply IH; [done|set_solver].
Qed.

Lemma leave_real_net_ok l es s :
  holds l s -> (forall p, p ∈ map snd es -> p ∈ l) -> safe (leave_real_net es s) (holds l).
Proof.
  revert s. induction es as [|[id p] es IH]; intros s Hs Hes; cbn [leave_real_net]; [done|].
  call (set_real_net_ok l p false s Hs); [set_solver|]. intros s1 Hs1.
  call (remove_real_net_ok l p s1 Hs1); [set_solver|]. intros s2 Hs2. apply IH; [done|set_solver].
Qed.

Lemma container_timeout_ok l m s : holds l s -> safe (container_timeout h m s) (fun r => holds l (fst (fst r))).
Proof.
  intros Hs. unfold container_timeout. destruct (tm_obj_id m =? OBJ_ID_THREAD).
  - destruct (on_timeout h s None m) as [[real acts] threw].
    call (run_handler_ok l None (acts, threw) s Hs); [done|]. by intros [[b a] s1] [Hs1 _].
  - unfold find. destruct (n_obj_map s !! tm_obj_id m) as [p|] eqn:E; [|done].
    destruct (on_timeout h s (Some p) m) as [[real acts] threw].
    destruct (hold_ok l p s Hs) as [Hh _]; [by eapply map_live; [apply Hs|]|].
    assert (Hr : safe (if real then set_real_net p true (hold p s) else Done (hold p s)) (holds (p :: l)))
      by (destruct real; [apply set_real_net_ok; [done|left]|done]).
    call Hr. intros s1 Hs1. call (run_handler_ok _ (Some p) (acts, threw) s1 Hs1); [eapply holds_live; [done|left]|].
    intros [[b a] s2] [Hs2 _]. call (drop_ok l p s2 Hs2). by intros s3 [Hs3 _].
Qed.

(** A property of the world that every handler keeps. *)
Lemma check_timer_world {W} (handle : timer_msg -> W -> W * armed * bool) (P : W -> Prop) now w t f :
  P w -> (forall m w, P w -> P (fst (fst (handle m w)))) -> check_timer handle now w t = Some f -> P (fi_world f).
Proof.
  intros Hw Hh. unfold check_timer. intros (f1 & E & [= <-])%bind_Some. cbn [fi_world]. revert E.
  match goal with |- fire_due _ _ _ ?g = _ -> _ => assert (Hg : P (fi_world g)) by done; generalize dependent g end.
  intros g. generalize (list_at (bt_current t) t). intros l. revert g. induction l as [|[k m] l IH]; intros g Hg E; cbn in E; [by simplify_eq|].
  destruct (now <? k); [by simplify_eq|]. specialize (Hh m _ Hg). destruct (handle m (fi_world g)) as [[w1 adds] threw].
  apply bind_Some in E as ([added t1] & _ & E). by eapply IH, E.
Qed.

Lemma erase_timed_out_ok l ids s : holds l s -> safe (erase_timed_out ids s) (holds l).
Proof.
  revert s. induction ids as [|id ids IH]; intros s Hs; cbn [erase_timed_out]; [done|].
  apply (safe_bind _ _ (holds l)); [|by apply IH]. unfold find. destruct (n_obj_map s !! id) as [p|] eqn:E; [|done].
  destruct (hold_ok l p s Hs) as [Hh _]; [by eapply map_live; [apply Hs|]|].
  call (erase_ok (p :: l) id _ Hh). intros s1 Hs1. eapply safe_mono; [by apply drop_ok|]. by intros s2 [].
Qed.

(** A turn of the loop keeps the memory sound, and keeps no [shared_ptr]. *)
Lemma obj_process_ok l now s t : holds l s -> safe (obj_process h now (s, t)) (fun st => holds l (fst st)).
Proof.
  intros Hs. unfold obj_process. cbn [fst]. call (real_net_loop_ok l _ [] [] s t); [done| |].
  { intros [id p] He. unfold in_order in He. rewrite merge_sort_Permutation in He. apply elem_of_map_to_list in He.
    eapply net_map_live; [apply Hs|exact He]. }
  intros [[ev rv] [s1 t1]] H1. call (remove_real_nets_ok _ rv s1 H1); [set_solver|]. intros s2 H2.
  call (erase_exceptions_ok _ ev s2 H2); [set_solver|]. intros s3 H3.
  call (epoll_wait_ok _ s3 t1 H3). intros [[exp rem] [s4 t4]] [H4 _].
  call (erase_expected_ok _ exp s4 H4); [unfold held_by; set_solver|]. intros s5 H5.
  call (leave_real_net_ok _ rem s5 H5); [unfold held_by; set_solver|]. intros s6 H6.
  eapply (safe_bind _ _ (fun f => safe (fi_world f) (holds (held_by exp rem (rv ++ ev ++ l))))).
  { apply safe_no_fuel. intros f. apply (check_timer_world (timeout_step h) (fun w => safe w _)); [done|].
    intros m w Hw. unfold timeout_step. destruct w as [s'| | |]; try done. cbn.
    pose proof (container_timeout_ok _ m s' Hw) as Hc. by destruct (container_timeout h m s') as [[[s7 a] b]| | |]. }
  intros f Hf. call Hf. intros s7 H7. call (erase_timed_out_ok _ (fi_expect f) s7 H7). intros s8 H8.
  apply (safe_bind _ _ (holds l)); [|done]. apply drops_ok. eapply holds_perm; [|exact H8].
  unfold held_by. solve_Permutation.
Qed.

Lemma run_loop_ok l turns s t : holds l s -> safe (run_loop h turns (s, t)) (fun st => holds l (fst st)).
Proof.
  revert s t. induction turns as [|[own now] turns IH]; intros s t Hs; cbn [run_loop]; [done|]. cbn [fst snd].
  call (run_actions_ok l None own s Hs); [done|]. intros [[threw a] s1] [Hs1 _]. destruct threw; [done|].
  call (arm_timers_ok a t (fun _ => True)); [done|]. intros t1 _.
  call (obj_process_ok l now s1 t1 Hs1). intros [s2 t2] Hs2. by apply IH.
Qed.

Lemma open_member_ok l now fd s :
  holds l s -> safe (open_member now fd s) (fun r => holds (fst (fst r) :: l) (snd r)).
Proof.
  intros Hs. unfold open_member. pose proof (open_ok l now fd s Hs) as Ho. destruct (new_connect fd s) as [p s1].
  cbn [fst snd] in Ho. call Ho. by intros [a s2] [[Hs2 _] _].
Qed.

Lemma open_members_ok l ms s t :
  holds l s -> safe (open_members ms (s, t)) (fun '(ps, (s', _)) => holds (ps ++ l) s').
Proof.
  revert l s t. induction ms as [|[now fd] ms IH]; intros l s t Hs; cbn [open_members]; [done|]. cbn [fst snd].
  call (open_member_ok l now fd s Hs). intros [[p a] s2] Hs2. cbn [fst snd] in Hs2.
  call (arm_timers_ok a t (fun _ => True)); [done|]. intros t1 _. call (IH (p :: l) s2 t1 Hs2).
  intros [ps [s3 t3]] Hs3. eapply holds_perm; [|exact Hs3]. solve_Permutation.
Qed.
End Memory.

(** ** A new socket, step by step *)

Lemma net_ext {K} (s1 s2 : net K) :
  n_kernel s1 = n_kernel s2 -> n_epoll_size s1 = n_epoll_size s2 -> n_objs s1 = n_objs s2 ->
  n_obj_map s1 = n_obj_map s2 -> n_obj_net_map s1 = n_obj_net_map s2 -> n_id_str s1 = n_id_str s2 ->
  n_held s1 = n_held s2 -> n_epoll s1 = n_epoll s2 -> n_container s1 = n_container s2 -> s1 = s2.
Proof. destruct s1, s2. cbn. congruence. Qed.

Section NewSocket.
Context {K : Type} `{EpollKernel K} (now fd : Z) (s : net K).

Let p : ptr := fresh (dom (n_objs s)).
Let o : net_object := (new_net_object fd) <| ob_container := true |>.

Hypothesis alive : n_container s = true /\ n_epoll s = true.
Hypothesis fd_positive : 0 < fd.

(** What is left when [set_net_container] has set the container. *)
Definition with_new : net K := store p o (snd (new_connect fd s)).

Lemma with_new_objs : n_objs with_new = <[p := o]> (n_objs s).
Proof. apply insert_insert_eq. Qed.

Lemma set_new_container :
  set_net_container now p (snd (new_connect fd s)) =
    let '(threw, k) := add_to_epoll p o (n_kernel s) in
    let s' := with_new <| n_kernel := k |> in
    if threw then Done ([], s') else s' ← insert p s'; add_waiting_timers now p s'.
Proof.
  unfold set_net_container, deref_obj. change (n_objs (snd (new_connect fd s))) with (<[p := new_net_object fd]> (n_objs s)).
  rewrite lookup_insert_eq. cbn [outcome_bind mbind].
  change (store p _ (snd (new_connect fd s))) with with_new.
  assert (E : get_epoll with_new = Done (n_kernel s)).
  { unfold get_epoll. change (n_container with_new) with (n_container s). change (n_epoll with_new) with (n_epoll s).
    by destruct alive as [-> ->]. }
  rewrite E. cbn [outcome_bind mbind]. change (ob_fd ((new_net_object fd) <| ob_container := true |>)) with fd.
  by rewrite (proj2 (Z.ltb_lt 0 fd) fd_positive).
Qed.

Lemma add_waiting_idle (s' : net K) o' :
  n_objs s' !! p = Some o' -> ob_container o' = true -> ob_timers o' = [] -> add_waiting_timers now p s' = Done ([], s').
Proof.
  intros Ho Hc Ht. unfold add_waiting_timers, deref_obj. rewrite Ho. cbn [outcome_bind mbind]. rewrite Hc, Ht.
  cbn [map]. f_equal. f_equal. unfold store. destruct s' as [k sz objs om nm ids held ep ct]. cbn in *.
  rewrite insert_id; [done|]. rewrite Ho. destruct o'. cbn in *. by subst.
Qed.

Lemma obj_add_timer_idle m (s' : net K) o' :
  n_objs s' !! p = Some o' -> ob_container o' = true -> ob_timers o' = [] ->
  obj_add_timer now m p s' = Done ([(now, m)], s').
Proof.
  intros Ho Hc Ht. unfold obj_add_timer, deref_obj. rewrite Ho. cbn [outcome_bind mbind].
  by rewrite Hc, (add_waiting_idle s' o').
Qed.

(** The connection as it is registered. *)
Definition accepted_obj (id : Z) : net_object := o <| ob_id := mkObjId id (obj_thread_index (n_id_str s)) |>.

Lemma connect_accepted k1 id :
  ctl_add fd 25 p (n_kernel s) = (None, k1) ->
  gen_id_str (S (size (n_obj_map s))) (n_obj_map s) (obj_id (n_id_str s)) = Some id ->
  connect_socket now fd s =
    Done ([(now, mkTimer id NONE_DATA_TIMER_TYPE 0 CONNECT_TIMEOUT)],
          s <| n_kernel := k1 |> <| n_objs ::= <[p := accepted_obj id]> |>
            <| n_id_str := mkObjId id (obj_thread_index (n_id_str s)) |> <| n_obj_map ::= <[id := p]> |>).
Proof.
  intros Hadd Hid. unfold connect_socket.
  change (new_connect fd s) with (p, snd (new_connect fd s)). cbv beta iota. rewrite set_new_container.
  assert (Ea : add_to_epoll p o (n_kernel s) = (false, k1)).
  { unfold add_to_epoll. change (ob_fd o) with fd. change (ob_event o) with 25. by rewrite Hadd. }
  rewrite Ea. set (s3 := with_new <| n_kernel := k1 |>). cbv beta iota zeta.
  assert (H3 : n_objs s3 !! p = Some o) by (change (n_objs s3) with (n_objs with_new); rewrite with_new_objs; apply lookup_insert_eq).
  assert (D3 : deref_obj p s3 = Done o) by (unfold deref_obj; by rewrite H3).
  unfold insert. rewrite D3. change (n_obj_map s3) with (n_obj_map s). change (n_id_str s3) with (n_id_str s).
  rewrite Hid. cbn [outcome_bind mbind no_fuel]. change (o <| ob_id := _ |>) with (accepted_obj id).
  match goal with |- context [add_waiting_timers now p ?x] => set (s4 := x) end.
  assert (H4 : n_objs s4 !! p = Some (accepted_obj id)) by apply lookup_insert_eq.
  rewrite (add_waiting_idle s4 (accepted_obj id)) by done. cbn [outcome_bind mbind].
  assert (D4 : deref_obj p s4 = Done (accepted_obj id)) by (unfold deref_obj; by rewrite H4).
  rewrite D4. cbn [outcome_bind mbind]. change (obj_id (ob_id (accepted_obj id))) with id.
  rewrite (obj_add_timer_idle _ s4 (accepted_obj id)) by done. cbn [outcome_bind mbind app].
  unfold drop, release. rewrite decide_True by (right; left; exists id, p; split; [apply lookup_insert_eq|done]).
  cbv beta iota delta [mbind outcome_bind]. f_equal. f_equal. apply net_ext; try done.
  - change (<[p := accepted_obj id]> (n_objs with_new) = <[p := accepted_obj id]> (n_objs s)).
    by rewrite with_new_objs, insert_insert_eq.
  - change ((if decide (p = p) then n_held s else p :: remove_one p (n_held s)) = n_held s). by rewrite decide_True.
Qed.

Lemma connect_refused e r k1 k2 :
  n_objs s !! p = None -> ~ referenced p s -> ctl_add fd 25 p (n_kernel s) = (Some e, k1) -> e <> EEXIST ->
  ctl_del fd k1 = (Some r, k2) -> r = ENOENT \/ r = EBADF ->
  connect_socket now fd s =
    Done ([(now, mkTimer 0 NONE_DATA_TIMER_TYPE 0 CONNECT_TIMEOUT)], s <| n_kernel := close_fd fd k2 |>).
Proof.
  intros Hf Hn Hadd He Hdel Hr. unfold connect_socket.
  change (new_connect fd s) with (p, snd (new_connect fd s)). cbv beta iota. rewrite set_new_container.
  assert (Ea : add_to_epoll p o (n_kernel s) = (true, k1)).
  { unfold add_to_epoll. change (ob_fd o) with fd. change (ob_event o) with 25. rewrite Hadd.
    by rewrite (proj2 (Z.eqb_neq e EEXIST) He). }
  rewrite Ea. set (s3 := with_new <| n_kernel := k1 |>). cbn [outcome_bind mbind].
  assert (H3 : n_objs s3 !! p = Some o) by (change (n_objs s3) with (n_objs with_new); rewrite with_new_objs; apply lookup_insert_eq).
  unfold deref_obj at 1. rewrite H3. cbn [outcome_bind mbind]. change (obj_id (ob_id o)) with 0.
  rewrite (obj_add_timer_idle _ s3 o) by done. cbn [outcome_bind mbind app].
  unfold drop, release. set (s4 := s3 <| n_held ::= remove_one p |>).
  assert (E4 : n_held s4 = n_held s).
  { change (n_held s4) with (if decide (p = p) then n_held s else p :: remove_one p (n_held s)). by rewrite decide_True. }
  rewrite decide_False by (unfold referenced; rewrite E4; exact Hn).
  unfold destruct_obj, deref_obj. change (n_objs s4) with (n_objs s3). rewrite H3. cbn [outcome_bind mbind].
  change (ob_container o) with true. unfold get_epoll. change (n_container s4) with (n_container s). change (n_epoll s4) with (n_epoll s).
  destruct alive as [-> ->]. cbn [andb outcome_bind mbind]. change (n_kernel s4) with k1.
  assert (Ed : del_from_epoll o k1 = (false, k2)).
  { unfold del_from_epoll. change (ob_fd o) with fd. rewrite Hdel. by destruct Hr as [-> | ->]. }
  rewrite Ed. change (ob_fd o) with fd. rewrite (proj2 (Z.eqb_neq fd 0)) by lia. cbn [outcome_bind mbind].
  f_equal. f_equal. apply net_ext; try done.
  change (delete p (n_objs with_new) = n_objs s). rewrite with_new_objs. by rewrite delete_insert_id.
Qed.
End NewSocket.

Lemma empty_container_ok {K} `{EpollKernel K} index size (k : K) : interest k = ∅ -> holds [] (empty_container index size k).
Proof.
  intros Hk. split; [|done]. split; cbn; try done; [by rewrite Hk|]. intros p. split; [|by intros []].
  intros [Hp|[(? & ? & ? & _)|(? & ? & ? & _)]]; [by apply not_elem_of_nil in Hp|done|done].
Qed.

(** ** Theorems *)

(** C39: No event of the kernel ever reaches an object that is gone.  Whatever the
    kernel answers, whatever the objects do with their events, timers and
    messages, and however often the loop of the thread turns, no address is
    followed after its object was destroyed and nothing is destroyed twice; and
    after every turn the addresses registered in the epoll instance are those of
    live objects with that very descriptor, the maps find live objects under
    their own ids, and a live object is in a map or is one the thread itself
    keeps: a connection that was erased has been unregistered, destroyed and
    closed. *)
Theorem epoll_addresses_live {K} `{EpollKernel K} (h : handlers K) index members turns (created : Z + K) :
  (forall k, created = inr k -> interest k = ∅) ->
  safe (net_thread h index members turns created) (fun '(ps, (s, _)) => net_inv s /\ n_held s ≡ₚ ps).
Proof.
  intros Hk. unfold net_thread, new_container, epoll_init. destruct created as [e|k]; [done|].
  specialize (Hk k eq_refl). cbn [outcome_bind mbind].
  call (open_members_ok [] members _ new_base_timer (empty_container_ok index _ k Hk)). intros [ps [s t]] Hs.
  call (run_loop_ok h _ turns s t Hs). intros [s' t'] [Hi Hh]. cbn. split; [done|]. by rewrite Hh, app_nil_r.
Qed.

(** C40: A socket that epoll refuses leaves no trace.  When the registration of an
    accepted socket fails, [handle_connect] returns normally: the exception is
    caught, the connection gets no id and is in no map, its timer, for the id 0,
    is refused, its memory is freed and its descriptor is closed; the objects,
    the id counter and what is registered are as before. *)
Theorem refused_socket_closed {K} `{EpollKernel K} now fd (s : net K) (t : base_timer) e r k1 k2 :
  net_inv s -> 0 < fd ->
  ctl_add fd 25 (fresh (dom (n_objs s))) (n_kernel s) = (Some e, k1) -> e <> EEXIST ->
  ctl_del fd k1 = (Some r, k2) -> r = ENOENT \/ r = EBADF ->
  exists l, connect_socket now fd s = Done (l, s <| n_kernel := close_fd fd k2 |>) /\
    add_timers l t = Some ([], t) /\ interest (close_fd fd k2) = interest (n_kernel s).
Proof.
  intros Hi Hfd Hadd He Hdel Hr.
  assert (Hf : n_objs s !! fresh (dom (n_objs s)) = None) by (apply not_elem_of_dom, is_fresh).
  exists [(now, mkTimer 0 NONE_DATA_TIMER_TYPE 0 CONNECT_TIMEOUT)]. split; [|split].
  - eapply connect_refused; try done; [apply Hi|]. rewrite (inv_refs _ Hi), Hf. by intros [].
  - done.
  - rewrite close_fd_spec. pose proof (ctl_add_spec fd 25 (fresh (dom (n_objs s))) (n_kernel s)) as Ha.
    rewrite Hadd in Ha. destruct Ha as [_ Ha]. pose proof (ctl_del_spec fd k1) as Hd. rewrite Hdel in Hd.
    destruct Hd as [Hn Hd]. rewrite Hd, delete_id by auto. done.
Qed.

(** ** The rescue timer of a channel *)

(** It is armed again by its own handler, with a time that [add_timer] takes. *)
Lemma channel_timer_rearmed now last_time len m :
  tm_timer_type m = NONE_CHANNEL_EVENT_TIMER_TYPE ->
  exists real time_out, 20 <= time_out <= 100000 /\
    channel_timeout now last_time len m =
      (real, [AddTimer now (mkTimer OBJ_ID_DOMAIN NONE_CHANNEL_EVENT_TIMER_TYPE 0 time_out) Self], false).
Proof.
  intros Ht. assert (Hr : forall t, 20 <= event_timeout t <= 100000).
  { intros t. unfold event_timeout, MAX_CHANNEL_EVENT_TIMEOUT. cbv zeta. change (100 * 1000) with 100000.
    destruct (Z.ltb_spec 100000 t); [change (100000 <? 20) with false; lia|]. destruct (Z.ltb_spec t 20); lia. }
  unfold channel_timeout. rewrite (proj2 (Z.eqb_eq _ _) Ht). destruct (_ && _); eexists _, _; split; [apply Hr|done| |done]; apply Hr.
Qed.

(** But its object id is that of no object, so no handler ever sees it. *)
Lemma rescue_timer_lost {K} `{EpollKernel K} (h : handlers K) m s :
  tm_obj_id m = OBJ_ID_DOMAIN -> find OBJ_ID_DOMAIN s = None -> container_timeout h m s = Done (s, [], false).
Proof. intros E Hf. unfold container_timeout. rewrite E. change (OBJ_ID_DOMAIN =? OBJ_ID_THREAD) with false. by rewrite Hf. Qed.

(** ** The end of a thread *)

(** The common_epoll is gone, the objects of [objs] are not. *)
Record epoll_gone {K} (objs : gmap ptr net_object) (s : net K) : Prop := {
  eg_epoll : n_epoll s = false;
  eg_objs : n_objs s = objs;
  eg_refs p : referenced p s <-> is_Some (objs !! p);
}.

(** What is not undefined behaviour satisfies [Q]. *)
Definition unless_undef {A} (m : outcome A) (Q : A -> Prop) : Prop :=
  match m with Done a => Q a | Undef => True | Fails _ | NoFuel => False end.

Lemma unless_undef_bind {A B} (m : outcome A) (f : A -> outcome B) Q R :
  unless_undef m Q -> (forall a, Q a -> unless_undef (f a) R) -> unless_undef (m ≫= f) R.
Proof. destruct m; simpl; auto. Qed.

Lemma unless_undef_mono {A} (m : outcome A) (Q R : A -> Prop) : unless_undef m Q -> (forall a, Q a -> R a) -> unless_undef m R.
Proof. destruct m; simpl; auto. Qed.

Section Deletion.
Context {K : Type} `{EpollKernel K} (objs : gmap ptr net_object).
Hypothesis in_container : forall p o, objs !! p = Some o -> ob_container o = true.
Implicit Types (s : net K).

(** The destructor of the last reference to an object asks the deleted epoll. *)
Lemma release_gone p s s0 :
  epoll_gone objs s0 -> n_epoll s = n_epoll s0 -> n_objs s = n_objs s0 ->
  (forall q, referenced q s -> referenced q s0) -> (forall q, q <> p -> referenced q s0 -> referenced q s) ->
  is_Some (objs !! p) -> unless_undef (release p s) (fun s' => epoll_gone objs s' /\ s' = s).
Proof.
  intros [Ee Eo Hr] E1 E2 Href Hoth [o Ho]. unfold release. destruct (decide (referenced p s)) as [Hp|_].
  - split; [|done]. split; [congruence..|]. intros q. rewrite <- Hr. destruct (decide (q = p)) as [->|]; [|split; auto].
    split; [auto|done].
  - unfold destruct_obj, deref_obj. rewrite E2, Eo, Ho. cbn [outcome_bind mbind]. rewrite (in_container _ _ Ho).
    unfold get_epoll. rewrite E1, Ee, andb_false_r. exact I.
Qed.

(** The ids of [ids] have left the map. *)
Definition cleared (ids : list Z) (m m' : gmap Z ptr) : Prop :=
  m' ⊆ m /\ forall id, id ∈ ids -> m' !! id = None.

Lemma cleared_cons id ids m m' m'' :
  m' = delete id m -> cleared ids m' m'' -> cleared (id :: ids) m m''.
Proof.
  intros -> [Hsub Hn]. split; [etrans; [done|apply delete_subseteq]|]. intros i [->|Hi]%elem_of_cons; [|auto].
  destruct (m'' !! id) eqn:E; [|done]. apply (lookup_weaken _ _ _ _ E) in Hsub. by rewrite lookup_delete_eq in Hsub.
Qed.

Lemma cleared_all m m' : cleared (map fst (in_order m)) m m' -> m' = ∅.
Proof.
  intros [Hsub Hn]. apply map_empty. intros id. destruct (m' !! id) as [p|] eqn:E; [|done]. rewrite <- E. apply Hn.
  apply list_elem_of_In, in_map_iff. exists (id, p). split; [done|]. apply list_elem_of_In. unfold in_order.
  rewrite merge_sort_Permutation. apply elem_of_map_to_list. by eapply lookup_weaken.
Qed.

Lemma erase_from_net_gone id s :
  epoll_gone objs s ->
  unless_undef (erase_from_net id s) (fun s' => epoll_gone objs s' /\ n_obj_net_map s' = delete id (n_obj_net_map s) /\
    n_obj_map s' = n_obj_map s /\ n_held s' = n_held s).
Proof.
  intros Hs. unfold erase_from_net. destruct (n_obj_net_map s !! id) as [p|] eqn:E.
  - eapply unless_undef_mono; [apply (release_gone p _ s Hs)|]; try done.
    + intros q. unfold referenced. cbn. intuition eauto using map_Exists_delete.
    + intros q Hne. unfold referenced. cbn. intuition eauto using map_Exists_delete_ne.
    + apply (eg_refs _ _ Hs). right. right. by exists id, p.
    + intros s' [Hs' ->]. by split.
  - split_and!; [done|by rewrite delete_id|done..].
Qed.

Lemma erase_from_obj_gone id s :
  epoll_gone objs s ->
  unless_undef (erase_from_obj id s) (fun s' => epoll_gone objs s' /\ n_obj_map s' = delete id (n_obj_map s) /\
    n_obj_net_map s' = n_obj_net_map s /\ n_held s' = n_held s).
Proof.
  intros Hs. unfold erase_from_obj. destruct (n_obj_map s !! id) as [p|] eqn:E.
  - eapply unless_undef_mono; [apply (release_gone p _ s Hs)|]; try done.
    + intros q. unfold referenced. cbn. intuition eauto using map_Exists_delete.
    + intros q Hne. unfold referenced. cbn. intuition eauto using map_Exists_delete_ne.
    + apply (eg_refs _ _ Hs). right. left. by exists id, p.
    + intros s' [Hs' ->]. by split.
  - split_and!; [done|by rewrite delete_id|done..].
Qed.

Lemma clear_net_map_gone es s :
  epoll_gone objs s ->
  unless_undef (clear_net_map es s) (fun s' => epoll_gone objs s' /\
    cleared (map fst es) (n_obj_net_map s) (n_obj_net_map s') /\ n_obj_map s' = n_obj_map s /\ n_held s' = n_held s).
Proof.
  revert s. induction es as [|[id q] es IH]; intros s Hs; cbn [clear_net_map].
  { split_and!; [done|split; [done|]|done..]. intros id Hid. by apply not_elem_of_nil in Hid. }
  eapply unless_undef_bind; [by apply erase_from_net_gone|]. intros s1 (Hs1 & En & Em & Eh).
  eapply unless_undef_mono; [by apply IH|]. intros s2 (H2 & Hc & Em2 & Eh2).
  split_and!; [done|by eapply cleared_cons|congruence..].
Qed.

Lemma clear_obj_map_gone es s :
  epoll_gone objs s ->
  unless_undef (clear_obj_map es s) (fun s' => epoll_gone objs s' /\
    cleared (map fst es) (n_obj_map s) (n_obj_map s') /\ n_obj_net_map s' = n_obj_net_map s /\ n_held s' = n_held s).
Proof.
  revert s. induction es as [|[id q] es IH]; intros s Hs; cbn [clear_obj_map].
  { split_and!; [done|split; [done|]|done..]. intros id Hid. by apply not_elem_of_nil in Hid. }
  eapply unless_undef_bind; [by apply erase_from_obj_gone|]. intros s1 (Hs1 & En & Em & Eh).
  eapply unless_undef_mono; [by apply IH|]. intros s2 (H2 & Hc & Em2 & Eh2).
  split_and!; [done|by eapply cleared_cons|congruence..].
Qed.

Lemma drops_gone ps s :
  epoll_gone objs s -> n_held s ≡ₚ ps ->
  unless_undef (drops ps s) (fun s' => epoll_gone objs s' /\ n_held s' = [] /\
    n_obj_map s' = n_obj_map s /\ n_obj_net_map s' = n_obj_net_map s).
Proof.
  revert s. induction ps as [|p ps IH]; intros s Hs Hh; cbn [drops].
  { split_and!; [done| |done..]. by apply Permutation_nil_r. }
  eapply unless_undef_bind.
  - eapply (release_gone p _ s Hs); try done.
    + intros q. unfold referenced. cbn. intros [Hq%elem_of_remove_one_weak|]; auto.
    + intros q Hne. unfold referenced. cbn. intros [Hq|]; [left; by apply elem_of_remove_one|auto].
    + apply (eg_refs _ _ Hs). left. rewrite Hh. left.
  - intros s1 [Hs1 ->]. eapply unless_undef_mono; [apply IH; [done|by apply remove_one_perm]|].
    intros s2 (H2 & Eh & Em & En). by split_and!.
Qed.
End Deletion.

(** Deleting a thread is undefined behaviour: [~common_obj_container] deletes
    the [common_epoll] before the objects go, which ask it, through a container
    that is itself deleted when the channel of the thread goes, to forget them. *)
Theorem delete_thread_undefined {K} `{EpollKernel K} (s : net K) members :
  net_inv s -> n_held s ≡ₚ members -> members <> [] -> delete_thread members s = Undef.
Proof.
  intros Hi Hh Hne. unfold delete_thread, delete_container. set (s0 := s <| n_epoll := false |>).
  assert (H0 : epoll_gone (n_objs s) s0) by (split; [done..|apply (inv_refs _ Hi)]).
  assert (Hc := inv_container _ Hi).
  enough (unless_undef (s1 ← clear_net_map (in_order (n_obj_net_map s0)) s0;
    s2 ← clear_obj_map (in_order (n_obj_map s1)) s1; drops members (s2 <| n_container := false |>)) (fun _ => False)) as Hu.
  { revert Hu. destruct (clear_net_map _ s0) as [s1| | |]; cbn; try done.
    destruct (clear_obj_map _ s1) as [s2| | |]; cbn; try done. by destruct (drops members _). }
  eapply unless_undef_bind; [by apply (clear_net_map_gone _ Hc)|]. intros s1 (H1 & Hc1%cleared_all & Em1 & Eh1).
  eapply unless_undef_bind; [by apply (clear_obj_map_gone _ Hc)|]. intros s2 (H2 & Hc2%cleared_all & En2 & Eh2).
  eapply unless_undef_mono; [apply (drops_gone _ Hc)|].
  - split; [apply H2..|]. apply (eg_refs _ _ H2).
  - change (n_held s2 ≡ₚ members). rewrite Eh2, Eh1. done.
  - intros s3 (H3 & Eh & Em & En). destruct members as [|p members]; [done|].
    assert (Hp : referenced p s3).
    { apply (eg_refs _ _ H3), (inv_refs _ Hi). left. rewrite Hh. left. }
    change (n_obj_map s3 = n_obj_map s2) in Em. change (n_obj_net_map s3 = n_obj_net_map s2) in En.
    unfold referenced in Hp. rewrite Eh, Em, En, Hc2, En2, Hc1 in Hp.
    destruct Hp as [Hp|[(? & ? & ? & _)|(? & ? & ? & _)]]; [by apply not_elem_of_nil in Hp|done|done].
Qed.

(** ** The connections of an HTTP thread

    [HttpThread.handle_connect] is this code without the memory, with the answer
    of the kernel as an argument: the ids and the timers are the same. *)
Section Refinement.
Context {K V W : Type} `{EpollKernel K} `{Json.Json V} `{UrlHandlers.PdefFiles W}.

Record same_ids (s : net K) (t : http_thread (W := W)) : Prop := {
  si_objs : dom (th_objs t) = dom (n_obj_map s);
  si_id : th_id t = obj_id (n_id_str s);
  si_index : th_index t = obj_thread_index (n_id_str s);
}.

Lemma gen_id_str_dom {A B} fuel (m1 : gmap Z A) (m2 : gmap Z B) id :
  dom m1 = dom m2 -> gen_id_str fuel m1 id = gen_id_str fuel m2 id.
Proof.
  intros E. revert id. induction fuel as [|fuel IH]; intros id; [done|]. cbn [gen_id_str]. cbv zeta. rewrite IH.
  assert (Hd : next_id id ∈ dom m1 <-> next_id id ∈ dom m2) by by rewrite E. rewrite !elem_of_dom in Hd.
  destruct (m1 !! next_id id), (m2 !! next_id id); try done; destruct Hd as [Hd1 Hd2];
    [by destruct Hd1 as [? ?]|by destruct Hd2 as [? ?]].
Qed.

Theorem connect_socket_refines (s : net K) (t : http_thread (W := W)) now fd epoll_ok k1 l t' :
  net_inv s -> same_ids s t -> 0 < fd ->
  (if epoll_ok : bool then ctl_add fd 25 (fresh (dom (n_objs s))) (n_kernel s) = (None, k1)
   else exists e r k2, ctl_add fd 25 (fresh (dom (n_objs s))) (n_kernel s) = (Some e, k1) /\ e <> EEXIST /\
     ctl_del fd k1 = (Some r, k2) /\ (r = ENOENT \/ r = EBADF)) ->
  HttpThread.handle_connect now fd epoll_ok t = Some (l, t') ->
  exists a s' added, connect_socket now fd s = Done (a, s') /\
    add_timers a (th_timers t) = Some (added, th_timers t') /\ same_ids s' t'.
Proof.
  intros Hi [So Sid Sx] Hfd Hk E. destruct (inv_alive _ Hi) as [Ec Ee].
  unfold HttpThread.handle_connect in E. rewrite (proj2 (Z.ltb_lt 0 fd) Hfd) in E. destruct epoll_ok; cbn [andb negb] in E.
  - apply bind_Some in E as ([id t1] & E1 & E). unfold insert_obj in E1. apply bind_Some in E1 as (id' & Hid & [= <- <-]).
    apply bind_Some in E as (t2 & E2 & [= _ <-]). unfold arm in E2. apply bind_Some in E2 as ([r T] & E2 & [= <-]).
    assert (Es : size (th_objs t) = size (n_obj_map s)) by by rewrite <- !size_dom, So.
    rewrite Es, Sid, (gen_id_str_dom _ _ _ _ So) in Hid.
    eexists _, _, _. split; [by eapply connect_accepted|]. split.
    + change (add_timer now (mkTimer id' NONE_DATA_TIMER_TYPE 0 CONNECT_TIMEOUT) (th_timers t) = Some (r, T)) in E2.
      cbn [add_timers]. by rewrite E2.
    + split; [|done|done]. change (dom (<[id' := Conn (new_connection (mkObjId id' (th_index t)))]> (th_objs t)) =
        dom (<[id' := fresh (dom (n_objs s))]> (n_obj_map s))). by rewrite !dom_insert_L, So.
  - destruct Hk as (e & r & k2 & Hadd & He & Hdel & Hr). apply bind_Some in E as (t1 & E1 & [= _ <-]).
    unfold arm in E1. apply bind_Some in E1 as ([r' T] & E1 & [= <-]).
    eexists _, _, _. split; [eapply connect_refused; try done|].
    + by apply not_elem_of_dom, is_fresh.
    + rewrite (inv_refs _ Hi), <- elem_of_dom. apply is_fresh.
    + split; [|by split]. cbn [add_timers]. by rewrite E1.
Qed.
End Refinement.

(** ** A kernel

    Descriptors in [sk_refused] are refused (ENOSPC); [sk_ready] is, for every
    call of [epoll_wait], the descriptors with events. *)
Record sim_kernel := mkSimKernel {
  sk_interest : gmap Z (Z * ptr);
  sk_refused : gset Z;
  sk_ready : list (list (Z * Z));
}.

Definition EINVAL : Z := 22.
Definition ENOSPC : Z := 28.

Definition sim_add (fd ev : Z) (p : ptr) (k : sim_kernel) : option Z * sim_kernel :=
  match sk_interest k !! fd with
  | Some _ => (Some EEXIST, k)
  | None => if decide (fd ∈ sk_refused k) then (Some ENOSPC, k) else (None, k <| sk_interest ::= <[fd := (ev, p)]> |>)
  end.

Definition sim_mod (fd ev : Z) (p : ptr) (k : sim_kernel) : option Z * sim_kernel :=
  match sk_interest k !! fd with
  | Some _ => (None, k <| sk_interest ::= <[fd := (ev, p)]> |>)
  | None => (Some ENOENT, k)
  end.

Definition sim_del (fd : Z) (k : sim_kernel) : option Z * sim_kernel :=
  match sk_interest k !! fd with
  | Some _ => (None, k <| sk_interest ::= delete fd |>)
  | None => (Some ENOENT, k)
  end.

(** The events of the descriptors that are registered, as many as fit. *)
Definition sim_wait (n : Z) (k : sim_kernel) : (Z + list (Z * ptr)) * sim_kernel :=
  if n <=? 0 then (inl EINVAL, k) else
  match sk_ready k with
  | [] => (inl EINTR, k)
  | ready :: rest =>
      (inr (firstn (Z.to_nat n) (omap (fun e => '(_, p) ← sk_interest k !! fst e; Some (snd e, p)) ready)),
       k <| sk_ready := rest |>)
  end.

#[export, refine] Instance SimKernel : EpollKernel sim_kernel := {
  interest := sk_interest;
  ctl_add := sim_add;
  ctl_mod := sim_mod;
  ctl_del := sim_del;
  close_fd fd k := k <| sk_interest ::= delete fd |>;
  wait := sim_wait;
}.
Proof.
  - intros fd ev p k. unfold sim_add. destruct (sk_interest k !! fd) eqn:E; [split; [by eexists|done]|].
    destruct (decide _); by split.
  - intros fd ev p k. unfold sim_mod. destruct (sk_interest k !! fd) eqn:E; (split; [by eexists || done|done]).
  - intros fd k. unfold sim_del. destruct (sk_interest k !! fd) eqn:E; (split; [by eexists || done|done]).
  - done.
  - intros n k. unfold sim_wait. destruct (Z.leb_spec n 0); [done|]. destruct (sk_ready k) as [|ready rest]; [done|].
    split; [done|]. cbn [fst]. split; [rewrite length_firstn; lia|]. intros ev p (i & Hp & _)%elem_of_take.
    apply list_elem_of_lookup_2 in Hp.
    apply list_elem_of_omap in Hp as ([fd ev'] & _ & ([ev0 p'] & E & [= <- <-])%bind_Some). eauto.
Defined.

(** ** A run

    A channel on descriptor 5; in the first turn the sockets 7 and 8 arrive, of
    which epoll refuses 8, and 7 is readable; in the second 7 has hung up. *)
Definition demo_handlers : handlers sim_kernel :=
  mkHandlers (fun _ _ event => ([NoticeSend Self], negb (Z.land event EPOLLHUP =? 0)))
             (fun _ _ => ([], false)) (fun _ _ _ => (false, [], true)).

Definition demo_kernel : sim_kernel := mkSimKernel ∅ {[8]} [[(7, EPOLLIN)]; [(7, Z.lor EPOLLIN EPOLLHUP)]].

Definition demo_turns : list (list action * Z) := [([Connected 0 7; Connected 0 8], 10); ([], 20)].

(** The ids in the map, the descriptors registered with their events, and how
    many objects there are. *)
Definition demo_view (r : outcome (list ptr * state sim_kernel)) : option (list Z * list (Z * Z) * nat) :=
  match r with
  | Done (_, (s, _)) =>
      Some (map fst (in_order (n_obj_map s)), map (fun e => (fst e, fst (snd e))) (map_to_list (sk_interest (n_kernel s))),
            size (n_objs s))
  | _ => None
  end.

Example demo_first_turn :
  demo_view (net_thread demo_handlers 1 [(0, 5)] (firstn 1 demo_turns) (inr demo_kernel)) = Some ([1001; 1002], [(7, 29); (5, 25)], 2%nat).
Proof. vm_compute. reflexivity. Qed.

Example demo_second_turn :
  demo_view (net_thread demo_handlers 1 [(0, 5)] demo_turns (inr demo_kernel)) = Some ([1001], [(5, 25)], 1%nat).
Proof. vm_compute. reflexivity. Qed.

Lemma epoll_addresses_live_witness :
  (forall k, @inr Z _ demo_kernel = inr k -> interest k = ∅) /\
  safe (net_thread demo_handlers 1 [(0, 5)] demo_turns (inr demo_kernel)) (fun '(ps, (s, _)) => net_inv s /\ n_held s ≡ₚ ps).
Proof.
  assert (Hk : forall k, @inr Z _ demo_kernel = inr k -> interest k = ∅) by (intros k [= <-]; reflexivity).
  split; [exact Hk|]. exact (epoll_addresses_live demo_handlers 1 [(0, 5)] demo_turns (inr demo_kernel) Hk).
Defined.

Lemma refused_socket_closed_witness :
  let s := empty_container 1 1000 demo_kernel in
  net_inv s /\ sim_add 8 25 (fresh (dom (n_objs s))) demo_kernel = (Some ENOSPC, demo_kernel) /\
  exists l, connect_socket 0 8 s = Done (l, s <| n_kernel := close_fd 8 demo_kernel |>) /\
    add_timers l new_base_timer = Some ([], new_base_timer) /\ interest (close_fd 8 demo_kernel) = interest demo_kernel.
Proof.
  assert (Hi : net_inv (empty_container 1 1000 demo_kernel)) by (apply (empty_container_ok 1 1000); reflexivity).
  split; [exact Hi|]. split; [reflexivity|].
  apply (refused_socket_closed 0 8 (empty_container 1 1000 demo_kernel) new_base_timer ENOSPC ENOENT demo_kernel demo_kernel);
    [exact Hi|lia|reflexivity|discriminate|reflexivity|by left].
Defined.

(** The thread of the run, deleted. *)
Example demo_deleted :
  match net_thread demo_handlers 1 [(0, 5)] demo_turns (inr demo_kernel) with
  | Done (ps, (s, _)) => match delete_thread ps s with Undef => true | _ => false end
  | _ => false
  end = true.
Proof. vm_compute. reflexivity. Qed.
