(* ===== verification/Compress.v ===== *)
(** * Compression of one file (src/src/rxcleanupthread.cpp, [compress_file])

    The way a capture's own settings ask for compression: a command of the
    policy, or [tar] into the archive directory.  Nothing calls it, the thread
    archives in batches ([Cleanup]); it is the only reader of
    [compress_enabled], [compress_format], [compress_threshold_mb] and
    [compress_remove_src]. *)

From S2P Require Import Prelude CppString TaskTypes Messages CaptureUtil Cleanup CleanupCorrect.

Section Compress.
Context `{Files W}.

(** [should_compress_size]; [compress_threshold_bytes_] is zero. *)
Definition should_compress_size (file_size policy_threshold_mb : Z) : bool :=
  let effective := if 0 <? policy_threshold_mb then u64 (policy_threshold_mb * 1024 * 1024) else 0 in
  (effective =? 0) || (effective <=? file_size).

(** The name of the archive of one file. *)
Definition single_archive_path (e : batch_clock) (c : CRxCleanupThread) (pending : PendingFile) : string :=
  with_slash (cc_archive_dir (cu_config c)) +:+ "capture_" +:+ timestamp_suffix (bk_named e) +:+ "_" +:+
    fmt_d (pf_capture_id pending) +:+ "_" +:+ fmt_d (cf_segment_index (pf_file pending)) +:+ ".tgz".

(** The command to run with the path of its archive (empty for a command of the
    policy), or the error. *)
Definition compress_command (e : batch_clock) (c : CRxCleanupThread) (pending : PendingFile) (w : W)
    : (string + string * string) * W :=
  let src := cf_file_path (pf_file pending) in
  let format := cs_compress_format (pf_policy pending) in
  if negb (is_empty format) then (inr (format +:+ " " +:+ quoted_path src, ""), w)
  else
    match ensure_directory (cc_archive_dir (cu_config c)) w with
    | (false, w) => (inl "archive_dir_unavailable", w)
    | (true, w) =>
        let path := single_archive_path e c pending in
        (inr ("tar -czf " +:+ quoted_path path +:+ " " +:+ quoted_path src, path), w)
    end.

(** What the command has made: its path and its size. *)
Definition produced (pending : PendingFile) (archive_path : string) (w : W) : string * Z :=
  let src := cf_file_path (pf_file pending) in
  if negb (is_empty (cs_compress_format (pf_policy pending))) then
    match fs_stat src w with
    | Some after => (src, sf_size after)
    | None =>
        let gz := src +:+ ".gz" in
        match fs_stat gz w with Some after => (gz, sf_size after) | None => (src, 0) end
    end
  else (archive_path, size_of archive_path w).

(** The end of it: the source may go, the archive is described. *)
Definition finish_compress (e : batch_clock) (c : CRxCleanupThread) (pending : PendingFile) (archive_path : string) (w : W)
    : CaptureArchiveInfo * W :=
  let src := cf_file_path (pf_file pending) in
  let '(produced_path, archive_size) := produced pending archive_path w in
  let w :=
    if cc_archive_remove_source (cu_config c) || cs_compress_remove_src (pf_policy pending) then
      match fs_stat src w with Some _ => remove_file src w | None => w end
    else w in
  let path := if is_empty produced_path then src else produced_path in
  (mkArchiveInfo path [compressed_file path (bk_done e) (pf_file pending)] archive_size (bk_done e), w).

(** [compress_file]: an error, or success with the archive when there is one. *)
Definition compress_file (e : batch_clock) (c : CRxCleanupThread) (pending : PendingFile) (w : W)
    : (string + option CaptureArchiveInfo) * W :=
  match fs_stat (cf_file_path (pf_file pending)) w with
  | None => (inl "file_not_found", w)
  | Some st =>
      if negb (cs_compress_enabled (pf_policy pending)) then (inr None, w)
      else if negb (should_compress_size (sf_size st) (cs_compress_threshold_mb (pf_policy pending))) then (inr None, w)
      else
        match compress_command e c pending w with
        | (inl error, w) => (inl error, w)
        | (inr (command, archive_path), w) =>
            let '(rc, w) := fs_system command w in
            if negb (rc =? 0) then (inl "compress_failed", w)
            else let '(archive, w) := finish_compress e c pending archive_path w in (inr (Some archive), w)
        end
  end.

(** What the program itself has done to the files when no archive came of it:
    nothing, or it has made the directory of the archives, or the command has
    run and failed; the source is never removed. *)
Inductive left_alone (e : batch_clock) (c : CRxCleanupThread) (pending : PendingFile) (w : W)
    : string + option CaptureArchiveInfo -> W -> Prop :=
  | not_found : fs_stat (cf_file_path (pf_file pending)) w = None -> left_alone e c pending w (inl "file_not_found") w
  | not_wanted : left_alone e c pending w (inr None) w
  | no_directory w' :
      ensure_directory (cc_archive_dir (cu_config c)) w = (false, w') ->
      left_alone e c pending w (inl "archive_dir_unavailable") w'
  | command_failed command path w1 rc w2 :
      compress_command e c pending w = (inr (command, path), w1) -> fs_system command w1 = (rc, w2) -> rc <> 0 ->
      left_alone e c pending w (inl "compress_failed") w2.

(** A file that is not compressed is left alone; one that is compressed is one
    whose command reported success, and only then may it be removed. *)
Theorem compress_file_outcomes e c pending w r w' :
  compress_file e c pending w = (r, w') ->
  match r with
  | inr (Some archive) =>
      exists command path w1 w2,
        compress_command e c pending w = (inr (command, path), w1) /\ fs_system command w1 = (0, w2) /\
        finish_compress e c pending path w2 = (archive, w') /\
        exists path', ca_files archive = [compressed_file path' (bk_done e) (pf_file pending)] /\ ca_archive_path archive = path'
  | _ => left_alone e c pending w r w'
  end.
Proof.
  unfold compress_file. destruct (fs_stat _ w) as [st|] eqn:Es; [|intros [= <- <-]; by constructor].
  destruct (negb (cs_compress_enabled _)); [intros [= <- <-]; constructor|].
  destruct (negb (should_compress_size _ _)); [intros [= <- <-]; constructor|].
  destruct (compress_command e c pending w) as [[error|[command path]] w1] eqn:Ec.
  - intros [= <- <-]. unfold compress_command in Ec. destruct (negb (is_empty _)); [done|].
    destruct (ensure_directory _ w) as [[|] w2] eqn:Ed; [done|]. injection Ec as <- <-. by constructor.
  - destruct (fs_system command w1) as [rc w2] eqn:Ef. destruct (Z.eqb_spec rc 0) as [->|Hne]; cbn [negb].
    + destruct (finish_compress e c pending path w2) as [archive w3] eqn:Ea. intros [= <- <-].
      exists command, path, w1, w2. split_and!; [done..|]. unfold finish_compress in Ea.
      destruct (produced pending path w2) as [p size]. injection Ea as <- _. by eexists.
    + intros [= <- <-]. by eapply command_failed.
Qed.

(** Success is the word of the command: when it made nothing, the archive that
    is reported is the missing one, with the size 0. *)
Lemma nothing_produced e c pending w path :
  cs_compress_format (pf_policy pending) = "" -> fs_stat path w = None -> path <> "" ->
  ca_archive_path (fst (finish_compress e c pending path w)) = path /\ ca_archive_size (fst (finish_compress e c pending path w)) = 0.
Proof.
  intros Hf Hs Hp. unfold finish_compress, produced, size_of. rewrite Hf, Hs. cbn [is_empty negb].
  destruct path; [done|]. by split.
Qed.
End Compress.

(** ** A file below the threshold, and one above it *)

Definition demo_policy (threshold_mb : Z) : CaptureConfigSnapshot :=
  new_snapshot <| cs_compress_enabled := true |> <| cs_compress_threshold_mb := threshold_mb |>.

Definition demo_outcome (threshold_mb : Z) : option string * option Z :=
  let '(r, w) := compress_file demo_batch_clock new_cleanup ((demo_pending 1000 "c/x.pcap") <| pf_policy := demo_policy threshold_mb |>)
      ({["c/x.pcap" := archive_file (2 * 1024 * 1024) 0 1]} : mem_files) in
  (match r with inr (Some a) => Some (ca_archive_path a) | _ => None end, sf_size <$> fs_stat "c/x.pcap" w).

Example demo_below : demo_outcome 3 = (None, Some (2 * 1024 * 1024)).
Proof. vm_compute. reflexivity. Qed.

Example demo_above : exists path, demo_outcome 2 = (Some path, None).
Proof. eexists. vm_compute. reflexivity. Qed.
