(* ===== verification/ProtocolMemory.v ===== *)
(** * The memory of a protocol definition (src/src/runtime/protocol.c, [protocol_free])

    A parsed definition is a tree of allocations: the ports, the structs with
    the fields of each, the rules with the bytecode of each, a linked list of
    constants, and the definition itself.  [protocol_free] walks it over an
    explicit heap, in which reading or freeing what is not allocated is
    undefined behaviour. *)

From S2P Require Import Prelude TaskTypes.

Abbreviation addr := positive.

(** [ProtocolDef], as far as its pointers go. *)
Record proto_block := mkProtoBlock {
  pb_ports : option addr;
  pb_structs : option addr;
  pb_struct_count : nat;
  pb_filters : option addr;
  pb_filter_count : nat;
  pb_constants : option addr;
}.

(** What an allocation holds: the pointers [fields] of an array of structs, the
    pointers [bytecode] and [bytecode_le] of an array of rules, the pointer
    [next] of a constant. *)
Inductive block :=
  | Proto (d : proto_block)
  | Structs (fields : list (option addr))
  | Filters (codes : list (option addr * option addr))
  | Constant (next : option addr)
  | Bytes.

Abbreviation heap := (gmap addr block).

(** [free], of a pointer that is not null. *)
Definition free (p : addr) (h : heap) : outcome heap :=
  match h !! p with Some _ => Done (delete p h) | None => Undef end.

(** [if (p) free(p)] *)
Definition free_opt (p : option addr) (h : heap) : outcome heap :=
  match p with Some p => free p h | None => Done h end.

(** The loop over the structs; [n] of them are left, the next is [i]. *)
Fixpoint free_fields (structs : addr) (n i : nat) (h : heap) : outcome heap :=
  match n with
  | O => Done h
  | S n =>
      match h !! structs with
      | Some (Structs l) =>
          match l !! i with
          | Some fields => h ← free_opt fields h; free_fields structs n (S i) h
          | None => Undef
          end
      | _ => Undef
      end
  end.

(** The loop over the rules. *)
Fixpoint free_codes (filters : addr) (n i : nat) (h : heap) : outcome heap :=
  match n with
  | O => Done h
  | S n =>
      match h !! filters with
      | Some (Filters l) =>
          match l !! i with
          | Some (bytecode, bytecode_le) =>
              h ← free_opt bytecode h;
              match h !! filters with
              | Some (Filters _) => h ← free_opt bytecode_le h; free_codes filters n (S i) h
              | _ => Undef
              end
          | None => Undef
          end
      | _ => Undef
      end
  end.

(** The loop over the constants. *)
Fixpoint free_constants (fuel : nat) (entry : option addr) (h : heap) : outcome heap :=
  match entry with
  | None => Done h
  | Some e =>
      match fuel with
      | O => NoFuel
      | S fuel =>
          match h !! e with
          | Some (Constant next) => h ← free e h; free_constants fuel next h
          | _ => Undef
          end
      end
  end.

(** [proto->...]: every access reads the definition again. *)
Definition read_proto (proto : addr) (h : heap) : outcome proto_block :=
  match h !! proto with Some (Proto d) => Done d | _ => Undef end.

Definition protocol_free (proto : option addr) (h : heap) : outcome heap :=
  match proto with
  | None => Done h
  | Some proto =>
      d ← read_proto proto h;
      h ← free_opt (pb_ports d) h;
      d ← read_proto proto h;
      h ← (match pb_structs d with
           | Some structs => h ← free_fields structs (pb_struct_count d) 0 h; free structs h
           | None => Done h
           end);
      d ← read_proto proto h;
      h ← (match pb_filters d with
           | Some filters => h ← free_codes filters (pb_filter_count d) 0 h; free filters h
           | None => Done h
           end);
      d ← read_proto proto h;
      h ← free_constants (S (size h)) (pb_constants d) h;
      free proto h
  end.

(** ** Ownership *)

Definition of_opt (p : option addr) : list addr := match p with Some p => [p] | None => [] end.

(** The nodes of a list of constants. *)
Inductive chain (h : heap) : option addr -> list addr -> Prop :=
  | chain_nil : chain h None []
  | chain_cons e next l : h !! e = Some (Constant next) -> chain h next l -> chain h (Some e) (e :: l).

(** The structs of a definition with what they own. *)
Inductive owns_structs (h : heap) : option addr -> nat -> list addr -> Prop :=
  | no_structs n : owns_structs h None n []
  | some_structs a l n :
      h !! a = Some (Structs l) -> (n <= length l)%nat ->
      owns_structs h (Some a) n ((take n l ≫= of_opt) ++ [a]).

Inductive owns_filters (h : heap) : option addr -> nat -> list addr -> Prop :=
  | no_filters n : owns_filters h None n []
  | some_filters a l n :
      h !! a = Some (Filters l) -> (n <= length l)%nat ->
      owns_filters h (Some a) n ((take n l ≫= fun c => of_opt (fst c) ++ of_opt (snd c)) ++ [a]).

(** A definition owns the allocations it reaches, each by one pointer. *)
Inductive owns (h : heap) (proto : addr) : list addr -> Prop :=
  | owns_proto d structs filters constants :
      h !! proto = Some (Proto d) ->
      owns_structs h (pb_structs d) (pb_struct_count d) structs ->
      owns_filters h (pb_filters d) (pb_filter_count d) filters ->
      chain h (pb_constants d) constants ->
      owns h proto (of_opt (pb_ports d) ++ structs ++ filters ++ constants ++ [proto]).

(** [l] freed. *)
Definition without (l : list addr) (h : heap) : heap := filter (fun x => fst x ∉ l) h.

Lemma without_nil h : without [] h = h.
Proof. apply map_filter_id. intros i x _. apply not_elem_of_nil. Qed.

Lemma without_lookup l h a : a ∉ l -> without l h !! a = h !! a.
Proof.
  intros Ha. unfold without. rewrite map_lookup_filter. destruct (h !! a); [|done]. cbn.
  by case_guard.
Qed.

Lemma without_lookup_None l h a : a ∈ l -> without l h !! a = None.
Proof. intros Ha. apply map_lookup_filter_None. right. intros b _. cbn. auto. Qed.

Lemma delete_without l h a : delete a (without l h) = without (l ++ [a]) h.
Proof.
  apply map_eq. intros i. destruct (decide (i = a)) as [->|].
  - rewrite lookup_delete_eq, without_lookup_None; [done|]. apply elem_of_app. right. left.
  - rewrite lookup_delete_ne by done. destruct (decide (i ∈ l)).
    + rewrite !without_lookup_None; [done|by apply elem_of_app; left|done].
    + rewrite !without_lookup; [done|set_solver|done].
Qed.

(** Freeing what is allocated and not among the freed. *)
Lemma free_without l h a : is_Some (h !! a) -> a ∉ l -> free a (without l h) = Done (without (l ++ [a]) h).
Proof. intros [b Hb] Ha. unfold free. by rewrite without_lookup, Hb, delete_without. Qed.

Lemma free_opt_without l h p :
  (forall a, a ∈ of_opt p -> is_Some (h !! a) /\ a ∉ l) -> free_opt p (without l h) = Done (without (l ++ of_opt p) h).
Proof.
  intros Hp. destruct p as [a|]; cbn; [|by rewrite app_nil_r]. destruct (Hp a); [left|]. by apply free_without.
Qed.

Lemma free_fields_without a l n i pre h :
  h !! a = Some (Structs l) -> (i + n <= length l)%nat ->
  let fs := take n (drop i l) ≫= of_opt in
  (forall x, x ∈ fs -> is_Some (h !! x)) -> NoDup (pre ++ fs) -> a ∉ pre ++ fs ->
  free_fields a n i (without pre h) = Done (without (pre ++ fs) h).
Proof.
  intros Ha. revert i pre. induction n as [|n IH]; intros i pre Hn fs Hl Hd Hni; subst fs.
  { cbn. by rewrite app_nil_r. }
  destruct (lookup_lt_is_Some_2 l i) as [f Hf]; [lia|].
  rewrite (drop_S _ _ _ Hf) in *. cbn [take mbind list_bind] in *.
  cbn [free_fields]. rewrite without_lookup by set_solver. rewrite Ha, Hf.
  rewrite (free_opt_without pre h f).
  - cbn [mbind outcome_bind]. rewrite (assoc_L (++)) in *. apply IH; [lia| |done|done]. intros x Hx. apply Hl. set_solver.
  - intros x Hx. split; [apply Hl; set_solver|]. intros Hp. apply NoDup_app in Hd as (_ & Hd & _). apply (Hd x Hp). set_solver.
Qed.

Lemma free_codes_without a l n i pre h :
  h !! a = Some (Filters l) -> (i + n <= length l)%nat ->
  let cs := take n (drop i l) ≫= fun c => of_opt (fst c) ++ of_opt (snd c) in
  (forall x, x ∈ cs -> is_Some (h !! x)) -> NoDup (pre ++ cs) -> a ∉ pre ++ cs ->
  free_codes a n i (without pre h) = Done (without (pre ++ cs) h).
Proof.
  intros Ha. revert i pre. induction n as [|n IH]; intros i pre Hn cs Hl Hd Hni; subst cs.
  { cbn. by rewrite app_nil_r. }
  destruct (lookup_lt_is_Some_2 l i) as [[c1 c2] Hf]; [lia|].
  rewrite (drop_S _ _ _ Hf) in *. cbn [take mbind list_bind fst snd] in *. rewrite <- (assoc_L (++)) in *.
  cbn [free_codes]. rewrite without_lookup by set_solver. rewrite Ha, Hf.
  rewrite (free_opt_without pre h c1).
  2: { intros x Hx. split; [apply Hl; set_solver|]. intros Hp. apply NoDup_app in Hd as (_ & Hd & _). apply (Hd x Hp). set_solver. }
  cbn [mbind outcome_bind]. rewrite without_lookup by set_solver. rewrite Ha, (assoc_L (++)) in *.
  rewrite (free_opt_without (pre ++ of_opt c1) h c2).
  - cbn [mbind outcome_bind]. rewrite (assoc_L (++)) in *. apply IH; [lia| |done|done]. intros x Hx. apply Hl. set_solver.
  - intros x Hx. split; [apply Hl; set_solver|]. intros Hp. apply NoDup_app in Hd as (_ & Hd & _). apply (Hd x Hp). set_solver.
Qed.

Lemma free_constants_without fuel entry cs pre h :
  chain h entry cs -> (length cs <= fuel)%nat -> NoDup (pre ++ cs) ->
  free_constants fuel entry (without pre h) = Done (without (pre ++ cs) h).
Proof.
  intros Hc. revert fuel pre. induction Hc as [|e next cs He Hc IH]; intros fuel pre Hf Hd.
  { destruct fuel; cbn; by rewrite app_nil_r. }
  destruct fuel as [|fuel]; [cbn in Hf; lia|]. cbn [free_constants].
  assert (Hni : e ∉ pre) by (apply NoDup_app in Hd as (_ & Hd & _); intros Hp; apply (Hd e Hp); left).
  rewrite without_lookup, He, free_without by eauto. cbn [mbind outcome_bind].
  rewrite (IH fuel (pre ++ [e])); [by rewrite <- (assoc_L (++))|cbn in Hf; lia|by rewrite <- (assoc_L (++))].
Qed.

(** A chain is not longer than the heap. *)
Lemma chain_size h entry cs pre : chain h entry cs -> NoDup (pre ++ cs) -> (length cs <= size (without pre h))%nat.
Proof.
  intros Hc (_ & Hd & Hn)%NoDup_app. rewrite <- (size_list_to_set (C := gset addr)), <- size_dom by done.
  apply subseteq_size. intros x Hx%elem_of_list_to_set. apply elem_of_dom. rewrite without_lookup; [|intros Hp; by apply (Hd x)].
  clear Hd Hn. induction Hc as [|e next cs He Hc IH]; [set_solver|]. apply elem_of_cons in Hx as [->|Hx]; eauto.
Qed.

Lemma structs_without h p n ss pre :
  owns_structs h p n ss -> (forall a, a ∈ ss -> is_Some (h !! a)) -> NoDup (pre ++ ss) ->
  (match p with Some structs => h' ← free_fields structs n 0 (without pre h); free structs h' | None => Done (without pre h) end) =
    Done (without (pre ++ ss) h).
Proof.
  intros Ho Hl Hd. destruct Ho as [n|a l n Ha Hn]; [by rewrite app_nil_r|]. rewrite (assoc_L (++)) in Hd.
  assert (Hni : a ∉ pre ++ (take n l ≫= of_opt)) by (apply NoDup_app in Hd as (_ & Hd & _); intros Hi; apply (Hd a Hi); left).
  rewrite (free_fields_without a l n 0 pre h Ha); [| |intros; apply Hl, elem_of_app; by left|exact (proj1 (proj1 (NoDup_app _ _) Hd))|done]; [|lia].
  cbn [mbind outcome_bind drop]. rewrite free_without by eauto. by rewrite <- (assoc_L (++)).
Qed.

Lemma filters_without h p n fs pre :
  owns_filters h p n fs -> (forall a, a ∈ fs -> is_Some (h !! a)) -> NoDup (pre ++ fs) ->
  (match p with Some filters => h' ← free_codes filters n 0 (without pre h); free filters h' | None => Done (without pre h) end) =
    Done (without (pre ++ fs) h).
Proof.
  intros Ho Hl Hd. destruct Ho as [n|a l n Ha Hn]; [by rewrite app_nil_r|]. rewrite (assoc_L (++)) in Hd.
  set (cs := take n l ≫= _) in *.
  assert (Hni : a ∉ pre ++ cs) by (apply NoDup_app in Hd as (_ & Hd & _); intros Hi; apply (Hd a Hi); left).
  rewrite (free_codes_without a l n 0 pre h Ha); [| |intros; apply Hl, elem_of_app; by left|exact (proj1 (proj1 (NoDup_app _ _) Hd))|done]; [|lia].
  cbn [mbind outcome_bind drop]. rewrite free_without by eauto. by rewrite <- (assoc_L (++)).
Qed.

(** [protocol_free] frees everything a definition owns, once, and nothing else:
    it is never stopped by the heap, and whatever the list of constants it
    ends. *)
Theorem protocol_free_exact h proto l :
  owns h proto l -> NoDup l -> (forall a, a ∈ l -> is_Some (h !! a)) ->
  protocol_free (Some proto) h = Done (without l h).
Proof.
  intros [d structs filters constants Hp Hs Hf Hc] Hd Hl.
  assert (Hr : forall pre, proto ∉ pre -> read_proto proto (without pre h) = Done d)
    by (intros pre Hni; unfold read_proto; by rewrite without_lookup, Hp).
  rewrite !(assoc_L (++)) in Hd. set (l1 := of_opt (pb_ports d)) in *.
  assert (D4 := proj1 (proj1 (NoDup_app _ _) Hd)). assert (D3 := proj1 (proj1 (NoDup_app _ _) D4)).
  assert (D2 := proj1 (proj1 (NoDup_app _ _) D3)).
  assert (Hni : proto ∉ ((l1 ++ structs) ++ filters) ++ constants)
    by (intros Hi; apply (proj1 (proj2 (proj1 (NoDup_app _ _) Hd)) proto Hi); left).
  assert (R0 : read_proto proto h = Done d) by (unfold read_proto; by rewrite Hp).
  unfold protocol_free. rewrite R0. cbn [mbind outcome_bind].
  assert (E1 : free_opt (pb_ports d) h = Done (without l1 h)).
  { rewrite <- (without_nil h) at 1. rewrite free_opt_without; [done|]. intros a Ha. split; [apply Hl; set_solver|apply not_elem_of_nil]. }
  rewrite E1. cbn [mbind outcome_bind]. rewrite Hr by set_solver. cbn [mbind outcome_bind].
  rewrite (structs_without h _ _ _ l1 Hs) by (done || (intros; apply Hl; set_solver)).
  cbn [mbind outcome_bind]. rewrite Hr by set_solver. cbn [mbind outcome_bind].
  rewrite (filters_without h _ _ _ _ Hf) by (done || (intros; apply Hl; set_solver)).
  cbn [mbind outcome_bind]. rewrite Hr by set_solver. cbn [mbind outcome_bind].
  rewrite (free_constants_without _ _ _ _ h Hc) by (done || (eapply Nat.le_trans; [by eapply chain_size|lia])).
  cbn [mbind outcome_bind]. rewrite free_without by (done || eauto). f_equal. by rewrite !(assoc_L (++)).
Qed.

(** A second call reads what the first has freed. *)
Lemma protocol_free_twice h proto l :
  owns h proto l -> protocol_free (Some proto) (without l h) = Undef.
Proof.
  intros [d structs filters constants Hp Hs Hf Hc]. unfold protocol_free, read_proto.
  rewrite without_lookup_None; [done|]. rewrite !elem_of_app. right. right. right. right. left.
Qed.

(** ** A definition with two structs, two rules and two constants *)

Definition demo_heap : heap :=
  list_to_map [(1%positive, Proto (mkProtoBlock (Some 2) (Some 3) 2 (Some 6) 2 (Some 10)))%positive; (2%positive, Bytes);
    (3%positive, Structs [Some 4; Some 5; None]%positive); (4%positive, Bytes); (5%positive, Bytes);
    (6%positive, Filters [(Some 7, None); (Some 8, Some 9)]%positive); (7%positive, Bytes); (8%positive, Bytes); (9%positive, Bytes);
    (10%positive, Constant (Some 11%positive)); (11%positive, Constant None); (12%positive, Bytes)].

Example demo_freed :
  match protocol_free (Some 1%positive) demo_heap with Done h => Some (map fst (map_to_list h)) | _ => None end = Some [12%positive].
Proof. vm_compute. reflexivity. Qed.
